(* ===== verification/_CoqProject ===== *)
-Q . S2P
Prelude.v
RingBuffer.v
KillRing.v
Snowflake.v
ToolChoiceQueue.v
FallbackChain.v
HarnessTypes.v
LifecycleMachine.v
RecoveryClassifier.v
SessionLease.v
JsNumber.v
JsValue.v
CanonicalJson.v
Receipts.v
PhaseRollup.v
ReceiptIngest.v
Operate.v
EventStream.v
ReverseLeases.v
Goals.v
YieldQueue.v
Parallel.v
SpawnGate.v
ResearchLedger.v
JsText.v
HashlineBigrams.v
Hashline.v
HashlineAbsorb.v
HashlineApply.v
HashlineEdits.v
VimBuffer.v
ApplyPatch.v
JobOutput.v
JobDelivery.v
RateLimitPool.v
RateLimitSchedule.v
AwsEventStream.v
AwsEventCodec.v
JsonClone.v
AppendOnlyContext.v
AppendOnlyRuns.v
AppendOnlyFork.v
JobRegistry.v
JobRuns.v
JobShutdown.v
JobQueue.v
CodeUnits.v
StdinBuffer.v
StdinRuns.v
HashlineParser.v
HashlineScript.v
HashlineSections.v
HashlineDisplay.v
HashlineEcho.v
SessionEntries.v
SessionContext.v
SessionTree.v
SessionPaths.v
SessionRuns.v
SessionHistory.v
Compaction.v
CompactionCut.v
BranchSummary.v
AgentTypes.v
ToolBatch.v
ToolBatchRuns.v
ToolBatchSchedule.v
AgentLoop.v
AgentLoopRuns.v
AgentSessions.v
