(* ===== verification/Prelude.v ===== *)
(** * Gajae-Code runtime: verification development

    Gajae-Code is a coding agent written in TypeScript.  This library models
    the self-contained state machines, validators and data structures its
    runtime rests on, and proves what makes them correct.  Paths below are
    under [src/packages/coding-agent/src/] unless they start with [utils/],
    [tui/], [ai/] or [agent/] (then under [src/packages/]).

    ** Parts

    - Shared conventions: [Prelude.v] (throwing computations, JavaScript
      arrays and insertion-ordered maps, 32-bit operators, runs, generic lemmas),
      [JsNumber.v] (binary64 numbers and their text), [JsValue.v]
      (dynamically typed values, conversions, [JSON.stringify] of strings).
    - Data structures: [RingBuffer.v] <- [utils/src/ring.ts],
      [KillRing.v] <- [tui/src/kill-ring.ts],
      [Snowflake.v] <- [utils/src/snowflake.ts].
    - The session's turn loop: [ToolChoiceQueue.v] <-
      [session/tool-choice-queue.ts] (forced tool choices, one in flight),
      [YieldQueue.v] <- [session/yield-queue.ts] (deferred entries delivered
      when the agent yields), [FallbackChain.v] <-
      [session/fallback-chain-controller.ts] (model fallback and backoff),
      [Goals.v] <- [goals/state.ts], [goals/runtime.ts] (a goal's life cycle
      and the bill for its tokens and time).
    - The harness control plane, which supervises a session owned by another
      process: [HarnessTypes.v] <- [harness-control-plane/types.ts]
      (vocabularies, review verdicts), [LifecycleMachine.v] <-
      [state-machine.ts], [lifecycle-reconciliation.ts],
      [RecoveryClassifier.v] <- [classifier.ts], [SessionLease.v] <-
      [session-lease.ts], [CanonicalJson.v] and [Receipts.v] <-
      [receipts.ts], [PhaseRollup.v] <- [phase-rollup.ts] (and the task
      receipt of [task/receipt.ts]), [ReceiptIngest.v] <-
      [receipt-ingest.ts], [Operate.v] <- [operate.ts], [preserve.ts].
      [Operate.v] composes the classifier, the lifecycle table and the receipt
      validator the way the loop calls them; [ReceiptIngest.v] and
      [PhaseRollup.v] are clients of [Receipts.v].
    - The SDK host: [EventStream.v] <- [sdk/host/events.ts] (replay of a
      bounded event ring), [ReverseLeases.v] <- [sdk/host/reverse-leases.ts]
      (leases of reverse-RPC providers and their requests).
    - Subagents and research: [SpawnGate.v] <- [task/spawn-gate.ts],
      [Parallel.v] <- [task/parallel.ts] (worker pool and semaphore),
      [ResearchLedger.v] <- [research-plan/ledger.ts].
    - The edit tool's line-addressed edits: [Hashline.v] <-
      [hashline/types.ts], [hash.ts], [anchors.ts] and the absorption of
      [apply.ts]; [HashlineBigrams.v] the table of line hashes;
      [HashlineApply.v] <- [applyHashlineEdits] with its reference rewriting;
      [HashlineAbsorb.v] what the absorption emits, as a relation;
      [HashlineEdits.v] the theorems.
    - Editing text: [VimBuffer.v] <- [vim/buffer.ts] (lines, cursor, offsets
      and snapshots), [ApplyPatch.v] <- [edit/apply-patch/parser.ts],
      [index.ts] (the multi-file patch envelope); [JsText.v] holds the lines,
      slices and trimming they and the hashline edits share.
    - Background jobs: [JobOutput.v] and [JobDelivery.v] <-
      [async/job-manager.ts] (the retained output of a job and its cursor,
      previews of long completions, the queue of completion messages, its
      asynchronous loop as a step relation, watching, acknowledging, eviction,
      owner fences and dead letters); [JobRegistry.v] <- the same file (jobs
      and their runs, subagent records, the resume queue, the shutdown of an
      owner's subagents), its runs in [JobRuns.v], the theorems on shutdown in
      [JobShutdown.v] and on the resume queue in [JobQueue.v].
    - Talking to services: [RateLimitPool.v] <- [sdk/bus/rate-limit-pool.ts]
      (the token bucket and the priority lanes the sessions of a host share)
      with its runs and theorems in [RateLimitSchedule.v];
      [AwsEventStream.v] <- [ai/src/providers/aws-eventstream.ts] (checksummed
      binary frames and their streaming decoder) with the format's encoder and
      the theorems in [AwsEventCodec.v].
    - What the model is sent: [AppendOnlyContext.v] <-
      [agent/src/append-only-context.ts] and the tool normalization of
      [agent/src/agent-loop.ts] (the cached prefix, the message log and the
      manager the agent loop calls), over the JSON copies of [JsonClone.v];
      [AppendOnlyRuns.v] and [AppendOnlyFork.v] hold the theorems on its runs
      and its forks.
    - Terminal input: [StdinBuffer.v] <- [tui/src/stdin-buffer.ts] (text to
      key sequences and pastes, with its timers) with its runs in
      [StdinRuns.v].
    - The edit language: [HashlineParser.v] <- [hashline/input.ts],
      [parser.ts] and the merging of [execute.ts], over the texts of
      [CodeUnits.v]; [HashlineScript.v] has its syntax and printer,
      [HashlineSections.v] the theorems on whole inputs.
    - What the model is shown: [HashlineDisplay.v] <- the formatting of
      [hashline/hash.ts], [stream.ts] (chunks of bounded size) and
      [prefixes.ts] (echoed prefixes are stripped), with its theorems in
      [HashlineEcho.v].
    - Sessions: [SessionEntries.v] <- [session/session-manager.ts] (entries,
      the records of a file, patches and migrations), [SessionContext.v] <-
      its [buildSessionContext], [SessionTree.v] <- its class
      [SessionManager]; [SessionPaths.v] has paths and well-formed trees,
      [SessionRuns.v] the runs of the manager and what they keep,
      [SessionHistory.v] the theorems.
    - Compaction: [Compaction.v] <- [agent/src/compaction/compaction.ts],
      [utils.ts] and the preserved data of [openai.ts], a client of the
      session; [CompactionCut.v] has its theorems and their composition with
      the session's.  [BranchSummary.v] <- [branch-summarization.ts], the
      serialization of [utils.ts] and [navigateTree] of
      [session/agent-session.ts], another client of the session.
    - The agent loop: [AgentTypes.v] <- [agent/src/types.ts] (messages, tools,
      events, results of tools), [ToolBatch.v] <- [executeToolCalls] of
      [agent/src/agent-loop.ts] (the tasks of a message's tool calls, from
      await to await), [AgentLoop.v] <- its [streamAssistantResponse] and
      [runLoopBody] (turns, queues, repairs, ends of a run), a client of the
      batch.  [ToolBatchRuns.v] and [ToolBatchSchedule.v] hold the theorems on
      batches, [AgentLoopRuns.v] those on runs, and [AgentSessions.v] composes
      a run with the session and its compaction.

    ** How the code is modelled

    A class is a record of its private fields and each public method a
    function from the record to its result and the new record; code that may
    throw returns [outcome].  The operations keep the source's names
    ([decide] of the spawn gate is [decide_spawn]).  Effects a component asks
    of its host (callbacks, persistence, events) are appended to a log in the
    order of the calls.  What the environment decides is an argument: the
    clock (one reading per call), fresh ids, random draws, whether a callback
    throws, what a probe reports.  Callbacks do not call back into the
    component during a call.  Asynchronous code runs without interruption
    between two awaits: a method that awaits only its host is one step, and
    the worker pool is a step relation over the settling of its calls.
    Objects that are aliased carry an identity ([ReverseLeases.v],
    [ToolChoiceQueue.v], [YieldQueue.v]).

    A string is a sequence of code units below 256.  Numbers that the code
    uses as counters, times or sizes are integers; where a [Number] is printed,
    hashed or read from a file it is a binary64 value; bitwise operators wrap
    to 32 bits.  The rate-limit pool's fractional tokens are rationals, with
    the rounding of each operation as a parameter that errs by at most the unit
    roundoff.  SHA-256, the registration fingerprint, the size of a payload,
    [TextDecoder], [Bun.hash], the conversion of Zod schemas and the file
    system's answers are parameters.

    Fuel: [digits_go] has one unit per binary digit, [shortest] 17 decimal
    digits (always enough for a binary64 value), [base36] the 7 digits of a
    32-bit number, the [operate] loop its own
    [maxIterations], [trim_queue] the length of the queue it trims,
    [grant_loop] one more than the items that wait, [header_loop] and
    [frame_loop] the length of their buffer, of which every turn consumes a
    byte at least, [walk] one more than the entries of a session,
    [collect_up] the same, [strip_tag] the length of its text, [turns] any number of turns of a run, [attempt] the code's own twelve.
    Every other recursion is structural.

    ** What the theorems show

    - Refinement of an abstract specification: the ring buffer is a bounded
      deque, the yield queue one list of waiting entries, the phase rollup
      builder meets its validator.
    - Equivalence with a reference: canonical JSON, the review verdict parser,
      the research ledger's verdict.
    - Invariants over every reachable state: the tool-choice queue, the
      fallback budget, the lifecycle table, goals, leases.
    - Safety: no destructive recovery over a dirty worktree, restarts only
      after a preserved snapshot, a single lease owner, exclusive reverse
      leases, receipts accepted only when sound, ingestion fails closed.
    - Liveness and termination: the worker pool and the semaphore make
      progress in every interleaving, the operate loop is bounded, validation
      and ingestion return on every input.
    - Round trips and bounds: snowflakes, built receipts, backoff delays.
    - Edits of files: anchors are checked before anything changes, the result
      is the reference rewriting, and a replacement keeps the lines around its
      range unless the lines it absorbs overlap in its payload
      ([overlapping_absorption_loses_lines] shows what happens then).
    - Editors: the Vim buffer stays well formed, offsets and positions are two
      names of the same places, edits can be undone; the patch parser inverts
      the printing of an envelope, and hunks are applied in order.
    - Background jobs: a cursor reads a job's output exactly once, completions
      are attempted a bounded number of times and never stranded as long as
      jobs are evicted only once nothing of theirs is queued
      ([eviction_strands_delivery] and [drain_spins] show what happens
      otherwise).  No more jobs run than configured, ids are unique, and a job's
      status only moves forward; the resume queue is served in order; and a
      confirmed shutdown leaves no unsettled run of the owner's listed
      subagents ([release_strands_resumes], [failed_resume_stays_queued],
      [completed_job_fails] and [late_settle_evicts_successor] show what is
      not guaranteed).
    - Services: every item submitted to the rate-limit pool is accounted for,
      the rate is bounded and nothing starves ([five_sessions_starve] shows
      where the fairness ends); the event-stream decoder inverts the format's
      encoder for every cut of the stream into chunks, its table-driven
      checksum is the division by its polynomial, and any changed byte is
      refused.
    - Contexts: a copy keeps the JSON text; the log has the contents of the
      messages passed and only grows while they do; what a provider has cached
      stays a prefix of what is sent; a fork inherits it
      ([function_intent_breaks_fork], [other_tracing_breaks_fork],
      [colliding_prompt_is_stale] and [zod_schema_is_copied] show where this
      ends).
    - Terminal input: keys and pastes are the same however the input is cut,
      the rest of a late mouse report brings no key, and every call of
      [process] returns ([malformed_report_before_paste],
      [escape_then_cut_paste] and [meta_in_quarantine] show where the buffer
      does not do what it means to).
    - The edit language: a printed input is split, merged and parsed into the
      edits it means; a script that is cut off is applied without a warning
      ([blank_before_header], [stray_section_becomes_payload],
      [bom_with_fallback] and [huge_range] show where the language does not do
      what it means to).
    - Displayed lines: a streamed file is its formatted lines in chunks within
      the limits, and an echo of them is stripped to the lines
      ([times_are_lost] and [nested_prefix_lost] show what is stripped that
      should not be).
    - Sessions: an append is on disk when it returns, the context is never
      stale, and no branch changes once it is written ([label_cuts_history],
      [fork_moves_leaf], [restore_moves_leaf], [stage_ignores_leaf] and
      [migrated_ids_collide] show where the manager loses its place).
    - Compaction: nothing said since the last compaction is lost, results stay
      with their calls, the cut keeps its budget and a request for a summary
      fits ([second_compaction_forgets], [split_turn_forgets_summary],
      [label_makes_split_turn] and [uncounted] show what is lost).
    - Navigation: what is left is what the branches do not share, and the
      context afterwards is the other branch's with the summary
      ([small_window_is_no_limit], [files_beyond_budget] and
      [developer_is_silent] show what a summary does not see).
    - The agent loop: every tool call is answered once and right behind its
      message, exclusive tools run alone, batches end, nothing the user says is
      lost, and the model is sent the transcript ([leak_retry_is_dropped],
      [repaired_resend_keeps_error], [finished_tool_is_skipped],
      [failed_check_skips_rest] and [late_update_follows_end] show where a run
      does not do what it means to).

    Where the code and its documentation disagree, a lemma records what the
    code does: [lease_takeover_exact], [clean_restarts_unbudgeted],
    [incomplete_snapshot_restarts], [validate_total].

    ** Not modelled

    Providers and authentication ([packages/ai] apart from the binary event
    stream), the agent session and the storage of blobs and of evicted content,
    the requests of a compaction to a model, the provisional
    attempts of a managed fallback in the agent loop, terminal rendering and editors
    ([packages/tui] apart from the kill ring and the stdin buffer), language
    and debug servers, web access, the tmux and team runtimes, the SDK bus and
    daemons, the native crates and the vendored shell: network, process and
    screen I/O around third-party code.  Of the control plane, storage,
    finalization, transports and owner processes are file and process I/O
    around the parts modelled here.  The Vim engine over the modelled buffer
    and the workflow runtime have logic of their own that is not modelled. *)

From stdpp Require Export base list strings gmap.
From Stdlib Require Export ZArith Lia.

(** Bullets and goal selectors are strict in every file. *)
#[export] Set Default Goal Selector "!".

Declare Scope js_scope.
Delimit Scope js_scope with js.

(** ** Throwing computations

    A TypeScript function that may [throw] is a function into [outcome]: the
    error carries the message (or the code) the source constructs. *)
Inductive outcome (E A : Type) : Type :=
| Ok (a : A)
| Throw (e : E).
Arguments Ok {E A} a.
Arguments Throw {E A} e.

Definition outcome_bind {E A B} (m : outcome E A) (k : A -> outcome E B) : outcome E B :=
  match m with
  | Ok a => k a
  | Throw e => Throw e
  end.

Notation "'let*' x ':=' m 'in' k" := (outcome_bind m (fun x => k))
  (at level 10, x pattern, m at level 100, k at level 200) : js_scope.

(** ** JavaScript arrays

    An array of possibly-[undefined] slots.  A read outside the array is
    [undefined]; a write outside it extends the array with holes. *)
Definition arr_get {A} (l : list (option A)) (i : Z) : option A :=
  if decide (0 <= i)%Z then mjoin (l !! Z.to_nat i) else None.

Definition arr_set {A} (l : list (option A)) (i : Z) (x : option A) : list (option A) :=
  let n := Z.to_nat i in
  if decide (n < length l)%nat then <[n := x]> l
  else l ++ replicate (n - length l) None ++ [x].

(** [Array.prototype.slice] with non-negative bounds. *)
Definition slice {A} (l : list A) (s e : Z) : list A :=
  take (Z.to_nat e - Z.to_nat s) (drop (Z.to_nat s) l).

(** [Array.prototype.includes] on values compared by [===]. *)
Definition includes {A} `{EqDecision A} (l : list A) (x : A) : bool :=
  bool_decide (x ∈ l).

(** [Array.prototype.find]. *)
Fixpoint find_first {A} (p : A -> bool) (l : list A) : option A :=
  match l with
  | [] => None
  | x :: r => if p x then Some x else find_first p r
  end.

(** ** JavaScript maps

    A [Map] iterates in insertion order; [set] on a present key keeps its
    place. *)
Section js_map.
Context {K V : Type} `{EqDecision K}.

Fixpoint map_get (m : list (K * V)) (k : K) : option V :=
  match m with
  | [] => None
  | (k', v) :: m => if decide (k' = k) then Some v else map_get m k
  end.

Fixpoint map_set (m : list (K * V)) (k : K) (v : V) : list (K * V) :=
  match m with
  | [] => [(k, v)]
  | (k', v') :: m => if decide (k' = k) then (k, v) :: m else (k', v') :: map_set m k v
  end.

Definition map_delete (m : list (K * V)) (k : K) : list (K * V) :=
  filter (fun p => p.1 <> k) m.
End js_map.

(** ** Tactics shared by the components *)

(** Split every conjunction of the goal and of the context. *)
Ltac split_all := destruct_and?; repeat split.

(** Case analysis on every [match] and [decide] left in the goal. *)
Ltac cases := repeat (case_match || case_decide || case_bool_decide); simplify_eq/=.

(** Reduce record projections and close by arithmetic or congruence. *)
Ltac crush := intros; simpl in *; cases; try done; try lia; try congruence; eauto.

Create HintDb gjc discriminated.

(** ** Lemmas on arrays *)

Lemma arr_set_in {A} (l : list (option A)) (i : Z) (x : option A) :
  (0 <= i < Z.of_nat (length l))%Z ->
  arr_set l i x = <[Z.to_nat i := x]> l.
Proof. intros H. unfold arr_set. rewrite decide_True by lia. done. Qed.

Lemma arr_get_in {A} (l : list (option A)) (i : Z) (x : option A) :
  (0 <= i)%Z -> l !! Z.to_nat i = Some x -> arr_get l i = x.
Proof. intros Hi H. unfold arr_get. rewrite decide_True by done. by rewrite H. Qed.

Lemma find_first_Some {A} (p : A -> bool) (l : list A) x :
  find_first p l = Some x -> x ∈ l /\ p x = true.
Proof.
  induction l as [|y l IH]; simpl; [done|].
  destruct (p y) eqn:E; intros H; simplify_eq; [set_solver|].
  destruct (IH H). set_solver.
Qed.

Lemma find_first_None {A} (p : A -> bool) (l : list A) :
  find_first p l = None <-> forall x, x ∈ l -> p x = false.
Proof.
  induction l as [|y l IH]; simpl.
  - split; [|done]. intros _ x Hx. by apply not_elem_of_nil in Hx.
  - destruct (p y) eqn:E.
    + split; [done|]. intros H. by rewrite (H y) in E by (by left).
    + rewrite IH. setoid_rewrite elem_of_cons. naive_solver.
Qed.

Lemma includes_true {A} `{EqDecision A} (l : list A) x :
  includes l x = true <-> x ∈ l.
Proof. unfold includes. apply bool_decide_eq_true. Qed.

Lemma includes_false {A} `{EqDecision A} (l : list A) x :
  includes l x = false <-> x ∉ l.
Proof. unfold includes. apply bool_decide_eq_false. Qed.

(** ** Lemmas on lists *)

Lemma forallb_Forall {A} (p : A -> bool) l : forallb p l = true <-> Forall (fun x => p x = true) l.
Proof. rewrite forallb_forall, Forall_forall. by setoid_rewrite list_elem_of_In. Qed.

Lemma filter_all {A} (P : A -> Prop) `{!forall x, Decision (P x)} l : Forall P l -> filter P l = l.
Proof.
  induction 1 as [|x l Hx _ IH]; [done|]. rewrite filter_cons, decide_True by done. by rewrite IH.
Qed.

Lemma omap_ext_in {A B} (f g : A -> option B) (l : list A) :
  (forall x, x ∈ l -> f x = g x) -> omap f l = omap g l.
Proof.
  induction l as [|x l IH]; intros H; [done|]. simpl. rewrite (H x) by (by left).
  assert (omap f l = omap g l) as E by (apply IH; intros y Hy; apply H; by right).
  destruct (g x); [f_equal|]; exact E.
Qed.

Lemma NoDup_inj_on {A B} (f : A -> B) (l : list A) x y : NoDup (f <$> l) -> x ∈ l -> y ∈ l -> f x = f y -> x = y.
Proof.
  intros Hn Hx Hy E. induction l as [|z l IH]; [by apply elem_of_nil in Hx|].
  rewrite fmap_cons in Hn. apply NoDup_cons in Hn as [Hz Hn].
  apply elem_of_cons in Hx as [->|Hx]; apply elem_of_cons in Hy as [->|Hy]; [done| | |by apply IH].
  - exfalso. apply Hz. rewrite E. by apply list_elem_of_fmap_2.
  - exfalso. apply Hz. rewrite <- E. by apply list_elem_of_fmap_2.
Qed.

Lemma NoDup_insert_fresh {A} (l : list A) k x : NoDup l -> x ∉ l -> NoDup (<[k := x]> l).
Proof.
  intros Hn Hx. revert k. induction Hn as [|y l Hy Hn IH]; intros k; [constructor|].
  apply not_elem_of_cons in Hx as [Hxy Hx]. destruct k as [|k]; cbn; constructor; auto.
  intros H. apply list_elem_of_lookup in H as [j H]. apply list_lookup_insert_Some in H as [(_ & -> & _)|[_ H]]; [done|].
  by eapply Hy, list_elem_of_lookup_2.
Qed.

Lemma sublist_bool_filter {A} (p : A -> bool) l : List.filter p l `sublist_of` l.
Proof. induction l as [|x l IH]; [done|]. simpl. destruct (p x); by constructor. Qed.

(** ** Runs

    The states a component goes through when a sequence of operations is
    applied to it. *)
Section runs.
Context {St Op : Type} (step : St -> Op -> St).
Implicit Types (s : St) (ops : list Op).

(** Each operation of the run is allowed where it happens. *)
Fixpoint run_allows (allowed : St -> Op -> Prop) s ops : Prop :=
  match ops with
  | [] => True
  | o :: ops => allowed s o /\ run_allows allowed (step s o) ops
  end.

Lemma run_allows_app (allowed : St -> Op -> Prop) s ops ops' :
  run_allows allowed s (ops ++ ops') <-> run_allows allowed s ops /\ run_allows allowed (foldl step s ops) ops'.
Proof. revert s. induction ops as [|o ops IH]; intros s; cbn; [tauto|]. rewrite IH. tauto. Qed.

Lemma run_allows_mono (allowed allowed' : St -> Op -> Prop) s ops :
  (forall s o, allowed s o -> allowed' s o) -> run_allows allowed s ops -> run_allows allowed' s ops.
Proof. intros H. revert s. induction ops as [|o ops IH]; intros s; cbn; [done|]. intros [Ho Hops]. split; auto. Qed.

Lemma foldl_allowed (allowed : St -> Op -> Prop) (I : St -> Prop) ops s :
  (forall s o, I s -> allowed s o -> I (step s o)) ->
  run_allows allowed s ops -> I s -> I (foldl step s ops).
Proof. intros Hstep. revert s. induction ops as [|o ops IH]; intros s Ha Hs; [done|]. apply IH; [apply Ha|by apply Hstep, Ha]. Qed.

Lemma foldl_invariant (I : St -> Prop) ops s :
  (forall s o, o ∈ ops -> I s -> I (step s o)) -> I s -> I (foldl step s ops).
Proof.
  revert s. induction ops as [|o ops IH]; intros s Hstep Hs; [done|].
  apply IH; [intros s' o' Ho; apply Hstep; by right|]. apply Hstep; [by left|done].
Qed.

Lemma foldl_unchanged {B} (f : St -> B) ops s :
  (forall s o, f (step s o) = f s) -> f (foldl step s ops) = f s.
Proof. intros H. apply (foldl_invariant (fun s' => f s' = f s)); [|done]. intros s' o _ E. by rewrite H. Qed.

(** Two components that stay related run side by side. *)
Lemma foldl_simulation {St2} (step2 : St2 -> Op -> St2) (R : St -> St2 -> Prop) ops s (t : St2) :
  (forall s t o, R s t -> R (step s o) (step2 t o)) -> R s t -> R (foldl step s ops) (foldl step2 t ops).
Proof. intros H. revert s t. induction ops as [|o ops IH]; intros s t Hs; [done|]. by apply IH, H. Qed.
End runs.

(** ** Lemmas on maps *)

Section js_map_lemmas.
Context {K V : Type} `{EqDecision K}.
Implicit Types (m : list (K * V)) (k : K) (v : V).

Lemma map_get_set_eq m k v : map_get (map_set m k v) k = Some v.
Proof. induction m as [|[k' v'] m IH]; simpl; repeat (case_decide; simpl); congruence. Qed.

Lemma map_get_set_ne m k k' v : k <> k' -> map_get (map_set m k v) k' = map_get m k'.
Proof. intros H. induction m as [|[a b] m IH]; simpl; repeat (case_decide; simpl); congruence. Qed.

Lemma map_get_delete_eq m k : map_get (map_delete m k) k = None.
Proof.
  unfold map_delete. induction m as [|[a b] m IH]; [done|]. rewrite filter_cons. simpl.
  case_decide; simpl; [by rewrite decide_False|done].
Qed.

Lemma map_get_delete_ne m k k' : k <> k' -> map_get (map_delete m k) k' = map_get m k'.
Proof.
  intros H. unfold map_delete. induction m as [|[a b] m IH]; [done|]. rewrite filter_cons. simpl.
  repeat (case_decide; simpl); congruence.
Qed.

Lemma map_get_elem m k v : map_get m k = Some v -> (k, v) ∈ m.
Proof.
  induction m as [|[a b] m IH]; simpl; [done|]. case_decide; intros Hk.
  - simplify_eq. by left.
  - right. auto.
Qed.

Lemma map_elem_get m k v : NoDup m.*1 -> (k, v) ∈ m -> map_get m k = Some v.
Proof.
  induction m as [|[a b] m IH]; simpl; intros Hn Hin; [by apply elem_of_nil in Hin|].
  apply NoDup_cons in Hn as [Ha Hn]. apply elem_of_cons in Hin as [Hin|Hin].
  - simplify_eq. by rewrite decide_True.
  - rewrite decide_False; [auto|]. intros ->. apply Ha, list_elem_of_fmap. by exists (k, v).
Qed.

Lemma map_get_None m k : map_get m k = None <-> k ∉ m.*1.
Proof.
  induction m as [|[a b] m IH]; simpl.
  - split; [intros _ Hin; by apply elem_of_nil in Hin|done].
  - rewrite not_elem_of_cons. case_decide; subst; naive_solver.
Qed.

Lemma map_set_keys m k v : k ∈ m.*1 -> (map_set m k v).*1 = m.*1.
Proof.
  induction m as [|[a b] m IH]; simpl; intros Hin; [by apply elem_of_nil in Hin|].
  case_decide; simpl; [by subst|]. f_equal. apply IH. set_solver.
Qed.

Lemma map_set_fresh m k v : k ∉ m.*1 -> map_set m k v = m ++ [(k, v)].
Proof.
  induction m as [|[a b] m IH]; simpl; intros Hin; [done|].
  rewrite decide_False by set_solver. f_equal. apply IH. set_solver.
Qed.

Lemma map_set_NoDup m k v : NoDup m.*1 -> NoDup (map_set m k v).*1.
Proof.
  intros Hn. destruct (decide (k ∈ m.*1)); [by rewrite map_set_keys|].
  rewrite map_set_fresh, fmap_app by done. simpl.
  apply NoDup_app. split_and!; [done|set_solver|apply NoDup_singleton].
Qed.

Lemma map_set_in m k v k' : k' ∈ (map_set m k v).*1 <-> k' = k \/ k' ∈ m.*1.
Proof.
  destruct (decide (k ∈ m.*1)) as [Hk|Hk].
  - rewrite map_set_keys by done. naive_solver.
  - rewrite map_set_fresh, fmap_app, elem_of_app by done. simpl. rewrite list_elem_of_singleton. tauto.
Qed.

Lemma map_delete_NoDup m k : NoDup m.*1 -> NoDup (map_delete m k).*1.
Proof. intros Hn. eapply sublist_NoDup; [done|apply fmap_sublist, sublist_filter]. Qed.

Lemma map_set_elem m k v p :
  NoDup m.*1 -> p ∈ map_set m k v -> p = (k, v) \/ (p ∈ m /\ p.1 <> k).
Proof.
  intros Hn Hin. pose proof (map_set_NoDup m k v Hn) as Hn'.
  destruct p as [k' v']. destruct (decide (k' = k)) as [->|Hk].
  - left. apply map_elem_get in Hin; [|done]. rewrite map_get_set_eq in Hin. congruence.
  - right. split; [|done]. apply map_elem_get in Hin; [|done].
    rewrite map_get_set_ne in Hin by done. by apply map_get_elem.
Qed.

Lemma map_delete_elem m k p : p ∈ map_delete m k <-> p.1 <> k /\ p ∈ m.
Proof. unfold map_delete. by rewrite list_elem_of_filter. Qed.

Lemma map_delete_absent m k : k ∉ m.*1 -> map_delete m k = m.
Proof.
  intros H. apply filter_all, Forall_forall. intros p Hp Hk. apply H, list_elem_of_fmap. eauto.
Qed.

Lemma map_get_filter (P : K * V -> Prop) `{!forall p, Decision (P p)} m k v :
  NoDup m.*1 -> map_get m k = Some v ->
  map_get (filter P m) k = if decide (P (k, v)) then Some v else None.
Proof.
  intros Hn Hk. apply map_get_elem in Hk. case_decide as HP.
  - apply map_elem_get; [|by apply list_elem_of_filter].
    eapply sublist_NoDup; [done|apply fmap_sublist, sublist_filter].
  - apply map_get_None. intros Hin. apply list_elem_of_fmap in Hin as ([k' v'] & -> & Hin).
    apply list_elem_of_filter in Hin as [HP' Hin].
    apply (map_elem_get _ _ _ Hn) in Hin, Hk. simpl in *. congruence.
Qed.
End js_map_lemmas.

#[export] Hint Rewrite @map_get_set_eq @map_get_delete_eq : gjc.
#[export] Hint Resolve map_set_NoDup map_delete_NoDup : gjc.

(** ** Lemmas on strings *)

Lemma append_nil (b : string) : EmptyString +:+ b = b.
Proof. done. Qed.

Lemma append_nil_r (a : string) : a +:+ EmptyString = a.
Proof. induction a as [|c a IH]; [done|]. change (String c (a +:+ EmptyString) = String c a). by rewrite IH. Qed.

Lemma append_cons c (a b : string) : String c a +:+ b = String c (a +:+ b).
Proof. done. Qed.

Lemma append_assoc (a b c : string) : (a +:+ b) +:+ c = a +:+ (b +:+ c).
Proof. induction a as [|x a IH]; [done|]. by rewrite !append_cons, IH. Qed.

Lemma append_inv_l (a b c : string) : a +:+ b = a +:+ c -> b = c.
Proof. induction a as [|x a IH]; [done|]. rewrite !append_cons. intros E. injection E as E. by apply IH. Qed.

(** ** Integer remainders *)

(** The remainder of a sum that overshoots the capacity at most once. *)
Lemma rem_wrap (c x : Z) :
  (0 < c)%Z -> (0 <= x < 2 * c)%Z ->
  Z.rem x c = if decide (x < c)%Z then x else (x - c)%Z.
Proof.
  intros Hc Hx. rewrite Z.rem_mod_nonneg by lia.
  case_decide.
  - apply Z.mod_small. lia.
  - rewrite <- (Z.mod_small (x - c) c) by lia.
    replace x with ((x - c) + 1 * c)%Z at 1 by lia.
    by rewrite Z.mod_add by lia.
Qed.

(** ** 32-bit integer operators

    JavaScript's bitwise operators convert their operands with [ToInt32] /
    [ToUint32]; an integer [Number] stays a [Z]. *)
Section int32.
Local Open Scope Z_scope.

Definition to_uint32 (x : Z) : Z := x mod 2 ^ 32.
Definition to_int32 (x : Z) : Z :=
  let u := to_uint32 x in if decide (u < 2 ^ 31) then u else u - 2 ^ 32.
Definition js_shl (x n : Z) : Z := to_int32 (Z.shiftl (to_int32 x) n).
Definition js_or (x y : Z) : Z := Z.lor (to_int32 x) (to_int32 y).
Definition js_and (x y : Z) : Z := Z.land (to_int32 x) (to_int32 y).
Definition js_xor (x y : Z) : Z := Z.lxor (to_int32 x) (to_int32 y).
Definition js_ushr (x n : Z) : Z := Z.shiftr (to_uint32 x) n.

Lemma to_uint32_small x : 0 <= x < 2 ^ 32 -> to_uint32 x = x.
Proof. intros. by apply Z.mod_small. Qed.

Lemma to_int32_small x : 0 <= x < 2 ^ 31 -> to_int32 x = x.
Proof.
  intros. unfold to_int32. rewrite to_uint32_small by lia. by rewrite decide_True by lia.
Qed.

(** [ToInt32] keeps the 32 low bits. *)
Lemma to_uint32_int32 x : to_uint32 (to_int32 x) = to_uint32 x.
Proof.
  unfold to_int32, to_uint32. case_decide.
  - by rewrite Z.mod_mod by lia.
  - replace (x mod 2 ^ 32 - 2 ^ 32) with (x mod 2 ^ 32 + (-1) * 2 ^ 32) by lia.
    by rewrite Z.mod_add, Z.mod_mod by lia.
Qed.

Lemma to_uint32_lor x y : to_uint32 (Z.lor x y) = Z.lor (to_uint32 x) (to_uint32 y).
Proof.
  unfold to_uint32. rewrite <- !Z.land_ones by lia. apply Z.land_lor_distr_l.
Qed.

Lemma to_uint32_land x y : to_uint32 (Z.land x y) = Z.land (to_uint32 x) (to_uint32 y).
Proof.
  unfold to_uint32. rewrite <- !Z.land_ones by lia.
  apply Z.bits_inj'. intros n Hn. rewrite !Z.land_spec.
  by destruct (Z.testbit x n), (Z.testbit y n), (Z.testbit (Z.ones 32) n).
Qed.

Lemma to_uint32_xor x y : to_uint32 (js_xor x y) = Z.lxor (to_uint32 x) (to_uint32 y).
Proof.
  unfold js_xor. rewrite <- (to_uint32_int32 x), <- (to_uint32_int32 y). unfold to_uint32. rewrite <- !Z.land_ones by lia.
  apply Z.bits_inj'. intros n Hn. rewrite !Z.lxor_spec, !Z.land_spec, Z.lxor_spec.
  by destruct (Z.testbit (to_int32 x) n), (Z.testbit (to_int32 y) n), (Z.testbit (Z.ones 32) n).
Qed.

(** Bits that do not overlap: [(a << n) | b] is [a * 2^n + b]. *)
Lemma lor_disjoint a b n :
  0 <= n -> 0 <= b < 2 ^ n -> Z.lor (a * 2 ^ n) b = a * 2 ^ n + b.
Proof.
  intros Hn Hb.
  assert (Z.land (a * 2 ^ n) b = 0) as H.
  { apply Z.bits_inj'. intros m Hm. rewrite Z.land_spec, Z.bits_0.
    destruct (decide (m < n)); [by rewrite Z.mul_pow2_bits_low by lia|].
    destruct (decide (b = 0)) as [->|]; [by rewrite Z.bits_0, andb_false_r|].
    rewrite (Z.bits_above_log2 b m); [apply andb_false_r|lia|].
    apply Z.log2_lt_pow2; [lia|].
    apply (Z.lt_le_trans _ (2 ^ n)); [lia|]. apply Z.pow_le_mono_r; lia. }
  rewrite <- Z.lxor_lor by done. by rewrite <- Z.add_nocarry_lxor.
Qed.
End int32.
