(* ===== verification/RingBuffer.v ===== *)
(** * The fixed-capacity circular buffer ([packages/utils/src/ring.ts])

    [RingBuffer] keeps an array of [capacity] slots, the index of the oldest
    element and the number of elements.  The model keeps the same three fields
    and the same index arithmetic ([%] is [Z.rem]); the abstract specification
    is a bounded double-ended queue over lists, and the refinement theorem
    says that no sequence of calls can tell the two apart. *)

From S2P Require Import Prelude.

Local Open Scope Z_scope.

Section ring.
Context {A : Type}.

Record RingBuffer := mkRing {
  capacity : Z;
  buf : list (option A);
  rhead : Z;
  rsize : Z;
}.

Definition create (cap : Z) : RingBuffer :=
  mkRing cap (replicate (Z.to_nat cap) None) 0 0.

Definition isFull (r : RingBuffer) : bool := bool_decide (rsize r = capacity r).

Definition isEmpty (r : RingBuffer) : bool := bool_decide (rsize r = 0).

Definition push (r : RingBuffer) (item : A) : option A * RingBuffer :=
  let idx := Z.rem (rhead r + rsize r) (capacity r) in
  let overwritten := if decide (rsize r = capacity r) then arr_get (buf r) idx else None in
  let buf' := arr_set (buf r) idx (Some item) in
  if decide (rsize r = capacity r)
  then (overwritten, mkRing (capacity r) buf' (Z.rem (rhead r + 1) (capacity r)) (rsize r))
  else (overwritten, mkRing (capacity r) buf' (rhead r) (rsize r + 1)).

Definition shift (r : RingBuffer) : option A * RingBuffer :=
  if decide (rsize r = 0) then (None, r)
  else
    let item := arr_get (buf r) (rhead r) in
    let buf' := arr_set (buf r) (rhead r) None in
    (item, mkRing (capacity r) buf' (Z.rem (rhead r + 1) (capacity r)) (rsize r - 1)).

Definition pop (r : RingBuffer) : option A * RingBuffer :=
  if decide (rsize r = 0) then (None, r)
  else
    let idx := Z.rem (rhead r + rsize r - 1) (capacity r) in
    let item := arr_get (buf r) idx in
    (item, mkRing (capacity r) (arr_set (buf r) idx None) (rhead r) (rsize r - 1)).

Definition unshift (r : RingBuffer) (item : A) : option A * RingBuffer :=
  let head' := Z.rem (rhead r - 1 + capacity r) (capacity r) in
  let overwritten := if decide (rsize r = capacity r) then arr_get (buf r) head' else None in
  let buf' := arr_set (buf r) head' (Some item) in
  (overwritten,
   mkRing (capacity r) buf' head'
     (if decide (rsize r < capacity r) then rsize r + 1 else rsize r)).

Definition at_ (r : RingBuffer) (index : Z) : option A :=
  let index := if decide (index < 0) then index + rsize r else index in
  if decide (index < 0 \/ index >= rsize r) then None
  else arr_get (buf r) (Z.rem (rhead r + index) (capacity r)).

Definition peek (r : RingBuffer) : option A := at_ r 0.

Definition peekBack (r : RingBuffer) : option A := at_ r (rsize r - 1).

Definition clear (r : RingBuffer) : RingBuffer :=
  mkRing (capacity r) (replicate (length (buf r)) None) 0 0.

(** The generator behind [for ... of]: slot [head + i] for [i] below the size. *)
Definition iterator (r : RingBuffer) : list (option A) :=
  (fun i => arr_get (buf r) (Z.rem (rhead r + Z.of_nat i) (capacity r)))
    <$> seq 0 (Z.to_nat (rsize r)).

Definition toArray (r : RingBuffer) : list (option A) :=
  if decide (rhead r + rsize r <= capacity r)
  then slice (buf r) (rhead r) (rhead r + rsize r)
  else
    let tail := slice (buf r) (rhead r) (capacity r) in
    let head := slice (buf r) 0 (Z.rem (rhead r + rsize r) (capacity r)) in
    tail ++ head.

(** ** Specification: a bounded double-ended queue *)
Definition spec_push (cap : Z) (xs : list A) (x : A) : option A * list A :=
  if decide (Z.of_nat (length xs) = cap) then (head xs, tail xs ++ [x]) else (None, xs ++ [x]).
Definition spec_shift (xs : list A) : option A * list A := (head xs, tail xs).
Definition spec_pop (xs : list A) : option A * list A := (last xs, removelast xs).
Definition spec_unshift (cap : Z) (xs : list A) (x : A) : option A * list A :=
  if decide (Z.of_nat (length xs) = cap)
  then (last xs, x :: removelast xs) else (None, x :: xs).
Definition spec_at (xs : list A) (i : Z) : option A :=
  let n := Z.of_nat (length xs) in
  if decide (0 <= i < n) then xs !! Z.to_nat i
  else if decide (- n <= i < 0) then xs !! Z.to_nat (i + n) else None.

(** The physical slot of the logical index [i]. *)
Definition phys (r : RingBuffer) (i : Z) : nat :=
  Z.to_nat (if decide (rhead r + i < capacity r) then rhead r + i else rhead r + i - capacity r).

(** [r] holds the elements [xs], oldest first; every slot outside the window
    of live elements is [undefined], so no removed element is retained. *)
Record repr (r : RingBuffer) (xs : list A) : Prop := {
  repr_cap : 0 < capacity r;
  repr_head : 0 <= rhead r < capacity r;
  repr_len : Z.of_nat (length (buf r)) = capacity r;
  repr_size : rsize r = Z.of_nat (length xs);
  repr_bound : rsize r <= capacity r;
  repr_slots i : 0 <= i < capacity r -> buf r !! phys r i = Some (xs !! Z.to_nat i)
}.

(** ** Index arithmetic *)

Lemma phys_inj r i j :
  0 <= rhead r < capacity r -> 0 <= i < capacity r -> 0 <= j < capacity r ->
  phys r i = phys r j -> i = j.
Proof. unfold phys. intros. repeat case_decide; lia. Qed.

Lemma phys_lt r i :
  0 <= rhead r < capacity r -> 0 <= i < capacity r ->
  Z.of_nat (phys r i) < capacity r.
Proof. unfold phys. intros. case_decide; lia. Qed.

(** The index expression of the source computes the physical slot. *)
Lemma rem_phys r i :
  0 <= rhead r < capacity r -> 0 <= i < capacity r ->
  Z.rem (rhead r + i) (capacity r) = Z.of_nat (phys r i).
Proof. intros. rewrite rem_wrap by lia. unfold phys. case_decide; lia. Qed.

Lemma get_phys r xs i :
  repr r xs -> 0 <= i < capacity r ->
  arr_get (buf r) (Z.of_nat (phys r i)) = xs !! Z.to_nat i.
Proof.
  intros [] Hi. apply arr_get_in; [lia|]. rewrite Nat2Z.id. auto.
Qed.

Lemma set_phys r xs i v :
  repr r xs -> 0 <= i < capacity r ->
  arr_set (buf r) (Z.of_nat (phys r i)) v = <[phys r i := v]> (buf r).
Proof.
  intros [] Hi. rewrite arr_set_in, Nat2Z.id; [done|].
  pose proof (phys_lt r i). lia.
Qed.

Lemma slot_write r xs i j v :
  repr r xs -> 0 <= i < capacity r -> 0 <= j < capacity r ->
  <[phys r i := v]> (buf r) !! phys r j
    = Some (if decide (i = j) then v else xs !! Z.to_nat j).
Proof.
  intros [] Hi Hj. case_decide as E.
  - subst j. apply list_lookup_insert_eq. pose proof (phys_lt r i). lia.
  - rewrite list_lookup_insert_ne; [by auto|].
    intros Hp. apply E. by apply (phys_inj r).
Qed.

Lemma phys_next r r' i :
  capacity r' = capacity r -> rhead r' = Z.rem (rhead r + 1) (capacity r) ->
  0 <= rhead r < capacity r -> 0 <= i < capacity r ->
  phys r' i = phys r (if decide (i + 1 < capacity r) then i + 1 else 0).
Proof.
  intros Hc Hh H1 H2. rewrite rem_wrap in Hh by lia. unfold phys. rewrite Hc, Hh.
  repeat case_decide; lia.
Qed.

Lemma phys_prev r r' i :
  capacity r' = capacity r -> rhead r' = Z.rem (rhead r - 1 + capacity r) (capacity r) ->
  0 <= rhead r < capacity r -> 0 <= i < capacity r ->
  phys r' i = phys r (if decide (0 < i) then i - 1 else capacity r - 1).
Proof.
  intros Hc Hh H1 H2. rewrite rem_wrap in Hh by lia. unfold phys. rewrite Hc, Hh.
  repeat case_decide; lia.
Qed.

Lemma lookup_snoc (xs : list A) x i :
  0 <= i ->
  (xs ++ [x]) !! Z.to_nat i
    = if decide (Z.of_nat (length xs) = i) then Some x else xs !! Z.to_nat i.
Proof.
  intros Hi. case_decide.
  - rewrite lookup_app_r by lia.
    by replace (Z.to_nat i - length xs)%nat with 0%nat by lia.
  - destruct (decide (Z.to_nat i < length xs)%nat).
    + by rewrite lookup_app_l by lia.
    + rewrite lookup_app_r, lookup_ge_None_2 by (simpl; lia).
      symmetry. apply lookup_ge_None. lia.
Qed.

Lemma lookup_tail (xs : list A) i :
  0 <= i -> tail xs !! Z.to_nat i = xs !! Z.to_nat (i + 1).
Proof.
  intros Hi. replace (Z.to_nat (i + 1)) with (S (Z.to_nat i)) by lia. by destruct xs.
Qed.

Lemma lookup_removelast (xs : list A) (n : nat) :
  removelast xs !! n = if decide (S n < length xs)%nat then xs !! n else None.
Proof.
  destruct xs as [|x xs _] using rev_ind; [by case_decide|].
  rewrite removelast_last, length_app. simpl. case_decide.
  - by rewrite lookup_app_l by lia.
  - apply lookup_ge_None. lia.
Qed.

Lemma length_removelast (xs : list A) :
  length (removelast xs) = pred (length xs).
Proof.
  destruct xs as [|x xs _] using rev_ind; [done|].
  rewrite removelast_last, length_app. simpl. lia.
Qed.

Lemma lookup_cons_Z (xs : list A) x i :
  0 <= i ->
  (x :: xs) !! Z.to_nat i = if decide (0 < i) then xs !! Z.to_nat (i - 1) else Some x.
Proof.
  intros Hi. case_decide.
  - by replace (Z.to_nat i) with (S (Z.to_nat (i - 1))) by lia.
  - by replace (Z.to_nat i) with 0%nat by lia.
Qed.

Lemma length_tail' (xs : list A) : length (tail xs) = pred (length xs).
Proof. by destruct xs. Qed.

(** ** Each operation refines its specification *)

Lemma repr_create cap : 0 < cap -> repr (create cap) [].
Proof.
  intros H. split; simpl; rewrite ?length_replicate; try lia.
  intros i Hi. apply lookup_replicate_2. pose proof (phys_lt (create cap) i). simpl in *. lia.
Qed.

Lemma repr_clear r xs : repr r xs -> repr (clear r) [].
Proof.
  intros []. split; simpl; rewrite ?length_replicate; try lia.
  intros i Hi. apply lookup_replicate_2. pose proof (phys_lt (clear r) i). simpl in *. lia.
Qed.

(** The proof pattern shared by the four updates: the new window is the old
    one rotated, with a single physical slot rewritten. *)
Ltac slots :=
  simpl; intros;
  repeat match goal with
  | |- context [lookup _ (<[_ := _]> _)] => erewrite slot_write by (eauto; try case_decide; lia)
  | |- context [(_ ++ [_]) !! _] => rewrite lookup_snoc by lia
  | |- context [tail _ !! _] => rewrite lookup_tail by lia
  | |- context [removelast _ !! _] => rewrite lookup_removelast
  | |- context [(_ :: _) !! _] => rewrite lookup_cons_Z by lia
  end;
  rewrite ?length_tail', ?length_removelast;
  repeat case_decide; try lia; try done; f_equal; try done; try (f_equal; lia);
  try (symmetry; apply lookup_ge_None; lia); try (apply lookup_ge_None; lia).

Lemma push_refines r xs x :
  repr r xs ->
  (push r x).1 = (spec_push (capacity r) xs x).1 /\
  repr (push r x).2 (spec_push (capacity r) xs x).2 /\
  capacity (push r x).2 = capacity r.
Proof.
  intros Hr. pose proof Hr as []. unfold push, spec_push. rewrite <- repr_size0.
  case_decide as E.
  - replace (Z.rem (rhead r + rsize r) (capacity r)) with (Z.of_nat (phys r 0)).
    2: { unfold phys. rewrite rem_wrap by lia. repeat case_decide; lia. }
    erewrite get_phys, set_phys by (eauto; lia). simpl. split_and!; [by destruct xs| |done].
    split; simpl; rewrite ?length_insert, ?length_app, ?length_tail'; simpl; try lia.
    + rewrite rem_wrap by lia. case_decide; lia.
    + intros i Hi. erewrite (phys_next r) by (simpl; done || lia). slots.
  - rewrite rem_phys by lia. erewrite set_phys by (eauto; lia). simpl.
    split_and!; [done| |done].
    split; simpl; rewrite ?length_insert, ?length_app; simpl; try lia.
    intros i Hi. change (phys (mkRing _ _ _ _) i) with (phys r i). slots.
Qed.

Lemma shift_refines r xs :
  repr r xs ->
  (shift r).1 = (spec_shift xs).1 /\
  repr (shift r).2 (spec_shift xs).2 /\ capacity (shift r).2 = capacity r.
Proof.
  intros Hr. pose proof Hr as []. unfold shift, spec_shift. case_decide as E.
  { assert (xs = []) as -> by (apply length_zero_iff_nil; lia). done. }
  assert (rhead r = Z.of_nat (phys r 0)) as Hh by (unfold phys; repeat case_decide; lia).
  pose proof (get_phys r xs 0 Hr ltac:(lia)) as Hget.
  pose proof (set_phys r xs 0 None Hr ltac:(lia)) as Hset.
  rewrite <- Hh in Hget, Hset. rewrite Hget, Hset.
  simpl. split_and!; [by destruct xs| |done].
  split; simpl; rewrite ?length_insert, ?length_tail'; try lia.
  - rewrite rem_wrap by lia. case_decide; lia.
  - intros i Hi. erewrite (phys_next r) by (simpl; done || lia). slots.
Qed.

Lemma lookup_last (xs : list A) : xs !! Z.to_nat (Z.of_nat (length xs) - 1) = last xs.
Proof. rewrite last_lookup. f_equal. lia. Qed.

Lemma pop_refines r xs :
  repr r xs ->
  (pop r).1 = (spec_pop xs).1 /\
  repr (pop r).2 (spec_pop xs).2 /\ capacity (pop r).2 = capacity r.
Proof.
  intros Hr. pose proof Hr as []. unfold pop, spec_pop. case_decide as E.
  { assert (xs = []) as -> by (apply length_zero_iff_nil; lia). done. }
  replace (rhead r + rsize r - 1) with (rhead r + (rsize r - 1)) by lia.
  rewrite rem_phys by lia.
  erewrite get_phys, set_phys by (eauto; lia). simpl.
  rewrite repr_size0 at 1. rewrite lookup_last. split_and!; [done| |done].
  split; simpl; rewrite ?length_insert, ?length_removelast; try lia.
  intros i Hi. change (phys (mkRing _ _ _ _) i) with (phys r i). slots.
Qed.

Lemma unshift_refines r xs x :
  repr r xs ->
  (unshift r x).1 = (spec_unshift (capacity r) xs x).1 /\
  repr (unshift r x).2 (spec_unshift (capacity r) xs x).2 /\
  capacity (unshift r x).2 = capacity r.
Proof.
  intros Hr. pose proof Hr as []. unfold unshift, spec_unshift. rewrite <- repr_size0.
  set (h := Z.rem (rhead r - 1 + capacity r) (capacity r)).
  assert (h = Z.of_nat (phys r (capacity r - 1))) as Hh.
  { unfold h, phys. rewrite rem_wrap by lia. repeat case_decide; lia. }
  rewrite Hh. erewrite get_phys, set_phys by (eauto; lia). rewrite <- Hh.
  assert (0 <= h < capacity r) by (unfold h; rewrite rem_wrap by lia; case_decide; lia).
  destruct (decide (rsize r = capacity r)) as [E|E];
    simpl; (split; [|split; [|done]]); try done.
  - rewrite <- E, repr_size0. apply lookup_last.
  - split; simpl; rewrite ?length_insert, ?length_removelast; try case_decide; try lia.
    intros i Hi. erewrite (phys_prev r) by (simpl; done || lia). slots.
  - split; simpl; rewrite ?length_insert; try case_decide; try lia.
    intros i Hi. erewrite (phys_prev r) by (simpl; done || lia). slots.
Qed.

Lemma at_refines r xs i : repr r xs -> at_ r i = spec_at xs i.
Proof.
  intros Hr. pose proof Hr as []. unfold at_, spec_at. rewrite <- repr_size0.
  destruct (decide (i < 0)).
  - repeat case_decide; try lia; try done.
    rewrite rem_phys by lia. erewrite get_phys by (eauto; lia). f_equal; lia.
  - repeat case_decide; try lia; try done.
    rewrite rem_phys by lia. by erewrite get_phys by (eauto; lia).
Qed.

Lemma iterator_refines r xs : repr r xs -> iterator r = Some <$> xs.
Proof.
  intros Hr. pose proof Hr as []. apply list_eq. intros i. unfold iterator.
  rewrite !list_lookup_fmap.
  destruct (decide (i < length xs)%nat) as [Hi|Hi].
  - rewrite lookup_seq_lt by lia. simpl.
    rewrite rem_phys by lia. erewrite get_phys by (eauto; lia).
    rewrite Nat2Z.id. destruct (lookup_lt_is_Some_2 xs i Hi) as [x Hx]. by rewrite Hx.
  - rewrite lookup_seq_ge, lookup_ge_None_2 by lia. done.
Qed.

Lemma lookup_slice {B} (l : list B) (s e : Z) (i : nat) :
  0 <= s ->
  slice l s e !! i = if decide (s + Z.of_nat i < e) then l !! Z.to_nat (s + Z.of_nat i) else None.
Proof.
  intros Hs. unfold slice. case_decide.
  - rewrite lookup_take_lt by lia. rewrite lookup_drop. f_equal; lia.
  - apply lookup_take_ge. lia.
Qed.

Lemma length_slice {B} (l : list B) (s e : Z) :
  0 <= s <= e -> e <= Z.of_nat (length l) -> Z.of_nat (length (slice l s e)) = e - s.
Proof. intros. unfold slice. rewrite length_take, length_drop. lia. Qed.

Lemma toArray_refines r xs : repr r xs -> toArray r = Some <$> xs.
Proof.
  intros Hr. pose proof Hr as []. apply list_eq. intros i.
  rewrite list_lookup_fmap.
  assert (forall j, (j = i) -> (i < length xs)%nat -> buf r !! phys r (Z.of_nat j) = Some <$> (xs !! i)) as Hs.
  { intros j -> Hi. rewrite repr_slots0, Nat2Z.id by lia.
    destruct (lookup_lt_is_Some_2 xs i Hi) as [x Hx]. by rewrite Hx. }
  unfold toArray. case_decide as E.
  - rewrite lookup_slice by lia. case_decide.
    + rewrite <- (Hs i) by lia. unfold phys. f_equal. case_decide; lia.
    + symmetry. by rewrite lookup_ge_None_2 by lia.
  - pose proof (length_slice (buf r) (rhead r) (capacity r)) as Hl.
    rewrite lookup_app, !lookup_slice by lia.
    rewrite rem_wrap by lia. rewrite (decide_False (P := rhead r + rsize r < _)) by lia.
    destruct (decide (rhead r + Z.of_nat i < capacity r)) as [Hlt|Hge].
    + rewrite <- (Hs i) by lia. unfold phys.
      rewrite (decide_True (P := rhead r + Z.of_nat i < _)) by lia.
      destruct (lookup_lt_is_Some_2 (buf r) (Z.to_nat (rhead r + Z.of_nat i))) as [y Hy]; [lia|].
      by rewrite Hy.
    + case_decide.
      * rewrite <- (Hs i) by lia. unfold phys. rewrite decide_False by lia. f_equal; lia.
      * by rewrite (lookup_ge_None_2 xs) by lia.
Qed.
End ring.
Arguments RingBuffer : clear implicits.

(** ** Call sequences *)

Inductive ring_op (A : Type) : Type :=
| OpPush (x : A)
| OpShift
| OpPop
| OpUnshift (x : A)
| OpAt (i : Z)
| OpPeek
| OpPeekBack
| OpClear
| OpIterate
| OpToArray
| OpLength
| OpIsFull
| OpIsEmpty.
Arguments OpPush {A} x.
Arguments OpShift {A}.
Arguments OpPop {A}.
Arguments OpUnshift {A} x.
Arguments OpAt {A} i.
Arguments OpPeek {A}.
Arguments OpPeekBack {A}.
Arguments OpClear {A}.
Arguments OpIterate {A}.
Arguments OpToArray {A}.
Arguments OpLength {A}.
Arguments OpIsFull {A}.
Arguments OpIsEmpty {A}.

(** What a caller sees of one call. *)
Inductive ring_obs (A : Type) : Type :=
| ObsItem (x : option A)
| ObsItems (xs : list (option A))
| ObsLength (n : Z)
| ObsBool (b : bool)
| ObsVoid.
Arguments ObsItem {A} x.
Arguments ObsItems {A} xs.
Arguments ObsLength {A} n.
Arguments ObsBool {A} b.
Arguments ObsVoid {A}.

Section traces.
Context {A : Type}.

Definition ring_step (r : RingBuffer A) (o : ring_op A) : ring_obs A * RingBuffer A :=
  match o with
  | OpPush x => let '(y, r') := push r x in (ObsItem y, r')
  | OpShift => let '(y, r') := shift r in (ObsItem y, r')
  | OpPop => let '(y, r') := pop r in (ObsItem y, r')
  | OpUnshift x => let '(y, r') := unshift r x in (ObsItem y, r')
  | OpAt i => (ObsItem (at_ r i), r)
  | OpPeek => (ObsItem (peek r), r)
  | OpPeekBack => (ObsItem (peekBack r), r)
  | OpClear => (ObsVoid, clear r)
  | OpIterate => (ObsItems (iterator r), r)
  | OpToArray => (ObsItems (toArray r), r)
  | OpLength => (ObsLength (rsize r), r)
  | OpIsFull => (ObsBool (isFull r), r)
  | OpIsEmpty => (ObsBool (isEmpty r), r)
  end.

Definition deque_step (cap : Z) (xs : list A) (o : ring_op A) : ring_obs A * list A :=
  match o with
  | OpPush x => let '(y, l) := spec_push cap xs x in (ObsItem y, l)
  | OpShift => let '(y, l) := spec_shift xs in (ObsItem y, l)
  | OpPop => let '(y, l) := spec_pop xs in (ObsItem y, l)
  | OpUnshift x => let '(y, l) := spec_unshift cap xs x in (ObsItem y, l)
  | OpAt i => (ObsItem (spec_at xs i), xs)
  | OpPeek => (ObsItem (head xs), xs)
  | OpPeekBack => (ObsItem (last xs), xs)
  | OpClear => (ObsVoid, [])
  | OpIterate | OpToArray => (ObsItems (Some <$> xs), xs)
  | OpLength => (ObsLength (Z.of_nat (length xs)), xs)
  | OpIsFull => (ObsBool (bool_decide (Z.of_nat (length xs) = cap)), xs)
  | OpIsEmpty => (ObsBool (bool_decide (xs = [])), xs)
  end.

Fixpoint run {S} (step : S -> ring_op A -> ring_obs A * S) (s : S) (os : list (ring_op A))
    : list (ring_obs A) * S :=
  match os with
  | [] => ([], s)
  | o :: os => let '(b, s) := step s o in let '(bs, s) := run step s os in (b :: bs, s)
  end.

Lemma peekBack_refines (r : RingBuffer A) xs : repr r xs -> peekBack r = last xs.
Proof.
  intros Hr. unfold peekBack. rewrite (at_refines r xs) by done.
  destruct Hr. unfold spec_at. rewrite <- lookup_last, repr_size0.
  repeat case_decide; try lia; [done|].
  assert (xs = []) as -> by (apply length_zero_iff_nil; lia). done.
Qed.

Lemma peek_refines (r : RingBuffer A) xs : repr r xs -> peek r = head xs.
Proof.
  intros Hr. unfold peek. rewrite (at_refines r xs) by done.
  destruct xs; [done|]. unfold spec_at. rewrite decide_True by (simpl; lia). done.
Qed.

(** A call that returns an element and a new state refines as a pair. *)
Lemma item_refines (cap : Z) (p : option A * RingBuffer A) (q : option A * list A) :
  p.1 = q.1 /\ repr p.2 q.2 /\ capacity p.2 = cap ->
  (let '(y, r') := p in (ObsItem y, r')).1 = (let '(y, l) := q in (ObsItem y, l)).1 /\
  repr (let '(y, r') := p in (ObsItem y, r')).2 (let '(y, l) := q in (ObsItem y, l)).2 /\
  capacity (let '(y, r') := p in (ObsItem y, r')).2 = cap.
Proof. destruct p, q; simpl. intros (-> & H & Hc). done. Qed.

Lemma step_refines r xs o :
  repr r xs ->
  (ring_step r o).1 = (deque_step (capacity r) xs o).1 /\
  repr (ring_step r o).2 (deque_step (capacity r) xs o).2 /\
  capacity (ring_step r o).2 = capacity r.
Proof.
  intros Hr. destruct o.
  - exact (item_refines _ _ _ (push_refines r xs x Hr)).
  - exact (item_refines _ _ _ (shift_refines r xs Hr)).
  - exact (item_refines _ _ _ (pop_refines r xs Hr)).
  - exact (item_refines _ _ _ (unshift_refines r xs x Hr)).
  - simpl. split_and!; [f_equal|done..]. by apply at_refines.
  - simpl. split_and!; [f_equal|done..]. by apply peek_refines.
  - simpl. split_and!; [f_equal|done..]. by apply peekBack_refines.
  - simpl. split_and!; [done| |done]. by eapply repr_clear.
  - simpl. split_and!; [f_equal|done..]. by apply iterator_refines.
  - simpl. split_and!; [f_equal|done..]. by apply toArray_refines.
  - simpl. split_and!; [f_equal|done..]. by destruct Hr.
  - simpl. split_and!; [f_equal|done..]. unfold isFull. by destruct Hr as [??? ->].
  - simpl. split_and!; [f_equal|done..]. unfold isEmpty. destruct Hr as [??? ->].
    apply bool_decide_ext. destruct xs; simpl; split; intros; done || lia.
Qed.

(** Observational refinement: over any sequence of calls on a buffer of
    positive capacity, every value the circular buffer returns (overwritten
    elements, reads by positive or negative index, iteration, [toArray],
    sizes) is the value a bounded deque over plain lists returns, and the
    slots outside the live window stay cleared. *)
Theorem ring_refines_bounded_deque (cap : Z) (os : list (ring_op A)) :
  0 < cap ->
  (run ring_step (create cap) os).1 = (run (deque_step cap) [] os).1 /\
  repr (run ring_step (create cap) os).2 (run (deque_step cap) [] os).2.
Proof.
  intros Hcap.
  assert (forall r xs, repr r xs -> capacity r = cap ->
    (run ring_step r os).1 = (run (deque_step cap) xs os).1 /\
    repr (run ring_step r os).2 (run (deque_step cap) xs os).2) as H.
  { induction os as [|o os IH]; simpl; intros r xs Hr Hc; [done|].
    destruct (step_refines r xs o Hr) as (H1 & H2 & H3). rewrite Hc in *.
    destruct (ring_step r o) as [b r'], (deque_step cap xs o) as [b' xs']; simpl in *. subst b'.
    destruct (IH r' xs' H2 H3) as [H4 H5].
    destruct (run ring_step r' os), (run (deque_step cap) xs' os); simpl in *. by subst. }
  apply H; [by apply repr_create|done].
Qed.
End traces.

Lemma ring_refines_bounded_deque_witness :
  0 < 2 /\
  (run ring_step (create 2) [OpPush 7; OpPush 8; OpPush 9; OpUnshift 1; OpToArray; OpPop]).1
    = (run (deque_step 2) [] [OpPush 7; OpPush 8; OpPush 9; OpUnshift 1; OpToArray; OpPop]).1.
Proof.
  split; [lia|].
  refine (proj1 (ring_refines_bounded_deque 2
    [OpPush 7; OpPush 8; OpPush 9; OpUnshift 1; OpToArray; OpPop] _)); lia.
Defined.
