(* ===== verification/KillRing.v ===== *)
(** * The kill ring ([packages/tui/src/kill-ring.ts])

    Emacs-style kill and yank: the ring is an array of strings whose last
    element is the most recent kill. *)

From S2P Require Import Prelude.

Definition KillRing := list string.

Record KillOpts := { prepend : bool; accumulate : bool }.

Definition kpush (ring : KillRing) (text : string) (opts : KillOpts) : KillRing :=
  if decide (text = EmptyString) then ring
  else if accumulate opts && bool_decide (0 < length ring) then
    match last ring with
    | Some l => removelast ring ++ [if prepend opts then (text +:+ l) else (l +:+ text)]
    | None => ring
    end
  else ring ++ [text].

Definition kpeek (ring : KillRing) : option string :=
  if decide (0 < length ring) then ring !! (length ring - 1)%nat else None.

Definition rotate (ring : KillRing) : KillRing :=
  if decide (1 < length ring) then
    match last ring with
    | Some l => l :: removelast ring
    | None => ring
    end
  else ring.

(** ** Lemmas *)

Lemma rotate_snoc (ring : KillRing) x : rotate (ring ++ [x]) = x :: ring.
Proof.
  unfold rotate. rewrite length_app, last_snoc, removelast_last. simpl.
  case_decide; [done|]. destruct ring; [done|]. simpl in *. lia.
Qed.

Lemma rotate_iter (a b : KillRing) :
  Nat.iter (length b) rotate (a ++ b) = b ++ a.
Proof.
  revert a. induction b as [|x b IH] using rev_ind; intros a; [by rewrite app_nil_r|].
  rewrite length_app, Nat.add_1_r. rewrite Nat.iter_succ_r, app_assoc, rotate_snoc.
  change (x :: a ++ b) with ((x :: a) ++ b). rewrite IH. by rewrite <- app_assoc.
Qed.

Lemma kpeek_last (ring : KillRing) : kpeek ring = last ring.
Proof.
  unfold kpeek. rewrite last_lookup. case_decide; [by rewrite <- Nat.sub_1_r|].
  destruct ring; [done|simpl in *; lia].
Qed.

Lemma kpush_nonempty ring text opts :
  Forall (.≠ EmptyString) ring -> Forall (.≠ EmptyString) (kpush ring text opts).
Proof.
  intros H. unfold kpush. case_decide as Ht; [done|].
  destruct ring as [|x ring _] using rev_ind.
  { rewrite bool_decide_false by (simpl; lia). rewrite andb_false_r. by constructor. }
  rewrite last_snoc, removelast_last. apply Forall_app in H as [H1 H2].
  case_match; rewrite !Forall_app; repeat split; try done; repeat constructor; try done.
  destruct text; [done|]. destruct (prepend opts); [done|]. by destruct x.
Qed.

(** Yank-pop visits the whole ring: the [k]-th rotation exposes the
    [k]-th most recent kill (for every [k] below the number of entries), and
    as many rotations as there are entries restore the ring exactly. *)
Theorem yank_pop_cycles (ring : KillRing) (k : nat) :
  Nat.iter (length ring) rotate ring = ring /\
  (k < length ring -> kpeek (Nat.iter k rotate ring) = reverse ring !! k).
Proof.
  split.
  - pose proof (rotate_iter [] ring) as H. by rewrite app_nil_r in H.
  - intros Hk.
    assert (Nat.iter k rotate ring = drop (length ring - k) ring ++ take (length ring - k) ring) as ->.
    { rewrite <- rotate_iter, take_drop. f_equal. rewrite length_drop. lia. }
    rewrite kpeek_last, last_app.
    replace (length ring - k)%nat with (S (length ring - S k)) by lia.
    destruct (lookup_lt_is_Some_2 ring (length ring - S k)) as [x Hx]; [lia|].
    rewrite (take_S_r _ _ x Hx), last_snoc.
    by rewrite reverse_lookup.
Qed.

Lemma yank_pop_cycles_witness :
  1 < 3 /\ kpeek (Nat.iter 1 rotate ["a"; "b"; "c"]) = Some "b".
Proof.
  split; [lia|].
  exact (proj2 (yank_pop_cycles ["a"; "b"; "c"] 1) ltac:(simpl; lia)).
Defined.
