(* ===== verification/Snowflake.v ===== *)
(** * Snowflake identifiers ([packages/utils/src/snowflake.ts])

    A snowflake is a 16-digit lower-case hexadecimal string: the milliseconds
    since [EPOCH] in the high bits and a 22-bit sequence number in the low
    bits.  The source splits the 64-bit value by hand to stay inside the exact
    integers of a [Number] and JavaScript's 32-bit operators; the reference
    definition is the plain 16-digit numeral of [dt * 2^22 + seq]. *)

From S2P Require Import Prelude.
From Stdlib Require Import Ascii.

Local Open Scope Z_scope.

Definition EPOCH : Z := 1420070400000.
Definition MAX_SEQ : Z := 0x3fffff.

(** The digit characters [0-9] and [a-f] by their character codes. *)
Definition hexchar (d : Z) : ascii :=
  ascii_of_N (Z.to_N (if decide (d < 10) then 48 + d else 87 + d)).

Definition hexval (c : ascii) : option Z :=
  let n := Z.of_N (N_of_ascii c) in
  if decide (48 <= n <= 57) then Some (n - 48)
  else if decide (97 <= n <= 102) then Some (n - 87)
  else None.

(** [v.toString(16).padStart(n, "0")] for [v < 16^n]. *)
Fixpoint hexN (n : nat) (v : Z) : string :=
  match n with
  | O => EmptyString
  | S n => String (hexchar (v / 16 ^ Z.of_nat n mod 16)) (hexN n v)
  end.

(** One entry of the 65536-entry lookup table. *)
Definition HEX4 (v : Z) : string := hexN 4 v.

(** [Number.parseInt(s, 16)] on a string of lower-case hexadecimal digits: the
    longest valid prefix, [None] for [NaN]. *)
Fixpoint parse_digits (s : string) (acc : Z) : Z :=
  match s with
  | EmptyString => acc
  | String c r => match hexval c with Some d => parse_digits r (acc * 16 + d) | None => acc end
  end.
Definition parseHex (s : string) : option Z :=
  match s with
  | EmptyString => None
  | String c r => (fun d => parse_digits r d) <$> hexval c
  end.

Definition formatParts (dt seq : Z) : string :=
  let dtLo := Z.rem dt 1024 in
  let hi := Z.quot (dt - dtLo) 1024 in
  let lo := js_ushr (js_or (js_shl dtLo 22) seq) 0 in
  let hi1 := js_and (js_ushr hi 16) 0xffff in
  let hi2 := js_and hi 0xffff in
  let lo1 := js_and (js_ushr lo 16) 0xffff in
  let lo2 := js_and lo 0xffff in
  HEX4 hi1 +:+ HEX4 hi2 +:+ HEX4 lo1 +:+ HEX4 lo2.

(** [class Source]: its only field is the sequence number. *)
Record Source := { src_seq : Z }.

Definition mkSource (sequence : Z) : Source := {| src_seq := js_and sequence MAX_SEQ |}.
Definition sequence (s : Source) : Z := js_and (src_seq s) MAX_SEQ.
Definition reset (s : Source) : Source := {| src_seq := 0 |}.

Definition generate (s : Source) (timestamp : Z) : string * Source :=
  let seq := js_and (src_seq s + 1) MAX_SEQ in
  let dt := timestamp - EPOCH in
  (formatParts dt seq, {| src_seq := seq |}).

Definition substring (s : string) (i j : nat) : string := String.substring i (j - i) s.

(** [PATTERN]: sixteen lower-case hexadecimal digits. *)
Fixpoint all_hex (s : string) : bool :=
  match s with
  | EmptyString => true
  | String c r => bool_decide (is_Some (hexval c)) && all_hex r
  end.
Definition valid (s : string) : bool :=
  bool_decide (String.length s = 16%nat) && all_hex s.

Definition toBigInt (value : string) : option Z :=
  match parseHex (substring value 0 8), parseHex (substring value 8 16) with
  | Some hi, Some lo => Some (Z.lor (Z.shiftl hi 32) lo)
  | _, _ => None
  end.

Definition getSequence (value : string) : option Z :=
  (fun n => js_and n MAX_SEQ) <$> parseHex (substring value 8 16).

Definition getTimestamp (value : string) : option Z :=
  (fun n => Z.shiftr n 22 + EPOCH) <$> toBigInt value.

Definition lowerbound (timelike : Z) : string := formatParts (timelike - EPOCH) 0.
Definition upperbound (timelike : Z) : string := formatParts (timelike - EPOCH) MAX_SEQ.

(** ** Lemmas: masks and digits *)

Lemma js_and_mask x k : 0 <= k < 32 -> js_and x (2 ^ k - 1) = x mod 2 ^ k.
Proof.
  intros Hk. unfold js_and.
  assert (0 < 2 ^ k <= 2 ^ 31) by (split; [lia|]; apply Z.pow_le_mono_r; lia).
  rewrite (to_int32_small (2 ^ k - 1)) by lia.
  rewrite Z.sub_1_r, <- Z.ones_equiv, Z.land_ones by lia.
  assert (2 ^ 32 = 2 ^ (32 - k) * 2 ^ k) as E by (rewrite <- Z.pow_add_r by lia; f_equal; lia).
  rewrite <- (Z.mod_mod_divide x (2 ^ 32) (2 ^ k)) by (by exists (2 ^ (32 - k))).
  unfold to_int32, to_uint32. case_decide; [done|].
  replace (x mod 2 ^ 32 - 2 ^ 32) with (x mod 2 ^ 32 + (- 2 ^ (32 - k)) * 2 ^ k) by lia.
  by rewrite Z.mod_add by lia.
Qed.

Lemma js_and_16 x : js_and x 0xffff = x mod 2 ^ 16.
Proof. apply (js_and_mask x 16). lia. Qed.

Lemma js_and_22 x : js_and x MAX_SEQ = x mod 2 ^ 22.
Proof. apply (js_and_mask x 22). lia. Qed.

Lemma pow16_pos n : 0 < 16 ^ Z.of_nat n.
Proof. apply Z.pow_pos_nonneg; lia. Qed.

Lemma pow16_S n : 16 ^ Z.of_nat (S n) = 16 * 16 ^ Z.of_nat n.
Proof. rewrite Nat2Z.inj_succ, Z.pow_succ_r by lia. done. Qed.

Lemma mod_pow16_S v n :
  v mod 16 ^ Z.of_nat (S n)
    = (v / 16 ^ Z.of_nat n mod 16) * 16 ^ Z.of_nat n + v mod 16 ^ Z.of_nat n.
Proof.
  pose proof (pow16_pos n). rewrite pow16_S, Z.mul_comm, Z.rem_mul_r by lia. lia.
Qed.

Lemma hexN_app n m v : hexN (n + m) v = hexN n (v / 16 ^ Z.of_nat m) +:+ hexN m v.
Proof.
  induction n as [|n IH]; simpl; [done|]. rewrite IH. f_equal. f_equal.
  pose proof (pow16_pos n). pose proof (pow16_pos m).
  rewrite Nat2Z.inj_add, Z.pow_add_r by lia. rewrite Z.mul_comm, Z.div_div by lia. done.
Qed.

Lemma hexN_mod n v m : (n <= m)%nat -> hexN n (v mod 16 ^ Z.of_nat m) = hexN n v.
Proof.
  intros Hm. induction n as [|n IH]; simpl; [done|].
  rewrite IH by lia. f_equal. f_equal. pose proof (pow16_pos n).
  replace m with (S (m - S n) + n)%nat by lia.
  rewrite Nat2Z.inj_add, Z.pow_add_r, Z.mul_comm by lia.
  pose proof (pow16_pos (m - S n)). rewrite pow16_S.
  rewrite Z.rem_mul_r, Z.mul_comm, Z.div_add by lia.
  rewrite Z.div_small by (apply Z.mod_pos_bound; lia). rewrite Z.add_0_l.
  apply Z.mod_mod_divide. by exists (16 ^ Z.of_nat (m - S n)); lia.
Qed.

Lemma length_hexN n v : String.length (hexN n v) = n.
Proof. induction n as [|n IH]; simpl; [done|]. by rewrite IH. Qed.

(** A statement about the sixteen digits, decided by evaluation. *)
Lemma digits_decide (P : Z -> Prop) `{forall d, Decision (P d)} :
  forallb (fun d => bool_decide (P d)) (Z.of_nat <$> seq 0 16) = true ->
  forall d, 0 <= d < 16 -> P d.
Proof.
  intros Hall d Hd. rewrite forallb_forall in Hall.
  eapply bool_decide_eq_true. apply Hall. apply list_elem_of_In, list_elem_of_fmap.
  exists (Z.to_nat d). split; [lia|]. apply elem_of_seq. lia.
Qed.

Lemma hexval_hexchar d : 0 <= d < 16 -> hexval (hexchar d) = Some d.
Proof. apply (digits_decide (fun d => hexval (hexchar d) = Some d)). by vm_compute. Qed.

Lemma compare_hexchar d e :
  0 <= d < 16 -> 0 <= e < 16 -> Ascii.compare (hexchar d) (hexchar e) = Z.compare d e.
Proof.
  intros Hd He. revert d Hd. apply (digits_decide _). revert e He. apply (digits_decide _).
  by vm_compute.
Qed.

Lemma digit_bound v n : 0 <= v / 16 ^ Z.of_nat n mod 16 < 16.
Proof. apply Z.mod_pos_bound. lia. Qed.

Lemma parse_digits_hexN n v acc :
  parse_digits (hexN n v) acc = acc * 16 ^ Z.of_nat n + v mod 16 ^ Z.of_nat n.
Proof.
  revert acc. induction n as [|n IH]; intros acc.
  - simpl. rewrite Z.mod_1_r. lia.
  - simpl. rewrite hexval_hexchar by apply digit_bound. rewrite IH, mod_pow16_S, pow16_S. lia.
Qed.

Lemma parseHex_hexN n v : (0 < n)%nat -> parseHex (hexN n v) = Some (v mod 16 ^ Z.of_nat n).
Proof.
  destruct n as [|n]; [lia|]. intros _. simpl. rewrite hexval_hexchar by apply digit_bound.
  simpl. by rewrite parse_digits_hexN, mod_pow16_S.
Qed.

Lemma all_hex_hexN n v : all_hex (hexN n v) = true.
Proof.
  induction n as [|n IH]; simpl; [done|].
  rewrite hexval_hexchar by apply digit_bound. by rewrite IH.
Qed.

Lemma compare_hexN n v w :
  String.compare (hexN n v) (hexN n w)
    = Z.compare (v mod 16 ^ Z.of_nat n) (w mod 16 ^ Z.of_nat n).
Proof.
  induction n as [|n IH]; [simpl; by rewrite !Z.mod_1_r|].
  simpl hexN. simpl String.compare. rewrite compare_hexchar by apply digit_bound.
  rewrite !mod_pow16_S, IH. pose proof (pow16_pos n).
  pose proof (Z.mod_pos_bound v (16 ^ Z.of_nat n)).
  pose proof (Z.mod_pos_bound w (16 ^ Z.of_nat n)).
  destruct (Z.compare_spec (v / 16 ^ Z.of_nat n mod 16) (w / 16 ^ Z.of_nat n mod 16)) as [->|Hlt|Hgt].
  - by rewrite Z.add_compare_mono_l.
  - symmetry. apply Z.compare_lt_iff. nia.
  - symmetry. apply Z.compare_gt_iff. nia.
Qed.

(** ** The split routine computes the plain numeral *)

(** A creation time the format can carry: 42 bits of milliseconds. *)
Definition in_range (dt seq : Z) : Prop := 0 <= dt < 2 ^ 42 /\ 0 <= seq <= MAX_SEQ.

Lemma low_word dt seq :
  in_range dt seq ->
  js_ushr (js_or (js_shl (Z.rem dt 1024) 22) seq) 0 = (dt * 2 ^ 22 + seq) mod 2 ^ 32.
Proof.
  intros [Hdt Hseq]. unfold MAX_SEQ in Hseq. unfold js_ushr, js_or, js_shl.
  rewrite Z.shiftr_0_r, to_uint32_lor, !to_uint32_int32, Z.shiftl_mul_pow2 by lia.
  rewrite Z.rem_mod_nonneg by lia.
  pose proof (Z.mod_pos_bound dt 1024).
  rewrite (to_int32_small (dt mod 1024)) by lia.
  rewrite !to_uint32_small by lia. rewrite lor_disjoint by lia.
  rewrite (Z.div_mod dt 1024) at 2 by lia.
  replace ((1024 * (dt / 1024) + dt mod 1024) * 2 ^ 22 + seq)
    with (dt mod 1024 * 2 ^ 22 + seq + (dt / 1024) * 2 ^ 32) by lia.
  rewrite Z.mod_add by lia. symmetry. apply Z.mod_small. lia.
Qed.

Lemma high_word dt seq :
  in_range dt seq -> Z.quot (dt - Z.rem dt 1024) 1024 = (dt * 2 ^ 22 + seq) / 2 ^ 32.
Proof.
  intros [Hdt Hseq]. unfold MAX_SEQ in Hseq. rewrite Z.rem_mod_nonneg by lia.
  pose proof (Z.mod_pos_bound dt 1024). pose proof (Z.div_mod dt 1024).
  replace (dt - dt mod 1024) with ((dt / 1024) * 1024) by lia.
  rewrite Z.quot_mul by lia. apply Z.div_unique with (dt mod 1024 * 2 ^ 22 + seq); lia.
Qed.

(** Two 16-bit groups print a 32-bit word. *)
Lemma hex_word w :
  0 <= w < 2 ^ 32 ->
  HEX4 (js_and (js_ushr w 16) 0xffff) +:+ HEX4 (js_and w 0xffff) = hexN 8 w.
Proof.
  intros Hw. unfold HEX4, js_ushr. rewrite !js_and_16, to_uint32_small, Z.shiftr_div_pow2 by lia.
  rewrite (hexN_app 4 4). change (2 ^ 16) with (16 ^ Z.of_nat 4).
  by rewrite !hexN_mod by lia.
Qed.

Lemma formatParts_hexN dt seq :
  in_range dt seq -> formatParts dt seq = hexN 16 (dt * 2 ^ 22 + seq).
Proof.
  intros Hr. unfold formatParts. rewrite low_word, high_word with (seq := seq) by done.
  set (v := dt * 2 ^ 22 + seq).
  assert (0 <= v < 2 ^ 64) by (destruct Hr as [? Hs]; unfold MAX_SEQ in Hs; lia).
  rewrite <- append_assoc. rewrite !hex_word.
  - rewrite (hexN_app 8 8). change (2 ^ 32) with (16 ^ Z.of_nat 8). by rewrite hexN_mod by lia.
  - apply Z.mod_pos_bound. lia.
  - split; [apply Z.div_pos; lia|]. apply Z.div_lt_upper_bound; lia.
Qed.

Lemma substring_all (b : string) : String.substring 0 (String.length b) b = b.
Proof. induction b as [|x b IH]; simpl; [done|by rewrite IH]. Qed.

Lemma substring_prefix (a b : string) : String.substring 0 (String.length a) (a +:+ b) = a.
Proof. induction a as [|x a IH]; [by destruct b|]. rewrite append_cons. simpl. by rewrite IH. Qed.

Lemma substring_suffix (a b : string) :
  String.substring (String.length a) (String.length b) (a +:+ b) = b.
Proof. induction a as [|x a IH]; [apply substring_all|done]. Qed.

Lemma snowflake_words v :
  0 <= v < 2 ^ 64 ->
  parseHex (substring (hexN 16 v) 0 8) = Some (v / 2 ^ 32) /\
  parseHex (substring (hexN 16 v) 8 16) = Some (v mod 2 ^ 32).
Proof.
  intros Hv. rewrite (hexN_app 8 8).
  pose proof (substring_prefix (hexN 8 (v / 16 ^ Z.of_nat 8)) (hexN 8 v)) as H1.
  pose proof (substring_suffix (hexN 8 (v / 16 ^ Z.of_nat 8)) (hexN 8 v)) as H2.
  rewrite !(length_hexN 8 (v / _)) in H1, H2. rewrite (length_hexN 8 v) in H2. unfold substring. simpl (_ - _)%nat.
  rewrite H1, H2, !parseHex_hexN by lia. split; [|done]. f_equal.
  change (16 ^ Z.of_nat 8) with (2 ^ 32). apply Z.mod_small.
  split; [apply Z.div_pos; lia|]. apply Z.div_lt_upper_bound; lia.
Qed.

(** Round trip: for a creation time of at most 42 bits and a sequence
    number of at most 22 bits, the hand-split formatter prints exactly the
    16-digit numeral of [dt * 2^22 + seq]; the result passes [valid] and
    [getTimestamp] / [getSequence] recover both parts. *)
Theorem snowflake_roundtrip (dt seq : Z) :
  in_range dt seq ->
  formatParts dt seq = hexN 16 (dt * 2 ^ 22 + seq) /\
  valid (formatParts dt seq) = true /\
  getTimestamp (formatParts dt seq) = Some (dt + EPOCH) /\
  getSequence (formatParts dt seq) = Some seq.
Proof.
  intros Hr. rewrite formatParts_hexN by done. set (v := dt * 2 ^ 22 + seq).
  destruct Hr as [Hdt Hs]. unfold MAX_SEQ in Hs.
  destruct (snowflake_words v) as [H1 H2]; [lia|].
  split; [done|]. split.
  { unfold valid. rewrite length_hexN, all_hex_hexN. done. }
  unfold getTimestamp, getSequence, toBigInt. rewrite H1, H2. simpl. split; f_equal.
  - f_equal. rewrite Z.shiftl_mul_pow2 by lia.
    rewrite lor_disjoint by (lia || (apply Z.mod_pos_bound; lia)).
    rewrite Z.mul_comm, <- Z.div_mod by lia.
    rewrite Z.shiftr_div_pow2 by lia. symmetry. apply Z.div_unique with seq; lia.
  - rewrite js_and_22. change (2 ^ 32) with (2 ^ 10 * 2 ^ 22).
    rewrite Z.mod_mod_divide by (by exists (2 ^ 10)).
    symmetry. apply Z.mod_unique with dt; lia.
Qed.

Lemma snowflake_roundtrip_witness :
  in_range 345678901234 1234567 /\
  getTimestamp (formatParts 345678901234 1234567) = Some (345678901234 + EPOCH).
Proof.
  assert (in_range 345678901234 1234567) as H by (unfold in_range, MAX_SEQ; lia).
  split; [exact H|]. exact (proj1 (proj2 (proj2 (snowflake_roundtrip _ _ H)))).
Defined.

(** ** The generator *)

Fixpoint generate_all (s : Source) (timestamps : list Z) : list string :=
  match timestamps with
  | [] => []
  | t :: ts => let '(id, s) := generate s t in id :: generate_all s ts
  end.

Lemma generate_lookup s ts k t :
  ts !! k = Some t ->
  generate_all s ts !! k
    = Some (formatParts (t - EPOCH) ((src_seq s + 1 + Z.of_nat k) mod 2 ^ 22)).
Proof.
  revert s k. induction ts as [|t' ts IH]; intros s k Hk; [done|].
  destruct k as [|k]; simpl in *; simplify_eq.
  - rewrite js_and_22. do 3 f_equal. lia.
  - rewrite IH by done. simpl. rewrite js_and_22. do 2 f_equal.
    replace (src_seq s + 1 + Z.of_nat (S k)) with (src_seq s + 1 + (1 + Z.of_nat k)) by lia.
    rewrite <- Z.add_assoc. by rewrite Z.add_mod_idemp_l by lia.
Qed.

Lemma formatParts_compare dt1 s1 dt2 s2 :
  in_range dt1 s1 -> in_range dt2 s2 ->
  String.compare (formatParts dt1 s1) (formatParts dt2 s2)
    = Z.compare (dt1 * 2 ^ 22 + s1) (dt2 * 2 ^ 22 + s2).
Proof.
  intros H1 H2. rewrite !formatParts_hexN by done. rewrite compare_hexN.
  destruct H1 as [? Hs1], H2 as [? Hs2]. unfold MAX_SEQ in *.
  by rewrite !Z.mod_small by lia.
Qed.

(** Identifiers sort by creation time and are unique: in any run of the
    generator, from any starting sequence number, the ids compare as strings
    in the order of their timestamps whenever these differ, and two ids drawn
    fewer than [2^22] calls apart are never equal, whatever the clock does. *)
Theorem generator_ordered_unique (s : Source) (ts : list Z) (i j : nat) (ti tj : Z) :
  Forall (fun t => 0 <= t - EPOCH < 2 ^ 42) ts ->
  ts !! i = Some ti -> ts !! j = Some tj -> (i < j)%nat ->
  exists a b, generate_all s ts !! i = Some a /\ generate_all s ts !! j = Some b /\
    (ti < tj -> String.compare a b = Lt) /\ (tj < ti -> String.compare a b = Gt) /\
    (Z.of_nat j - Z.of_nat i < 2 ^ 22 -> a <> b).
Proof.
  intros Hts Hi Hj Hij. rewrite Forall_lookup in Hts.
  pose proof (Hts i ti Hi) as Hri. pose proof (Hts j tj Hj) as Hrj.
  pose proof (Z.mod_pos_bound (src_seq s + 1 + Z.of_nat i) (2 ^ 22)) as Hbi.
  pose proof (Z.mod_pos_bound (src_seq s + 1 + Z.of_nat j) (2 ^ 22)) as Hbj.
  assert (in_range (ti - EPOCH) ((src_seq s + 1 + Z.of_nat i) mod 2 ^ 22)) as Ri
    by (unfold in_range, MAX_SEQ; lia).
  assert (in_range (tj - EPOCH) ((src_seq s + 1 + Z.of_nat j) mod 2 ^ 22)) as Rj
    by (unfold in_range, MAX_SEQ; lia).
  eexists _, _. split; [by apply generate_lookup|]. split; [by apply generate_lookup|].
  pose proof (formatParts_compare _ _ _ _ Ri Rj) as Hc. split_and!.
  - intros. rewrite Hc. apply Z.compare_lt_iff. lia.
  - intros. rewrite Hc. apply Z.compare_gt_iff. lia.
  - intros Hd Heq. rewrite Heq, formatParts_compare, Z.compare_refl in Hc by done.
    symmetry in Hc. apply Z.compare_eq in Hc.
    assert ((src_seq s + 1 + Z.of_nat i) mod 2 ^ 22 = (src_seq s + 1 + Z.of_nat j) mod 2 ^ 22) as Hm by lia.
    pose proof (Z.div_mod (src_seq s + 1 + Z.of_nat i) (2 ^ 22)).
    pose proof (Z.div_mod (src_seq s + 1 + Z.of_nat j) (2 ^ 22)). nia.
Qed.

Lemma generator_ordered_unique_witness :
  (0 < 1)%nat /\
  exists a b, generate_all (mkSource 4194302) [EPOCH + 5; EPOCH + 5] !! 0%nat = Some a /\
    generate_all (mkSource 4194302) [EPOCH + 5; EPOCH + 5] !! 1%nat = Some b /\ a <> b.
Proof.
  split; [lia|].
  destruct (generator_ordered_unique (mkSource 4194302) [EPOCH + 5; EPOCH + 5] 0 1 (EPOCH + 5) (EPOCH + 5))
    as (a & b & Ha & Hb & _ & _ & Hne).
  - repeat constructor; unfold EPOCH; lia.
  - reflexivity.
  - reflexivity.
  - lia.
  - exists a, b. split; [exact Ha|]. split; [exact Hb|]. apply Hne. lia.
Defined.
