(* ===== verification/ToolChoiceQueue.v ===== *)
(** * The tool-choice queue ([packages/coding-agent/src/session/tool-choice-queue.ts])

    Directives that force the model's next [tool_choice] wait in a queue.  Each
    directive carries an iterator of choices; the head one is advanced per turn
    and its value is "in flight" until the turn resolves or rejects it.  A
    rejected value may be requeued at the head.

    Directives are objects compared by identity ([this.#queue[0] ===
    inFlight.directive]): the model gives each a fresh [did].  The iterator is
    the only field a directive mutates and only the copy in the queue is ever
    advanced, so the in-flight reference is a copy with the same [did].
    Callbacks are pure functions of their arguments ([onRejected]) or produce
    an effect the queue hands back ([onResolved]). *)

From S2P Require Import Prelude.

Inductive reject_reason := R_aborted | R_error | R_cleared | R_removed.
Inductive RejectOutcome := Requeue | Drop.

(** What the queue relies on of [Iterator<ToolChoice>]: [next()] either is done
    or yields a value and leaves an advanced iterator. *)
Class Iterator (I C : Type) := iter_next : I -> option (C * I).

Section queue.
Context {C I Eff Inv : Type} `{!Iterator I C}.

(** An array (or [onceGen]) iterator holds the values still to come; any
    other iterable the caller passes is an [I]. *)
Inductive generator :=
| Values (cs : list C)
| Iter (it : I).

Definition onceGen (choice : C) : generator := Values [choice].

Definition gen_next (g : generator) : option (C * generator) :=
  match g with
  | Values [] => None
  | Values (c :: cs) => Some (c, Values cs)
  | Iter it => (fun '(c, it) => (c, Iter it)) <$> iter_next it
  end.

Record DirectiveCallbacks := {
  onResolved : option (C -> Eff);
  onRejected : option (C -> reject_reason -> option RejectOutcome);
  onInvoked : option Inv
}.

Record ToolChoiceDirective := {
  did : nat;
  gen : generator;
  label : string;
  callbacks : DirectiveCallbacks
}.

Record PushOptions := {
  now : bool;
  opt_label : option string;
  opt_callbacks : DirectiveCallbacks
}.

Record InFlight := { directive : ToolChoiceDirective; yielded : C }.

Record ToolChoiceQueue := {
  queue : list ToolChoiceDirective;
  inFlight : option InFlight;
  lastResolvedLabel : option string;
  next_did : nat
}.

Definition new_queue : ToolChoiceQueue := {|
  queue := []; inFlight := None; lastResolvedLabel := None; next_did := 0 |}.

Definition set_queue (q : ToolChoiceQueue) (l : list ToolChoiceDirective) : ToolChoiceQueue :=
  {| queue := l; inFlight := inFlight q; lastResolvedLabel := lastResolvedLabel q;
     next_did := next_did q |}.

Definition set_inFlight (q : ToolChoiceQueue) (f : option InFlight) : ToolChoiceQueue :=
  {| queue := queue q; inFlight := f; lastResolvedLabel := lastResolvedLabel q;
     next_did := next_did q |}.

Definition set_label (q : ToolChoiceQueue) (l : option string) : ToolChoiceQueue :=
  {| queue := queue q; inFlight := inFlight q; lastResolvedLabel := l;
     next_did := next_did q |}.

(** Allocate a directive object at the head or at the tail. *)
Definition enqueue_directive (q : ToolChoiceQueue) (front : bool)
    (g : generator) (l : string) (cb : DirectiveCallbacks) : ToolChoiceQueue :=
  let d := {| did := next_did q; gen := g; label := l; callbacks := cb |} in
  {| queue := if front then d :: queue q else queue q ++ [d];
     inFlight := inFlight q; lastResolvedLabel := lastResolvedLabel q;
     next_did := S (next_did q) |}.

Definition push (q : ToolChoiceQueue) (g : generator) (options : PushOptions) : ToolChoiceQueue :=
  enqueue_directive q (now options) g (default "anonymous" (opt_label options))
    (opt_callbacks options).

Definition pushOnce (q : ToolChoiceQueue) (choice : C) (options : PushOptions) : ToolChoiceQueue :=
  push q (onceGen choice) options.

Definition pushSequence (q : ToolChoiceQueue) (choices : list C) (options : PushOptions)
    : ToolChoiceQueue :=
  push q (Values choices) options.

Definition advance (d : ToolChoiceDirective) (g : generator) : ToolChoiceDirective :=
  {| did := did d; gen := g; label := label d; callbacks := callbacks d |}.

(** The [while] loop: exhausted heads are shifted off. *)
Fixpoint next_loop (l : list ToolChoiceDirective)
    : list ToolChoiceDirective * option InFlight :=
  match l with
  | [] => ([], None)
  | head :: rest =>
      match gen_next (gen head) with
      | None => next_loop rest
      | Some (value, g) =>
          let head := advance head g in
          (head :: rest, Some {| directive := head; yielded := value |})
      end
  end.

Definition nextToolChoice (q : ToolChoiceQueue) : option C * ToolChoiceQueue :=
  match next_loop (queue q) with
  | (l, Some f) => (Some (yielded f), set_inFlight (set_queue q l) (Some f))
  | (l, None) => (None, set_queue q l)
  end.

Definition resolve (q : ToolChoiceQueue) : option Eff * ToolChoiceQueue :=
  match inFlight q with
  | None => (None, q)
  | Some f =>
      let q := set_label (set_inFlight q None) (Some (label (directive f))) in
      ((fun cb => cb (yielded f)) <$> onResolved (callbacks (directive f)), q)
  end.

Definition outcome_of (f : InFlight) (reason : reject_reason) : option RejectOutcome :=
  cb ← onRejected (callbacks (directive f)); cb (yielded f) reason.

Definition reject (q : ToolChoiceQueue) (reason : reject_reason) : ToolChoiceQueue :=
  match inFlight q with
  | None => q
  | Some f =>
      let q := set_inFlight q None in
      match outcome_of f reason with
      | Some Requeue =>
          enqueue_directive q true (onceGen (yielded f))
            (label (directive f) +:+ "-requeued")
            {| onResolved := None;
               onRejected := onRejected (callbacks (directive f));
               onInvoked := onInvoked (callbacks (directive f)) |}
      | _ => q
      end
  end.

Definition degradeInFlight (q : ToolChoiceQueue) : option string * ToolChoiceQueue :=
  match inFlight q with
  | None => (None, q)
  | Some f =>
      let q := set_inFlight q None in
      match queue q with
      | head :: rest =>
          if decide (did head = did (directive f))
          then (Some (label (directive f)), set_queue q rest)
          else (Some (label (directive f)), q)
      | [] => (Some (label (directive f)), q)
      end
  end.

Definition hasInFlight (q : ToolChoiceQueue) : bool := bool_decide (is_Some (inFlight q)).

Definition peekInFlightInvoker (q : ToolChoiceQueue) : option Inv :=
  f ← inFlight q; onInvoked (callbacks (directive f)).

Definition removeByLabel (q : ToolChoiceQueue) (l : string) : ToolChoiceQueue :=
  let q := match inFlight q with
           | Some f => if decide (label (directive f) = l) then reject q R_removed else q
           | None => q
           end in
  set_queue q (filter (fun d => label d <> l) (queue q)).

Definition clear (q : ToolChoiceQueue) : ToolChoiceQueue :=
  let q := match inFlight q with Some _ => reject q R_cleared | None => q end in
  set_label (set_queue q []) None.

Definition consumeLastServedLabel (q : ToolChoiceQueue) : option string * ToolChoiceQueue :=
  (lastResolvedLabel q, set_label q None).

Definition inspect (q : ToolChoiceQueue) : list string := label <$> queue q.
End queue.
Arguments generator : clear implicits.
Arguments DirectiveCallbacks : clear implicits.
Arguments ToolChoiceDirective : clear implicits.
Arguments PushOptions : clear implicits.
Arguments InFlight : clear implicits.
Arguments ToolChoiceQueue : clear implicits.

Section theorems.
Context {C I Eff Inv : Type} `{!Iterator I C}.
Abbreviation TCQ := (ToolChoiceQueue C I Eff Inv).
Abbreviation Directive := (ToolChoiceDirective C I Eff Inv).
Implicit Types (q : TCQ) (l : list Directive) (d : Directive).

(** ** Serving turns *)

(** One turn whose choice is served: advance, then resolve. *)
Definition serve q : option C * TCQ :=
  let '(c, q) := nextToolChoice q in (c, (resolve q).2).

Fixpoint serve_n (n : nat) q : list (option C) * TCQ :=
  match n with
  | O => ([], q)
  | S n => let '(c, q) := serve q in let '(cs, q) := serve_n n q in (c :: cs, q)
  end.

(** A turn that is aborted, erroring or removed before it is served: the
    value is rejected and the next turn asks for a choice again. *)
Definition retry q (reason : reject_reason) : option C * TCQ :=
  nextToolChoice (reject q reason).

Fixpoint retries q (rs : list reject_reason) : list (option C) * TCQ :=
  match rs with
  | [] => ([], q)
  | r :: rs => let '(c, q) := retry q r in let '(cs, q) := retries q rs in (c :: cs, q)
  end.

Definition exhausted d : Prop := gen_next (gen d) = None.

Lemma next_loop_skip l1 l2 :
  Forall exhausted l1 -> next_loop (l1 ++ l2) = next_loop l2.
Proof. induction 1 as [|d l Hd _ IH]; simpl; [done|]. by rewrite Hd. Qed.

Lemma queue_resolve q : queue (resolve q).2 = queue q.
Proof. unfold resolve. by destruct (inFlight q). Qed.

Lemma serve_loop q :
  (serve q).1 = yielded <$> (next_loop (queue q)).2 /\
  queue (serve q).2 = (next_loop (queue q)).1.
Proof.
  unfold serve, nextToolChoice.
  destruct (next_loop (queue q)) as [l [f|]]; simpl; by rewrite ?queue_resolve.
Qed.

(** Only the queue decides what is served. *)
Lemma serve_n_skip n q1 q2 l :
  Forall exhausted l -> queue q1 = l ++ queue q2 ->
  (serve_n n q1).1 = (serve_n n q2).1.
Proof.
  revert q1 q2 l. induction n as [|n IH]; simpl; intros q1 q2 l Hl Hq; [done|].
  destruct (serve_loop q1) as [Hc1 Hq1], (serve_loop q2) as [Hc2 Hq2].
  rewrite Hq, next_loop_skip in Hc1, Hq1 by done.
  destruct (serve q1) as [c1 q1'], (serve q2) as [c2 q2']; simpl in *.
  pose proof (IH q1' q2' [] ltac:(done) ltac:(simpl; congruence)) as Hn.
  destruct (serve_n n q1'), (serve_n n q2'); simpl in *. congruence.
Qed.

(** The values still to come of a queue of arrays. *)
Definition pending d : list C :=
  match gen d with Values cs => cs | Iter _ => [] end.
Definition finite_directive d : Prop := exists cs, gen d = Values cs.

Lemma next_loop_pending l :
  Forall finite_directive l ->
  Forall finite_directive (next_loop l).1 /\
  match (next_loop l).2 with
  | Some f => concat (pending <$> l) = yielded f :: concat (pending <$> (next_loop l).1)
  | None => concat (pending <$> l) = [] /\ (next_loop l).1 = []
  end.
Proof.
  induction 1 as [|d l [cs Hd] Hl IH]; [done|].
  assert (pending d = cs) as Hp by (unfold pending; by rewrite Hd).
  rewrite fmap_cons. simpl. rewrite Hp, Hd. destruct cs as [|c cs]; simpl; [done|].
  split; [|done]. constructor; [by eexists|done].
Qed.

(** Drain order: a queue of forced sequences serves exactly the
    concatenation of the sequences from head to tail, one value per turn,
    and the following turn finds the queue empty and forces nothing. *)
Theorem serve_drains_in_order q :
  Forall finite_directive (queue q) ->
  let vs := concat (pending <$> queue q) in
  (serve_n (length vs) q).1 = Some <$> vs /\
  (nextToolChoice (serve_n (length vs) q).2).1 = None /\
  queue (nextToolChoice (serve_n (length vs) q).2).2 = [].
Proof.
  intros Hf vs. remember (length vs) as n eqn:Hn. revert q Hf vs Hn.
  induction n as [|n IH]; intros q Hf vs Hn; simpl;
    destruct (next_loop_pending _ Hf) as [Hf' Hp];
    destruct (serve_loop q) as [Hc Hq];
    destruct (next_loop (queue q)) as [l [f|]] eqn:E; simpl in *.
  - unfold vs in Hn. rewrite Hp in Hn. done.
  - destruct Hp as [Hp ->]. unfold nextToolChoice. rewrite E. unfold vs. by rewrite Hp.
  - destruct (serve q) as [c q'] eqn:Es; simpl in *. rewrite <- Hq in Hf', Hp.
    destruct (IH q' Hf') as (H1 & H2 & H3).
    { unfold vs in Hn. rewrite Hp in Hn. simpl in Hn. lia. }
    destruct (serve_n n q') as [cs q'']; simpl in *.
    unfold vs. rewrite Hp. simpl. subst. done.
  - destruct Hp as [Hp _]. unfold vs in Hn. rewrite Hp in Hn. done.
Qed.

(** ** Requeueing *)

(** The directive's [onRejected] asks for the value back whatever the reason. *)
Definition always_requeues d : Prop :=
  exists cb, onRejected (callbacks d) = Some cb /\ forall c r, cb c r = Some Requeue.

Lemma retry_requeues q r f :
  inFlight q = Some f -> always_requeues (directive f) ->
  exists f' d',
    retry q r = (Some (yielded f), set_inFlight (snd (retry q r)) (Some f')) /\
    queue (retry q r).2 = d' :: queue q /\ exhausted d' /\
    yielded f' = yielded f /\ always_requeues (directive f') /\
    onInvoked (callbacks (directive f')) = onInvoked (callbacks (directive f)) /\
    onResolved (callbacks (directive f')) = None.
Proof.
  intros Hf (cb & Hcb & Hr). unfold retry, reject. rewrite Hf.
  unfold outcome_of. rewrite Hcb. simpl. rewrite Hr. unfold nextToolChoice. simpl.
  eexists _, _. split_and!; try done. by exists cb.
Qed.

(** Requeue replay: if the in-flight directive requeues, then however
    many turns in a row abort or error, each following turn is forced to the
    very same value with the same invocation handler, and once a turn serves
    it the remaining turns are forced to exactly the values they would have
    been forced to had nothing been rejected. *)
Theorem requeue_replays q q1 c (rs : list reject_reason) (n : nat) :
  nextToolChoice q = (Some c, q1) ->
  (forall f, inFlight q1 = Some f -> always_requeues (directive f)) ->
  (retries q1 rs).1 = replicate (length rs) (Some c) /\
  peekInFlightInvoker (retries q1 rs).2 = peekInFlightInvoker q1 /\
  (serve_n n (resolve (retries q1 rs).2).2).1 = (serve_n n (resolve q1).2).1.
Proof.
  intros Hnext Hreq.
  assert (exists f, inFlight q1 = Some f /\ yielded f = c) as (f & Hf & Hc).
  { unfold nextToolChoice in Hnext. destruct (next_loop (queue q)) as [l [f|]]; [|done].
    injection Hnext as <- <-. by exists f. }
  specialize (Hreq f Hf).
  assert (forall q2 f2 l2, inFlight q2 = Some f2 -> yielded f2 = c ->
    always_requeues (directive f2) -> Forall exhausted l2 ->
    queue q2 = l2 ++ queue q1 ->
    onInvoked (callbacks (directive f2)) = onInvoked (callbacks (directive f)) ->
    (retries q2 rs).1 = replicate (length rs) (Some c) /\
    peekInFlightInvoker (retries q2 rs).2 = peekInFlightInvoker q1 /\
    (serve_n n (resolve (retries q2 rs).2).2).1 = (serve_n n (resolve q1).2).1) as H.
  { induction rs as [|r rs IH]; intros q2 f2 l2 Hf2 Hy2 Ha2 Hl2 Hq2 Hi2; simpl.
    - split; [done|]. split.
      + unfold peekInFlightInvoker. rewrite Hf2, Hf. done.
      + apply (serve_n_skip n _ _ l2); [done|]. by rewrite !queue_resolve.
    - destruct (retry_requeues q2 r f2 Hf2 Ha2) as (f' & d' & E & Hq & Hd & Hy & Ha & Hi & _).
      destruct (retry q2 r) as [c' q3]; simpl in *. injection E as -> E.
      assert (inFlight q3 = Some f') as Hf3 by (rewrite E; done).
      destruct (IH q3 f' (d' :: l2)) as (H1 & H2 & H3); try done.
      + congruence.
      + by constructor.
      + rewrite Hq, Hq2. done.
      + congruence.
      + destruct (retries q3 rs) as [cs q4]; simpl in *. by rewrite H1, Hy2. }
  by apply (H q1 f []).
Qed.

(** ** Removal *)

(** Directive objects in the queue are distinct and older than the next one. *)
Definition wf q : Prop :=
  NoDup (did <$> queue q) /\
  Forall (fun i => i < next_did q) (did <$> queue q) /\
  (forall f, inFlight q = Some f -> did (directive f) < next_did q).

Inductive step : TCQ -> TCQ -> Prop :=
| step_push q g o : step q (push q g o)
| step_next q : step q (nextToolChoice q).2
| step_resolve q : step q (resolve q).2
| step_reject q r : step q (reject q r)
| step_degrade q : step q (degradeInFlight q).2
| step_remove q lab : step q (removeByLabel q lab)
| step_clear q : step q (clear q)
| step_consume q : step q (consumeLastServedLabel q).2.

Definition reachable : TCQ -> Prop := rtc step new_queue.

Lemma next_loop_ids l :
  sublist (did <$> (next_loop l).1) (did <$> l) /\
  forall f, (next_loop l).2 = Some f -> did (directive f) ∈ did <$> l.
Proof.
  induction l as [|d l [IH1 IH2]]; simpl; [done|].
  destruct (gen_next (gen d)) as [[c g]|]; simpl.
  - split; [done|]. intros f [= <-]. simpl. by left.
  - split; [by constructor|]. intros f Hf. right. by apply IH2.
Qed.

Lemma wf_sublist q q' :
  wf q -> sublist (did <$> queue q') (did <$> queue q) -> next_did q' = next_did q ->
  (forall f, inFlight q' = Some f ->
     inFlight q = Some f \/ did (directive f) ∈ did <$> queue q) ->
  wf q'.
Proof.
  intros (Hnd & Hlt & Hfl) Hsub Hn Hf. unfold wf. rewrite Hn. split_and!.
  - by eapply sublist_NoDup.
  - rewrite !Forall_forall in *. intros i Hi. apply Hlt. by eapply elem_of_sublist.
  - intros f Hf'. destruct (Hf f Hf') as [H|H]; [by apply Hfl|].
    rewrite Forall_forall in Hlt. by apply Hlt.
Qed.

Lemma wf_enqueue q front g lab cb : wf q -> wf (enqueue_directive q front g lab cb).
Proof.
  intros (Hnd & Hlt & Hfl). unfold wf, enqueue_directive. simpl.
  assert (next_did q ∉ did <$> queue q) as Hnew.
  { intros Hin. rewrite Forall_forall in Hlt. specialize (Hlt _ Hin). lia. }
  assert (Forall (fun i => i < S (next_did q)) (did <$> queue q)) as Hlt'.
  { eapply Forall_impl; [exact Hlt|]. simpl. lia. }
  split_and!.
  - destruct front; [by constructor|]. rewrite fmap_app. apply NoDup_app. split_and!; [done| |].
    + intros x Hx Hx'. apply list_elem_of_singleton in Hx' as ->. done.
    + simpl. apply NoDup_singleton.
  - destruct front; [constructor; [simpl; lia|done]|]. rewrite fmap_app. apply Forall_app.
    split; [done|]. by repeat constructor.
  - intros f Hf. specialize (Hfl f Hf). lia.
Qed.

Lemma wf_reject q r : wf q -> wf (reject q r).
Proof.
  intros Hwf. unfold reject. destruct (inFlight q) as [f|]; [|done].
  assert (wf (set_inFlight q None)) as Hwf' by by eapply wf_sublist.
  destruct (outcome_of f r) as [[]|]; auto using wf_enqueue.
Qed.

Lemma filter_ids (P : Directive -> Prop) `{forall d, Decision (P d)} l :
  sublist (did <$> filter P l) (did <$> l).
Proof. apply fmap_sublist, sublist_filter. Qed.

Lemma reachable_wf q : reachable q -> wf q.
Proof.
  assert (wf (new_queue : TCQ)) as H0 by (split_and!; constructor || done).
  unfold reachable. generalize (new_queue : TCQ) H0. clear.
  intros q0 H0 Hr. induction Hr as [q|q1 q2 q3 Hs _ IH]; [done|]. apply IH. clear IH.
  destruct Hs.
  - by apply wf_enqueue.
  - unfold nextToolChoice. destruct (next_loop_ids (queue q)) as [Hs Hf].
    destruct (next_loop (queue q)) as [l [f|]]; simpl in *.
    + eapply wf_sublist; try done. simpl. intros f' [= <-]. right. by apply Hf.
    + eapply wf_sublist; try done. by left.
  - unfold resolve. destruct (inFlight q) as [f|]; [|done]. by eapply wf_sublist.
  - by apply wf_reject.
  - unfold degradeInFlight. destruct (inFlight q) as [f|]; [|done].
    destruct (queue q) as [|h rest] eqn:E; simpl; rewrite ?E; [|case_decide; simpl];
      eapply wf_sublist; try done; simpl; rewrite ?E; try done. by constructor.
  - unfold removeByLabel.
    set (q' := match inFlight q with Some _ => _ | None => q end).
    assert (wf q') as Hq'.
    { unfold q'. destruct (inFlight q) as [f|]; [|done]. case_decide; auto using wf_reject. }
    apply (wf_sublist q'); [done|apply filter_ids|done|by left].
  - unfold clear. destruct (inFlight q) as [f|].
    + apply (wf_sublist (reject q R_cleared));
        [by apply wf_reject|apply sublist_nil_l|done|by left].
    + apply (wf_sublist q); [done|apply sublist_nil_l|done|by left].
  - eapply wf_sublist; try done. by left.
Qed.

Lemma reject_inFlight q r : inFlight (reject q r) = None.
Proof.
  unfold reject. destruct (inFlight q) as [f|] eqn:E; [|done].
  by destruct (outcome_of f r) as [[]|].
Qed.

(** Removal is effective, in every reachable queue and whatever the
    callbacks answer: [clear] leaves nothing queued, in flight or recorded as
    served; [removeByLabel] leaves no queued or in-flight directive with the
    label; and degradation drops the in-flight directive object itself, so
    when it is still the head of the queue none of its remaining values can
    be served, without consulting [onRejected]. *)
Theorem removal_is_effective q (lab : string) :
  reachable q ->
  (queue (clear q) = [] /\ inFlight (clear q) = None /\
     (consumeLastServedLabel (clear q)).1 = None) /\
  ((forall d, d ∈ queue (removeByLabel q lab) -> label d <> lab) /\
   (forall f, inFlight (removeByLabel q lab) = Some f -> label (directive f) <> lab) /\
   (forall d, d ∈ queue q -> label d <> lab -> d ∈ queue (removeByLabel q lab))) /\
  (inFlight (degradeInFlight q).2 = None /\
   (forall f d, inFlight q = Some f -> head (queue q) = Some d ->
     did d = did (directive f) ->
     (did (directive f) ∉ did <$> queue (degradeInFlight q).2) /\
     queue q = d :: queue (degradeInFlight q).2)).
Proof.
  intros Hr. apply reachable_wf in Hr as (Hnd & _ & _). split_and!.
  - done.
  - unfold clear. simpl. destruct (inFlight q) as [f|] eqn:E; [|done]. apply reject_inFlight.
  - done.
  - unfold removeByLabel. simpl. intros d Hd. by apply list_elem_of_filter in Hd as [H _].
  - unfold removeByLabel. simpl. intros f Hf.
    destruct (inFlight q) as [f'|] eqn:E; [|congruence].
    pose proof (reject_inFlight q R_removed). case_decide; congruence.
  - unfold removeByLabel. simpl. intros d Hd Hl. apply list_elem_of_filter. split; [done|].
    destruct (inFlight q) as [f|] eqn:E; [|done]. case_decide; [|done].
    unfold reject. rewrite E. destruct (outcome_of f R_removed) as [[]|]; simpl; [by right|done..].
  - unfold degradeInFlight. destruct (inFlight q) as [f|] eqn:E; [|done]. simpl.
    destruct (queue q); [done|]. by case_decide.
  - intros f d Hf Hh Hid. unfold degradeInFlight. rewrite Hf. simpl.
    destruct (queue q) as [|h rest]; simplify_eq/=. apply NoDup_cons in Hnd as [Hnin _].
    rewrite decide_True by done. simpl. split; [|done]. by rewrite <- Hid.
Qed.
End theorems.

(** ** Concrete runs *)

#[local] Instance no_iterator : Iterator Empty_set string := fun it => match it with end.

Definition plain_options (l : string) : PushOptions string unit unit :=
  {| now := false; opt_label := Some l;
     opt_callbacks := {| onResolved := None; onRejected := Some (fun _ _ => Some Requeue);
                         onInvoked := None |} |}.

Definition demo_queue : ToolChoiceQueue string Empty_set unit unit :=
  pushOnce (pushSequence new_queue ["forced"; "none"] (plain_options "user-force"))
    "todo" (plain_options "eager-todo").

Lemma serve_drains_in_order_witness :
  Forall finite_directive (queue demo_queue) /\
  (serve_n 3 demo_queue).1 = [Some "forced"; Some "none"; Some "todo"].
Proof.
  assert (Forall finite_directive (queue demo_queue)) as H
    by (repeat constructor; by eexists).
  split; [exact H|]. exact (proj1 (serve_drains_in_order demo_queue H)).
Defined.

Lemma requeue_replays_witness :
  (nextToolChoice demo_queue).1 = Some "forced" /\
  (retries (nextToolChoice demo_queue).2 [R_aborted; R_error]).1 = [Some "forced"; Some "forced"].
Proof.
  split; [reflexivity|].
  refine (proj1 (requeue_replays demo_queue (nextToolChoice demo_queue).2 "forced"
    [R_aborted; R_error] 0 _ _)); [reflexivity|].
  intros f Hf. vm_compute in Hf. injection Hf as <-. by eexists.
Defined.

Lemma removal_is_effective_witness :
  reachable demo_queue /\ queue (clear demo_queue) = [].
Proof.
  assert (reachable demo_queue) as H.
  { unfold reachable, demo_queue, pushOnce, pushSequence.
    eapply rtc_l; [apply step_push|]. eapply rtc_l; [apply step_push|]. apply rtc_refl. }
  split; [exact H|]. exact (proj1 (proj1 (removal_is_effective demo_queue "eager-todo" H))).
Defined.
