(* ===== verification/FallbackChain.v ===== *)
(** * The model fallback chain ([packages/coding-agent/src/session/fallback-chain-controller.ts])

    A controller walks a configured chain of model selectors: each entry may be
    attempted [maxAttempts] times, failures advance to the next entry, and the
    whole chain has a budget of [maxAttempts * entries.length] requests.  The
    counters are integers ([Z]); a selector is usable when it is present and
    not the empty string, as in the source's truthiness tests.

    The back-off delays multiply by a random fraction: they are rationals here
    ([Q]), and [Math.floor] is [Qfloor]. *)

From S2P Require Import Prelude.
From Stdlib Require Import QArith Qround Qminmax.

Local Open Scope Z_scope.

Record ConfiguredFallbackChain := {
  role : string;
  entries : list string;
  origin : string;
  identity : option string;
  explicitHead : bool
}.

Record FallbackFailure := { selector : string; triggerClass : string; reason : string }.

Inductive FallbackFailureResult := Retry | Advance | Exhausted.

Record FallbackChainController := mkController {
  chain : ConfiguredFallbackChain;
  maxAttempts : Z;
  activeIndex : Z;
  attemptsUsed : Z;
  tried : list FallbackFailure;
  attemptStarted : bool;
  totalAttemptsUsed : Z;
  skips : list (string * string);
  exhaustedForTurn : bool
}.

Definition chain_length (c : FallbackChainController) : Z :=
  Z.of_nat (length (entries (chain c))).

(** The request budget of the whole chain. *)
Definition budget (c : FallbackChainController) : Z := maxAttempts c * chain_length c.

Definition create (ch : ConfiguredFallbackChain) (maxAttempts : Z)
    : outcome string FallbackChainController :=
  if decide (maxAttempts < 1) then Throw "fallback.maxAttempts must be a positive integer"
  else Ok (mkController ch maxAttempts 0 0 [] false 0 []
             (bool_decide (entries ch = []))).

(** [this.chain.entries[this.activeIndex]], with the falsy empty selector
    read as absent. *)
Definition currentSelector (c : FallbackChainController) : option string :=
  if decide (0 <= activeIndex c) then
    match entries (chain c) !! Z.to_nat (activeIndex c) with
    | Some s => if decide (s = EmptyString) then None else Some s
    | None => None
    end
  else None.

Definition exhaust (c : FallbackChainController) : FallbackChainController :=
  mkController (chain c) (maxAttempts c) (chain_length c) (attemptsUsed c) (tried c)
    (attemptStarted c) (totalAttemptsUsed c) (skips c) true.

Definition advance (c : FallbackChainController) : bool * FallbackChainController :=
  if exhaustedForTurn c then (false, c)
  else
    let i := activeIndex c + 1 in
    let over := bool_decide (chain_length c <= i) in
    (negb over,
     mkController (chain c) (maxAttempts c) i 0 (tried c) false (totalAttemptsUsed c) (skips c)
       (over || exhaustedForTurn c)).

Definition onResolutionSkip (c : FallbackChainController) (why : string)
    : bool * FallbackChainController :=
  advance (mkController (chain c) (maxAttempts c) (activeIndex c) (attemptsUsed c) (tried c)
             (attemptStarted c) (totalAttemptsUsed c)
             (match currentSelector c with Some s => skips c ++ [(s, why)] | None => skips c end)
             (exhaustedForTurn c)).

Definition onAttemptStarted (c : FallbackChainController) : FallbackChainController :=
  if bool_decide (currentSelector c = None) || exhaustedForTurn c then c
  else if decide (budget c <= totalAttemptsUsed c) then exhaust c
  else mkController (chain c) (maxAttempts c) (activeIndex c) (attemptsUsed c + 1) (tried c)
         true (totalAttemptsUsed c + 1) (skips c) (exhaustedForTurn c).

Definition discardStartedAttempt (c : FallbackChainController) : FallbackChainController :=
  if attemptStarted c then
    mkController (chain c) (maxAttempts c) (activeIndex c) (Z.max 0 (attemptsUsed c - 1)) (tried c)
      false (Z.max 0 (totalAttemptsUsed c - 1)) (skips c) (exhaustedForTurn c)
  else c.

Definition resetAttemptBudget (c : FallbackChainController) : FallbackChainController :=
  mkController (chain c) (maxAttempts c) (activeIndex c) 0 [] false 0 (skips c) (exhaustedForTurn c).

Definition seedResolution (c : FallbackChainController) (index : Z) (sk : list (string * string))
    : FallbackChainController :=
  let i := Z.min (Z.max 0 index) (chain_length c) in
  mkController (chain c) (maxAttempts c) i 0 (tried c) false 0 sk
    (bool_decide (chain_length c <= i)).

Definition onAttemptFailure (c : FallbackChainController) (trigger why : string)
    : FallbackFailureResult * FallbackChainController :=
  match currentSelector c with
  | None => (Exhausted, c)
  | Some s =>
      if exhaustedForTurn c then (Exhausted, c)
      else
        let charge := if attemptStarted c then 0 else 1 in
        let c := mkController (chain c) (maxAttempts c) (activeIndex c) (attemptsUsed c + charge)
                   (tried c ++ [{| selector := s; triggerClass := trigger; reason := why |}])
                   false (totalAttemptsUsed c + charge) (skips c) (exhaustedForTurn c) in
        if decide (budget c <= totalAttemptsUsed c) then (Exhausted, exhaust c)
        else if decide (attemptsUsed c < maxAttempts c) then (Retry, c)
        else let '(ok, c) := advance c in (if ok then Advance else Exhausted, c)
  end.

Definition restorePreviousEntryForRetry (c : FallbackChainController)
    : bool * FallbackChainController :=
  if bool_decide (activeIndex c = 0) || exhaustedForTurn c
     || bool_decide (budget c <= totalAttemptsUsed c) then (false, c)
  else (true, mkController (chain c) (maxAttempts c) (activeIndex c - 1) 0 (tried c) false
                (totalAttemptsUsed c) (skips c) false).

Definition isExhausted (c : FallbackChainController) : bool := exhaustedForTurn c.

Definition resetSticky (c : FallbackChainController) : FallbackChainController :=
  mkController (chain c) (maxAttempts c) 0 0 [] false 0 []
    (bool_decide (entries (chain c) = [])).

Definition resetForNewTurn (c : FallbackChainController) : FallbackChainController :=
  resetSticky c.

(** ** Back-off *)

Definition cappedExponentialWithFullJitter (baseDelayMs maxDelayMs attemptK : Z) (random : Q) : Z :=
  let exponential := baseDelayMs * 2 ^ Z.max 0 (attemptK - 1) in
  let cap := if decide (0 < maxDelayMs) then Z.min exponential maxDelayMs else exponential in
  Qfloor (inject_Z (Z.max 0 cap) * Qmax 0 (Qmin 1 random)).

Definition effectiveFallbackDelay (baseDelayMs maxDelayMs attemptK : Z) (retryAfterMs : option Z)
    (random : Q) : Z :=
  Z.max (cappedExponentialWithFullJitter baseDelayMs maxDelayMs attemptK random)
    (default 0 retryAfterMs).

(** ** The controller's invariant *)

Record wf (c : FallbackChainController) : Prop := {
  wf_max : 1 <= maxAttempts c;
  wf_index : 0 <= activeIndex c <= chain_length c;
  wf_exhausted : exhaustedForTurn c = bool_decide (chain_length c <= activeIndex c);
  wf_used : 0 <= attemptsUsed c <= totalAttemptsUsed c;
  wf_started : attemptStarted c = true -> 1 <= attemptsUsed c;
  wf_total : totalAttemptsUsed c <= budget c + 1;
  wf_live : exhaustedForTurn c = false -> totalAttemptsUsed c <= budget c
}.

(** The calls a session makes. *)
Inductive call : FallbackChainController -> FallbackChainController -> Prop :=
| call_skip c w : call c (onResolutionSkip c w).2
| call_start c : call c (onAttemptStarted c)
| call_discard c : call c (discardStartedAttempt c)
| call_failure c t w : call c (onAttemptFailure c t w).2
| call_advance c : call c (advance c).2
| call_restore c : call c (restorePreviousEntryForRetry c).2
| call_reset_budget c : call c (resetAttemptBudget c)
| call_reset c : call c (resetForNewTurn c)
| call_seed c i sk : call c (seedResolution c i sk).

(** Field-by-field: unfold the derived quantities and leave arithmetic. *)
Ltac fields :=
  split; simpl in *; unfold budget, chain_length in *; simpl in *; try done; try lia.

Lemma empty_chain (l : list string) :
  bool_decide (l = []) = bool_decide (Z.of_nat (length l) <= 0).
Proof. apply bool_decide_ext. destruct l; simpl; split; done || lia. Qed.

Lemma wf_create ch m c : create ch m = Ok c -> wf c.
Proof.
  unfold create. case_decide; [done|]. intros [= <-].
  fields.
  apply empty_chain.
Qed.

Lemma wf_advance c : wf c -> wf (advance c).2.
Proof.
  intros Hwf. unfold advance. destruct (exhaustedForTurn c) eqn:E; [done|].
  destruct Hwf. rewrite E in wf_exhausted0, wf_live0.
  symmetry in wf_exhausted0. apply bool_decide_eq_false in wf_exhausted0.
  fields.
  by rewrite orb_false_r.
Qed.

Lemma wf_exhaust c : wf c -> wf (exhaust c).
Proof.
  intros []. fields.
  by rewrite bool_decide_true by lia.
Qed.

Lemma budget_nonneg c : wf c -> 0 <= budget c.
Proof. intros []. unfold budget, chain_length in *. nia. Qed.

Lemma wf_call c c' : call c c' -> wf c -> wf c'.
Proof.
  intros Hc Hwf. pose proof (budget_nonneg c Hwf) as Hb. destruct Hc.
  - unfold onResolutionSkip. apply wf_advance. by destruct Hwf.
  - unfold onAttemptStarted. case_match eqn:Eg; [done|].
    apply orb_false_iff in Eg as [_ Eg]. case_decide; [by apply wf_exhaust|].
    destruct Hwf. fields.
  - unfold discardStartedAttempt. destruct (attemptStarted c) eqn:Es; [|done].
    destruct Hwf. specialize (wf_started0 Es).
    fields.
  - unfold onAttemptFailure. destruct (currentSelector c) as [s|]; [|done].
    destruct (exhaustedForTurn c) eqn:Ex; [done|].
    set (charge := if attemptStarted c then 0 else 1).
    assert (0 <= charge <= 1) by (unfold charge; destruct (attemptStarted c); lia).
    match goal with |- context [budget ?x] => set (c1 := x) in * end.
    assert (budget c1 = budget c) as Hb1 by done.
    assert (totalAttemptsUsed c1 = totalAttemptsUsed c + charge) as Ht1 by done.
    assert (totalAttemptsUsed c1 <= budget c1 + 1) as Hle.
    { destruct Hwf. specialize (wf_live0 Ex). lia. }
    case_decide.
    + destruct Hwf. fields.
      by rewrite bool_decide_true by lia.
    + assert (wf c1) as Hc1.
      { destruct Hwf. fields. by rewrite <- Ex. }
      case_decide; [done|]. pose proof (wf_advance c1 Hc1).
      by destruct (advance c1).
  - by apply wf_advance.
  - unfold restorePreviousEntryForRetry. case_match eqn:Eg; [done|].
    apply orb_false_iff in Eg as [Eg Hlt]. apply orb_false_iff in Eg as [Hi Ex].
    apply bool_decide_eq_false in Hi, Hlt. destruct Hwf.
    rewrite Ex in wf_exhausted0. symmetry in wf_exhausted0.
    apply bool_decide_eq_false in wf_exhausted0.
    fields.
    by rewrite bool_decide_false by lia.
  - destruct Hwf. fields.
  - destruct Hwf. fields.
    apply empty_chain.
  - destruct Hwf. fields.
Qed.

(** ** The attempt schedule *)

(** One request that is charged at the transport boundary and then fails. *)
Definition attempt (t w : string) (c : FallbackChainController)
    : FallbackFailureResult * FallbackChainController :=
  onAttemptFailure (onAttemptStarted c) t w.

Fixpoint attempts (n : nat) (t w : string) (c : FallbackChainController)
    : list FallbackFailureResult * FallbackChainController :=
  match n with
  | O => ([], c)
  | S n => let '(r, c) := attempt t w c in let '(rs, c) := attempts n t w c in (r :: rs, c)
  end.

(** The [k]-th failure of a chain of [n] entries tried [m] times each. *)
Definition scheduled (m n k : Z) : FallbackFailureResult :=
  if decide (k + 1 = m * n) then Exhausted
  else if decide (k mod m + 1 < m) then Retry else Advance.

(** Every entry, [m] times in a row, in chain order. *)
Definition all_failures (m : Z) (l : list string) (t w : string) : list FallbackFailure :=
  l ≫= fun s => replicate (Z.to_nat m) {| selector := s; triggerClass := t; reason := w |}.

Lemma length_all_failures m l t w :
  length (all_failures m l t w) = (Z.to_nat m * length l)%nat.
Proof.
  unfold all_failures. induction l as [|s l IH]; [simpl; lia|].
  rewrite bind_cons, length_app, length_replicate, IH. simpl. lia.
Qed.

Lemma all_failures_lookup m l t w k s :
  1 <= m -> 0 <= k -> l !! Z.to_nat (k / m) = Some s ->
  all_failures m l t w !! Z.to_nat k
    = Some {| selector := s; triggerClass := t; reason := w |}.
Proof.
  intros Hm. revert k. induction l as [|s' l IH]; intros k Hk Hl; [done|].
  unfold all_failures. rewrite bind_cons. destruct (decide (k < m)) as [Hlt|Hge].
  - rewrite Z.div_small in Hl by lia. simplify_eq/=.
    rewrite lookup_app_l by (rewrite length_replicate; lia).
    apply lookup_replicate_2. lia.
  - rewrite lookup_app_r by (rewrite length_replicate; lia). rewrite length_replicate.
    replace (Z.to_nat k - Z.to_nat m)%nat with (Z.to_nat (k - m)) by lia.
    apply IH; [lia|]. assert (k / m = (k - m) / m + 1) as E.
    { replace k with ((k - m) + 1 * m) at 1 by lia. by rewrite Z.div_add by lia. }
    rewrite E in Hl. assert (0 <= (k - m) / m) by (apply Z.div_pos; lia).
    replace (Z.to_nat ((k - m) / m + 1)) with (S (Z.to_nat ((k - m) / m))) in Hl by lia. done.
Qed.

Section schedule.
Context (ch : ConfiguredFallbackChain) (m : Z) (t w : string).
Context (Hm : 1 <= m) (Hsel : Forall (.≠ EmptyString) (entries ch)).

Abbreviation n := (Z.of_nat (length (entries ch))).

(** The controller after [k] failures. *)
Record at_attempt (k : Z) (c : FallbackChainController) : Prop := {
  sa_chain : chain c = ch;
  sa_max : maxAttempts c = m;
  sa_index : activeIndex c = k / m;
  sa_used : attemptsUsed c = k mod m;
  sa_total : totalAttemptsUsed c = k;
  sa_live : exhaustedForTurn c = false;
  sa_tried : tried c = take (Z.to_nat k) (all_failures m (entries ch) t w)
}.

Lemma div_mod_step k :
  0 <= k ->
  (k mod m + 1 < m -> (k + 1) / m = k / m /\ (k + 1) mod m = k mod m + 1) /\
  (m <= k mod m + 1 -> (k + 1) / m = k / m + 1 /\ (k + 1) mod m = 0).
Proof using Hm.
  intros Hk. pose proof (Z.div_mod k m). pose proof (Z.mod_pos_bound k m).
  split; intros Hlt; split; symmetry.
  - apply Z.div_unique with (k mod m + 1); lia.
  - apply Z.mod_unique with (k / m); lia.
  - apply Z.div_unique with 0; lia.
  - apply Z.mod_unique with (k / m + 1); lia.
Qed.

Lemma attempt_step k c :
  0 <= k < m * n -> at_attempt k c ->
  (attempt t w c).1 = scheduled m n k /\
  (k + 1 < m * n -> at_attempt (k + 1) (attempt t w c).2) /\
  (k + 1 = m * n ->
     exhaustedForTurn (attempt t w c).2 = true /\
     tried (attempt t w c).2 = all_failures m (entries ch) t w).
Proof using Hm Hsel.
  intros Hk [].
  assert (0 <= k / m < Z.of_nat (length (entries ch))) as Hi.
  { split; [apply Z.div_pos; lia|]. apply Z.div_lt_upper_bound; lia. }
  destruct (lookup_lt_is_Some_2 (entries ch) (Z.to_nat (k / m))) as [s Hs]; [lia|].
  assert (s <> EmptyString) as Hne by (rewrite Forall_lookup in Hsel; eauto).
  assert (forall c', chain c' = ch -> activeIndex c' = k / m -> currentSelector c' = Some s) as Hcur.
  { intros c' Hc' Hi'. unfold currentSelector. rewrite Hc', Hi', decide_True by lia.
    rewrite Hs. by rewrite decide_False. }
  assert (onAttemptStarted c
            = mkController ch m (k / m) (k mod m + 1) (tried c) true (k + 1) (skips c) false) as Hst.
  { unfold onAttemptStarted. rewrite (Hcur c), sa_live0 by done. simpl.
    rewrite decide_False; [|unfold budget, chain_length; rewrite sa_chain0, sa_max0; lia].
    by rewrite sa_chain0, sa_max0, sa_index0, sa_used0, sa_total0. }
  unfold attempt. rewrite Hst. unfold onAttemptFailure. rewrite Hcur by done. simpl.
  unfold budget, chain_length. simpl. rewrite !Z.add_0_r.
  pose proof (all_failures_lookup m (entries ch) t w k s Hm ltac:(lia) Hs) as Hf.
  pose proof (take_S_r _ _ _ Hf) as Htake.
  replace (S (Z.to_nat k)) with (Z.to_nat (k + 1)) in Htake by lia.
  pose proof (div_mod_step k ltac:(lia)) as [Hr Ha].
  assert (m <= k mod m + 1 -> k + 1 < m * n -> k / m + 1 < n) as Hover.
  { intros Hge Hlt. destruct Ha as [<- _]; [lia|]. apply Z.div_lt_upper_bound; lia. }
  unfold scheduled, advance, chain_length. simpl.
  repeat case_decide; repeat case_bool_decide; try lia; simpl.
  - split; [done|]. split; [lia|]. intros _. split; [done|].
    rewrite sa_tried0, <- Htake. apply take_ge. rewrite length_all_failures. lia.
  - split; [done|]. split; [|lia]. intros _. destruct Hr as [Hq Hrm]; [lia|].
    split; simpl; try done; try lia. by rewrite sa_tried0, Htake.
  - split; [done|]. split; [|lia]. intros _. destruct Ha as [Hq Hrm]; [lia|].
    split; simpl; try done; try lia. by rewrite sa_tried0, Htake.
Qed.

Lemma attempts_run (j : nat) k c :
  0 <= k -> k + Z.of_nat (S j) = m * n -> at_attempt k c ->
  (attempts (S j) t w c).1 = (fun i => scheduled m n (k + Z.of_nat i)) <$> seq 0 (S j) /\
  exhaustedForTurn (attempts (S j) t w c).2 = true /\
  tried (attempts (S j) t w c).2 = all_failures m (entries ch) t w.
Proof using Hm Hsel.
  revert k c. induction j as [|j IH]; intros k c Hk0 Hk Hat.
  - destruct (attempt_step k c ltac:(lia) Hat) as (H1 & _ & H3).
    destruct (H3 ltac:(lia)) as [H4 H5]. simpl.
    destruct (attempt t w c) as [r c']; simpl in *. by rewrite Z.add_0_r, H1.
  - destruct (attempt_step k c ltac:(lia) Hat) as (H1 & H2 & _).
    specialize (H2 ltac:(lia)). destruct (IH (k + 1) _ ltac:(lia) ltac:(lia) H2) as (H3 & H4 & H5).
    change (attempts (S (S j)) t w c)
      with (let '(r, c) := attempt t w c in let '(rs, c) := attempts (S j) t w c in (r :: rs, c)).
    destruct (attempt t w c) as [r c']. cbn [fst snd] in H1, H2, H3, H4, H5.
    destruct (attempts (S j) t w c') as [rs c'']. cbn [fst snd] in *.
    split; [|done]. rewrite <- cons_seq, fmap_cons, Z.add_0_r, <- H1. f_equal.
    rewrite <- fmap_S_seq, <- list_fmap_compose. etrans; [exact H3|].
    apply list_fmap_ext. intros _ i _. simpl. f_equal. lia.
Qed.
End schedule.

(** Exhaustive and bounded: on a chain of usable selectors, a fresh
    controller whose requests all fail answers [retry] until each entry has
    used its [maxAttempts] requests, [advance] at each entry boundary and
    [exhausted] exactly on request [maxAttempts * entries.length]; the failure
    record then lists every selector [maxAttempts] times in chain order. *)
Theorem fallback_schedule (ch : ConfiguredFallbackChain) (m : Z) (t w : string) :
  1 <= m -> entries ch <> [] -> Forall (.≠ EmptyString) (entries ch) ->
  exists c, create ch m = Ok c /\
    let n := Z.of_nat (length (entries ch)) in
    let run := attempts (Z.to_nat (m * n)) t w c in
    run.1 = (fun i => scheduled m n (Z.of_nat i)) <$> seq 0 (Z.to_nat (m * n)) /\
    isExhausted run.2 = true /\
    tried run.2 = all_failures m (entries ch) t w.
Proof.
  intros Hm Hne Hsel. unfold create. rewrite decide_False by lia. eexists. split; [done|].
  assert (1 <= Z.of_nat (length (entries ch))) by (destruct (entries ch); simpl; done || lia).
  destruct (Z.to_nat (m * Z.of_nat (length (entries ch)))) as [|j] eqn:Ej; [nia|].
  destruct (attempts_run ch m t w Hm Hsel j 0
    (mkController ch m 0 0 [] false 0 [] (bool_decide (entries ch = [])))) as (H1 & H2 & H3).
  - lia.
  - nia.
  - split; simpl; try done; by rewrite bool_decide_false.
  - cbv zeta. rewrite ?Ej. split_and!; done.
Qed.

(** Budget safety: from a fresh controller, under any interleaving of
    attempts, failures, discards, skips, advances, credential-rotation
    restores, seeds and resets, the active index stays within the chain, the
    turn is exhausted exactly when the index has left the chain, the
    per-entry count never exceeds the chain-wide count, and a request is only
    ever charged while the chain-wide count is below
    [maxAttempts * entries.length]. *)
Theorem fallback_budget (ch : ConfiguredFallbackChain) (m : Z) (c0 c : FallbackChainController) :
  create ch m = Ok c0 -> rtc call c0 c ->
  0 <= activeIndex c <= chain_length c /\
  (isExhausted c = true <-> activeIndex c = chain_length c) /\
  0 <= attemptsUsed c <= totalAttemptsUsed c /\
  totalAttemptsUsed c <= budget c + 1 /\
  totalAttemptsUsed (onAttemptStarted c) <= Z.max (budget c) (totalAttemptsUsed c) /\
  (totalAttemptsUsed c < totalAttemptsUsed (onAttemptStarted c) ->
     currentSelector c <> None /\ totalAttemptsUsed (onAttemptStarted c) <= budget c).
Proof.
  intros Hc Hr. assert (wf c) as Hwf.
  { apply wf_create in Hc. revert Hc. induction Hr; eauto using wf_call. }
  unfold onAttemptStarted, isExhausted.
  destruct (currentSelector c) eqn:Es; simpl; destruct Hwf; split_and!; try lia; try done.
  - rewrite wf_exhausted0, bool_decide_eq_true. lia.
  - destruct (exhaustedForTurn c); [lia|].
    destruct (decide (budget c <= totalAttemptsUsed c)); simpl; lia.
  - destruct (exhaustedForTurn c); [lia|].
    destruct (decide (budget c <= totalAttemptsUsed c)); simpl; intros; [lia|]. split; [done|lia].
  - rewrite wf_exhausted0, bool_decide_eq_true. lia.
Qed.

(** Back-off bounds: with a non-negative base delay the jittered delay is
    between zero and the exponential, never exceeds a positive [maxDelayMs]
    whatever the random source returns, and [Retry-After] is a lower bound of
    the effective delay even when it exceeds the cap. *)
Theorem backoff_bounds (base maxDelay k : Z) (retryAfter : option Z) (random : Q) :
  0 <= base ->
  0 <= cappedExponentialWithFullJitter base maxDelay k random
    <= base * 2 ^ Z.max 0 (k - 1) /\
  (0 < maxDelay -> cappedExponentialWithFullJitter base maxDelay k random <= maxDelay) /\
  default 0 retryAfter <= effectiveFallbackDelay base maxDelay k retryAfter random /\
  0 <= effectiveFallbackDelay base maxDelay k retryAfter random.
Proof.
  intros Hb. unfold effectiveFallbackDelay.
  set (d := cappedExponentialWithFullJitter base maxDelay k random).
  set (e := base * 2 ^ Z.max 0 (k - 1)).
  assert (0 <= e) by (apply Z.mul_nonneg_nonneg; [lia|apply Z.pow_nonneg; lia]).
  assert (forall cap r, 0 <= cap -> 0 <= Qfloor (inject_Z cap * Qmax 0 (Qmin 1 r)) <= cap) as Hj.
  { intros cap r Hcap. set (j := Qmax 0 (Qmin 1 r)).
    assert (0 <= j)%Q as Hj0 by apply Q.le_max_l.
    assert (j <= 1)%Q as Hj1.
    { unfold j. apply Q.max_lub; [done|apply Q.le_min_l]. }
    assert (0 <= inject_Z cap)%Q as Hc by (by rewrite <- (Zle_Qle 0)).
    split.
    - rewrite <- (Qfloor_Z 0). apply Qfloor_resp_le. by apply Qmult_le_0_compat.
    - rewrite <- (Qfloor_Z cap) at 2. apply Qfloor_resp_le.
      rewrite <- (Qmult_1_r (inject_Z cap)) at 2. rewrite !(Qmult_comm (inject_Z cap)).
      by apply Qmult_le_compat_r. }
  unfold d, cappedExponentialWithFullJitter. fold e.
  destruct (decide (0 < maxDelay)).
  - specialize (Hj (Z.max 0 (Z.min e maxDelay)) random ltac:(lia)). lia.
  - specialize (Hj (Z.max 0 e) random ltac:(lia)). lia.
Qed.

(** ** Concrete runs *)

Definition demo_chain : ConfiguredFallbackChain := {|
  role := "default"; entries := ["opus"; "gpt"; "grok"]; origin := "settings";
  identity := None; explicitHead := true |}.

Lemma fallback_schedule_witness :
  (entries demo_chain <> [] /\ Forall (.≠ EmptyString) (entries demo_chain)) /\
  exists c, create demo_chain 2 = Ok c /\
    (attempts 6 "rate_limit" "429" c).1 = [Retry; Advance; Retry; Advance; Retry; Exhausted].
Proof.
  assert (entries demo_chain <> [] /\ Forall (.≠ EmptyString) (entries demo_chain)) as [H1 H2]
    by (split; [done|repeat constructor; done]).
  split; [split; [exact H1|exact H2]|].
  destruct (fallback_schedule demo_chain 2 "rate_limit" "429" ltac:(lia) H1 H2) as (c & Hc & Hr & _).
  exists c. split; [exact Hc|]. exact Hr.
Defined.

Lemma fallback_budget_witness :
  exists c0, create demo_chain 1 = Ok c0 /\
    0 <= activeIndex (onAttemptStarted c0) <= chain_length (onAttemptStarted c0).
Proof.
  eexists. split; [reflexivity|].
  refine (proj1 (fallback_budget demo_chain 1 _ _ eq_refl _)).
  eapply rtc_l; [apply call_start|apply rtc_refl].
Defined.

Lemma backoff_bounds_witness :
  0 <= 500 /\ cappedExponentialWithFullJitter 500 8000 10 (1 # 3) <= 8000.
Proof.
  split; [lia|].
  refine (proj1 (proj2 (backoff_bounds 500 8000 10 None (1 # 3) _)) _); lia.
Defined.
