(* ===== verification/HarnessTypes.v ===== *)
(** * Harness control plane: vocabularies ([packages/coding-agent/src/harness-control-plane/types.ts])

    The closed vocabularies of the control plane as enumerations with decidable
    equality, the bounded observation and state records its pure layers read,
    and the extraction of a review verdict from free-form assistant text. *)

From S2P Require Import Prelude.
From Stdlib Require Import Ascii.

Inductive Harness := gajae_code | codex | omx.

Inductive ReviewVerdict :=
| APPROVE_MERGE_READY
| REQUEST_CHANGES
| OWNER_CONFIRMATION_REQUIRED.

Inductive HarnessLifecycle :=
| L_new | L_started | L_submitted | L_observing | L_recovering
| L_validating | L_finalizing | L_completed | L_blocked | L_retired.

Inductive Severity := S_info | S_warn | S_critical.

Inductive GitDelta := G_clean | G_dirty | G_zero_delta | G_unknown.

Inductive RiskKind :=
| Risk_normal | Risk_prompt_not_accepted | Risk_deleted_worktree | Risk_vanished_dirty.

Inductive RecoveryClassification :=
| C_continue | C_send_enter | C_reinject_prompt | C_restart_clean
| C_restart_preserve_delta | C_fallback_codex_exec | C_human_check.

Inductive ReceiptFamily :=
| F_vanish | F_prompt_acceptance | F_validation | F_completion
| F_review_verdict | F_review_failure | F_phase_rollup.

Inductive HarnessVerb :=
| V_start | V_submit | V_observe | V_classify | V_recover | V_validate
| V_finalize | V_retire | V_events | V_monitor | V_operate.

#[export] Instance ReviewVerdict_eq_dec : EqDecision ReviewVerdict.
Proof. solve_decision. Defined.
#[export] Instance HarnessLifecycle_eq_dec : EqDecision HarnessLifecycle.
Proof. solve_decision. Defined.
#[export] Instance GitDelta_eq_dec : EqDecision GitDelta.
Proof. solve_decision. Defined.
#[export] Instance RiskKind_eq_dec : EqDecision RiskKind.
Proof. solve_decision. Defined.
#[export] Instance RecoveryClassification_eq_dec : EqDecision RecoveryClassification.
Proof. solve_decision. Defined.
#[export] Instance ReceiptFamily_eq_dec : EqDecision ReceiptFamily.
Proof. solve_decision. Defined.
#[export] Instance HarnessVerb_eq_dec : EqDecision HarnessVerb.
Proof. solve_decision. Defined.

(** The string constants, as they occur in messages and in JSON. *)
Definition lifecycle_name (l : HarnessLifecycle) : string :=
  match l with
  | L_new => "new" | L_started => "started" | L_submitted => "submitted"
  | L_observing => "observing" | L_recovering => "recovering"
  | L_validating => "validating" | L_finalizing => "finalizing"
  | L_completed => "completed" | L_blocked => "blocked" | L_retired => "retired"
  end.

Definition delta_name (d : GitDelta) : string :=
  match d with
  | G_clean => "clean" | G_dirty => "dirty" | G_zero_delta => "zero-delta"
  | G_unknown => "unknown"
  end.

Definition verdict_name (v : ReviewVerdict) : string :=
  match v with
  | APPROVE_MERGE_READY => "APPROVE_MERGE_READY"
  | REQUEST_CHANGES => "REQUEST_CHANGES"
  | OWNER_CONFIRMATION_REQUIRED => "OWNER_CONFIRMATION_REQUIRED"
  end.

Definition REVIEW_VERDICTS : list ReviewVerdict :=
  [APPROVE_MERGE_READY; REQUEST_CHANGES; OWNER_CONFIRMATION_REQUIRED].

Definition VERDICT_ALIASES : list (string * ReviewVerdict) :=
  [("MERGE_READY", APPROVE_MERGE_READY)].

(** The persisted per-session record, restricted to the fields the control
    plane's pure layers read or write. *)
Record SessionState := {
  sessionId : string;
  lifecycle : HarnessLifecycle;
  harness : Harness;
  blockers : list string;
  updatedAt : string
}.

Record Observation := {
  obs_lifecycle : HarnessLifecycle;
  ownerLive : bool;
  gitDelta : GitDelta;
  observedSignals : list string;
  risk : RiskKind
}.

Record RetryBudget := {
  reinjectPrompt : Z;
  zeroDeltaVanish : Z;
  dirtyVanishPreserve : Z;
  validationRepair : Z
}.

Definition DEFAULT_RETRY_BUDGET : RetryBudget := {|
  reinjectPrompt := 2; zeroDeltaVanish := 1; dirtyVanishPreserve := 1; validationRepair := 2 |}.

Record ClassifyInput := { observation : Observation; retryBudget : RetryBudget }.

Record RecoveryDecision := {
  classification : RecoveryClassification;
  reason : string;
  severity : Severity;
  ownerRequired : bool;
  requiredReceiptFamily : option ReceiptFamily
}.

Record NextAllowedAction := {
  verb : HarnessVerb;
  available : bool;
  unavailable_reason : option string
}.

(** ** Review verdicts in free-form text *)

(** Tokens with the verdict each stands for, in the order of the alternation. *)
Definition tokens : list (string * ReviewVerdict) :=
  ((fun v => (verdict_name v, v)) <$> REVIEW_VERDICTS) ++ VERDICT_ALIASES.

(** [\w] *)
Definition word_char (c : ascii) : bool :=
  let n := nat_of_ascii c in
  bool_decide ((48 <= n <= 57) \/ (65 <= n <= 90) \/ (97 <= n <= 122) \/ n = 95).

(** [\b] before the text [s], given whether the preceding character is a word
    character. *)
Definition boundary (prev : bool) (s : string) : bool :=
  match s with
  | EmptyString => prev
  | String c _ => xorb prev (word_char c)
  end.

Fixpoint strip (t s : string) : option string :=
  match t, s with
  | EmptyString, _ => Some s
  | String a t, String b s => if decide (a = b) then strip t s else None
  | _, _ => None
  end.

(** The alternation [(t1|t2|...)] followed by [\b], at the head of [s]. *)
Fixpoint match_token (ts : list (string * ReviewVerdict)) (s : string) : option ReviewVerdict :=
  match ts with
  | [] => None
  | (t, v) :: ts =>
      match strip t s with
      | Some rest => if boundary true rest then Some v else match_token ts s
      | None => match_token ts s
      end
  end.

(** The matches of [text.matchAll(pattern)], left to right.  Tokens consist of
    word characters, so inside a match no position has a boundary before it
    and the scan may move by one character. *)
Fixpoint matches (prev : bool) (s : string) : list ReviewVerdict :=
  match s with
  | EmptyString => []
  | String c r =>
      (if boundary prev s then option_list (match_token tokens s) else [])
        ++ matches (word_char c) r
  end.

Definition extractReviewVerdict (text : option string) : option ReviewVerdict :=
  match text with
  | None => None
  | Some text => last (matches false text)
  end.

(** ** Reference: the whole words of a text *)

(** The longest prefix of word characters and the rest. *)
Fixpoint span_word (s : string) : string * string :=
  match s with
  | EmptyString => (EmptyString, EmptyString)
  | String c r =>
      if word_char c then let '(w, r) := span_word r in (String c w, r) else (EmptyString, s)
  end.

(** The maximal runs of word characters; [inside] tells whether the text
    continues a run that was already collected. *)
Fixpoint words (inside : bool) (s : string) : list string :=
  match s with
  | EmptyString => []
  | String c r =>
      (if word_char c && negb inside then [(span_word s).1] else [])
        ++ words (word_char c) r
  end.

(** The verdict a whole word stands for. *)
Definition canonical (w : string) : option ReviewVerdict :=
  snd <$> find_first (fun p => bool_decide (p.1 = w)) tokens.

Fixpoint all_word (s : string) : bool :=
  match s with
  | EmptyString => true
  | String c r => word_char c && all_word r
  end.

Lemma strip_Some t s rest : strip t s = Some rest -> s = t +:+ rest.
Proof.
  revert s. induction t as [|a t IH]; intros s H; [by injection H as <-|].
  destruct s as [|b s]; [done|]. simpl in H. case_decide; [|done]. subst b.
  rewrite append_cons. f_equal. by apply IH.
Qed.

Lemma strip_app t rest : strip t (t +:+ rest) = Some rest.
Proof. induction t as [|a t IH]; [done|]. rewrite append_cons. simpl. by rewrite decide_True. Qed.

(** A run of word characters followed by a boundary is the maximal run. *)
Lemma span_word_maximal t rest :
  all_word t = true -> boundary true rest = true -> span_word (t +:+ rest) = (t, rest).
Proof.
  induction t as [|a t IH]; intros Ht Hb.
  - rewrite append_nil. destruct rest as [|c r]; [done|]. simpl in *. by destruct (word_char c).
  - rewrite append_cons. simpl in *. apply andb_true_iff in Ht as [-> Ht]. by rewrite IH.
Qed.

Lemma span_word_split s : s = (span_word s).1 +:+ (span_word s).2.
Proof.
  induction s as [|c s IH]; [done|]. simpl. destruct (word_char c); [|done].
  destruct (span_word s) as [w r]. simpl in *. rewrite append_cons. by f_equal.
Qed.

Lemma span_word_boundary s : boundary true (span_word s).2 = true.
Proof.
  induction s as [|c s IH]; [done|]. simpl. destruct (word_char c) eqn:E.
  - by destruct (span_word s).
  - simpl. by rewrite E.
Qed.

Lemma match_token_word ts s :
  Forall (fun p => all_word p.1 = true) ts ->
  match_token ts s = snd <$> find_first (fun p => bool_decide (p.1 = (span_word s).1)) ts.
Proof.
  induction 1 as [|[t v] ts Ht _ IH]; [done|]. simpl in *.
  case_bool_decide as E.
  - rewrite (span_word_split s), <- E, strip_app. by rewrite span_word_boundary.
  - destruct (strip t s) as [rest|] eqn:Es; [|done].
    destruct (boundary true rest) eqn:Eb; [|done].
    apply strip_Some in Es as ->. by rewrite span_word_maximal in E.
Qed.

Lemma tokens_all_word : Forall (fun p => all_word p.1 = true) tokens.
Proof. repeat constructor. Qed.

Lemma canonical_empty : canonical EmptyString = None.
Proof. done. Qed.

(** Whole-word verdicts: the verdict extracted from a text is the one the
    last whole word that is a verdict token (or an accepted alias) stands for;
    a text without such a word yields none, whatever longer words it contains. *)
Theorem extract_last_whole_word (text : string) :
  extractReviewVerdict (Some text) = last (omap canonical (words false text)).
Proof.
  unfold extractReviewVerdict. f_equal. generalize false as prev.
  induction text as [|c r IH]; intros prev; [done|].
  cbn [matches words boundary]. rewrite omap_app, IH. f_equal.
  rewrite (match_token_word tokens (String c r) tokens_all_word).
  fold (canonical (span_word (String c r)).1).
  destruct (word_char c) eqn:Ec, prev; cbn [xorb andb negb app]; try done.
  cbn [span_word]. by rewrite Ec.
Qed.
