(* ===== verification/LifecycleMachine.v ===== *)
(** * Harness lifecycle ([harness-control-plane/state-machine.ts], [lifecycle-reconciliation.ts])

    The transition table and its guard, the [nextAllowedActions] forcing
    function, and the reconciliation of a session whose owner vanished.  The
    reconciler mutates and persists the state record; here it returns the
    states it persisted, in order, and the final state. *)

From S2P Require Import Prelude HarnessTypes.

(** ** The transition table *)

Definition TERMINAL_LIFECYCLES : list HarnessLifecycle := [L_completed; L_retired].
Definition SUBMIT_READY_LIFECYCLES : list HarnessLifecycle := [L_started; L_observing].

Definition TRANSITIONS (l : HarnessLifecycle) : list HarnessLifecycle :=
  match l with
  | L_new => [L_started; L_blocked; L_retired]
  | L_started => [L_submitted; L_observing; L_recovering; L_blocked; L_retired]
  | L_submitted => [L_observing; L_recovering; L_validating; L_blocked; L_retired]
  | L_observing =>
      [L_submitted; L_recovering; L_validating; L_finalizing; L_blocked; L_retired]
  | L_recovering => [L_started; L_submitted; L_observing; L_blocked; L_retired]
  | L_validating => [L_finalizing; L_observing; L_blocked; L_retired]
  | L_finalizing => [L_completed; L_blocked; L_retired]
  | L_completed => [L_retired]
  | L_blocked =>
      [L_started; L_submitted; L_observing; L_recovering; L_validating; L_retired]
  | L_retired => []
  end.

Definition isTerminal (l : HarnessLifecycle) : bool := includes TERMINAL_LIFECYCLES l.

Definition canTransition (from to : HarnessLifecycle) : bool := includes (TRANSITIONS from) to.

Definition assertTransition (from to : HarnessLifecycle) : outcome string unit :=
  if decide (from = to) then Ok tt
  else if negb (canTransition from to)
  then Throw ("invalid_transition:" +:+ lifecycle_name from +:+ "->" +:+ lifecycle_name to)
  else Ok tt.

(** ** The forcing function *)

Definition submitUnavailableReason (l : HarnessLifecycle) (ownerLive : bool)
    (gateReason : option string) : option string :=
  if isTerminal l then Some ("lifecycle-terminal:" +:+ lifecycle_name l)
  else if decide (l = L_blocked) then Some "lifecycle-blocked"
  else if negb (includes SUBMIT_READY_LIFECYCLES l)
  then Some ("lifecycle-not-idle:" +:+ lifecycle_name l)
  else if negb ownerLive then Some "owner-not-live"
  else gateReason.

Definition add_action (v : HarnessVerb) (ok : bool) (why : option string) : NextAllowedAction :=
  {| verb := v; available := ok;
     unavailable_reason := if ok then None else Some (default "unavailable" why) |}.

Definition nextAllowedActions (l : HarnessLifecycle) (ownerLive : bool)
    (gate : option string) : list NextAllowedAction :=
  let terminal := isTerminal l in
  let terminal_reason :=
    if terminal then Some ("lifecycle-terminal:" +:+ lifecycle_name l) else None in
  let submitReason := submitUnavailableReason l ownerLive gate in
  [ add_action V_observe true None;
    add_action V_classify true None;
    add_action V_events true None;
    add_action V_monitor true None;
    add_action V_start false (Some "session-already-exists");
    add_action V_submit (bool_decide (submitReason = None)) submitReason;
    add_action V_recover (negb terminal) terminal_reason;
    add_action V_validate (negb terminal) terminal_reason;
    add_action V_finalize (negb terminal) terminal_reason;
    add_action V_retire (bool_decide (l <> L_retired))
      (if decide (l = L_retired) then Some "already-retired" else None) ].

Record SessionStateView := {
  view_sessionId : string;
  view_lifecycle : HarnessLifecycle;
  view_harness : Harness;
  view_ownerLive : bool;
  view_blockers : list string
}.

Definition buildStateView (s : SessionState) (ownerLive : bool) : SessionStateView := {|
  view_sessionId := sessionId s; view_lifecycle := lifecycle s; view_harness := harness s;
  view_ownerLive := ownerLive; view_blockers := blockers s |}.

Record PrimitiveResponse (E : Type) := {
  ok : bool;
  state : SessionStateView;
  evidence : E;
  next_actions : list NextAllowedAction
}.
Arguments ok {E} _.
Arguments state {E} _.
Arguments evidence {E} _.
Arguments next_actions {E} _.

Definition buildResponse {E} (s : SessionState) (ownerLive : bool) (ev : E) (ok : bool)
    : PrimitiveResponse E := {|
  ok := ok; state := buildStateView s ownerLive; evidence := ev;
  next_actions := nextAllowedActions (lifecycle s) ownerLive None |}.

(** ** Reconciliation *)

Definition OWNER_STARTUP_BLOCKER : string := "owner-died-before-first-prompt".

Definition isOwnerLivenessBlocker (b : string) : bool :=
  bool_decide (b = "detached-owner-not-live")
  || bool_decide (is_Some (strip "owner-vanished:" b)).

(** [completedTerminal] is only tested for presence. *)
Definition needsVanishedOwnerBlock (s : SessionState) (o : Observation)
    (completedTerminal : bool) : bool :=
  if ownerLive o || bool_decide (lifecycle s <> L_observing) then false
  else if completedTerminal || includes (observedSignals o) "completed" then false
  else existsb (fun sg => bool_decide (sg = "prompt-accepted") || bool_decide (sg = "tool-call")
                          || bool_decide (sg = "streaming")) (observedSignals o).

Definition update_state (s : SessionState) (l : HarnessLifecycle) (bs : list string) (now : string)
    : SessionState := {|
  sessionId := sessionId s; lifecycle := l; harness := harness s; blockers := bs;
  updatedAt := now |}.

Definition add_blocker (bs : list string) (b : string) : list string :=
  if includes bs b then bs else bs ++ [b].

Definition settled (l : HarnessLifecycle) : bool :=
  bool_decide (l = L_completed) || bool_decide (l = L_retired).

Definition reconcileOwnerLifecycle (s : SessionState) (o : Observation)
    (completedTerminal startupBlocked : bool) (now : string)
    : list SessionState * SessionState :=
  let '(log1, s1) :=
    if completedTerminal && negb (ownerLive o) && bool_decide (gitDelta o = G_clean)
       && negb (settled (lifecycle s))
    then let s' := update_state s L_completed
                     (filter (fun b => isOwnerLivenessBlocker b = false) (blockers s)) now in
         ([s'], s')
    else ([], s) in
  let '(log2, s2) :=
    if needsVanishedOwnerBlock s1 o completedTerminal
    then let b := "owner-vanished:" +:+ delta_name (gitDelta o) in
         let s' := update_state s1 L_blocked (add_blocker (blockers s1) b) now in
         ([s'], s')
    else ([], s1) in
  let '(log3, s3) :=
    if startupBlocked && negb (settled (lifecycle s2))
    then let s' := update_state s2 L_blocked
                     (add_blocker (blockers s2) OWNER_STARTUP_BLOCKER) now in
         ([s'], s')
    else ([], s2) in
  (log1 ++ log2 ++ log3, s3).

(** ** Lemmas *)

Definition moves (from to : HarnessLifecycle) : Prop := assertTransition from to = Ok tt.

Lemma moves_spec a b : moves a b <-> a = b \/ canTransition a b = true.
Proof.
  unfold moves, assertTransition. case_decide; [naive_solver|].
  destruct (canTransition a b); simpl; naive_solver.
Qed.

Lemma settled_terminal l : settled l = isTerminal l.
Proof. by destruct l. Qed.

(** A set of lifecycles closed under the table is closed under runs. *)
Lemma closed_runs (P : HarnessLifecycle -> Prop) a b :
  (forall x y, P x -> canTransition x y = true -> P y) -> P a -> rtc moves a b -> P b.
Proof.
  intros Hc Ha Hr. induction Hr as [|x y z Hm _ IH]; [done|].
  apply IH. apply moves_spec in Hm as [<-|Hm]; eauto.
Qed.

Lemma add_action_reason v ok why :
  available (add_action v ok why) = false <-> is_Some (unavailable_reason (add_action v ok why)).
Proof.
  unfold add_action. destruct ok; simpl; split; intros H; try done; by apply is_Some_None in H.
Qed.

(** Availability verb by verb. *)
Definition action_available (v : HarnessVerb) (l : HarnessLifecycle) (live : bool)
    (gate : option string) : bool :=
  match v with
  | V_start | V_operate => false
  | V_submit => bool_decide (submitUnavailableReason l live gate = None)
  | V_recover | V_validate | V_finalize => negb (isTerminal l)
  | V_retire => bool_decide (l <> L_retired)
  | V_observe | V_classify | V_events | V_monitor => true
  end.

Lemma offered_spec v l live gate :
  (exists a, a ∈ nextAllowedActions l live gate /\ verb a = v /\ available a = true)
    <-> action_available v l live gate = true.
Proof.
  rewrite <- (Exists_exists (fun a => verb a = v /\ available a = true)). unfold nextAllowedActions.
  destruct v; (split; intros H;
    [ repeat (apply Exists_cons in H as [[Hv Ha]|H]; [try discriminate Hv; exact Ha|]);
      by apply Exists_nil in H
    | repeat first [apply Exists_cons_hd; split; [reflexivity|exact H] | apply Exists_cons_tl];
      discriminate H ]).
Qed.

(** A run that ends elsewhere has a last move into its end. *)
Lemma last_hop a c :
  rtc moves a c -> a <> c -> exists b, rtc moves a b /\ moves b c /\ b <> c.
Proof.
  induction 1 as [|x y z Hm Hr IH]; intros Hne; [done|].
  destruct (decide (y = z)) as [<-|Hy].
  - exists x. split; [apply rtc_refl|done].
  - destruct (IH Hy) as (b & H1 & H2 & H3). exists b. split; [|done]. by eapply rtc_l.
Qed.

Lemma add_blocker_NoDup bs b : NoDup bs -> NoDup (add_blocker bs b).
Proof.
  intros H. unfold add_blocker. destruct (includes bs b) eqn:E; [done|].
  apply includes_false in E. apply NoDup_app. split_and!; [done| |apply NoDup_singleton].
  intros x Hx Hx'. by apply list_elem_of_singleton in Hx' as ->.
Qed.

Lemma elem_of_add_blocker bs b x : x ∈ add_blocker bs b <-> x ∈ bs \/ x = b.
Proof.
  unfold add_blocker. destruct (includes bs b) eqn:E.
  - apply includes_true in E. naive_solver.
  - rewrite elem_of_app, list_elem_of_singleton. done.
Qed.

(** Lifecycle discipline: along any run of accepted transitions a retired
    session stays retired and a completed one can only retire; every session
    can be retired from any state; and no run completes a session except by
    leaving [finalizing], which itself is only entered from [observing] or
    [validating]. *)
Theorem lifecycle_discipline (a b : HarnessLifecycle) :
  (rtc moves L_retired b -> b = L_retired) /\
  (rtc moves L_completed b -> b = L_completed \/ b = L_retired) /\
  moves a L_retired /\
  (rtc moves a L_completed -> a <> L_completed ->
     rtc moves a L_finalizing /\
     (a <> L_finalizing -> rtc moves a L_observing \/ rtc moves a L_validating)).
Proof.
  split_and!.
  - intros Hr. apply (closed_runs (fun x => x = L_retired) L_retired); try done.
    by intros [] [].
  - intros Hr. apply (closed_runs (fun x => x = L_completed \/ x = L_retired) L_completed);
      [|by left|done]. intros [] []; vm_compute; naive_solver.
  - apply moves_spec. destruct a; vm_compute; auto.
  - intros Hr Hne. destruct (last_hop _ _ Hr Hne) as (x & Hx & Hm & Hxc).
    apply moves_spec in Hm as [->|Hm]; [done|].
    assert (x = L_finalizing) as -> by (by destruct x).
    split; [done|]. intros Hnf. destruct (last_hop _ _ Hx Hnf) as (y & Hy & Hm' & Hyf).
    apply moves_spec in Hm' as [->|Hm']; [done|].
    destruct y; try (by vm_compute in Hm'); [by left|by right].
Qed.

Lemma lifecycle_discipline_witness :
  rtc moves L_new L_completed /\ rtc moves L_new L_finalizing.
Proof.
  assert (rtc moves L_new L_completed) as H.
  { apply (rtc_l _ _ L_started); [reflexivity|]. apply (rtc_l _ _ L_observing); [reflexivity|].
    apply (rtc_l _ _ L_finalizing); [reflexivity|]. apply (rtc_l _ _ L_completed); [reflexivity|].
    apply rtc_refl. }
  split; [exact H|].
  exact (proj1 (proj2 (proj2 (proj2 (lifecycle_discipline L_new L_new))) H ltac:(discriminate))).
Defined.

(** The forcing function agrees with the machine: every verb but
    [operate] is listed exactly once, an unavailable one always with a reason;
    [submit] is offered exactly in a started or observing session with a live
    owner and an open gate; [retire] exactly when the table allows it; the
    recovery, validation and finalization verbs exactly outside the terminal
    lifecycles; and [start] never. *)
Theorem next_actions_exact (l : HarnessLifecycle) (live : bool) (gate : option string) :
  let acts := nextAllowedActions l live gate in
  let offered v := exists a, a ∈ acts /\ verb a = v /\ available a = true in
  (NoDup (verb <$> acts) /\ (forall v, v ∈ verb <$> acts <-> v <> V_operate)) /\
  (forall a, a ∈ acts -> available a = false <-> is_Some (unavailable_reason a)) /\
  (offered V_submit <-> (l = L_started \/ l = L_observing) /\ live = true /\ gate = None) /\
  (offered V_retire <-> canTransition l L_retired = true) /\
  (forall v, v ∈ [V_recover; V_validate; V_finalize] ->
     offered v <-> (exists l', l' <> L_retired /\ canTransition l l' = true)) /\
  ~ offered V_start.
Proof.
  intros acts offered.
  assert (forall v, offered v <-> action_available v l live gate = true) as Ho
    by (intros v; apply offered_spec).
  split_and!.
  - unfold acts, nextAllowedActions. simpl. apply (bool_decide_unpack _). by vm_compute.
  - intros v. unfold acts, nextAllowedActions. simpl.
    destruct v; split; intros H; try done; repeat (apply elem_of_cons in H as [H|H]; [done|]);
      try (by apply not_elem_of_nil in H); by repeat (constructor || apply elem_of_list_further).
  - intros a Ha. unfold acts, nextAllowedActions in Ha.
    repeat (apply elem_of_cons in Ha as [->|Ha]; [apply add_action_reason|]).
    by apply not_elem_of_nil in Ha.
  - rewrite Ho. simpl. rewrite bool_decide_eq_true.
    destruct l, live, gate; vm_compute; intuition congruence.
  - rewrite Ho. simpl. rewrite bool_decide_eq_true. destruct l; vm_compute; intuition congruence.
  - intros v Hv. rewrite Ho.
    assert ((exists l', l' <> L_retired /\ canTransition l l' = true) <-> isTerminal l = false) as ->.
    { split.
      - intros (l' & Hl' & Ht). destruct l, l'; vm_compute in *; congruence.
      - intros Hl. destruct l; try (by vm_compute in Hl);
          solve [by exists L_blocked | by exists L_started | by exists L_observing]. }
    rewrite <- negb_true_iff.
    repeat (apply elem_of_cons in Hv as [->|Hv]; [done|]); by apply not_elem_of_nil in Hv.
  - by rewrite Ho.
Qed.

Lemma signals_vanish_false s o :
  lifecycle s <> L_observing -> needsVanishedOwnerBlock s o true = false.
Proof. intros H. unfold needsVanishedOwnerBlock. by destruct (_ || _). Qed.

Lemma needs_block_live s o ct :
  needsVanishedOwnerBlock s o ct = true ->
  ownerLive o = false /\ lifecycle s = L_observing /\ ct = false /\
  includes (observedSignals o) "completed" = false.
Proof.
  unfold needsVanishedOwnerBlock. destruct (ownerLive o); [done|].
  case_bool_decide as E; [done|].
  destruct ct, (includes _ _); done.
Qed.

(** Reconciliation of a vanished owner, for any observation: a completed
    or retired session is returned untouched and nothing is persisted; proof of
    completion over a clean tree with no live owner completes the session and
    clears exactly its owner-liveness blockers, and a startup failure recorded
    at the same time cannot block it again; a session is only ever blocked or
    completed; every blocker that is not about owner liveness is kept and none
    is duplicated; and the state returned is the last one persisted. *)
Theorem reconcile_owner_lifecycle (s : SessionState) (o : Observation)
    (completedTerminal startupBlocked : bool) (now : string) :
  let '(log, s') := reconcileOwnerLifecycle s o completedTerminal startupBlocked now in
  (isTerminal (lifecycle s) = true -> log = [] /\ s' = s) /\
  (isTerminal (lifecycle s) = false -> completedTerminal = true -> ownerLive o = false ->
     gitDelta o = G_clean ->
     lifecycle s' = L_completed /\
     blockers s' = filter (fun b => isOwnerLivenessBlocker b = false) (blockers s)) /\
  (lifecycle s' = lifecycle s \/ lifecycle s' = L_completed \/ lifecycle s' = L_blocked) /\
  (startupBlocked = true -> lifecycle s' = L_blocked -> isTerminal (lifecycle s) = false ->
     OWNER_STARTUP_BLOCKER ∈ blockers s') /\
  (forall b, b ∈ blockers s -> isOwnerLivenessBlocker b = false -> b ∈ blockers s') /\
  (NoDup (blockers s) -> NoDup (blockers s')) /\
  default s (last log) = s'.
Proof.
  unfold reconcileOwnerLifecycle. rewrite settled_terminal.
  set (g := completedTerminal && negb (ownerLive o) && bool_decide (gitDelta o = G_clean)
            && negb (isTerminal (lifecycle s))).
  destruct g eqn:Eg; unfold g in Eg.
  - (* completed by evidence: neither later step applies *)
    rewrite !andb_true_iff, bool_decide_eq_true, !negb_true_iff in Eg.
    destruct Eg as [[[-> Hlive] Hclean] Hterm].
    rewrite signals_vanish_false by done. simpl. rewrite ?settled_terminal. simpl.
    rewrite andb_false_r. simpl. rewrite Hterm. split_and!; try done.
    + by right; left.
    + intros b Hb Hn. by apply list_elem_of_filter.
    + apply NoDup_filter.
  - assert (isTerminal (lifecycle s) = false -> completedTerminal = true -> ownerLive o = false ->
      gitDelta o = G_clean -> False) as Hno.
    { intros H1 H2 H3 H4. rewrite H1, H2, H3, H4 in Eg. done. }
    destruct (needsVanishedOwnerBlock s o completedTerminal) eqn:En.
    + apply needs_block_live in En as (_ & Hl & -> & _). simpl. rewrite ?settled_terminal. simpl.
      destruct startupBlocked; simpl; rewrite Hl; split_and!; try done; try (by right; right);
        try (intros; rewrite ?elem_of_add_blocker; by auto); auto using add_blocker_NoDup.
    + rewrite ?settled_terminal. destruct startupBlocked, (isTerminal (lifecycle s)) eqn:Et; simpl;
        split_and!; try done; try (by left); try (by right; right);
        try (intros; exfalso; by eauto); try (intros; rewrite ?elem_of_add_blocker; by auto);
        auto using add_blocker_NoDup.
Qed.
