(* ===== verification/RecoveryClassifier.v ===== *)
(** * The recovery classifier ([harness-control-plane/classifier.ts])

    A pure decision from a bounded observation and the remaining retry budget,
    and the gate of [receipts.ts] that says which classifications need a
    [vanish] receipt first. *)

From S2P Require Import Prelude HarnessTypes.

Local Open Scope Z_scope.

Definition decision (c : RecoveryClassification) (why : string) (sev : Severity)
    (owner : bool) (receipt : option ReceiptFamily) : RecoveryDecision := {|
  classification := c; reason := why; severity := sev; ownerRequired := owner;
  requiredReceiptFamily := receipt |}.

Definition classifyRecovery (input : ClassifyInput) : RecoveryDecision :=
  let o := observation input in
  let budget := retryBudget input in
  if decide (risk o = Risk_deleted_worktree) then
    decision C_human_check "deleted-worktree-or-path-mismatch" S_critical false (Some F_vanish)
  else if ownerLive o then
    if decide (risk o = Risk_prompt_not_accepted) then
      if decide (0 < reinjectPrompt budget) then
        decision C_reinject_prompt "prompt-ack-without-agent-start" S_warn true
          (Some F_prompt_acceptance)
      else
        decision C_human_check "prompt-not-accepted-budget-exhausted" S_critical false None
    else if includes (observedSignals o) "validation-failed" then
      if decide (0 < validationRepair budget) then
        decision C_continue "validation-failed-repair-budget-remains" S_warn true
          (Some F_validation)
      else
        decision C_human_check "validation-failed-budget-exhausted" S_critical false
          (Some F_validation)
    else decision C_continue "owner-live-active" S_info true None
  else
    match gitDelta o with
    | G_dirty =>
        if decide (0 < dirtyVanishPreserve budget) then
          decision C_restart_preserve_delta "owner-vanished-dirty-delta" S_critical true
            (Some F_vanish)
        else
          decision C_fallback_codex_exec "dirty-vanish-preserve-budget-exhausted" S_critical true
            (Some F_vanish)
    | G_zero_delta =>
        if decide (0 < zeroDeltaVanish budget) then
          decision C_restart_clean "owner-vanished-zero-delta" S_warn true (Some F_vanish)
        else
          decision C_fallback_codex_exec "zero-delta-vanish-budget-exhausted" S_critical true
            (Some F_vanish)
    | G_clean => decision C_restart_clean "owner-vanished-clean" S_warn true (Some F_vanish)
    | G_unknown =>
        decision C_human_check "owner-vanished-unknown-delta" S_critical false (Some F_vanish)
    end.

(** [requiresVanishBeforeAction] of [receipts.ts]. *)
Definition requiresVanishBeforeAction (c : RecoveryClassification) : bool :=
  bool_decide (c = C_restart_clean) || bool_decide (c = C_restart_preserve_delta)
  || bool_decide (c = C_fallback_codex_exec).

(** C10.  Data-loss invariants, on every observation and budget: a clean restart
    is only ever recommended when the owner is gone, the worktree is in place
    and the tree holds no delta; a dirty tree without an owner is preserved or
    handed to the fallback, an unknown one always goes to a human; [send-enter]
    is never emitted; and every destructive or restarting classification names
    the [vanish] receipt that [requiresVanishBeforeAction] demands. *)
Theorem classifier_never_loses_data (input : ClassifyInput) :
  let o := observation input in
  let d := classifyRecovery input in
  (classification d = C_restart_clean ->
     ownerLive o = false /\ risk o <> Risk_deleted_worktree /\
     (gitDelta o = G_clean \/ gitDelta o = G_zero_delta)) /\
  (risk o <> Risk_deleted_worktree -> ownerLive o = false -> gitDelta o = G_dirty ->
     classification d = C_restart_preserve_delta \/ classification d = C_fallback_codex_exec) /\
  (ownerLive o = false -> gitDelta o = G_unknown -> classification d = C_human_check) /\
  classification d <> C_send_enter /\
  (requiresVanishBeforeAction (classification d) = true ->
     requiredReceiptFamily d = Some F_vanish) /\
  (ownerRequired d = false <-> classification d = C_human_check).
Proof.
  destruct input as [[lc live gd sg rk] [b1 b2 b3 b4]].
  unfold classifyRecovery, decision. destruct rk, live, gd; simpl; repeat case_decide;
    repeat (case_match; simpl); simpl;
    split_and!; try split; intros; try discriminate; try done; auto.
Qed.
