(* ===== verification/SessionLease.v ===== *)
(** * The session lease ([harness-control-plane/session-lease.ts])

    One lease file per session, mutated only under a file lock, so every
    operation is a single step on the file's content.  The file system is the
    lease (absent or present) and the set of socket paths; the clock and the
    process-table probe are arguments, a token's hash is a parameter, and the
    ISO timestamps are their milliseconds (the source only writes and parses
    them back). *)

From S2P Require Import Prelude.

Local Open Scope Z_scope.

Inductive endpoint_kind := unix_socket | fifo.

#[export] Instance endpoint_kind_eq_dec : EqDecision endpoint_kind.
Proof. solve_decision. Defined.

Record Endpoint := { kind : endpoint_kind; path : string }.

Record SessionLease := {
  ownerId : string;
  lease_sessionId : string;
  pid : Z;
  leaseTokenHash : string;
  endpoint : option Endpoint;
  eventsPath : string;
  heartbeatAt : Z;
  expiresAt : Z;
  leaseEpoch : Z;
  writer : string * Z
}.

Inductive LeaseStatus := missing | live | expiredAlive | dead | epermAlive.

Inductive PidStatus := alive | pid_dead | eperm.

#[export] Instance LeaseStatus_eq_dec : EqDecision LeaseStatus.
Proof. solve_decision. Defined.

(** The codes of [LeaseError]. *)
Inductive lease_error := lease_held | no_lease | not_lease_holder.

(** The files the module owns: the lease and the sockets. *)
Record store := { lease_file : option SessionLease; sockets : gset string }.

Record AcquireOptions := {
  opt_ownerId : string;
  opt_pid : Z;
  opt_endpoint : option Endpoint;
  opt_eventsPath : string;
  opt_ttlMs : Z
}.

Definition isExpired (l : SessionLease) (now : Z) : bool := bool_decide (expiresAt l <= now).

Definition classifyLeaseStatus (l : option SessionLease) (now : Z) (probe : Z -> PidStatus)
    : LeaseStatus :=
  match l with
  | None => missing
  | Some l =>
      match probe (pid l) with
      | pid_dead => dead
      | eperm => epermAlive
      | alive => if isExpired l now then expiredAlive else live
      end
  end.

(** Signal-0 liveness: [EPERM] counts as alive. *)
Definition isOwnerAlive (p : Z) (probe : Z -> PidStatus) : bool :=
  match probe p with alive | eperm => true | pid_dead => false end.

Definition isStale (l : SessionLease) (now : Z) (probe : Z -> PidStatus) : bool :=
  isExpired l now || negb (isOwnerAlive (pid l) probe).

Section lease.
Context (hashToken : string -> string).
Context (sessionId controlSock socketPath : string).

(** [acquireLease]: the returned pair is the lease written and the token. *)
Definition acquireLease (fs : store) (opts : AcquireOptions) (now : Z)
    (probe : Z -> PidStatus) (token : string) : outcome lease_error (SessionLease * string) * store :=
  let existing := lease_file fs in
  let refused :=
    match existing with
    | Some e =>
        if decide (ownerId e = opt_ownerId opts) then false
        else
          let status := classifyLeaseStatus existing now probe in
          if decide (status <> dead) then true
          else
            match lease_file fs with
            | None => true
            | Some reread =>
                bool_decide (ownerId reread <> ownerId e)
                || bool_decide (leaseEpoch reread <> leaseEpoch e)
            end
    | None => false
    end in
  if refused then (Throw lease_held, fs)
  else
    let priorEpoch := from_option leaseEpoch 0 existing in
    let epoch :=
      match existing with
      | Some e => if decide (ownerId e = opt_ownerId opts) then priorEpoch else priorEpoch + 1
      | None => priorEpoch + 1
      end in
    let lease := {|
      ownerId := opt_ownerId opts; lease_sessionId := sessionId; pid := opt_pid opts;
      leaseTokenHash := hashToken token; endpoint := opt_endpoint opts;
      eventsPath := opt_eventsPath opts; heartbeatAt := now; expiresAt := now + opt_ttlMs opts;
      leaseEpoch := epoch; writer := (opt_ownerId opts, epoch) |} in
    (Ok (lease, token), {| lease_file := Some lease; sockets := sockets fs |}).

Definition heartbeat (fs : store) (owner : string) (ttlMs now : Z)
    : outcome lease_error SessionLease * store :=
  match lease_file fs with
  | None => (Throw no_lease, fs)
  | Some l =>
      if decide (ownerId l <> owner) then (Throw not_lease_holder, fs)
      else
        let next := {|
          ownerId := ownerId l; lease_sessionId := lease_sessionId l; pid := pid l;
          leaseTokenHash := leaseTokenHash l; endpoint := endpoint l;
          eventsPath := eventsPath l; heartbeatAt := now; expiresAt := now + ttlMs;
          leaseEpoch := leaseEpoch l; writer := writer l |} in
        (Ok next, {| lease_file := Some next; sockets := sockets fs |})
  end.

Definition canWriteEvents (l : SessionLease) (owner : string) (now : Z) : bool :=
  bool_decide (ownerId l = owner) && negb (isExpired l now).

Definition releaseLease (fs : store) (owner : string) : outcome lease_error unit * store :=
  match lease_file fs with
  | None => (Ok tt, fs)
  | Some l =>
      if decide (ownerId l <> owner) then (Throw not_lease_holder, fs)
      else (Ok tt, {| lease_file := None; sockets := sockets fs |})
  end.

(** Paths are compared after resolution; [controlSock] and [socketPath] are
    the two resolved paths the session owns. *)
Definition isOwnedUnixEndpointPath (endpointPath : string) : bool :=
  bool_decide (endpointPath = controlSock) || bool_decide (endpointPath = socketPath).

Definition reapDeadOwnerArtifacts (fs : store) (expectedOwnerId : string) (expectedEpoch : Z)
    (now : Z) (probe : Z -> PidStatus) : bool * store :=
  match lease_file fs with
  | None => (false, fs)
  | Some l =>
      if bool_decide (ownerId l <> expectedOwnerId) || bool_decide (leaseEpoch l <> expectedEpoch)
      then (false, fs)
      else if decide (classifyLeaseStatus (Some l) now probe <> dead) then (false, fs)
      else
        let endpointPath :=
          match endpoint l with
          | Some e => if bool_decide (kind e = unix_socket) && isOwnedUnixEndpointPath (path e)
                      then Some (path e) else None
          | None => None
          end in
        let socks := sockets fs ∖ {[controlSock]} in
        let socks := match endpointPath with Some p => socks ∖ {[p]} | None => socks end in
        (true, {| lease_file := None; sockets := socks |})
  end.

(** ** Histories *)

(** One call by some process, with the clock and the process table it saw. *)
Inductive event :=
| E_acquire (opts : AcquireOptions) (now : Z) (probe : Z -> PidStatus) (token : string)
| E_heartbeat (owner : string) (ttlMs now : Z)
| E_release (owner : string)
| E_reap (owner : string) (epoch now : Z) (probe : Z -> PidStatus).

Definition apply_event (fs : store) (e : event) : store :=
  match e with
  | E_acquire opts now probe token => (acquireLease fs opts now probe token).2
  | E_heartbeat owner ttl now => (heartbeat fs owner ttl now).2
  | E_release owner => (releaseLease fs owner).2
  | E_reap owner epoch now probe => (reapDeadOwnerArtifacts fs owner epoch now probe).2
  end.

(** The event found the holder of [l] dead, or is the holder giving up. *)
Definition entitles (l : SessionLease) (e : event) : Prop :=
  match e with
  | E_acquire _ _ probe _ | E_reap _ _ _ probe => probe (pid l) = pid_dead
  | E_release owner => owner = ownerId l
  | E_heartbeat _ _ _ => False
  end.

Lemma acquire_cases fs opts now probe token :
  (exists l, lease_file fs = Some l /\ ownerId l <> opt_ownerId opts /\ probe (pid l) <> pid_dead /\
     acquireLease fs opts now probe token = (Throw lease_held, fs)) \/
  ((forall l, lease_file fs = Some l -> ownerId l <> opt_ownerId opts -> probe (pid l) = pid_dead) /\
   exists l', (acquireLease fs opts now probe token).1 = Ok (l', token) /\
     lease_file (acquireLease fs opts now probe token).2 = Some l' /\
     sockets (acquireLease fs opts now probe token).2 = sockets fs /\
     ownerId l' = opt_ownerId opts /\ pid l' = opt_pid opts /\
     expiresAt l' = now + opt_ttlMs opts /\ leaseTokenHash l' = hashToken token /\
     leaseEpoch l' =
       match lease_file fs with
       | Some l => if decide (ownerId l = opt_ownerId opts) then leaseEpoch l else leaseEpoch l + 1
       | None => 1
       end).
Proof.
  unfold acquireLease. destruct (lease_file fs) as [l|] eqn:E; simpl.
  - destruct (decide (ownerId l = opt_ownerId opts)) as [Ho|Ho].
    + right. split; [intros ? [= ->]; done|]. eexists. by repeat split.
    + destruct (probe (pid l)) eqn:Ep; simpl.
      * left. exists l. split_and!; [done|done|congruence|].
        by destruct (isExpired l now); rewrite decide_True.
      * right. split; [intros ? [= ->]; done|]. rewrite !bool_decide_false by (intros H; by apply H).
        simpl. eexists. by repeat split.
      * left. exists l. by split_and!; [done|done|congruence|].
  - right. split; [done|]. eexists. by repeat split.
Qed.

Lemma apply_event_cases fs e :
  match lease_file fs with
  | None => True
  | Some l =>
      (exists l', lease_file (apply_event fs e) = Some l' /\ ownerId l' = ownerId l /\
         leaseEpoch l' = leaseEpoch l) \/
      (entitles l e /\
       (lease_file (apply_event fs e) = None \/
        exists l', lease_file (apply_event fs e) = Some l' /\ ownerId l' <> ownerId l /\
          leaseEpoch l' = leaseEpoch l + 1))
  end.
Proof.
  destruct (lease_file fs) as [l|] eqn:E; [|done].
  destruct e as [opts now probe token|owner ttl now|owner|owner epoch now probe]; simpl.
  - destruct (acquire_cases fs opts now probe token)
      as [(l0 & H1 & _ & _ & ->)|(Hd & l' & _ & H2 & _ & H3 & _ & _ & _ & H4)].
    + left. exists l. done.
    + rewrite E in H4. destruct (decide (ownerId l = opt_ownerId opts)) as [Ho|Ho].
      * left. exists l'. rewrite H3. done.
      * right. split; [by apply Hd|]. right. exists l'. rewrite H3. done.
  - left. unfold heartbeat. rewrite E. case_decide; simpl; eauto.
  - unfold releaseLease. rewrite E. case_decide as Ho; simpl; [by left; eauto|].
    right. split; [done|by left].
  - unfold reapDeadOwnerArtifacts. rewrite E. simpl.
    destruct (_ || _); [by left; eauto|]. case_decide as Hs; [by left; eauto|].
    right. split; [|by left]. destruct (probe (pid l)); [by destruct (isExpired l now)|done|done].
Qed.

Fixpoint apply_events (fs : store) (es : list event) : store :=
  match es with
  | [] => fs
  | e :: es => apply_events (apply_event fs e) es
  end.


(** Takeover and refresh: acquisition fails, leaving every file as it
    was, exactly when the lease is held by another owner whose process is not
    reported dead - an expired lease of a live process included; a takeover
    bumps the epoch by one, a refresh by the same owner keeps it, and either
    way the new lease is valid for the whole [ttl]. *)
Theorem lease_takeover_exact (fs : store) (opts : AcquireOptions) (now : Z)
    (probe : Z -> PidStatus) (token : string) :
  let r := acquireLease fs opts now probe token in
  (r.1 = Throw lease_held <->
     exists l, lease_file fs = Some l /\ ownerId l <> opt_ownerId opts /\
       probe (pid l) <> pid_dead) /\
  (r.1 = Throw lease_held -> r.2 = fs) /\
  (forall l l', lease_file fs = Some l -> r.1 = Ok (l', token) ->
     (ownerId l = opt_ownerId opts -> leaseEpoch l' = leaseEpoch l) /\
     (ownerId l <> opt_ownerId opts -> leaseEpoch l' = leaseEpoch l + 1)) /\
  (forall l', r.1 = Ok (l', token) -> lease_file r.2 = Some l' /\
     leaseTokenHash l' = hashToken token /\
     forall t, t < now + opt_ttlMs opts -> canWriteEvents l' (opt_ownerId opts) t = true).
Proof.
  intros r. destruct (acquire_cases fs opts now probe token)
    as [(l & H1 & H2 & H3 & H4)|(Hd & l' & H1 & H2 & H3 & H4 & _ & H5 & H6 & H7)].
  - unfold r. rewrite H4. simpl. split_and!; try done. split; eauto.
  - unfold r. rewrite H1. split_and!.
    + split; [done|]. intros (l & Hl & Ho & Hp). exfalso. eauto.
    + done.
    + intros l l'' Hl [= <-]. rewrite Hl in H7.
      split; intros Ho; rewrite H7; [by rewrite decide_True|by rewrite decide_False].
    + intros l'' [= <-]. split_and!; try done. intros t Ht. unfold canWriteEvents, isExpired.
      rewrite H4, H5, bool_decide_true, bool_decide_false by (done || lia). done.
Qed.

(** Reaping is precise: it removes the lease only for the expected owner
    and epoch and only if that owner's process is dead; otherwise nothing
    changes.  When it does reap, the only sockets that can disappear are the
    two the session owns, whatever path the lease names. *)
Theorem reap_precise (fs : store) (owner : string) (epoch now : Z) (probe : Z -> PidStatus) :
  let r := reapDeadOwnerArtifacts fs owner epoch now probe in
  (r.1 = true <-> exists l, lease_file fs = Some l /\ ownerId l = owner /\
     leaseEpoch l = epoch /\ probe (pid l) = pid_dead) /\
  (r.1 = false -> r.2 = fs) /\
  (r.1 = true -> lease_file r.2 = None /\ controlSock ∉ sockets r.2 /\
     forall p, p ∈ sockets fs -> p <> controlSock -> p <> socketPath -> p ∈ sockets r.2).
Proof.
  intros r. unfold r, reapDeadOwnerArtifacts. destruct (lease_file fs) as [l|] eqn:E.
  2:{ simpl. split_and!; try done. split; [done|]. by intros (l & ? & _). }
  destruct (_ || _) eqn:Eg.
  { apply orb_true_iff in Eg. rewrite !bool_decide_eq_true in Eg. simpl.
    split_and!; try done. split; [done|]. naive_solver. }
  apply orb_false_iff in Eg as [E1 E2]. apply bool_decide_eq_false in E1, E2.
  apply dec_stable in E1, E2. simpl.
  destruct (probe (pid l)) eqn:Ep.
  - assert ((if isExpired l now then expiredAlive else live) <> dead) by by destruct (isExpired l now).
    rewrite decide_True by done. simpl. split_and!; try done.
    split; [done|]. intros (l0 & [= <-] & _ & _ & Hp). congruence.
  - rewrite decide_False by (intros H; by apply H). simpl.
    split_and!; [split; [intros _; by exists l|done]|done|].
    intros _. unfold isOwnedUnixEndpointPath. destruct (endpoint l) as [e|]; [|set_solver].
    destruct (bool_decide (kind e = unix_socket)); simpl; [|set_solver].
    destruct (bool_decide (path e = controlSock)) eqn:Ec,
      (bool_decide (path e = socketPath)) eqn:Es; simpl;
      try apply bool_decide_eq_true in Ec; try apply bool_decide_eq_true in Es; set_solver.
  - rewrite decide_True by done. simpl. split_and!; try done.
    split; [done|]. intros (l0 & [= <-] & _ & _ & Hp). congruence.
Qed.
End lease.

(** Two processes race for the lease: the holder (pid 7) is alive, so the
    other one cannot take over even after expiry. *)
Definition demo_opts (owner : string) (p : Z) : AcquireOptions := {|
  opt_ownerId := owner; opt_pid := p; opt_endpoint := None; opt_eventsPath := "events.jsonl";
  opt_ttlMs := 1000 |}.

Definition demo_store : store :=
  (acquireLease (fun t => t) "s1" {| lease_file := None; sockets := ∅ |} (demo_opts "a" 7) 0
     (fun _ => alive) "t").2.

Definition demo_lease : SessionLease := {|
  ownerId := "a"; lease_sessionId := "s1"; pid := 7; leaseTokenHash := "t"; endpoint := None;
  eventsPath := "events.jsonl"; heartbeatAt := 0; expiresAt := 1000; leaseEpoch := 1;
  writer := ("a", 1) |}.

Definition demo_events : list event :=
  [E_heartbeat "a" 1000 500; E_acquire (demo_opts "b" 8) 9000 (fun _ => alive) "u";
   E_release "b"; E_reap "a" 1 9000 (fun _ => alive)].

