(* ===== verification/JsNumber.v ===== *)
(** * JavaScript numbers

    A [Number] is an IEEE 754 binary64 value, as the Standard Library's
    [SpecFloat] computes with it.  The conversions between numbers and text are
    the language's own ([Number::toString], [StringToNumber]); receipts are
    hashed over the printed form, and comparison operators read strings back. *)

From S2P Require Import Prelude.
From Stdlib Require Import SpecFloat Ascii.

Local Open Scope Z_scope.

Definition number := spec_float.

#[export] Instance number_eq_dec : EqDecision number.
Proof. solve_decision. Defined.

Definition prec : Z := 53.
Definition emax : Z := 1024.

Definition num_add : number -> number -> number := SFadd prec emax.
Definition num_sub : number -> number -> number := SFsub prec emax.
Definition num_abs : number -> number := SFabs.
Definition num_neg : number -> number := SFopp.
Definition num_eqb : number -> number -> bool := SFeqb.
Definition num_ltb : number -> number -> bool := SFltb.
Definition num_leb : number -> number -> bool := SFleb.
Definition num_zero : number := S754_zero false.
Definition num_nan : number := S754_nan.

(** An integer rounded to the nearest number. *)
Definition num_of_Z (n : Z) : number := binary_normalize prec emax n 0 false.

(** [Number.isFinite] *)
Definition is_finite (x : number) : bool :=
  match x with
  | S754_zero _ | S754_finite _ _ _ => true
  | S754_infinity _ | S754_nan => false
  end.

(** The number nearest to [s * 10 ^ e], for [s >= 0]. *)
Definition num_of_decimal (s e : Z) : number :=
  if decide (s <= 0) then num_zero
  else if decide (0 <= e) then binary_normalize prec emax (s * 10 ^ e) 0 false
  else
    let '(m, ex, l) := SFdiv_core_binary prec emax s 0 (10 ^ (- e)) 0 in
    binary_round_aux prec emax false m ex l.

(** ** Decimal numerals *)

Definition digit_char (d : Z) : ascii := ascii_of_N (Z.to_N (48 + d)).

Fixpoint digits_go (fuel : nat) (n : Z) (acc : string) : string :=
  match fuel with
  | O => acc
  | S fuel =>
      let acc := String (digit_char (n mod 10)) acc in
      if decide (n < 10) then acc else digits_go fuel (n / 10) acc
  end.

(** The decimal numeral of [n >= 0]; a number has fewer decimal digits than
    bits, so the fuel is enough. *)
Definition numeral (n : Z) : string := digits_go (Z.to_nat (Z.log2 n + 1)) n EmptyString.

Definition show_Z (n : Z) : string :=
  if decide (n < 0) then String "-" (numeral (- n)) else numeral n.

Fixpoint zeros (n : nat) : string :=
  match n with O => EmptyString | S n => String "0" (zeros n) end.

(** ** [Number::toString] *)

(** The value of a finite positive number as a quotient of integers. *)
Definition fraction (m e : Z) : Z * Z :=
  if decide (0 <= e) then (m * 2 ^ e, 1) else (m, 2 ^ (- e)).

Fixpoint least_exp (fuel : nat) (num den j : Z) : Z :=
  match fuel with
  | O => j
  | S fuel => if decide (den <= num * 10 ^ j) then j else least_exp fuel num den (j + 1)
  end.

(** The [n] with [10 ^ (n - 1) <= num / den < 10 ^ n]; the largest negative
    exponent of a binary64 value is 324. *)
Definition decimal_exponent (num den : Z) : Z :=
  if decide (den <= num) then Z.of_nat (String.length (numeral (num / den)))
  else 1 - least_exp 400 num den 1.

(** Round half to even. *)
Definition round_quot (a b : Z) : Z :=
  let q := a / b in
  let r := a mod b in
  if decide (2 * r < b) then q
  else if decide (b < 2 * r) then q + 1
  else if Z.even q then q else q + 1.

(** The [k]-digit decimal [s * 10 ^ (n - k)] closest to [num / den]. *)
Definition candidate (num den n k : Z) : Z :=
  if decide (n <= k) then round_quot (num * 10 ^ (k - n)) den
  else round_quot num (den * 10 ^ (n - k)).

(** The shortest decimal that reads back as [x], tried from [k] digits on;
    seventeen digits always do. *)
Fixpoint shortest (fuel : nat) (x : number) (num den n k : Z) : Z * Z :=
  let s := candidate num den n k in
  match fuel with
  | O => (s, k)
  | S fuel =>
      if decide (num_of_decimal s (n - k) = x) then (s, k)
      else shortest fuel x num den n (k + 1)
  end.

(** The layouts of [Number::toString] for digits [ds] and exponent [n]. *)
Definition layout (ds : string) (k n : Z) : string :=
  if decide (k <= n /\ n <= 21) then ds +:+ zeros (Z.to_nat (n - k))
  else if decide (0 < n /\ n <= 21) then
    String.substring 0 (Z.to_nat n) ds +:+ "."
      +:+ String.substring (Z.to_nat n) (Z.to_nat (k - n)) ds
  else if decide (-6 < n /\ n <= 0) then "0." +:+ zeros (Z.to_nat (- n)) +:+ ds
  else
    let e := n - 1 in
    let exponent := (if decide (e < 0) then "e-" else "e+") +:+ numeral (Z.abs e) in
    if decide (k = 1) then ds +:+ exponent
    else String.substring 0 1 ds +:+ "."
           +:+ String.substring 1 (Z.to_nat (k - 1)) ds +:+ exponent.

Definition num_to_string (x : number) : string :=
  match x with
  | S754_nan => "NaN"
  | S754_zero _ => "0"
  | S754_infinity s => if s then "-Infinity" else "Infinity"
  | S754_finite s m e =>
      let '(num, den) := fraction (Z.pos m) e in
      let n := decimal_exponent num den in
      let '(d, k) := shortest 16 (S754_finite false m e) num den n 1 in
      let body := layout (numeral d) k n in
      if s then String "-" body else body
  end.

(** ** [StringToNumber] *)

Definition is_digit (c : ascii) : bool :=
  let n := nat_of_ascii c in bool_decide (48 <= n <= 57)%nat.

Definition digit_value (c : ascii) : Z := Z.of_nat (nat_of_ascii c) - 48.

(** The longest prefix of digits of a base: value, count and rest. *)
Fixpoint read_digits (s : string) (v n : Z) : Z * Z * string :=
  match s with
  | String c r => if is_digit c then read_digits r (10 * v + digit_value c) (n + 1) else (v, n, s)
  | EmptyString => (v, n, s)
  end.

(** The whitespace and line terminators among the code units below 256. *)
Definition is_white (c : ascii) : bool :=
  let n := nat_of_ascii c in
  bool_decide ((9 <= n <= 13)%nat \/ n = 32%nat \/ n = 160%nat).

Fixpoint trim_start (s : string) : string :=
  match s with
  | String c r => if is_white c then trim_start r else s
  | EmptyString => EmptyString
  end.

Definition trim (s : string) : string := String.rev (trim_start (String.rev (trim_start s))).

(** The digit a character stands for in a base up to 16. *)
Definition radix_value (base : Z) (c : ascii) : option Z :=
  let n := Z.of_nat (nat_of_ascii c) in
  let v :=
    if decide (48 <= n <= 57) then n - 48
    else if decide (97 <= n <= 102) then n - 87
    else if decide (65 <= n <= 70) then n - 55
    else base in
  if decide (v < base) then Some v else None.

Fixpoint read_radix (base : Z) (s : string) (v : Z) : option Z :=
  match s with
  | EmptyString => Some v
  | String c r =>
      match radix_value base c with
      | Some d => read_radix base r (base * v + d)
      | None => None
      end
  end.

Definition radix_number (base : Z) (s : string) : number :=
  match s with
  | EmptyString => num_nan
  | _ => match read_radix base s 0 with Some v => num_of_Z v | None => num_nan end
  end.

(** An optional exponent part at the end of the text. *)
Definition read_exponent (s : string) : option Z :=
  match s with
  | EmptyString => Some 0
  | String c r =>
      if decide (c = "e"%char \/ c = "E"%char) then
        let '(neg, r) :=
          match r with
          | String "-" r => (true, r)
          | String "+" r => (false, r)
          | _ => (false, r)
          end in
        let '(v, n, rest) := read_digits r 0 0 in
        if decide (0 < n) then
          match rest with EmptyString => Some (if (neg : bool) then - v else v) | _ => None end
        else None
      else None
  end.

(** An unsigned decimal literal spanning the whole text. *)
Definition read_decimal (s : string) : number :=
  let '(iv, ni, rest) := read_digits s 0 0 in
  let '(v, nf, rest) :=
    match rest with
    | String "." r => read_digits r iv 0
    | _ => (iv, 0, rest)
    end in
  if decide (ni + nf = 0) then num_nan
  else match read_exponent rest with
       | Some e => num_of_decimal v (e - nf)
       | None => num_nan
       end.

Definition read_unsigned (s : string) : number :=
  if decide (s = "Infinity") then S754_infinity false else read_decimal s.

Definition string_to_number (s : string) : number :=
  match trim s with
  | EmptyString => num_zero
  | String "0" (String c r) as t =>
      if decide (c = "x"%char \/ c = "X"%char) then radix_number 16 r
      else if decide (c = "o"%char \/ c = "O"%char) then radix_number 8 r
      else if decide (c = "b"%char \/ c = "B"%char) then radix_number 2 r
      else read_unsigned t
  | String "-" r => num_neg (read_unsigned r)
  | String "+" r => read_unsigned r
  | t => read_unsigned t
  end.

(** ** Checks against the language *)

Example print_integers :
  (num_to_string (num_of_Z 0), num_to_string (num_of_Z 1200), num_to_string (num_of_Z (-37)),
   num_to_string (num_of_Z (10 ^ 21)), num_to_string (num_of_Z (2 ^ 53 + 2)))
  = ("0", "1200", "-37", "1e+21", "9007199254740994").
Proof. vm_compute. reflexivity. Qed.

Example print_fractions :
  (num_to_string (num_of_decimal 1 (-1)), num_to_string (num_of_decimal 1 (-9)),
   num_to_string (num_add (num_of_decimal 1 (-1)) (num_of_decimal 2 (-1))),
   num_to_string (num_of_decimal 125 (-2)), num_to_string (num_of_decimal 5 (-324)))
  = ("0.1", "1e-9", "0.30000000000000004", "1.25", "5e-324").
Proof. vm_compute. reflexivity. Qed.

Example read_back :
  num_to_string <$> [string_to_number " 12.50 "; string_to_number "0x1F"; string_to_number "1e3";
    string_to_number "-.5"; string_to_number "1e"; string_to_number ""]
  = ["12.5"; "31"; "1000"; "-0.5"; "NaN"; "0"].
Proof. vm_compute. reflexivity. Qed.

(** ** Distinct integers have distinct numerals *)

Fixpoint digits_value (s : string) (v : Z) : Z :=
  match s with
  | EmptyString => v
  | String c r => digits_value r (10 * v + digit_value c)
  end.

Lemma digit_char_spec d : 0 <= d < 10 -> digit_value (digit_char d) = d /\ digit_char d <> "-"%char.
Proof.
  intros H. assert (d ∈ [0; 1; 2; 3; 4; 5; 6; 7; 8; 9]) as Hd.
  { rewrite !elem_of_cons. lia. }
  clear H. revert d Hd. apply Forall_forall. repeat constructor; done.
Qed.

Lemma digits_go_value fuel n acc :
  0 <= n < 10 ^ Z.of_nat fuel -> digits_value (digits_go fuel n acc) 0 = digits_value acc n.
Proof.
  revert n acc. induction fuel as [|fuel IH]; intros n acc Hn.
  { change (10 ^ Z.of_nat 0) with 1 in Hn. by replace n with 0 by lia. }
  rewrite Nat2Z.inj_succ, Z.pow_succ_r in Hn by lia. pose proof (Z.div_mod n 10). pose proof (Z.mod_pos_bound n 10).
  destruct (digit_char_spec (n mod 10)) as [Hd _]; [lia|]. cbn [digits_go]. case_decide.
  - cbn [digits_value]. rewrite Hd. f_equal. lia.
  - rewrite IH; [|split; [apply Z.div_pos; lia|apply Z.div_lt_upper_bound; lia]].
    cbn [digits_value]. rewrite Hd. f_equal. lia.
Qed.

Lemma digits_go_head fuel n acc :
  0 <= n -> exists d r, digits_go (S fuel) n acc = String (digit_char d) r /\ 0 <= d < 10.
Proof.
  revert n acc. induction fuel as [|fuel IH]; intros n acc Hn; pose proof (Z.mod_pos_bound n 10).
  - exists (n mod 10), acc. split; [cbn; by case_decide|lia].
  - cbn [digits_go]. case_decide; [exists (n mod 10), acc; split; [done|lia]|].
    apply IH, Z.div_pos; lia.
Qed.

Lemma numeral_value n : 0 <= n -> digits_value (numeral n) 0 = n.
Proof.
  intros Hn. unfold numeral. rewrite digits_go_value; [done|].
  pose proof (Z.log2_nonneg n). rewrite Z2Nat.id by lia. split; [done|].
  apply Z.lt_le_trans with (2 ^ (Z.log2 n + 1)); [|apply Z.pow_le_mono_l; lia].
  destruct (decide (n = 0)) as [->|]; [done|]. apply Z.log2_spec. lia.
Qed.

Lemma numeral_no_minus n : 0 <= n -> forall r, numeral n <> String "-" r.
Proof.
  intros Hn r. unfold numeral. pose proof (Z.log2_nonneg n).
  replace (Z.to_nat (Z.log2 n + 1)) with (S (Z.to_nat (Z.log2 n))) by lia.
  destruct (digits_go_head (Z.to_nat (Z.log2 n)) n EmptyString Hn) as (d & t & -> & Hd).
  intros E. injection E as E _. by apply digit_char_spec in E.
Qed.

Lemma show_Z_inj a b : show_Z a = show_Z b -> a = b.
Proof.
  unfold show_Z. intros E. case_decide; case_decide.
  - injection E as E. apply (f_equal (fun s => digits_value s 0)) in E. rewrite !numeral_value in E by lia. lia.
  - symmetry in E. apply numeral_no_minus in E; [done|lia].
  - apply numeral_no_minus in E; [done|lia].
  - apply (f_equal (fun s => digits_value s 0)) in E. by rewrite !numeral_value in E by lia.
Qed.
