(* ===== verification/JsValue.v ===== *)
(** * JavaScript values

    What [JSON.parse] can return, plus [undefined]: the dynamically typed data
    that receipt validators must survive.  Property access, truthiness, [===]
    against primitives and the implicit conversions are the language's; a
    conversion that raises a [TypeError] is [Throw tt].

    A string is a sequence of code units below 256. *)

From S2P Require Import Prelude JsNumber.
From Stdlib Require Import Ascii SpecFloat.

Local Open Scope string_scope.

Inductive js :=
| Jundefined
| Jnull
| Jbool (b : bool)
| Jnum (x : number)
| Jstr (s : string)
| Jarr (l : list js)
| Jobj (fields : list (string * js)).

(** A computation that may raise a [TypeError]. *)
Notation result := (outcome unit).

(** Induction with the hypotheses of the elements. *)
Section js_ind.
Context (P : js -> Prop).
Context (Hundefined : P Jundefined) (Hnull : P Jnull).
Context (Hbool : forall b, P (Jbool b)) (Hnum : forall x, P (Jnum x)) (Hstr : forall s, P (Jstr s)).
Context (Harr : forall l, Forall P l -> P (Jarr l)).
Context (Hobj : forall fs, Forall (fun p => P p.2) fs -> P (Jobj fs)).

Fixpoint js_nested_ind (v : js) : P v :=
  match v with
  | Jundefined => Hundefined
  | Jnull => Hnull
  | Jbool b => Hbool b
  | Jnum x => Hnum x
  | Jstr s => Hstr s
  | Jarr l =>
      Harr l ((fix go l : Forall P l :=
        match l with
        | [] => List.Forall_nil _
        | x :: l => List.Forall_cons _ _ _ (js_nested_ind x) (go l)
        end) l)
  | Jobj fs =>
      Hobj fs ((fix go fs : Forall (fun p => P p.2) fs :=
        match fs with
        | [] => List.Forall_nil _
        | p :: fs => List.Forall_cons _ _ _ (js_nested_ind p.2) (go fs)
        end) fs)
  end.
End js_ind.

(** ** Access *)

(** The value of an own property; the first entry of a key is its value. *)
Fixpoint own {A} (fs : list (string * A)) (k : string) : option A :=
  match fs with
  | [] => None
  | (k', v) :: fs => if decide (k' = k) then Some v else own fs k
  end.

(** [v.k], for a [k] that no prototype defines. *)
Definition get (v : js) (k : string) : result js :=
  match v with
  | Jundefined | Jnull => Throw tt
  | Jobj fs => Ok (default Jundefined (own fs k))
  | _ => Ok Jundefined
  end.

(** [v?.k] *)
Definition get_opt (v : js) (k : string) : js :=
  match get v k with Ok x => x | Throw _ => Jundefined end.

Definition without (fs : list (string * js)) (k : string) : list (string * js) :=
  filter (fun p => p.1 <> k) fs.

(** [{ ...o, k: v }] *)
Definition with_field (fs : list (string * js)) (k : string) (v : js) : list (string * js) :=
  without fs k ++ [(k, v)].

Definition truthy (v : js) : bool :=
  match v with
  | Jundefined | Jnull => false
  | Jbool b => b
  | Jnum x => match x with S754_zero _ | S754_nan => false | _ => true end
  | Jstr s => bool_decide (s <> EmptyString)
  | Jarr _ | Jobj _ => true
  end.

Definition is_string (v : js) : bool := match v with Jstr _ => true | _ => false end.
Definition is_number (v : js) : bool := match v with Jnum _ => true | _ => false end.
Definition is_boolean (v : js) : bool := match v with Jbool _ => true | _ => false end.
Definition is_null (v : js) : bool := match v with Jnull => true | _ => false end.
Definition is_array (v : js) : bool := match v with Jarr _ => true | _ => false end.

(** [typeof v === "object"] *)
Definition is_object (v : js) : bool :=
  match v with Jnull | Jarr _ | Jobj _ => true | _ => false end.

(** [v === s], [v === x], [v === b] for primitives. *)
Definition is_str (v : js) (s : string) : bool :=
  match v with Jstr t => bool_decide (t = s) | _ => false end.
Definition is_num (v : js) (x : number) : bool :=
  match v with Jnum y => num_eqb y x | _ => false end.
Definition is_bool (v : js) (b : bool) : bool :=
  match v with Jbool c => Bool.eqb c b | _ => false end.

(** ** Conversions *)

Fixpoint join (sep : string) (l : list string) : string :=
  match l with
  | [] => EmptyString
  | [x] => x
  | x :: r => x +:+ sep +:+ join sep r
  end.

Fixpoint sequence {A} (l : list (result A)) : result (list A) :=
  match l with
  | [] => Ok []
  | m :: l =>
      outcome_bind m (fun x => outcome_bind (sequence l) (fun r => Ok (x :: r)))
  end.

(** [ToString].  An own [toString] hides the inherited method, and no parsed
    value is callable: the conversion then raises a [TypeError]. *)
Fixpoint to_string (v : js) : result string :=
  match v with
  | Jundefined => Ok "undefined"
  | Jnull => Ok "null"
  | Jbool b => Ok (if b then "true" else "false")
  | Jnum x => Ok (num_to_string x)
  | Jstr s => Ok s
  | Jarr l =>
      outcome_bind
        (sequence ((fun x => match x with
                             | Jundefined | Jnull => Ok EmptyString
                             | _ => to_string x
                             end) <$> l))
        (fun ss => Ok (join "," ss))
  | Jobj fs =>
      match own fs "toString" with
      | Some _ => Throw tt
      | None => Ok "[object Object]"
      end
  end.

(** [ToPrimitive] with hint number: [valueOf] of an object is the object
    itself, so the text decides. *)
Definition to_primitive (v : js) : result js :=
  match v with
  | Jarr _ | Jobj _ => outcome_bind (to_string v) (fun s => Ok (Jstr s))
  | _ => Ok v
  end.

Definition primitive_number (v : js) : number :=
  match v with
  | Jnull => num_zero
  | Jbool b => num_of_Z (if b then 1 else 0)
  | Jnum x => x
  | Jstr s => string_to_number s
  | _ => num_nan
  end.

Definition to_number (v : js) : result number :=
  outcome_bind (to_primitive v) (fun p => Ok (primitive_number p)).

(** [a > b] *)
Definition js_gt (a b : js) : result bool :=
  outcome_bind (to_primitive a) (fun a =>
  outcome_bind (to_primitive b) (fun b =>
  Ok match a, b with
     | Jstr s, Jstr t => String.ltb t s
     | _, _ => num_ltb (primitive_number b) (primitive_number a)
     end)).

(** ** [JSON.stringify] of primitives *)

Definition hex_char (d : nat) : ascii := ascii_of_nat (if decide (d < 10)%nat then 48 + d else 87 + d).

Definition escape (c : ascii) : string :=
  let n := nat_of_ascii c in
  if decide (n = 8) then "\b" else if decide (n = 9) then "\t" else if decide (n = 10) then "\n"
  else if decide (n = 12) then "\f" else if decide (n = 13) then "\r"
  else if decide (n = 34) then String "\" (String c EmptyString)
  else if decide (n = 92) then "\\"
  else if decide (n < 32)%nat then
    "\u00" +:+ String (hex_char (n / 16)) (String (hex_char (n mod 16)) EmptyString)
  else String c EmptyString.

Fixpoint escaped (s : string) : string :=
  match s with
  | EmptyString => EmptyString
  | String c r => escape c +:+ escaped r
  end.

Definition quote_char : ascii := ascii_of_nat 34.

Definition quote (s : string) : string :=
  String quote_char (escaped s +:+ String quote_char EmptyString).

(** The text of a primitive; [undefined] has none. *)
Definition stringify (v : js) : option string :=
  match v with
  | Jnull => Some "null"
  | Jbool b => Some (if b then "true" else "false")
  | Jnum x => Some (if is_finite x then num_to_string x else "null")
  | Jstr s => Some (quote s)
  | _ => None
  end.

Lemma own_Some_elem {A} (fs : list (string * A)) k v : own fs k = Some v -> (k, v) ∈ fs.
Proof.
  induction fs as [|[k' v'] fs IH]; simpl; [done|]. case_decide; intros Hv.
  - simplify_eq. by left.
  - right. auto.
Qed.

Lemma own_elem {A} (fs : list (string * A)) k v : NoDup (fs.*1) -> (k, v) ∈ fs -> own fs k = Some v.
Proof.
  induction fs as [|[k' v'] fs IH]; simpl; intros Hn Hin; [by apply elem_of_nil in Hin|].
  apply NoDup_cons in Hn as [Hk Hn]. apply elem_of_cons in Hin as [Hin|Hin].
  - simplify_eq. by rewrite decide_True.
  - rewrite decide_False; [auto|]. intros ->. apply Hk, list_elem_of_fmap. by exists (k, v).
Qed.

Lemma own_None {A} (fs : list (string * A)) k : own fs k = None <-> k ∉ fs.*1.
Proof.
  induction fs as [|[k' v'] fs IH]; simpl.
  - split; [intros _ H; by apply elem_of_nil in H|done].
  - rewrite not_elem_of_cons. case_decide; subst; [naive_solver|]. naive_solver.
Qed.

Lemma own_without_ne fs k k' : k <> k' -> own (without fs k') k = own fs k.
Proof.
  intros Hk. unfold without. induction fs as [|[a v] fs IH]; [done|].
  rewrite filter_cons. simpl. repeat case_decide; simpl; try congruence; try done.
  - by rewrite decide_True.
  - by rewrite decide_False.
Qed.

Lemma own_without_eq fs k : own (without fs k) k = None.
Proof.
  apply own_None. unfold without. rewrite list_elem_of_fmap.
  intros ([k' v] & Heq & H). apply list_elem_of_filter in H as [H _]. simpl in *. congruence.
Qed.
