(* ===== verification/CanonicalJson.v ===== *)
(** * Canonical JSON ([canonicalJson] of [harness-control-plane/receipts.ts])

    The text a receipt is hashed over: keys sorted, no white space.  Two values
    have the same text exactly when they are the same JSON data, whatever the
    order their keys were inserted in. *)

From stdpp Require Import sorting.
From Stdlib Require Import Ascii SpecFloat.
From S2P Require Import Prelude JsNumber JsValue.

Local Open Scope string_scope.

(** The own properties in the order of [Object.keys(o).sort()]. *)
Definition sorted_fields {A} (fs : list (string * A)) : list (string * A) :=
  omap (fun k => pair k <$> own fs k) (merge_sort String.le fs.*1).

Definition member (p : string * string) : string := quote p.1 +:+ ":" +:+ p.2.

Fixpoint canonicalJson (v : js) : string :=
  match v with
  | Jarr l => "[" +:+ join "," (canonicalJson <$> l) +:+ "]"
  | Jobj fs =>
      "{" +:+ join "," (member <$> sorted_fields ((fun p => (p.1, canonicalJson p.2)) <$> fs)) +:+ "}"
  | _ => default "null" (stringify v)
  end.

(** ** JSON data *)

Definition norm_number (x : number) : js :=
  match x with
  | S754_nan | S754_infinity _ => Jnull
  | S754_zero _ => Jnum num_zero
  | _ => Jnum x
  end.

(** The data of a value: what JSON cannot express is [null], zero has no sign,
    and the properties of an object are in the order of their keys. *)
Fixpoint data (v : js) : js :=
  match v with
  | Jundefined => Jnull
  | Jnum x => norm_number x
  | Jarr l => Jarr (data <$> l)
  | Jobj fs => Jobj (sorted_fields ((fun p => (p.1, data p.2)) <$> fs))
  | _ => v
  end.

(** Text of a value in the order it is written. *)
Fixpoint flat (v : js) : string :=
  match v with
  | Jarr l => "[" +:+ join "," (flat <$> l) +:+ "]"
  | Jobj fs => "{" +:+ join "," (member <$> ((fun p => (p.1, flat p.2)) <$> fs)) +:+ "}"
  | _ => default "null" (stringify v)
  end.

(** The printed form determines the number, which the language guarantees of
    every number that is neither [-0] nor [NaN]. *)
Definition reads_back (x : number) : bool :=
  match x with
  | S754_finite _ _ _ => bool_decide (string_to_number (num_to_string x) = x)
  | _ => true
  end.

Fixpoint numbers_read_back (v : js) : bool :=
  match v with
  | Jnum x => reads_back x
  | Jarr l => forallb numbers_read_back l
  | Jobj fs => forallb (fun p => numbers_read_back p.2) fs
  | _ => true
  end.

(** ** Sorted properties *)

Lemma own_fmap {A B} (f : A -> B) fs k :
  own ((fun p => (p.1, f p.2)) <$> fs) k = f <$> own fs k.
Proof. induction fs as [|[k' v] fs IH]; simpl; [done|]. by case_decide. Qed.

Lemma sorted_fields_fmap {A B} (f : A -> B) fs :
  sorted_fields ((fun p => (p.1, f p.2)) <$> fs) = (fun p => (p.1, f p.2)) <$> sorted_fields fs.
Proof.
  unfold sorted_fields. rewrite <- list_fmap_compose.
  replace ((fst ∘ (fun p : string * A => (p.1, f p.2))) <$> fs) with fs.*1 by done.
  generalize (merge_sort String.le fs.*1) as ks.
  induction ks as [|k ks IH]; [done|]. simpl. rewrite own_fmap.
  destruct (own fs k); simpl; [f_equal|]; apply IH.
Qed.

Lemma own_perm {A} (fs fs' : list (string * A)) k :
  fs ≡ₚ fs' -> NoDup fs.*1 -> own fs k = own fs' k.
Proof.
  intros Hp Hn. assert (NoDup fs'.*1) as Hn' by by rewrite <- Hp.
  destruct (own fs k) as [v|] eqn:E.
  - symmetry. apply own_elem; [done|]. rewrite <- Hp. by apply own_Some_elem.
  - symmetry. apply own_None. rewrite <- Hp. by apply own_None.
Qed.

Lemma sorted_fields_perm {A} (fs fs' : list (string * A)) :
  fs ≡ₚ fs' -> NoDup fs.*1 -> sorted_fields fs = sorted_fields fs'.
Proof.
  intros Hp Hn. unfold sorted_fields.
  replace (merge_sort String.le fs'.*1) with (merge_sort String.le fs.*1).
  - generalize (merge_sort String.le fs.*1) as ks. induction ks as [|k ks IH]; [done|].
    simpl. rewrite (own_perm fs fs') by done. destruct (own fs' k); simpl; [f_equal|]; apply IH.
  - apply (StronglySorted_unique String.le); try apply StronglySorted_merge_sort; try apply _.
    by rewrite !merge_sort_Permutation, Hp.
Qed.

(** The text only depends on the data. *)
Lemma canonical_flat v : canonicalJson v = flat (data v).
Proof.
  induction v as [| | |x| |l IH|fs IH] using js_nested_ind; try done.
  - by destruct x.
  - simpl. do 3 f_equal. rewrite <- list_fmap_compose.
    apply list_fmap_ext. intros i w Hw. rewrite Forall_lookup in IH. by eapply IH.
  - assert ((fun p => (p.1, canonicalJson p.2)) <$> fs
      = (fun p => (p.1, flat p.2)) <$> ((fun p => (p.1, data p.2)) <$> fs)) as E.
    { rewrite <- list_fmap_compose. apply list_fmap_ext. intros i [k w] Hw.
      rewrite Forall_lookup in IH. simpl. f_equal. by apply (IH _ _ Hw). }
    cbn [canonicalJson data flat]. by rewrite E, sorted_fields_fmap.
Qed.

(** ** Unique readability *)

(** Characters of a printed number, and those that may follow a value. *)
Definition num_char (c : ascii) : bool :=
  is_digit c || bool_decide (c ∈ ["."; "e"; "+"; "-"]%char).
Definition delimiter (c : ascii) : bool := bool_decide (c ∈ [","; "]"; "}"]%char).

Fixpoint all_chars (p : ascii -> bool) (s : string) : bool :=
  match s with
  | EmptyString => true
  | String c r => p c && all_chars p r
  end.

Definition ends (s : string) : bool :=
  match s with
  | EmptyString => true
  | String c _ => delimiter c
  end.

Lemma all_chars_app p a b : all_chars p (a +:+ b) = all_chars p a && all_chars p b.
Proof. induction a as [|c a IH]; [done|]. rewrite append_cons. simpl. by rewrite IH, andb_assoc. Qed.

Lemma all_chars_substring p n m s : all_chars p s = true -> all_chars p (String.substring n m s) = true.
Proof.
  revert n m. induction s as [|c s IH]; intros n m H; [by destruct n, m|].
  simpl in H. apply andb_true_iff in H as [Hc Hs].
  destruct n, m; simpl; try done; [|by apply IH|by apply IH]. by rewrite Hc, IH.
Qed.

Lemma digit_char_num d : (0 <= d < 10)%Z -> num_char (digit_char d) = true.
Proof.
  intros Hd. unfold digit_char.
  assert (exists n, d = Z.of_nat n /\ n < 10) as (n & -> & Hn) by (exists (Z.to_nat d); lia).
  do 10 (destruct n; [done|]). lia.
Qed.

Lemma digits_go_num fuel n acc :
  (0 <= n)%Z -> all_chars num_char acc = true -> all_chars num_char (digits_go fuel n acc) = true.
Proof.
  revert n acc. induction fuel as [|fuel IH]; intros n acc Hn Hacc; [done|]. simpl.
  assert (all_chars num_char (String (digit_char (n mod 10)) acc) = true).
  { simpl. rewrite Hacc, digit_char_num; [done|]. by apply Z.mod_pos_bound. }
  case_decide; [done|]. apply IH; [|done]. by apply Z.div_pos.
Qed.

Lemma zeros_num n : all_chars num_char (zeros n) = true.
Proof. by induction n. Qed.

Lemma candidate_nonneg num den n k : (0 <= num -> 0 < den -> 0 <= candidate num den n k)%Z.
Proof.
  intros Hn Hd. unfold candidate, round_quot.
  assert (forall a b, 0 <= a -> 0 < b ->
    0 <= (if decide (2 * (a mod b) < b) then a / b
          else if decide (b < 2 * (a mod b)) then a / b + 1
               else if Z.even (a / b) then a / b else a / b + 1))%Z as H.
  { intros a b Ha Hb. pose proof (Z.div_pos a b Ha Hb).
    repeat case_decide; [lia|lia|]. destruct (Z.even _); lia. }
  case_decide; apply H; lia.
Qed.

Lemma shortest_nonneg fuel x num den n k :
  (0 <= num)%Z -> (0 < den)%Z -> (0 <= (shortest fuel x num den n k).1)%Z.
Proof.
  intros Hn Hd. revert k. induction fuel as [|fuel IH]; intros k; simpl.
  - by apply candidate_nonneg.
  - case_decide; simpl; [by apply candidate_nonneg|apply IH].
Qed.

Lemma layout_num ds k n : all_chars num_char ds = true -> all_chars num_char (layout ds k n) = true.
Proof.
  intros H. unfold layout, numeral.
  repeat case_decide; rewrite ?all_chars_app, ?H, ?zeros_num, ?all_chars_substring by done;
    rewrite ?digits_go_num by (lia || done); done.
Qed.

Lemma num_to_string_num x : is_finite x = true -> all_chars num_char (num_to_string x) = true.
Proof.
  destruct x as [s|s| |s m e]; try done. intros _. unfold num_to_string, fraction.
  assert (exists num den, (if decide (0 <= e)%Z then (Z.pos m * 2 ^ e, 1) else (Z.pos m, 2 ^ - e))%Z
    = (num, den) /\ (0 <= num)%Z /\ (0 < den)%Z) as (num & den & -> & Hn & Hd).
  { case_decide; eexists _, _; (split; [done|]); lia. }
  pose proof (shortest_nonneg 16 (S754_finite false m e) num den (decimal_exponent num den) 1 Hn Hd).
  destruct (shortest _ _ _ _ _ _) as [d k]. simpl in *.
  assert (all_chars num_char (layout (numeral d) k (decimal_exponent num den)) = true).
  { apply layout_num. by apply digits_go_num. }
  by destruct s.
Qed.

Lemma token_split a b s t :
  all_chars num_char a = true -> all_chars num_char b = true -> ends s = true -> ends t = true ->
  a +:+ s = b +:+ t -> a = b /\ s = t.
Proof.
  revert b. induction a as [|x a IH]; intros [|y b] Ha Hb Hs Ht H.
  - done.
  - rewrite append_nil, append_cons in H. subst s. simpl in *.
    apply andb_true_iff in Hb as [Hb _]. unfold delimiter in Hs. apply bool_decide_eq_true in Hs.
    rewrite !elem_of_cons, elem_of_nil in Hs. by destruct Hs as [->|[->|[->|[]]]].
  - rewrite append_nil, append_cons in H. subst t. simpl in *.
    apply andb_true_iff in Ha as [Ha _]. unfold delimiter in Ht. apply bool_decide_eq_true in Ht.
    rewrite !elem_of_cons, elem_of_nil in Ht. by destruct Ht as [->|[->|[->|[]]]].
  - rewrite !append_cons in H. injection H as -> H. simpl in *.
    apply andb_true_iff in Ha as [_ Ha], Hb as [_ Hb].
    by destruct (IH b Ha Hb Hs Ht H) as [-> ->].
Qed.

(** Escape sequences form a prefix code that avoids the closing quote. *)
Fixpoint diverge (a b : string) : bool :=
  match a, b with
  | String x a, String y b => if decide (x = y) then diverge a b else true
  | _, _ => false
  end.

Lemma diverge_app a b x y : diverge a b = true -> a +:+ x <> b +:+ y.
Proof.
  revert b. induction a as [|c a IH]; intros [|d b] H; try done. rewrite !append_cons.
  simpl in H. case_decide as E.
  - intros [= _ Heq]. by apply (IH b).
  - intros [= Heq _]. done.
Qed.

Definition escapes : list string := (fun n => escape (ascii_of_nat n)) <$> seq 0 256.

Lemma escapes_check :
  forallb (fun i => forallb (fun j => bool_decide (i = j) ||
    diverge (nth i escapes EmptyString) (nth j escapes EmptyString)) (seq 0 256)) (seq 0 256) = true /\
  forallb (fun e => diverge e (String quote_char EmptyString)) escapes = true.
Proof. split; vm_compute; reflexivity. Qed.

Lemma escapes_nth c : nth (nat_of_ascii c) escapes EmptyString = escape c.
Proof.
  unfold escapes. pose proof (nat_ascii_bounded c) as H. rewrite nth_lookup, list_lookup_fmap.
  rewrite lookup_seq_lt by done. simpl. by rewrite ascii_nat_embedding.
Qed.

Lemma escape_prefix c d x y : escape c +:+ x = escape d +:+ y -> c = d /\ x = y.
Proof.
  intros H. destruct (decide (c = d)) as [->|Hcd]; [by apply (inj _) in H|]. exfalso.
  destruct escapes_check as [He _]. rewrite forallb_forall in He.
  specialize (He (nat_of_ascii c)). rewrite forallb_forall in He.
  pose proof (nat_ascii_bounded c). pose proof (nat_ascii_bounded d).
  specialize (He ltac:(apply in_seq; lia) (nat_of_ascii d) ltac:(apply in_seq; lia)).
  apply orb_true_iff in He as [He|He].
  - apply bool_decide_eq_true in He. apply Hcd.
    by rewrite <- (ascii_nat_embedding c), He, ascii_nat_embedding.
  - rewrite !escapes_nth in He. by eapply diverge_app.
Qed.

Lemma escape_not_quote c x y : escape c +:+ x <> String quote_char y.
Proof.
  destruct escapes_check as [_ He]. rewrite forallb_forall in He.
  change (String quote_char y) with (String quote_char EmptyString +:+ y).
  apply diverge_app, He. rewrite <- (escapes_nth c). apply nth_In.
  apply nat_ascii_bounded.
Qed.

Lemma escaped_split a b x y :
  escaped a +:+ String quote_char x = escaped b +:+ String quote_char y -> a = b /\ x = y.
Proof.
  revert b. induction a as [|c a IH]; intros [|d b] H; cbn [escaped] in H;
    rewrite ?append_nil, ?append_assoc in H.
  - by injection H as ->.
  - symmetry in H. by apply escape_not_quote in H.
  - by apply escape_not_quote in H.
  - apply escape_prefix in H as [-> H]. by destruct (IH b H) as [-> ->].
Qed.

Lemma quote_split a b x y : quote a +:+ x = quote b +:+ y -> a = b /\ x = y.
Proof.
  unfold quote. rewrite !append_cons, !append_assoc. intros [= H]. by apply escaped_split.
Qed.

(** ** Lists *)

Section listing.
Context {A : Type} (f : A -> string) (close : ascii).
Context (Hclose : delimiter close = true) (Hcomma : close <> ","%char).

(** What follows an element of a list. *)
Fixpoint after (l : list A) (s : string) : string :=
  match l with
  | [] => String close s
  | x :: l => String "," (f x +:+ after l s)
  end.

Lemma join_after x l s : join "," (f <$> x :: l) +:+ String close s = f x +:+ after l s.
Proof using.
  revert x. induction l as [|y l IH]; intros x; [done|].
  replace (join "," (f <$> x :: y :: l)) with (f x +:+ "," +:+ join "," (f <$> y :: l)) by done.
  rewrite !append_assoc, IH. done.
Qed.

Lemma after_ends l s : ends (after l s) = true.
Proof using Hclose. by destruct l. Qed.

(** Elements are uniquely readable. *)
Definition readable (x : A) (Q : A -> Prop) : Prop :=
  forall y s t, Q y -> ends s = true -> ends t = true -> f x +:+ s = f y +:+ t -> x = y /\ s = t.

Lemma after_split Q l l' s t :
  Forall (fun x => readable x Q) l -> Forall Q l' -> after l s = after l' t -> l = l' /\ s = t.
Proof using Hclose Hcomma.
  intros Hl. revert l'. induction Hl as [|x l Hx Hl IH]; intros [|y l'] Hl' H; simpl in H.
  - by injection H.
  - injection H as H _. done.
  - injection H as H _. by rewrite H in Hcomma.
  - injection H as H. apply Forall_cons in Hl' as [Hy Hl'].
    destruct (Hx y _ _ Hy (after_ends l s) (after_ends l' t) H) as [-> H'].
    by destruct (IH l' Hl' H') as [-> ->].
Qed.

Lemma join_split Q l l' s t :
  (forall x, Q x -> exists c r, f x = String c r /\ c <> close) ->
  Forall (fun x => readable x Q) l -> Forall Q l -> Forall Q l' ->
  join "," (f <$> l) +:+ String close s = join "," (f <$> l') +:+ String close t ->
  l = l' /\ s = t.
Proof using Hclose Hcomma.
  intros Hne Hl HQ Hl' H. destruct l as [|x l], l' as [|y l']; rewrite ?join_after in H.
  - by injection H.
  - destruct (Hne y) as (c & r & E & Hc); [by inversion Hl'|]. rewrite E, append_cons in H. injection H as H _. congruence.
  - destruct (Hne x) as (c & r & E & Hc); [by inversion HQ|]. rewrite E, append_cons in H. injection H as H _. congruence.
  - apply (after_split Q (x :: l) (y :: l')); [done..|]. simpl. by rewrite H.
Qed.
End listing.

(** ** Values *)

(** Data as [JSON.parse] returns it, with numbers that read back. *)
Fixpoint plain (v : js) : bool :=
  match v with
  | Jundefined => false
  | Jnum (S754_zero s) => negb s
  | Jnum x => is_finite x && reads_back x
  | Jarr l => forallb plain l
  | Jobj fs => forallb (fun p => plain p.2) fs
  | _ => true
  end.

Lemma own_sorted {A} (fs : list (string * A)) p :
  p ∈ sorted_fields fs -> own fs p.1 = Some p.2 /\ p ∈ fs.
Proof.
  unfold sorted_fields. intros H. apply list_elem_of_omap in H as (k & _ & H).
  destruct (own fs k) as [v|] eqn:E; [|done]. simpl in H. simplify_eq. simpl.
  split; [done|]. by apply own_Some_elem.
Qed.

Lemma data_plain v : numbers_read_back v = true -> plain (data v) = true.
Proof.
  induction v as [| | |x| |l IH|fs IH] using js_nested_ind; intros H; try done.
  - by destruct x.
  - cbn [numbers_read_back data plain] in *. apply forallb_Forall. apply forallb_Forall in H.
    rewrite Forall_fmap, Forall_forall in *. intros x Hx. by apply IH, H.
  - cbn [numbers_read_back data plain] in *. apply forallb_Forall. apply forallb_Forall in H.
    rewrite Forall_forall in *. intros p Hp. apply own_sorted in Hp as [_ Hp].
    apply list_elem_of_fmap in Hp as (q & -> & Hq). simpl. by apply (IH q Hq), H.
Qed.

Lemma plain_number x : plain (Jnum x) = true ->
  is_finite x = true /\ string_to_number (num_to_string x) = x.
Proof.
  destruct x as [s|s| |s m e]; intros H; try done.
  - by destruct s.
  - cbn [plain] in H. apply andb_true_iff in H as [_ H]. unfold reads_back in H.
    by apply bool_decide_eq_true in H.
Qed.

(** The first character tells the kind of value. *)
Definition head_kind (c : ascii) : nat :=
  if decide (c = quote_char) then 1 else if decide (c = "["%char) then 2
  else if decide (c = "{"%char) then 3 else if decide (c = "n"%char) then 4
  else if decide (c = "t"%char) then 5 else if decide (c = "f"%char) then 6
  else if num_char c then 7 else 0.

Definition kind_of (v : js) : nat :=
  match v with
  | Jstr _ => 1 | Jarr _ => 2 | Jobj _ => 3 | Jundefined | Jnull => 4
  | Jbool b => if b then 5 else 6 | Jnum _ => 7
  end.

Lemma num_char_kind c : num_char c = true -> head_kind c = 7.
Proof.
  intros H. unfold head_kind.
  do 6 (case_decide; [subst c; done|]). by rewrite H.
Qed.

Lemma flat_head v : plain v = true -> exists c r, flat v = String c r /\ head_kind c = kind_of v.
Proof.
  destruct v as [| |b|x|s|l|fs]; intros H; try (eexists _, _; split; [done|]; done).
  - destruct b; eexists _, _; (split; [done|]); done.
  - apply plain_number in H as [Hf Hr]. simpl. rewrite Hf. simpl.
    pose proof (num_to_string_num x Hf) as Hn. destruct (num_to_string x) as [|c r] eqn:E.
    + exfalso. by rewrite <- Hr in E.
    + eexists _, _. split; [done|]. simpl in Hn. apply andb_true_iff in Hn as [Hc _].
      by apply num_char_kind.
Qed.

Lemma flat_append v s : plain v = true -> exists c r, flat v +:+ s = String c r /\ head_kind c = kind_of v.
Proof.
  intros H. destruct (flat_head v H) as (c & r & -> & Hc). exists c, (r +:+ s). done.
Qed.

Lemma flat_readable v : plain v = true -> readable flat v (fun w => plain w = true).
Proof.
  induction v as [| |b|x|a|l IH|fs IH] using js_nested_ind; intros Hv w s t Hw Hs Ht H; try done;
    destruct (flat_append _ s Hv) as (c & r & Ec & Hc);
    destruct (flat_append w t Hw) as (c' & r' & Ec' & Hc');
    rewrite H, Ec' in Ec; injection Ec as -> ->; rewrite Hc in Hc'; clear Hc Ec';
    destruct w as [| |b'|y|a'|l'|fs']; try done; try (by destruct b); try (by destruct b').
  - simpl in H. by apply (inj _) in H.
  - destruct b, b'; try done; simpl in H; by apply (inj _) in H.
  - destruct (plain_number x Hv) as [Hx Ex], (plain_number y Hw) as [Hy Ey].
    simpl in H. rewrite Hx, Hy in H. simpl in H.
    assert (all_chars (fun c => negb (delimiter c)) = all_chars (fun c => negb (delimiter c))) by done.
    destruct (token_split _ _ _ _ (num_to_string_num x Hx) (num_to_string_num y Hy) Hs Ht H) as [E ->].
    by rewrite <- Ex, E, Ey.
  - simpl in H. by destruct (quote_split _ _ _ _ H) as [-> ->].
  - cbn [flat] in H. rewrite !append_cons, !append_nil, !append_assoc in H. injection H as H.
    cbn [plain] in Hv, Hw. apply forallb_Forall in Hv, Hw.
    destruct (join_split flat "]" eq_refl ltac:(done) (fun w => plain w = true) l l' s t)
      as [-> ->]; try done.
    + intros x Hx. destruct (flat_head x Hx) as (d & q & -> & Hd). exists d, q. split; [done|].
      intros ->. by destruct x as [| |[]| | | |].
    + rewrite Forall_forall in *. intros x Hx. by apply IH, Hv.
  - cbn [flat] in H. rewrite !append_cons, !append_nil, !append_assoc in H. injection H as H.
    rewrite <- !list_fmap_compose in H.
    cbn [plain] in Hv, Hw. apply forallb_Forall in Hv, Hw.
    destruct (join_split (member ∘ (fun p => (p.1, flat p.2))) "}" eq_refl ltac:(done)
      (fun p => plain p.2 = true) fs fs' s t) as [-> ->]; try done.
    + intros [k x] _. unfold member, quote. simpl. rewrite append_cons. by eexists _, _.
    + rewrite Forall_forall in *. intros [k x] Hx [k' y] s' t' Hy Hs' Ht' E.
      unfold member in E. simpl in E. rewrite !append_assoc in E.
      apply quote_split in E as [-> E]. rewrite !append_cons, !append_nil in E. injection E as E.
      by destruct (IH _ Hx (Hv _ Hx) y s' t' Hy Hs' Ht' E) as [? ->]; simpl in *; subst.
Qed.

Lemma own_omap {A} (fs : list (string * A)) ks k :
  k ∈ ks -> own (omap (fun k => pair k <$> own fs k) ks) k = own fs k.
Proof.
  induction ks as [|k' ks IH]; intros H; [by apply elem_of_nil in H|]. simpl.
  destruct (own fs k') as [v|] eqn:E; simpl.
  - case_decide; [by subst|]. apply IH. set_solver.
  - destruct (decide (k ∈ ks)); [by apply IH|]. assert (k = k') as -> by set_solver.
    rewrite E. apply own_None. intros Hin. apply list_elem_of_fmap in Hin as (p & -> & Hp).
    apply list_elem_of_omap in Hp as (k & Hk & Hp). destruct (own fs k); [|done].
    simpl in Hp. by simplify_eq.
Qed.

Lemma own_sorted_fields {A} (fs : list (string * A)) k : own (sorted_fields fs) k = own fs k.
Proof.
  unfold sorted_fields. destruct (decide (k ∈ fs.*1)) as [H|H].
  - apply own_omap. by rewrite merge_sort_Permutation.
  - rewrite (proj2 (own_None fs k) H). apply own_None. intros Hin.
    apply list_elem_of_fmap in Hin as ([k' v] & -> & Hp).
    apply own_sorted in Hp as [_ Hp]. apply H, list_elem_of_fmap. by exists (k', v).
Qed.

Lemma flat_inj v w : plain v = true -> plain w = true -> flat v = flat w -> v = w.
Proof.
  intros Hv Hw H. apply (flat_readable v Hv w EmptyString EmptyString Hw eq_refl eq_refl).
  by rewrite H.
Qed.

(** C39.  The hash basis is exact: two values whose numbers read back have the
    same canonical text if and only if they are the same JSON data - equal up
    to the insertion order of keys, [undefined] counting as [null] - so two
    different receipts are never hashed over the same text. *)
Theorem canonical_json_exact (v w : js) :
  numbers_read_back v = true -> numbers_read_back w = true ->
  canonicalJson v = canonicalJson w <-> data v = data w.
Proof.
  intros Hv Hw. rewrite !canonical_flat. split; [|by intros ->]. intros H.
  apply flat_inj; [by apply data_plain..|done].
Qed.

(** Key order is immaterial: permuting the properties of an object, at
    any place of a value, changes neither its data nor its canonical text, and
    what is read under a key of the data is the data of what was read. *)
Theorem canonical_json_key_order (fs fs' : list (string * js)) :
  NoDup fs.*1 -> fs ≡ₚ fs' ->
  canonicalJson (Jobj fs) = canonicalJson (Jobj fs') /\ data (Jobj fs) = data (Jobj fs') /\
  (forall k v, own fs k = Some v -> get (data (Jobj fs)) k = Ok (data v)).
Proof.
  intros Hn Hp. assert (data (Jobj fs) = data (Jobj fs')) as E.
  { cbn [data]. f_equal. apply sorted_fields_perm; [by rewrite Hp|].
    by rewrite <- list_fmap_compose. }
  split_and!; [by rewrite !canonical_flat, E|done|].
  intros k v Hk. cbn [data get]. do 2 f_equal. rewrite sorted_fields_fmap, own_fmap.
  by rewrite own_sorted_fields, Hk.
Qed.

Definition demo_fields : list (string * js) :=
  [("b", Jarr [Jnum (num_of_decimal 1 (-1)); Jundefined]); ("a", Jobj [("y", Jstr "q"); ("x", Jbool true)])].
Definition demo_fields' : list (string * js) :=
  [("a", Jobj [("x", Jbool true); ("y", Jstr "q")]); ("b", Jarr [Jnum (num_of_decimal 1 (-1)); Jnull])].

Lemma canonical_json_exact_witness :
  canonicalJson (Jobj demo_fields) = canonicalJson (Jobj demo_fields') <->
  data (Jobj demo_fields) = data (Jobj demo_fields').
Proof. apply canonical_json_exact; vm_compute; reflexivity. Defined.

Lemma canonical_json_key_order_witness :
  canonicalJson (Jobj demo_fields) = canonicalJson (Jobj (reverse demo_fields)) /\
  data (Jobj demo_fields) = data (Jobj (reverse demo_fields)) /\
  (forall k v, own demo_fields k = Some v -> get (data (Jobj demo_fields)) k = Ok (data v)).
Proof.
  apply canonical_json_key_order; [|apply Permutation_swap].
  apply (bool_decide_unpack _). vm_compute. exact I.
Defined.

Example canonical_text : canonicalJson (Jobj demo_fields) =
  String.concat (String quote_char EmptyString)
    ["{"; "a"; ":{"; "x"; ":true,"; "y"; ":"; "q"; "},"; "b"; ":[0.1,null]}"].
Proof. vm_compute. reflexivity. Qed.
