(* ===== verification/Receipts.v ===== *)
(** * Harness receipts ([harness-control-plane/receipts.ts])

    The builder and the validators, over the dynamically typed values that are
    read back from disk.  Field reads, truthiness and implicit conversions are
    those of JavaScript; a computation that raises a [TypeError] is [Throw tt].
    SHA-256 is a parameter. *)

From S2P Require Import Prelude HarnessTypes JsNumber JsValue CanonicalJson.
From Stdlib Require Import Ascii SpecFloat.

Local Open Scope string_scope.
Local Open Scope list_scope.
Local Open Scope js_scope.

Definition RECEIPT_SCHEMA_VERSION : number := num_of_Z 1.

(** The reasons a check pushes. *)
Definition push_if (b : bool) (r : string) : list string := if b then [r] else [].

Record ValidationOutcome := { outcome_valid : bool; reasons : list string }.

Record ReceiptSubject := {
  workspace : string; branch : option string; head : option string; commit : option string }.

Definition family_name (f : ReceiptFamily) : string :=
  match f with
  | F_vanish => "vanish" | F_prompt_acceptance => "prompt-acceptance"
  | F_validation => "validation" | F_completion => "completion"
  | F_review_verdict => "review-verdict" | F_review_failure => "review-failure"
  | F_phase_rollup => "phase-rollup"
  end.

Definition js_nullable (o : option string) : js :=
  match o with Some s => Jstr s | None => Jnull end.

Definition subject_js (s : ReceiptSubject) : js :=
  Jobj [("workspace", Jstr (workspace s)); ("branch", js_nullable (branch s));
        ("head", js_nullable (head s)); ("commit", js_nullable (commit s))].

(** [BuildReceiptInput], the clock already read. *)
Record BuildReceiptInput := {
  in_receiptId : string;
  in_sessionId : string;
  in_family : ReceiptFamily;
  in_source : string;
  in_subject : ReceiptSubject;
  in_evidence : js;
  in_artifactHashes : option (list (string * string));
  in_createdAt : string;
  in_valid : option bool
}.

Definition hashes_js (hs : list (string * string)) : js :=
  Jobj ((fun p => (p.1, Jstr p.2)) <$> hs).

Definition receipt_base (i : BuildReceiptInput) : list (string * js) :=
  [("receiptId", Jstr (in_receiptId i));
   ("schemaVersion", Jnum RECEIPT_SCHEMA_VERSION);
   ("sessionId", Jstr (in_sessionId i));
   ("family", Jstr (family_name (in_family i)));
   ("valid", Jbool (default true (in_valid i)));
   ("createdAt", Jstr (in_createdAt i));
   ("source", Jstr (in_source i));
   ("subject", subject_js (in_subject i));
   ("evidence", in_evidence i);
   ("artifactHashes", hashes_js (default [] (in_artifactHashes i)))].

(** ** Structure *)

Definition isNonEmptyString (v : js) : bool :=
  match v with Jstr s => bool_decide (0 < String.length s)%nat | _ => false end.

Definition validateStructure (r : js) : result (list string) :=
  let* receiptId := get r "receiptId" in
  let* sessionId := get r "sessionId" in
  let* source := get r "source" in
  let* createdAt := get r "createdAt" in
  let* family := get r "family" in
  let* valid := get r "valid" in
  let* sha256 := get r "sha256" in
  let* subject := get r "subject" in
  let* subject_bad :=
    if negb (truthy subject) || negb (is_object subject) || is_array subject then Ok true
    else let* w := get subject "workspace" in Ok (negb (isNonEmptyString w)) in
  let* evidence := get r "evidence" in
  let* artifactHashes := get r "artifactHashes" in
  Ok (push_if (negb (isNonEmptyString receiptId)) "envelope-missing-receiptId"
    ++ push_if (negb (isNonEmptyString sessionId)) "envelope-missing-sessionId"
    ++ push_if (negb (isNonEmptyString source)) "envelope-missing-source"
    ++ push_if (negb (isNonEmptyString createdAt)) "envelope-missing-createdAt"
    ++ push_if (negb (isNonEmptyString family)) "envelope-missing-family"
    ++ push_if (negb (is_boolean valid)) "envelope-bad-valid"
    ++ push_if (negb (is_string sha256)) "envelope-missing-sha256"
    ++ push_if subject_bad "envelope-bad-subject"
    ++ push_if (is_null evidence || negb (is_object evidence) || is_array evidence)
         "envelope-bad-evidence"
    ++ push_if (negb (truthy artifactHashes) || negb (is_object artifactHashes)
                || is_array artifactHashes) "envelope-bad-artifactHashes").

(** ** Families *)

(** [Array.isArray(v) && v.includes(s)] *)
Definition array_includes (v : js) (s : string) : bool :=
  match v with Jarr l => existsb (fun x => is_str x s) l | _ => false end.

Definition validateVanish (e : js) : result (list string) :=
  if negb (truthy e) then Ok ["vanish-missing-evidence"] else
  let* gitDelta := get e "gitDelta" in
  if negb (is_string gitDelta) then Ok ["vanish-missing-evidence"] else
  let protectedDelta := is_str gitDelta "dirty" || is_str gitDelta "unknown" in
  let* preservation := get e "preservation" in
  let* forbidden := get e "forbiddenActions" in
  let* snapshotComplete := get e "snapshotComplete" in
  let* stashRef := get e "stashRef" in
  Ok ((if protectedDelta then
         push_if (is_str preservation "block") "vanish-dirty-must-preserve-not-block"
         ++ mjoin ((fun action => push_if (negb (array_includes forbidden action))
                                    ("vanish-must-forbid-" +:+ action))
                     <$> ["restart-clean"; "delete"; "reset"])
       else [])
    ++ push_if (is_str preservation "snapshot" && negb (truthy snapshotComplete))
         "vanish-snapshot-incomplete"
    ++ push_if (is_str preservation "stash" && negb (truthy stashRef)) "vanish-stash-missing-ref").

(** [(v ?? 1) !== 0] *)
Definition not_zero (v : js) : bool :=
  match v with Jundefined | Jnull => true | _ => negb (is_num v num_zero) end.

Definition validatePromptAcceptance (e : js) : result (list string) :=
  if negb (truthy e) then Ok ["acceptance-missing-evidence"] else
  let* singleFlight := get e "singleFlight" in
  let* pre := get e "preSubmitState" in
  let* start := get e "agentStartCursor" in
  let* cursor := get e "preSubmitCursor" in
  let* after := js_gt start cursor in
  Ok (push_if (negb (is_bool singleFlight true)) "acceptance-not-single-flight"
    ++ push_if (truthy (get_opt pre "isStreaming")) "acceptance-pre-state-streaming"
    ++ push_if (not_zero (get_opt pre "steeringQueueDepth")) "acceptance-steering-queue-nonempty"
    ++ push_if (not_zero (get_opt pre "followupQueueDepth")) "acceptance-followup-queue-nonempty"
    ++ push_if (negb after) "acceptance-agent-start-not-after-cursor").

Definition validateValidation (e : js) : result (list string) :=
  if negb (truthy e) then Ok ["validation-missing-evidence"] else
  let* exactCommand := get e "exactCommand" in
  if negb (is_string exactCommand) then Ok ["validation-missing-evidence"] else
  let* pass := get e "pass" in
  Ok (if truthy pass then [] else ["validation-failed"]).

Definition validateCompletion (e : js) : result (list string) :=
  if negb (truthy e) then Ok ["completion-missing-evidence"] else
  let* finalCommit := get e "finalCommit" in
  let* prUrl := get e "prUrl" in
  let* issueArtifact := get e "issueArtifact" in
  let* ids := get e "requiredValidationReceiptIds" in
  let* blockers := get e "blockers" in
  Ok (push_if (negb (truthy finalCommit)) "completion-missing-commit"
    ++ push_if (negb (truthy prUrl) && negb (truthy issueArtifact)) "completion-missing-pr-or-issue"
    ++ push_if (match ids with Jarr [] => true | Jarr _ => false | _ => true end)
         "completion-missing-validation-receipts"
    ++ push_if (match blockers with Jarr (_ :: _) => true | _ => false end)
         "completion-has-blockers").

Definition isReviewVerdict (v : js) : bool :=
  match v with Jstr s => bool_decide (s ∈ verdict_name <$> REVIEW_VERDICTS) | _ => false end.

Definition validateReviewVerdict (e : js) : result (list string) :=
  if negb (truthy e) then Ok ["review-verdict-missing-evidence"] else
  let* verdict := get e "verdict" in
  Ok (if negb (isReviewVerdict verdict) then ["review-verdict-not-in-vocabulary"] else []).

Definition validateReviewFailure (e : js) : result (list string) :=
  if negb (truthy e) then Ok ["review-failure-missing-reason"] else
  let* reason := get e "reason" in
  Ok (if negb (isNonEmptyString reason) then ["review-failure-missing-reason"] else []).

(** ** Phase rollups *)

Definition lower_hex (c : ascii) : bool :=
  let n := nat_of_ascii c in bool_decide ((48 <= n <= 57) \/ (97 <= n <= 102))%nat.

Fixpoint all_hex (s : string) : bool :=
  match s with EmptyString => true | String c r => lower_hex c && all_hex r end.

(** [/^[0-9a-f]{64}$/.test(s)] *)
Definition SHA256_HEX (s : string) : bool := bool_decide (String.length s = 64)%nat && all_hex s.

Definition PHASE_ROLLUP_CHILD_STATUSES : list string :=
  ["completed"; "failed"; "aborted"; "merge_failed"; "paused"].

(** [typeof v !== "number" || !Number.isFinite(v) || v < 0] *)
Definition bad_number (v : js) : bool :=
  match v with Jnum x => negb (is_finite x) || num_ltb x num_zero | _ => true end.

(** [1e-9] *)
Definition tolerance : number := num_of_decimal 1 (-9).

(** Reported value against the recomputed one ([None] is [null]). *)
Definition numbersReconcile (actual : js) (expected : option number) : result bool :=
  match actual, expected with
  | Jnull, None => Ok true
  | Jnull, Some _ => Ok false
  | _, None => Ok false
  | v, Some x =>
      let* y := to_number v in
      Ok (num_leb (num_abs (num_sub y x)) tolerance)
  end.

(** Two id lists describe the same set. *)
Definition sameIdSet (actual : list js) (expected : list string) : bool :=
  bool_decide (length actual = length expected) &&
  let expectedSet : gset string := list_to_set expected in
  let strings := omap (fun v => match v with Jstr s => Some s | _ => None end) actual in
  forallb (fun v => match v with Jstr s => bool_decide (s ∈ expectedSet) | _ => false end) actual &&
  bool_decide (size (list_to_set strings : gset string) = size expectedSet).

(** The running totals of the loop over the children. *)
Record tally := {
  seenIds : gset string;
  completedFromChildren : Z;
  failedFromChildren : Z;
  tokensFromChildren : number;
  costFromChildren : option number;
  clonedFromChildren : option number;
  lowRoiFromChildren : list string
}.

Definition no_tally : tally := {|
  seenIds := ∅; completedFromChildren := 0; failedFromChildren := 0;
  tokensFromChildren := num_zero; costFromChildren := None; clonedFromChildren := None;
  lowRoiFromChildren := [] |}.

(** [anyX = true; x += v] for a total that starts at zero. *)
Definition accumulate (o : option number) (v : js) : option number :=
  match v with Jnum x => Some (num_add (default num_zero o) x) | _ => o end.

(** An [outputSha256] that is present is tested as text. *)
Definition bad_output_hash (v : js) : result bool :=
  match v with
  | Jnull => Ok false
  | _ => let* s := to_string v in Ok (negb (SHA256_HEX s))
  end.

(** The fields read from a child. *)
Record child_fields := {
  cf_status : js; cf_receiptSha256 : js; cf_outputUri : js; cf_outputSha256 : js;
  cf_tokens : js; cf_costTotal : js; cf_clonedTokens : js; cf_lowRoi : js
}.

Definition child_tally (t : tally) (id : string) (c : child_fields) : tally := {|
  seenIds := {[id]} ∪ seenIds t;
  completedFromChildren :=
    completedFromChildren t + (if is_str (cf_status c) "completed" then 1 else 0);
  failedFromChildren :=
    failedFromChildren t
    + (if is_str (cf_status c) "failed" || is_str (cf_status c) "merge_failed" then 1 else 0);
  tokensFromChildren :=
    match cf_tokens c with
    | Jnum x => if bad_number (Jnum x) then tokensFromChildren t
                else num_add (tokensFromChildren t) x
    | _ => tokensFromChildren t
    end;
  costFromChildren :=
    if bad_number (cf_costTotal c) then costFromChildren t
    else accumulate (costFromChildren t) (cf_costTotal c);
  clonedFromChildren :=
    if bad_number (cf_clonedTokens c) then clonedFromChildren t
    else accumulate (clonedFromChildren t) (cf_clonedTokens c);
  lowRoiFromChildren :=
    if is_bool (cf_lowRoi c) true then lowRoiFromChildren t ++ [id] else lowRoiFromChildren t |}.

Definition child_reasons (t : tally) (id : string) (c : child_fields) (bad_hash : bool)
    : list string :=
  let because r := ("phase-rollup-" +:+ r +:+ ":" +:+ id)%string in
  push_if (bool_decide (id ∈ seenIds t)) (because "duplicate-child-id")
  ++ push_if (negb (existsb (is_str (cf_status c)) PHASE_ROLLUP_CHILD_STATUSES))
       (because "child-bad-status")
  ++ push_if (match cf_receiptSha256 c with Jstr s => negb (SHA256_HEX s) | _ => true end)
       (because "child-bad-receipt-hash")
  ++ push_if (negb (is_null (cf_outputUri c)) && negb (isNonEmptyString (cf_outputUri c)))
       (because "child-bad-output-uri")
  ++ push_if bad_hash (because "child-bad-output-hash")
  ++ push_if (negb (is_null (cf_outputSha256 c)) && is_null (cf_outputUri c))
       (because "child-orphan-output-hash")
  ++ push_if (negb (is_null (cf_outputUri c)) && is_null (cf_outputSha256 c))
       (because "child-orphan-output-uri")
  ++ push_if (bad_number (cf_tokens c)) (because "child-bad-tokens")
  ++ push_if (negb (is_null (cf_costTotal c)) && bad_number (cf_costTotal c))
       (because "child-bad-cost")
  ++ push_if (negb (is_null (cf_clonedTokens c)) && bad_number (cf_clonedTokens c))
       (because "child-bad-cloned-tokens")
  ++ push_if (negb (is_boolean (cf_lowRoi c))) (because "child-bad-low-roi").

(** The body of the loop over the children. *)
Definition rollup_child (t : tally) (child : js) : result (tally * list string) :=
  if negb (truthy child) then Ok (t, ["phase-rollup-child-missing-id"]) else
  let* idv := get child "id" in
  match idv with
  | Jstr (String _ _ as id) =>
      let* status := get child "status" in
      let* receiptSha256 := get child "receiptSha256" in
      let* outputUri := get child "outputUri" in
      let* outputSha256 := get child "outputSha256" in
      let* bad_hash := bad_output_hash outputSha256 in
      let* tokens := get child "tokens" in
      let* costTotal := get child "costTotal" in
      let* clonedTokens := get child "clonedTokens" in
      let* lowRoi := get child "lowRoi" in
      let c := {| cf_status := status; cf_receiptSha256 := receiptSha256;
                  cf_outputUri := outputUri; cf_outputSha256 := outputSha256;
                  cf_tokens := tokens; cf_costTotal := costTotal;
                  cf_clonedTokens := clonedTokens; cf_lowRoi := lowRoi |} in
      Ok (child_tally t id c, child_reasons t id c bad_hash)
  | _ => Ok (t, ["phase-rollup-child-missing-id"])
  end.

Fixpoint rollup_children (t : tally) (children : list js) : result (tally * list string) :=
  match children with
  | [] => Ok (t, [])
  | c :: cs =>
      let* p := rollup_child t c in
      let* q := rollup_children p.1 cs in
      Ok (q.1, p.2 ++ q.2)
  end.

(** The fields read from the aggregate. *)
Record aggregate_fields := {
  ag_childCount : js; ag_completed : js; ag_failed : js; ag_totalTokens : js;
  ag_totalCostTotal : js; ag_totalClonedTokens : js; ag_lowRoiChildIds : js
}.

Definition aggregate_reasons (count : nat) (t : tally) (a : aggregate_fields)
    (cost_ok cloned_ok : bool) : list string :=
  push_if (negb (is_num (ag_childCount a) (num_of_Z (Z.of_nat count))))
    "phase-rollup-child-count-mismatch"
  ++ push_if (negb (is_num (ag_completed a) (num_of_Z (completedFromChildren t))))
       "phase-rollup-aggregate-completed-mismatch"
  ++ push_if (negb (is_num (ag_failed a) (num_of_Z (failedFromChildren t))))
       "phase-rollup-aggregate-failed-mismatch"
  ++ push_if (bad_number (ag_totalTokens a)) "phase-rollup-aggregate-bad-totalTokens"
  ++ push_if (bad_number (ag_completed a)) "phase-rollup-aggregate-bad-completed"
  ++ push_if (bad_number (ag_failed a)) "phase-rollup-aggregate-bad-failed"
  ++ push_if (negb (is_null (ag_totalCostTotal a)) && bad_number (ag_totalCostTotal a))
       "phase-rollup-aggregate-bad-totalCostTotal"
  ++ push_if (negb (is_null (ag_totalClonedTokens a)) && bad_number (ag_totalClonedTokens a))
       "phase-rollup-aggregate-bad-totalClonedTokens"
  ++ push_if (negb (is_num (ag_totalTokens a) (tokensFromChildren t)))
       "phase-rollup-aggregate-tokens-mismatch"
  ++ push_if (negb cost_ok) "phase-rollup-aggregate-cost-mismatch"
  ++ push_if (negb cloned_ok) "phase-rollup-aggregate-cloned-tokens-mismatch"
  ++ match ag_lowRoiChildIds a with
     | Jarr ids => push_if (negb (sameIdSet ids (lowRoiFromChildren t)))
                     "phase-rollup-aggregate-low-roi-mismatch"
     | _ => ["phase-rollup-aggregate-bad-lowRoiChildIds"]
     end.

Definition rollup_aggregate (count : nat) (t : tally) (a : js) : result (list string) :=
  if negb (truthy a) then Ok ["phase-rollup-missing-aggregate"] else
  let* childCount := get a "childCount" in
  if negb (is_number childCount) then Ok ["phase-rollup-missing-aggregate"] else
  let* completed := get a "completed" in
  let* failed := get a "failed" in
  let* totalTokens := get a "totalTokens" in
  let* totalCostTotal := get a "totalCostTotal" in
  let* totalClonedTokens := get a "totalClonedTokens" in
  let* cost_ok := numbersReconcile totalCostTotal (costFromChildren t) in
  let* cloned_ok := numbersReconcile totalClonedTokens (clonedFromChildren t) in
  let* lowRoiChildIds := get a "lowRoiChildIds" in
  Ok (aggregate_reasons count t
        {| ag_childCount := childCount; ag_completed := completed; ag_failed := failed;
           ag_totalTokens := totalTokens; ag_totalCostTotal := totalCostTotal;
           ag_totalClonedTokens := totalClonedTokens; ag_lowRoiChildIds := lowRoiChildIds |}
        cost_ok cloned_ok).

Definition validatePhaseRollup (e : js) : result (list string) :=
  if negb (truthy e) then Ok ["phase-rollup-missing-phase"] else
  let* phase := get e "phase" in
  if negb (isNonEmptyString phase) then Ok ["phase-rollup-missing-phase"] else
  let* children := get e "children" in
  match children with
  | Jarr (c :: cs) =>
      let* p := rollup_children no_tally (c :: cs) in
      let* aggregate := get e "aggregate" in
      let* rs := rollup_aggregate (length (c :: cs)) p.1 aggregate in
      Ok (p.2 ++ rs)
  | _ => Ok ["phase-rollup-empty-children"]
  end.

Definition validateFamily (r : js) : result (list string) :=
  let* family := get r "family" in
  let* evidence := get r "evidence" in
  if is_str family "vanish" then validateVanish evidence
  else if is_str family "prompt-acceptance" then validatePromptAcceptance evidence
  else if is_str family "validation" then validateValidation evidence
  else if is_str family "completion" then validateCompletion evidence
  else if is_str family "review-verdict" then validateReviewVerdict evidence
  else if is_str family "review-failure" then validateReviewFailure evidence
  else if is_str family "phase-rollup" then validatePhaseRollup evidence
  else let* f := to_string family in Ok [("unknown-family:" +:+ f)%string].

(** ** The envelope *)

Section hashing.
Context (sha256Hex : string -> string).

Definition hashBasis (fields : list (string * js)) : string := canonicalJson (Jobj fields).

Definition buildReceipt (i : BuildReceiptInput) : js :=
  let base := receipt_base i in
  Jobj (with_field base "sha256" (Jstr (sha256Hex (hashBasis base)))).

Definition validateReceipt (receipt : js) : result ValidationOutcome :=
  match receipt with
  | Jobj fields =>
      let* structure := validateStructure receipt in
      let* sha256 := get receipt "sha256" in
      let rest := without fields "sha256" in
      let* schemaVersion := get receipt "schemaVersion" in
      let* familyReasons := validateFamily receipt in
      let rs := structure
        ++ push_if (negb (is_str sha256 (sha256Hex (hashBasis rest)))) "hash-mismatch"
        ++ push_if (negb (is_num schemaVersion RECEIPT_SCHEMA_VERSION)) "schema-version-mismatch"
        ++ familyReasons in
      Ok {| outcome_valid := bool_decide (rs = []); reasons := rs |}
  | _ => Ok {| outcome_valid := false; reasons := ["malformed-envelope"] |}
  end.
End hashing.

(** ** Facts about the checks *)

Lemma push_if_nil b r : push_if b r = [] <-> b = false.
Proof. by destruct b. Qed.

Lemma bind_Ok {A B} (m : result A) (k : A -> result B) b :
  outcome_bind m k = Ok b <-> exists a, m = Ok a /\ k a = Ok b.
Proof. destruct m; simpl; naive_solver. Qed.

Lemma get_truthy e k : truthy e = true -> get e k = Ok (get_opt e k).
Proof. by destruct e. Qed.

Lemma own_string fs k :
  isNonEmptyString (default Jundefined (own fs k)) = true <->
  exists s, own fs k = Some (Jstr s) /\ s <> EmptyString.
Proof.
  destruct (own fs k) as [[| | | |s| |]|]; simpl; try naive_solver.
  rewrite bool_decide_eq_true. destruct s; simpl; [|naive_solver lia].
  split; [lia|]. by intros (s & [= <-] & ?).
Qed.

(** The identity every accepted envelope carries. *)
Definition identified (fs : list (string * js)) : Prop :=
  Forall (fun k => exists s, own fs k = Some (Jstr s) /\ s <> EmptyString)
    ["receiptId"; "sessionId"; "source"; "createdAt"; "family"] /\
  (exists b, own fs "valid" = Some (Jbool b)) /\
  (exists subject w, own fs "subject" = Some (Jobj subject) /\
     own subject "workspace" = Some (Jstr w) /\ w <> EmptyString) /\
  (exists ev, own fs "evidence" = Some (Jobj ev)) /\
  (exists hs, own fs "artifactHashes" = Some (Jobj hs)).

Lemma structure_total fs : exists rs, validateStructure (Jobj fs) = Ok rs.
Proof.
  unfold validateStructure. cbn [get outcome_bind].
  destruct (default Jundefined (own fs "subject")) as [| |[]|[]|s| |sub]; simpl; eauto.
  destruct (bool_decide _); simpl; eauto.
Qed.

Lemma own_object fs k :
  (negb (truthy (default Jundefined (own fs k))) || negb (is_object (default Jundefined (own fs k)))
   || is_array (default Jundefined (own fs k))) = false <-> exists o, own fs k = Some (Jobj o).
Proof. destruct (own fs k) as [[]|]; simpl; rewrite ?orb_true_r; naive_solver. Qed.

Lemma own_evidence fs k :
  (is_null (default Jundefined (own fs k)) || negb (is_object (default Jundefined (own fs k)))
   || is_array (default Jundefined (own fs k))) = false <-> exists o, own fs k = Some (Jobj o).
Proof. destruct (own fs k) as [[]|]; simpl; naive_solver. Qed.

Lemma own_boolean fs k :
  is_boolean (default Jundefined (own fs k)) = true <-> exists b, own fs k = Some (Jbool b).
Proof. destruct (own fs k) as [[]|]; simpl; naive_solver. Qed.

Lemma own_text fs k :
  is_string (default Jundefined (own fs k)) = true <-> exists s, own fs k = Some (Jstr s).
Proof. destruct (own fs k) as [[]|]; simpl; naive_solver. Qed.

Lemma structure_exact fs :
  validateStructure (Jobj fs) = Ok [] <->
  identified fs /\ exists h, own fs "sha256" = Some (Jstr h).
Proof.
  unfold validateStructure. cbn [get outcome_bind].
  set (sub := default Jundefined (own fs "subject")).
  assert (exists b, (if negb (truthy sub) || negb (is_object sub) || is_array sub then Ok true
     else let* w := get sub "workspace" in Ok (negb (isNonEmptyString w))) = Ok b /\
    (b = false <-> exists subject w, own fs "subject" = Some (Jobj subject) /\
     own subject "workspace" = Some (Jstr w) /\ w <> EmptyString)) as (b & -> & Hb).
  { unfold sub. destruct (_ || _) eqn:E.
    - exists true. split; [done|]. split; [done|]. intros (subject & w & H & _).
      by rewrite (proj2 (own_object _ _)) in E by eauto.
    - apply own_object in E as [o Eo]. rewrite Eo. cbn [default get outcome_bind].
      eexists. split; [done|]. rewrite negb_false_iff, own_string. naive_solver. }
  cbn [outcome_bind]. unfold identified. rewrite !Forall_cons, Forall_nil.
  rewrite <- !own_string, <- Hb.
  rewrite <- own_boolean, <- own_text, <- (own_object fs "artifactHashes"),
    <- (own_evidence fs "evidence").
  split.
  - intros [= H]. rewrite !app_nil, !push_if_nil, !negb_false_iff in H. tauto.
  - intros H. f_equal. rewrite !app_nil, !push_if_nil, !negb_false_iff. tauto.
Qed.

(** ** What an accepted receipt guarantees *)

(** The data-loss invariant of a [vanish] receipt. *)
Definition delta_preserved (ev : list (string * js)) : Prop :=
  forall d, own ev "gitDelta" = Some (Jstr d) -> d = "dirty" \/ d = "unknown" ->
  own ev "preservation" <> Some (Jstr "block") /\
  exists l, own ev "forbiddenActions" = Some (Jarr l) /\
    Jstr "restart-clean" ∈ l /\ Jstr "delete" ∈ l /\ Jstr "reset" ∈ l.

(** What a [completion] receipt claims. *)
Definition completion_backed (ev : list (string * js)) : Prop :=
  truthy (get_opt (Jobj ev) "finalCommit") = true /\
  (truthy (get_opt (Jobj ev) "prUrl") = true \/ truthy (get_opt (Jobj ev) "issueArtifact") = true) /\
  (exists id ids, own ev "requiredValidationReceiptIds" = Some (Jarr (id :: ids))) /\
  (forall b bs, own ev "blockers" <> Some (Jarr (b :: bs))).

Lemma existsb_is_str l s : existsb (fun x => is_str x s) l = true <-> Jstr s ∈ l.
Proof.
  rewrite existsb_exists. setoid_rewrite <- list_elem_of_In. split.
  - intros (x & Hx & E). destruct x; try done. simpl in E.
    apply bool_decide_eq_true in E. by subst.
  - intros H. exists (Jstr s). split; [done|]. simpl. by apply bool_decide_eq_true.
Qed.

Lemma array_includes_own v s : array_includes v s = true <-> exists l, v = Jarr l /\ Jstr s ∈ l.
Proof. destruct v; simpl; rewrite ?existsb_is_str; naive_solver. Qed.

Lemma vanish_sound ev : validateVanish (Jobj ev) = Ok [] -> delta_preserved ev.
Proof.
  unfold validateVanish. cbn [truthy negb get outcome_bind].
  intros H d Hd Hp. rewrite Hd in H. cbn [default is_string negb from_option id] in H.
  assert (is_str (Jstr d) "dirty" || is_str (Jstr d) "unknown" = true) as E.
  { simpl. by rewrite orb_true_iff, !bool_decide_eq_true. }
  rewrite E in H. injection H as H. rewrite !app_nil, push_if_nil in H.
  destruct H as [[H1 H2] _]. split.
  - intros E'. by rewrite E' in H1.
  - rewrite !push_if_nil, !negb_false_iff, !array_includes_own in H2. destruct H2 as ((l & Hl & ?) & (l1 & Hl1 & ?) & (l2 & Hl2 & ?) & _).
    rewrite Hl in Hl1, Hl2. injection Hl1 as <-. injection Hl2 as <-. exists l. split; [|done].
    destruct (own ev "forbiddenActions") as [v|]; simpl in Hl; congruence.
Qed.

Lemma completion_sound ev : validateCompletion (Jobj ev) = Ok [] -> completion_backed ev.
Proof.
  unfold validateCompletion, completion_backed. cbn [truthy negb get outcome_bind get_opt].
  intros [= H]. rewrite !app_nil, !push_if_nil in H.
  destruct H as (H1 & H2 & H3 & H4). rewrite negb_false_iff in H1.
  rewrite andb_false_iff, !negb_false_iff in H2. split_and!; [done|done| |].
  - destruct (own ev "requiredValidationReceiptIds") as [[| | | | |[|id ids]|]|]; try done.
    by exists id, ids.
  - intros b bs E. by rewrite E in H4.
Qed.

Lemma is_num_eqb v x : is_num v x = true <-> exists y, v = Jnum y /\ num_eqb y x = true.
Proof. destruct v; simpl; naive_solver. Qed.

Lemma is_str_eq v s : is_str v s = true <-> v = Jstr s.
Proof. destruct v; simpl; rewrite ?bool_decide_eq_true; naive_solver. Qed.

(** Accepted families, with what their evidence is checked for. *)
Lemma family_accepted fs f :
  own fs "family" = Some (Jstr f) -> validateFamily (Jobj fs) = Ok [] ->
  exists fam, f = family_name fam.
Proof.
  intros Hf. unfold validateFamily. cbn [get outcome_bind]. rewrite Hf.
  cbn [from_option id is_str to_string outcome_bind].
  repeat (case_bool_decide; [subst; intros _; first
    [by exists F_vanish|by exists F_prompt_acceptance|by exists F_validation|by exists F_completion
    |by exists F_review_verdict|by exists F_review_failure|by exists F_phase_rollup]|]).
  done.
Qed.

Lemma validateFamily_own fs f ev :
  own fs "family" = Some (Jstr (family_name f)) -> own fs "evidence" = Some ev ->
  validateFamily (Jobj fs) =
    match f with
    | F_vanish => validateVanish ev
    | F_prompt_acceptance => validatePromptAcceptance ev
    | F_validation => validateValidation ev
    | F_completion => validateCompletion ev
    | F_review_verdict => validateReviewVerdict ev
    | F_review_failure => validateReviewFailure ev
    | F_phase_rollup => validatePhaseRollup ev
    end.
Proof. intros Hf He. unfold validateFamily. simpl. rewrite Hf, He. by destruct f. Qed.

Lemma read_back_without fs k :
  numbers_read_back (Jobj fs) = true -> numbers_read_back (Jobj (without fs k)) = true.
Proof.
  cbn [numbers_read_back]. rewrite !forallb_Forall, !Forall_forall. intros H p Hp.
  apply H. by apply list_elem_of_filter in Hp as [_ Hp].
Qed.

(** ** Conversions that cannot fail *)

(** No object inside hides [toString]. *)
Fixpoint converts (v : js) : bool :=
  match v with
  | Jarr l => forallb converts l
  | Jobj fs => bool_decide (own fs "toString" = None) && forallb (fun p => converts p.2) fs
  | _ => true
  end.

(** A computation that returns. *)
Definition returns {A} (m : result A) : Prop := exists a, m = Ok a.

Lemma returns_Ok {A} (a : A) : returns (Ok a).
Proof. by exists a. Qed.

Lemma returns_bind {A B} (m : result A) (k : A -> result B) :
  returns m -> (forall a, m = Ok a -> returns (k a)) -> returns (outcome_bind m k).
Proof. intros [a ->] H. by apply H. Qed.

Lemma returns_if {A} (b : bool) (m n : result A) :
  (b = true -> returns m) -> (b = false -> returns n) -> returns (if b then m else n).
Proof. destruct b; auto. Qed.

Lemma returns_get v k : truthy v = true -> returns (get v k).
Proof. intros H. rewrite get_truthy by done. apply returns_Ok. Qed.

#[local] Hint Resolve returns_Ok returns_get : gjc.

Lemma converts_own fs k v : converts (Jobj fs) = true -> own fs k = Some v -> converts v = true.
Proof.
  cbn [converts]. rewrite andb_true_iff, forallb_Forall, Forall_forall. intros [_ H] Hk.
  apply own_Some_elem in Hk. by apply (H (k, v)).
Qed.

Lemma converts_get v k w : converts v = true -> get v k = Ok w -> converts w = true.
Proof.
  intros Hv Hk. destruct v; simpl in Hk; simplify_eq; try done.
  destruct (own fields k) eqn:E; [|done]. by eapply converts_own.
Qed.

(** A property read from a value that converts does. *)
Ltac converting := eapply converts_get; [|eassumption]; done.

Lemma returns_sequence {A} (l : list (result A)) : Forall returns l -> returns (sequence l).
Proof.
  induction 1 as [|m l Hm Hl IH]; simpl; [apply returns_Ok|].
  apply returns_bind; [done|]. intros a _. apply returns_bind; [done|]. auto with gjc.
Qed.

Lemma returns_to_string v : converts v = true -> returns (to_string v).
Proof.
  induction v as [| |b|x|s|l IH|fs IH] using js_nested_ind; intros H; try apply returns_Ok.
  - cbn [to_string converts] in *. apply returns_bind; [|auto with gjc]. apply returns_sequence.
    apply forallb_Forall in H. rewrite Forall_fmap, Forall_forall in *. intros x Hx. simpl.
    specialize (IH x Hx (H x Hx)). by destruct x; try apply returns_Ok.
  - cbn [to_string converts] in *. apply andb_true_iff in H as [H _].
    apply bool_decide_eq_true in H. rewrite H. apply returns_Ok.
Qed.

Lemma returns_to_primitive v : converts v = true -> returns (to_primitive v).
Proof.
  intros H. pose proof (returns_to_string v H).
  destruct v; simpl; try apply returns_Ok; (apply returns_bind; [done|auto with gjc]).
Qed.

Lemma returns_js_gt a b : converts a = true -> converts b = true -> returns (js_gt a b).
Proof.
  intros. unfold js_gt. apply returns_bind; [by apply returns_to_primitive|]. intros.
  apply returns_bind; [by apply returns_to_primitive|]. auto with gjc.
Qed.

Lemma returns_reconcile v x : converts v = true -> returns (numbersReconcile v x).
Proof.
  intros Hv. unfold numbersReconcile.
  assert (forall y, returns (let* z := to_number v in
    Ok (num_leb (num_abs (num_sub z y)) tolerance))%js).
  { intros y. apply returns_bind; [|auto with gjc]. unfold to_number.
    apply returns_bind; [by apply returns_to_primitive|auto with gjc]. }
  destruct v, x; auto with gjc.
Qed.

(** Prove that a validator returns: walk its binds and branches. *)
Ltac walk :=
  repeat match goal with
  | |- returns (Ok _) => apply returns_Ok
  | |- returns (if ?b then _ else _) => apply returns_if; intros ?
  | |- returns (outcome_bind (get ?v ?k) _) => apply returns_bind; [apply returns_get|intros ? ?]
  | H : negb ?b = false |- _ => apply negb_false_iff in H
  end; try done.

Lemma returns_rollup_child t c : converts c = true -> returns (rollup_child t c).
Proof.
  intros Hc. unfold rollup_child. walk. destruct a as [| | | |[|x id]| |]; try apply returns_Ok. walk.
  apply returns_bind; [|intros ? _; walk].
  assert (converts a2 = true) by converting.
  unfold bad_output_hash. destruct a2; try apply returns_Ok;
    (apply returns_bind; [by apply returns_to_string|auto with gjc]).
Qed.

Lemma returns_rollup_children t cs :
  forallb converts cs = true -> returns (rollup_children t cs).
Proof.
  revert t. induction cs as [|c cs IH]; intros t H; simpl; [apply returns_Ok|].
  simpl in H. apply andb_true_iff in H as [Hc Hcs].
  apply returns_bind; [by apply returns_rollup_child|]. intros p _.
  apply returns_bind; [by apply IH|auto with gjc].
Qed.

Lemma returns_phase_rollup e : converts e = true -> returns (validatePhaseRollup e).
Proof.
  intros He. unfold validatePhaseRollup. walk.
  assert (converts a0 = true) as Ha by converting.
  destruct a0 as [| | | | |[|c cs]|]; try apply returns_Ok.
  apply returns_bind; [by apply returns_rollup_children|]. intros p _. walk.
  apply returns_bind; [|auto with gjc].
  assert (converts a0 = true) by converting.
  unfold rollup_aggregate. walk.
  apply returns_bind; [apply returns_reconcile; converting|]. intros ? _.
  apply returns_bind; [apply returns_reconcile; converting|]. intros ? _. walk.
Qed.

Lemma returns_family fs : converts (Jobj fs) = true -> returns (validateFamily (Jobj fs)).
Proof.
  intros H. unfold validateFamily.
  apply returns_bind; [apply returns_Ok|intros f Hf].
  apply returns_bind; [apply returns_Ok|intros e He].
  assert (converts f = true) by converting.
  assert (converts e = true) by converting.
  apply returns_if; intros _; [unfold validateVanish; walk|].
  apply returns_if; intros _.
  { unfold validatePromptAcceptance. walk. apply returns_bind; [|auto with gjc].
    apply returns_js_gt; converting. }
  apply returns_if; intros _; [unfold validateValidation; walk|].
  apply returns_if; intros _; [unfold validateCompletion; walk|].
  apply returns_if; intros _; [unfold validateReviewVerdict; walk|].
  apply returns_if; intros _; [unfold validateReviewFailure; walk|].
  apply returns_if; intros _; [by apply returns_phase_rollup|].
  apply returns_bind; [by apply returns_to_string|auto with gjc].
Qed.

Section receipt_theorems.
Context (sha256Hex : string -> string).

Notation valid r := (validateReceipt sha256Hex r = Ok {| outcome_valid := true; reasons := [] |}).

Lemma valid_inv r rs :
  validateReceipt sha256Hex r = Ok {| outcome_valid := true; reasons := rs |} ->
  exists fs, r = Jobj fs /\ rs = [] /\ validateStructure r = Ok [] /\
    own fs "sha256" = Some (Jstr (sha256Hex (hashBasis (without fs "sha256")))) /\
    (exists x, own fs "schemaVersion" = Some (Jnum x) /\ num_eqb x RECEIPT_SCHEMA_VERSION = true) /\
    validateFamily r = Ok [].
Proof.
  destruct r as [| | | | | |fs]; try done. intros H. exists fs. split; [done|].
  unfold validateReceipt in H. destruct (structure_total fs) as [st Hst].
  rewrite Hst in H. cbn [outcome_bind get] in H.
  destruct (validateFamily (Jobj fs)) as [fr|] eqn:Ef; [|done]. cbn [outcome_bind] in H.
  injection H as Hb Hr. apply bool_decide_eq_true in Hb. rewrite Hb in Hr.
  rewrite !app_nil, !push_if_nil, !negb_false_iff, is_str_eq, is_num_eqb in Hb.
  destruct Hb as (-> & Hh & (x & Hx & Hxe) & ->). split_and!; try done.
  - destruct (own fs "sha256"); simpl in Hh; congruence.
  - exists x. split; [|done]. destruct (own fs "schemaVersion"); simpl in Hx; congruence.
Qed.


(** Tamper evidence: two accepted receipts with the same hash carry the
    same data in every field, however their keys are ordered, unless they
    exhibit a SHA-256 collision. *)
Theorem receipts_tamper_evident (fs fs' : list (string * js)) (h : js) :
  validateReceipt sha256Hex (Jobj fs) = Ok {| outcome_valid := true; reasons := [] |} ->
  validateReceipt sha256Hex (Jobj fs') = Ok {| outcome_valid := true; reasons := [] |} ->
  own fs "sha256" = Some h -> own fs' "sha256" = Some h ->
  numbers_read_back (Jobj fs) = true -> numbers_read_back (Jobj fs') = true ->
  (forall k, k <> "sha256" -> data <$> own fs k = data <$> own fs' k) \/
  (exists a b, a <> b /\ sha256Hex a = sha256Hex b).
Proof.
  intros Hv Hv' Hh Hh' Hn Hn'.
  apply valid_inv in Hv as (? & [= <-] & _ & _ & Hs & _), Hv' as (? & [= <-] & _ & _ & Hs' & _).
  rewrite Hh in Hs. rewrite Hh' in Hs'. injection Hs as ->. injection Hs' as Hs'.
  unfold hashBasis in Hs'.
  destruct (decide (canonicalJson (Jobj (without fs "sha256")) =
    canonicalJson (Jobj (without fs' "sha256")))) as [E|E]; [left|right; by eauto].
  rewrite !canonical_flat in E. apply flat_inj in E; [|by apply data_plain, read_back_without..].
  cbn [data] in E. injection E as E. intros k Hk.
  rewrite <- (own_without_ne fs k _ Hk), <- (own_without_ne fs' k _ Hk).
  by rewrite <- !own_fmap, <- own_sorted_fields, E, own_sorted_fields.
Qed.

(** The identity a builder's caller supplies. *)
Definition identified_input (i : BuildReceiptInput) : Prop :=
  in_receiptId i <> EmptyString /\ in_sessionId i <> EmptyString /\
  in_source i <> EmptyString /\ in_createdAt i <> EmptyString /\
  workspace (in_subject i) <> EmptyString.

Lemma build_valid i ev :
  identified_input i -> in_evidence i = Jobj ev ->
  validateFamily (buildReceipt sha256Hex i) = Ok [] -> valid (buildReceipt sha256Hex i).
Proof.
  intros (H1 & H2 & H3 & H4 & H5) Hev Hfam.
  set (base := receipt_base i). set (h := sha256Hex (hashBasis base)).
  assert (Hb : buildReceipt sha256Hex i = Jobj (base ++ [("sha256", Jstr h)])) by done.
  assert (Hrest : without (base ++ [("sha256", Jstr h)]) "sha256" = base) by done.
  rewrite Hb in *. unfold validateReceipt. rewrite Hrest, Hfam.
  assert (validateStructure (Jobj (base ++ [("sha256", Jstr h)])) = Ok []) as ->.
  { apply structure_exact. split; [|by eexists]. unfold identified.
    rewrite !Forall_cons, Forall_nil. split_and!; try done; try (by eexists).
    - exists (family_name (in_family i)). split; [done|]. by destruct (in_family i).
    - eexists _, _. done.
    - exists ev. simpl. by rewrite Hev. }
  assert (is_str (Jstr h) (sha256Hex (hashBasis base)) = true) as Hs by by apply is_str_eq.
  change (get (Jobj (base ++ [("sha256", Jstr h)])) "sha256") with (Ok (E := unit) (Jstr h)).
  change (get (Jobj (base ++ [("sha256", Jstr h)])) "schemaVersion")
    with (Ok (E := unit) (Jnum RECEIPT_SCHEMA_VERSION)).
  cbn [outcome_bind]. by rewrite Hs.
Qed.

(** What is built is accepted: a receipt built with non-empty identity
    fields, marked valid or not, over evidence that passes the checks of its
    family, is valid, and its fields are the ones given. *)
Theorem built_receipt_valid (i : BuildReceiptInput) (ev : list (string * js)) :
  identified_input i -> in_evidence i = Jobj ev ->
  validateFamily (buildReceipt sha256Hex i) = Ok [] ->
  valid (buildReceipt sha256Hex i) /\
  forall k v, own (receipt_base i) k = Some v -> get (buildReceipt sha256Hex i) k = Ok v.
Proof.
  intros Hi Hev Hfam. split; [by eapply build_valid|]. intros k v Hk.
  set (h := sha256Hex (hashBasis (receipt_base i))).
  change (buildReceipt sha256Hex i) with (Jobj (receipt_base i ++ [("sha256", Jstr h)])). simpl.
  destruct (decide (k = "sha256")) as [->|Hne]; [done|].
  change (receipt_base i) with (without (receipt_base i ++ [("sha256", Jstr h)]) "sha256") in Hk.
  rewrite own_without_ne in Hk by done. simpl in Hk. by rewrite Hk.
Qed.

Lemma validate_outcome r o : validateReceipt sha256Hex r = Ok o ->
  outcome_valid o = true <-> reasons o = [].
Proof.
  destruct r as [| | | | | |fs]; try (by intros [= <-]).
  unfold validateReceipt. destruct (structure_total fs) as [st ->]. cbn [outcome_bind get].
  destruct (validateFamily (Jobj fs)); [|done]. cbn [outcome_bind]. intros [= <-]. simpl.
  by rewrite bool_decide_eq_true.
Qed.

Lemma returns_validate r : converts r = true ->
  exists o, validateReceipt sha256Hex r = Ok o /\ (outcome_valid o = true <-> reasons o = []).
Proof.
  intros H. destruct r as [| | | | | |fs]; try (eexists; split; [done|]; done).
  destruct (returns_family fs H) as [fr Hfr].
  assert (exists o, validateReceipt sha256Hex (Jobj fs) = Ok o) as [o Ho].
  { unfold validateReceipt. destruct (structure_total fs) as [st ->]. rewrite Hfr. by eexists. }
  exists o. split; [done|]. by apply validate_outcome with (Jobj fs).
Qed.

(** Totality: validation returns an outcome, with reasons exactly when it
    is not valid, on every value in which no object has a [toString] property
    of its own - the primitives, arrays and [undefined] included.  The
    condition is needed: the envelope [{"family": {"toString": null}}] makes
    the validator raise a [TypeError] instead of failing closed. *)
Theorem validate_total (r : js) :
  (converts r = true ->
   exists o, validateReceipt sha256Hex r = Ok o /\ (outcome_valid o = true <-> reasons o = [])) /\
  validateReceipt sha256Hex (Jobj [("family", Jobj [("toString", Jnull)])]) = Throw tt.
Proof. split; [apply returns_validate|done]. Qed.
End receipt_theorems.

(** A [vanish] receipt over a dirty worktree, with the identity as hash. *)
Definition demo_evidence : list (string * js) :=
  [("classification", Jstr "restart-preserve-delta"); ("gitDelta", Jstr "dirty");
   ("preservation", Jstr "stash"); ("stashRef", Jstr "abc"); ("snapshotComplete", Jbool true);
   ("forbiddenActions", Jarr [Jstr "restart-clean"; Jstr "delete"; Jstr "reset"])].

Definition demo_input : BuildReceiptInput := {|
  in_receiptId := "vanish-1"; in_sessionId := "s1"; in_family := F_vanish; in_source := "operate";
  in_subject := {| workspace := "/w"; branch := Some "main"; head := None; commit := None |};
  in_evidence := Jobj demo_evidence; in_artifactHashes := None; in_createdAt := "2026-01-01";
  in_valid := None |}.

Definition demo_hash (s : string) : string := s.

Definition demo_fields : list (string * js) :=
  receipt_base demo_input
  ++ [("sha256", Jstr (hashBasis (receipt_base demo_input)))].

Lemma demo_valid :
  validateReceipt demo_hash (Jobj demo_fields) = Ok {| outcome_valid := true; reasons := [] |}.
Proof. vm_compute. reflexivity. Qed.

Lemma demo_valid_reordered :
  validateReceipt demo_hash (Jobj (reverse demo_fields))
    = Ok {| outcome_valid := true; reasons := [] |}.
Proof. vm_compute. reflexivity. Qed.


Lemma receipts_tamper_evident_witness :
  (forall k, k <> "sha256" -> data <$> own demo_fields k = data <$> own (reverse demo_fields) k) \/
  (exists a b, a <> b /\ demo_hash a = demo_hash b).
Proof.
  apply (receipts_tamper_evident demo_hash demo_fields (reverse demo_fields)
    (Jstr (hashBasis (receipt_base demo_input))));
    first [apply demo_valid|apply demo_valid_reordered|vm_compute; reflexivity].
Defined.

Lemma built_receipt_valid_witness :
  validateReceipt demo_hash (buildReceipt demo_hash demo_input)
    = Ok {| outcome_valid := true; reasons := [] |} /\
  forall k v, own (receipt_base demo_input) k = Some v ->
    get (buildReceipt demo_hash demo_input) k = Ok v.
Proof.
  apply (built_receipt_valid demo_hash demo_input demo_evidence);
    [split_and!; discriminate|reflexivity|vm_compute; reflexivity].
Defined.
