(* ===== verification/PhaseRollup.v ===== *)
(** * Phase rollups ([harness-control-plane/phase-rollup.ts])

    The builder of receipt-of-receipts: one pointer per child task receipt and
    the aggregate that the validator of [Receipts.v] recomputes.  A task
    receipt ([task/receipt.ts]) is the fields the builder reads together with
    the whole receipt as a JavaScript value, which is what gets hashed. *)

From Stdlib Require Import SpecFloat.
From S2P Require Import Prelude HarnessTypes JsNumber JsValue CanonicalJson Receipts.

Local Open Scope Z_scope.

Inductive task_status := T_completed | T_failed | T_aborted | T_merge_failed | T_paused.

#[export] Instance task_status_eq_dec : EqDecision task_status.
Proof. solve_decision. Defined.

Definition status_name (s : task_status) : string :=
  match s with
  | T_completed => "completed" | T_failed => "failed" | T_aborted => "aborted"
  | T_merge_failed => "merge_failed" | T_paused => "paused"
  end.

Record TaskRoi := {
  roi_tokens : number;
  roi_clonedTokens : option number;
  roi_costTotal : option number;
  roi_lowRoi : bool
}.

Record TaskResultReceipt := {
  task_id : string;
  task_status_of : task_status;
  task_tokens : number;
  outputRef : option (string * option string);
  roi : option TaskRoi;
  as_value : js
}.

Record PhaseRollupChildPointer := {
  p_id : string;
  p_status : task_status;
  p_outputUri : option string;
  p_outputSha256 : option string;
  p_receiptSha256 : string;
  p_tokens : number;
  p_costTotal : option number;
  p_clonedTokens : option number;
  p_lowRoi : bool
}.

Definition js_number (o : option number) : js :=
  match o with Some x => Jnum x | None => Jnull end.

(** The pointer as the evidence holds it. *)
Definition pointer_js (p : PhaseRollupChildPointer) : js :=
  Jobj [("id", Jstr (p_id p)); ("status", Jstr (status_name (p_status p)));
        ("outputUri", js_nullable (p_outputUri p));
        ("outputSha256", js_nullable (p_outputSha256 p));
        ("receiptSha256", Jstr (p_receiptSha256 p)); ("tokens", Jnum (p_tokens p));
        ("costTotal", js_number (p_costTotal p)); ("clonedTokens", js_number (p_clonedTokens p));
        ("lowRoi", Jbool (p_lowRoi p))].

Definition is_undefined (v : js) : bool := match v with Jundefined => true | _ => false end.

(** [JSON.parse(JSON.stringify(v))]: properties that are [undefined] are
    dropped, other values JSON cannot express become [null]. *)
Fixpoint json_clone (v : js) : js :=
  match v with
  | Jundefined => Jnull
  | Jnum x => norm_number x
  | Jarr l => Jarr (json_clone <$> l)
  | Jobj fs =>
      Jobj (omap (fun p => if is_undefined p.2 then None else Some (p.1, json_clone p.2)) fs)
  | _ => v
  end.

(** [child.roi?.tokens ?? child.tokens] and the other per-child metrics. *)
Definition child_tokens (r : TaskResultReceipt) : number :=
  match roi r with Some i => roi_tokens i | None => task_tokens r end.
Definition child_cost (r : TaskResultReceipt) : option number := i ← roi r; roi_costTotal i.
Definition child_cloned (r : TaskResultReceipt) : option number := i ← roi r; roi_clonedTokens i.
Definition child_lowRoi (r : TaskResultReceipt) : bool :=
  match roi r with Some i => roi_lowRoi i | None => false end.

(** A URI and a hash that are both present and non-empty. *)
Definition verifiable_ref (r : TaskResultReceipt) : option (string * string) :=
  match outputRef r with
  | Some (uri, Some h) =>
      if decide (uri <> EmptyString /\ h <> EmptyString) then Some (uri, h) else None
  | _ => None
  end.

(** [reduce((total, x) => total + x, 0)] *)
Definition total (xs : list number) : number := foldl num_add num_zero xs.

Definition count {A} (p : A -> bool) (l : list A) : Z :=
  Z.of_nat (length (filter (fun x => p x = true) l)).

Section rollup.
Context (sha256Hex : string -> string).

Definition childPointer (r : TaskResultReceipt) : PhaseRollupChildPointer :=
  let ref := verifiable_ref r in
  {| p_id := task_id r;
     p_status := task_status_of r;
     p_outputUri := fst <$> ref;
     p_outputSha256 := snd <$> ref;
     p_receiptSha256 := sha256Hex (canonicalJson (json_clone (as_value r)));
     p_tokens := child_tokens r;
     p_costTotal := child_cost r;
     p_clonedTokens := child_cloned r;
     p_lowRoi := child_lowRoi r |}.

Record BuildPhaseRollupInput := {
  pr_receiptId : string;
  pr_sessionId : string;
  pr_source : string;
  pr_subject : ReceiptSubject;
  pr_phase : string;
  pr_children : list TaskResultReceipt;
  pr_createdAt : string
}.

(** A total that is [null] when no child reported the metric. *)
Definition optional_total (xs : list (option number)) : option number :=
  if decide (Exists is_Some xs) then Some (total (default num_zero <$> xs)) else None.

Definition is_completed (r : TaskResultReceipt) : bool := bool_decide (task_status_of r = T_completed).
Definition is_failed (r : TaskResultReceipt) : bool :=
  bool_decide (task_status_of r = T_failed) || bool_decide (task_status_of r = T_merge_failed).

Definition aggregate_js (children : list TaskResultReceipt) : js :=
  Jobj [("childCount", Jnum (num_of_Z (Z.of_nat (length children))));
        ("completed", Jnum (num_of_Z (count is_completed children)));
        ("failed", Jnum (num_of_Z (count is_failed children)));
        ("totalTokens", Jnum (total (child_tokens <$> children)));
        ("totalCostTotal", js_number (optional_total (child_cost <$> children)));
        ("totalClonedTokens", js_number (optional_total (child_cloned <$> children)));
        ("lowRoiChildIds",
          Jarr ((Jstr ∘ task_id) <$> filter (fun c => child_lowRoi c = true) children))].

Definition rollup_evidence (i : BuildPhaseRollupInput) : js :=
  Jobj [("phase", Jstr (pr_phase i));
        ("children", Jarr ((pointer_js ∘ childPointer) <$> pr_children i));
        ("aggregate", aggregate_js (pr_children i))].

Definition buildPhaseRollupReceipt (i : BuildPhaseRollupInput) : js :=
  buildReceipt sha256Hex {|
    in_receiptId := pr_receiptId i; in_sessionId := pr_sessionId i; in_family := F_phase_rollup;
    in_source := pr_source i; in_subject := pr_subject i; in_evidence := rollup_evidence i;
    in_artifactHashes := None; in_createdAt := pr_createdAt i; in_valid := None |}.
End rollup.

(** ** Arithmetic of non-negative numbers *)

(** Neither [NaN] nor signed. *)
Definition nonneg (x : number) : bool :=
  match x with
  | S754_zero s | S754_infinity s | S754_finite s _ _ => negb s
  | S754_nan => false
  end.

Lemma num_eqb_refl x : is_finite x = true -> num_eqb x x = true.
Proof.
  destruct x as [[]| | |[] m e]; try done; intros _; unfold num_eqb, SFeqb; simpl;
    by rewrite ?Z.compare_refl, Pos.compare_refl.
Qed.

Lemma iter_pos_invariant {A} (P : A -> Prop) (f : A -> A) n x :
  P x -> (forall y, P y -> P (f y)) -> P (SpecFloat.iter_pos f n x).
Proof. revert x. induction n as [n IH|n IH|]; simpl; auto. Qed.

Lemma shr_nonneg mrs e n : 0 <= shr_m mrs -> 0 <= shr_m (shr mrs e n).1.
Proof.
  intros H. destruct n as [|p|p]; try done. simpl.
  apply (iter_pos_invariant (fun r => 0 <= shr_m r)); [done|].
  intros [m r s] Hm. simpl in *. destruct m as [|[m|m|]|[m|m|]]; simpl; lia.
Qed.

Lemma round_nonneg m e l : 0 <= m -> nonneg (binary_round_aux prec emax false m e l) = true.
Proof.
  intros Hm. unfold binary_round_aux, shr_fexp.
  assert (0 <= shr_m (shr_record_of_loc m l)) as H1 by by destruct l as [|[]].
  pose proof (shr_nonneg _ e (fexp prec emax (Zdigits2 m + e) - e) H1) as H2.
  destruct (shr _ _ _) as [mrs1 e1]. simpl in H2.
  assert (0 <= round_nearest_even (shr_m mrs1) (loc_of_shr_record mrs1)) as H3.
  { unfold round_nearest_even. destruct (loc_of_shr_record mrs1) as [|[]]; try lia.
    destruct (Z.even _); lia. }
  set (m1 := round_nearest_even _ _) in *.
  pose proof (shr_nonneg (shr_record_of_loc m1 loc_Exact) e1
    (fexp prec emax (Zdigits2 m1 + e1) - e1) H3) as H4.
  destruct (shr _ _ _) as [mrs2 e2]. simpl in H4.
  destruct (shr_m mrs2); try done. by destruct (e2 <=? _).
Qed.

Lemma normalize_nonneg m e : 0 <= m -> nonneg (binary_normalize prec emax m e false) = true.
Proof.
  intros Hm. destruct m as [|p|p]; [done| |lia]. unfold binary_normalize, binary_round.
  destruct (shl_align _ _ _). apply round_nonneg. lia.
Qed.

(** A number a child may report: finite and not below zero. *)
Notation reported x := (bad_number (Jnum x) = false).

Lemma reported_cases x : reported x -> (exists s, x = S754_zero s) \/ (exists m e, x = S754_finite false m e).
Proof. destruct x as [s|s| |[] m e]; try done; [by left; exists s|]. right. by exists m, e. Qed.

Lemma num_add_nonneg x y : nonneg x = true -> reported y -> nonneg (num_add x y) = true.
Proof.
  intros Hx Hy. destruct (reported_cases y Hy) as [[s ->]|(m & e & ->)];
    destruct x as [[]|[]| |[] m' e']; try done; [by destruct s|].
  apply normalize_nonneg. simpl. lia.
Qed.

Lemma num_add_zero x s : nonneg x = true -> num_add x (S754_zero s) = x.
Proof. by destruct x as [[]|[]| |[] m e], s. Qed.

Lemma num_sub_diag x : is_finite x = true -> nonneg x = true ->
  num_leb (num_abs (num_sub x x)) tolerance = true.
Proof.
  destruct x as [[]|[]| |[] m e]; try done. intros _ _.
  unfold num_sub, SFsub. rewrite Z.sub_diag. done.
Qed.

(** Integers below [2 ^ 53] are numbers. *)
Lemma digits2_size p : digits2_pos p = Pos.size p.
Proof. induction p; simpl; by f_equal. Qed.

Lemma digits2_iter_xO p k : digits2_pos (Pos.iter xO p k) = (digits2_pos p + k)%positive.
Proof.
  induction k as [|k IH] using Pos.peano_ind; [simpl; lia|].
  rewrite Pos.iter_succ. simpl. rewrite IH. lia.
Qed.

Lemma num_of_Z_finite n : 0 <= n < 2 ^ 53 -> is_finite (num_of_Z n) = true.
Proof.
  intros Hn. destruct n as [|p|p]; [done| |lia].
  assert (Z.pos (digits2_pos p) <= 53) as Hd.
  { rewrite digits2_size. pose proof (Pos.size_le p) as H.
    apply Pos2Z.pos_le_pos in H. rewrite Pos2Z.inj_pow in H.
    assert (Z.pos (Pos.size p) < 54); [|lia]. apply (Z.pow_lt_mono_r_iff 2); lia. }
  unfold num_of_Z, binary_normalize, binary_round.
  assert (exists m e, shl_align p 0 (fexp prec emax (Z.pos (digits2_pos p) + 0)) = (m, e) /\
    e = Z.pos (digits2_pos p) - 53 /\ Z.pos (digits2_pos m) + e = Z.pos (digits2_pos p))
    as (m & e & -> & He & Hm).
  { unfold fexp, shl_align. rewrite Z.add_0_r, Z.sub_0_r, Z.max_l
      by (unfold SpecFloat.emin, prec, emax; lia).
    unfold prec at 1 2. destruct (Z.pos (digits2_pos p) - 53) as [|k|k] eqn:E; [| lia |].
    - exists p, 0. split; [done|lia].
    - eexists _, _. split; [done|]. rewrite digits2_iter_xO. lia. }
  unfold binary_round_aux, shr_fexp. simpl. rewrite Hm.
  assert (fexp prec emax (Z.pos (digits2_pos p)) - e = 0) as ->.
  { unfold fexp, SpecFloat.emin, prec, emax. lia. }
  simpl. rewrite Hm.
  assert (fexp prec emax (Z.pos (digits2_pos p)) - e = 0) as ->.
  { unfold fexp, SpecFloat.emin, prec, emax. lia. }
  simpl. unfold prec, emax. destruct (e <=? _) eqn:E; [done|]. lia.
Qed.

Lemma num_of_Z_reported n : 0 <= n < 2 ^ 53 -> reported (num_of_Z n).
Proof.
  intros Hn. pose proof (num_of_Z_finite n Hn) as Hf.
  assert (nonneg (num_of_Z n) = true) as Hp by (apply normalize_nonneg; lia).
  by destruct (num_of_Z n) as [[]|[]| |[] m e].
Qed.

(** ** The validator replays the builder's sums *)

Definition addend (o : option number) : Prop :=
  match o with Some x => reported x | None => True end.

(** The validator's running total of an optional metric. *)
Definition add_opt (o x : option number) : option number :=
  match x with Some x => Some (num_add (default num_zero o) x) | None => o end.

Lemma foldl_add_opt xs o :
  Forall addend xs -> nonneg (default num_zero o) = true ->
  default num_zero (foldl add_opt o xs) = foldl num_add (default num_zero o) (default num_zero <$> xs) /\
  (is_Some (foldl add_opt o xs) <-> is_Some o \/ Exists is_Some xs).
Proof.
  intros Hx. revert o. induction Hx as [|x xs Hx Hxs IH]; intros o Ho; simpl.
  - split; [done|]. rewrite Exists_nil. naive_solver.
  - destruct x as [x|]; simpl.
    + destruct (IH (Some (num_add (default num_zero o) x))) as [E1 E2]; [by apply num_add_nonneg|].
      split; [done|]. rewrite E2, Exists_cons. naive_solver.
    + destruct (IH o Ho) as [E1 E2]. split.
      { rewrite E1. f_equal. symmetry. by apply num_add_zero. }
      rewrite E2, Exists_cons. split; [tauto|]. intros [H|[[y H]|H]]; [by left|done|by right].
Qed.

Lemma foldl_optional_total xs : Forall addend xs -> foldl add_opt None xs = optional_total xs.
Proof.
  intros Hx. destruct (foldl_add_opt xs None Hx eq_refl) as [E1 E2]. unfold optional_total, total.
  cbn [from_option] in E1. rewrite <- E1. case_decide as H.
  - assert (is_Some (foldl add_opt None xs)) as [y ->] by (apply E2; by right). done.
  - destruct (foldl add_opt None xs) eqn:E; [|done]. exfalso. apply H.
    destruct E2 as [[[? ?]|?] _]; done.
Qed.

Lemma total_nonneg xs x : nonneg x = true -> Forall (fun y => reported y) xs ->
  nonneg (foldl num_add x xs) = true.
Proof.
  intros Hx Hxs. revert x Hx. induction Hxs as [|y xs Hy _ IH]; intros x Hx; [done|].
  apply IH. by apply num_add_nonneg.
Qed.

Section validation.
Context (sha256Hex : string -> string).
Context (Hsha : forall s, SHA256_HEX (sha256Hex s) = true).

(** A child whose receipt is well formed: it has an id, its metrics are finite
    and not negative, and a pointer with both parts carries a real hash. *)
Definition well_formed_child (r : TaskResultReceipt) : Prop :=
  task_id r <> EmptyString /\ reported (child_tokens r) /\ addend (child_cost r) /\
  addend (child_cloned r) /\
  match verifiable_ref r with Some (_, h) => SHA256_HEX h = true | None => True end.

Definition step (t : tally) (r : TaskResultReceipt) : tally := {|
  seenIds := {[task_id r]} ∪ seenIds t;
  completedFromChildren := completedFromChildren t + (if is_completed r then 1 else 0);
  failedFromChildren := failedFromChildren t + (if is_failed r then 1 else 0);
  tokensFromChildren := num_add (tokensFromChildren t) (child_tokens r);
  costFromChildren := add_opt (costFromChildren t) (child_cost r);
  clonedFromChildren := add_opt (clonedFromChildren t) (child_cloned r);
  lowRoiFromChildren :=
    if child_lowRoi r then lowRoiFromChildren t ++ [task_id r] else lowRoiFromChildren t |}.

Lemma optional_metric (o x : option number) :
  addend x ->
  (if bad_number (js_number x) then o else accumulate o (js_number x)) = add_opt o x /\
  negb (is_null (js_number x)) && bad_number (js_number x) = false.
Proof. destruct x as [x|]; simpl; [|done]. intros H. by rewrite H. Qed.

Lemma output_ref_checks r :
  match verifiable_ref r with Some (_, h) => SHA256_HEX h = true | None => True end ->
  let u := js_nullable (fst <$> verifiable_ref r) in
  let h := js_nullable (snd <$> verifiable_ref r) in
  bad_output_hash h = Ok false /\ negb (is_null u) && negb (isNonEmptyString u) = false /\
  negb (is_null h) && is_null u = false /\ negb (is_null u) && is_null h = false.
Proof.
  unfold verifiable_ref. destruct (outputRef r) as [[uri [h|]]|]; try done.
  case_decide as Hd; [|done]. intros Hh. simpl. rewrite Hh. split_and!; try done.
  destruct uri; [by destruct Hd|]. done.
Qed.

(** What the validator reads back from a pointer. *)
Definition pointer_fields (p : PhaseRollupChildPointer) : child_fields := {|
  cf_status := Jstr (status_name (p_status p)); cf_receiptSha256 := Jstr (p_receiptSha256 p);
  cf_outputUri := js_nullable (p_outputUri p); cf_outputSha256 := js_nullable (p_outputSha256 p);
  cf_tokens := Jnum (p_tokens p); cf_costTotal := js_number (p_costTotal p);
  cf_clonedTokens := js_number (p_clonedTokens p); cf_lowRoi := Jbool (p_lowRoi p) |}.

Lemma rollup_child_pointer t p :
  p_id p <> EmptyString ->
  rollup_child t (pointer_js p) =
    outcome_bind (bad_output_hash (js_nullable (p_outputSha256 p))) (fun bad =>
      Ok (child_tally t (p_id p) (pointer_fields p), child_reasons t (p_id p) (pointer_fields p) bad)).
Proof using. destruct p as [[|a id] ? ? ? ? ? ? ? ?]; [done|]. intros _. reflexivity. Qed.

Lemma rollup_child_step t r :
  well_formed_child r -> task_id r ∉ seenIds t ->
  rollup_child t (pointer_js (childPointer sha256Hex r)) = Ok (step t r, []).
Proof using Hsha.
  intros (Hid & Htok & Hcost & Hcloned & Href) Hseen.
  destruct (output_ref_checks r Href) as (H1 & H2 & H3 & H4).
  destruct (optional_metric (costFromChildren t) (child_cost r) Hcost) as [C1 C2].
  destruct (optional_metric (clonedFromChildren t) (child_cloned r) Hcloned) as [D1 D2].
  rewrite rollup_child_pointer by done. cbn [childPointer p_outputSha256]. rewrite H1.
  cbn [outcome_bind]. do 2 f_equal.
  - unfold child_tally, step. unfold pointer_fields, childPointer.
    cbn [cf_status cf_tokens cf_costTotal cf_clonedTokens cf_lowRoi p_id p_status p_tokens
      p_costTotal p_clonedTokens p_lowRoi]. rewrite Htok, C1, D1.
    unfold is_completed, is_failed. by destruct (task_status_of r), (child_lowRoi r).
  - unfold child_reasons. unfold pointer_fields, childPointer.
    cbn [cf_status cf_receiptSha256 cf_outputUri cf_outputSha256 cf_tokens cf_costTotal
      cf_clonedTokens cf_lowRoi p_id p_status p_outputUri p_outputSha256 p_receiptSha256 p_tokens
      p_costTotal p_clonedTokens p_lowRoi].
    rewrite bool_decide_false by done. rewrite Hsha, H2, H3, H4, Htok, C2, D2.
    by destruct (task_status_of r).
Qed.

Lemma rollup_children_fold t rs :
  Forall well_formed_child rs -> NoDup (task_id <$> rs) ->
  (forall r, r ∈ rs -> task_id r ∉ seenIds t) ->
  rollup_children t ((pointer_js ∘ childPointer sha256Hex) <$> rs) = Ok (foldl step t rs, []).
Proof using Hsha.
  intros Hwf. revert t. induction Hwf as [|r rs Hr _ IH]; intros t Hn Hseen; [done|].
  apply NoDup_cons in Hn as [Hnr Hn]. simpl.
  rewrite rollup_child_step by (done || apply Hseen; by left). simpl.
  rewrite IH; [done|done|]. intros r' Hr'. simpl.
  apply not_elem_of_union. split; [|apply Hseen; by right].
  rewrite not_elem_of_singleton. intros E. apply Hnr. rewrite <- E.
  apply list_elem_of_fmap. by exists r'.
Qed.

Lemma count_cons {A} (p : A -> bool) x l : count p (x :: l) = (if p x then 1 else 0) + count p l.
Proof using.
  unfold count. rewrite filter_cons. destruct (p x); case_decide; try done. simpl. lia.
Qed.

Lemma count_bound {A} (p : A -> bool) l : 0 <= count p l <= Z.of_nat (length l).
Proof using. unfold count. pose proof (length_filter (fun x => p x = true) l). lia. Qed.

(** The totals after the loop. *)
Lemma fold_totals t rs :
  let t' := foldl step t rs in
  completedFromChildren t' = completedFromChildren t + count is_completed rs /\
  failedFromChildren t' = failedFromChildren t + count is_failed rs /\
  tokensFromChildren t' = foldl num_add (tokensFromChildren t) (child_tokens <$> rs) /\
  costFromChildren t' = foldl add_opt (costFromChildren t) (child_cost <$> rs) /\
  clonedFromChildren t' = foldl add_opt (clonedFromChildren t) (child_cloned <$> rs) /\
  lowRoiFromChildren t' =
    lowRoiFromChildren t ++ (task_id <$> filter (fun c => child_lowRoi c = true) rs).
Proof using.
  revert t. induction rs as [|r rs IH]; intros t; simpl.
  - by rewrite !Z.add_0_r, app_nil_r.
  - destruct (IH (step t r)) as (-> & -> & -> & -> & -> & ->). rewrite !count_cons, filter_cons.
    unfold step. simpl. split_and!; try done; try lia.
    destruct (child_lowRoi r); case_decide; try done. simpl. by rewrite <- app_assoc.
Qed.

Lemma reconcile_total xs :
  Forall addend xs ->
  match optional_total xs with Some x => is_finite x = true | None => True end ->
  numbersReconcile (js_number (optional_total xs)) (foldl add_opt None xs) = Ok true /\
  negb (is_null (js_number (optional_total xs))) && bad_number (js_number (optional_total xs)) = false.
Proof using.
  intros Hx Hf. rewrite foldl_optional_total by done.
  destruct (optional_total xs) as [x|] eqn:E; [|done]. simpl.
  assert (nonneg x = true) as Hp.
  { rewrite <- (foldl_optional_total xs Hx) in E.
    destruct (foldl_add_opt xs None Hx eq_refl) as [E1 _]. rewrite E in E1. simpl in E1. rewrite E1.
    apply total_nonneg; [done|]. rewrite Forall_fmap. eapply Forall_impl; [done|].
    by intros [y|]. }
  rewrite num_sub_diag by done. split; [done|]. by destruct x as [[]|[]| |[] m e].
Qed.

Lemma sameIdSet_refl ids : sameIdSet (Jstr <$> ids) ids = true.
Proof using.
  unfold sameIdSet. rewrite length_fmap, bool_decide_true by done. cbn [andb].
  assert (omap (fun v => match v with Jstr s => Some s | _ => None end) (Jstr <$> ids) = ids) as ->.
  { induction ids as [|x ids IH]; [done|]. simpl. f_equal. apply IH. }
  rewrite bool_decide_true by done. rewrite andb_true_r. apply forallb_forall.
  intros v Hv. apply list_elem_of_In, list_elem_of_fmap in Hv as (s & -> & Hs).
  apply bool_decide_eq_true. by apply elem_of_list_to_set.
Qed.

(** The totals the builder writes are numbers JSON can carry. *)
Definition finite_totals (rs : list TaskResultReceipt) : Prop :=
  Z.of_nat (length rs) < 2 ^ 53 /\ is_finite (total (child_tokens <$> rs)) = true /\
  match optional_total (child_cost <$> rs) with Some x => is_finite x = true | None => True end /\
  match optional_total (child_cloned <$> rs) with Some x => is_finite x = true | None => True end.

Lemma is_num_refl x : is_finite x = true -> is_num (Jnum x) x = true.
Proof using. apply num_eqb_refl. Qed.

Definition aggregate_read (rs : list TaskResultReceipt) : aggregate_fields := {|
  ag_childCount := Jnum (num_of_Z (Z.of_nat (length rs)));
  ag_completed := Jnum (num_of_Z (count is_completed rs));
  ag_failed := Jnum (num_of_Z (count is_failed rs));
  ag_totalTokens := Jnum (total (child_tokens <$> rs));
  ag_totalCostTotal := js_number (optional_total (child_cost <$> rs));
  ag_totalClonedTokens := js_number (optional_total (child_cloned <$> rs));
  ag_lowRoiChildIds := Jarr ((Jstr ∘ task_id) <$> filter (fun c => child_lowRoi c = true) rs) |}.

Lemma rollup_aggregate_read n t rs :
  rollup_aggregate n t (aggregate_js rs) =
    outcome_bind (numbersReconcile (ag_totalCostTotal (aggregate_read rs)) (costFromChildren t)) (fun c =>
    outcome_bind (numbersReconcile (ag_totalClonedTokens (aggregate_read rs)) (clonedFromChildren t)) (fun d =>
      Ok (aggregate_reasons n t (aggregate_read rs) c d))).
Proof using. reflexivity. Qed.

Lemma aggregate_valid rs :
  Forall well_formed_child rs -> finite_totals rs ->
  rollup_aggregate (length rs) (foldl step no_tally rs) (aggregate_js rs) = Ok [].
Proof using Hsha.
  intros Hwf (Hlen & Htok & Hcost & Hcloned).
  destruct (fold_totals no_tally rs) as (E1 & E2 & E3 & E4 & E5 & E6).
  simpl in E1, E2, E3, E4, E5, E6.
  assert (Forall addend (child_cost <$> rs) /\ Forall addend (child_cloned <$> rs) /\
    Forall (fun y => reported y) (child_tokens <$> rs)) as (Ha & Hb & Hc).
  { rewrite !Forall_fmap. split_and!; (eapply Forall_impl; [done|]);
      intros r (? & ? & ? & ? & ?); done. }
  destruct (reconcile_total _ Ha Hcost) as [A1 A2], (reconcile_total _ Hb Hcloned) as [B1 B2].
  pose proof (count_bound is_completed rs). pose proof (count_bound is_failed rs).
  assert (reported (total (child_tokens <$> rs))) as Ht.
  { pose proof (total_nonneg (child_tokens <$> rs) num_zero eq_refl Hc) as Hp.
    unfold total in *. by destruct (foldl _ _ _) as [[]|[]| |[] m e]. }
  rewrite rollup_aggregate_read, E4, E5. cbn [aggregate_read ag_totalCostTotal ag_totalClonedTokens].
  rewrite A1, B1. cbn [outcome_bind]. f_equal. unfold aggregate_reasons, aggregate_read.
  cbn [ag_childCount ag_completed ag_failed ag_totalTokens ag_totalCostTotal ag_totalClonedTokens
    ag_lowRoiChildIds].
  rewrite E1, E2, E3, E6, A2, B2, !app_nil_l, list_fmap_compose, sameIdSet_refl.
  rewrite !is_num_refl by (done || (apply num_of_Z_finite; lia)).
  rewrite Ht, !num_of_Z_reported by lia. done.
Qed.

Lemma validatePhaseRollup_read ph cs ag :
  ph <> EmptyString -> cs <> [] ->
  validatePhaseRollup (Jobj [("phase", Jstr ph); ("children", Jarr cs); ("aggregate", ag)]) =
    outcome_bind (rollup_children no_tally cs) (fun p =>
    outcome_bind (rollup_aggregate (length cs) p.1 ag) (fun rs => Ok (p.2 ++ rs))).
Proof using. destruct ph, cs; done. Qed.

(** The builder satisfies the validator: over at least one child with
    distinct ids and well-formed receipts, and totals that do not overflow,
    the evidence built passes every check of [validatePhaseRollup] - the
    recomputed counts, the floating-point totals and the low-ROI set
    included - and the receipt is valid. *)
Theorem phase_rollup_validates (i : BuildPhaseRollupInput) :
  pr_receiptId i <> EmptyString -> pr_sessionId i <> EmptyString -> pr_source i <> EmptyString ->
  pr_createdAt i <> EmptyString -> workspace (pr_subject i) <> EmptyString ->
  pr_phase i <> EmptyString -> pr_children i <> [] ->
  Forall well_formed_child (pr_children i) -> NoDup (task_id <$> pr_children i) ->
  finite_totals (pr_children i) ->
  validatePhaseRollup (rollup_evidence sha256Hex i) = Ok [] /\
  validateReceipt sha256Hex (buildPhaseRollupReceipt sha256Hex i)
    = Ok {| outcome_valid := true; reasons := [] |}.
Proof.
  intros H1 H2 H3 H4 H5 Hphase Hne Hwf Hn Hfin.
  assert (validatePhaseRollup (rollup_evidence sha256Hex i) = Ok []) as Hv.
  { unfold rollup_evidence. rewrite validatePhaseRollup_read by (done || by destruct (pr_children i)).
    rewrite rollup_children_fold by (done || by intros; apply not_elem_of_empty).
    cbn [outcome_bind fst snd]. by rewrite length_fmap, aggregate_valid. }
  split; [done|]. eapply build_valid; [by split_and!|done|].
  unfold buildPhaseRollupReceipt, buildReceipt.
  erewrite (validateFamily_own _ F_phase_rollup); [exact Hv|reflexivity|reflexivity].
Qed.
End validation.

(** Two children, one of them without ROI accounting. *)
Definition demo_child (id : string) (st : task_status) (r : option TaskRoi) : TaskResultReceipt := {|
  task_id := id; task_status_of := st; task_tokens := num_of_Z 120;
  outputRef := Some ("agent://out", None); roi := r; as_value := Jobj [("id", Jstr id)] |}.

Definition demo_rollup : BuildPhaseRollupInput := {|
  pr_receiptId := "r1"; pr_sessionId := "s1"; pr_source := "phase"; pr_createdAt := "2026";
  pr_subject := {| workspace := "/w"; branch := None; head := None; commit := None |};
  pr_phase := "validating";
  pr_children := [
    demo_child "a" T_completed (Some {|
      roi_tokens := num_of_Z 7; roi_clonedTokens := None;
      roi_costTotal := Some (num_of_decimal 1 (-1)); roi_lowRoi := true |});
    demo_child "b" T_merge_failed None] |}.

(** Sixty-four hexadecimal digits for every text. *)
Definition demo_sha (s : string) : string :=
  "0000000000000000000000000000000000000000000000000000000000000000".

Lemma phase_rollup_validates_witness :
  validatePhaseRollup (rollup_evidence demo_sha demo_rollup) = Ok [] /\
  validateReceipt demo_sha (buildPhaseRollupReceipt demo_sha demo_rollup)
    = Ok {| outcome_valid := true; reasons := [] |}.
Proof.
  apply (phase_rollup_validates demo_sha); try discriminate.
  - intros s. reflexivity.
  - unfold demo_rollup. cbn [pr_children].
    repeat (apply List.Forall_cons; [split_and!; first [discriminate|vm_compute; reflexivity|exact I]|]).
    apply List.Forall_nil.
  - apply (bool_decide_unpack _). vm_compute. exact I.
  - split_and!; first [vm_compute; reflexivity|exact I].
Defined.
