(* ===== verification/ReceiptIngest.v ===== *)
(** * Receipt ingestion ([harness-control-plane/receipt-ingest.ts])

    A batch of untrusted receipts against a session: each is validated, checked
    to be marked valid and to belong to the session, reconciled with the
    lifecycle it claims, and either accepted, possibly moving the lifecycle,
    or rejected with a reason.  A [TypeError] raised while a reason or the
    digest is formatted is [Throw tt]. *)

From S2P Require Import Prelude HarnessTypes LifecycleMachine JsNumber JsValue Receipts.

Local Open Scope list_scope.
Local Open Scope js_scope.

Definition RECEIPT_DIGEST_MAX_CHARS : nat := 280.

Definition RECEIPT_FAMILY_LIFECYCLE_TARGETS (family : js) : option HarnessLifecycle :=
  if is_str family "completion" then Some L_completed
  else if is_str family "review-verdict" then Some L_completed
  else None.

Definition evidenceContradiction (receipt : js) (target : HarnessLifecycle)
    : result (option string) :=
  let* family := get receipt "family" in
  let* evidence := get receipt "evidence" in
  if is_str family "completion" then
    let* final := get evidence "finalLifecycle" in
    if is_str final (lifecycle_name target) then Ok None
    else let* f := to_string final in Ok (Some ("evidence-lifecycle-mismatch:" +:+ f))
  else if is_str family "review-verdict" then
    let* verdict := get evidence "verdict" in
    Ok (if is_str verdict "OWNER_CONFIRMATION_REQUIRED"
        then Some "review-verdict-not-terminal" else None)
  else Ok None.

Record transition := { from : HarnessLifecycle; to : HarnessLifecycle; receiptId : js }.

(** The accumulators of the loop. *)
Record ingest := {
  current : HarnessLifecycle;
  accepted : list js;
  rejected : list (js * list string);
  transitions : list transition
}.

Definition accept (g : ingest) (r : js) : ingest := {|
  current := current g; accepted := accepted g ++ [r]; rejected := rejected g;
  transitions := transitions g |}.

Definition refuse (g : ingest) (r : js) (rs : list string) : ingest := {|
  current := current g; accepted := accepted g; rejected := rejected g ++ [(r, rs)];
  transitions := transitions g |}.

Definition move (g : ingest) (target : HarnessLifecycle) (id : js) : ingest := {|
  current := target; accepted := accepted g; rejected := rejected g;
  transitions := transitions g ++ [{| from := current g; to := target; receiptId := id |}] |}.

Record ReceiptIngestResult := {
  outcome_of : ingest;
  finalLifecycle : HarnessLifecycle;
  digest : string
}.

Section ingestion.
Context (sha256Hex : string -> string).

Definition ingest_receipt (s : SessionState) (g : ingest) (r : js) : result ingest :=
  let* validation := validateReceipt sha256Hex r in
  if negb (outcome_valid validation) then Ok (refuse g r (reasons validation)) else
  let* marked := get r "valid" in
  if negb (is_bool marked true) then Ok (refuse g r ["receipt-marked-invalid"]) else
  let* session := get r "sessionId" in
  if negb (is_str session (sessionId s)) then
    let* t := to_string session in Ok (refuse g r ["session-mismatch:" +:+ t])
  else
  let* family := get r "family" in
  match RECEIPT_FAMILY_LIFECYCLE_TARGETS family with
  | None => Ok (accept g r)
  | Some target =>
      let* contradiction := evidenceContradiction r target in
      match contradiction with
      | Some why =>
          if is_str family "review-verdict" then Ok (accept g r) else Ok (refuse g r [why])
      | None =>
          if negb (canTransition (current g) target) then
            Ok (refuse g r ["illegal-transition:" +:+ lifecycle_name (current g) +:+ "->"
                            +:+ lifecycle_name target])
          else
            let* id := get r "receiptId" in Ok (accept (move g target id) r)
      end
  end.

Fixpoint ingest_all (s : SessionState) (g : ingest) (rs : list js) : result ingest :=
  match rs with
  | [] => Ok g
  | r :: rs => let* g := ingest_receipt s g r in ingest_all s g rs
  end.

Definition rejected_line (item : js * list string) : result string :=
  match get_opt item.1 "receiptId" with
  | Jundefined | Jnull => Ok ("<malformed>(" +:+ join "|" item.2 +:+ ")")
  | id => let* t := to_string id in Ok (t +:+ "(" +:+ join "|" item.2 +:+ ")")
  end.

Definition buildReceiptIngestDigest (total acceptedCount : nat) (rejected : list (js * list string))
    (initial final : HarnessLifecycle) : result string :=
  let digest :=
    "ingested " +:+ show_Z (Z.of_nat total) +:+ " receipts: " +:+ show_Z (Z.of_nat acceptedCount)
      +:+ " accepted, " +:+ show_Z (Z.of_nat (length rejected)) +:+ " rejected; lifecycle "
      +:+ lifecycle_name initial +:+ "->" +:+ lifecycle_name final in
  let* digest :=
    match rejected with
    | [] => Ok digest
    | _ => let* lines := sequence (rejected_line <$> rejected) in
           Ok (digest +:+ "; rejected: " +:+ join "," lines)
    end in
  Ok (String.substring 0 RECEIPT_DIGEST_MAX_CHARS digest).

Definition ingestReceipts (s : SessionState) (receipts : list js) : result ReceiptIngestResult :=
  let* g := ingest_all s {| current := lifecycle s; accepted := []; rejected := [];
                            transitions := [] |} receipts in
  let* d := buildReceiptIngestDigest (length receipts) (length (accepted g)) (rejected g)
              (lifecycle s) (current g) in
  Ok {| outcome_of := g; finalLifecycle := current g; digest := d |}.

(** ** What ingestion guarantees *)

(** A receipt that may be accepted for the session. *)
Definition entitled (s : SessionState) (r : js) : Prop :=
  validateReceipt sha256Hex r = Ok {| outcome_valid := true; reasons := [] |} /\
  get r "valid" = Ok (Jbool true) /\ get r "sessionId" = Ok (Jstr (sessionId s)).

(** Its evidence claims the end of the session. *)
Definition completes (r : js) : Prop :=
  exists ev, get r "evidence" = Ok ev /\
    ((get r "family" = Ok (Jstr "completion") /\ get ev "finalLifecycle" = Ok (Jstr "completed")) \/
     (get r "family" = Ok (Jstr "review-verdict") /\
      get ev "verdict" <> Ok (Jstr "OWNER_CONFIRMATION_REQUIRED"))).

Record ingested (s : SessionState) (seen : list js) (g : ingest) : Prop := {
  i_partition : accepted g ++ (fst <$> rejected g) ≡ₚ seen;
  i_entitled : Forall (entitled s) (accepted g);
  i_reasons : Forall (fun p => p.2 <> []) (rejected g);
  i_moves :
    (transitions g = [] /\ current g = lifecycle s) \/
    (lifecycle s = L_finalizing /\ current g = L_completed /\
     exists r id, r ∈ accepted g /\ completes r /\ get r "receiptId" = Ok id /\
       transitions g = [{| from := L_finalizing; to := L_completed; receiptId := id |}])
}.

Lemma is_bool_true v : is_bool v true = true <-> v = Jbool true.
Proof. destruct v as [| |[]| | | |]; simpl; naive_solver. Qed.

Lemma target_completed f t : RECEIPT_FAMILY_LIFECYCLE_TARGETS f = Some t ->
  t = L_completed /\ (f = Jstr "completion" \/ f = Jstr "review-verdict").
Proof.
  unfold RECEIPT_FAMILY_LIFECYCLE_TARGETS.
  destruct (is_str f "completion") eqn:E1; [|destruct (is_str f "review-verdict") eqn:E2; [|done]];
    intros [= <-]; (split; [done|]); rewrite <- !is_str_eq; auto.
Qed.

Lemma completed_only_from_finalizing l : canTransition l L_completed = true -> l = L_finalizing.
Proof. by destruct l. Qed.

Lemma ingested_refuse s seen g r rs :
  ingested s seen g -> rs <> [] -> ingested s (seen ++ [r]) (refuse g r rs).
Proof.
  intros [Hp He Hr Hm] Hrs. constructor; simpl.
  - rewrite fmap_app, app_assoc, Hp. done.
  - done.
  - by apply Forall_app_2; [|by apply Forall_singleton].
  - done.
Qed.

Lemma ingested_accept s seen g r :
  ingested s seen g -> entitled s r -> ingested s (seen ++ [r]) (accept g r).
Proof.
  intros [Hp He Hr Hm] Hent. constructor; simpl.
  - rewrite <- Hp, <- !app_assoc. apply Permutation_app_head, Permutation_app_comm.
  - by apply Forall_app_2; [|by apply Forall_singleton].
  - done.
  - destruct Hm as [Hm|(H1 & H2 & r' & id & H3 & H4)]; [by left|right].
    split_and!; try done. exists r', id. split; [|done]. apply elem_of_app. by left.
Qed.

Lemma ingested_move s seen g r id :
  ingested s seen g -> entitled s r -> completes r -> get r "receiptId" = Ok id ->
  canTransition (current g) L_completed = true ->
  ingested s (seen ++ [r]) (accept (move g L_completed id) r).
Proof.
  intros [Hp He Hr Hm] Hent Hc Hid Ht. apply completed_only_from_finalizing in Ht.
  constructor; simpl.
  - rewrite <- Hp, <- !app_assoc. apply Permutation_app_head, Permutation_app_comm.
  - by apply Forall_app_2; [|by apply Forall_singleton].
  - done.
  - right. destruct Hm as [[Hm1 Hm2]|(_ & H2 & _)]; [|congruence].
    split_and!; [congruence|done|]. exists r, id. rewrite Hm1, Ht.
    split_and!; try done. apply elem_of_app. right. by left.
Qed.

Lemma contradiction_completes r fam :
  get r "family" = Ok fam -> fam = Jstr "completion" \/ fam = Jstr "review-verdict" ->
  evidenceContradiction r L_completed = Ok None -> completes r.
Proof.
  intros Hf Hfam. unfold evidenceContradiction. rewrite Hf. cbn [outcome_bind].
  destruct (get r "evidence") as [ev|] eqn:Ee; [|done]. cbn [outcome_bind].
  intros H. exists ev. split; [done|]. destruct Hfam as [->| ->]; simpl in H.
  - left. split; [done|]. destruct (get ev "finalLifecycle") as [fl|]; [|done]. simpl in H.
    destruct (is_str fl "completed") eqn:E; [by apply is_str_eq in E as ->|].
    by destruct (to_string fl).
  - right. split; [done|]. destruct (get ev "verdict") as [v|]; [|done]. simpl in H.
    intros [= ->]. by simpl in H.
Qed.

Lemma ingest_receipt_ok s seen g r g' :
  ingested s seen g -> ingest_receipt s g r = Ok g' -> ingested s (seen ++ [r]) g'.
Proof.
  intros Hg H. unfold ingest_receipt in H.
  destruct (validateReceipt sha256Hex r) as [o|] eqn:Ev; [|done]. cbn [outcome_bind] in H.
  pose proof (validate_outcome sha256Hex r o Ev) as Ho.
  destruct (outcome_valid o) eqn:Eo; cbn [negb] in H.
  2:{ injection H as <-. apply ingested_refuse; [done|]. intros E. by apply Ho in E. }
  destruct o as [b rs]. simpl in *. subst b. destruct Ho as [Ho _]. rewrite (Ho eq_refl) in Ev.
  destruct (get r "valid") as [mk|] eqn:Em; [|done]. cbn [outcome_bind] in H.
  destruct (is_bool mk true) eqn:Eb; cbn [negb] in H; [|injection H as <-; by apply ingested_refuse].
  apply is_bool_true in Eb as ->.
  destruct (get r "sessionId") as [sid|] eqn:Es; [|done]. cbn [outcome_bind] in H.
  destruct (is_str sid (sessionId s)) eqn:Esid; cbn [negb] in H.
  2:{ destruct (to_string sid); [|done]. injection H as <-. by apply ingested_refuse. }
  apply is_str_eq in Esid as ->. assert (entitled s r) as Hent by done.
  destruct (get r "family") as [fam|] eqn:Ef; [|done]. cbn [outcome_bind] in H.
  destruct (RECEIPT_FAMILY_LIFECYCLE_TARGETS fam) as [t|] eqn:Et;
    [|injection H as <-; by apply ingested_accept].
  apply target_completed in Et as [-> Hfam].
  destruct (evidenceContradiction r L_completed) as [[why|]|] eqn:Ec; [| |done];
    cbn [outcome_bind] in H.
  - destruct (is_str fam "review-verdict"); injection H as <-;
      [by apply ingested_accept|by apply ingested_refuse].
  - destruct (canTransition (current g) L_completed) eqn:Ect; cbn [negb] in H;
      [|injection H as <-; by apply ingested_refuse].
    destruct (get r "receiptId") as [id|] eqn:Eid; [|done]. injection H as <-.
    apply ingested_move; try done. by eapply contradiction_completes.
Qed.

Lemma ingest_all_ok s seen g rs g' :
  ingested s seen g -> ingest_all s g rs = Ok g' -> ingested s (seen ++ rs) g'.
Proof.
  revert seen g. induction rs as [|r rs IH]; intros seen g Hg H; simpl in H.
  - injection H as <-. by rewrite app_nil_r.
  - destruct (ingest_receipt s g r) as [g1|] eqn:E; [|done].
    rewrite cons_middle, app_assoc. by eapply IH; [eapply ingest_receipt_ok|].
Qed.

Lemma length_substring n s : String.length (String.substring 0 n s) <= n.
Proof.
  revert n. induction s as [|c s IH]; intros [|n]; simpl; try lia. specialize (IH n). lia.
Qed.

(** C26.  Ingestion fails closed: over any batch of untrusted values, accepted
    and rejected receipts partition the batch, a rejection has a reason, every
    accepted receipt is hash-valid, marked valid and belongs to the session,
    and the lifecycle moves at most once - from [finalizing] to [completed],
    on an accepted receipt whose evidence claims completion; the digest never
    exceeds 280 characters. *)
Theorem ingest_fail_closed (s : SessionState) (rs : list js) (res : ReceiptIngestResult) :
  ingestReceipts s rs = Ok res ->
  ingested s rs (outcome_of res) /\ finalLifecycle res = current (outcome_of res) /\
  String.length (digest res) <= RECEIPT_DIGEST_MAX_CHARS.
Proof.
  unfold ingestReceipts. destruct (ingest_all _ _ _) as [g|] eqn:E; [|done]. cbn [outcome_bind].
  destruct (buildReceiptIngestDigest _ _ _ _ _) as [d|] eqn:Ed; [|done]. intros [= <-]. simpl.
  split_and!; [|done|].
  - apply (ingest_all_ok s [] _ rs g) in E; [done|]. constructor; simpl; auto.
  - unfold buildReceiptIngestDigest in Ed. apply bind_Ok in Ed as (d' & _ & [= <-]).
    apply length_substring.
Qed.

(** ** Ingestion returns *)

Lemma valid_evidence r rs :
  validateReceipt sha256Hex r = Ok {| outcome_valid := true; reasons := rs |} ->
  exists fs ev, r = Jobj fs /\ get r "evidence" = Ok (Jobj ev).
Proof.
  intros H. apply valid_inv in H as (fs & -> & _ & Hst & _).
  apply structure_exact in Hst as [(_ & _ & _ & [ev Hev] & _) _].
  exists fs, ev. simpl. by rewrite Hev.
Qed.

Lemma returns_contradiction r ev t :
  converts r = true -> truthy r = true -> get r "evidence" = Ok (Jobj ev) ->
  returns (evidenceContradiction r t).
Proof.
  intros Hc Hr He. unfold evidenceContradiction.
  apply returns_bind; [by apply returns_get|]. intros fam _. rewrite He. cbn [outcome_bind].
  assert (converts (Jobj ev) = true) by converting.
  apply returns_if; intros _; [|apply returns_if; intros _; [|apply returns_Ok]].
  - apply returns_bind; [by apply returns_get|]. intros f Hf.
    apply returns_if; intros _; [apply returns_Ok|].
    apply returns_bind; [apply returns_to_string; converting|]. intros; apply returns_Ok.
  - apply returns_bind; [by apply returns_get|]. intros; apply returns_Ok.
Qed.

Lemma returns_ingest_receipt s g r : converts r = true -> returns (ingest_receipt s g r).
Proof.
  intros Hc. unfold ingest_receipt. destruct (returns_validate sha256Hex r Hc) as (o & Ho & Hiff).
  rewrite Ho. cbn [outcome_bind]. destruct (outcome_valid o) eqn:Eo; cbn [negb]; [|apply returns_Ok].
  destruct o as [b rs]. simpl in Eo. subst b. apply valid_evidence in Ho as (fs & ev & -> & Hev).
  apply returns_bind; [apply returns_Ok|intros mk _].
  apply returns_if; intros _; [apply returns_Ok|].
  apply returns_bind; [apply returns_Ok|intros sid Hsid]. apply returns_if; intros _.
  { apply returns_bind; [apply returns_to_string; converting|intros; apply returns_Ok]. }
  apply returns_bind; [apply returns_Ok|intros fam Hfam].
  destruct (RECEIPT_FAMILY_LIFECYCLE_TARGETS fam) as [t|]; [|apply returns_Ok].
  apply returns_bind; [by eapply returns_contradiction|]. intros [why|] _.
  - apply returns_if; intros _; apply returns_Ok.
  - apply returns_if; intros _; [apply returns_Ok|]. apply returns_Ok.
Qed.

Lemma returns_ingest_all s g rs : forallb converts rs = true -> returns (ingest_all s g rs).
Proof.
  revert g. induction rs as [|r rs IH]; intros g H; simpl; [apply returns_Ok|].
  simpl in H. apply andb_true_iff in H as [Hr Hrs].
  apply returns_bind; [by apply returns_ingest_receipt|]. intros g' _. by apply IH.
Qed.

Lemma returns_rejected_line p : converts p.1 = true -> returns (rejected_line p).
Proof.
  intros Hc. unfold rejected_line.
  assert (converts (get_opt p.1 "receiptId") = true) as Hid.
  { unfold get_opt. destruct (get p.1 "receiptId") as [v|] eqn:E; [converting|done]. }
  destruct (get_opt p.1 "receiptId"); try apply returns_Ok;
    (apply returns_bind; [by apply returns_to_string|intros; apply returns_Ok]).
Qed.

(** Ingestion always returns a result, whatever the batch holds, as long
    as no object in it has a [toString] property of its own: no receipt can
    make the evaluator throw, not even a malformed one. *)
Theorem ingest_total (s : SessionState) (rs : list js) :
  forallb converts rs = true -> exists res, ingestReceipts s rs = Ok res.
Proof.
  intros H. unfold ingestReceipts.
  set (g0 := {| current := lifecycle s; accepted := []; rejected := []; transitions := [] |}).
  apply returns_bind; [by apply returns_ingest_all|]. intros g Hg.
  apply (ingest_all_ok s [] g0 rs g) in Hg as [Hp _ _ _]; [|by constructor; simpl; auto].
  assert (Forall (fun p => converts p.1 = true) (rejected g)) as Hr.
  { apply Forall_forall. intros p Hin. apply forallb_Forall in H. rewrite Forall_forall in H.
    apply H. rewrite <- (app_nil_l rs), <- Hp. apply elem_of_app. right.
    apply list_elem_of_fmap. by exists p. }
  apply returns_bind; [|intros; apply returns_Ok].
  unfold buildReceiptIngestDigest. apply returns_bind; [|intros; apply returns_Ok].
  destruct (rejected g) as [|p ps]; [apply returns_Ok|].
  apply returns_bind; [|intros; apply returns_Ok]. apply returns_sequence.
  rewrite Forall_fmap. eapply Forall_impl; [done|]. intros q. apply returns_rejected_line.
Qed.
End ingestion.

(** A batch with a malformed entry, a foreign receipt and a completion. *)
Definition demo_session : SessionState := {|
  HarnessTypes.sessionId := "s1"; lifecycle := L_finalizing; harness := gajae_code;
  blockers := []; updatedAt := "2026" |}.

Definition demo_completion (session : string) : js :=
  buildReceipt demo_hash {|
    in_receiptId := "c1"; in_sessionId := session; in_family := F_completion;
    in_source := "finalize";
    in_subject := {| workspace := "/w"; branch := None; head := None; commit := None |};
    in_evidence := Jobj [("finalCommit", Jstr "abc"); ("prUrl", Jstr "https://pr");
      ("requiredValidationReceiptIds", Jarr [Jstr "v1"]); ("blockers", Jarr []);
      ("finalLifecycle", Jstr "completed")];
    in_artifactHashes := None; in_createdAt := "2026"; in_valid := None |}.

Definition demo_batch : list js := [Jnull; demo_completion "s2"; demo_completion "s1"].

Definition demo_result : ReceiptIngestResult := {|
  outcome_of := {|
    current := L_completed; accepted := [demo_completion "s1"];
    rejected := [(Jnull, ["malformed-envelope"]); (demo_completion "s2", ["session-mismatch:s2"])];
    transitions := [{| from := L_finalizing; to := L_completed; receiptId := Jstr "c1" |}] |};
  finalLifecycle := L_completed;
  digest := "ingested 3 receipts: 1 accepted, 2 rejected; lifecycle finalizing->completed; rejected: <malformed>(malformed-envelope),c1(session-mismatch:s2)" |}.

Lemma ingest_fail_closed_witness :
  ingested demo_hash demo_session demo_batch (outcome_of demo_result) /\
  finalLifecycle demo_result = current (outcome_of demo_result) /\
  String.length (digest demo_result) <= RECEIPT_DIGEST_MAX_CHARS.
Proof. apply (ingest_fail_closed demo_hash). vm_compute. reflexivity. Defined.

Lemma ingest_total_witness : exists res, ingestReceipts demo_hash demo_session demo_batch = Ok res.
Proof. apply ingest_total. vm_compute. reflexivity. Defined.
