(* ===== verification/Operate.v ===== *)
(** * The autonomous loop ([harness-control-plane/operate.ts], [preserve.ts])

    [operate] runs observe, classify, recover until an observed completion, a
    block or the iteration bound, then finalizes.  Everything outside the
    process is scripted: the n-th observation, preservation, submission and
    the clock are functions of the call's index, and finalization is one
    outcome.  The run records its external actions in order. *)

From Stdlib Require Import Ascii.
From S2P Require Import Prelude HarnessTypes RecoveryClassifier JsNumber JsValue Receipts.

Local Open Scope list_scope.

(** ** Preservation of a dirty worktree *)

Record UntrackedEntry := { entry_path : string; entry_size : Z; entry_sha256 : string }.

Record PreserveResult := {
  pres_gitDelta : GitDelta;
  trackedDiff : string;
  trackedDiffSha256 : string;
  untrackedManifest : list UntrackedEntry;
  stashRef : option string;
  snapshotComplete : bool
}.

Fixpoint split_lines (s acc : string) : list string :=
  match s with
  | EmptyString => [String.rev acc]
  | String c r =>
      if decide (nat_of_ascii c = 10) then String.rev acc :: split_lines r EmptyString
      else split_lines r (String c acc)
  end.

Section preservation.
Context (sha256 : string -> string).
(** The commands and reads [preserve.ts] performs; [None] is a failure. *)
Context (git_diff git_ls_files git_stash_create : option string) (git_stash_store : bool).
Context (readFile : string -> option string).

Definition manifest_entry (rel : string) : UntrackedEntry :=
  match readFile rel with
  | Some buf => {| entry_path := rel; entry_size := Z.of_nat (String.length buf);
                   entry_sha256 := sha256 buf |}
  | None => {| entry_path := rel; entry_size := -1; entry_sha256 := "unreadable" |}
  end.

Definition preserveDirtyWorktree : PreserveResult :=
  let diff := default EmptyString git_diff in
  let untracked :=
    match git_ls_files with
    | Some out => filter (fun s => s <> EmptyString) (trim <$> split_lines out EmptyString)
    | None => []
    end in
  let manifest := manifest_entry <$> untracked in
  let stash :=
    match git_stash_create with
    | Some out =>
        let oid := trim out in
        if decide (oid <> EmptyString) then if git_stash_store then Some oid else None else None
    | None => None
    end in
  let clean_diff := bool_decide (trim diff = EmptyString) in
  let dirty := negb clean_diff || negb (bool_decide (manifest = [])) in
  {| pres_gitDelta := if dirty then G_dirty else G_clean;
     trackedDiff := diff;
     trackedDiffSha256 := sha256 diff;
     untrackedManifest := manifest;
     stashRef := stash;
     snapshotComplete :=
       (clean_diff || bool_decide (is_Some stash))
       && forallb (fun e => negb (bool_decide (entry_sha256 e = "unreadable"))) manifest |}.
End preservation.

(** ** The loop *)

Definition classification_name (c : RecoveryClassification) : string :=
  match c with
  | C_continue => "continue" | C_send_enter => "send-enter"
  | C_reinject_prompt => "reinject-prompt" | C_restart_clean => "restart-clean"
  | C_restart_preserve_delta => "restart-preserve-delta"
  | C_fallback_codex_exec => "fallback-codex-exec" | C_human_check => "human-check"
  end.

Definition entry_js (e : UntrackedEntry) : js :=
  Jobj [("path", Jstr (entry_path e)); ("size", Jnum (num_of_Z (entry_size e)));
        ("sha256", Jstr (entry_sha256 e))].

(** [VanishEvidence] as the receipt holds it. *)
Definition vanish_evidence (c : RecoveryClassification) (d : GitDelta) (porcelain : string)
    (manifest : list UntrackedEntry) (preservation : string) (stash : option string)
    (complete : bool) (forbidden : list string) : list (string * js) :=
  [("classification", Jstr (classification_name c));
   ("gitDelta", Jstr (delta_name d));
   ("gitStatusPorcelain", Jstr porcelain);
   ("untrackedManifest", Jarr (entry_js <$> manifest));
   ("preservation", Jstr preservation);
   ("stashRef", js_nullable stash);
   ("snapshotComplete", Jbool complete);
   ("forbiddenActions", Jarr (Jstr <$> forbidden))].

Record FinalizeResult := { fin_completed : bool; fin_blockers : list string }.

(** The scripted outside world. *)
Record world := {
  observe : nat -> Observation;
  preserve : nat -> PreserveResult;
  singleFlightAccept : nat -> bool;
  vanish_id : nat -> string;
  now : nat -> string;
  runFinalize : FinalizeResult
}.

Record OperateOptions := {
  opt_sessionId : string;
  opt_workspace : string;
  opt_branch : string;
  opt_retryBudget : RetryBudget;
  opt_maxIterations : nat
}.

(** External actions, in the order they happen. *)
Inductive action :=
| A_emit (sev : Severity) (kind : string)
| A_submit (accepted : bool)
| A_observe (o : Observation) (c : RecoveryClassification)
| A_write_vanish (receipt : js) (valid : bool)
| A_new_transport (c : RecoveryClassification)
| A_finalize (r : FinalizeResult).

Record run := {
  run_lifecycle : HarnessLifecycle;
  run_budget : RetryBudget;
  accepted : bool;
  iterations : nat;
  submits : nat;
  vanishes : nat;
  classifications : list RecoveryClassification;
  vanishReceiptIds : list string;
  run_blockers : list string;
  trace : list action
}.

(** The state with new actions, and with other fields replaced. *)
Definition act (r : run) (l : list action) : run := {|
  run_lifecycle := run_lifecycle r; run_budget := run_budget r; accepted := accepted r;
  iterations := iterations r; submits := submits r; vanishes := vanishes r;
  classifications := classifications r; vanishReceiptIds := vanishReceiptIds r;
  run_blockers := run_blockers r; trace := trace r ++ l |}.

Definition set_lifecycle (r : run) (l : HarnessLifecycle) (bs : list string) : run := {|
  run_lifecycle := l; run_budget := run_budget r; accepted := accepted r;
  iterations := iterations r; submits := submits r; vanishes := vanishes r;
  classifications := classifications r; vanishReceiptIds := vanishReceiptIds r;
  run_blockers := run_blockers r ++ bs; trace := trace r |}.

Definition set_budget (r : run) (b : RetryBudget) : run := {|
  run_lifecycle := run_lifecycle r; run_budget := b; accepted := accepted r;
  iterations := iterations r; submits := submits r; vanishes := vanishes r;
  classifications := classifications r; vanishReceiptIds := vanishReceiptIds r;
  run_blockers := run_blockers r; trace := trace r |}.

(** [Math.max(0, n - 1)] on one counter. *)
Definition spend (n : Z) : Z := Z.max 0 (n - 1).

Definition spend_reinject (b : RetryBudget) : RetryBudget := {|
  reinjectPrompt := spend (reinjectPrompt b); zeroDeltaVanish := zeroDeltaVanish b;
  dirtyVanishPreserve := dirtyVanishPreserve b; validationRepair := validationRepair b |}.
Definition spend_zero_delta (b : RetryBudget) : RetryBudget := {|
  reinjectPrompt := reinjectPrompt b; zeroDeltaVanish := spend (zeroDeltaVanish b);
  dirtyVanishPreserve := dirtyVanishPreserve b; validationRepair := validationRepair b |}.
Definition spend_dirty (b : RetryBudget) : RetryBudget := {|
  reinjectPrompt := reinjectPrompt b; zeroDeltaVanish := zeroDeltaVanish b;
  dirtyVanishPreserve := spend (dirtyVanishPreserve b); validationRepair := validationRepair b |}.

Section operation.
Context (sha256Hex : string -> string) (w : world) (opts : OperateOptions).

Definition submit (r : run) : run :=
  let ok := singleFlightAccept w (submits r) in
  {| run_lifecycle := run_lifecycle r; run_budget := run_budget r; accepted := ok;
     iterations := iterations r; submits := S (submits r); vanishes := vanishes r;
     classifications := classifications r; vanishReceiptIds := vanishReceiptIds r;
     run_blockers := run_blockers r;
     trace := trace r ++ [A_submit ok;
       A_emit (if ok then S_info else S_warn)
         (if ok then "prompt_accepted" else "prompt_not_accepted")] |}.

Definition vanish_receipt (n : nat) (o : Observation) (c : RecoveryClassification) : js :=
  let dirty := bool_decide (gitDelta o = G_dirty) || bool_decide (gitDelta o = G_unknown) in
  let p := preserve w n in
  let stash := if dirty then stashRef p else None in
  let ev :=
    vanish_evidence c (gitDelta o)
      (if dirty then
         "tracked-diff-sha:" +:+ trackedDiffSha256 p +:+ ";untracked:"
           +:+ show_Z (Z.of_nat (length (untrackedManifest p))) +:+ ";stash:"
           +:+ default "none" (stashRef p)
       else join "," (observedSignals o))
      (if dirty then untrackedManifest p else [])
      (if dirty && bool_decide (default EmptyString stash <> EmptyString) then "stash" else "snapshot")
      stash
      (if dirty then snapshotComplete p else true)
      (if dirty then ["restart-clean"; "delete"; "reset"] else []) in
  buildReceipt sha256Hex {|
    in_receiptId := vanish_id w n; in_sessionId := opt_sessionId opts; in_family := F_vanish;
    in_source := "operate";
    in_subject := {| workspace := opt_workspace opts; branch := Some (opt_branch opts);
                     head := None; commit := None |};
    in_evidence := Jobj ev; in_artifactHashes := None; in_createdAt := now w n;
    in_valid := None |}.

Definition writeVanish (r : run) (o : Observation) (c : RecoveryClassification)
    : result (bool * run) :=
  let n := vanishes r in
  let receipt := vanish_receipt n o c in
  outcome_bind (validateReceipt sha256Hex receipt) (fun out =>
  let ok := outcome_valid out in
  Ok (ok, {|
    run_lifecycle := run_lifecycle r; run_budget := run_budget r; accepted := accepted r;
    iterations := iterations r; submits := submits r; vanishes := S n;
    classifications := classifications r;
    vanishReceiptIds := vanishReceiptIds r ++ [vanish_id w n];
    run_blockers := run_blockers r;
    trace := trace r ++ [A_write_vanish receipt ok;
                         A_emit (if ok then S_critical else S_warn) "vanish_receipt"] |})).

(** The action a decision asks for, after the vanish gate: the new state and
    whether the loop goes on. *)
Definition recover (r : run) (c : RecoveryClassification) : bool * run :=
  match c with
  | C_reinject_prompt => (true, submit (set_budget r (spend_reinject (run_budget r))))
  | C_restart_clean =>
      (true, submit (act (set_budget r (spend_zero_delta (run_budget r))) [A_new_transport c]))
  | C_restart_preserve_delta =>
      (true, submit (act (set_budget r (spend_dirty (run_budget r))) [A_new_transport c]))
  | C_fallback_codex_exec => (false, set_lifecycle r L_blocked ["fallback-codex-exec-requested"])
  | C_human_check => (false, set_lifecycle r L_blocked ["human-check-required"])
  | C_continue | C_send_enter => (true, r)
  end.

(** The body of the loop. *)
Definition iterate (r : run) : result (bool * run) :=
  let o := observe w (iterations r) in
  let d := classifyRecovery {| observation := o; retryBudget := run_budget r |} in
  let c := classification d in
  let r := {|
    run_lifecycle := run_lifecycle r; run_budget := run_budget r; accepted := accepted r;
    iterations := S (iterations r); submits := submits r; vanishes := vanishes r;
    classifications := classifications r ++ [c]; vanishReceiptIds := vanishReceiptIds r;
    run_blockers := run_blockers r;
    trace := trace r ++ [A_observe o c;
      A_emit (severity d) ("classified:" +:+ classification_name c)] |} in
  if decide (c = C_continue) then
    if includes (observedSignals o) "completed" || bool_decide (obs_lifecycle o = L_finalizing)
    then Ok (false, set_lifecycle r L_finalizing [])
    else Ok (true, r)
  else if requiresVanishBeforeAction c then
    outcome_bind (writeVanish r o c) (fun p =>
      Ok (if p.1 then recover p.2 c
          else (false, set_lifecycle p.2 L_blocked ["invalid-vanish-receipt"])))
  else Ok (recover r c).

(** [while (iterations < maxIterations)], with the iterations left. *)
Fixpoint iterate_all (todo : nat) (r : run) : result run :=
  match todo with
  | O => Ok r
  | S todo =>
      outcome_bind (iterate r) (fun p =>
        if p.1 then iterate_all todo p.2 else Ok p.2)
  end.

Record OperateResult := {
  completed : bool;
  final_lifecycle : HarnessLifecycle;
  final : run;
  finalize : option FinalizeResult;
  final_blockers : list string
}.

Definition start_run : run :=
  let r := submit (act {|
    run_lifecycle := L_started; run_budget := opt_retryBudget opts; accepted := false;
    iterations := 0; submits := 0; vanishes := 0; classifications := [];
    vanishReceiptIds := []; run_blockers := []; trace := [] |}
    [A_emit S_info "operate_started"]) in
  set_lifecycle r (if accepted r then L_observing else L_submitted) [].

Definition operate : result OperateResult :=
  outcome_bind (iterate_all (opt_maxIterations opts) start_run) (fun r =>
  Ok (
    if decide (run_lifecycle r = L_blocked) then
      let r := act r [A_emit S_critical "operate_blocked"] in
      {| completed := false; final_lifecycle := L_blocked; final := r; finalize := None;
         final_blockers := run_blockers r |}
    else if decide (run_lifecycle r <> L_finalizing) then
      let r := act (set_lifecycle r (run_lifecycle r) ["no-observed-completion"])
                 [A_emit S_critical "operate_blocked"] in
      {| completed := false; final_lifecycle := L_blocked; final := r; finalize := None;
         final_blockers := run_blockers r |}
    else
      let f := runFinalize w in
      let r := act r [A_finalize f;
        A_emit (if fin_completed f then S_info else S_critical) "operate_finalized"] in
      {| completed := fin_completed f;
         final_lifecycle := if fin_completed f then L_completed else L_blocked;
         final := r; finalize := Some f; final_blockers := fin_blockers f |})).
End operation.

(** ** The vanish gate *)

Section gate.
Context (sha256Hex : string -> string) (w : world) (opts : OperateOptions).

Notation accepted_receipt r :=
  (validateReceipt sha256Hex r = Ok {| outcome_valid := true; reasons := [] |}).

Lemma vanish_converts n o c : converts (vanish_receipt sha256Hex w opts n o c) = true.
Proof using.
  assert (forall l, forallb converts (entry_js <$> l) = true) as Hm by by induction l.
  assert (forall l, forallb converts (Jstr <$> l) = true) as Hf by by induction l.
  assert (forall s, converts (js_nullable s) = true) as Hn by by destruct s.
  unfold vanish_receipt, buildReceipt, receipt_base, vanish_evidence, with_field.
  destruct (_ || _); simpl; rewrite ?Hm, ?Hf, ?Hn; reflexivity.
Qed.

Lemma vanish_evidence_of n o c : exists ev,
  get (vanish_receipt sha256Hex w opts n o c) "evidence" = Ok (Jobj ev) /\
  get (vanish_receipt sha256Hex w opts n o c) "family" = Ok (Jstr (family_name F_vanish)) /\
  own ev "gitDelta" = Some (Jstr (delta_name (gitDelta o))).
Proof using. eexists. split; [reflexivity|]. split; reflexivity. Qed.

(** A restart decision, and what the classifier saw. *)
Definition restart_safe (o : Observation) (c : RecoveryClassification) : Prop :=
  ownerLive o = false /\ risk o <> Risk_deleted_worktree /\
  ((c = C_restart_clean /\ (gitDelta o = G_clean \/ gitDelta o = G_zero_delta)) \/
   (c = C_restart_preserve_delta /\ gitDelta o = G_dirty)).

Lemma restart_decision o b :
  let c := classification (classifyRecovery {| observation := o; retryBudget := b |}) in
  c = C_restart_clean \/ c = C_restart_preserve_delta -> restart_safe o c.
Proof using.
  destruct o as [lc live gd sg rk]. unfold classifyRecovery, decision, restart_safe. simpl.
  destruct rk, live, gd; simpl; repeat case_decide; repeat (case_match; simpl); simpl;
    intros [?|?]; try discriminate; split_and!; auto; discriminate.
Qed.

(** The receipt written just before the restart covers the delta observed. *)
Definition covers (receipt : js) (o : Observation) : Prop :=
  accepted_receipt receipt /\
  exists ev, get receipt "evidence" = Ok (Jobj ev) /\
    own ev "gitDelta" = Some (Jstr (delta_name (gitDelta o))) /\ delta_preserved ev.

Definition restart_gate (before : list action) (c : RecoveryClassification) : Prop :=
  exists pre o receipt e1 e2,
    before = pre ++ [A_observe o c; e1; A_write_vanish receipt true; e2] /\
    restart_safe o c /\ covers receipt o.

Definition gated (t : list action) : Prop :=
  forall pre c post, t = pre ++ A_new_transport c :: post -> restart_gate pre c.

Lemma gated_app t l : gated t -> (forall c, A_new_transport c ∉ l) -> gated (t ++ l).
Proof using.
  intros Ht Hl. induction l as [|a l IH] using rev_ind; [by rewrite app_nil_r|].
  intros pre c post H. destruct post as [|b post _] using rev_ind.
  - rewrite app_assoc in H. apply app_inj_tail in H as [_ ->].
    exfalso. apply (Hl c), elem_of_app. right. by left.
  - rewrite app_comm_cons, !app_assoc in H. apply app_inj_tail in H as [H _].
    eapply IH; [|exact H]. intros c' Hc. apply (Hl c'), elem_of_app. by left.
Qed.

Lemma gated_snoc t c : gated t -> restart_gate t c -> gated (t ++ [A_new_transport c]).
Proof using.
  intros Ht Hg pre c' post H. destruct post as [|b post _] using rev_ind.
  - apply app_inj_tail in H as [-> [= ->]]. done.
  - rewrite app_comm_cons, !app_assoc in H. apply app_inj_tail in H as [H _]. by eapply Ht.
Qed.

(** Actions other than restarts. *)
Ltac not_restart := let H := fresh in intros ? H; repeat (apply elem_of_cons in H as [H|H]; [done|]);
  by apply elem_of_nil in H.

Lemma valid_covers n o c :
  accepted_receipt (vanish_receipt sha256Hex w opts n o c) ->
  covers (vanish_receipt sha256Hex w opts n o c) o.
Proof using.
  intros Hv. split; [done|]. destruct (vanish_evidence_of n o c) as (ev & He & Hf & Hd).
  exists ev. split; [done|]. split; [done|]. apply vanish_sound.
  apply valid_inv in Hv as (fs & E & _ & _ & _ & _ & Hfam). rewrite E in He, Hf, Hfam.
  assert (own fs "family" = Some (Jstr (family_name F_vanish))) as Hf'.
  { simpl in Hf. destruct (own fs "family"); simpl in *; congruence. }
  assert (own fs "evidence" = Some (Jobj ev)) as He'.
  { simpl in He. destruct (own fs "evidence"); simpl in He; congruence. }
  by rewrite (validateFamily_own fs F_vanish (Jobj ev) Hf' He') in Hfam.
Qed.

Lemma writeVanish_spec r o c : exists ok r',
  writeVanish sha256Hex w opts r o c = Ok (ok, r') /\
  trace r' = trace r ++ [A_write_vanish (vanish_receipt sha256Hex w opts (vanishes r) o c) ok;
    A_emit (if ok then S_critical else S_warn) "vanish_receipt"] /\
  (ok = true -> covers (vanish_receipt sha256Hex w opts (vanishes r) o c) o) /\
  run_budget r' = run_budget r /\ iterations r' = iterations r /\ submits r' = submits r /\
  classifications r' = classifications r /\ run_lifecycle r' = run_lifecycle r /\
  run_blockers r' = run_blockers r.
Proof using.
  pose proof (valid_covers (vanishes r) o c) as Hv.
  pose proof (vanish_converts (vanishes r) o c) as Hc. unfold writeVanish.
  generalize dependent (vanish_receipt sha256Hex w opts (vanishes r) o c). intros receipt Hv Hc.
  destruct (returns_validate sha256Hex receipt Hc) as (out & Ho & Hiff).
  rewrite Ho. cbn [outcome_bind]. exists (outcome_valid out). eexists. split; [reflexivity|].
  split; [done|]. split; [|done]. intros Hok. apply Hv. rewrite Ho. do 2 f_equal.
  destruct out as [b rs]. simpl in *. subst b. f_equal. by apply Hiff.
Qed.

Lemma trace_submit r : exists e, trace (submit w r) =
  trace r ++ [A_submit (singleFlightAccept w (submits r)); e].
Proof using. by eexists. Qed.

Lemma recover_gated r c :
  gated (trace r) ->
  (c = C_restart_clean \/ c = C_restart_preserve_delta -> restart_gate (trace r) c) ->
  gated (trace (recover w r c).2).
Proof using.
  intros Hg Hc. destruct c; simpl; try done;
    try (apply gated_app; [done|not_restart]);
    (apply gated_app; [apply gated_snoc; auto|not_restart]).
Qed.

Lemma iterate_gated r :
  gated (trace r) -> exists p, iterate sha256Hex w opts r = Ok p /\ gated (trace p.2).
Proof using.
  intros Hg. unfold iterate.
  set (o := observe w (iterations r)).
  set (d := classifyRecovery {| observation := o; retryBudget := run_budget r |}).
  set (e := A_emit (severity d) ("classified:" +:+ classification_name (classification d))).
  set (r1 := {| run_lifecycle := run_lifecycle r; iterations := S (iterations r) |}).
  assert (gated (trace r1)) as Hg1 by (apply gated_app; [done|not_restart]).
  destruct (decide (classification d = C_continue)) as [Hc|Hc].
  { destruct (_ || _); eexists; (split; [reflexivity|]); done. }
  destruct (requiresVanishBeforeAction (classification d)) eqn:Ev.
  - destruct (writeVanish_spec r1 o (classification d)) as (ok & r2 & -> & Ht & Hcov & _).
    cbn [outcome_bind fst snd]. eexists. split; [reflexivity|].
    assert (gated (trace r2)) as Hg2 by (rewrite Ht; apply gated_app; [done|not_restart]).
    destruct ok; [|done]. apply (recover_gated r2); [done|]. intros Hr. rewrite Ht.
    eexists (trace r), o, _, e, _. split; [|split; [by apply restart_decision|by apply Hcov]].
    simpl. by rewrite <- app_assoc.
  - eexists. split; [reflexivity|]. apply (recover_gated r1); [done|].
    intros [E|E]; by rewrite E in Ev.
Qed.

Lemma iterate_all_gated k r :
  gated (trace r) -> exists r', iterate_all sha256Hex w opts k r = Ok r' /\ gated (trace r').
Proof using.
  revert r. induction k as [|k IH]; intros r Hg; simpl; [by exists r|].
  destruct (iterate_gated r Hg) as ([go r1] & -> & Hg1). simpl in *. destruct go; [by apply IH|].
  by exists r1.
Qed.

(** C7.  No restart loses data: whatever the observations, preservation
    results and submissions, [operate] returns, and every time it recreates
    the transport the three steps before are an observation of a vanished
    owner - clean or without delta for a clean restart, dirty for a preserving
    one, never unknown and never over a deleted worktree - and the writing of
    a valid [vanish] receipt that names this delta and, when it is dirty,
    forbids restart-clean, delete and reset. *)
Theorem operate_preserves_before_restart :
  exists res, operate sha256Hex w opts = Ok res /\ gated (trace (final res)).
Proof using.
  unfold operate. destruct (iterate_all_gated (opt_maxIterations opts) (start_run w opts)) as (r & -> & Hg).
  - unfold start_run. simpl. apply (gated_app [] _); [|not_restart]. intros [] c post; done.
  - cbn [outcome_bind]. eexists. split; [reflexivity|].
    repeat case_decide; simpl; (apply gated_app; [done|not_restart]).
Qed.

(** ** Bounds and completion *)

(** How often a classification was acted on. *)
Definition times (c : RecoveryClassification) (l : list RecoveryClassification) : Z :=
  Z.of_nat (length (filter (fun x => x = c) l)).

Lemma times_snoc c l x : times c (l ++ [x]) = (times c l + if decide (x = c) then 1 else 0)%Z.
Proof using. unfold times. rewrite filter_app, length_app, filter_cons. case_decide; simpl; lia. Qed.

Record accounted (r : run) : Prop := {
  a_iterations : length (classifications r) = iterations r;
  a_submits : Z.of_nat (submits r) =
    (1 + times C_reinject_prompt (classifications r) + times C_restart_clean (classifications r)
     + times C_restart_preserve_delta (classifications r))%Z;
  a_reinject : (times C_reinject_prompt (classifications r)
    + Z.max 0 (reinjectPrompt (run_budget r)) = Z.max 0 (reinjectPrompt (opt_retryBudget opts)))%Z;
  a_dirty : (times C_restart_preserve_delta (classifications r)
    + Z.max 0 (dirtyVanishPreserve (run_budget r))
    = Z.max 0 (dirtyVanishPreserve (opt_retryBudget opts)))%Z
}.

(** What every run satisfies when it ends. *)
Record bounded_run (r : run) : Prop := {
  b_iterations : length (classifications r) = iterations r;
  b_submits : submits r <= S (iterations r);
  b_reinject : (times C_reinject_prompt (classifications r)
    <= Z.max 0 (reinjectPrompt (opt_retryBudget opts)))%Z;
  b_dirty : (times C_restart_preserve_delta (classifications r)
    <= Z.max 0 (dirtyVanishPreserve (opt_retryBudget opts)))%Z
}.

Lemma times_total l :
  (times C_reinject_prompt l + times C_restart_clean l + times C_restart_preserve_delta l
   <= Z.of_nat (length l))%Z.
Proof using.
  induction l as [|x l IH] using rev_ind; [done|].
  rewrite !times_snoc, length_app. simpl. destruct x; repeat (case_decide; try discriminate); lia.
Qed.

Lemma accounted_bounded r : accounted r -> bounded_run r.
Proof using.
  intros [Hl Hs Hr Hd]. pose proof (times_total (classifications r)).
  constructor; first [done|lia].
Qed.

(** The last observation showed the work complete. *)
Definition observed_completion (r : run) : Prop :=
  exists n, iterations r = S n /\ last (classifications r) = Some C_continue /\
    ("completed" ∈ observedSignals (observe w n) \/ obs_lifecycle (observe w n) = L_finalizing).

Definition going (l : HarnessLifecycle) : Prop := l = L_observing \/ l = L_submitted.

(** How the loop leaves a state behind. *)
Definition settled_run (r : run) : Prop :=
  (run_lifecycle r = L_finalizing /\ observed_completion r) \/
  (run_lifecycle r = L_blocked /\ run_blockers r <> []).

Lemma budget_granted o b :
  let c := classification (classifyRecovery {| observation := o; retryBudget := b |}) in
  (c = C_reinject_prompt -> 0 < reinjectPrompt b)%Z /\
  (c = C_restart_preserve_delta -> 0 < dirtyVanishPreserve b)%Z /\ c <> C_send_enter.
Proof using.
  destruct o as [lc live gd sg rk]. unfold classifyRecovery, decision. simpl.
  destruct rk, live, gd; simpl; repeat case_decide; repeat (case_match; simpl); simpl;
    split_and!; try done.
Qed.

(** An iteration that has recorded its classification [c] and not acted yet. *)
Record pending (r : run) (cs : list RecoveryClassification) (c : RecoveryClassification) : Prop := {
  p_classifications : classifications r = cs ++ [c];
  p_iterations : length (cs ++ [c]) = iterations r;
  p_submits : Z.of_nat (submits r) = (1 + times C_reinject_prompt cs + times C_restart_clean cs
     + times C_restart_preserve_delta cs)%Z;
  p_reinject : (times C_reinject_prompt cs + Z.max 0 (reinjectPrompt (run_budget r))
     = Z.max 0 (reinjectPrompt (opt_retryBudget opts)))%Z;
  p_dirty : (times C_restart_preserve_delta cs + Z.max 0 (dirtyVanishPreserve (run_budget r))
     = Z.max 0 (dirtyVanishPreserve (opt_retryBudget opts)))%Z;
  p_reinject_granted : (c = C_reinject_prompt -> 0 < reinjectPrompt (run_budget r))%Z;
  p_dirty_granted : (c = C_restart_preserve_delta -> 0 < dirtyVanishPreserve (run_budget r))%Z
}.

(** Evaluate the counters of a known classification. *)
Ltac count_times :=
  rewrite ?times_snoc in *; repeat (case_decide; try discriminate); unfold spend;
  repeat match goal with H : ?c = ?c -> _ |- _ => specialize (H eq_refl) end; first [done|lia].

Lemma pending_continue r cs : pending r cs C_continue -> accounted r.
Proof using.
  intros [Hcs Hl Hs Hr Hd _ _]. constructor; rewrite Hcs; [done|..]; count_times.
Qed.

Lemma pending_bounded r cs c : pending r cs c -> bounded_run r.
Proof using.
  intros [Hcs Hl Hs Hr Hd Gr Gd]. pose proof (times_total cs) as Ht.
  assert (length cs + 1 = iterations r) by (rewrite length_app in Hl; done).
  constructor; rewrite ?Hcs; [done|lia|..]; destruct c; count_times.
Qed.

Lemma pending_recover r cs c :
  pending r cs c -> c <> C_continue -> c <> C_send_enter ->
  let p := recover w r c in
  iterations p.2 = iterations r /\
  (if p.1 then accounted p.2 /\ run_lifecycle p.2 = run_lifecycle r
   else bounded_run p.2 /\ run_lifecycle p.2 = L_blocked /\ run_blockers p.2 <> []).
Proof using.
  intros Hp H1 H2. pose proof (pending_bounded r cs c Hp) as [B1 B2 B3 B4].
  destruct Hp as [Hcs Hl Hs Hr Hd Gr Gd].
  destruct c; try done; simpl; (split; [done|]);
    try (split; [by constructor|split; [done|by destruct (run_blockers r)]]);
    (split; [|done]); constructor; simpl; rewrite ?Hcs; try done; count_times.
Qed.

Lemma iterate_accounted r :
  accounted r -> going (run_lifecycle r) ->
  exists p, iterate sha256Hex w opts r = Ok p /\ iterations p.2 = S (iterations r) /\
    (if p.1 then accounted p.2 /\ going (run_lifecycle p.2)
     else bounded_run p.2 /\ settled_run p.2).
Proof using.
  intros [Hl Hs Hr Hd] Hgo. unfold iterate.
  set (o := observe w (iterations r)).
  set (d := classifyRecovery {| observation := o; retryBudget := run_budget r |}).
  destruct (budget_granted o (run_budget r)) as (G1 & G2 & G3). fold d in G1, G2, G3.
  set (r1 := {| run_lifecycle := run_lifecycle r; iterations := S (iterations r) |}).
  assert (pending r1 (classifications r) (classification d)) as Hp.
  { constructor; try done. simpl. rewrite length_app. simpl. lia. }
  destruct (decide (classification d = C_continue)) as [Hc|Hc].
  - rewrite Hc in Hp. pose proof (pending_continue _ _ Hp) as Ha.
    destruct (_ || _) eqn:E; (eexists; split; [reflexivity|]); simpl; (split; [done|]); [|done].
    split; [by destruct (accounted_bounded _ Ha); constructor|].
    left. split; [done|]. exists (iterations r). simpl. split; [done|].
    rewrite last_snoc, Hc. split; [done|].
    apply orb_true_iff in E. by rewrite includes_true, bool_decide_eq_true in E.
  - destruct (requiresVanishBeforeAction (classification d)) eqn:Ev.
    + destruct (writeVanish_spec r1 o (classification d))
        as (ok & r2 & -> & _ & _ & E1 & E2 & E3 & E4 & E5 & E6).
      cbn [outcome_bind fst snd]. eexists. split; [reflexivity|].
      assert (pending r2 (classifications r) (classification d)) as Hp2.
      { destruct Hp. constructor; by rewrite ?E1, ?E2, ?E3, ?E4. }
      destruct ok; simpl.
      * destruct (pending_recover _ _ _ Hp2 Hc G3) as [A1 A2].
        split; [by rewrite A1, E2|].
        destruct (recover w r2 (classification d)) as [[] r3]; simpl in *.
        -- destruct A2 as [? ->]. by rewrite E5.
        -- destruct A2 as [? ?]. split; [done|by right].
      * split; [done|]. destruct (pending_bounded _ _ _ Hp2). split; [by constructor|].
        right. split; [done|]. simpl. by destruct (run_blockers r2).
    + eexists. split; [reflexivity|]. destruct (pending_recover _ _ _ Hp Hc G3) as [A1 A2].
      split; [done|]. destruct (recover w r1 (classification d)) as [[] r3]; simpl in *.
      * by destruct A2 as [? ->].
      * destruct A2 as [? ?]. split; [done|by right].
Qed.

Lemma iterate_all_accounted k r :
  accounted r -> going (run_lifecycle r) ->
  exists r', iterate_all sha256Hex w opts k r = Ok r' /\ bounded_run r' /\
    iterations r' <= iterations r + k /\ (going (run_lifecycle r') \/ settled_run r').
Proof using.
  revert r. induction k as [|k IH]; intros r Ha Hgo; simpl.
  - exists r. split_and!; [done|by apply accounted_bounded|lia|by left].
  - destruct (iterate_accounted r Ha Hgo) as ([go r1] & -> & Hi & Hr). simpl in *. destruct go.
    + destruct Hr as [Ha1 Hg1]. destruct (IH r1 Ha1 Hg1) as (r' & H1 & H2 & H3 & H4).
      exists r'. split_and!; [done|done|lia|done].
    + destruct Hr as [Hb Hs]. exists r1. split_and!; [done|done|lia|by right].
Qed.

(** The loop is bounded and never completes by exhaustion: [operate]
    returns after at most [maxIterations] iterations, with at most one
    submission per iteration besides the first, at most [reinjectPrompt]
    reinjections and [dirtyVanishPreserve] preserving restarts.  It reports
    completion exactly when finalization was run and succeeded, which is only
    after the last iteration observed a live completion; otherwise the session
    is blocked, and a run that was not finalized says why. *)
Theorem operate_bounded :
  exists res, operate sha256Hex w opts = Ok res /\
    bounded_run (final res) /\ iterations (final res) <= opt_maxIterations opts /\
    (completed res = true <-> exists f, finalize res = Some f /\ fin_completed f = true) /\
    (is_Some (finalize res) -> observed_completion (final res)) /\
    final_lifecycle res = (if completed res then L_completed else L_blocked) /\
    (finalize res = None -> final_blockers res <> []).
Proof using.
  unfold operate.
  destruct (iterate_all_accounted (opt_maxIterations opts) (start_run w opts))
    as (r & -> & Hb & Hi & Hend).
  - unfold start_run. constructor; simpl; unfold times; simpl; lia.
  - unfold start_run, going. simpl. destruct (singleFlightAccept w 0); auto.
  - cbn [outcome_bind]. eexists. split; [reflexivity|]. simpl in Hi. destruct Hb.
    destruct (decide (run_lifecycle r = L_blocked)) as [Hl|Hl].
    { simpl. split_and!; try done.
      - split; [done|]. by intros (f & ? & _).
      - intros _. destruct Hend as [[Hg|Hg]|[[Hg _]|[_ ?]]]; congruence. }
    destruct (decide (run_lifecycle r <> L_finalizing)) as [Hf|Hf]; simpl.
    + split_and!; try done.
      * split; [done|]. by intros (f & ? & _).
      * intros _. by destruct (run_blockers r).
    + split_and!; try done; [split; [by eexists|by intros (f & [= <-] & ?)]|].
      intros _. destruct Hend as [[Hg|Hg]|[[_ H]|[H _]]]; try done; exfalso; apply Hf; congruence.
Qed.
End gate.

(** ** What preservation captures *)

(** The untracked paths listed by git. *)
Definition listed (git_ls_files : option string) : list string :=
  match git_ls_files with
  | Some out => filter (fun s => s <> EmptyString) (trim <$> split_lines out EmptyString)
  | None => []
  end.

(** A snapshot is complete exactly when every dirty component is really
    captured: the tracked diff is blank or a stash entry was created and
    stored, and every untracked file could be read and hashed.  The manifest
    never drops a listed path, and the tree is reported clean only when the
    diff is blank and nothing is untracked. *)
Theorem snapshot_complete_exact (sha256 : string -> string) (diff ls stash : option string)
    (store : bool) (readFile : string -> option string) :
  (forall buf, sha256 buf <> "unreadable") ->
  let p := preserveDirtyWorktree sha256 diff ls stash store readFile in
  (snapshotComplete p = true <->
     (trim (default EmptyString diff) = EmptyString \/
      (store = true /\ exists out, stash = Some out /\ trim out <> EmptyString)) /\
     Forall (fun path => is_Some (readFile path)) (listed ls)) /\
  (entry_path <$> untrackedManifest p) = listed ls /\
  (pres_gitDelta p = G_clean <->
     trim (default EmptyString diff) = EmptyString /\ listed ls = []).
Proof.
  intros Hsha p. unfold p, preserveDirtyWorktree. simpl. fold (listed ls).
  assert (forall l, forallb (fun e => negb (bool_decide (entry_sha256 e = "unreadable")))
    (manifest_entry sha256 readFile <$> l) = true <-> Forall (fun path => is_Some (readFile path)) l) as Hm.
  { intros l. rewrite forallb_Forall, Forall_fmap. apply Forall_iff. intros path. simpl.
    unfold compose, manifest_entry.
    destruct (readFile path) as [buf|]; simpl; [|by split; [|intros []]].
    rewrite bool_decide_false by apply Hsha. by split. }
  split_and!.
  - rewrite andb_true_iff, orb_true_iff, !bool_decide_eq_true, Hm. f_equiv. f_equiv.
    destruct stash as [out|]; [|split; [by intros []|by intros (_ & ? & ? & _)]].
    case_decide as Ht; [destruct store|]; split; try (by intros []);
      try (by intros (? & ? & [= <-] & ?)); intros _; eauto.
  - rewrite <- list_fmap_compose. transitivity (id <$> listed ls); [|apply list_fmap_id].
    apply list_fmap_ext. intros i path _. simpl. unfold manifest_entry. by destruct (readFile path).
  - destruct (decide (trim (default EmptyString diff) = EmptyString)) as [Ht|Ht];
      [rewrite bool_decide_true by done|rewrite bool_decide_false by done];
      destruct (listed ls); simpl; naive_solver.
Qed.

Lemma snapshot_complete_exact_witness :
  let p := preserveDirtyWorktree (fun _ => "h") (Some "diff") (Some "a.txt") (Some "oid") true
             (fun _ => Some "data") in
  (snapshotComplete p = true <->
     (trim (default EmptyString (Some "diff")) = EmptyString \/
      (true = true /\ exists out, Some "oid" = Some out /\ trim out <> EmptyString)) /\
     Forall (fun path => is_Some (Some "data")) (listed (Some "a.txt"))) /\
  (entry_path <$> untrackedManifest p) = listed (Some "a.txt") /\
  (pres_gitDelta p = G_clean <->
     trim (default EmptyString (Some "diff")) = EmptyString /\ listed (Some "a.txt") = []).
Proof. apply (snapshot_complete_exact (fun _ => "h")). intros buf. discriminate. Defined.

(** ** Two runs worth knowing *)

Definition vanished (d : GitDelta) : Observation := {|
  obs_lifecycle := L_observing; ownerLive := false; gitDelta := d; observedSignals := [];
  risk := Risk_normal |}.

Definition demo_world (d : GitDelta) (complete : bool) : world := {|
  observe := fun _ => vanished d;
  preserve := fun _ => {| pres_gitDelta := d; trackedDiff := "x"; trackedDiffSha256 := "h";
    untrackedManifest := [{| entry_path := "lost.txt"; entry_size := -1;
                             entry_sha256 := "unreadable" |}];
    stashRef := Some "oid"; snapshotComplete := complete |};
  singleFlightAccept := fun _ => true; vanish_id := fun _ => "v"; now := fun _ => "t";
  runFinalize := {| fin_completed := true; fin_blockers := [] |} |}.

Definition demo_options (b : RetryBudget) : OperateOptions := {|
  opt_sessionId := "s"; opt_workspace := "/w"; opt_branch := "main"; opt_retryBudget := b;
  opt_maxIterations := 10 |}.

Definition no_budget : RetryBudget := {|
  reinjectPrompt := 0; zeroDeltaVanish := 0; dirtyVanishPreserve := 0; validationRepair := 0 |}.

(** The classifications of a run. *)
Definition decisions (b : RetryBudget) (w : world) : result (list RecoveryClassification) :=
  outcome_bind (operate demo_hash w (demo_options b)) (fun r => Ok (classifications (final r))).

(** A stash reference outweighs an incomplete snapshot: with an unreadable
    untracked file the vanish receipt is still valid and the restart goes
    ahead. *)
Lemma incomplete_snapshot_restarts :
  decisions DEFAULT_RETRY_BUDGET (demo_world G_dirty false)
    = Ok [C_restart_preserve_delta; C_fallback_codex_exec].
Proof. vm_compute. reflexivity. Qed.

(** Clean restarts are not charged against any budget: with every budget at
    zero only [maxIterations] bounds them. *)
Lemma clean_restarts_unbudgeted :
  decisions no_budget (demo_world G_clean true) = Ok (replicate 10 C_restart_clean).
Proof. vm_compute. reflexivity. Qed.
