(* ===== verification/EventStream.v ===== *)
(** * The session event stream ([sdk/host/events.ts])

    A bounded ring of the events of the current generation, from which a
    reconnecting client replays what it missed or learns that it must
    resynchronize.  The payload of a frame is a parameter. *)

From S2P Require Import Prelude.

Local Open Scope Z_scope.

Section stream.
Context {A : Type}.

(** A frame stamped with its generation and sequence number. *)
Record EventFrame := { frame_generation : Z; frame_seq : Z; payload : A }.

Inductive EventReplayGap :=
| generation_reset (fromGeneration toGeneration : Z) (resyncQueries : list string)
| sequence_gap (fromSeq toSeq : Z) (resyncQueries : list string).

Record EventReplay := { events : list EventFrame; gap : option EventReplayGap }.

Record SessionEventStream := {
  generation : Z;
  seq : Z;
  frames : list EventFrame;
  ringSize : Z;
  resync : list string
}.

Definition new_stream (generation ringSize : option Z) (resyncQueryIds : option (list string))
    : SessionEventStream := {|
  generation := default 0 generation;
  seq := 0;
  frames := [];
  ringSize := default 256 ringSize;
  resync := default ["Q01"; "Q02"; "Q03"]%string resyncQueryIds |}.

Definition restart (s : SessionEventStream) : Z * SessionEventStream :=
  (generation s + 1,
   {| generation := generation s + 1; seq := 0; frames := []; ringSize := ringSize s;
      resync := resync s |}).

(** [Array.prototype.shift] on the array itself. *)
Definition shifted (l : list EventFrame) : list EventFrame := drop 1 l.

Definition emit (s : SessionEventStream) (frame : A) : EventFrame * SessionEventStream :=
  let event := {| frame_generation := generation s; frame_seq := seq s + 1; payload := frame |} in
  let pushed := frames s ++ [event] in
  (event,
   {| generation := generation s; seq := seq s + 1;
      frames := if decide (ringSize s < Z.of_nat (length pushed)) then shifted pushed else pushed;
      ringSize := ringSize s; resync := resync s |}).

Definition replay (s : SessionEventStream) (lastSeq : Z) (gen : option Z) : EventReplay :=
  let gen := default (generation s) gen in
  let missed := filter (fun f => lastSeq < frame_seq f) (frames s) in
  if decide (gen <> generation s) then
    {| events := frames s; gap := Some (generation_reset gen (generation s) (resync s)) |}
  else
    let oldest := match frames s with f :: _ => frame_seq f | [] => seq s + 1 end in
    let replayFrom := lastSeq + 1 in
    if decide (replayFrom < oldest) then
      {| events := filter (fun f => oldest <= frame_seq f) (frames s);
         gap := Some (sequence_gap replayFrom (oldest - 1) (resync s)) |}
    else {| events := missed; gap := None |}.

(** ** Histories *)

(** The calls that change a stream. *)
Inductive op := O_emit (frame : A) | O_restart.

Definition apply_op (s : SessionEventStream) (o : op) : SessionEventStream :=
  match o with
  | O_emit frame => (emit s frame).2
  | O_restart => (restart s).2
  end.

(** The complete log of the current generation: what an unbounded stream would
    hold. *)
Definition log_op (log : list A) (o : op) : list A :=
  match o with O_emit frame => log ++ [frame] | O_restart => [] end.

(** The log as stamped frames, from sequence number [n + 1] on. *)
Fixpoint stamp (g n : Z) (log : list A) : list EventFrame :=
  match log with
  | [] => []
  | x :: log => {| frame_generation := g; frame_seq := n + 1; payload := x |} :: stamp g (n + 1) log
  end.

(** How many events of the log the ring no longer holds. *)
Definition evicted (s : SessionEventStream) (log : list A) : nat :=
  (length log - Z.to_nat (ringSize s))%nat.

Record holds (s : SessionEventStream) (log : list A) : Prop := {
  h_seq : seq s = Z.of_nat (length log);
  h_frames : frames s = drop (evicted s log) (stamp (generation s) 0 log)
}.

Lemma stamp_app g n l l' : stamp g n (l ++ l') = stamp g n l ++ stamp g (n + Z.of_nat (length l)) l'.
Proof using.
  revert n. induction l as [|x l IH]; intros n; simpl; [by rewrite Z.add_0_r|].
  rewrite IH. do 3 f_equal. lia.
Qed.

Lemma length_stamp g n l : length (stamp g n l) = length l.
Proof using. revert n. induction l as [|x l IH]; intros n; simpl; [done|]. by rewrite IH. Qed.

Lemma drop_stamp g n k l : drop k (stamp g n l) = stamp g (n + Z.of_nat (k `min` length l)) (drop k l).
Proof using.
  revert n k. induction l as [|x l IH]; intros n [|k]; simpl; rewrite ?Z.add_0_r; try done.
  rewrite IH. f_equal. lia.
Qed.

Lemma elem_of_stamp g n l f : f ∈ stamp g n l -> n < frame_seq f.
Proof using.
  revert n. induction l as [|x l IH]; intros n H; simpl in H; [by apply elem_of_nil in H|].
  apply elem_of_cons in H as [->|H]; simpl; [lia|]. apply IH in H. lia.
Qed.

(** Filtering by sequence number is dropping. *)
Lemma filter_stamp g n k l :
  n <= k -> filter (fun f => k < frame_seq f) (stamp g n l) = drop (Z.to_nat (k - n)) (stamp g n l).
Proof using.
  revert n. induction l as [|x l IH]; intros n Hk; [by destruct (Z.to_nat _)|].
  destruct (decide (k = n)) as [->|Hne].
  - rewrite Z.sub_diag, filter_all; [done|]. apply Forall_forall. intros f. apply elem_of_stamp.
  - cbn [stamp]. rewrite filter_cons. simpl. rewrite decide_False by lia.
    rewrite IH by lia. replace (Z.to_nat (k - n)) with (S (Z.to_nat (k - (n + 1)))) by lia. done.
Qed.

Lemma filter_drop_stamp g k e l :
  Z.of_nat e <= k ->
  filter (fun f => k < frame_seq f) (drop e (stamp g 0 l)) = drop (Z.to_nat k) (stamp g 0 l).
Proof using.
  intros Hk. destruct (decide (e <= length l)%nat).
  - assert (drop e (stamp g 0 l) = stamp g (Z.of_nat e) (drop e l)) as E.
    { rewrite drop_stamp. f_equal. lia. }
    rewrite E, filter_stamp by lia. rewrite <- E, drop_drop. f_equal. lia.
  - rewrite !drop_ge by (rewrite length_stamp; lia). done.
Qed.

Lemma emit_holds s log x : holds s log -> holds (emit s x).2 (log ++ [x]).
Proof using.
  intros [Hs Hf].
  set (ev := {| frame_generation := generation s; frame_seq := seq s + 1; payload := x |}).
  assert (frames s ++ [ev] = drop (evicted s log) (stamp (generation s) 0 (log ++ [x]))) as E.
  { rewrite stamp_app, drop_app_le by (rewrite length_stamp; unfold evicted; lia).
    rewrite Hf. unfold ev. by rewrite Hs. }
  unfold emit. fold ev. rewrite E. constructor; simpl; [rewrite length_app; simpl; lia|].
  rewrite length_drop, length_stamp. unfold evicted, shifted in *. simpl.
  rewrite length_app. simpl. case_decide.
  - rewrite drop_drop. f_equal. lia.
  - f_equal. lia.
Qed.

Lemma run_holds ops s log :
  holds s log -> holds (foldl apply_op s ops) (foldl log_op log ops).
Proof using.
  apply foldl_simulation. clear. intros s log [x|] H; [by apply emit_holds|by constructor].
Qed.

Lemma oldest_frame s log :
  holds s log ->
  match frames s with f :: _ => frame_seq f | [] => seq s + 1 end = Z.of_nat (evicted s log) + 1.
Proof using.
  intros [Hs Hf]. rewrite Hf. unfold evicted in *.
  destruct (drop _ (stamp _ _ _)) as [|f fs] eqn:E.
  - apply (f_equal length) in E. rewrite length_drop, length_stamp in E. simpl in E. lia.
  - rewrite drop_stamp in E. destruct (drop _ log); [done|]. injection E as <- _. simpl. lia.
Qed.

(** C34.  Exact replay: after any history of emissions and restarts, let the log
    be everything emitted in the current generation.  A client of this
    generation that has seen [lastSeq] events and asks again gets the rest of
    the log, complete and in order, unless the ring evicted part of it: then
    it gets everything retained and a gap naming exactly the missing sequence
    numbers.  A client of another generation gets everything retained and a
    generation reset. *)
Theorem replay_exact (g ring : option Z) (ids : option (list string)) (ops : list op) (lastSeq : Z) :
  let s := foldl apply_op (new_stream g ring ids) ops in
  let log := foldl log_op [] ops in
  let e := evicted s log in
  seq s = Z.of_nat (length log) /\
  (forall g', g' <> generation s -> replay s lastSeq (Some g') =
     {| events := drop e (stamp (generation s) 0 log);
        gap := Some (generation_reset g' (generation s) (resync s)) |}) /\
  (forall g', g' = None \/ g' = Some (generation s) ->
     (Z.of_nat e <= lastSeq -> replay s lastSeq g' =
        {| events := drop (Z.to_nat lastSeq) (stamp (generation s) 0 log); gap := None |}) /\
     (lastSeq < Z.of_nat e -> replay s lastSeq g' =
        {| events := drop e (stamp (generation s) 0 log);
           gap := Some (sequence_gap (lastSeq + 1) (Z.of_nat e) (resync s)) |})).
Proof using.
  intros s log e. assert (holds s log) as Hh by by apply run_holds.
  pose proof (oldest_frame s log Hh) as Ho. destruct Hh as [Hs Hf].
  split; [done|]. split.
  - intros g' Hg. unfold replay. simpl. by rewrite decide_True, Hf.
  - intros g' Hg. assert (default (generation s) g' = generation s) as Eg by by destruct Hg as [->| ->].
    split; intros Hl; unfold replay; rewrite Eg, Ho, (decide_False (P := _ <> _)) by (intros []; done).
    + rewrite decide_False by (fold e; lia). by rewrite Hf, filter_drop_stamp.
    + fold e. rewrite decide_True by lia. f_equal; [|do 2 f_equal; lia].
      rewrite Hf. fold e. apply filter_all, Forall_forall. intros f Hin.
      rewrite drop_stamp in Hin. destruct (decide (e <= length log)%nat).
      * apply elem_of_stamp in Hin. lia.
      * rewrite drop_ge in Hin by lia. by apply elem_of_nil in Hin.
Qed.
End stream.
