(* ===== verification/ReverseLeases.v ===== *)
(** * Reverse RPC leases ([sdk/host/reverse-leases.ts])

    A connection provides a capability under a time-limited lease; the session
    sends reverse requests to the live provider and settles each at most once.
    Leases are shared mutable objects (the idempotency table and the lease
    table point at the same one), so each carries its identity.  The clock is
    read once per call, fresh ids are arguments, callbacks do not re-enter the
    runtime, and what they observe is recorded in order. *)

From S2P Require Import Prelude.
From Stdlib Require Import Ascii.

Local Open Scope Z_scope.

Definition REVERSE_LEASE_TTL_MS : Z := 15000.
Definition REVERSE_RECLAIM_GRACE_MS : Z := 15000.
Definition MAX_REVERSE_OUTSTANDING : Z := 64.
Definition MAX_REVERSE_PAYLOAD_BYTES : Z := 256 * 1024.

(** The codes of [ReverseLeaseError]; [disposing] is the plain [Error]. *)
Inductive reverse_error :=
| lease_unavailable | lease_expired | provider_lease_conflict | provider_required
| not_lease_owner | payload_too_large | too_many_outstanding | unknown_request
| idempotency_conflict | disposing_error.

Inductive cancel_reason := provider_disconnected | lease_released.

Section runtime.
Context {Def Payload : Type}.
(** [registrationFingerprint], and [Buffer.byteLength(JSON.stringify(p))]. *)
Context (registrationFingerprint : string -> Def -> option string -> string).
Context (payload_bytes : Payload -> Z).

Record ProviderLease := {
  object : nat;
  leaseId : string;
  connectionId : string;
  capability : string;
  definitions : Def;
  expiresAt : Z;
  graceUntil : option Z;
  active : bool
}.

Record Outstanding := { o_connectionId : string; o_capability : string; o_leaseId : string }.

(** How a request's promise settles. *)
Inductive settlement := resolved (value : Payload) | rejected (why : string).

Inductive effect :=
| Install (cap : string) (d : Def)
| Remove (cap : string)
| Send (conn id cap lease method : string) (p : Payload)
| Settle (id : string) (s : settlement)
| Cancel (id : string) (why : cancel_reason).

Record ReverseLeaseRuntime := {
  leaseTtlMs : Z;
  leases : list (string * ProviderLease);
  idempotency : list (string * (string * nat));
  outstanding : list (string * Outstanding);
  installedCapabilities : list string;
  next_object : nat;
  disposing : bool;
  log : list effect
}.

Definition create (ttl : option Z) : ReverseLeaseRuntime := {|
  leaseTtlMs := default REVERSE_LEASE_TTL_MS ttl; leases := []; idempotency := [];
  outstanding := []; installedCapabilities := []; next_object := 0; disposing := false; log := [] |}.

Implicit Types (rt : ReverseLeaseRuntime).

Definition set_leases rt ls : ReverseLeaseRuntime := {|
  leaseTtlMs := leaseTtlMs rt; leases := ls; idempotency := idempotency rt;
  outstanding := outstanding rt; installedCapabilities := installedCapabilities rt;
  next_object := next_object rt; disposing := disposing rt; log := log rt |}.

Definition set_outstanding rt os (l : list effect) : ReverseLeaseRuntime := {|
  leaseTtlMs := leaseTtlMs rt; leases := leases rt; idempotency := idempotency rt;
  outstanding := os; installedCapabilities := installedCapabilities rt;
  next_object := next_object rt; disposing := disposing rt; log := log rt ++ l |}.

Definition set_installed rt cs (l : list effect) : ReverseLeaseRuntime := {|
  leaseTtlMs := leaseTtlMs rt; leases := leases rt; idempotency := idempotency rt;
  outstanding := outstanding rt; installedCapabilities := cs;
  next_object := next_object rt; disposing := disposing rt; log := log rt ++ l |}.

(** ** Private methods *)

Definition installDefinitionsFor rt cap d :=
  set_installed rt
    (if decide (cap ∈ installedCapabilities rt) then installedCapabilities rt
     else installedCapabilities rt ++ [cap])
    [Install cap d].

Definition removeDefinitions rt cap :=
  if decide (cap ∈ installedCapabilities rt)
  then set_installed rt (filter (fun c => c <> cap) (installedCapabilities rt)) [Remove cap]
  else rt.

Definition cancelForConnection rt conn (why : cancel_reason) :=
  let mine := filter (fun p => o_connectionId p.2 = conn) (outstanding rt) in
  set_outstanding rt (filter (fun p => o_connectionId p.2 <> conn) (outstanding rt))
    (mjoin ((fun p => [Settle p.1 (rejected "request_cancelled"); Cancel p.1 why]) <$> mine)).

Definition owner rt conn id : outcome reverse_error ProviderLease :=
  match find_first (fun p => bool_decide (leaseId p.2 = id)) (leases rt) with
  | Some (_, l) =>
      if active l && bool_decide (connectionId l = conn) then Ok l else Throw not_lease_owner
  | None => Throw not_lease_owner
  end.

Definition liveLease rt now cap : option ProviderLease * ReverseLeaseRuntime :=
  match map_get (leases rt) cap with
  | None => (None, rt)
  | Some l =>
      if negb (active l) || bool_decide (expiresAt l <= now) then
        (None, if decide (expiresAt l <= now) then removeDefinitions rt cap else rt)
      else (Some l, rt)
  end.

(** The sweep timer's callback. *)
Definition expireStaleLeases rt now :=
  foldl (fun rt (p : string * ProviderLease) =>
    if decide (expiresAt p.2 <= now) then removeDefinitions rt (capability p.2) else rt) rt (leases rt).

Definition payload_ok (p : Payload) : bool := bool_decide (payload_bytes p <= MAX_REVERSE_PAYLOAD_BYTES).

(** ** Public methods *)

Definition idempotency_key (conn : string) (key : option string) : string :=
  conn +:+ String (ascii_of_nat 0) (default EmptyString key).

(** A new lease object in the table, remembered under its idempotency key. *)
Definition install_lease rt now conn cap d (id : string) (key : option string) (fp : string)
    : ProviderLease * ReverseLeaseRuntime :=
  let rt := installDefinitionsFor rt cap d in
  let lease := {|
    object := next_object rt; leaseId := id; connectionId := conn; capability := cap;
    definitions := d; expiresAt := now + leaseTtlMs rt; graceUntil := None; active := true |} in
  (lease,
   {| leaseTtlMs := leaseTtlMs rt; leases := map_set (leases rt) cap lease;
      idempotency := match key with
                     | Some (String _ _) =>
                         map_set (idempotency rt) (idempotency_key conn key) (fp, object lease)
                     | _ => idempotency rt
                     end;
      outstanding := outstanding rt; installedCapabilities := installedCapabilities rt;
      next_object := S (next_object rt); disposing := disposing rt; log := log rt |}).

Definition registerProvider rt now (uuid : string) conn cap d (expectedLeaseId key : option string)
    : outcome reverse_error ProviderLease * ReverseLeaseRuntime :=
  if disposing rt then (Throw disposing_error, rt) else
  let fp := registrationFingerprint cap d expectedLeaseId in
  let existing := map_get (leases rt) cap in
  let replay := match key with
                | Some (String _ _) => map_get (idempotency rt) (idempotency_key conn key)
                | _ => None
                end in
  let conflict := match replay with Some (fp', _) => bool_decide (fp' <> fp) | None => false end in
  if conflict then (Throw idempotency_conflict, rt) else
  let replayed :=
    match replay, existing with
    | Some (_, obj), Some cur =>
        if bool_decide (obj = object cur) && active cur && bool_decide (now < expiresAt cur)
        then Some cur else None
    | _, _ => None
    end in
  match replayed with
  | Some cur => (Ok cur, rt)
  | None =>
      match existing with
      | None =>
          let '(lease, rt) := install_lease rt now conn cap d uuid key fp in (Ok lease, rt)
      | Some cur =>
          let rt := if decide (expiresAt cur <= now) then removeDefinitions rt (capability cur) else rt in
          if negb (active cur) && bool_decide (now < expiresAt cur) then
            if bool_decide (connectionId cur <> conn) || bool_decide (expectedLeaseId <> Some (leaseId cur))
            then (Throw provider_lease_conflict, rt)
            else
              let '(lease, rt) := install_lease rt now conn cap d (leaseId cur) key fp in (Ok lease, rt)
          else
            let reclaiming :=
              bool_decide (expectedLeaseId = Some (leaseId cur))
              && match graceUntil cur with Some g => bool_decide (now <= g) | None => false end in
            let refreshing :=
              active cur && bool_decide (connectionId cur = conn) && bool_decide (now < expiresAt cur) in
            if negb reclaiming && negb refreshing && bool_decide (connectionId cur <> conn)
               && bool_decide (now < expiresAt cur)
            then (Throw provider_lease_conflict, rt)
            else
              let '(lease, rt) :=
                install_lease rt now conn cap d
                  (if reclaiming || refreshing then leaseId cur else uuid) key fp in
              (Ok lease, rt)
      end
  end.

Definition heartbeat rt now conn id : outcome reverse_error ProviderLease * ReverseLeaseRuntime :=
  match owner rt conn id with
  | Throw e => (Throw e, rt)
  | Ok l =>
      if decide (expiresAt l <= now) then (Throw lease_expired, removeDefinitions rt (capability l))
      else
        let l := {|
          object := object l; leaseId := leaseId l; connectionId := connectionId l;
          capability := capability l; definitions := definitions l;
          expiresAt := now + leaseTtlMs rt; graceUntil := None; active := active l |} in
        (Ok l, set_leases rt (map_set (leases rt) (capability l) l))
  end.

Definition release rt now conn id (handoffTo : option string)
    : outcome reverse_error ProviderLease * ReverseLeaseRuntime :=
  match owner rt conn id with
  | Throw e => (Throw e, rt)
  | Ok l =>
      let rt := removeDefinitions (cancelForConnection rt conn lease_released) (capability l) in
      match handoffTo with
      | Some (String _ _ as heir) =>
          let l := {|
            object := object l; leaseId := leaseId l; connectionId := heir;
            capability := capability l; definitions := definitions l;
            expiresAt := now + REVERSE_RECLAIM_GRACE_MS; graceUntil := None; active := false |} in
          (Ok l, set_leases rt (map_set (leases rt) (capability l) l))
      | _ => (Ok l, set_leases rt (map_delete (leases rt) (capability l)))
      end
  end.

Definition disconnected (now : Z) (l : ProviderLease) : ProviderLease := {|
  object := object l; leaseId := leaseId l; connectionId := connectionId l;
  capability := capability l; definitions := definitions l; expiresAt := now;
  graceUntil := Some (now + REVERSE_RECLAIM_GRACE_MS); active := active l |}.

Definition disconnect rt now conn : ReverseLeaseRuntime :=
  let mine := filter (fun p => connectionId p.2 = conn) (leases rt) in
  let rt := set_leases rt ((fun p =>
    if decide (connectionId p.2 = conn) then (p.1, disconnected now p.2) else p) <$> leases rt) in
  let rt := foldl (fun rt (p : string * ProviderLease) => removeDefinitions rt (capability p.2)) rt mine in
  cancelForConnection rt conn provider_disconnected.

(** [request]: [sent] tells whether [sendFrame] returned or threw. *)
Definition request rt now (uuid : string) cap method p (sent : bool)
    : outcome reverse_error string * ReverseLeaseRuntime :=
  if disposing rt then (Throw disposing_error, rt)
  else if negb (payload_ok p) then (Throw payload_too_large, rt)
  else
    let '(live, rt) := liveLease rt now cap in
    match live with
    | None =>
        match map_get (leases rt) cap with
        | Some l =>
            if negb (active l) && bool_decide (now < expiresAt l)
            then (Throw lease_unavailable, rt) else (Throw provider_required, rt)
        | None => (Throw provider_required, rt)
        end
    | Some l =>
        if decide (MAX_REVERSE_OUTSTANDING <= Z.of_nat (length (outstanding rt)))
        then (Throw too_many_outstanding, rt)
        else
          let o := {| o_connectionId := connectionId l; o_capability := cap; o_leaseId := leaseId l |} in
          let rt := set_outstanding rt (map_set (outstanding rt) uuid o)
                      [Send (connectionId l) uuid cap (leaseId l) method p] in
          if sent then (Ok uuid, rt)
          else (Ok uuid, set_outstanding rt (map_delete (outstanding rt) uuid)
                           [Settle uuid (rejected "send failed")])
    end.

(** The promise [sendFrame] returned rejects later. *)
Definition delivery_failed rt id : ReverseLeaseRuntime :=
  set_outstanding rt (map_delete (outstanding rt) id)
    (if decide (id ∈ (outstanding rt).*1) then [Settle id (rejected "delivery failed")] else []).

Definition respond rt conn id lease (result : Payload) (error : option string)
    : outcome reverse_error unit * ReverseLeaseRuntime :=
  if negb (payload_ok result) then (Throw payload_too_large, rt)
  else
    match map_get (outstanding rt) id with
    | None => (Throw unknown_request, rt)
    | Some o =>
        if bool_decide (o_connectionId o <> conn) || bool_decide (o_leaseId o <> lease)
        then (Throw not_lease_owner, rt)
        else
          (Ok tt, set_outstanding rt (map_delete (outstanding rt) id)
             [Settle id (match error with
                         | Some message => rejected message
                         | None => resolved result
                         end)])
    end.

Definition getLease rt now cap := liveLease rt now cap.

Definition getInstalledDefinitions rt now cap : option Def * ReverseLeaseRuntime :=
  let '(l, rt) := liveLease rt now cap in (definitions <$> l, rt).

Definition dispose rt : ReverseLeaseRuntime :=
  if disposing rt then rt
  else {|
    leaseTtlMs := leaseTtlMs rt; leases := []; idempotency := []; outstanding := [];
    installedCapabilities := []; next_object := next_object rt; disposing := false;
    log := log rt
      ++ mjoin ((fun p : string * Outstanding =>
           [Settle p.1 (rejected "request_cancelled"); Cancel p.1 lease_released]) <$> outstanding rt)
      ++ (Remove <$> installedCapabilities rt) |}.

(** ** Histories *)

Inductive call :=
| C_register (uuid conn cap : string) (d : Def) (expected key : option string)
| C_heartbeat (conn id : string)
| C_release (conn id : string) (handoffTo : option string)
| C_disconnect (conn : string)
| C_request (uuid cap method : string) (p : Payload) (sent : bool)
| C_delivery_failed (id : string)
| C_respond (conn id lease : string) (result : Payload) (error : option string)
| C_get (cap : string)
| C_sweep
| C_dispose.

Definition apply_call rt now (c : call) : ReverseLeaseRuntime :=
  match c with
  | C_register uuid conn cap d expected key => (registerProvider rt now uuid conn cap d expected key).2
  | C_heartbeat conn id => (heartbeat rt now conn id).2
  | C_release conn id heir => (release rt now conn id heir).2
  | C_disconnect conn => disconnect rt now conn
  | C_request uuid cap method p sent => (request rt now uuid cap method p sent).2
  | C_delivery_failed id => delivery_failed rt id
  | C_respond conn id lease result error => (respond rt conn id lease result error).2
  | C_get cap => (getLease rt now cap).2
  | C_sweep => expireStaleLeases rt now
  | C_dispose => dispose rt
  end.

(** The runtimes reached by calls at non-decreasing times. *)
Inductive reachable : ReverseLeaseRuntime -> Z -> Prop :=
| reach_create ttl t : reachable (create ttl) t
| reach_call rt t t' c : reachable rt t -> t <= t' -> reachable (apply_call rt t' c) t'.

(** A lease that entitles its holder. *)
Definition live (t : Z) (l : ProviderLease) : Prop := active l = true /\ t < expiresAt l.

Record inv rt (t : Z) : Prop := {
  i_keys : NoDup (leases rt).*1;
  i_capability : forall k l, map_get (leases rt) k = Some l -> capability l = k;
  i_installed : forall k l, map_get (leases rt) k = Some l -> live t l -> k ∈ installedCapabilities rt;
  i_grace : forall k l, map_get (leases rt) k = Some l -> graceUntil l <> None -> expiresAt l <= t;
  i_ids : NoDup (outstanding rt).*1;
  i_bound : Z.of_nat (length (outstanding rt)) <= MAX_REVERSE_OUTSTANDING
}.

Lemma inv_later rt t t' : inv rt t -> t <= t' -> inv rt t'.
Proof.
  intros [] Ht. constructor; try done.
  - intros k l Hk [Ha Hl]. apply (i_installed0 k l Hk). split; [done|lia].
  - intros k l Hk Hg. specialize (i_grace0 k l Hk Hg). lia.
Qed.

(** Operations that leave the lease table alone. *)
Lemma inv_remove rt t cap :
  inv rt t -> (forall l, map_get (leases rt) cap = Some l -> ~ live t l) ->
  inv (removeDefinitions rt cap) t.
Proof.
  intros [] Hd. unfold removeDefinitions. case_decide; [|by constructor].
  constructor; simpl; try done. intros k l Hk Hl. apply list_elem_of_filter. split.
  - intros ->. by apply (Hd l).
  - by eapply i_installed0.
Qed.

Lemma inv_outstanding rt t os eff :
  inv rt t -> NoDup os.*1 -> Z.of_nat (length os) <= MAX_REVERSE_OUTSTANDING ->
  inv (set_outstanding rt os eff) t.
Proof. intros [] ? ?. by constructor. Qed.

Lemma inv_outstanding_filter rt t (P : string * Outstanding -> Prop)
    `{!forall p, Decision (P p)} eff :
  inv rt t -> inv (set_outstanding rt (filter P (outstanding rt)) eff) t.
Proof.
  intros Hi. pose proof Hi as []. apply inv_outstanding; [done| |].
  - eapply sublist_NoDup; [done|apply fmap_sublist, sublist_filter].
  - pose proof (length_filter P (outstanding rt)). lia.
Qed.

(** Operations that write one lease. *)
Lemma inv_set_lease rt t k l :
  inv rt t -> capability l = k -> (live t l -> k ∈ installedCapabilities rt) ->
  (graceUntil l <> None -> expiresAt l <= t) -> inv (set_leases rt (map_set (leases rt) k l)) t.
Proof.
  intros [] Hc Hl Hg. constructor; simpl; try done; [by apply map_set_NoDup|..];
    intros k' l'; (destruct (decide (k = k')) as [<-|Hne];
      [rewrite map_get_set_eq; intros [= <-]; done
      |rewrite map_get_set_ne by done; by eauto]).
Qed.

Lemma inv_delete_lease rt t k : inv rt t -> inv (set_leases rt (map_delete (leases rt) k)) t.
Proof.
  intros []. constructor; simpl; try done; [by apply map_delete_NoDup|..];
    intros k' l'; (destruct (decide (k = k')) as [<-|Hne];
      [by rewrite map_get_delete_eq|rewrite map_get_delete_ne by done; by eauto]).
Qed.

Lemma inv_install rt t cap d : inv rt t -> inv (installDefinitionsFor rt cap d) t.
Proof.
  intros []. unfold installDefinitionsFor. constructor; simpl; try done.
  intros k l Hk Hl. specialize (i_installed0 k l Hk Hl). case_decide; set_solver.
Qed.

Lemma installed_self rt cap d : cap ∈ installedCapabilities (installDefinitionsFor rt cap d).
Proof. simpl. case_decide; set_solver. Qed.

Lemma inv_install_lease rt t conn cap d id key fp :
  inv rt t -> inv (install_lease rt t conn cap d id key fp).2 t.
Proof.
  intros Hi. unfold install_lease. simpl.
  pose proof (inv_set_lease (installDefinitionsFor rt cap d) t cap {|
    object := next_object rt; leaseId := id; connectionId := conn; capability := cap;
    definitions := d; expiresAt := t + leaseTtlMs rt; graceUntil := None; active := true |}
    (inv_install rt t cap d Hi) eq_refl (fun _ => installed_self rt cap d) ltac:(done)) as [].
  by constructor.
Qed.

Lemma inv_expire rt t cap l :
  inv rt t -> map_get (leases rt) cap = Some l -> expiresAt l <= t ->
  inv (removeDefinitions rt (capability l)) t.
Proof.
  intros Hi Hl He. apply inv_remove; [done|]. intros l' Hl' [_ Hlive].
  rewrite (i_capability rt t Hi cap l Hl), Hl in Hl'. injection Hl' as <-. lia.
Qed.

Lemma remove_keeps rt cap :
  leases (removeDefinitions rt cap) = leases rt /\
  leaseTtlMs (removeDefinitions rt cap) = leaseTtlMs rt /\
  outstanding (removeDefinitions rt cap) = outstanding rt.
Proof. unfold removeDefinitions. by case_decide. Qed.

Lemma register_inv rt t uuid conn cap d e k :
  inv rt t -> inv (registerProvider rt t uuid conn cap d e k).2 t.
Proof.
  intros Hi. unfold registerProvider. destruct (disposing rt); [done|].
  set (replay := match k with Some (String _ _) => _ | _ => None end).
  destruct (match replay with Some (fp', _) => _ | None => false end); [done|].
  destruct (match replay, map_get (leases rt) cap with Some (_, _), Some _ => _ | _, _ => None end);
    [done|].
  destruct (map_get (leases rt) cap) as [cur|] eqn:E.
  2:{ by apply (inv_install_lease rt t). }
  set (rt1 := if decide (expiresAt cur <= t) then _ else _).
  assert (inv rt1 t) as H1.
  { unfold rt1. case_decide; [|done]. by eapply inv_expire. }
  destruct (negb (active cur) && _).
  - destruct (_ || _); [done|]. by apply (inv_install_lease rt1 t).
  - destruct (_ && _ && _ && _); [done|]. by apply (inv_install_lease rt1 t).
Qed.

Lemma owner_get rt t conn id l :
  inv rt t -> owner rt conn id = Ok l ->
  map_get (leases rt) (capability l) = Some l /\ active l = true /\ connectionId l = conn /\
  leaseId l = id.
Proof.
  intros Hi H. unfold owner in H.
  destruct (find_first _ (leases rt)) as [[k l0]|] eqn:E; [|done].
  destruct (active l0 && _) eqn:Ea; [|done]. injection H as <-.
  apply andb_true_iff in Ea as [Ha Hc]. apply bool_decide_eq_true in Hc.
  apply find_first_Some in E as [Hin Hid]. simpl in Hid. apply bool_decide_eq_true in Hid.
  apply (map_elem_get _ _ _ (i_keys rt t Hi)) in Hin.
  by rewrite (i_capability rt t Hi k l0 Hin).
Qed.

Lemma heartbeat_inv rt t conn id : inv rt t -> inv (heartbeat rt t conn id).2 t.
Proof.
  intros Hi. unfold heartbeat. destruct (owner rt conn id) as [l|] eqn:E; [|done].
  apply (owner_get rt t) in E as (Hl & Ha & _ & _); [|done]. case_decide as Hx; simpl.
  - by eapply inv_expire.
  - apply inv_set_lease; try done. intros _. apply (i_installed rt t Hi _ l Hl). split; [done|lia].
Qed.

Lemma release_inv rt t conn id h : inv rt t -> inv (release rt t conn id h).2 t.
Proof.
  intros Hi. unfold release. destruct (owner rt conn id) as [l|] eqn:E; [|done].
  pose proof (owner_get rt t conn id l Hi E) as (Hl & _).
  set (rt1 := cancelForConnection rt conn lease_released).
  assert (inv rt1 t) as H1 by by apply inv_outstanding_filter.
  destruct (remove_keeps rt1 (capability l)) as (E1 & _ & E3). pose proof H1 as [].
  assert (forall ls, NoDup ls.*1 ->
    (forall k l0, map_get ls k = Some l0 -> capability l0 = k /\
      (k <> capability l -> map_get (leases rt) k = Some l0) /\
      (live t l0 -> k <> capability l) /\ (graceUntil l0 <> None -> expiresAt l0 <= t)) ->
    inv (set_leases (removeDefinitions rt1 (capability l)) ls) t) as Hkey.
  { intros ls Hn Hls. constructor; simpl; rewrite ?E3; try done.
    - intros k l0 Hk. by apply (Hls k l0 Hk).
    - intros k l0 Hk Hlive. destruct (Hls k l0 Hk) as (_ & Hsame & Hne & _).
      specialize (Hne Hlive). pose proof (i_installed0 k l0 (Hsame Hne) Hlive) as Hin.
      unfold removeDefinitions. case_decide; [|done]. simpl. by apply list_elem_of_filter.
    - intros k l0 Hk. by apply (Hls k l0 Hk). }
  assert (forall k l0, map_get (map_delete (leases rt) (capability l)) k = Some l0 ->
    k <> capability l /\ map_get (leases rt) k = Some l0) as Hdel.
  { intros k l0. destruct (decide (capability l = k)) as [<-|Hne];
      [by rewrite map_get_delete_eq|rewrite map_get_delete_ne by done; done]. }
  destruct h as [[|a heir]|]; simpl; rewrite E1; apply Hkey;
    try (apply map_delete_NoDup, (i_keys rt t Hi)); try (apply map_set_NoDup, (i_keys rt t Hi)).
  - intros k l0 Hk. apply Hdel in Hk as [Hne Hk]. pose proof Hi as []. split_and!; eauto.
  - intros k l0. destruct (decide (capability l = k)) as [<-|Hne].
    + rewrite map_get_set_eq. intros [= <-]. simpl. split_and!; try done. by intros [].
    + rewrite map_get_set_ne by done. intros Hk. pose proof Hi as []. split_and!; eauto.
  - intros k l0 Hk. apply Hdel in Hk as [Hne Hk]. pose proof Hi as []. split_and!; eauto.
Qed.

Lemma inv_remove_all rt t (ps : list (string * ProviderLease)) :
  inv rt t ->
  Forall (fun p => forall l, map_get (leases rt) (capability p.2) = Some l -> ~ live t l) ps ->
  inv (foldl (fun rt (p : string * ProviderLease) => removeDefinitions rt (capability p.2)) rt ps) t.
Proof.
  intros Hi Hps. revert rt Hi Hps. induction ps as [|p ps IH]; intros rt Hi Hps; [done|].
  apply Forall_cons in Hps as [Hp Hps]. simpl. apply IH; [by apply inv_remove|].
  destruct (remove_keeps rt (capability p.2)) as (E & _). by rewrite E.
Qed.

Lemma map_get_disconnect rt t conn k :
  map_get ((fun p => if decide (connectionId p.2 = conn) then (p.1, disconnected t p.2) else p)
    <$> leases rt) k =
  (fun l => if decide (connectionId l = conn) then disconnected t l else l) <$> map_get (leases rt) k.
Proof.
  induction (leases rt) as [|[k' l] ls IH]; [done|]. simpl.
  destruct (decide (connectionId l = conn)) eqn:E; simpl;
    (destruct (decide (k' = k)); simpl; [by rewrite E|apply IH]).
Qed.

Lemma keys_disconnect t conn (ls : list (string * ProviderLease)) :
  ((fun p => if decide (connectionId p.2 = conn) then (p.1, disconnected t p.2) else p)
    <$> ls).*1 = ls.*1.
Proof. induction ls as [|[k l] ls IH]; [done|]. simpl. f_equal; [by case_decide|apply IH]. Qed.

Lemma disconnect_inv rt t conn : inv rt t -> inv (disconnect rt t conn) t.
Proof.
  intros Hi. unfold disconnect. apply inv_outstanding_filter.
  set (rt1 := set_leases rt _).
  assert (forall k l, map_get (leases rt1) k = Some l -> exists l0, map_get (leases rt) k = Some l0 /\
    l = if decide (connectionId l0 = conn) then disconnected t l0 else l0) as Hk.
  { intros k l. unfold rt1. simpl. rewrite map_get_disconnect.
    destruct (map_get (leases rt) k) as [l0|]; [|done]. intros [= <-]. by exists l0. }
  pose proof Hi as []. assert (inv rt1 t) as H1.
  { constructor; try done.
    - unfold rt1. simpl. by rewrite keys_disconnect.
    - intros k l Hl. apply Hk in Hl as (l0 & Hl & ->). case_decide; simpl; eauto.
    - intros k l Hl. apply Hk in Hl as (l0 & Hl & ->). case_decide; simpl; [|eauto].
      intros [_ Hx]. simpl in Hx. lia.
    - intros k l Hl. apply Hk in Hl as (l0 & Hl & ->). case_decide; simpl; [lia|eauto]. }
  apply inv_remove_all; [done|]. apply Forall_forall. intros [k l] Hin l' Hl'.
  apply list_elem_of_filter in Hin as [Hc Hin]. simpl in *.
  apply (map_elem_get _ _ _ i_keys0) in Hin. rewrite (i_capability0 _ _ Hin) in Hl'.
  apply Hk in Hl' as (l0 & Hl & ->). rewrite Hin in Hl. injection Hl as <-.
  rewrite decide_True by done. intros [_ Hx]. simpl in Hx. lia.
Qed.

Lemma liveLease_spec rt t cap :
  inv rt t ->
  inv (liveLease rt t cap).2 t /\ leases (liveLease rt t cap).2 = leases rt /\
  outstanding (liveLease rt t cap).2 = outstanding rt /\
  (forall l, (liveLease rt t cap).1 = Some l <-> map_get (leases rt) cap = Some l /\ live t l).
Proof.
  intros Hi. unfold liveLease. destruct (map_get (leases rt) cap) as [l|] eqn:E.
  2:{ split_and!; try done. intros l. simpl. naive_solver. }
  destruct (negb (active l) || _) eqn:En; simpl.
  - assert (~ live t l) as Hd.
    { intros [Ha Hx]. rewrite Ha in En. simpl in En. apply bool_decide_eq_true in En. lia. }
    split_and!.
    + case_decide; [|done]. apply inv_remove; [done|]. intros l' Hl'. congruence.
    + case_decide; [|done]. apply remove_keeps.
    + case_decide; [|done]. apply remove_keeps.
    + intros l'. split; [done|]. intros [[= <-] ?]. done.
  - apply orb_false_iff in En as [Ha Hx]. apply negb_false_iff in Ha.
    apply bool_decide_eq_false in Hx. split_and!; try done. intros l'. split.
    + intros [= <-]. split; [done|]. split; [done|lia].
    + by intros [[= <-] _].
Qed.

Lemma request_inv rt t uuid cap m p sent : inv rt t -> inv (request rt t uuid cap m p sent).2 t.
Proof.
  intros Hi. unfold request. destruct (disposing rt); [done|].
  destruct (payload_ok p); simpl; [|done].
  destruct (liveLease_spec rt t cap Hi) as (H1 & _ & Ho & _).
  destruct (liveLease rt t cap) as [[l|] rt1]; simpl in *.
  - case_decide as Hb; [done|]. pose proof H1 as [].
    set (o := {| o_connectionId := connectionId l; o_capability := cap; o_leaseId := leaseId l |}).
    assert (inv (set_outstanding rt1 (map_set (outstanding rt1) uuid o)
      [Send (connectionId l) uuid cap (leaseId l) m p]) t) as H2.
    { apply inv_outstanding; [done|by apply map_set_NoDup|].
      destruct (decide (uuid ∈ (outstanding rt1).*1)) as [Hin|Hin].
      - pose proof (f_equal length (map_set_keys (outstanding rt1) uuid o Hin)) as Hlen.
        rewrite !length_fmap in Hlen. lia.
      - rewrite map_set_fresh, length_app by done. simpl. lia. }
    destruct sent; [done|]. by apply (inv_outstanding_filter _ _ _ _ H2).
  - destruct (map_get (leases rt1) cap) as [l|]; [|done]. by destruct (_ && _).
Qed.

Lemma apply_call_inv rt t c : inv rt t -> inv (apply_call rt t c) t.
Proof.
  intros Hi. destruct c; simpl.
  - by apply register_inv.
  - by apply heartbeat_inv.
  - by apply release_inv.
  - by apply disconnect_inv.
  - by apply request_inv.
  - by apply (inv_outstanding_filter rt t).
  - unfold respond. destruct (negb _); [done|]. destruct (map_get _ _) as [o|]; [|done].
    destruct (_ || _); [done|]. by apply (inv_outstanding_filter rt t).
  - by apply liveLease_spec.
  - unfold expireStaleLeases.
    assert (forall ps, (forall p, p ∈ ps -> p ∈ leases rt) -> forall rt', inv rt' t ->
      leases rt' = leases rt -> inv (foldl (fun rt (p : string * ProviderLease) =>
        if decide (expiresAt p.2 <= t) then removeDefinitions rt (capability p.2) else rt) rt' ps) t)
      as H; [|by apply H].
    intros ps. induction ps as [|[k l] ps IH]; intros Hps rt' Hi' E; simpl; [done|].
    apply IH; [intros p Hp; apply Hps; by right| |].
    + case_decide; [|done]. eapply (inv_expire _ _ k); [done| |done]. rewrite E.
      apply map_elem_get; [apply Hi|]. apply Hps. by left.
    + case_decide; [|done]. rewrite <- E. apply remove_keeps.
  - unfold dispose. destruct (disposing rt); [done|]. constructor; simpl; try done; try constructor.
Qed.

Lemma reachable_inv rt t : reachable rt t -> inv rt t.
Proof.
  induction 1 as [ttl t|rt t t' c _ IH Ht].
  - constructor; simpl; try done; constructor.
  - apply apply_call_inv. by eapply inv_later.
Qed.

(** ** Guarantees *)

(** The calls by which a holder gives its lease up, or the runtime ends. *)
Definition gives_up (l : ProviderLease) (c : call) : Prop :=
  (exists h, c = C_release (connectionId l) (leaseId l) h) \/
  c = C_disconnect (connectionId l) \/ c = C_dispose.

(** The lease under [cap] is still held by the holder of [l]. *)
Definition still_held rt (t : Z) (cap : string) (l : ProviderLease) : Prop :=
  exists l', map_get (leases rt) cap = Some l' /\ connectionId l' = connectionId l /\
    leaseId l' = leaseId l /\ live t l'.

Lemma register_keeps rt t cap l uuid conn cap' d e k :
  inv rt t -> 0 < leaseTtlMs rt -> map_get (leases rt) cap = Some l -> live t l ->
  still_held (registerProvider rt t uuid conn cap' d e k).2 t cap l.
Proof.
  intros Hi Httl Hl [Ha Hx]. assert (still_held rt t cap l) as Hself by by exists l.
  assert (forall rt' id, leaseTtlMs rt' = leaseTtlMs rt -> leases rt' = leases rt ->
    (cap' = cap -> conn = connectionId l /\ id = leaseId l) ->
    still_held (install_lease rt' t conn cap' d id k (registrationFingerprint cap' d e)).2 t cap l)
    as Hinst.
  { intros rt' id E1 E2 Hid. unfold still_held, install_lease. simpl. rewrite E1, E2.
    destruct (decide (cap' = cap)) as [->|Hne].
    - destruct (Hid eq_refl) as [-> ->]. rewrite map_get_set_eq. eexists. split; [done|].
      split_and!; try done. split; [done|]. simpl. lia.
    - rewrite map_get_set_ne by done. by exists l. }
  unfold registerProvider. destruct (disposing rt); [done|].
  set (replay := match k with Some (String _ _) => _ | _ => None end).
  destruct (match replay with Some (fp', _) => _ | None => false end); [done|].
  destruct (match replay, map_get (leases rt) cap' with Some (_, _), Some _ => _ | _, _ => None end);
    [done|].
  destruct (map_get (leases rt) cap') as [cur|] eqn:E.
  2:{ apply (Hinst rt uuid); [done|done|]. intros ->. congruence. }
  set (rt1 := if decide (expiresAt cur <= t) then _ else _).
  assert (leases rt1 = leases rt /\ leaseTtlMs rt1 = leaseTtlMs rt) as [E1 E2].
  { unfold rt1. case_decide; [|done]. by destruct (remove_keeps rt (capability cur)) as (? & ? & ?). }
  assert (still_held rt1 t cap l) as Hself1 by by exists l; rewrite E1.
  destruct (decide (cap' = cap)) as [->|Hne].
  - rewrite Hl in E. injection E as <-. rewrite Ha. simpl.
    assert (graceUntil l = None) as ->.
    { destruct (graceUntil l) eqn:Eg; [|done].
      pose proof (i_grace rt t Hi cap l Hl ltac:(by rewrite Eg)). lia. }
    rewrite andb_false_r. cbn [negb andb orb]. rewrite (bool_decide_true (t < expiresAt l)) by done.
    destruct (bool_decide (connectionId l = conn)) eqn:Ec; cbn [andb negb].
    + apply bool_decide_eq_true in Ec. apply (Hinst rt1 (leaseId l)); done.
    + apply bool_decide_eq_false in Ec. by rewrite bool_decide_true.
  - assert (forall id, still_held
      (install_lease rt1 t conn cap' d id k (registrationFingerprint cap' d e)).2 t cap l)
      as Hinst1 by (intros id; by apply Hinst).
    destruct (negb (active cur) && _); [destruct (_ || _); [done|]; apply Hinst1|].
    destruct (_ && _ && _ && _); [done|]. apply Hinst1.
Qed.

Lemma expire_keeps rt t : leases (expireStaleLeases rt t) = leases rt.
Proof.
  unfold expireStaleLeases. apply (foldl_unchanged _ leases). intros rt' p. case_decide; [apply remove_keeps|done].
Qed.

Lemma call_keeps rt t cap l c :
  inv rt t -> 0 < leaseTtlMs rt -> map_get (leases rt) cap = Some l -> live t l -> ~ gives_up l c ->
  still_held (apply_call rt t c) t cap l.
Proof.
  intros Hi Httl Hl Hlive Hc. assert (still_held rt t cap l) as Hself by by exists l.
  assert (forall rt', leases rt' = leases rt -> still_held rt' t cap l) as Hsame
    by (intros rt' E; exists l; by rewrite E).
  destruct c as [uuid conn cap' d e k|conn id|conn id h|conn|uuid cap' m p sent|id|conn id le res er|cap'| |];
    simpl.
  - by apply register_keeps.
  - unfold heartbeat. destruct (owner rt conn id) as [l2|] eqn:E; [|done].
    apply (owner_get rt t) in E as (Hl2 & Ha2 & Hc2 & Hid2); [|done].
    case_decide; simpl; [apply Hsame, remove_keeps|].
    destruct (decide (capability l2 = cap)) as [<-|Hne].
    + rewrite Hl in Hl2. injection Hl2 as <-. unfold still_held. simpl. rewrite map_get_set_eq.
      eexists. split; [done|]. split_and!; try done. split; [done|]. simpl. lia.
    + exists l. simpl. by rewrite map_get_set_ne.
  - unfold release. destruct (owner rt conn id) as [l2|] eqn:E; [|done].
    apply (owner_get rt t) in E as (Hl2 & Ha2 & Hc2 & Hid2); [|done].
    set (rt1 := cancelForConnection rt conn lease_released).
    destruct (remove_keeps rt1 (capability l2)) as (E1 & _).
    assert (capability l2 <> cap) as Hne.
    { intros <-. rewrite Hl in Hl2. injection Hl2 as <-. apply Hc. left. exists h.
      by rewrite Hc2, Hid2. }
    destruct h as [[|a heir]|]; exists l; simpl; rewrite E1;
      rewrite ?map_get_delete_ne, ?map_get_set_ne by done; done.
  - exists l. unfold disconnect. simpl.
    assert (forall ps rt', leases (foldl (fun rt (p : string * ProviderLease) =>
      removeDefinitions rt (capability p.2)) rt' ps) = leases rt') as Hf
      by (intros ps rt'; apply (foldl_unchanged _ leases); intros rt1 p; apply remove_keeps).
    rewrite Hf. simpl. rewrite map_get_disconnect, Hl. simpl.
    rewrite decide_False; [done|]. intros E. apply Hc. right. left. by rewrite E.
  - apply Hsame. unfold request. destruct (disposing rt); [done|]. destruct (payload_ok p); simpl; [|done].
    destruct (liveLease_spec rt t cap' Hi) as (_ & E & _).
    destruct (liveLease rt t cap') as [[l2|] rt1]; simpl in *.
    + case_decide; [done|]. by destruct sent.
    + destruct (map_get (leases rt1) cap') as [l2|]; [|done]. by destruct (_ && _).
  - by apply Hsame.
  - apply Hsame. unfold respond. destruct (negb _); [done|].
    destruct (map_get (outstanding rt) id) as [o|]; [|done].
    by destruct (_ || _).
  - apply Hsame. by apply liveLease_spec.
  - apply Hsame, expire_keeps.
  - exfalso. apply Hc. by right; right.
Qed.

(** C29.  Exclusive leases: in every reachable runtime, while a lease is live its
    definitions are installed and lookups return it, and no call by anyone -
    registrations by other connections, requests, responses, sweeps, other
    releases and disconnections - can take it away: only its holder's release
    or disconnection, or disposal, ends it before it expires. *)
Theorem lease_exclusive rt (t now : Z) (cap : string) (l : ProviderLease) :
  reachable rt t -> t <= now -> 0 < leaseTtlMs rt ->
  map_get (leases rt) cap = Some l -> live now l ->
  cap ∈ installedCapabilities rt /\ (getLease rt now cap).1 = Some l /\
  forall c, ~ gives_up l c -> still_held (apply_call rt now c) now cap l.
Proof.
  intros Hr Ht Httl Hl Hlive. apply reachable_inv in Hr. apply (inv_later _ _ now) in Hr; [|done].
  split_and!.
  - by eapply i_installed.
  - by apply (liveLease_spec rt now cap Hr).
  - intros c Hc. by apply call_keeps.
Qed.

Lemma disconnect_settles rt t conn :
  NoDup (outstanding rt).*1 ->
  forall id' o, map_get (outstanding rt) id' = Some o ->
     (o_connectionId o = conn ->
        map_get (outstanding (disconnect rt t conn)) id' = None /\
        Settle id' (rejected "request_cancelled") ∈ log (disconnect rt t conn) /\
        Cancel id' provider_disconnected ∈ log (disconnect rt t conn)) /\
     (o_connectionId o <> conn -> map_get (outstanding (disconnect rt t conn)) id' = Some o).
Proof.
  intros Hn id o Ho. unfold disconnect.
  assert (forall ps rt', outstanding (foldl (fun rt (p : string * ProviderLease) =>
    removeDefinitions rt (capability p.2)) rt' ps) = outstanding rt') as Hf
    by (intros ps rt'; apply (foldl_unchanged _ outstanding); intros rt1 p; apply remove_keeps).
  unfold cancelForConnection. cbn [outstanding log set_outstanding]. rewrite Hf.
  cbn [outstanding set_leases]. rewrite (map_get_filter _ _ _ _ Hn Ho). simpl.
  split; intros Hc; [rewrite decide_False by (intros H; by apply H)|by rewrite decide_True].
  assert ((id, o) ∈ filter (fun p => o_connectionId p.2 = conn) (outstanding rt)) as Hin.
  { apply list_elem_of_filter. split; [done|by apply map_get_elem]. }
  split_and!; [done|..]; apply elem_of_app; right; apply list_elem_of_join; eexists;
    (split; [|apply list_elem_of_fmap; exists (id, o); split; [reflexivity|done]]); set_solver.
Qed.

(** C35.  Requests settle at most once and only by their addressee: a response is
    accepted exactly when the id is outstanding and was sent to this connection
    under this lease; it then settles that request and no other, and a second
    response is unknown.  Disconnecting a connection rejects and cancels every
    request sent to it and leaves the others untouched, and at most 64 requests
    are ever outstanding. *)
Theorem request_settlement rt (t : Z) (conn id lease : string) (result : Payload) (error : option string) :
  reachable rt t -> payload_ok result = true ->
  let r := respond rt conn id lease result error in
  (r.1 = Ok tt <-> exists o, map_get (outstanding rt) id = Some o /\
     o_connectionId o = conn /\ o_leaseId o = lease) /\
  (r.1 = Ok tt ->
     (exists s, log r.2 = log rt ++ [Settle id s]) /\
     (respond r.2 conn id lease result error).1 = Throw unknown_request /\
     forall id', id' <> id -> map_get (outstanding r.2) id' = map_get (outstanding rt) id') /\
  (r.1 <> Ok tt -> r.2 = rt) /\
  (let rt' := disconnect rt t conn in
   forall id' o, map_get (outstanding rt) id' = Some o ->
     (o_connectionId o = conn ->
        map_get (outstanding rt') id' = None /\ Settle id' (rejected "request_cancelled") ∈ log rt' /\
        Cancel id' provider_disconnected ∈ log rt') /\
     (o_connectionId o <> conn -> map_get (outstanding rt') id' = Some o)) /\
  Z.of_nat (length (outstanding rt)) <= MAX_REVERSE_OUTSTANDING.
Proof.
  intros Hr Hp r. apply reachable_inv in Hr. split_and!.
  - unfold r, respond. rewrite Hp. cbn [negb]. destruct (map_get (outstanding rt) id) as [o|]; simpl.
    + destruct (_ || _) eqn:E; simpl.
      * split; [done|]. intros (o' & [= <-] & H1 & H2). apply orb_true_iff in E.
        rewrite !bool_decide_eq_true in E. by destruct E.
      * apply orb_false_iff in E. rewrite !bool_decide_eq_false in E. destruct E as [E1 E2].
        apply dec_stable in E1, E2. split; [|done]. intros _. by exists o.
    + split; [done|]. by intros (o & ? & _).
  - unfold r, respond. rewrite Hp. cbn [negb]. destruct (map_get (outstanding rt) id) as [o|]; [|done].
    destruct (_ || _); [done|]. intros _. cbn [snd outstanding set_outstanding].
    rewrite map_get_delete_eq. split_and!; [by eexists|done|].
    intros id' Hne. by apply map_get_delete_ne.
  - unfold r, respond. rewrite Hp. cbn [negb]. destruct (map_get (outstanding rt) id) as [o|]; [|done].
    by destruct (_ || _).
  - apply disconnect_settles, Hr.
  - apply Hr.
Qed.
End runtime.

(** A provider registered at time 0 with one request outstanding. *)
Definition demo_fp (cap : string) (d : unit) (e : option string) : string := cap.
Definition demo_bytes (p : string) : Z := Z.of_nat (String.length p).

Definition demo_calls : list (@call unit string) :=
  [C_register "lease-1" "conn-a" "edit" tt None None; C_request "req-1" "edit" "open" "x" true].

Definition demo_runtime : @ReverseLeaseRuntime unit string :=
  foldl (fun rt c => apply_call demo_fp demo_bytes rt 0 c) (create None) demo_calls.

Lemma demo_reachable : reachable demo_fp demo_bytes demo_runtime 0.
Proof.
  unfold demo_runtime, demo_calls. cbn [foldl].
  eapply reach_call; [|reflexivity]. eapply reach_call; [|reflexivity]. apply reach_create.
Qed.

Definition demo_lease : @ProviderLease unit := {|
  object := 0; leaseId := "lease-1"; connectionId := "conn-a"; capability := "edit";
  definitions := tt; expiresAt := 15000; graceUntil := None; active := true |}.

Lemma lease_exclusive_witness :
  "edit" ∈ installedCapabilities demo_runtime /\
  (getLease demo_runtime 9000 "edit").1 = Some demo_lease /\
  forall c, ~ gives_up demo_lease c ->
    still_held (apply_call demo_fp demo_bytes demo_runtime 9000 c) 9000 "edit" demo_lease.
Proof.
  apply (lease_exclusive demo_fp demo_bytes demo_runtime 0 9000 "edit" demo_lease);
    [apply demo_reachable|lia|reflexivity|reflexivity|split; reflexivity].
Defined.

Lemma request_settlement_witness :
  let r := respond demo_bytes demo_runtime "conn-a" "req-1" "lease-1" "ok" None in
  (r.1 = Ok tt <-> exists o, map_get (outstanding demo_runtime) "req-1" = Some o /\
     o_connectionId o = "conn-a" /\ o_leaseId o = "lease-1") /\
  (r.1 = Ok tt ->
     (exists s, log r.2 = log demo_runtime ++ [Settle "req-1" s]) /\
     (respond demo_bytes r.2 "conn-a" "req-1" "lease-1" "ok" None).1 = Throw unknown_request /\
     forall id', id' <> "req-1" ->
       map_get (outstanding r.2) id' = map_get (outstanding demo_runtime) id') /\
  (r.1 <> Ok tt -> r.2 = demo_runtime) /\
  (let rt' := disconnect demo_runtime 0 "conn-a" in
   forall id' o, map_get (outstanding demo_runtime) id' = Some o ->
     (o_connectionId o = "conn-a" ->
        map_get (outstanding rt') id' = None /\ Settle id' (rejected "request_cancelled") ∈ log rt' /\
        Cancel id' provider_disconnected ∈ log rt') /\
     (o_connectionId o <> "conn-a" -> map_get (outstanding rt') id' = Some o)) /\
  Z.of_nat (length (outstanding demo_runtime)) <= MAX_REVERSE_OUTSTANDING.
Proof.
  apply (request_settlement demo_fp demo_bytes demo_runtime 0 "conn-a" "req-1" "lease-1" "ok" None);
    [apply demo_reachable|reflexivity].
Defined.
