(* ===== verification/Goals.v ===== *)
(** * Goals ([goals/state.ts], [goals/runtime.ts])

    A session's goal: its life cycle, and the accounting of the tokens and the
    time spent on it.  Every public method runs under the accounting lock and
    is one step; the host's current usage, the clock and fresh ids are
    arguments of a step, and what the host is told is recorded in order.  The
    host's state is a normalized one. *)

From S2P Require Import Prelude JsNumber.
From Stdlib Require Import Ascii.

Local Open Scope Z_scope.

Inductive GoalStatus := G_active | G_paused | G_complete | G_dropped.

#[export] Instance GoalStatus_eq_dec : EqDecision GoalStatus.
Proof. solve_decision. Defined.

Definition goal_status_name (s : GoalStatus) : string :=
  match s with
  | G_active => "active" | G_paused => "paused" | G_complete => "complete" | G_dropped => "dropped"
  end.

Inductive GoalProvenance := P_ultragoal (runId goalId : string) | P_user.

Record Goal := {
  id : string;
  objective : string;
  status : GoalStatus;
  tokensUsed : Z;
  timeUsedSeconds : Z;
  createdAt : Z;
  updatedAt : Z;
  provenance : option GoalProvenance
}.

Inductive goal_mode := M_active | M_exiting.

Record GoalModeState := {
  enabled : bool;
  mode : goal_mode;
  completed_reason : bool;
  goal : Goal
}.

Record GoalTokenUsage := { input : Z; output : Z; cacheRead : Z; cacheWrite : Z }.

Record GoalTurnSnapshot := {
  turnId : string;
  baselineUsage : GoalTokenUsage;
  turn_activeGoalId : option string
}.

Record GoalWallClockSnapshot := { lastAccountedAt : Z; wall_activeGoalId : option string }.

Inductive persist_mode := PM_goal | PM_goal_paused | PM_none.

(** What the host is told. *)
Inductive host_call :=
| H_setState (s : option GoalModeState)
| H_persist (m : persist_mode) (s : option GoalModeState)
| H_goal_updated (g : option Goal) (s : option GoalModeState).

Record GoalRuntime := {
  host_state : option GoalModeState;
  turnSnapshot : option GoalTurnSnapshot;
  wallClock : GoalWallClockSnapshot;
  calls : list host_call
}.

(** ** Text *)

(** [\n] *)
Definition newline : string := String (ascii_of_nat 10) EmptyString.

Definition escape_char (c : ascii) : string :=
  if decide (c = "&"%char) then "&amp;"
  else if decide (c = "<"%char) then "&lt;"
  else if decide (c = ">"%char) then "&gt;"
  else String c EmptyString.

Definition escapable (c : ascii) : bool :=
  bool_decide (nat_of_ascii c = 38%nat) || bool_decide (nat_of_ascii c = 60%nat)
  || bool_decide (nat_of_ascii c = 62%nat).

Fixpoint find_escapable (s : string) (index : nat) : option nat :=
  match s with
  | EmptyString => None
  | String c r => if escapable c then Some index else find_escapable r (S index)
  end.

Fixpoint escape_from (s output : string) : string :=
  match s with
  | EmptyString => output
  | String c r => escape_from r (output +:+ escape_char c)
  end.

Definition escapeXmlText (input : string) : string :=
  match find_escapable input 0 with
  | None => input
  | Some first =>
      escape_from (String.substring first (String.length input - first) input)
        (String.substring 0 first input)
  end.

Definition renderTrustedObjective (objective : string) : string :=
  "<objective>" +:+ newline +:+ escapeXmlText objective +:+ newline +:+ "</objective>".

Inductive objective_op := op_create | op_replace.

Definition validateGoalObjective (objective : string) (op : objective_op) : outcome string string :=
  let trimmed := trim objective in
  if decide (trimmed = EmptyString) then
    Throw ("objective is required when op="
             +:+ match op with op_create => "create" | op_replace => "replace" end)
  else if decide (trimmed = "/goal") then
    Throw "objective must describe the goal; `/goal` is the command name, not a goal objective"
  else Ok trimmed.

(** ** Accounting *)

Definition goalTokenDelta (current baseline : GoalTokenUsage) : Z :=
  Z.max 0 (input current - input baseline)
  + Z.max 0 (cacheWrite current - cacheWrite baseline)
  + Z.max 0 (output current - output baseline).

Definition isAccountingStatus (g : Goal) : bool := bool_decide (status g = G_active).

Definition set_goal (g : Goal) (st : GoalStatus) (tokens time updated : Z) : Goal := {|
  id := id g; objective := objective g; status := st; tokensUsed := tokens;
  timeUsedSeconds := time; createdAt := createdAt g; updatedAt := updated;
  provenance := provenance g |}.

Section operations.
(** The readings of a step. *)
Context (usage : GoalTokenUsage) (now : Z).

Implicit Types (rt : GoalRuntime) (s : GoalModeState).

Definition hasAccountingState rt : bool :=
  match host_state rt with Some s => enabled s && isAccountingStatus (goal s) | None => false end.

Definition commitState rt (s : option GoalModeState) (persist : option persist_mode) (emit : bool)
    : GoalRuntime := {|
  host_state := s;
  turnSnapshot := turnSnapshot rt;
  wallClock := wallClock rt;
  calls := calls rt ++ [H_setState s]
    ++ match persist with Some m => [H_persist m s] | None => [] end
    ++ if emit then [H_goal_updated (goal <$> s) s] else [] |}.

Definition with_snapshots rt (t : option GoalTurnSnapshot) (w : GoalWallClockSnapshot) : GoalRuntime := {|
  host_state := host_state rt; turnSnapshot := t; wallClock := w; calls := calls rt |}.

Definition markActiveAccounting rt (g : Goal) : GoalRuntime :=
  with_snapshots rt
    (Some match turnSnapshot rt with
          | Some t => {| turnId := turnId t; baselineUsage := usage; turn_activeGoalId := Some (id g) |}
          | None => {| turnId := "activation-" +:+ id g; baselineUsage := usage;
                       turn_activeGoalId := Some (id g) |}
          end)
    (if decide (wall_activeGoalId (wallClock rt) <> Some (id g))
     then {| lastAccountedAt := now; wall_activeGoalId := Some (id g) |}
     else wallClock rt).

Definition clearActiveAccounting rt : GoalRuntime :=
  with_snapshots rt
    ((fun t => {| turnId := turnId t; baselineUsage := baselineUsage t; turn_activeGoalId := None |})
       <$> turnSnapshot rt)
    {| lastAccountedAt := now; wall_activeGoalId := None |}.

Definition onTurnStart rt (turn : string) (baseline : GoalTokenUsage) : GoalRuntime :=
  let t := {| turnId := turn; baselineUsage := baseline; turn_activeGoalId := None |} in
  match host_state rt with
  | Some s =>
      if enabled s && isAccountingStatus (goal s) then
        with_snapshots rt
          (Some {| turnId := turn; baselineUsage := baseline;
                   turn_activeGoalId := Some (id (goal s)) |})
          (if decide (wall_activeGoalId (wallClock rt) <> Some (id (goal s)))
           then {| lastAccountedAt := now; wall_activeGoalId := Some (id (goal s)) |}
           else wallClock rt)
      else with_snapshots rt (Some t) (wallClock rt)
  | None => with_snapshots rt (Some t) (wallClock rt)
  end.

(** The turn, and the wall clock, are charged to the goal. *)
Definition turn_charged rt (g : Goal) : option GoalTurnSnapshot :=
  match turnSnapshot rt with
  | Some t => if decide (turn_activeGoalId t = Some (id g)) then Some t else None
  | None => None
  end.
Definition wall_charged rt (g : Goal) : bool := bool_decide (wall_activeGoalId (wallClock rt) = Some (id g)).

(** The state with more tokens and time booked on its goal. *)
Definition book s (tokens time : Z) : GoalModeState := {|
  enabled := enabled s; mode := mode s; completed_reason := completed_reason s;
  goal := set_goal (goal s) (status (goal s)) (tokensUsed (goal s) + tokens)
            (timeUsedSeconds (goal s) + time) now |}.

Definition flushUsage rt (currentUsage : option GoalTokenUsage) : GoalRuntime :=
  let current := default usage currentUsage in
  match host_state rt with
  | None => rt
  | Some s =>
      let g := goal s in
      if negb (enabled s) || negb (isAccountingStatus g) then rt
      else if bool_decide (turn_charged rt g = None) && negb (wall_charged rt g) then rt
      else
        let tokenDelta :=
          match turn_charged rt g with
          | Some t => goalTokenDelta current (baselineUsage t)
          | None => 0
          end in
        let wallSeconds :=
          if wall_charged rt g
          then Z.max 0 ((now - lastAccountedAt (wallClock rt)) / 1000) else 0 in
        if bool_decide (tokenDelta <= 0) && bool_decide (wallSeconds <= 0) then rt
        else
          let rt' := with_snapshots rt
            (match turn_charged rt g with
             | Some t => Some {| turnId := turnId t; baselineUsage := current;
                                 turn_activeGoalId := turn_activeGoalId t |}
             | None => turnSnapshot rt
             end)
            (if wall_charged rt g && bool_decide (0 < wallSeconds)
             then {| lastAccountedAt := lastAccountedAt (wallClock rt) + wallSeconds * 1000;
                     wall_activeGoalId := wall_activeGoalId (wallClock rt) |}
             else wallClock rt) in
          commitState rt' (Some (book s tokenDelta wallSeconds)) (Some PM_goal) true
  end.

Definition onToolCompleted rt (toolName : string) : GoalRuntime :=
  if decide (toolName = "goal"%string) then rt
  else if negb (hasAccountingState rt) then rt else flushUsage rt None.

Definition onGoalToolCompleted rt : GoalRuntime :=
  if negb (hasAccountingState rt) then rt else flushUsage rt None.

Definition onAgentEnd rt (currentUsage : option GoalTokenUsage) : GoalRuntime :=
  let rt := if negb (hasAccountingState rt) then rt else flushUsage rt currentUsage in
  with_snapshots rt None (wallClock rt).

(** The state with the goal's status and the mode replaced. *)
Definition restate s (on : bool) (m : goal_mode) (done : bool) (st : GoalStatus) : GoalModeState := {|
  enabled := on; mode := m; completed_reason := done;
  goal := set_goal (goal s) st (tokensUsed (goal s)) (timeUsedSeconds (goal s)) now |}.

Definition onTaskAborted rt : GoalRuntime :=
  if negb (hasAccountingState rt) then with_snapshots rt None (wallClock rt)
  else
    let rt := flushUsage rt None in
    let rt := with_snapshots rt None (wallClock rt) in
    match host_state rt with
    | Some s =>
        if enabled s && isAccountingStatus (goal s) then
          let s := restate s (enabled s) (mode s) (completed_reason s) (status (goal s)) in
          commitState (markActiveAccounting rt (goal s)) (Some s) (Some PM_goal) true
        else rt
    | None => rt
    end.

Definition onThreadResumed rt : GoalRuntime :=
  match host_state rt with
  | None => rt
  | Some s =>
      let s := {| enabled := enabled s || isAccountingStatus (goal s); mode := mode s;
                  completed_reason := completed_reason s; goal := goal s |} in
      let rt := if enabled s && isAccountingStatus (goal s)
                then markActiveAccounting rt (goal s) else clearActiveAccounting rt in
      commitState rt (Some s) None true
  end.

Definition createGoalState (newId : string) (objective : string) (p : option GoalProvenance)
    : GoalModeState := {|
  enabled := true; mode := M_active; completed_reason := false;
  goal := {| id := newId; objective := objective; status := G_active; tokensUsed := 0;
             timeUsedSeconds := 0; createdAt := now; updatedAt := now; provenance := p |} |}.

Definition createGoal rt (newId objective : string) (p : option GoalProvenance)
    : outcome string GoalModeState * GoalRuntime :=
  match validateGoalObjective objective op_create with
  | Throw e => (Throw e, rt)
  | Ok objective =>
      let busy := match host_state rt with
                  | Some s => bool_decide (status (goal s) <> G_dropped)
                              && bool_decide (status (goal s) <> G_complete)
                  | None => false
                  end in
      if (busy : bool)
      then (Throw "cannot create a new goal because this session already has a goal"%string, rt)
      else
        let s := createGoalState newId objective (Some (default P_user p)) in
        (Ok s, commitState (markActiveAccounting rt (goal s)) (Some s) (Some PM_goal) true)
  end.

Definition replaceGoal rt (newId objective : string) : outcome string GoalModeState * GoalRuntime :=
  match validateGoalObjective objective op_replace with
  | Throw e => (Throw e, rt)
  | Ok objective =>
      if negb (hasAccountingState rt)
      then (Throw "cannot replace goal because no goal is active"%string, rt)
      else
        let rt := flushUsage rt None in
        let s := createGoalState newId objective (Some P_user) in
        (Ok s, commitState (markActiveAccounting rt (goal s)) (Some s) (Some PM_goal) true)
  end.

Definition resumeGoal rt : outcome string GoalModeState * GoalRuntime :=
  match host_state rt with
  | None => (Throw "No paused goal."%string, rt)
  | Some s =>
      if decide (status (goal s) = G_complete) then (Throw "Goal is already complete."%string, rt)
      else
        let s := restate s true M_active false G_active in
        (Ok s, commitState (markActiveAccounting rt (goal s)) (Some s) (Some PM_goal) true)
  end.

Definition pauseGoal rt : outcome string (option GoalModeState) * GoalRuntime :=
  let rt := flushUsage rt None in
  match host_state rt with
  | None => (Ok None, rt)
  | Some s =>
      if decide (status (goal s) <> G_active) then
        (Throw ("cannot pause a goal that is not active (current status: "
                  +:+ goal_status_name (status (goal s)) +:+ ")")%string, rt)
      else
        let s := restate s false M_active false G_paused in
        (Ok (Some s), commitState (clearActiveAccounting rt) (Some s) (Some PM_goal_paused) true)
  end.

Definition dropGoal rt : option Goal * GoalRuntime :=
  let rt := flushUsage rt None in
  match host_state rt with
  | None => (None, rt)
  | Some s =>
      let d := restate s false (mode s) (completed_reason s) G_dropped in
      let rt := clearActiveAccounting rt in
      let rt := {| host_state := host_state rt; turnSnapshot := turnSnapshot rt;
                   wallClock := wallClock rt;
                   calls := calls rt ++ [H_goal_updated (Some (goal d)) (Some d)] |} in
      (Some (goal d), commitState rt None (Some PM_none) false)
  end.

Definition completeGoalFromTool rt : outcome string Goal * GoalRuntime :=
  let rt := flushUsage rt None in
  match host_state rt with
  | None => (Throw "cannot complete goal because no goal is active"%string, rt)
  | Some s =>
      if decide (status (goal s) = G_complete) then (Throw "goal is already complete"%string, rt)
      else if decide (status (goal s) = G_dropped) then
        (Throw "cannot complete a dropped goal"%string, rt)
      else
        let s := restate s false M_exiting true G_complete in
        (Ok (goal s), commitState (clearActiveAccounting rt) (Some s) (Some PM_goal) true)
  end.
End operations.

Definition new_runtime (host : option GoalModeState) (now : Z) : GoalRuntime := {|
  host_state := host; turnSnapshot := None;
  wallClock := {| lastAccountedAt := now; wall_activeGoalId := None |}; calls := [] |}.

(** ** Escaping *)

Fixpoint escaped_text (s : string) : string :=
  match s with
  | EmptyString => EmptyString
  | String c r => escape_char c +:+ escaped_text r
  end.

Fixpoint has_char (c : ascii) (s : string) : bool :=
  match s with
  | EmptyString => false
  | String a r => bool_decide (a = c) || has_char c r
  end.

Lemma escapable_char c : escapable c = false -> escape_char c = String c EmptyString.
Proof.
  unfold escapable, escape_char. intros H. apply orb_false_iff in H as [H H3].
  apply orb_false_iff in H as [H1 H2]. rewrite !bool_decide_eq_false in *.
  rewrite !decide_False; [done|..]; by intros ->.
Qed.

Lemma escape_from_text s out : escape_from s out = out +:+ escaped_text s.
Proof.
  revert out. induction s as [|c s IH]; intros out; simpl.
  - by rewrite append_nil_r.
  - by rewrite IH, append_assoc.
Qed.

Lemma substring_whole s : String.substring 0 (String.length s) s = s.
Proof. induction s as [|c s IH]; [done|]. simpl. by rewrite IH. Qed.

Lemma find_escapable_spec s i :
  match find_escapable s i with
  | None => escaped_text s = s
  | Some n => exists k, n = (i + k)%nat /\
      String.substring 0 k s +:+ escaped_text (String.substring k (String.length s - k) s)
        = escaped_text s
  end.
Proof.
  revert i. induction s as [|c s IH]; intros i; [done|]. simpl.
  destruct (escapable c) eqn:Ec.
  - exists 0%nat. split; [lia|]. cbn [String.substring]. rewrite append_nil. simpl.
    by rewrite substring_whole.
  - specialize (IH (S i)). rewrite escapable_char by done. destruct (find_escapable s (S i)) as [n|].
    + destruct IH as (k & -> & E). exists (S k). split; [lia|]. simpl. rewrite !append_cons, E.
      by rewrite append_nil.
    + by rewrite append_cons, append_nil, IH.
Qed.

Lemma escapeXmlText_text s : escapeXmlText s = escaped_text s.
Proof.
  unfold escapeXmlText. pose proof (find_escapable_spec s 0) as H.
  destruct (find_escapable s 0) as [n|]; [|done]. destruct H as (k & -> & E).
  by rewrite escape_from_text.
Qed.

Lemma escaped_no_angle s : has_char "<"%char (escaped_text s) = false /\ has_char ">"%char (escaped_text s) = false.
Proof.
  assert (forall c a b, has_char c (a +:+ b) = has_char c a || has_char c b) as Happ.
  { intros c a b. induction a as [|x a IH]; [done|]. rewrite append_cons. simpl.
    by rewrite IH, orb_assoc. }
  induction s as [|c s [IH1 IH2]]; [done|]. simpl. rewrite !Happ, IH1, IH2, !orb_false_r.
  unfold escape_char. repeat case_decide; try done. simpl. rewrite !orb_false_r, !bool_decide_eq_false.
  done.
Qed.

Lemma escaped_inj s t : escaped_text s = escaped_text t -> s = t.
Proof.
  revert t. induction s as [|c s IH]; intros [|d t] H; simpl in H; try done.
  - unfold escape_char in H. repeat case_decide; done.
  - unfold escape_char in H. repeat case_decide; done.
  - unfold escape_char in H.
    repeat case_decide; subst; rewrite ?append_cons, ?append_nil in H; simplify_eq/=;
      f_equal; by apply IH.
Qed.

Lemma append_length (a b : string) : String.length (a +:+ b) = (String.length a + String.length b)%nat.
Proof. induction a as [|c a IH]; [done|]. rewrite append_cons. simpl. by rewrite IH. Qed.

Lemma append_inj_r (a b c : string) : a +:+ c = b +:+ c -> a = b.
Proof.
  revert b. induction a as [|x a IH]; intros [|y b] H; rewrite ?append_cons, ?append_nil in H; try done.
  - apply (f_equal String.length) in H. simpl in H. rewrite append_length in H. lia.
  - apply (f_equal String.length) in H. simpl in H. rewrite append_length in H. lia.
  - simplify_eq. f_equal. by apply IH.
Qed.

(** An objective cannot break out of its element: the escaped text has no
    angle bracket, each character is replaced in place by its entity or
    itself, and no two objectives are rendered alike; an objective accepted by
    validation is trimmed, not empty and not the command name. *)
Theorem objective_contained (s t : string) (op : objective_op) :
  escapeXmlText s = escaped_text s /\
  has_char "<"%char (escapeXmlText s) = false /\ has_char ">"%char (escapeXmlText s) = false /\
  (renderTrustedObjective s = renderTrustedObjective t -> s = t) /\
  (forall o, validateGoalObjective s op = Ok o -> o = trim s /\ o <> EmptyString /\ o <> "/goal"%string) /\
  (trim s = EmptyString \/ trim s = "/goal"%string <-> exists e, validateGoalObjective s op = Throw e).
Proof.
  rewrite escapeXmlText_text. destruct (escaped_no_angle s) as [H1 H2]. split_and!; try done.
  - unfold renderTrustedObjective. rewrite !escapeXmlText_text. intros H.
    apply (inj _), (inj _) in H. rewrite <- !append_assoc in H.
    by apply append_inj_r, append_inj_r, escaped_inj in H.
  - unfold validateGoalObjective. intros o. repeat case_decide; [done..|]. intros ?; simplify_eq. done.
  - unfold validateGoalObjective. repeat case_decide; split; try (by eauto); try (by intros [? ?]).
    by intros [?|?].
Qed.


(** ** Accounting over turns *)

(** New work: what the goal is charged for. *)
Definition work (u : GoalTokenUsage) : Z := input u + cacheWrite u + output u.

Definition usage_le (a b : GoalTokenUsage) : Prop :=
  input a <= input b /\ cacheWrite a <= cacheWrite b /\ output a <= output b.

Record turn := {
  t_id : string;
  t_start : GoalTokenUsage;
  t_start_time : Z;
  t_tools : list (string * GoalTokenUsage * Z);
  t_end : GoalTokenUsage;
  t_end_time : Z
}.

Definition run_turn (rt : GoalRuntime) (t : turn) : GoalRuntime :=
  let rt := onTurnStart (t_start_time t) rt (t_id t) (t_start t) in
  let rt := foldl (fun rt '(name, u, now) => onToolCompleted u now rt name) rt (t_tools t) in
  onAgentEnd (t_end t) (t_end_time t) rt None.

(** Each element follows the one before it. *)
Fixpoint chain {A} (R : A -> A -> Prop) (lo : A) (l : list A) : Prop :=
  match l with
  | [] => True
  | x :: r => R lo x /\ chain R x r
  end.

Definition turn_times (t : turn) : list Z :=
  t_start_time t :: (snd <$> t_tools t) ++ [t_end_time t].

Definition turn_usages (t : turn) : list GoalTokenUsage :=
  ((fun x => x.1.2) <$> t_tools t) ++ [t_end t].

Definition turn_work (t : turn) : Z := work (t_end t) - work (t_start t).

(** The runtime charges an active goal, wall clock included. *)
Record charging (rt : GoalRuntime) (s : GoalModeState) : Prop := {
  ch_state : host_state rt = Some s;
  ch_enabled : enabled s = true;
  ch_active : status (goal s) = G_active;
  ch_wall : wall_activeGoalId (wallClock rt) = Some (id (goal s))
}.

(** The balance that flushes keep within a turn: tokens booked less the work
    of the baseline, and the clock less the time booked. *)
Record balance (rt : GoalRuntime) (s : GoalModeState) (t : GoalTurnSnapshot) (k l : Z) : Prop := {
  bal_charging : charging rt s;
  bal_turn : turnSnapshot rt = Some t;
  bal_charged : turn_activeGoalId t = Some (id (goal s));
  bal_tokens : tokensUsed (goal s) - work (baselineUsage t) = k;
  bal_time : lastAccountedAt (wallClock rt) - 1000 * timeUsedSeconds (goal s) = l
}.

Lemma delta_mono a b : usage_le a b -> goalTokenDelta b a = work b - work a.
Proof. intros (? & ? & ?). unfold goalTokenDelta, work. lia. Qed.

Definition same_goal (a b : Goal) : Prop :=
  id a = id b /\ objective a = objective b /\ createdAt a = createdAt b /\ provenance a = provenance b.

Lemma flush_charged u now rt s t cu :
  charging rt s -> turnSnapshot rt = Some t -> turn_activeGoalId t = Some (id (goal s)) ->
  let d := goalTokenDelta (default u cu) (baselineUsage t) in
  let w := Z.max 0 ((now - lastAccountedAt (wallClock rt)) / 1000) in
  flushUsage u now rt cu =
    if decide (d <= 0 /\ w <= 0) then rt else
    commitState
      (with_snapshots rt
         (Some {| turnId := turnId t; baselineUsage := default u cu;
                  turn_activeGoalId := turn_activeGoalId t |})
         {| lastAccountedAt := lastAccountedAt (wallClock rt) + w * 1000;
            wall_activeGoalId := Some (id (goal s)) |})
      (Some (book now s d w)) (Some PM_goal) true.
Proof.
  intros [Hs He Ha Hw] Ht Hc d w. unfold flushUsage, isAccountingStatus, turn_charged, wall_charged.
  rewrite Hs, He, Ha, Ht, Hw, decide_True, (bool_decide_true (G_active = _)), (bool_decide_false (Some t = _)),
    (bool_decide_true (Some _ = Some _)) by done.
  cbn [negb orb andb bool_decide decide_rel default]. fold d w.
  destruct (decide (d <= 0 /\ w <= 0)) as [[Hd Hv]|Hn].
  - by rewrite (bool_decide_true (d <= 0)), (bool_decide_true (w <= 0)) by done.
  - replace (bool_decide (d <= 0) && bool_decide (w <= 0)) with false
      by (symmetry; apply andb_false_iff; rewrite !bool_decide_eq_false; lia).
    do 2 f_equal. case_bool_decide; [done|].
    assert (w = 0) as -> by lia. rewrite <- Hw, Z.mul_0_l, Z.add_0_r. by destruct (wallClock rt).
Qed.

Lemma flush_balance u now rt s t k l cu :
  balance rt s t k l -> usage_le (baselineUsage t) (default u cu) ->
  lastAccountedAt (wallClock rt) <= now ->
  exists s' t', balance (flushUsage u now rt cu) s' t' k l /\
    same_goal (goal s) (goal s') /\
    usage_le (baselineUsage t') (default u cu) /\
    tokensUsed (goal s') = k + work (default u cu) /\
    timeUsedSeconds (goal s') = (now - l) / 1000 /\
    lastAccountedAt (wallClock (flushUsage u now rt cu)) <= now.
Proof.
  intros [Hch Ht Hc Hk Hl] Hu Hn. pose proof Hch as [Hs He Ha Hw].
  rewrite (flush_charged _ _ _ _ _ _ Hch Ht Hc), delta_mono by done.
  set (w := (now - lastAccountedAt (wallClock rt)) / 1000).
  assert (0 <= w) as Hw0. { apply Z.div_pos; lia. }
  assert ((now - l) / 1000 = timeUsedSeconds (goal s) + w) as Htime.
  { subst l w. rewrite <- Z.div_add_l by lia. f_equal. lia. }
  rewrite Z.max_r by done. destruct Hu as (? & ? & ?). unfold work in *.
  assert (1000 * w <= now - lastAccountedAt (wallClock rt)) by (apply Z.mul_div_le; lia).
  case_decide as Hd.
  - exists s, t. unfold usage_le. split_and!; try done; lia.
  - eexists (book now s _ w), _. split_and!; try (split; [split|..]); simpl;
      unfold usage_le, work; try done; simpl; lia.
Qed.

Lemma usage_le_trans a b c : usage_le a b -> usage_le b c -> usage_le a c.
Proof. unfold usage_le. lia. Qed.

Lemma charging_accounts rt s : charging rt s -> hasAccountingState rt = true.
Proof.
  intros [Hs He Ha _]. unfold hasAccountingState, isAccountingStatus.
  by rewrite Hs, He, Ha, bool_decide_true.
Qed.

Lemma same_goal_trans a b c : same_goal a b -> same_goal b c -> same_goal a c.
Proof. unfold same_goal. intuition congruence. Qed.

Definition run_tools (rt : GoalRuntime) (tools : list (string * GoalTokenUsage * Z)) : GoalRuntime :=
  foldl (fun rt '(name, u, now) => onToolCompleted u now rt name) rt tools.

Lemma tools_balance tools rt s t k l u0 n0 u1 n1 :
  balance rt s t k l -> usage_le (baselineUsage t) u0 -> lastAccountedAt (wallClock rt) <= n0 ->
  chain usage_le u0 (((fun x => x.1.2) <$> tools) ++ [u1]) ->
  chain Z.le n0 ((snd <$> tools) ++ [n1]) ->
  exists s' t', balance (run_tools rt tools) s' t' k l /\ same_goal (goal s) (goal s') /\
    usage_le (baselineUsage t') u1 /\ lastAccountedAt (wallClock (run_tools rt tools)) <= n1.
Proof.
  revert rt s t u0 n0.
  induction tools as [|[[name u] n] tools IH]; intros rt s t u0 n0 Hb Hu Hn [Hcu Hu1] [Hcn Hn1].
  { exists s, t. split_and!; try done; [by eapply usage_le_trans|simpl in *; lia]. }
  simpl in Hcu, Hcn.
  assert (usage_le (baselineUsage t) u) as Hu' by (by eapply usage_le_trans).
  assert (lastAccountedAt (wallClock rt) <= n) as Hn' by lia.
  change (run_tools rt ((name, u, n) :: tools)) with (run_tools (onToolCompleted u n rt name) tools).
  unfold onToolCompleted. case_decide; [by eapply IH|].
  rewrite (charging_accounts _ _ (bal_charging _ _ _ _ _ Hb)). cbn [negb].
  destruct (flush_balance u n rt s t k l None Hb Hu' Hn') as (s' & t' & Hb' & Hg & Hu'' & _ & _ & Hn'').
  destruct (IH _ s' t' u n Hb' Hu'' Hn'' Hu1 Hn1) as (s2 & t2 & Hb2 & Hg2 & ?).
  exists s2, t2. split_and!; try done; [by eapply same_goal_trans|naive_solver|naive_solver].
Qed.

Lemma chain_app {A} (R : A -> A -> Prop) lo l r :
  chain R lo (l ++ r) <-> chain R lo l /\ chain R (default lo (last l)) r.
Proof.
  revert lo. induction l as [|x l IH]; intros lo; [simpl; tauto|].
  rewrite last_cons. simpl. rewrite IH. destruct (last l); simpl; tauto.
Qed.

Lemma chain_le lo lo' l : lo' <= lo -> chain Z.le lo l -> chain Z.le lo' l.
Proof. destruct l; simpl; [done|]. intros ? []. split; [lia|done]. Qed.

Lemma turn_times_last t lo : default lo (last (turn_times t)) = t_end_time t.
Proof. unfold turn_times. by rewrite app_comm_cons, last_snoc. Qed.

Lemma turn_accounting rt s t :
  charging rt s -> chain usage_le (t_start t) (turn_usages t) ->
  chain Z.le (lastAccountedAt (wallClock rt)) (turn_times t) ->
  let l := lastAccountedAt (wallClock rt) - 1000 * timeUsedSeconds (goal s) in
  exists s', charging (run_turn rt t) s' /\ same_goal (goal s) (goal s') /\
    tokensUsed (goal s') = tokensUsed (goal s) + turn_work t /\
    timeUsedSeconds (goal s') = (t_end_time t - l) / 1000 /\
    lastAccountedAt (wallClock (run_turn rt t)) - 1000 * timeUsedSeconds (goal s') = l /\
    lastAccountedAt (wallClock (run_turn rt t)) <= t_end_time t.
Proof.
  intros Hch Hu [Hn Hn'] l. pose proof Hch as [Hs He Ha Hw]. unfold run_turn.
  set (ts := {| turnId := t_id t; baselineUsage := t_start t;
                turn_activeGoalId := Some (id (goal s)) |}).
  assert (onTurnStart (t_start_time t) rt (t_id t) (t_start t) = with_snapshots rt (Some ts) (wallClock rt)) as ->.
  { unfold onTurnStart, isAccountingStatus. rewrite Hs, He, Ha, Hw, bool_decide_true by done. simpl.
    by rewrite decide_False by (by intros []). }
  set (rt0 := with_snapshots rt (Some ts) (wallClock rt)).
  assert (balance rt0 s ts (tokensUsed (goal s) - work (t_start t)) l) as Hb by done.
  destruct (tools_balance (t_tools t) _ _ _ _ _ (t_start t) (t_start_time t) (t_end t) (t_end_time t) Hb)
    as (s1 & t1 & Hb1 & Hg1 & Hu1 & Hn1); try done.
  change (foldl _ rt0 _) with (run_tools rt0 (t_tools t)). unfold onAgentEnd.
  rewrite (charging_accounts _ _ (bal_charging _ _ _ _ _ Hb1)). cbn [negb].
  destruct (flush_balance (t_end t) (t_end_time t) _ _ _ _ _ None Hb1 Hu1 Hn1)
    as (s2 & t2 & [[] ? ? ? Hl2] & Hg2 & _ & Htok & Htime & Hlast).
  exists s2. split_and!; try done; [by eapply same_goal_trans|].
  rewrite Htok. unfold turn_work. simpl. lia.
Qed.


(** ** Life cycle *)

Inductive op :=
| O_turn_start (turn : string) (baseline : GoalTokenUsage)
| O_tool (name : string) | O_goal_tool
| O_agent_end (cu : option GoalTokenUsage) | O_flush (cu : option GoalTokenUsage)
| O_abort | O_thread_resumed
| O_create (newId objective : string) (p : option GoalProvenance)
| O_replace (newId objective : string)
| O_resume | O_pause | O_drop | O_complete.

(** One public method: whether it returned, and the runtime after it. *)
Definition call (usage : GoalTokenUsage) (now : Z) (rt : GoalRuntime) (o : op) : bool * GoalRuntime :=
  let returned {A} (r : outcome string A * GoalRuntime) :=
    (match r.1 with Ok _ => true | Throw _ => false end, r.2) in
  match o with
  | O_turn_start t b => (true, onTurnStart now rt t b)
  | O_tool n => (true, onToolCompleted usage now rt n)
  | O_goal_tool => (true, onGoalToolCompleted usage now rt)
  | O_agent_end cu => (true, onAgentEnd usage now rt cu)
  | O_flush cu => (true, flushUsage usage now rt cu)
  | O_abort => (true, onTaskAborted usage now rt)
  | O_thread_resumed => (true, onThreadResumed usage now rt)
  | O_create i t p => returned (createGoal usage now rt i t p)
  | O_replace i t => returned (replaceGoal usage now rt i t)
  | O_resume => returned (resumeGoal usage now rt)
  | O_pause => returned (pauseGoal usage now rt)
  | O_drop => (true, (dropGoal usage now rt).2)
  | O_complete => returned (completeGoalFromTool usage now rt)
  end.

Inductive reachable : GoalRuntime -> Prop :=
| R_new now : reachable (new_runtime None now)
| R_call usage now rt o : reachable rt -> reachable (call usage now rt o).2.

Definition turn_goal (rt : GoalRuntime) : option string := turnSnapshot rt ≫= turn_activeGoalId.

(** The flags agree with the goal's status, and only an active goal is charged. *)
Definition state_ok (s : GoalModeState) : Prop :=
  status (goal s) <> G_dropped /\
  enabled s = bool_decide (status (goal s) = G_active) /\
  (mode s = M_exiting <-> status (goal s) = G_complete) /\
  completed_reason s = bool_decide (status (goal s) = G_complete).

Definition wellformed (rt : GoalRuntime) : Prop :=
  match host_state rt with
  | None => wall_activeGoalId (wallClock rt) = None /\ turn_goal rt = None
  | Some s =>
      state_ok s /\
      wall_activeGoalId (wallClock rt)
        = (if decide (status (goal s) = G_active) then Some (id (goal s)) else None) /\
      (turn_goal rt = None \/ status (goal s) = G_active /\ turn_goal rt = Some (id (goal s)))
  end.

(** The moves of one goal. *)
Definition status_move (a b : GoalStatus) : bool :=
  match a, b with
  | G_active, (G_active | G_paused | G_complete) => true
  | G_paused, (G_paused | G_active | G_complete) => true
  | G_complete, G_complete => true
  | _, _ => false
  end.

Definition evolves (a b : Goal) : Prop :=
  same_goal a b /\ status_move (status a) (status b) = true /\
  tokensUsed a <= tokensUsed b /\ timeUsedSeconds a <= timeUsedSeconds b /\
  (status a <> G_active -> tokensUsed a = tokensUsed b /\ timeUsedSeconds a = timeUsedSeconds b).

Definition fresh_goal (g : Goal) (i text : string) : Prop :=
  id g = i /\ status g = G_active /\ tokensUsed g = 0 /\ timeUsedSeconds g = 0 /\ objective g = trim text.

(** How a method may change the host's goal. *)
Definition transition (o : op) (a b : option Goal) : Prop :=
  match a, b with
  | None, None => True
  | None, Some g' => exists i t p, o = O_create i t p /\ fresh_goal g' i t
  | Some g, None => o = O_drop
  | Some g, Some g' =>
      evolves g g' \/
      (exists i t p, o = O_create i t p /\ fresh_goal g' i t /\ status g = G_complete) \/
      (exists i t, o = O_replace i t /\ fresh_goal g' i t /\ status g = G_active)
  end.

Lemma evolves_refl g : status g <> G_dropped -> evolves g g.
Proof. intros. unfold evolves, same_goal. split_and!; try done; try lia. by destruct (status g). Qed.

Lemma delta_nonneg a b : 0 <= goalTokenDelta a b.
Proof. unfold goalTokenDelta. lia. Qed.

Lemma flush_cases u now rt cu :
  flushUsage u now rt cu = rt \/
  exists s d w, 0 <= d /\ 0 <= w /\ host_state rt = Some s /\ enabled s = true /\
    status (goal s) = G_active /\ host_state (flushUsage u now rt cu) = Some (book now s d w) /\
    wall_activeGoalId (wallClock (flushUsage u now rt cu)) = wall_activeGoalId (wallClock rt) /\
    turn_goal (flushUsage u now rt cu) = turn_goal rt.
Proof.
  unfold flushUsage. destruct (host_state rt) as [s|] eqn:Hs; [|by left].
  destruct (enabled s) eqn:He; [|by left]. unfold isAccountingStatus. case_bool_decide as Ha; [|by left].
  cbn [negb orb]. case_match; [by left|]. case_match; [by left|]. right.
  eexists s, _, _. split_and!; [| |done..| |].
  - destruct (turn_charged rt (goal s)); [apply delta_nonneg|done].
  - destruct (wall_charged rt (goal s)); [apply Z.le_max_l|done].
  - simpl. match goal with |- _ (if ?b then _ else _) = _ => by destruct b end.
  - unfold turn_goal, turn_charged. simpl. destruct (turnSnapshot rt) as [t|]; [|done].
    by destruct (decide (turn_activeGoalId t = Some (id (goal s)))).
Qed.

(** What a flush does to a well-formed runtime. *)
Lemma flush_wellformed u now rt cu :
  wellformed rt ->
  wellformed (flushUsage u now rt cu) /\
  match host_state rt with
  | None => flushUsage u now rt cu = rt
  | Some s => exists s', host_state (flushUsage u now rt cu) = Some s' /\ evolves (goal s) (goal s') /\
      status (goal s') = status (goal s) /\
      (status (goal s) <> G_active -> flushUsage u now rt cu = rt)
  end.
Proof.
  intros Hwf. pose proof Hwf as Hwf'. unfold wellformed in Hwf.
  destruct (flush_cases u now rt cu) as [->|(s & d & w & Hd & Hw & Hs & He & Ha & Hs' & Hwall & Hturn)].
  - split; [done|]. destruct (host_state rt) as [s|]; [|done]. exists s. destruct Hwf as [[Hnd _] _].
    split_and!; try done. by apply evolves_refl.
  - unfold wellformed. rewrite Hs', Hwall, Hturn. rewrite Hs in *. destruct Hwf as (Hok & Hwf). split.
    + split_and!; try done; apply Hwf.
    + exists (book now s d w). split_and!; try done. unfold evolves, same_goal. simpl.
      rewrite Ha. split_and!; try done; lia.
Qed.

Lemma clear_ok now rt : turn_goal (clearActiveAccounting now rt) = None.
Proof. unfold turn_goal. simpl. by destruct (turnSnapshot rt). Qed.

Lemma mark_ok u now rt g :
  turn_goal (markActiveAccounting u now rt g) = Some (id g) /\
  wall_activeGoalId (wallClock (markActiveAccounting u now rt g)) = Some (id g).
Proof.
  unfold turn_goal, markActiveAccounting. simpl. split; [by destruct (turnSnapshot rt)|].
  destruct (decide (_ <> _)) as [|Hn]; [done|]. by apply dec_stable in Hn.
Qed.

Lemma validated text p o : validateGoalObjective text p = Ok o -> o = trim text.
Proof. unfold validateGoalObjective. repeat case_decide; congruence. Qed.

(** The claim of one call: the runtime stays well formed, a method that throws
    changes nothing, and the goal moves as allowed. *)
Definition call_ok (rt : GoalRuntime) (o : op) (r : bool * GoalRuntime) : Prop :=
  wellformed r.2 /\ (r.1 = false -> r.2 = rt) /\
  transition o (goal <$> host_state rt) (goal <$> host_state r.2).

Lemma same_ok rt o : wellformed rt -> transition o (goal <$> host_state rt) (goal <$> host_state rt).
Proof.
  unfold wellformed. destruct (host_state rt) as [s|]; [|done]. intros [[Hd _] _]. left. by apply evolves_refl.
Qed.

Lemma flush_ok u now rt cu o : wellformed rt -> call_ok rt o (true, flushUsage u now rt cu).
Proof.
  intros Hwf. destruct (flush_wellformed u now rt cu Hwf) as [Hf Hs]. split_and!; try done. simpl.
  destruct (host_state rt) as [s|] eqn:E.
  - destruct Hs as (s' & -> & He & _). by left.
  - rewrite Hs, E. done.
Qed.

(** Replacing the snapshots of a runtime keeps it well formed when no turn is
    charged to a goal. *)
Lemma no_turn_ok rt : wellformed rt -> wellformed (with_snapshots rt None (wallClock rt)).
Proof. unfold wellformed. simpl. destruct (host_state rt); naive_solver. Qed.

Lemma accounting_active rt :
  wellformed rt ->
  hasAccountingState rt = match host_state rt with
                          | Some s => bool_decide (status (goal s) = G_active) | None => false end.
Proof.
  unfold wellformed, hasAccountingState, isAccountingStatus. destruct (host_state rt) as [s|]; [|done].
  intros [(_ & -> & _) _]. by case_bool_decide.
Qed.

(** Settling the books of a goal before changing it. *)
Lemma settle_ok u now rt s :
  wellformed rt -> host_state rt = Some s ->
  exists s', host_state (flushUsage u now rt None) = Some s' /\ state_ok s' /\
    evolves (goal s) (goal s') /\ status (goal s') = status (goal s) /\
    (status (goal s) <> G_active -> flushUsage u now rt None = rt).
Proof.
  intros Hwf Hs. destruct (flush_wellformed u now rt None Hwf) as [Hf H]. rewrite Hs in H.
  destruct H as (s' & Hs' & H). exists s'. unfold wellformed in Hf. rewrite Hs' in Hf. naive_solver.
Qed.

Lemma create_ok u now rt i text p : wellformed rt -> call_ok rt (O_create i text p) (call u now rt (O_create i text p)).
Proof.
  intros Hwf. unfold call, createGoal, call_ok.
  destruct (validateGoalObjective text op_create) as [o|e] eqn:Ev; [|split_and!; try done; by apply same_ok].
  match goal with |- context [if ?b then (Throw _, rt) else _] => destruct b eqn:Hb end;
    [split_and!; try done; by apply same_ok|].
  destruct (mark_ok u now rt (goal (createGoalState now i o (Some (default P_user p))))) as [Ht Hw].
  split_and!; [|done|].
  - unfold wellformed. simpl in *. split_and!; [split_and!; by try split|done|by right].
  - apply validated in Ev. simpl. unfold wellformed in Hwf. destruct (host_state rt) as [s|]; simpl.
    + right; left. eexists _, _, _. split_and!; try done. destruct Hwf as [[Hd _] _].
      apply andb_false_iff in Hb as [Hb|Hb]; apply bool_decide_eq_false in Hb; [done|by apply dec_stable in Hb].
    + eexists _, _, _. split_and!; done.
Qed.

Lemma replace_ok u now rt i text : wellformed rt -> call_ok rt (O_replace i text) (call u now rt (O_replace i text)).
Proof.
  intros Hwf. unfold call, replaceGoal, call_ok.
  destruct (validateGoalObjective text op_replace) as [o|e] eqn:Ev; [|split_and!; try done; by apply same_ok].
  rewrite accounting_active by done. destruct (host_state rt) as [s|] eqn:Hs.
  2: { split_and!; try done. cbn. by rewrite Hs. }
  destruct (bool_decide_reflect (status (goal s) = G_active)) as [Ha|Ha]; cbn [negb].
  2: { split_and!; try done. simpl. rewrite Hs. pose proof (same_ok rt (O_replace i text) Hwf) as H.
    by rewrite Hs in H. }
  set (rt1 := flushUsage u now rt None).
  destruct (mark_ok u now rt1 (goal (createGoalState now i o (Some P_user)))) as [Ht Hw].
  split_and!; [|done|].
  - unfold wellformed. simpl in *. split_and!; [split_and!; by try split|done|by right].
  - apply validated in Ev. right; right. eexists _, _. split_and!; done.
Qed.

(** Leaving the active status: the clocks are cleared. *)
Lemma cleared_ok s rt' :
  host_state rt' = Some s -> wall_activeGoalId (wallClock rt') = None -> turn_goal rt' = None ->
  state_ok s -> status (goal s) <> G_active -> wellformed rt'.
Proof. intros Hs Hw Ht Hok Hn. unfold wellformed. rewrite Hs, Hw. split_and!; try done; [by rewrite decide_False|by left]. Qed.

Lemma marked_ok s rt' :
  host_state rt' = Some s -> wall_activeGoalId (wallClock rt') = Some (id (goal s)) ->
  turn_goal rt' = Some (id (goal s)) -> state_ok s -> status (goal s) = G_active -> wellformed rt'.
Proof. intros Hs Hw Ht Hok Ha. unfold wellformed. rewrite Hs, Hw. split_and!; try done; [by rewrite decide_True|by right]. Qed.

(** The goal's accounts after the flush that opens a method. *)
Lemma moved now g s on m d st :
  evolves g (goal s) -> status g = status (goal s) -> status_move (status g) st = true ->
  evolves g (goal (restate now s on m d st)).
Proof. unfold evolves, same_goal. simpl. naive_solver. Qed.

Lemma pause_ok u now rt : wellformed rt -> call_ok rt O_pause (call u now rt O_pause).
Proof.
  intros Hwf. unfold call, pauseGoal, call_ok. destruct (host_state rt) as [s|] eqn:Hs.
  2: { destruct (flush_wellformed u now rt None Hwf) as [_ H]. rewrite Hs in H. rewrite H, Hs. simpl. by rewrite Hs. }
  destruct (settle_ok u now rt s Hwf Hs) as (s' & Hs' & Hok & Hev & Hst & Hrt). rewrite Hs'.
  destruct (decide (status (goal s') <> G_active)) as [Hn|Ha].
  { rewrite Hst in Hn. rewrite Hrt by done. split_and!; try done. simpl. rewrite Hs. simpl. left. apply evolves_refl.
    unfold wellformed in Hwf. rewrite Hs in Hwf. apply Hwf. }
  apply dec_stable in Ha. split_and!; [|done|].
  - eapply cleared_ok; [done|done|apply clear_ok| |done]. by split_and!.
  - left. apply moved; try done. by rewrite <- Hst, Ha.
Qed.

Lemma complete_ok u now rt : wellformed rt -> call_ok rt O_complete (call u now rt O_complete).
Proof.
  intros Hwf. unfold call, completeGoalFromTool, call_ok. destruct (host_state rt) as [s|] eqn:Hs.
  2: { destruct (flush_wellformed u now rt None Hwf) as [_ H]. rewrite Hs in H. rewrite H, Hs. simpl. by rewrite Hs. }
  destruct (settle_ok u now rt s Hwf Hs) as (s' & Hs' & Hok & Hev & Hst & Hrt). rewrite Hs'.
  destruct (decide (status (goal s') = G_complete)) as [Hc|Hc].
  { rewrite Hrt by congruence. split_and!; try done. simpl. rewrite Hs. simpl. left. apply evolves_refl. congruence. }
  rewrite decide_False by apply Hok. split_and!; [|done|].
  - eapply cleared_ok; [done|done|apply clear_ok| |done]. by split_and!.
  - left. apply moved; try done. destruct Hok as [Hd _]. rewrite Hst in *. by destruct (status (goal s)).
Qed.

Lemma resume_ok u now rt : wellformed rt -> call_ok rt O_resume (call u now rt O_resume).
Proof.
  intros Hwf. pose proof (same_ok rt O_resume Hwf) as Hsame.
  unfold call, resumeGoal, call_ok. destruct (host_state rt) as [s|] eqn:Hs; [|cbn; by rewrite Hs].
  case_decide as Hc; [cbn; by rewrite Hs|].
  set (s' := restate now s true M_active false G_active).
  destruct (mark_ok u now rt (goal s')) as [Ht Hw]. unfold wellformed in Hwf. rewrite Hs in Hwf.
  destruct Hwf as [[Hd _] _]. split_and!; [|done|].
  - eapply (marked_ok s'); try done; by split_and!.
  - left. apply moved; try done; [by apply evolves_refl|]. by destruct (status (goal s)).
Qed.

Lemma thread_resumed_ok u now rt : wellformed rt -> call_ok rt O_thread_resumed (call u now rt O_thread_resumed).
Proof.
  intros Hwf. unfold call, onThreadResumed, call_ok.
  destruct (host_state rt) as [s|] eqn:Hs; [|cbn; by rewrite Hs].
  pose proof Hwf as Hok. unfold wellformed in Hok. rewrite Hs in Hok. destruct Hok as [(Hd & He & Hm) _].
  unfold isAccountingStatus. simpl. rewrite He, orb_diag, andb_diag. destruct (bool_decide_reflect (status (goal s) = G_active)) as [Ha|Ha].
  - destruct (mark_ok u now rt (goal s)) as [Ht Hw]. split_and!; [|done|left; by apply evolves_refl].
    eapply marked_ok; try done; split_and!; try done; simpl; try apply Hm; by rewrite bool_decide_true.
  - split_and!; [|done|left; by apply evolves_refl].
    eapply cleared_ok; [done|done|apply clear_ok| |done].
    split_and!; try done; simpl; try apply Hm; by rewrite bool_decide_false.
Qed.

Lemma drop_ok u now rt : wellformed rt -> call_ok rt O_drop (call u now rt O_drop).
Proof.
  intros Hwf. unfold call, dropGoal, call_ok. destruct (host_state rt) as [s|] eqn:Hs.
  2: { destruct (flush_wellformed u now rt None Hwf) as [_ H]. rewrite Hs in H. rewrite H, Hs. simpl. by rewrite Hs. }
  destruct (settle_ok u now rt s Hwf Hs) as (s' & Hs' & _). rewrite Hs'. split_and!; try done.
  split; [done|apply (clear_ok now (flushUsage u now rt None))].
Qed.

Lemma turn_start_ok u now rt t b : wellformed rt -> call_ok rt (O_turn_start t b) (call u now rt (O_turn_start t b)).
Proof.
  intros Hwf. pose proof (same_ok rt (O_turn_start t b) Hwf) as Hsame. unfold wellformed in Hwf.
  unfold call, onTurnStart, call_ok, isAccountingStatus. destruct (host_state rt) as [s|] eqn:Hs.
  2: { simpl. rewrite Hs. split_and!; try done. unfold wellformed. simpl. rewrite Hs. by split; [apply Hwf|]. }
  destruct Hwf as (Hok & Hw & _). pose proof Hok as (Hd & He & Hm). rewrite He, andb_diag. destruct (bool_decide_reflect (status (goal s) = G_active)) as [Ha|Ha].
  - rewrite decide_True in Hw by done. rewrite Hw, decide_False by (by intros []). simpl.
    rewrite Hs. split_and!; try done. unfold wellformed. simpl. rewrite Hs, Hw, decide_True by done.
    split; [exact Hok|]. split; [done|by right].
  - simpl. rewrite Hs. split_and!; try done. unfold wellformed. simpl. rewrite Hs, Hw.
    split; [exact Hok|]. split; [done|by left].
Qed.

Lemma abort_ok u now rt : wellformed rt -> call_ok rt O_abort (call u now rt O_abort).
Proof.
  intros Hwf. pose proof (same_ok rt O_abort Hwf) as Hsame. unfold call, onTaskAborted, call_ok.
  rewrite accounting_active by done. destruct (host_state rt) as [s|] eqn:Hs.
  2: { simpl. rewrite Hs. split_and!; try done. apply no_turn_ok, Hwf. }
  destruct (bool_decide_reflect (status (goal s) = G_active)) as [Ha|Ha]; cbn [negb].
  2: { simpl. rewrite Hs. split_and!; try done. apply no_turn_ok, Hwf. }
  destruct (settle_ok u now rt s Hwf Hs) as (s' & Hs' & Hok & Hev & Hst & _). simpl. rewrite Hs'.
  pose proof Hok as (Hd & He & Hm). rewrite Ha in Hst. unfold isAccountingStatus.
  rewrite He, andb_diag, bool_decide_true by done.
  set (s2 := restate now s' _ _ _ _). set (rt1 := with_snapshots _ _ _).
  destruct (mark_ok u now rt1 (goal s2)) as [Ht Hw]. split_and!; [|done|].
  - eapply (marked_ok s2); try done; split_and!; try done; simpl; try apply Hm; by rewrite bool_decide_true.
  - left. apply moved; try done; [congruence|by rewrite Ha, Hst].
Qed.

Lemma call_sound u now rt o : wellformed rt -> call_ok rt o (call u now rt o).
Proof.
  intros Hwf. destruct o.
  - by apply turn_start_ok.
  - simpl. unfold onToolCompleted. repeat case_match; try (by apply flush_ok);
      split_and!; try done; by apply same_ok.
  - simpl. unfold onGoalToolCompleted. case_match; [|by apply flush_ok]. split_and!; try done; by apply same_ok.
  - simpl. unfold onAgentEnd. case_match.
    + split_and!; try done; [by apply no_turn_ok|by apply (same_ok rt)].
    + destruct (flush_ok u now rt cu (O_agent_end cu) Hwf) as (? & _ & ?). split_and!; try done. by apply no_turn_ok.
  - by apply flush_ok.
  - by apply abort_ok.
  - by apply thread_resumed_ok.
  - by apply create_ok.
  - by apply replace_ok.
  - by apply resume_ok.
  - by apply pause_ok.
  - by apply drop_ok.
  - by apply complete_ok.
Qed.

Lemma reachable_wellformed rt : reachable rt -> wellformed rt.
Proof. induction 1 as [now|u now rt o _ IH]; [done|]. by apply call_sound. Qed.

(** The life cycle of a goal: in every reachable runtime the enabled
    flag, the mode and the reason agree with the goal's status and only an
    active goal is charged for turns or time; a method that throws changes
    nothing; a goal moves only along the allowed statuses (a complete one stays
    complete until a new goal is created), its tokens and time never decrease
    and are frozen while it is not active; and a goal appears only through
    create (with none in progress) or replace (of an active one), with empty
    accounts, and disappears only when dropped. *)
Theorem goal_lifecycle (usage : GoalTokenUsage) (now : Z) (rt : GoalRuntime) (o : op)
    (H : reachable rt) :
  let r := call usage now rt o in
  wellformed rt /\ wellformed r.2 /\ (r.1 = false -> r.2 = rt) /\
  transition o (goal <$> host_state rt) (goal <$> host_state r.2).
Proof.
  intros r. apply reachable_wellformed in H. split; [done|]. by apply call_sound.
Qed.

(** ** Witnesses *)

Definition sample_usage (n : Z) : GoalTokenUsage :=
  {| input := n; output := 2 * n; cacheRead := 7; cacheWrite := 0 |}.

Definition sample_runtime : GoalRuntime :=
  (call (sample_usage 0) 1000 (new_runtime None 500) (O_create "g1" " ship it " None)).2.

Definition sample_turns : list turn := [
  {| t_id := "t1"; t_start := sample_usage 10; t_start_time := 1500;
     t_tools := [("bash"%string, sample_usage 12, 2700); ("goal"%string, sample_usage 15, 3000)];
     t_end := sample_usage 20; t_end_time := 3300 |};
  {| t_id := "t2"; t_start := sample_usage 30; t_start_time := 5000; t_tools := [];
     t_end := sample_usage 31; t_end_time := 9999 |} ].

Lemma goal_lifecycle_witness :
  let rt := (call (sample_usage 3) 2500 sample_runtime O_pause).2 in
  let r := call (sample_usage 9) 9000 rt O_resume in
  (status <$> (goal <$> host_state r.2)) = Some G_active /\
  (wellformed rt /\ wellformed r.2 /\ (r.1 = false -> r.2 = rt) /\
   transition O_resume (goal <$> host_state rt) (goal <$> host_state r.2)).
Proof.
  split; [vm_compute; reflexivity|].
  apply (goal_lifecycle (sample_usage 9) 9000 (call (sample_usage 3) 2500 sample_runtime O_pause).2 O_resume).
  do 2 apply R_call. apply R_new.
Defined.

