(* ===== verification/YieldQueue.v ===== *)
(** * Yield queue ([session/yield-queue.ts])

    Entries of several kinds wait until the agent yields; a flush turns the
    entries of each kind that are still worth delivering into one message.  The
    host's callbacks do not re-enter the queue: whether it is streaming and
    whether a callback throws are arguments of a step, and what the host is
    given is recorded in order. *)

From S2P Require Import Prelude.

Local Open Scope Z_scope.

Inductive YieldFlushMode := streaming | idle.

#[export] Instance YieldFlushMode_eq_dec : EqDecision YieldFlushMode.
Proof. solve_decision. Defined.

Section queue.
Context {E M : Type}.

(** A stored dispatcher; [stored] is the identity of the object. *)
Record StoredDispatcher := {
  stored : nat;
  isStale : option (E -> outcome string bool);
  build : list E -> outcome string (option M)
}.

Inductive host_effect :=
| InjectStreaming (m : M)
| InjectIdle (ms : list M)
| Scheduled.

Record YieldQueue := {
  dispatchers : list (string * StoredDispatcher);
  entries : list (string * list E);
  idleFlushPending : bool;
  next_stored : nat;
  outstanding : nat;
  log : list host_effect
}.

Definition new_queue : YieldQueue := {|
  dispatchers := []; entries := []; idleFlushPending := false; next_stored := 0;
  outstanding := 0; log := [] |}.

Implicit Types (q : YieldQueue).

Definition with_entries q es : YieldQueue := {|
  dispatchers := dispatchers q; entries := es; idleFlushPending := idleFlushPending q;
  next_stored := next_stored q; outstanding := outstanding q; log := log q |}.

Definition with_pending q (b : bool) : YieldQueue := {|
  dispatchers := dispatchers q; entries := entries q; idleFlushPending := b;
  next_stored := next_stored q; outstanding := outstanding q; log := log q |}.

Definition with_log q (l : list host_effect) : YieldQueue := {|
  dispatchers := dispatchers q; entries := entries q; idleFlushPending := idleFlushPending q;
  next_stored := next_stored q; outstanding := outstanding q; log := log q ++ l |}.

(** The entry counter identifies the dispatcher returned to the caller. *)
Definition register q (kind : string) (stale : option (E -> outcome string bool))
    (bld : list E -> outcome string (option M)) : nat * YieldQueue :=
  let d := {| stored := next_stored q; isStale := stale; build := bld |} in
  (next_stored q,
   {| dispatchers := map_set (dispatchers q) kind d; entries := entries q;
      idleFlushPending := idleFlushPending q; next_stored := S (next_stored q);
      outstanding := outstanding q; log := log q |}).

(** The closure [register] returns. *)
Definition unregister q (kind : string) (id : nat) : YieldQueue :=
  match map_get (dispatchers q) kind with
  | Some d =>
      if decide (stored d = id) then {|
        dispatchers := map_delete (dispatchers q) kind; entries := map_delete (entries q) kind;
        idleFlushPending := idleFlushPending q; next_stored := next_stored q;
        outstanding := outstanding q; log := log q |}
      else q
  | None => q
  end.

(** [scheduled] tells whether the host's scheduler returned or threw. *)
Definition scheduleIdleFlush q (scheduled : bool) : YieldQueue :=
  if idleFlushPending q then q
  else if scheduled then {|
    dispatchers := dispatchers q; entries := entries q; idleFlushPending := true;
    next_stored := next_stored q; outstanding := S (outstanding q); log := log q ++ [Scheduled] |}
  else with_pending q false.

Definition enqueue q (kind : string) (entry : E) (isStreaming scheduled : bool) : YieldQueue :=
  match map_get (dispatchers q) kind with
  | None => q
  | Some _ =>
      let q := with_entries q (map_set (entries q) kind (default [] (map_get (entries q) kind) ++ [entry])) in
      if isStreaming then q else scheduleIdleFlush q scheduled
  end.

Definition has q (kind : option string) : bool :=
  match kind with
  | Some k => bool_decide (0 < Z.of_nat (length (default [] (map_get (entries q) k))))
  | None => existsb (fun p => bool_decide (0 < Z.of_nat (length p.2))) (entries q)
  end.

Definition drain q (kind : string) : list E * YieldQueue :=
  match map_get (entries q) kind with
  | None | Some [] => ([], q)
  | Some es => (es, with_entries q (map_delete (entries q) kind))
  end.

(** An entry survives unless it is stale or its check throws. *)
Definition survives (d : StoredDispatcher) (entry : E) : bool :=
  match isStale d with
  | None => true
  | Some stale => match stale entry with Ok b => negb b | Throw _ => false end
  end.

Fixpoint survivors_of (d : StoredDispatcher) (es survivors : list E) : list E :=
  match es with
  | [] => survivors
  | e :: es => survivors_of d es (if survives d e then survivors ++ [e] else survivors)
  end.

Definition build_message (d : StoredDispatcher) (es : list E) : option M :=
  match survivors_of d es [] with
  | [] => None
  | survivors => match build d survivors with Ok m => m | Throw _ => None end
  end.

(** The loop of [flush] over the dispatchers. *)
Fixpoint flush_loop (mode : YieldFlushMode) (ds : list (string * StoredDispatcher)) q (idleMessages : list M)
    : list M * YieldQueue :=
  match ds with
  | [] => (idleMessages, q)
  | (kind, d) :: ds =>
      let '(es, q) := drain q kind in
      match es with
      | [] => flush_loop mode ds q idleMessages
      | _ =>
          match build_message d es with
          | None => flush_loop mode ds q idleMessages
          | Some m =>
              match mode with
              | streaming => flush_loop mode ds (with_log q [InjectStreaming m]) idleMessages
              | idle => flush_loop mode ds q (idleMessages ++ [m])
              end
          end
      end
  end.

Definition flush q (mode : YieldFlushMode) : YieldQueue :=
  let q := match mode with idle => with_pending q false | streaming => q end in
  let '(messages, q) := flush_loop mode (dispatchers q) q [] in
  match mode, messages with
  | idle, _ :: _ => with_log q [InjectIdle messages]
  | _, _ => q
  end.

Definition clear q : YieldQueue := with_pending (with_entries q []) false.

(** The callback given to the host's scheduler, run once. *)
Definition run_scheduled q (isStreaming : bool) : YieldQueue :=
  match outstanding q with
  | O => q
  | S n =>
      let q := {| dispatchers := dispatchers q; entries := entries q; idleFlushPending := false;
                  next_stored := next_stored q; outstanding := n; log := log q |} in
      if isStreaming then q else flush q idle
  end.

(** ** Histories *)

Inductive op :=
| O_register (kind : string) (stale : option (E -> outcome string bool))
    (bld : list E -> outcome string (option M))
| O_unregister (kind : string) (id : nat)
| O_enqueue (kind : string) (entry : E) (isStreaming scheduled : bool)
| O_flush (mode : YieldFlushMode)
| O_clear
| O_run_scheduled (isStreaming : bool).

Definition step q (o : op) : YieldQueue :=
  match o with
  | O_register k s b => (register q k s b).2
  | O_unregister k i => unregister q k i
  | O_enqueue k e s ok => enqueue q k e s ok
  | O_flush m => flush q m
  | O_clear => clear q
  | O_run_scheduled s => run_scheduled q s
  end.

(** ** The abstract queue

    One list of waiting entries in order of arrival, over the registered
    kinds; a flush hands each kind's waiting entries over in one batch. *)
Record Abstract := { a_dispatchers : list (string * StoredDispatcher); waiting : list (string * E) }.

Definition of_kind (k : string) (w : list (string * E)) : list E := (filter (fun p => p.1 = k) w).*2.

Definition batches (a : Abstract) : list M :=
  omap (fun p => build_message p.2 (of_kind p.1 (waiting a))) (a_dispatchers a).

Definition delivery (m : YieldFlushMode) (ms : list M) : list host_effect :=
  match m with
  | streaming => InjectStreaming <$> ms
  | idle => match ms with [] => [] | _ => [InjectIdle ms] end
  end.

Inductive a_op :=
| A_register (kind : string) (d : StoredDispatcher)
| A_unregister (kind : string)
| A_enqueue (kind : string) (entry : E)
| A_flush (mode : YieldFlushMode)
| A_clear
| A_skip.

Definition a_step (a : Abstract) (o : a_op) : list host_effect * Abstract :=
  match o with
  | A_register k d => ([], {| a_dispatchers := map_set (a_dispatchers a) k d; waiting := waiting a |})
  | A_unregister k =>
      ([], {| a_dispatchers := map_delete (a_dispatchers a) k;
              waiting := filter (fun p => p.1 <> k) (waiting a) |})
  | A_enqueue k e => ([], {| a_dispatchers := a_dispatchers a; waiting := waiting a ++ [(k, e)] |})
  | A_flush m => (delivery m (batches a), {| a_dispatchers := a_dispatchers a; waiting := [] |})
  | A_clear => ([], {| a_dispatchers := a_dispatchers a; waiting := [] |})
  | A_skip => ([], a)
  end.

(** What an operation does to the abstract queue. *)
Definition abstract_op q (o : op) : a_op :=
  match o with
  | O_register k s b => A_register k {| stored := next_stored q; isStale := s; build := b |}
  | O_unregister k i =>
      match map_get (dispatchers q) k with
      | Some d => if decide (stored d = i) then A_unregister k else A_skip
      | None => A_skip
      end
  | O_enqueue k e _ _ => match map_get (dispatchers q) k with Some _ => A_enqueue k e | None => A_skip end
  | O_flush m => A_flush m
  | O_clear => A_clear
  | O_run_scheduled s => match outstanding q with O => A_skip | S _ => if s then A_skip else A_flush idle end
  end.

(** The queue implements the abstract one. *)
Record refines q (a : Abstract) : Prop := {
  ref_dispatchers : dispatchers q = a_dispatchers a;
  ref_nodup : NoDup (dispatchers q).*1;
  ref_keys : NoDup (entries q).*1;
  ref_entries : forall k, default [] (map_get (entries q) k) = of_kind k (waiting a);
  ref_registered : forall p, p ∈ waiting a -> p.1 ∈ (dispatchers q).*1;
  ref_nonempty : forall p, p ∈ entries q -> p.2 <> [];
  ref_pending : idleFlushPending q = true -> (0 < outstanding q)%nat
}.

(** Host effects of deliveries, as the scheduler's are not deliveries. *)
Definition deliveries (l : list host_effect) : list host_effect :=
  omap (fun e => match e with Scheduled => None | _ => Some e end) l.

(** A run of the queue beside the abstract one, and what was delivered. *)
Inductive history : YieldQueue -> Abstract -> list host_effect -> Prop :=
| H_new : history new_queue {| a_dispatchers := []; waiting := [] |} []
| H_step q a l o :
    history q a l ->
    history (step q o) (a_step a (abstract_op q o)).2 (l ++ (a_step a (abstract_op q o)).1).

(** Both queues run on a sequence of operations. *)
Definition run (ops : list op) (s : YieldQueue * Abstract * list host_effect)
    : YieldQueue * Abstract * list host_effect :=
  foldl (fun s o => let '(q, a, l) := s in
           (step q o, (a_step a (abstract_op q o)).2, l ++ (a_step a (abstract_op q o)).1)) s ops.

Lemma run_history ops s : history s.1.1 s.1.2 s.2 -> history (run ops s).1.1 (run ops s).1.2 (run ops s).2.
Proof.
  apply (foldl_invariant _ (fun s => history s.1.1 s.1.2 s.2)). intros [[q a] l] o _ H. by apply H_step.
Qed.

(** ** Lemmas *)

Lemma with_log_nil q : with_log q [] = q.
Proof. unfold with_log. rewrite app_nil_r. by destruct q. Qed.

(** The messages of a flush, dispatcher by dispatcher. *)
Fixpoint messages_of (es : list (string * list E)) (ds : list (string * StoredDispatcher)) : list M :=
  match ds with
  | [] => []
  | (k, d) :: ds =>
      match build_message d (default [] (map_get es k)) with
      | Some m => m :: messages_of es ds
      | None => messages_of es ds
      end
  end.

Lemma messages_of_ext es es' ds :
  (forall k, k ∈ ds.*1 -> map_get es k = map_get es' k) -> messages_of es ds = messages_of es' ds.
Proof.
  induction ds as [|[k d] ds IH]; intros H; [done|]. cbn [messages_of].
  rewrite (H k) by (by left). rewrite IH by (intros; apply H; by right). done.
Qed.

Lemma flush_loop_spec mode ds q acc :
  NoDup ds.*1 -> (forall p, p ∈ entries q -> p.2 <> []) ->
  flush_loop mode ds q acc
  = (acc ++ match mode with idle => messages_of (entries q) ds | streaming => [] end,
     with_log (with_entries q (foldl map_delete (entries q) ds.*1))
       match mode with idle => [] | streaming => InjectStreaming <$> messages_of (entries q) ds end).
Proof.
  revert q acc. induction ds as [|[k d] ds IH]; intros q acc Hn Hne.
  { destruct mode; simpl; rewrite app_nil_r, with_log_nil; by destruct q. }
  rewrite fmap_cons in Hn. apply NoDup_cons in Hn as [Hk Hn].
  rewrite fmap_cons. cbn [flush_loop messages_of fst foldl]. unfold drain.
  destruct (map_get (entries q) k) as [es|] eqn:Hg; cbn [default from_option].
  2: { change (build_message d []) with (@None M). rewrite map_delete_absent by (by apply map_get_None).
       by rewrite IH. }
  destruct es as [|e es]; [by apply map_get_elem, Hne in Hg|].
  set (q' := with_entries q (map_delete (entries q) k)).
  assert (messages_of (entries q') ds = messages_of (entries q) ds) as Hrest.
  { apply messages_of_ext. intros k' Hk'. simpl. rewrite map_get_delete_ne; [done|]. by intros ->. }
  assert (forall p, p ∈ entries q' -> p.2 <> []) as Hne'.
  { intros p Hp. apply map_delete_elem in Hp as [_ Hp]. by apply Hne. }
  rewrite <- Hrest. unfold id. destruct (build_message d (e :: es)) as [m|]; [|by rewrite IH].
  destruct mode; rewrite IH by done.
  - f_equal. unfold with_log, with_entries. simpl. by rewrite <- app_assoc.
  - by rewrite <- app_assoc.
Qed.

Lemma foldl_delete_elem (es : list (string * list E)) ks p :
  p ∈ foldl map_delete es ks <-> p ∈ es /\ p.1 ∉ ks.
Proof.
  revert es. induction ks as [|k ks IH]; intros es; cbn [foldl].
  - split; [intros H; split; [done|apply not_elem_of_nil]|tauto].
  - rewrite IH, map_delete_elem, not_elem_of_cons. tauto.
Qed.

Lemma of_kind_app k w w' : of_kind k (w ++ w') = of_kind k w ++ of_kind k w'.
Proof. unfold of_kind. by rewrite filter_app, fmap_app. Qed.

Lemma of_kind_single k k' (e : E) : of_kind k [(k', e)] = if decide (k' = k) then [e] else [].
Proof. unfold of_kind. rewrite filter_cons. simpl. by case_decide. Qed.

Lemma of_kind_removed k k' w : of_kind k (filter (fun p => p.1 <> k') w) = if decide (k' = k) then [] else of_kind k w.
Proof.
  induction w as [|[a e] w IH]; [by case_decide|].
  change ((a, e) :: w) with ([(a, e)] ++ w). rewrite filter_app, !of_kind_app, IH, of_kind_single, filter_cons.
  simpl. destruct (decide (a <> k')) as [Ha|Ha]; [|apply dec_stable in Ha];
    rewrite ?of_kind_single; repeat case_decide; by subst.
Qed.

Lemma in_of_kind k w (e : E) : e ∈ of_kind k w <-> (k, e) ∈ w.
Proof.
  unfold of_kind. rewrite list_elem_of_fmap. split.
  - intros ([k' e'] & -> & H). apply list_elem_of_filter in H as [<- H]. done.
  - intros H. exists (k, e). split; [done|]. by apply list_elem_of_filter.
Qed.

Section refined.
Context (q : YieldQueue) (a : Abstract) (R : refines q a).

Lemma messages_batches : messages_of (entries q) (dispatchers q) = batches a.
Proof using R.
  unfold batches. rewrite <- (ref_dispatchers _ _ R).
  induction (dispatchers q) as [|[k d] ds IH]; [done|]. cbn [messages_of]. rewrite IH, (ref_entries _ _ R). done.
Qed.

Lemma entry_registered p : p ∈ entries q -> p.1 ∈ (dispatchers q).*1.
Proof using R.
  destruct p as [k es]. intros Hp. pose proof (ref_nonempty _ _ R _ Hp) as Hne.
  apply (map_elem_get _ _ _ (ref_keys _ _ R)) in Hp. pose proof (ref_entries _ _ R k) as He.
  rewrite Hp in He. simpl in *. destruct es as [|e es]; [done|].
  apply (ref_registered _ _ R (k, e)), in_of_kind. rewrite <- He. by left.
Qed.

Lemma all_drained : foldl map_delete (entries q) (dispatchers q).*1 = [].
Proof using R.
  destruct (foldl _ _ _) as [|p es] eqn:Hf; [done|].
  assert (p ∈ foldl map_delete (entries q) (dispatchers q).*1) as Hp by (rewrite Hf; by left).
  apply foldl_delete_elem in Hp as [Hp Hn]. by destruct (Hn (entry_registered p Hp)).
Qed.

Lemma flush_eq mode :
  flush q mode = with_log (with_entries (match mode with idle => with_pending q false | streaming => q end) [])
                   (delivery mode (batches a)).
Proof using R.
  unfold flush. destruct mode; rewrite flush_loop_spec by apply R; simpl; rewrite all_drained, messages_batches.
  - done.
  - destruct (batches a); [done|]. unfold with_log. simpl. by rewrite app_nil_r.
Qed.

Lemma flush_refines mode : refines (flush q mode) (a_step a (A_flush mode)).2.
Proof using R.
  rewrite flush_eq. split; destruct mode; simpl; try apply R; try done;
    try (intros p Hp; by apply elem_of_nil in Hp); apply NoDup_nil_2.
Qed.

Lemma idle_refines (b : bool) (n : nat) :
  (b = true -> (0 < n)%nat) ->
  refines {| dispatchers := dispatchers q; entries := entries q; idleFlushPending := b;
             next_stored := next_stored q; outstanding := n; log := log q |} a.
Proof using R. intros H. by split; try apply R. Qed.

Lemma enqueue_entries k e d :
  map_get (dispatchers q) k = Some d ->
  refines (with_entries q (map_set (entries q) k (default [] (map_get (entries q) k) ++ [e])))
    (a_step a (A_enqueue k e)).2.
Proof using R.
  intros Hd. split; simpl; try apply R.
  - apply map_set_NoDup, R.
  - intros k'. rewrite of_kind_app, of_kind_single. case_decide as Hk.
    + subst. by rewrite map_get_set_eq, (ref_entries _ _ R).
    + rewrite map_get_set_ne, app_nil_r by done. apply R.
  - intros p Hp. apply elem_of_app in Hp as [Hp|Hp]; [by apply R|].
    apply list_elem_of_singleton in Hp as ->. simpl. apply list_elem_of_fmap.
    exists (k, d). split; [done|]. by apply map_get_elem.
  - intros p Hp. apply map_set_elem in Hp as [->|[Hp _]]; [|by apply R|apply R]. simpl. by destruct (default _ _).
Qed.

Lemma register_refines k d n l :
  refines {| dispatchers := map_set (dispatchers q) k d; entries := entries q;
             idleFlushPending := idleFlushPending q; next_stored := n;
             outstanding := outstanding q; log := l |} (a_step a (A_register k d)).2.
Proof using R.
  split; simpl; try apply R.
  - by rewrite (ref_dispatchers _ _ R).
  - apply map_set_NoDup, R.
  - intros p Hp. apply (ref_registered _ _ R) in Hp. destruct (decide (k ∈ (dispatchers q).*1)).
    + by rewrite map_set_keys.
    + rewrite map_set_fresh, fmap_app by done. apply elem_of_app. by left.
Qed.

Lemma unregister_refines k :
  refines {| dispatchers := map_delete (dispatchers q) k; entries := map_delete (entries q) k;
             idleFlushPending := idleFlushPending q; next_stored := next_stored q;
             outstanding := outstanding q; log := log q |} (a_step a (A_unregister k)).2.
Proof using R.
  split; simpl; try apply R.
  - by rewrite (ref_dispatchers _ _ R).
  - apply map_delete_NoDup, R.
  - apply map_delete_NoDup, R.
  - intros k'. rewrite of_kind_removed. case_decide as Hk; [subst; by rewrite map_get_delete_eq|].
    rewrite map_get_delete_ne by done. apply R.
  - intros p Hp. apply list_elem_of_filter in Hp as [Hk Hp].
    apply (ref_registered _ _ R) in Hp. apply list_elem_of_fmap in Hp as (x & Hx & Hp).
    apply list_elem_of_fmap. exists x. split; [done|]. apply map_delete_elem. split; congruence.
  - intros p Hp. apply map_delete_elem in Hp as [_ Hp]. by apply R.
Qed.
End refined.

Lemma deliveries_app (l l' : list host_effect) : deliveries (l ++ l') = deliveries l ++ deliveries l'.
Proof. unfold deliveries. apply omap_app. Qed.

Lemma deliveries_delivery mode ms : deliveries (delivery mode ms) = delivery mode ms.
Proof. destruct mode; simpl; [|by destruct ms]. unfold deliveries. induction ms as [|m ms IH]; [done|]. simpl. by f_equal. Qed.

Lemma log_with_log q l : log (with_log q l) = log q ++ l.
Proof. done. Qed.

(** One step of the queue is one step of the abstract queue. *)
Lemma yield_step_refines q a o :
  refines q a ->
  refines (step q o) (a_step a (abstract_op q o)).2 /\
  deliveries (log (step q o)) = deliveries (log q) ++ (a_step a (abstract_op q o)).1.
Proof.
  intros R. destruct o as [k s b|k i|k e st ok|m| |st]; cbn [step abstract_op].
  - split; [apply register_refines, R|]. simpl. by rewrite app_nil_r.
  - unfold unregister. destruct (map_get (dispatchers q) k) as [d|]; [case_decide|]; simpl; rewrite app_nil_r;
      (split; [|done]); [apply unregister_refines, R|apply R..].
  - unfold enqueue. destruct (map_get (dispatchers q) k) as [d|] eqn:Hd; [|simpl; by rewrite app_nil_r].
    pose proof (enqueue_entries q a R k e d Hd) as R'. destruct st; [simpl; by rewrite app_nil_r|].
    unfold scheduleIdleFlush. simpl. destruct (idleFlushPending q); [simpl; by rewrite app_nil_r|].
    destruct ok; simpl; rewrite ?deliveries_app, app_nil_r.
    + split; [|unfold deliveries; simpl; by rewrite app_nil_r].
      destruct R'. split; simpl in *; try done. lia.
    + split; [|done]. destruct R'. by split.
  - split; [apply flush_refines, R|]. rewrite (flush_eq q a R). simpl.
    rewrite deliveries_app, deliveries_delivery. by destruct m.
  - split; [|simpl; by rewrite app_nil_r].
    split; simpl; try apply R; try done; try (intros p Hp; by apply elem_of_nil in Hp). apply NoDup_nil_2.
  - unfold run_scheduled. destruct (outstanding q) as [|n]; [simpl; by rewrite app_nil_r|].
    assert (refines {| dispatchers := dispatchers q; entries := entries q; idleFlushPending := false;
                       next_stored := next_stored q; outstanding := n; log := log q |} a) as R'
      by (by apply idle_refines).
    destruct st; [simpl; by rewrite app_nil_r|]. split; [apply flush_refines, R'|].
    rewrite (flush_eq _ a R'), log_with_log. by rewrite deliveries_app, deliveries_delivery.
Qed.

Lemma history_refines q a l : history q a l -> refines q a /\ deliveries (log q) = l.
Proof.
  induction 1 as [|q a l o _ [R Hl]].
  - split; [|done]. split; simpl; try done; try apply NoDup_nil_2; intros p Hp; by apply elem_of_nil in Hp.
  - destruct (yield_step_refines q a o R) as [R' Hd]. split; [done|]. by rewrite Hd, Hl.
Qed.

Lemma has_spec q a : refines q a -> has q None = bool_decide (waiting a <> []).
Proof.
  intros R. apply eq_bool_prop_intro. rewrite bool_decide_spec, Is_true_true. unfold has.
  rewrite existsb_exists. split.
  - intros ([k es] & Hin & Hl). apply list_elem_of_In in Hin. apply bool_decide_eq_true in Hl. simpl in Hl.
    pose proof (ref_entries _ _ R k) as He. apply (map_elem_get _ _ _ (ref_keys _ _ R)) in Hin. rewrite Hin in He.
    intros Hw. rewrite Hw in He. simpl in He. subst. by simpl in Hl.
  - destruct (waiting a) as [|[k e] w] eqn:Hw; [done|]. intros _.
    assert (e ∈ of_kind k (waiting a)) as He by (rewrite Hw; apply in_of_kind; by left).
    rewrite <- (ref_entries _ _ R) in He. destruct (map_get (entries q) k) as [es|] eqn:Hg; [|by apply elem_of_nil in He].
    exists (k, es). split; [by apply list_elem_of_In, map_get_elem|]. apply bool_decide_eq_true. simpl in *.
    destruct es; [by apply elem_of_nil in He|simpl; lia].
Qed.

(** C33.  The queue refines the abstract one through every history: an
    accepted entry waits, in order of arrival within its kind, until a flush,
    a clear or the removal of its dispatcher; a flush empties the queue and
    gives the host exactly one message per registered kind with waiting
    entries that its dispatcher builds from those that are neither stale nor
    unreadable, in order of registration (one injection each while streaming,
    one batch when idle); an entry of an unregistered kind is ignored; and an
    entry accepted while the host is idle leaves a flush scheduled whenever the
    scheduler accepts it, so it is never stranded. *)
Theorem yield_queue_refines (q : YieldQueue) (a : Abstract) (l : list host_effect) (H : history q a l) :
  (forall k, default [] (map_get (entries q) k) = of_kind k (waiting a)) /\
  deliveries (log q) = l /\
  has q None = bool_decide (waiting a <> []) /\
  (forall m, has (flush q m) None = false /\
             deliveries (log (flush q m)) = l ++ delivery m (batches a)) /\
  (forall k e st ok, map_get (dispatchers q) k = None -> enqueue q k e st ok = q) /\
  (forall k e, map_get (dispatchers q) k <> None ->
     let q' := enqueue q k e false true in
     idleFlushPending q' = true /\ (0 < outstanding q')%nat).
Proof.
  apply history_refines in H as [R Hl]. split_and!; [apply R|done|by apply has_spec|..].
  - intros m. destruct (yield_step_refines q a (O_flush m) R) as [R' Hd]. cbn [step abstract_op] in *.
    rewrite (has_spec _ _ R'), Hd, Hl. by split.
  - intros k e st ok Hk. unfold enqueue. by rewrite Hk.
  - intros k e Hk. unfold enqueue. destruct (map_get (dispatchers q) k) as [d|] eqn:Hd; [|done].
    unfold scheduleIdleFlush. simpl. destruct (idleFlushPending q) eqn:Hp; simpl.
    + split; [done|]. by apply (ref_pending _ _ R).
    + split; [done|lia].
Qed.
End queue.

(** ** Witness *)

Definition demo_ops : list (@op nat (list nat)) := [
  O_register "a" (Some (fun n => if decide (n = 7)%nat then Throw "unreadable"%string else Ok (bool_decide (5 < n)%nat)))
    (fun es => Ok (Some es));
  O_enqueue "b" 1%nat false true;
  O_enqueue "a" 1%nat false true;
  O_enqueue "a" 7%nat true true;
  O_enqueue "a" 9%nat true true;
  O_enqueue "a" 2%nat true true ].

Definition demo_run := run demo_ops (new_queue, {| a_dispatchers := []; waiting := [] |}, []).

Lemma yield_queue_refines_witness :
  let q := demo_run.1.1 in let a := demo_run.1.2 in let l := demo_run.2 in
  waiting a = [("a", 1); ("a", 7); ("a", 9); ("a", 2)]%nat%string /\
  log (flush q idle) = [Scheduled; InjectIdle [[1; 2]]]%nat /\
  deliveries (log (flush q idle)) = l ++ delivery idle (batches a).
Proof.
  split; [vm_compute; reflexivity|]. split; [vm_compute; reflexivity|].
  apply (yield_queue_refines (demo_run).1.1 (demo_run).1.2 (demo_run).2).
  apply run_history, H_new.
Defined.
