(* ===== verification/Parallel.v ===== *)
(** * Bounded parallelism ([task/parallel.ts])

    [mapWithConcurrencyLimit] as the interleavings of its workers: each worker
    runs without interruption from one [await] to the next, so a step is the
    settling of one call of [fn], the abort of the caller's signal, or the
    settling of the race the function awaits.  [Semaphore] grants its permits
    in order. *)

From stdpp Require Import numbers.
From Stdlib Require Import QArith Qround.
From S2P Require Import Prelude.

Local Open Scope nat_scope.

(** ** The worker pool *)

Module Pool.
Section pool.
Context {R Err : Type}.

Inductive wstate :=
| W_running (index : nat)
| W_returned
| W_threw.

(** [done] and [failed] record which calls of [fn] settled, and how. *)
Record pool := {
  items_length : nat;
  nextIndex : nat;
  results : list (option R);
  workers : list wstate;
  internal_aborted : bool;
  signal_aborted : bool;
  firstError : option Err;
  calls : list nat;
  done_log : list (nat * R);
  failed_log : list (nat * Err);
  settled : option (outcome Err bool)
}.

(** A non-finite [concurrency] is [None]. *)
Definition effective_limit (concurrency : option Q) (n : nat) : nat :=
  let normalized := match concurrency with Some q => Qfloor q | None => Z.of_nat n end in
  let effective := if decide (0 < normalized)%Z then normalized else Z.of_nat n in
  Z.to_nat (Z.max 1 (Z.min effective (Z.of_nat n))).

Implicit Types (s : pool).

Definition workerSignal s : bool := signal_aborted s || internal_aborted s.

(** The head of the worker's loop, up to its next [await]. *)
Definition pick s : wstate * pool :=
  if workerSignal s then (W_returned, s)
  else
    let index := nextIndex s in
    let s' := {| items_length := items_length s; nextIndex := S index; results := results s;
                 workers := workers s; internal_aborted := internal_aborted s;
                 signal_aborted := signal_aborted s; firstError := firstError s;
                 calls := if decide (items_length s <= index) then calls s else calls s ++ [index];
                 done_log := done_log s; failed_log := failed_log s; settled := settled s |} in
    if decide (items_length s <= index) then (W_returned, s') else (W_running index, s').

Definition with_workers s ws : pool := {|
  items_length := items_length s; nextIndex := nextIndex s; results := results s; workers := ws;
  internal_aborted := internal_aborted s; signal_aborted := signal_aborted s;
  firstError := firstError s; calls := calls s; done_log := done_log s; failed_log := failed_log s;
  settled := settled s |}.

Definition with_settled s o : pool := {|
  items_length := items_length s; nextIndex := nextIndex s; results := results s; workers := workers s;
  internal_aborted := internal_aborted s; signal_aborted := signal_aborted s;
  firstError := firstError s; calls := calls s; done_log := done_log s; failed_log := failed_log s;
  settled := o |}.

(** A new worker runs up to its first [await]. *)
Definition spawn s : pool := let '(w, s') := pick s in with_workers s' (workers s' ++ [w]).

(** Worker [w] goes round its loop. *)
Definition continue s (w : nat) : pool := let '(st, s') := pick s in with_workers s' (<[w := st]> (workers s')).

Definition start (n : nat) (concurrency : option Q) (aborted : bool) : pool :=
  Nat.iter (effective_limit concurrency n) spawn {|
    items_length := n; nextIndex := 0; results := replicate n None; workers := [];
    internal_aborted := false; signal_aborted := aborted; firstError := None; calls := [];
    done_log := []; failed_log := []; settled := None |}.

Definition call_done s (w : nat) (r : R) : option pool :=
  match workers s !! w with
  | Some (W_running i) =>
      Some (continue {|
        items_length := items_length s; nextIndex := nextIndex s; results := <[i := Some r]> (results s);
        workers := workers s; internal_aborted := internal_aborted s; signal_aborted := signal_aborted s;
        firstError := firstError s; calls := calls s; done_log := done_log s ++ [(i, r)];
        failed_log := failed_log s; settled := settled s |} w)
  | _ => None
  end.

Definition call_failed s (w : nat) (e : Err) : option pool :=
  match workers s !! w with
  | Some (W_running i) =>
      let s' := {|
        items_length := items_length s; nextIndex := nextIndex s; results := results s;
        workers := workers s; internal_aborted := internal_aborted s; signal_aborted := signal_aborted s;
        firstError := firstError s; calls := calls s; done_log := done_log s;
        failed_log := failed_log s ++ [(i, e)]; settled := settled s |} in
      if workerSignal s then Some (continue s' w)
      else Some {|
        items_length := items_length s; nextIndex := nextIndex s; results := results s;
        workers := <[w := W_threw]> (workers s); internal_aborted := true;
        signal_aborted := signal_aborted s; firstError := Some e; calls := calls s;
        done_log := done_log s; failed_log := failed_log s ++ [(i, e)]; settled := settled s |}
  | _ => None
  end.

Definition abort s : pool := {|
  items_length := items_length s; nextIndex := nextIndex s; results := results s; workers := workers s;
  internal_aborted := internal_aborted s; signal_aborted := true; firstError := firstError s;
  calls := calls s; done_log := done_log s; failed_log := failed_log s; settled := settled s |}.

Definition returned (w : wstate) : bool := match w with W_returned => true | _ => false end.

(** The race settles: the value is the [aborted] flag of the result, whose
    [results] are the shared array. *)
Definition settle s : option pool :=
  let finish o := Some (with_settled s (Some o)) in
  match settled s with
  | Some _ => None
  | None =>
      match firstError s with
      | Some e => finish (if signal_aborted s then Ok true else Throw e)
      | None => if forallb returned (workers s) then finish (Ok (signal_aborted s)) else None
      end
  end.

Inductive step s : pool -> Prop :=
| S_done w r s' : call_done s w r = Some s' -> step s s'
| S_failed w e s' : call_failed s w e = Some s' -> step s s'
| S_abort : step s (abort s)
| S_settle s' : settle s = Some s' -> step s s'.

(** [mapWithConcurrencyLimit] on [n] items, at any moment of any interleaving. *)
Inductive reachable (n : nat) (concurrency : option Q) : pool -> Prop :=
| R_start aborted : reachable n concurrency (start n concurrency aborted)
| R_step s s' : reachable n concurrency s -> step s s' -> reachable n concurrency s'.

Definition running (ws : list wstate) : list nat :=
  omap (fun w => match w with W_running i => Some i | _ => None end) ws.

(** ** Invariant *)

(** The books of the pool, with [ws] the workers, in any order. *)
Record base (n : nat) s (ws : list wstate) : Prop := {
  b_items : items_length s = n;
  b_length : length (results s) = n;
  b_calls : calls s = seq 0 (nextIndex s `min` n);
  b_account : calls s ≡ₚ running ws ++ (done_log s).*1 ++ (failed_log s).*1;
  b_results : forall i r, results s !! i = Some (Some r) <-> (i, r) ∈ done_log s;
  b_returned : W_returned ∈ ws -> workerSignal s = true \/ n <= nextIndex s;
  b_error : internal_aborted s = true <-> firstError s <> None;
  b_first : forall e, firstError s = Some e -> exists i, (i, e) ∈ failed_log s;
  b_threw : W_threw ∈ ws <-> firstError s <> None;
  b_failed : failed_log s <> [] -> workerSignal s = true
}.

Record inv (n limit : nat) s : Prop := {
  inv_base : base n s (workers s);
  inv_limit : length (workers s) = limit;
  inv_settled : forall o, settled s = Some o ->
    match o with
    | Throw e => firstError s = Some e
    | Ok true => signal_aborted s = true
    | Ok false => failed_log s = [] /\ Forall (fun w => w = W_returned) (workers s) /\ n <= nextIndex s
    end
}.

#[local] Instance running_perm : Proper ((≡ₚ) ==> (≡ₚ)) running.
Proof. intros l l' H. unfold running. by apply omap_Permutation. Qed.

Lemma base_perm n s ws ws' : ws ≡ₚ ws' -> base n s ws -> base n s ws'.
Proof.
  intros Hp []. split; try done; try (rewrite <- Hp; done).
Qed.

Lemma base_workers n s ws x : base n s ws -> base n (with_workers s x) ws.
Proof. intros []. by split. Qed.

Lemma base_settled n s ws o : base n s ws -> base n (with_settled s o) ws.
Proof. intros []. by split. Qed.

Lemma running_app ws ws' : running (ws ++ ws') = running ws ++ running ws'.
Proof. apply omap_app. Qed.

(** A worker that picks joins the others. *)
Lemma pick_base n s ws st s' :
  base n s ws -> pick s = (st, s') ->
  base n s' (st :: ws) /\ workers s' = workers s /\ settled s' = settled s /\
  signal_aborted s' = signal_aborted s /\ firstError s' = firstError s.
Proof.
  intros [Hi Hl Hc Ha Hr Hret He Hf Ht Hfl] Hp. unfold pick in Hp.
  assert (forall x : wstate, x <> W_threw -> W_threw ∈ x :: ws <-> firstError s <> None) as Ht'.
  { intros x Hx. rewrite elem_of_cons, Ht. naive_solver. }
  destruct (workerSignal s) eqn:Hw; simplify_eq.
  { split_and!; try done. split; try done; [by left|by apply Ht']. }
  case_decide as Hn; simplify_eq; (split_and!; [|done..]); split; try done; cbn [items_length nextIndex results calls done_log failed_log firstError].
  - rewrite Hc, !Nat.min_r by lia. done.
  - intros _. right. lia.
  - by apply Ht'.
  - intros H. by apply Hfl in H.
  - rewrite Hc, !Nat.min_l by lia. by rewrite seq_S.
  - rewrite Ha. by rewrite Permutation_app_comm.
  - cbn [nextIndex]. rewrite elem_of_cons. intros [|H]; [done|]. destruct (Hret H); [left|right; lia]. congruence.
  - by apply Ht'.
  - intros H. by apply Hfl in H.
Qed.

Lemma spawn_base n k s :
  base n s (workers s) -> length (workers s) = k -> settled s = None ->
  base n (spawn s) (workers (spawn s)) /\ length (workers (spawn s)) = S k /\ settled (spawn s) = None.
Proof.
  intros Hb Hl Hs. unfold spawn. destruct (pick s) as [st s'] eqn:Hp.
  destruct (pick_base _ _ _ _ _ Hb Hp) as (Hb' & Hw & Hs' & _).
  cbn [workers with_workers settled]. rewrite Hw, length_app, Hl. split_and!; [|simpl; lia|congruence].
  eapply base_perm; [apply Permutation_app_comm|]. by apply base_workers.
Qed.

Lemma start_inv n c ab : inv n (effective_limit c n) (start n c ab).
Proof.
  unfold start. set (s0 := Build_pool _ _ _ _ _ _ _ _ _ _ _).
  assert (forall k, let s := Nat.iter k spawn s0 in
    base n s (workers s) /\ length (workers s) = k /\ settled s = None) as H.
  { induction k as [|k (Hb & Hl & Hs)]; cbn [Nat.iter].
    - split_and!; try done. subst s0. split; simpl; try done; try set_solver.
      + apply length_replicate.
      + intros i r. rewrite lookup_replicate. split; [naive_solver|]. intros H. by apply elem_of_nil in H.
    - rewrite Nat.iter_succ. by apply spawn_base. }
  destruct (H (effective_limit c n)) as (Hb & Hl & Hs). split; [done|done|]. by rewrite Hs.
Qed.

Lemma hole_perm (ws : list wstate) w x : ws !! w = Some x -> ws ≡ₚ x :: delete w ws.
Proof. intros H. by apply delete_Permutation. Qed.

Lemma insert_perm (ws : list wstate) w x y : ws !! w = Some x -> <[w:=y]> ws ≡ₚ y :: delete w ws.
Proof.
  intros H. pose proof (lookup_lt_Some _ _ _ H). rewrite insert_take_drop by done.
  rewrite delete_take_drop. by rewrite Permutation_middle.
Qed.

Lemma running_hole (ws : list wstate) w i :
  ws !! w = Some (W_running i) -> running ws ≡ₚ i :: running (delete w ws).
Proof. intros H. by rewrite (hole_perm _ _ _ H) at 1. Qed.

Lemma threw_hole (ws : list wstate) w i :
  ws !! w = Some (W_running i) -> W_threw ∈ delete w ws <-> W_threw ∈ ws.
Proof. intros H. rewrite (hole_perm _ _ _ H) at 2. rewrite elem_of_cons. naive_solver. Qed.

(** The pool while worker [w] is between two awaits. *)
Lemma continue_inv n limit s s0 w i :
  inv n limit s0 -> workers s0 !! w = Some (W_running i) -> workers s = workers s0 ->
  settled s = settled s0 -> signal_aborted s = signal_aborted s0 -> firstError s = firstError s0 ->
  base n s (delete w (workers s)) -> inv n limit (continue s w).
Proof.
  intros [_ Hl Hset] Hw Hws Hs Hsig Hfe Hb. unfold continue. destruct (pick s) as [st s'] eqn:Hp.
  destruct (pick_base _ _ _ _ _ Hb Hp) as (Hb' & Hw' & Hs' & Hsig' & Hfe'). rewrite Hw', Hws.
  split.
  - simpl. eapply base_perm; [symmetry; by apply (insert_perm _ _ (W_running i))|]. rewrite <- Hws. by apply base_workers.
  - simpl. by rewrite length_insert.
  - simpl. intros o Ho. rewrite Hs', Hs in Ho. specialize (Hset o Ho). rewrite Hsig', Hsig, Hfe', Hfe.
    destruct o as [[|]|e]; try done. destruct Hset as (_ & Hall & _).
    rewrite Forall_lookup in Hall. by apply Hall in Hw.
Qed.

Lemma done_inv n limit s w r s' : inv n limit s -> call_done s w r = Some s' -> inv n limit s'.
Proof.
  intros Hi Hd. unfold call_done in Hd. destruct (workers s !! w) as [[i| |]|] eqn:Hw; simplify_eq.
  eapply continue_inv; try done. simpl. pose proof Hi as [[? Hl Hc Ha Hr Hret He Hf Ht Hfl] _ _].
  pose proof (running_hole _ _ _ Hw) as Hrun.
  assert (i ∈ calls s) as Hin.
  { rewrite Ha, Hrun. by left. }
  assert (i < n) as Hin'. { rewrite Hc in Hin. apply elem_of_seq in Hin. lia. }
  assert (i ∉ (done_log s).*1) as Hnd.
  { assert (NoDup (calls s)) as Hn by (rewrite Hc; apply NoDup_seq). rewrite Ha, Hrun in Hn.
    apply NoDup_cons in Hn as [Hn _]. rewrite !elem_of_app in Hn. naive_solver. }
  split; simpl; try done.
  - by rewrite length_insert.
  - rewrite Ha, Hrun, fmap_app. simpl. rewrite <- !app_assoc. cbn [app]. by rewrite <- !Permutation_middle.
  - intros j x. rewrite elem_of_app, list_elem_of_singleton. destruct (decide (j = i)) as [->|Hj].
    + rewrite list_lookup_insert_eq by lia. split; [naive_solver|]. intros [Hin2|[= ->]]; [|done].
      exfalso. apply Hnd, list_elem_of_fmap. by exists (i, x).
    + rewrite list_lookup_insert_ne by done. rewrite Hr. naive_solver.
  - intros H. apply Hret. rewrite (hole_perm _ _ _ Hw). by right.
  - by rewrite <- Ht, (threw_hole _ _ _ Hw).
Qed.

Lemma failed_inv n limit s w e s' : inv n limit s -> call_failed s w e = Some s' -> inv n limit s'.
Proof.
  intros Hi Hd. unfold call_failed in Hd. destruct (workers s !! w) as [[i| |]|] eqn:Hw; simplify_eq.
  pose proof Hi as [[? Hl Hc Ha Hr Hret He Hf Ht Hfl] Hlim Hset]. pose proof (running_hole _ _ _ Hw) as Hrun.
  assert (calls s ≡ₚ running (delete w (workers s)) ++ (done_log s).*1 ++ (failed_log s ++ [(i, e)]).*1) as Hacc.
  { rewrite Ha, Hrun, fmap_app. simpl. rewrite !app_assoc. by rewrite (Permutation_app_comm _ [i]). }
  destruct (workerSignal s) eqn:Hsig; simplify_eq.
  - eapply continue_inv; try done. simpl. split; simpl; try done.
    + intros _. by left.
    + intros e' He'. destruct (Hf e' He') as [j Hj]. exists j. apply elem_of_app. by left.
    + by rewrite <- Ht, (threw_hole _ _ _ Hw).
  - assert (firstError s = None) as Hfe.
    { unfold workerSignal in Hsig. apply orb_false_iff in Hsig as [_ Hint].
      destruct (firstError s); [|done]. rewrite (proj2 He) in Hint; done. }
    split; simpl; [|by rewrite length_insert|].
    + eapply base_perm; [symmetry; by apply (insert_perm _ _ _ _ Hw)|]. split; simpl; try done.
      * intros _. left. unfold workerSignal. simpl. by rewrite orb_true_r.
      * intros e' [= <-]. exists i. apply elem_of_app. right. by left.
      * split; [done|]. intros _. by left.
      * intros _. unfold workerSignal. simpl. by rewrite orb_true_r.
    + intros o Ho. specialize (Hset o Ho). destruct o as [[|]|e']; [done| |congruence].
      destruct Hset as (_ & Hall & _). rewrite Forall_lookup in Hall. by apply Hall in Hw.
Qed.

Lemma abort_inv n limit s : inv n limit s -> inv n limit (abort s).
Proof.
  intros [[] ? Hset]. split; simpl; try done.
  - split; simpl; try done. intros _. by left.
  - intros o Ho. specialize (Hset o Ho). by destruct o as [[|]|].
Qed.

Lemma settle_inv n limit s s' : 0 < limit -> inv n limit s -> settle s = Some s' -> inv n limit s'.
Proof.
  intros Hpos [Hb Hl Hset] Hs. unfold settle in Hs. destruct (settled s) eqn:Hso; [done|].
  destruct (firstError s) as [e|] eqn:Hfe.
  - simplify_eq. split; simpl; [by apply base_settled|done|]. intros o [= <-].
    by destruct (signal_aborted s) eqn:?.
  - destruct (forallb returned (workers s)) eqn:Hall; [|done]. simplify_eq.
    split; simpl; [by apply base_settled|done|]. intros o [= <-].
    destruct (signal_aborted s) eqn:Hsig; [done|].
    apply forallb_Forall in Hall.
    assert (Forall (fun w => w = W_returned) (workers s)) as Hret.
    { eapply Forall_impl; [done|]. by intros []. }
    split_and!; [|done|].
    { destruct (decide (failed_log s = [])) as [|Hn]; [done|]. apply (b_failed _ _ _ Hb) in Hn.
      unfold workerSignal in Hn. rewrite Hsig in Hn. apply (b_error _ _ _ Hb) in Hn. by rewrite Hfe in Hn. }
    simpl. destruct (workers s) as [|x ws] eqn:Hw; [simpl in Hpos; lia|].
    apply Forall_cons in Hret as [-> _].
    destruct (b_returned _ _ _ Hb ltac:(by left)) as [Hws|]; [|done]. unfold workerSignal in Hws.
    rewrite Hsig in Hws. apply (b_error _ _ _ Hb) in Hws. by rewrite Hfe in Hws.
Qed.

Lemma limit_pos c n : 0 < effective_limit c n.
Proof. unfold effective_limit. case_decide; lia. Qed.

Lemma pool_reachable_inv n c s : reachable n c s -> inv n (effective_limit c n) s.
Proof.
  induction 1 as [ab|s s' _ IH Hs]; [apply start_inv|].
  destruct Hs; eauto using done_inv, failed_inv, abort_inv, settle_inv, limit_pos.
Qed.


Lemma inv_NoDup n limit s : inv n limit s -> NoDup (running (workers s) ++ (done_log s).*1 ++ (failed_log s).*1).
Proof.
  intros [Hb _ _]. rewrite <- (b_account _ _ _ Hb), (b_calls _ _ _ Hb). apply NoDup_seq.
Qed.

Lemma pick_no_call s : workerSignal s = true -> pick s = (W_returned, s).
Proof. unfold pick. by intros ->. Qed.

Lemma aborted_no_call s s' : workerSignal s = true -> step s s' -> calls s' = calls s.
Proof.
  intros Hw [w r s2 Hd|w e s2 Hd| |s2 Hd].
  - unfold call_done in Hd. destruct (workers s !! w) as [[i| |]|]; simplify_eq.
    unfold continue. by rewrite pick_no_call.
  - unfold call_failed in Hd. destruct (workers s !! w) as [[i| |]|]; simplify_eq.
    rewrite Hw in Hd. simplify_eq. unfold continue. by rewrite pick_no_call.
  - done.
  - unfold settle in Hd. repeat case_match; simplify_eq; done.
Qed.

Lemma all_settled n limit s :
  inv n limit s -> failed_log s = [] -> Forall (fun w => w = W_returned) (workers s) ->
  n <= nextIndex s -> forall i, i < n -> exists r, results s !! i = Some (Some r).
Proof.
  intros [Hb _ _] Hf Hret Hn i Hi.
  assert (i ∈ calls s) as Hin.
  { rewrite (b_calls _ _ _ Hb), Nat.min_r by done. apply elem_of_seq. lia. }
  rewrite (b_account _ _ _ Hb), Hf in Hin. simpl in Hin. rewrite app_nil_r in Hin.
  apply elem_of_app in Hin as [Hin|Hin].
  - exfalso. clear -Hret Hin. induction Hret as [|w ws -> _ IH]; [by apply elem_of_nil in Hin|auto].
  - apply list_elem_of_fmap in Hin as ([j r] & -> & Hin). exists r. by apply (b_results _ _ _ Hb).
Qed.

Lemma running_length ws : length (running ws) <= length ws.
Proof.
  induction ws as [|w ws IH]; [done|]. change (w :: ws) with ([w] ++ ws).
  rewrite running_app, !length_app. destruct w; simpl; lia.
Qed.

Lemma idle_workers ws : running ws = [] -> W_threw ∉ ws -> forallb returned ws = true.
Proof.
  induction ws as [|[i| |] ws IH]; intros Hr Ht; [done|done|simpl|].
  - apply IH; [done|]. intros H. apply Ht. by right.
  - destruct Ht. by left.
Qed.

(** C27.  In every interleaving: at most [limit] calls of [fn] are in flight;
    items are handed out in order, each at most once, and every call is either
    in flight, done or failed; a slot of [results] holds exactly what its call
    returned; a result that is not aborted is complete, an aborted one needs
    the caller's abort, and an exception is the first failure; no call starts
    after an abort or a failure; and the function never hangs: once no call is
    in flight (at once after a failure) the race can settle. *)
Theorem map_with_concurrency_limit (n : nat) (concurrency : option Q) s (H : reachable n concurrency s) :
  let limit := effective_limit concurrency n in
  (1 <= limit <= Nat.max 1 n /\ length (running (workers s)) <= limit) /\
  (exists k, k <= n /\ calls s = seq 0 k /\
     seq 0 k ≡ₚ running (workers s) ++ (done_log s).*1 ++ (failed_log s).*1) /\
  (length (results s) = n /\ forall i r, results s !! i = Some (Some r) <-> (i, r) ∈ done_log s) /\
  (settled s = Some (Ok false) -> forall i, i < n -> exists r, results s !! i = Some (Some r)) /\
  (settled s = Some (Ok true) -> signal_aborted s = true) /\
  (forall e, settled s = Some (Throw e) -> firstError s = Some e /\ exists i, (i, e) ∈ failed_log s) /\
  (workerSignal s = true -> forall s', step s s' -> calls s' = calls s) /\
  (failed_log s <> [] -> workerSignal s = true) /\
  (settled s = None -> running (workers s) = [] \/ firstError s <> None -> exists s', settle s = Some s').
Proof.
  apply pool_reachable_inv in H. pose proof H as [Hb Hl Hset]. cbv zeta.
  split; [|split; [|split; [|split; [|split; [|split; [|split; [|split]]]]]]].
  - split; [|rewrite <- Hl; apply running_length]. unfold effective_limit. case_decide; lia.
  - exists (nextIndex s `min` n). rewrite <- (b_calls _ _ _ Hb). split_and!; [lia|done|apply Hb].
  - split; apply Hb.
  - intros Hs. destruct (Hset _ Hs) as (Hf & Hall & Hn). by eapply all_settled.
  - intros Hs. by apply Hset in Hs.
  - intros e Hs. apply Hset in Hs. split; [done|]. by apply (b_first _ _ _ Hb).
  - intros. by apply aborted_no_call.
  - apply Hb.
  - intros Hs Hr. unfold settle. rewrite Hs. destruct (firstError s) as [e|] eqn:Hfe; [eauto|].
    destruct Hr as [Hr|]; [|done]. rewrite idle_workers; [eauto|done|].
    rewrite (b_threw _ _ _ Hb). by intros [].
Qed.
End pool.
End Pool.

(** ** The semaphore *)

Module Sem.

(** A waiter stands for its [resolve] callback; [max] is a finite integer. *)
Record Semaphore := { max : Z; current : Z; queue : list nat }.

Definition create (max : Z) : Semaphore := {| max := Z.max 1 max; current := 0; queue := [] |}.

(** Whether the permit was granted at once. *)
Definition acquire (s : Semaphore) (waiter : nat) : bool * Semaphore :=
  if decide (current s < max s)%Z
  then (true, {| max := max s; current := current s + 1; queue := queue s |})
  else (false, {| max := max s; current := current s; queue := queue s ++ [waiter] |}).

(** The waiter the permit passes to. *)
Definition release (s : Semaphore) : option nat * Semaphore :=
  match queue s with
  | next :: rest => (Some next, {| max := max s; current := current s; queue := rest |})
  | [] => (None, {| max := max s; current := current s - 1; queue := [] |})
  end.

(** Use of a semaphore: each task acquires once and a holder releases; the
    holders are listed beside it. *)
Inductive use (m : Z) : Semaphore -> list nat -> Prop :=
| U_create : use m (create m) []
| U_acquire s hs t :
    use m s hs -> t ∉ hs -> t ∉ queue s ->
    use m (acquire s t).2 (if (acquire s t).1 then hs ++ [t] else hs)
| U_release s hs1 t hs2 :
    use m s (hs1 ++ t :: hs2) ->
    use m (release s).2 (hs1 ++ hs2 ++ match (release s).1 with Some next => [next] | None => [] end).

Definition sem_ok (m : Z) (s : Semaphore) (hs : list nat) : Prop :=
  max s = Z.max 1 m /\ current s = Z.of_nat (length hs) /\ (current s <= max s)%Z /\
  (queue s <> [] -> current s = max s) /\ NoDup (hs ++ queue s).

Lemma use_ok m s hs : use m s hs -> sem_ok m s hs.
Proof.
  induction 1 as [|s hs t _ (Hm & Hc & Hle & Hq & Hn) Ht Htq|s hs1 t hs2 _ (Hm & Hc & Hle & Hq & Hn)].
  - unfold sem_ok. simpl. split_and!; try done; [lia|apply NoDup_nil_2].
  - unfold sem_ok, acquire. case_decide as Hlt; simpl.
    + rewrite length_app. simpl. split_and!; try lia; try done.
      * intros Hne. specialize (Hq Hne). lia.
      * rewrite <- app_assoc. simpl. rewrite <- Permutation_middle. apply NoDup_cons.
        rewrite elem_of_app. naive_solver.
    + split_and!; try done; [lia|]. rewrite app_assoc. rewrite (Permutation_app_comm _ [t]). simpl.
      apply NoDup_cons. rewrite elem_of_app. naive_solver.
  - rewrite length_app in Hc. simpl in Hc.
    assert (NoDup ((hs1 ++ hs2) ++ queue s)) as Hn'.
    { rewrite <- app_assoc in Hn. simpl in Hn. rewrite <- Permutation_middle in Hn.
      apply NoDup_cons in Hn as [_ Hn]. by rewrite app_assoc in Hn. }
    unfold sem_ok, release. destruct (queue s) as [|next rest] eqn:E; simpl; rewrite !length_app; simpl.
    + rewrite !app_nil_r in *. split_and!; try done; lia.
    + split_and!; try done; try lia; [by intros; apply Hq|]. by rewrite <- !app_assoc in *.
Qed.

(** [k] permits are given back. *)
Fixpoint released (s : Semaphore) (k : nat) : list nat :=
  match k with
  | O => []
  | S k => match (release s).1 with Some next => next :: released (release s).2 k | None => [] end
  end.

(** Used by tasks that acquire once and release what they hold, the
    semaphore never has more holders than permits, its counter is the number
    of holders, nobody waits while a permit is free, and the waiters are served
    in order of arrival: the task behind [k] others holds a permit after
    [k + 1] releases. *)
Theorem semaphore_fair (m : Z) (s : Semaphore) (hs : list nat) (H : use m s hs) :
  (Z.of_nat (length hs) <= Z.max 1 m)%Z /\ current s = Z.of_nat (length hs) /\
  (queue s <> [] -> Z.of_nat (length hs) = Z.max 1 m) /\ NoDup (hs ++ queue s) /\
  (forall before t after, queue s = before ++ t :: after -> released s (S (length before)) = before ++ [t]).
Proof.
  destruct (use_ok _ _ _ H) as (Hm & Hc & Hle & Hq & Hn). split_and!; try done; [lia| |].
  - intros Hne. specialize (Hq Hne). lia.
  - clear. intros before. revert s. induction before as [|b before IH]; intros s t after E.
    + simpl. unfold release. by rewrite E.
    + assert (release s = (Some b, {| max := max s; current := current s; queue := before ++ t :: after |})) as Hr
        by (unfold release; by rewrite E).
      change (released s (S (length (b :: before)))) with
        (match (release s).1 with
         | Some next => next :: released (release s).2 (S (length before)) | None => [] end).
      rewrite Hr. change ((b :: before) ++ [t]) with (b :: (before ++ [t])). f_equal. by apply (IH _ t after).
Qed.
End Sem.

(** ** Witnesses *)

Definition demo_start : @Pool.pool string string := Pool.start 3 (Some (5 # 2)) false.

Definition demo_call (s : @Pool.pool string string) (p : nat * string) : @Pool.pool string string :=
  default s (Pool.call_done s p.1 p.2).

Definition demo_pool : @Pool.pool string string :=
  let s := foldl demo_call demo_start [(1, "b"); (0, "a"); (1, "c")]%string in default s (Pool.settle s).

Lemma map_with_concurrency_limit_witness :
  Pool.results demo_pool = [Some "a"; Some "b"; Some "c"]%string /\
  Pool.settled demo_pool = Some (Ok false) /\
  (forall i, i < 3 -> exists r, Pool.results demo_pool !! i = Some (Some r)).
Proof.
  split; [vm_compute; reflexivity|]. split; [vm_compute; reflexivity|].
  apply (Pool.map_with_concurrency_limit 3 (Some (5 # 2)) demo_pool); [|vm_compute; reflexivity].
  set (s1 := demo_call demo_start (1, "b")%string). set (s2 := demo_call s1 (0, "a")%string).
  set (s3 := demo_call s2 (1, "c")%string).
  apply (Pool.R_step _ _ s3); [|apply Pool.S_settle; vm_compute; reflexivity].
  apply (Pool.R_step _ _ s2); [|apply (Pool.S_done _ 1 "c"); vm_compute; reflexivity].
  apply (Pool.R_step _ _ s1); [|apply (Pool.S_done _ 0 "a"); vm_compute; reflexivity].
  apply (Pool.R_step _ _ demo_start); [|apply (Pool.S_done _ 1 "b"); vm_compute; reflexivity].
  apply (Pool.R_start 3 (Some (5 # 2)) false).
Defined.

Lemma semaphore_fair_witness :
  exists s, Sem.use 2 s [0; 1] /\ Sem.queue s = [2; 3] /\ Sem.released s 2 = [2; 3].
Proof.
  set (s1 := (Sem.acquire (Sem.create 2) 0).2). set (s2 := (Sem.acquire s1 1).2).
  set (s3 := (Sem.acquire s2 2).2). exists (Sem.acquire s3 3).2.
  assert (Sem.use 2 s1 [0]) as H1
    by exact (Sem.U_acquire 2 (Sem.create 2) [] 0 (Sem.U_create 2) ltac:(set_solver) ltac:(set_solver)).
  assert (Sem.use 2 s2 [0; 1]) as H2
    by exact (Sem.U_acquire 2 s1 [0] 1 H1 ltac:(set_solver) ltac:(set_solver)).
  assert (Sem.use 2 s3 [0; 1]) as H3
    by exact (Sem.U_acquire 2 s2 [0; 1] 2 H2 ltac:(set_solver) ltac:(set_solver)).
  assert (Sem.use 2 (Sem.acquire s3 3).2 [0; 1]) as H4
    by exact (Sem.U_acquire 2 s3 [0; 1] 3 H3 ltac:(set_solver) ltac:(set_solver)).
  split; [exact H4|]. split; [reflexivity|].
  apply (Sem.semaphore_fair 2 _ _ H4) with (before := [2]) (t := 3) (after := []). reflexivity.
Defined.
