(* ===== verification/SpawnGate.v ===== *)
(** * Spawn gate ([task/spawn-gate.ts])

    A batch of subagents above the threshold needs a complete spawn-plan
    receipt.  The receipt comes from a tool call, so its fields hold any value
    and are checked when the gate runs; numbers are doubles. *)

From S2P Require Import Prelude JsNumber JsValue.
From Stdlib Require Import SpecFloat Ascii.

Local Open Scope string_scope.
Local Open Scope list_scope.

Definition DEFAULT_SPAWN_THRESHOLD : number := num_of_Z 4.

Record SpawnPlanReceipt := {
  whyParallel : js;
  whyNotLocal : js;
  independence : js;
  expectedReceiptShape : js;
  maxInlineTokens : js
}.

Record SpawnGateRequest := { childCount : number; plan : option SpawnPlanReceipt }.

Inductive SpawnGateOutcome := allowed | rejected.

Record SpawnGateDecision := {
  gate_outcome : SpawnGateOutcome;
  reason : string;
  planRequired : bool;
  missingFields : list string
}.

Definition REQUIRED_STRING_FIELDS : list (string * (SpawnPlanReceipt -> js)) := [
  ("whyParallel", whyParallel); ("whyNotLocal", whyNotLocal); ("independence", independence);
  ("expectedReceiptShape", expectedReceiptShape) ].

(** [typeof value === "string" && value.trim().length > 0] *)
Definition filled (v : js) : bool :=
  match v with Jstr s => bool_decide (trim s <> EmptyString) | _ => false end.

Definition positive_number (v : js) : bool :=
  match v with Jnum x => is_finite x && num_ltb num_zero x | _ => false end.

Definition findMissingPlanFields (p : option SpawnPlanReceipt) : list string :=
  match p with
  | None => REQUIRED_STRING_FIELDS.*1 ++ ["maxInlineTokens"]
  | Some p =>
      omap (fun f => if filled (f.2 p) then None else Some f.1) REQUIRED_STRING_FIELDS
      ++ if positive_number (maxInlineTokens p) then [] else ["maxInlineTokens"]
  end.

(** [Number.isInteger] *)
Definition is_integer (x : number) : bool :=
  match x with
  | S754_zero _ => true
  | S754_finite _ m e => bool_decide (0 <= e)%Z || bool_decide (Z.pos m mod 2 ^ (- e) = 0)%Z
  | _ => false
  end.

Definition decide_spawn (childCount threshold : number) (p : option SpawnPlanReceipt)
    : outcome string SpawnGateDecision :=
  if negb (is_integer childCount) || num_ltb childCount num_zero then
    Throw "childCount must be a non-negative integer"
  else if negb (is_integer threshold) || num_ltb threshold (num_of_Z 1) then
    Throw "threshold must be a positive integer"
  else
    let batch := "batch of " +:+ num_to_string childCount in
    if negb (num_ltb threshold childCount) then Ok {|
      gate_outcome := allowed;
      reason := batch +:+ " is at or below threshold " +:+ num_to_string threshold;
      planRequired := false; missingFields := [] |}
    else
      let missing := findMissingPlanFields p in
      match missing with
      | _ :: _ => Ok {|
          gate_outcome := rejected;
          reason := batch +:+ " exceeds threshold " +:+ num_to_string threshold
                    +:+ " and the spawn-plan receipt is "
                    +:+ match p with None => "missing" | Some _ => "incomplete (" +:+ join ", " missing +:+ ")" end;
          planRequired := true; missingFields := missing |}
      | [] => Ok {|
          gate_outcome := allowed;
          reason := batch +:+ " exceeds threshold " +:+ num_to_string threshold
                    +:+ " and a complete spawn-plan receipt was provided";
          planRequired := true; missingFields := [] |}
      end.

Definition evaluateSpawnGate (r : SpawnGateRequest) : outcome string SpawnGateDecision :=
  decide_spawn (childCount r) DEFAULT_SPAWN_THRESHOLD (plan r).

(** ** What the gate promises *)

(** A receipt that answers every question and bounds the inline tokens. *)
Definition complete (p : SpawnPlanReceipt) : Prop :=
  (forall f, f ∈ REQUIRED_STRING_FIELDS -> filled (f.2 p) = true) /\
  positive_number (maxInlineTokens p) = true.

Lemma no_missing p : findMissingPlanFields p = [] <-> exists r, p = Some r /\ complete r.
Proof.
  destruct p as [r|]; simpl.
  - unfold complete, REQUIRED_STRING_FIELDS. split.
    + intros H. exists r. split; [done|]. split; [|by destruct (positive_number _), (filled (whyParallel r)),
        (filled (whyNotLocal r)), (filled (independence r)), (filled (expectedReceiptShape r))].
      intros f Hf. rewrite !elem_of_cons in Hf.
      destruct (filled (whyParallel r)) eqn:?, (filled (whyNotLocal r)) eqn:?, (filled (independence r)) eqn:?,
        (filled (expectedReceiptShape r)) eqn:?; try done.
      destruct Hf as [->|[->|[->|[->|Hf]]]]; try done. by apply elem_of_nil in Hf.
    + intros (r' & [= <-] & Hf & ->).
      pose proof (Hf ("whyParallel", whyParallel) ltac:(set_solver)) as H1.
      pose proof (Hf ("whyNotLocal", whyNotLocal) ltac:(set_solver)) as H2.
      pose proof (Hf ("independence", independence) ltac:(set_solver)) as H3.
      pose proof (Hf ("expectedReceiptShape", expectedReceiptShape) ltac:(set_solver)) as H4.
      simpl in *. by rewrite H1, H2, H3, H4.
  - split; [done|]. by intros (? & ? & _).
Qed.

(** A missing field is named, and only those are. *)
Lemma missing_exact p f :
  f ∈ findMissingPlanFields (Some p) <->
  (exists g, g ∈ REQUIRED_STRING_FIELDS /\ f = g.1 /\ filled (g.2 p) = false) \/
  (f = "maxInlineTokens" /\ positive_number (maxInlineTokens p) = false).
Proof.
  unfold findMissingPlanFields. rewrite elem_of_app, list_elem_of_omap. f_equiv.
  - f_equiv. intros g. destruct (filled (g.2 p)); naive_solver.
  - destruct (positive_number _); simpl; [split; [intros H; by apply elem_of_nil in H|by intros []]|].
    rewrite list_elem_of_singleton. naive_solver.
Qed.

(** The gate is exact: it throws precisely on a child count that is not
    a non-negative integer; a batch at or below four children is allowed
    without a plan; a larger one is allowed precisely when a complete receipt
    is given, and a rejection names exactly the fields that are missing, and
    at least one. *)
Theorem spawn_gate_exact (r : SpawnGateRequest) :
  ((is_integer (childCount r) = false \/ num_ltb (childCount r) num_zero = true)
     <-> exists e, evaluateSpawnGate r = Throw e) /\
  (forall d, evaluateSpawnGate r = Ok d ->
     planRequired d = num_ltb DEFAULT_SPAWN_THRESHOLD (childCount r) /\
     (gate_outcome d = allowed <->
        planRequired d = false \/ exists p, plan r = Some p /\ complete p) /\
     (gate_outcome d = rejected <-> missingFields d <> []) /\
     (gate_outcome d = rejected -> missingFields d = findMissingPlanFields (plan r))).
Proof.
  unfold evaluateSpawnGate, decide_spawn.
  destruct (negb (is_integer (childCount r)) || num_ltb (childCount r) num_zero) eqn:Hc.
  { split; [|done]. split; [by eauto|]. intros _. apply orb_true_iff in Hc as [Hc|Hc]; [left|by right].
    by apply negb_true_iff. }
  apply orb_false_iff in Hc as [Hi Hz]. apply negb_false_iff in Hi.
  replace (negb (is_integer DEFAULT_SPAWN_THRESHOLD) || num_ltb DEFAULT_SPAWN_THRESHOLD (num_of_Z 1))
    with false by (vm_compute; reflexivity).
  split.
  { rewrite Hi, Hz. split; [by intros []|]. intros [e He]. by repeat case_match. }
  pose proof (no_missing (plan r)) as Hm.
  destruct (num_ltb DEFAULT_SPAWN_THRESHOLD (childCount r)); simpl.
  - destruct (findMissingPlanFields (plan r)) as [|m ms]; intros d [= <-]; simpl; split_and!; try done.
    + split; [intros _; right; by apply Hm|done].
    + split; [done|]. intros [|Hp]; [done|]. by apply Hm in Hp.
  - intros d [= <-]. simpl. split_and!; try done. split; [by left|done].
Qed.
