(* ===== verification/ResearchLedger.v ===== *)
(** * Research ledger ([research-plan/ledger.ts])

    A claim of a research plan is accepted, rejected or left open by the
    evidence collected for it.  Items and entries are read from files: each
    declared field holds any value and is validated here. *)

From S2P Require Import Prelude JsNumber JsValue.
From Stdlib Require Import Ascii.

Local Open Scope string_scope.
Local Open Scope list_scope.

Record ResearchPlanItem := {
  claim : js;
  confidence : js;
  unknowns : js;
  evidenceNeeded : js;
  counterexampleQueries : js;
  sourceConflictPolicy : js;
  dropCondition : js;
  verifierChecks : js
}.

Record ResearchEvidenceEntry := {
  e_claim : js;
  e_source : js;
  e_confidence : js;
  e_verdict : js
}.

Inductive final_verdict := accepted | rejected | uncertain.

Record ResearchLedgerVerdict := {
  v_claim : js;
  finalVerdict : final_verdict;
  survivingSources : list ResearchEvidenceEntry;
  rejectReason : option string;
  unresolvedUnknowns : js
}.

Record ResearchPlanValidationResult := { valid : bool; errors : list string }.

(** ** Validation *)

Definition CONFIDENCE_VALUES : list string := ["low"; "medium"; "high"].
Definition EVIDENCE_VERDICTS : list string := ["support"; "contradict"; "uncertain"].

Definition isNonEmptyString (v : js) : bool :=
  match v with Jstr s => bool_decide (trim s <> EmptyString) | _ => false end.

(** [v && set.has(v)] for a set of non-empty strings. *)
Definition in_set (set : list string) (v : js) : bool :=
  match v with Jstr s => includes set s | _ => false end.

Fixpoint item_errors (field : string) (index : nat) (l : list js) : list string :=
  match l with
  | [] => []
  | item :: l =>
      (if isNonEmptyString item then []
       else [field +:+ "[" +:+ show_Z (Z.of_nat index) +:+ "] must be a non-empty string"])
      ++ item_errors field (S index) l
  end.

Definition validateStringArray (v : js) (field : string) (minLength : nat) : list string :=
  match v with
  | Jarr l =>
      if decide (length l < minLength)
      then [field +:+ " must contain at least " +:+ show_Z (Z.of_nat minLength) +:+ " item(s)"]
      else item_errors field 0 l
  | _ => [field +:+ " must be an array"]
  end.

Definition unless (ok : bool) (error : string) : list string := if ok then [] else [error].

Definition validateResearchPlanItem (item : ResearchPlanItem) : ResearchPlanValidationResult :=
  let errors :=
    unless (isNonEmptyString (claim item)) "claim must be a non-empty string"
    ++ unless (in_set CONFIDENCE_VALUES (confidence item)) "confidence must be one of: low, medium, high"
    ++ validateStringArray (unknowns item) "unknowns" 0
    ++ validateStringArray (evidenceNeeded item) "evidenceNeeded" 1
    ++ validateStringArray (counterexampleQueries item) "counterexampleQueries" 1
    ++ unless (isNonEmptyString (sourceConflictPolicy item)) "sourceConflictPolicy must be a non-empty string"
    ++ unless (isNonEmptyString (dropCondition item)) "dropCondition must be a non-empty string"
    ++ validateStringArray (verifierChecks item) "verifierChecks" 1 in
  {| valid := bool_decide (errors = []); errors := errors |}.

Definition validateResearchEvidenceEntry (entry : ResearchEvidenceEntry) : ResearchPlanValidationResult :=
  let errors :=
    unless (isNonEmptyString (e_claim entry)) "claim must be a non-empty string"
    ++ unless (isNonEmptyString (e_source entry)) "source must be a non-empty string"
    ++ unless (in_set CONFIDENCE_VALUES (e_confidence entry)) "confidence must be one of: low, medium, high"
    ++ unless (in_set EVIDENCE_VERDICTS (e_verdict entry)) "verdict must be one of: support, contradict, uncertain" in
  {| valid := bool_decide (errors = []); errors := errors |}.

(** ** Text *)

(** [toLowerCase] on code units below 256. *)
Definition lower_char (c : ascii) : ascii :=
  let n := nat_of_ascii c in
  if (Nat.leb 65 n && Nat.leb n 90) || (Nat.leb 192 n && Nat.leb n 222 && negb (Nat.eqb n 215))
  then ascii_of_nat (n + 32) else c.

Fixpoint lower (s : string) : string :=
  match s with
  | EmptyString => EmptyString
  | String c r => String (lower_char c) (lower r)
  end.

(** [/(a|b|...)/.test(s)] for literal alternatives. *)
Fixpoint mentions (alternatives : list string) (s : string) : bool :=
  existsb (fun a => String.prefix a s) alternatives
  || match s with EmptyString => false | String _ r => mentions alternatives r end.

(** A validated string field. *)
Definition text (v : js) : string := match v with Jstr s => s | _ => EmptyString end.

Definition has_verdict (v : string) (e : ResearchEvidenceEntry) : bool := is_str (e_verdict e) v.

(** ** Evaluation *)

Definition matchesDropCondition (item : ResearchPlanItem) (evidence : list ResearchEvidenceEntry) : option string :=
  let condition := lower (text (dropCondition item)) in
  let unresolved_reason :=
    match find_first (has_verdict "uncertain") evidence with
    | Some e =>
        if mentions ["unknown"; "unresolved"; "uncertain"] condition
        then Some ("dropCondition matched by unresolved evidence: " +:+ text (e_source e)) else None
    | None => None
    end in
  match find_first (has_verdict "contradict") evidence with
  | Some e =>
      if mentions ["counterexample"; "contradict"; "conflict"; "falsif"] condition
      then Some ("dropCondition matched by contradictory source: " +:+ text (e_source e))
      else unresolved_reason
  | None => unresolved_reason
  end.

Definition count (n : nat) : string := show_Z (Z.of_nat n).

Definition sourceConflictReason (item : ResearchPlanItem) (evidence : list ResearchEvidenceEntry) : option string :=
  let supporting := List.filter (has_verdict "support") evidence in
  let contradicting := List.filter (has_verdict "contradict") evidence in
  match supporting, contradicting with
  | [], _ | _, [] => None
  | _, _ =>
      let policy := lower (text (sourceConflictPolicy item)) in
      if mentions ["reject"; "drop"; "do not accept"; "prefer contradiction"; "requires resolution"] policy
      then Some ("sourceConflictPolicy rejected mixed support/contradiction (" +:+ count (length supporting)
                 +:+ " support, " +:+ count (length contradicting) +:+ " contradict)")
      else Some "source conflict remains unresolved"
  end.

(** [entry.claim === item.claim] *)
Definition same_claim (item : ResearchPlanItem) (e : ResearchEvidenceEntry) : bool :=
  match claim item with Jstr c => is_str (e_claim e) c | _ => false end.

Definition verdict (item : ResearchPlanItem) (v : final_verdict) (sources : list ResearchEvidenceEntry)
    (reason : option string) (open : js) : ResearchLedgerVerdict := {|
  v_claim := claim item; finalVerdict := v; survivingSources := sources; rejectReason := reason;
  unresolvedUnknowns := open |}.

Definition evaluateResearchLedger (item : ResearchPlanItem) (evidence : list ResearchEvidenceEntry)
    : ResearchLedgerVerdict :=
  let relevantEvidence := List.filter (same_claim item) evidence in
  let invalidItem := validateResearchPlanItem item in
  if negb (valid invalidItem) then
    verdict item rejected [] (Some ("invalid research plan item: " +:+ join "; " (errors invalidItem))) (unknowns item)
  else
  let invalidEvidence := relevantEvidence ≫= fun e => errors (validateResearchEvidenceEntry e) in
  match invalidEvidence with
  | _ :: _ =>
      verdict item rejected [] (Some ("invalid evidence entry: " +:+ join "; " invalidEvidence)) (unknowns item)
  | [] =>
  match relevantEvidence with
  | [] => verdict item uncertain [] (Some "no evidence collected for claim") (unknowns item)
  | _ :: _ =>
      let supporting := List.filter (has_verdict "support") relevantEvidence in
      let firstContradiction := find_first (has_verdict "contradict") relevantEvidence in
      let dropReason :=
        match matchesDropCondition item relevantEvidence with
        | Some r => Some r
        | None => sourceConflictReason item relevantEvidence
        end in
      let dropReason :=
        match dropReason, firstContradiction, supporting with
        | None, Some c, [] =>
            Some ("claim contradicted by counterexample with no supporting evidence: " +:+ text (e_source c))
        | _, _, _ => dropReason
        end in
      match dropReason with
      | Some r => verdict item rejected supporting (Some r) (unknowns item)
      | None =>
          let isUncertain := existsb (has_verdict "uncertain") relevantEvidence in
          if isUncertain || bool_decide (supporting = []) then
            verdict item uncertain supporting
              (Some (if isUncertain then "unresolved uncertainty remains"
                     else "no supporting evidence survived verification")) (unknowns item)
          else verdict item accepted supporting None (Jarr [])
      end
  end
  end.

(** ** Reference *)

Definition relevant (item : ResearchPlanItem) (evidence : list ResearchEvidenceEntry) :=
  List.filter (same_claim item) evidence.

Definition entry_valid (e : ResearchEvidenceEntry) : bool := valid (validateResearchEvidenceEntry e).

(** The verdict without the reasons: contradiction falsifies, uncertainty keeps
    a claim open or drops it, and only unanimous support accepts. *)
Definition reference (item : ResearchPlanItem) (evidence : list ResearchEvidenceEntry) : final_verdict :=
  let r := relevant item evidence in
  if negb (valid (validateResearchPlanItem item)) || negb (forallb entry_valid r) then rejected
  else if existsb (has_verdict "contradict") r then rejected
  else if bool_decide (r = []) then uncertain
  else if existsb (has_verdict "uncertain") r then
    if mentions ["unknown"; "unresolved"; "uncertain"] (lower (text (dropCondition item)))
    then rejected else uncertain
  else accepted.

(** ** Lemmas *)

Lemma find_exists {A} (p : A -> bool) l : existsb p l = match find_first p l with Some _ => true | None => false end.
Proof. induction l as [|x l IH]; [done|]. simpl. by destruct (p x). Qed.

Lemma find_filter {A} (p : A -> bool) l : find_first p l = None -> List.filter p l = [].
Proof. induction l as [|x l IH]; [done|]. simpl. by destruct (p x). Qed.

Lemma find_filter_some {A} (p : A -> bool) l x : find_first p l = Some x -> List.filter p l <> [].
Proof. induction l as [|y l IH]; [done|]. simpl. by destruct (p y). Qed.

Lemma entry_valid_errors e : entry_valid e = true <-> errors (validateResearchEvidenceEntry e) = [].
Proof. apply bool_decide_eq_true. Qed.

Lemma valid_no_errors l :
  (l ≫= fun e => errors (validateResearchEvidenceEntry e)) = [] <-> forallb entry_valid l = true.
Proof.
  induction l as [|e l IH]; [done|]. cbn [forallb].
  rewrite bind_cons, app_nil, IH, andb_true_iff, entry_valid_errors. done.
Qed.

Lemma valid_verdict e :
  entry_valid e = true ->
  has_verdict "support" e = true \/ has_verdict "contradict" e = true \/ has_verdict "uncertain" e = true.
Proof.
  rewrite entry_valid_errors. unfold validateResearchEvidenceEntry. cbn [errors].
  intros H. apply app_nil in H as [_ H]. apply app_nil in H as [_ H]. apply app_nil in H as [_ H].
  unfold has_verdict. destruct (e_verdict e) as [| | | |s| |]; try done. simpl in *.
  destruct (includes EVIDENCE_VERDICTS s) eqn:Hs; [|done]. apply includes_true in Hs.
  unfold EVIDENCE_VERDICTS in Hs. rewrite !elem_of_cons in Hs.
  destruct Hs as [->|[->|[->|Hs]]]; [by left|by right; left|by right; right|by apply elem_of_nil in Hs].
Qed.

(** Evidence without contradiction or uncertainty is all support. *)
Lemma all_support l :
  forallb entry_valid l = true -> existsb (has_verdict "contradict") l = false ->
  existsb (has_verdict "uncertain") l = false -> List.filter (has_verdict "support") l = l.
Proof.
  induction l as [|e l IH]; [done|]. simpl. intros Hv Hc Hu.
  apply andb_true_iff in Hv as [Hv1 Hv2]. apply orb_false_iff in Hc as [Hc1 Hc2].
  apply orb_false_iff in Hu as [Hu1 Hu2].
  destruct (valid_verdict e Hv1) as [->|[H|H]]; [by rewrite IH|congruence|congruence].
Qed.

Lemma conflict_some item l :
  find_first (has_verdict "contradict") l <> None -> List.filter (has_verdict "support") l <> [] ->
  exists r, sourceConflictReason item l = Some r.
Proof.
  intros Hc Hs. unfold sourceConflictReason. destruct (find_first _ l) as [e|] eqn:Hf; [|done].
  apply find_filter_some in Hf. destruct (List.filter (has_verdict "support") l); [done|].
  destruct (List.filter (has_verdict "contradict") l); [done|]. case_match; eauto.
Qed.

Lemma no_conflict item l : find_first (has_verdict "contradict") l = None -> sourceConflictReason item l = None.
Proof.
  intros H. unfold sourceConflictReason. rewrite (find_filter _ _ H). by destruct (List.filter _ l).
Qed.

Lemma evaluate_reference item evidence : finalVerdict (evaluateResearchLedger item evidence) = reference item evidence.
Proof.
  unfold evaluateResearchLedger, reference, relevant. destruct (valid (validateResearchPlanItem item)); [|done].
  cbn [negb orb]. set (r := List.filter (same_claim item) evidence).
  pose proof (valid_no_errors r) as Hv. pose proof (all_support r) as Hall.
  match goal with |- context [match ?l with [] => _ | _ :: _ => _ end] => destruct l as [|x xs] end.
  2: { destruct (forallb entry_valid r); [|done]. discriminate (proj2 Hv eq_refl). }
  rewrite (proj1 Hv eq_refl) in *. cbn [negb]. specialize (Hall eq_refl). rewrite !find_exists in *.
  clear Hv. clearbody r. destruct r as [|e r']; [done|]. set (r := e :: r') in *.
  rewrite (bool_decide_false (r = [])) by done. pose proof (conflict_some item r) as Hcs.
  pose proof (no_conflict item r) as Hnc.
  destruct (find_first (has_verdict "contradict") r) as [c|] eqn:Hc.
  - destruct (matchesDropCondition item r) as [m|]; [done|].
    destruct (List.filter (has_verdict "support") r) as [|x xs]; [by destruct (sourceConflictReason item r)|].
    by destruct Hcs as [m ->].
  - rewrite Hnc by done. unfold matchesDropCondition. rewrite Hc.
    destruct (find_first (has_verdict "uncertain") r) as [u|].
    + by destruct (mentions _ _).
    + rewrite Hall by done. done.
Qed.

Lemma reference_accepted item evidence :
  reference item evidence = accepted <->
  valid (validateResearchPlanItem item) = true /\ relevant item evidence <> [] /\
  (forall e, e ∈ relevant item evidence -> entry_valid e = true /\ has_verdict "support" e = true).
Proof.
  unfold reference. set (r := relevant item evidence). destruct (valid _); [|naive_solver].
  cbn [negb orb]. destruct (forallb entry_valid r) eqn:Hv; cbn [negb].
  2: { split; [done|]. intros (_ & _ & H). apply not_true_iff_false in Hv. destruct Hv.
       apply forallb_Forall, Forall_forall. intros e He. by apply H. }
  destruct (existsb (has_verdict "contradict") r) eqn:Hc.
  { split; [done|]. intros (_ & _ & H). apply existsb_exists in Hc as (e & He & Hc).
    apply list_elem_of_In, H in He as [_ Hs]. unfold has_verdict in *.
    destruct (e_verdict e); try done. simpl in *. apply bool_decide_eq_true in Hc, Hs. congruence. }
  case_bool_decide as Hr; [naive_solver|].
  destruct (existsb (has_verdict "uncertain") r) eqn:Hu.
  { split; [by destruct (mentions _ _)|]. intros (_ & _ & H). apply existsb_exists in Hu as (e & He & Hu).
    apply list_elem_of_In, H in He as [_ Hs]. unfold has_verdict in *.
    destruct (e_verdict e); try done. simpl in *. apply bool_decide_eq_true in Hu, Hs. congruence. }
  split; [|done]. intros _. split_and!; try done. intros e He.
  rewrite forallb_Forall, Forall_forall in Hv. split; [by apply Hv|].
  rewrite <- (all_support r) in He; [|by apply forallb_Forall, Forall_forall|done..].
  by apply list_elem_of_In, filter_In in He as [_ He].
Qed.

(** The shape of a verdict: what survives is support, and every verdict that
    is not an acceptance says why. *)
Lemma verdict_shape item evidence :
  let v := evaluateResearchLedger item evidence in
  (survivingSources v = [] \/
   survivingSources v = List.filter (has_verdict "support") (relevant item evidence)) /\
  match finalVerdict v with
  | accepted => rejectReason v = None /\ unresolvedUnknowns v = Jarr [] /\
      survivingSources v = List.filter (has_verdict "support") (relevant item evidence)
  | _ => rejectReason v <> None /\ unresolvedUnknowns v = unknowns item
  end.
Proof.
  unfold evaluateResearchLedger. fold (relevant item evidence).
  destruct (negb _); [split_and!; try done; by left|].
  destruct (relevant item evidence ≫= _); [|split_and!; try done; by left].
  destruct (relevant item evidence) as [|e r']; [split_and!; try done; by left|].
  match goal with |- context [match ?o with Some m => verdict _ rejected _ (Some m) _ | None => _ end] =>
    destruct o as [?|] end; [split_and!; try done; by right|].
  destruct (_ || _); split_and!; try done; by right.
Qed.

(** The ledger closes no claim on doubtful evidence: the verdict is the
    reference one; a claim is accepted exactly when its item is valid, there
    is evidence for it, and every such entry is valid and supports it; a
    contradiction always rejects; the surviving sources are entries of the
    evidence for that claim that support it, all of them on acceptance; and
    any other verdict gives a reason and keeps the item's unknowns. *)
Theorem research_verdict_exact (item : ResearchPlanItem) (evidence : list ResearchEvidenceEntry) :
  let v := evaluateResearchLedger item evidence in
  finalVerdict v = reference item evidence /\
  (finalVerdict v = accepted <->
     valid (validateResearchPlanItem item) = true /\ relevant item evidence <> [] /\
     (forall e, e ∈ relevant item evidence -> entry_valid e = true /\ has_verdict "support" e = true)) /\
  (existsb (has_verdict "contradict") (relevant item evidence) = true -> finalVerdict v = rejected) /\
  (forall e, e ∈ survivingSources v -> e ∈ evidence /\ same_claim item e = true /\ has_verdict "support" e = true) /\
  (finalVerdict v = accepted ->
     survivingSources v = relevant item evidence /\ rejectReason v = None /\ unresolvedUnknowns v = Jarr []) /\
  (finalVerdict v <> accepted -> rejectReason v <> None /\ unresolvedUnknowns v = unknowns item).
Proof.
  intros v. pose proof (evaluate_reference item evidence) as Href. fold v in Href.
  destruct (verdict_shape item evidence) as [Hsurv Hshape]. fold v in Hsurv, Hshape. split_and!.
  - done.
  - rewrite Href. apply reference_accepted.
  - intros Hc. rewrite Href. unfold reference. destruct (negb _ || _); [done|]. by rewrite Hc.
  - intros e He. destruct Hsurv as [Hs|Hs]; rewrite Hs in He; [by apply elem_of_nil in He|].
    apply list_elem_of_In, filter_In in He as [He Hv]. apply filter_In in He as [He Hsame].
    apply list_elem_of_In in He. done.
  - intros Ha. rewrite Ha in Hshape. destruct Hshape as (? & ? & Hs). split_and!; try done. rewrite Hs.
    rewrite Href in Ha. apply reference_accepted in Ha as (_ & _ & Hsup).
    apply forallb_filter_id, forallb_forall. intros e He. apply list_elem_of_In in He. by apply Hsup.
  - intros Hn. by destruct (finalVerdict v).
Qed.
