(* ===== verification/JsText.v ===== *)
(** * Text: lines, slices and prefixes

    [text.split("\n")], [lines.join("\n")], [slice], [startsWith] and trimming
    on strings, with the lemmas that relate them. *)

From Stdlib Require Import Ascii.
From S2P Require Import Prelude JsNumber JsValue.

Local Open Scope string_scope.
Local Open Scope list_scope.

Definition newline_char : ascii := ascii_of_nat 10.
Definition newline : string := String newline_char EmptyString.

(** [text.split("\n")], never empty. *)
Fixpoint split_lines (s : string) : list string :=
  match s with
  | EmptyString => [EmptyString]
  | String c r =>
      if decide (nat_of_ascii c = 10%nat) then EmptyString :: split_lines r
      else match split_lines r with
           | l :: ls => String c l :: ls
           | [] => [String c EmptyString]
           end
  end.

(** [s.slice(0, n)] and [s.slice(n)]. *)
Fixpoint str_take (n : nat) (s : string) : string :=
  match n, s with
  | S n, String c r => String c (str_take n r)
  | _, _ => EmptyString
  end.

Fixpoint str_drop (n : nat) (s : string) : string :=
  match n, s with
  | S n, String _ r => str_drop n r
  | _, _ => s
  end.

(** [s.slice(a, b)] for [0 <= a]. *)
Definition str_slice (s : string) (a b : nat) : string := str_take (b - a) (str_drop a s).

(** [s.startsWith(p)] *)
Fixpoint starts_with (p s : string) : bool :=
  match p, s with
  | EmptyString, _ => true
  | String a p, String b s => bool_decide (a = b) && starts_with p s
  | String _ _, EmptyString => false
  end.

Definition trimEnd (s : string) : string := String.rev (trim_start (String.rev s)).

(** ** Lengths and slices *)

Lemma str_length_app a b : String.length (a +:+ b) = (String.length a + String.length b)%nat.
Proof. induction a as [|c a IH]; [done|]. rewrite append_cons. simpl. by rewrite IH. Qed.

Lemma str_take_drop n s : str_take n s +:+ str_drop n s = s.
Proof.
  revert s. induction n as [|n IH]; intros [|c s]; try done. cbn [str_take str_drop].
  by rewrite append_cons, IH.
Qed.

Lemma str_length_take n s : String.length (str_take n s) = (n `min` String.length s)%nat.
Proof. revert s. induction n as [|n IH]; intros [|c s]; simpl; try done. by rewrite IH. Qed.

Lemma str_length_drop n s : String.length (str_drop n s) = (String.length s - n)%nat.
Proof. revert s. induction n as [|n IH]; intros [|c s]; simpl; try done. Qed.

Lemma str_take_app a b : str_take (String.length a) (a +:+ b) = a.
Proof. induction a as [|c a IH]; [by destruct b|]. rewrite append_cons. simpl. by rewrite IH. Qed.

Lemma str_drop_app a b : str_drop (String.length a) (a +:+ b) = b.
Proof. induction a as [|c a IH]; [by destruct b|]. rewrite append_cons. simpl. by rewrite IH. Qed.

Lemma str_take_0 s : str_take 0 s = EmptyString.
Proof. by destruct s. Qed.

Lemma str_take_all n s : (String.length s <= n)%nat -> str_take n s = s.
Proof.
  revert s. induction n as [|n IH]; intros [|c s] H; simpl in *; try done; try lia. by rewrite IH by lia.
Qed.

Lemma str_drop_drop n m s : str_drop n (str_drop m s) = str_drop (m + n) s.
Proof. revert s. induction m as [|m IH]; intros [|c s]; simpl; [done|done|by destruct n|done]. Qed.

(** A slice between the text before and after it. *)
Lemma str_slice_split s a b :
  (a <= b)%nat -> str_take a s +:+ str_slice s a b +:+ str_drop b s = s.
Proof.
  intros Hab. unfold str_slice. replace (str_drop b s) with (str_drop (b - a) (str_drop a s))
    by (rewrite str_drop_drop; f_equal; lia).
  by rewrite str_take_drop, str_take_drop.
Qed.

Lemma starts_with_app p s : starts_with p (p +:+ s) = true.
Proof. induction p as [|c p IH]; [done|]. rewrite append_cons. simpl. by rewrite bool_decide_true. Qed.

Lemma starts_with_spec p s : starts_with p s = true <-> exists r, s = p +:+ r.
Proof.
  split; [|intros [r ->]; apply starts_with_app]. revert s.
  induction p as [|c p IH]; intros [|d s] H; simpl in H; try done; [by exists EmptyString|by exists (String d s)|].
  apply andb_true_iff in H as [Hc H]. apply bool_decide_eq_true in Hc as ->.
  destruct (IH _ H) as [r ->]. exists r. by rewrite append_cons.
Qed.

(** ** Lines *)

Fixpoint has_newline (s : string) : bool :=
  match s with
  | EmptyString => false
  | String c r => bool_decide (nat_of_ascii c = 10%nat) || has_newline r
  end.

Lemma is_newline c : nat_of_ascii c = 10%nat -> c = newline_char.
Proof. intros H. by rewrite <- (ascii_nat_embedding c), H. Qed.

Lemma split_lines_ne s : split_lines s <> [].
Proof.
  destruct s as [|c s]; [done|]. cbn [split_lines]. case_decide; [done|]. by destruct (split_lines s).
Qed.

Lemma join_cons sep x l : l <> [] -> join sep (x :: l) = x +:+ sep +:+ join sep l.
Proof. by destruct l. Qed.

Lemma join_split_lines s : join newline (split_lines s) = s.
Proof.
  induction s as [|c s IH]; [done|]. cbn [split_lines]. case_decide as Hc.
  - rewrite join_cons by apply split_lines_ne. rewrite IH. unfold newline.
    by rewrite append_nil, append_cons, append_nil, (is_newline _ Hc).
  - pose proof (split_lines_ne s) as Hne. destruct (split_lines s) as [|l ls]; [done|]. rewrite <- IH.
    destruct ls as [|l' ls]; [done|]. rewrite !join_cons by done. by rewrite append_cons.
Qed.

Lemma split_lines_app l s :
  has_newline l = false ->
  split_lines (l +:+ newline +:+ s) = l :: split_lines s.
Proof.
  induction l as [|c l IH]; intros H.
  { unfold newline. by rewrite append_nil, append_cons, append_nil. }
  simpl in H. apply orb_false_iff in H as [Hc H].
  apply bool_decide_eq_false in Hc. rewrite append_cons. cbn [split_lines]. rewrite decide_False by done.
  by rewrite (IH H).
Qed.

Lemma split_lines_one l : has_newline l = false -> split_lines l = [l].
Proof.
  induction l as [|c l IH]; intros H; [done|]. simpl in H. apply orb_false_iff in H as [Hc H].
  apply bool_decide_eq_false in Hc. cbn [split_lines]. rewrite decide_False by done. by rewrite (IH H).
Qed.

Lemma split_join ls :
  ls <> [] -> Forall (fun l => has_newline l = false) ls -> split_lines (join newline ls) = ls.
Proof.
  induction ls as [|l ls IH]; intros Hne H; [done|]. apply Forall_cons in H as [Hl H].
  destruct ls as [|l' ls]; [by apply split_lines_one|]. rewrite join_cons by done.
  rewrite (split_lines_app _ _ Hl). by rewrite IH.
Qed.

Lemma split_lines_clean s : Forall (fun l => has_newline l = false) (split_lines s).
Proof.
  induction s as [|c s IH]; [by constructor|]. cbn [split_lines]. case_decide as Hc; [by constructor|].
  destruct (split_lines s) as [|l ls]; [by repeat constructor; simpl; rewrite bool_decide_false|].
  apply Forall_cons in IH as [Hl IH]. constructor; [|done]. simpl. by rewrite bool_decide_false.
Qed.

(** ** Trimming *)

(** The last character is not blank. *)
Fixpoint ends_dark (s : string) : bool :=
  match s with
  | EmptyString => false
  | String c EmptyString => negb (is_white c)
  | String _ r => ends_dark r
  end.

Lemma rev_app_append a b c : String.rev_app (a +:+ b) c = String.rev_app b (String.rev_app a c).
Proof. revert c. induction a as [|x a IH]; intros c; [done|]. rewrite append_cons. simpl. by rewrite IH. Qed.

Lemma rev_app_rev a c : String.rev_app a c = String.rev a +:+ c.
Proof.
  unfold String.rev. revert c. induction a as [|x a IH]; intros c; [done|]. simpl.
  rewrite (IH (String x c)), (IH (String x "")).
  rewrite append_assoc. f_equal.
Qed.

Lemma rev_append a b : String.rev (a +:+ b) = String.rev b +:+ String.rev a.
Proof. unfold String.rev at 1. by rewrite rev_app_append, rev_app_rev. Qed.

Lemma rev_involutive s : String.rev (String.rev s) = s.
Proof.
  induction s as [|c s IH]; [done|].
  change (String.rev (String c s)) with (String.rev_app s (String c "")).
  rewrite rev_app_rev, rev_append, IH. done.
Qed.

Lemma ends_dark_split s : ends_dark s = true -> exists a c, s = a +:+ String c "" /\ is_white c = false.
Proof.
  induction s as [|c s IH]; [done|]. destruct s as [|d s].
  - intros H. exists EmptyString, c. simpl in H. by destruct (is_white c).
  - intros H. destruct (IH H) as (a & x & -> & Hx). exists (String c a), x. by rewrite append_cons.
Qed.

Lemma ends_dark_app a b : ends_dark b = true -> ends_dark (a +:+ b) = true.
Proof.
  intros H. induction a as [|c a IH]; [done|]. rewrite append_cons. simpl.
  destruct (a +:+ b) eqn:E; [|done]. destruct a; [by rewrite append_nil in E; subst|].
  by rewrite append_cons in E.
Qed.

(** A text that starts and ends with a character is its own trimming. *)
Lemma trim_dark c s : is_white c = false -> ends_dark (String c s) = true -> trim (String c s) = String c s.
Proof.
  intros Hc He. unfold trim. cbn [trim_start]. rewrite Hc.
  destruct (ends_dark_split _ He) as (a & d & Ha & Hd). rewrite Ha, rev_append.
  change (String.rev (String d "")) with (String d ""). rewrite append_cons, append_nil. cbn [trim_start]. rewrite Hd.
  rewrite <- (append_nil (String.rev a)), <- append_cons. change (String d "") with (String.rev (String d "")).
  rewrite <- rev_append. apply rev_involutive.
Qed.

Lemma has_newline_app a b : has_newline (a +:+ b) = has_newline a || has_newline b.
Proof. induction a as [|c a IH]; [done|]. rewrite append_cons. simpl. by rewrite IH, orb_assoc. Qed.
