(* ===== verification/HashlineBigrams.v ===== *)
(** * Hashline bigrams ([hashline/bigrams.json])

    The table of two-letter line hashes, in its permanent order. *)

From S2P Require Import Prelude.

Local Open Scope string_scope.

Definition HL_BIGRAMS : list string := Eval vm_compute in (fix pairs (s : string) : list string :=
  match s with
  | String a (String b r) => String a (String b EmptyString) :: pairs r
  | _ => []
  end)
  ("aaabacadaeafagahaiajakalamanaoapaqarasatauavawaxayazbabbbcbdbebfbgbhbibjbkblbmbnbobpbrbs" +:+
   "btbubvbwbxbybzcacbcccdcecfcgchcicjckclcmcncocpcqcrcsctcucvcwcxcyczdadbdcdddedfdgdhdidjdk" +:+
   "dldmdndodpdqdrdsdtdudvdwdxdydzeaebecedeeefegeheiejekelemeneoepeqereseteuevewexeyezfafbfc" +:+
   "fdfefffgfhfifjfkflfmfnfofpfqfrfsftfufvfwfxfyfzgagbgcgdgegfggghgigjglgmgngogpgrgsgtgugvgw" +:+
   "gxgygzhahbhchdhehfhghhhihjhkhlhmhnhohphqhrhshthuhvhwhxhyhziaibicidieifigihiiijikiliminio" +:+
   "ipiqirisitiuiviwixiyizjajbjcjdjejfjgjhjijjjkjljmjnjojpjqjrjsjtjujwjxjykakbkckdkekfkgkhki" +:+
   "kjkkklkmknkokpkrksktkukvkwkxkylalblcldlelflglhliljlklllmlnlolplrlsltlulvlwlxlylzmambmcmd" +:+
   "memfmgmhmimjmkmlmmmnmompmqmrmsmtmumvmwmxmymznanbncndnenfngnhninjnknlnmnnnonpnrnsntnunvnw" +:+
   "nxnynzoaobocodoeofogohoiojokolomonooopoqorosotouovowoxoyozpapbpcpdpepfpgphpipjpkplpmpnpo" +:+
   "pppqprpsptpupvpwpxpypzqaqbqcqdqeqhqiqlqmqnqoqpqqqrqsqtquqwqxqyrarbrcrdrerfrgrhrirkrlrmrn" +:+
   "rorprqrrrsrtrurvrwrxryrzsasbscsdsesfsgshsisjskslsmsnsospsqsrssstsusvswsxsysztatbtctdtetf" +:+
   "tgthtitjtktltmtntotptrtstttutvtwtxtytzuaubucudueufuguhuiujukulumunuoupuqurusutuuuvuwuxuy" +:+
   "uzvavbvcvdvevfvgvhvivjvkvlvmvnvovpvqvrvsvtvuvvvwvxvyvzwawbwcwdwewfwgwhwiwjwkwlwmwnwowpwr" +:+
   "wswtwuwvwwwxwyxaxbxcxdxexfxhxixlxmxnxoxpxrxsxtxuxxxyxzyaybycydyeyfygyhyiyjykylymynyoypyr" +:+
   "ysytyuyvywyxyyyzzazbzczdzezfzgzhzizkzlzmznzozpzrzsztzuzwzxzyzz").

Definition HL_BIGRAMS_COUNT : Z := Z.of_nat (length HL_BIGRAMS).

Lemma bigrams_count : HL_BIGRAMS_COUNT = 647%Z.
Proof. reflexivity. Qed.

(** No two entries are equal, and each is two lower-case letters. *)
Lemma bigrams_distinct : NoDup HL_BIGRAMS.
Proof. apply (bool_decide_unpack _). vm_compute. reflexivity. Qed.
