(* ===== verification/Hashline.v ===== *)
(** * Hashline edits: data, hashes and the absorption of duplicates
      ([hashline/types.ts], [hash.ts], [anchors.ts], [apply.ts])

    An edit names the lines it touches by number and by a two-letter hash of
    their text.  Before the edits are applied, payload lines that repeat the
    file's lines next to an edit are absorbed: a replacement then deletes the
    file's copies, an insertion drops its own.  xxHash32, which the JavaScript
    runtime provides, is a parameter. *)

From S2P Require Import Prelude JsNumber JsValue JsText HashlineBigrams.
From Stdlib Require Import Ascii.

Local Open Scope string_scope.
Local Open Scope list_scope.
Local Open Scope Z_scope.

(** ** Data *)

Record Anchor := { line : Z; hash : string }.

Inductive HashlineCursor :=
| bof
| eof
| before_anchor (anchor : Anchor)
| after_anchor (anchor : Anchor).

Inductive HashlineEdit :=
| insert_edit (cursor : HashlineCursor) (text : string) (lineNum index : Z)
| delete_edit (anchor : Anchor) (lineNum index : Z).

Record HashMismatch := { m_line : Z; m_expected : string; m_actual : string }.

#[export] Instance Anchor_eq_dec : EqDecision Anchor.
Proof. solve_decision. Defined.

Definition RANGE_INTERIOR_HASH : string := "**".
Definition MISMATCH_CONTEXT : Z := 2.

(** [lines[i]]: [undefined] outside the array. *)
Definition line_at (fileLines : list string) (i : Z) : option string :=
  if decide (0 <= i) then fileLines !! Z.to_nat i else None.

(** ** Line hashes *)

Fixpoint remove_cr (s : string) : string :=
  match s with
  | EmptyString => EmptyString
  | String c r => if decide (nat_of_ascii c = 13%nat) then remove_cr r else String c (remove_cr r)
  end.

Section hashed.
Context (xxHash32 : string -> Z).

Definition computeLineHash (idx : Z) (text : string) : string :=
  default EmptyString (HL_BIGRAMS !! Z.to_nat (xxHash32 (trimEnd (remove_cr text)) mod HL_BIGRAMS_COUNT)).

Definition formatLineHash (n : Z) (text : string) : string := show_Z n +:+ computeLineHash n text.

Definition formatHashLine (n : Z) (text : string) : string :=
  show_Z n +:+ computeLineHash n text +:+ "|" +:+ text.

(** The TypeScript loop; the native one is an accelerator with its contract. *)
Definition formatHashLines (text : string) (startLine : Z) : string :=
  join newline (imap (fun i l => formatHashLine (startLine + Z.of_nat i) l) (split_lines text)).

(** ** Anchors *)

Inductive hashline_error :=
| line_missing (n count : Z)
| mismatch (mismatches : list HashMismatch) (fileLines : list string).

Definition getHashlineEditAnchors (e : HashlineEdit) : list Anchor :=
  match e with
  | delete_edit a _ _ | insert_edit (before_anchor a) _ _ _ | insert_edit (after_anchor a) _ _ _ => [a]
  | _ => []
  end.

Definition file_length (fileLines : list string) : Z := Z.of_nat (length fileLines).

Fixpoint check_anchors (anchors : list Anchor) (fileLines : list string) (mismatches : list HashMismatch)
    : outcome hashline_error (list HashMismatch) :=
  match anchors with
  | [] => Ok mismatches
  | a :: anchors =>
      if decide (line a < 1 \/ file_length fileLines < line a)
      then Throw (line_missing (line a) (file_length fileLines))
      else if decide (hash a = RANGE_INTERIOR_HASH) then check_anchors anchors fileLines mismatches
      else
        let actualHash := computeLineHash (line a) (default EmptyString (line_at fileLines (line a - 1))) in
        if decide (actualHash = hash a) then check_anchors anchors fileLines mismatches
        else check_anchors anchors fileLines
               (mismatches ++ [{| m_line := line a; m_expected := hash a; m_actual := actualHash |}])
  end.

Definition validateHashlineAnchors (edits : list HashlineEdit) (fileLines : list string)
    : outcome hashline_error (list HashMismatch) :=
  check_anchors (edits ≫= getHashlineEditAnchors) fileLines [].

Definition validateLineRef (ref : Anchor) (fileLines : list string) : outcome hashline_error unit :=
  if decide (line ref < 1 \/ file_length fileLines < line ref)
  then Throw (line_missing (line ref) (file_length fileLines))
  else
    let actualHash := computeLineHash (line ref) (default EmptyString (line_at fileLines (line ref - 1))) in
    if decide (actualHash <> hash ref)
    then Throw (mismatch [{| m_line := line ref; m_expected := hash ref; m_actual := actualHash |}] fileLines)
    else Ok tt.

(** ** Delimiters *)

Definition is_closer (c : ascii) : bool :=
  bool_decide (c = "]"%char) || bool_decide (c = ")"%char) || bool_decide (c = "}"%char).

Fixpoint skip_closers (s : string) : string :=
  match s with
  | String c r => if is_closer c then skip_closers r else s
  | EmptyString => EmptyString
  end.

(** [/^\s*[\])}]+[;,]?\s*$/] *)
Definition isStructuralClosingBoundaryLine (l : string) : bool :=
  match trim_start l with
  | String c r =>
      if is_closer c then
        let rest := match skip_closers r with
                    | String d r' =>
                        if bool_decide (d = ";"%char) || bool_decide (d = ","%char) then r' else String d r'
                    | EmptyString => EmptyString
                    end in
        bool_decide (trim_start rest = EmptyString)
      else false
  | EmptyString => false
  end.

Record DelimiterBalance := { paren : Z; bracket : Z; brace : Z }.

#[export] Instance DelimiterBalance_eq_dec : EqDecision DelimiterBalance.
Proof. solve_decision. Defined.

Definition ZERO_DELIMITER_BALANCE : DelimiterBalance := {| paren := 0; bracket := 0; brace := 0 |}.

Definition count_char (b : DelimiterBalance) (c : ascii) : DelimiterBalance :=
  let add p k r := {| paren := paren b + p; bracket := bracket b + k; brace := brace b + r |} in
  if decide (c = "("%char) then add 1 0 0 else if decide (c = ")"%char) then add (-1) 0 0
  else if decide (c = "["%char) then add 0 1 0 else if decide (c = "]"%char) then add 0 (-1) 0
  else if decide (c = "{"%char) then add 0 0 1 else if decide (c = "}"%char) then add 0 0 (-1)
  else b.

Fixpoint count_line (b : DelimiterBalance) (s : string) : DelimiterBalance :=
  match s with
  | EmptyString => b
  | String c r => count_line (count_char b c) r
  end.

Definition computeDelimiterBalance (ls : list string) : DelimiterBalance :=
  foldl count_line ZERO_DELIMITER_BALANCE ls.

Definition shouldDropSingleStructuralBoundary (fullPayload keptPayload : list string)
    (expected : DelimiterBalance) : bool :=
  bool_decide (computeDelimiterBalance keptPayload = expected)
  && negb (bool_decide (computeDelimiterBalance fullPayload = expected)).

(** ** Groups of edits *)

Definition insert_text (e : HashlineEdit) : option string :=
  match e with insert_edit _ t _ _ => Some t | _ => None end.

Definition getAnchorTargetLine (e : HashlineEdit) : option Z :=
  match e with
  | delete_edit a _ _ | insert_edit (before_anchor a) _ _ _ | insert_edit (after_anchor a) _ _ _ => Some (line a)
  | _ => None
  end.

Definition collectAnchorTargetLines (edits : list HashlineEdit) : list Z := omap getAnchorTargetLine edits.

(** The edits of a group, as they stand in the list of edits. *)
Record HashlineReplacementGroup := {
  g_inserts : list HashlineEdit;
  replacement : list string;
  deletes : list (Anchor * Z * Z);
  sourceLineNum : Z
}.

Definition delete_of (d : Anchor * Z * Z) : HashlineEdit := delete_edit d.1.1 d.1.2 d.2.

(** The leading [insert] edits of one operation before an anchor. *)
Fixpoint take_inserts (n : Z) (edits : list HashlineEdit) : list (HashlineEdit * string) * list HashlineEdit :=
  match edits with
  | insert_edit (before_anchor a) t ln i as e :: rest =>
      if decide (ln = n) then let '(l, r) := take_inserts n rest in ((e, t) :: l, r) else ([], edits)
  | _ => ([], edits)
  end.

Fixpoint take_deletes (n : Z) (edits : list HashlineEdit) : list (Anchor * Z * Z) * list HashlineEdit :=
  match edits with
  | delete_edit a ln i :: rest =>
      if decide (ln = n) then let '(l, r) := take_deletes n rest in ((a, ln, i) :: l, r) else ([], edits)
  | _ => ([], edits)
  end.

Fixpoint consecutive (start : Z) (ds : list (Anchor * Z * Z)) : bool :=
  match ds with
  | [] => true
  | d :: ds => bool_decide (line d.1.1 = start) && consecutive (start + 1) ds
  end.

(** The group at the head of the edits, and the edits after it. *)
Definition findReplacementGroup (edits : list HashlineEdit)
    : option (HashlineReplacementGroup * list HashlineEdit) :=
  match edits with
  | insert_edit (before_anchor first) _ n _ :: _ =>
      let '(ins, rest) := take_inserts n edits in
      let '(dels, rest) := take_deletes n rest in
      match dels with
      | [] => None
      | d :: _ =>
          if negb (consecutive (line d.1.1) dels) then None
          else if decide (line first <> line d.1.1) then None
          else Some ({| g_inserts := ins.*1; replacement := ins.*2; deletes := dels; sourceLineNum := n |}, rest)
      end
  | _ => None
  end.

Record HashlinePureInsertGroup := {
  p_edits : list HashlineEdit;
  p_sourceLineNum : Z;
  p_cursor : HashlineCursor;
  payload : list string
}.

Definition cursorMatches (a b : HashlineCursor) : bool :=
  match a, b with
  | bof, bof | eof, eof => true
  | before_anchor x, before_anchor y | after_anchor x, after_anchor y =>
      bool_decide (line x = line y) && bool_decide (hash x = hash y)
  | _, _ => false
  end.

Fixpoint take_run (n : Z) (c : HashlineCursor) (edits : list HashlineEdit)
    : list (HashlineEdit * string) * list HashlineEdit :=
  match edits with
  | insert_edit cur t ln i as e :: rest =>
      if bool_decide (ln = n) && cursorMatches cur c
      then let '(l, r) := take_run n c rest in ((e, t) :: l, r) else ([], edits)
  | _ => ([], edits)
  end.

Definition findPureInsertGroup (edits : list HashlineEdit)
    : option (HashlinePureInsertGroup * list HashlineEdit) :=
  match edits with
  | insert_edit c _ n _ :: _ =>
      let '(run, rest) := take_run n c edits in
      let group := {| p_edits := run.*1; p_sourceLineNum := n; p_cursor := c; payload := run.*2 |} in
      match rest with
      | delete_edit _ ln _ :: _ => if decide (ln = n) then None else Some (group, rest)
      | _ => Some (group, rest)
      end
  | _ => None
  end.

(** ** Matching blocks *)

(** The loops [for (count = max; count >= 2; count--)]. *)
Fixpoint largest_block (matches : nat -> bool) (count : nat) : nat :=
  match count with
  | S (S _ as c) => if matches count then count else largest_block matches c
  | _ => 0%nat
  end.

(** [count] file lines from index [start] are [block], compared one by one. *)
Definition block_at (fileLines : list string) (start : Z) (block : list string) : bool :=
  forallb (fun p => bool_decide (line_at fileLines (start + Z.of_nat p.1) = Some p.2))
    (imap (fun i l => (i, l)) block).

Definition countMatchingPrefixBlock (fileLines : list string) (startLine : Z) (repl : list string) : nat :=
  largest_block
    (fun count => block_at fileLines (startLine - Z.of_nat count - 1) (take count repl))
    (length repl `min` Z.to_nat (startLine - 1)).

Definition countMatchingSuffixBlock (fileLines : list string) (endLine : Z) (repl : list string) : nat :=
  largest_block
    (fun count => block_at fileLines endLine (drop (length repl - count) repl))
    (length repl `min` Z.to_nat (file_length fileLines - endLine)).

Definition countMatchingSingleStructuralPrefixBoundary (fileLines : list string) (startLine : Z)
    (repl : list string) (expected : DelimiterBalance) : nat :=
  match repl with
  | [] => 0%nat
  | l :: rest =>
      if decide (startLine <= 1) then 0%nat
      else if negb (isStructuralClosingBoundaryLine l) then 0%nat
      else if decide (line_at fileLines (startLine - 2) <> Some l) then 0%nat
      else if shouldDropSingleStructuralBoundary repl rest expected then 1%nat else 0%nat
  end.

Definition countMatchingSingleStructuralSuffixBoundary (fileLines : list string) (endLine : Z)
    (repl : list string) (expected : DelimiterBalance) : nat :=
  match last repl with
  | None => 0%nat
  | Some l =>
      if decide (file_length fileLines <= endLine) then 0%nat
      else if negb (isStructuralClosingBoundaryLine l) then 0%nat
      else if decide (line_at fileLines endLine <> Some l) then 0%nat
      else if shouldDropSingleStructuralBoundary repl (take (length repl - 1) repl) expected
      then 1%nat else 0%nat
  end.

Definition contiguousRange (start : Z) (count : nat) : list Z :=
  (fun i => start + Z.of_nat i) <$> seq 0 count.

Definition hasExternalTargets (ls targets : list Z) : bool := existsb (includes targets) ls.

Definition deleteEditForAutoAbsorbedLine (n source index : Z) (fileLines : list string) : HashlineEdit :=
  delete_edit {| line := n; hash := computeLineHash n (default EmptyString (line_at fileLines (n - 1))) |}
    source index.

(** ** Pure insertions *)

Definition pureInsertNeighborhood (c : HashlineCursor) (fileLines : list string) : Z * Z :=
  match c with
  | bof => (-1, 0)
  | eof => (file_length fileLines - 1, file_length fileLines)
  | before_anchor a => (line a - 2, line a - 1)
  | after_anchor a => (line a - 1, line a)
  end.

Record PureInsertAbsorbResult := {
  keptPayload : list string;
  absorbedLeading : nat;
  absorbedTrailing : nat;
  leadingFileRange : Z * Z;
  trailingFileRange : Z * Z
}.

Definition absorb_leading (g : HashlinePureInsertGroup) (fileLines : list string) (generic : bool)
    (aboveEndIdx : Z) : nat :=
  let block :=
    if generic then
      largest_block (fun count => block_at fileLines (aboveEndIdx - Z.of_nat count + 1) (take count (payload g)))
        (length (payload g) `min` Z.to_nat (aboveEndIdx + 1))
    else 0%nat in
  if decide (block <> 0%nat) then block
  else
    match payload g with
    | [] => 0%nat
    | first :: rest =>
        let above := bool_decide (0 <= aboveEndIdx) && bool_decide (Some first = line_at fileLines aboveEndIdx) in
        let structural := isStructuralClosingBoundaryLine first in
        if generic && match p_cursor g with after_anchor _ => true | _ => false end && above && negb structural
        then 1%nat
        else if above && structural
                && shouldDropSingleStructuralBoundary (payload g) rest ZERO_DELIMITER_BALANCE
        then 1%nat else 0%nat
    end.

Definition absorb_trailing (g : HashlinePureInsertGroup) (fileLines : list string) (generic : bool)
    (belowStartIdx : Z) (leading : nat) : nat :=
  let remaining := drop leading (payload g) in
  let block :=
    if generic then
      largest_block
        (fun count => block_at fileLines belowStartIdx (drop (length (payload g) - count) (payload g)))
        (length remaining `min` Z.to_nat (file_length fileLines - belowStartIdx))
    else 0%nat in
  if decide (block <> 0%nat) then block
  else
    match last remaining with
    | None => 0%nat
    | Some final =>
        let below := bool_decide (belowStartIdx < file_length fileLines)
                     && bool_decide (Some final = line_at fileLines belowStartIdx) in
        let structural := isStructuralClosingBoundaryLine final in
        if match p_cursor g with before_anchor _ => true | _ => false end && generic && below && negb structural
        then 1%nat
        else if below && structural
                && shouldDropSingleStructuralBoundary remaining (take (length remaining - 1) remaining)
                     ZERO_DELIMITER_BALANCE
        then 1%nat else 0%nat
    end.

Definition tryAbsorbPureInsertGroup (g : HashlinePureInsertGroup) (fileLines : list string) (generic : bool)
    : PureInsertAbsorbResult :=
  let '(aboveEndIdx, belowStartIdx) := pureInsertNeighborhood (p_cursor g) fileLines in
  let leading := absorb_leading g fileLines generic aboveEndIdx in
  let trailing := absorb_trailing g fileLines generic belowStartIdx leading in
  {| keptPayload := take (length (payload g) - trailing - leading) (drop leading (payload g));
     absorbedLeading := leading; absorbedTrailing := trailing;
     leadingFileRange := (aboveEndIdx - Z.of_nat leading + 2, aboveEndIdx + 1);
     trailingFileRange := (belowStartIdx + 1, belowStartIdx + Z.of_nat trailing) |}.

(** ** Absorption *)

(** The local state of [absorbReplacementBoundaryDuplicates]. *)
Record absorb_state := {
  nextSyntheticIndex : Z;
  absorbed : list HashlineEdit;
  emittedAbsorbKeys : list string;
  warnings : list string
}.

Definition emit_edits (s : absorb_state) (es : list HashlineEdit) : absorb_state := {|
  nextSyntheticIndex := nextSyntheticIndex s; absorbed := absorbed s ++ es;
  emittedAbsorbKeys := emittedAbsorbKeys s; warnings := warnings s |}.

(** [make] builds each edit from its synthetic index. *)
Definition emit_synthetic {A} (s : absorb_state) (make : Z -> A -> HashlineEdit) (xs : list A) : absorb_state := {|
  nextSyntheticIndex := nextSyntheticIndex s + Z.of_nat (length xs);
  absorbed := absorbed s ++ imap (fun i x => make (nextSyntheticIndex s + Z.of_nat i) x) xs;
  emittedAbsorbKeys := emittedAbsorbKeys s; warnings := warnings s |}.

Definition warn_once (s : absorb_state) (wanted : bool) (key warning : string) : absorb_state :=
  if wanted && negb (includes (emittedAbsorbKeys s) key) then {|
    nextSyntheticIndex := nextSyntheticIndex s; absorbed := absorbed s;
    emittedAbsorbKeys := emittedAbsorbKeys s ++ [key]; warnings := warnings s ++ [warning] |}
  else s.

Definition range_text (a b : Z) : string := show_Z a +:+ ".." +:+ show_Z b.

Definition positive (n : nat) : bool := bool_decide (n <> 0%nat).

Definition absorb_pure (s : absorb_state) (g : HashlinePureInsertGroup) (fileLines : list string) (generic : bool)
    : absorb_state :=
  let r := tryAbsorbPureInsertGroup g fileLines generic in
  if positive (absorbedLeading r) || positive (absorbedTrailing r) then
    let '(ls, le) := leadingFileRange r in
    let '(ts, te) := trailingFileRange r in
    let s := warn_once s (positive (absorbedLeading r)) ("pure-insert-leading:" +:+ range_text ls le)
      ("Auto-dropped " +:+ show_Z (Z.of_nat (absorbedLeading r))
         +:+ " duplicate line(s) at the start of insert at line " +:+ show_Z (p_sourceLineNum g)
         +:+ " (file lines " +:+ range_text ls le +:+ " already match the payload's leading lines).") in
    let s := warn_once s (positive (absorbedTrailing r)) ("pure-insert-trailing:" +:+ range_text ts te)
      ("Auto-dropped " +:+ show_Z (Z.of_nat (absorbedTrailing r))
         +:+ " duplicate line(s) at the end of insert at line " +:+ show_Z (p_sourceLineNum g)
         +:+ " (file lines " +:+ range_text ts te +:+ " already match the payload's trailing lines).") in
    emit_synthetic s (fun i t => insert_edit (p_cursor g) t (p_sourceLineNum g) i) (keptPayload r)
  else emit_edits s (p_edits g).

Definition group_start (g : HashlineReplacementGroup) : Z :=
  match deletes g with d :: _ => line d.1.1 | [] => 0 end.
Definition group_end (g : HashlineReplacementGroup) : Z :=
  match last (deletes g) with Some d => line d.1.1 | None => 0 end.

(** How many file lines above and below the range the payload repeats. *)
Definition boundary_counts (g : HashlineReplacementGroup) (fileLines : list string) : nat * nat :=
  let balance := computeDelimiterBalance
    ((fun d => default EmptyString (line_at fileLines (line d.1.1 - 1))) <$> deletes g) in
  let prefix := countMatchingPrefixBlock fileLines (group_start g) (replacement g) in
  let suffix := countMatchingSuffixBlock fileLines (group_end g) (replacement g) in
  (if decide (prefix <> 0%nat) then prefix
   else countMatchingSingleStructuralPrefixBoundary fileLines (group_start g) (replacement g) balance,
   if decide (suffix <> 0%nat) then suffix
   else countMatchingSingleStructuralSuffixBoundary fileLines (group_end g) (replacement g) balance).

(** The lines absorbed: none when another edit targets one of them. *)
Definition safe_counts (g : HashlineReplacementGroup) (fileLines : list string) (targets : list Z) : nat * nat :=
  let '(prefix, suffix) := boundary_counts g fileLines in
  (if hasExternalTargets (contiguousRange (group_start g - Z.of_nat prefix) prefix) targets then 0%nat else prefix,
   if hasExternalTargets (contiguousRange (group_end g + 1) suffix) targets then 0%nat else suffix).

Definition absorb_replacement (s : absorb_state) (g : HashlineReplacementGroup) (fileLines : list string)
    (targets : list Z) : absorb_state :=
  let '(prefix, suffix) := safe_counts g fileLines targets in
  let first := group_start g - Z.of_nat prefix in
  let final := group_end g + Z.of_nat suffix in
  let above := range_text first (group_start g - 1) in
  let below := range_text (group_end g + 1) final in
  let s := warn_once s (positive prefix) ("prefix:" +:+ above)
    ("Auto-absorbed " +:+ show_Z (Z.of_nat prefix) +:+ " duplicate line(s) above replacement at line "
       +:+ show_Z (sourceLineNum g) +:+ " (file lines " +:+ above
       +:+ " matched the payload's leading lines; widened the deletion to absorb them).") in
  let s := warn_once s (positive suffix) ("suffix:" +:+ below)
    ("Auto-absorbed " +:+ show_Z (Z.of_nat suffix) +:+ " duplicate line(s) below replacement at line "
       +:+ show_Z (sourceLineNum g) +:+ " (file lines " +:+ below
       +:+ " matched the payload's trailing lines; widened the deletion to absorb them).") in
  let absorb s ls := emit_synthetic s (fun i n => deleteEditForAutoAbsorbedLine n (sourceLineNum g) i fileLines) ls in
  let s := absorb s (contiguousRange first prefix) in
  let s := emit_edits s (g_inserts g ++ (delete_of <$> deletes g)) in
  absorb s (contiguousRange (group_end g + 1) suffix).

(** One group, or one edit, per unit of fuel. *)
Fixpoint absorb_loop (fuel : nat) (s : absorb_state) (edits : list HashlineEdit) (fileLines : list string)
    (targets : list Z) (generic : bool) : absorb_state :=
  match fuel, edits with
  | S fuel, e :: rest =>
      match findReplacementGroup edits with
      | Some (g, rest) => absorb_loop fuel (absorb_replacement s g fileLines targets) rest fileLines targets generic
      | None =>
          match findPureInsertGroup edits with
          | Some (g, rest) => absorb_loop fuel (absorb_pure s g fileLines generic) rest fileLines targets generic
          | None => absorb_loop fuel (emit_edits s [e]) rest fileLines targets generic
          end
      end
  | _, _ => s
  end.

Definition absorbReplacementBoundaryDuplicates (edits : list HashlineEdit) (fileLines : list string)
    (generic : bool) : absorb_state :=
  absorb_loop (length edits)
    {| nextSyntheticIndex := Z.of_nat (length edits); absorbed := []; emittedAbsorbKeys := []; warnings := [] |}
    edits fileLines (collectAnchorTargetLines edits) generic.
End hashed.
