(* ===== verification/HashlineAbsorb.v ===== *)
(** * Absorption: what it emits ([hashline/apply.ts])

    The loop of [absorbReplacementBoundaryDuplicates] as a relation between the
    edits it reads and those it emits, with the facts about the groups it
    finds and the lines it absorbs. *)

From S2P Require Import Prelude JsNumber JsValue JsText HashlineBigrams Hashline.

Local Open Scope list_scope.
Local Open Scope Z_scope.

(** ** Groups *)

Lemma last_drop_lt {A} (l : list A) k : (k < length l)%nat -> last (drop k l) = last l.
Proof. intros H. rewrite !last_lookup, lookup_drop, length_drop. f_equal. lia. Qed.

Lemma take_inserts_spec n edits l r :
  take_inserts n edits = (l, r) ->
  edits = l.*1 ++ r /\ omap insert_text l.*1 = l.*2 /\
  Forall (fun e => exists a t i, e = insert_edit (before_anchor a) t n i) l.*1.
Proof.
  revert l r. induction edits as [|e edits IH]; intros l r H; simpl in H.
  { simplify_eq. done. }
  destruct e as [[| |a|a] t ln i|a ln i]; simplify_eq; try done.
  case_decide; [|by simplify_eq]. destruct (take_inserts n edits) as [l' r'] eqn:E. simplify_eq.
  destruct (IH _ _ eq_refl) as (-> & Ho & Hf). rewrite fmap_cons. split_and!; [done| |].
  - change (t :: omap insert_text l'.*1 = t :: l'.*2). by rewrite Ho.
  - constructor; [by eauto|done].
Qed.

Lemma take_deletes_spec n edits l r :
  take_deletes n edits = (l, r) -> edits = (delete_of <$> l) ++ r.
Proof.
  revert l r. induction edits as [|e edits IH]; intros l r H; simpl in H; [by simplify_eq|].
  destruct e as [c t ln i|a ln i]; simplify_eq; try done.
  case_decide; [|by simplify_eq]. destruct (take_deletes n edits) as [l' r'] eqn:E. simplify_eq.
  by rewrite (IH _ _ eq_refl).
Qed.

Lemma consecutive_lookup start ds j d :
  consecutive start ds = true -> ds !! j = Some d -> line d.1.1 = start + Z.of_nat j.
Proof.
  revert start j. induction ds as [|x ds IH]; intros start [|j] Hc Hj; simpl in *; simplify_eq.
  - apply andb_true_iff in Hc as [Hc _]. apply bool_decide_eq_true in Hc. lia.
  - apply andb_true_iff in Hc as [_ Hc]. rewrite (IH _ _ Hc Hj). lia.
Qed.

Record group_ok (g : HashlineReplacementGroup) : Prop := {
  go_inserts : Forall (fun e => exists a t i, e = insert_edit (before_anchor a) t (sourceLineNum g) i) (g_inserts g);
  go_first : exists a t i es, g_inserts g = insert_edit (before_anchor a) t (sourceLineNum g) i :: es /\
                              line a = group_start g;
  go_text : omap insert_text (g_inserts g) = replacement g;
  go_deletes : forall j d, deletes g !! j = Some d -> line d.1.1 = group_start g + Z.of_nat j;
  go_nonempty : deletes g <> []
}.

Lemma take_inserts_first n a t i edits :
  exists l r, take_inserts n (insert_edit (before_anchor a) t n i :: edits)
              = ((insert_edit (before_anchor a) t n i, t) :: l, r).
Proof. simpl. rewrite decide_True by done. destruct (take_inserts n edits) as [l r]. by exists l, r. Qed.

Lemma findReplacementGroup_spec edits g rest :
  findReplacementGroup edits = Some (g, rest) ->
  edits = (g_inserts g ++ (delete_of <$> deletes g)) ++ rest /\ group_ok g.
Proof.
  unfold findReplacementGroup. intros H.
  destruct edits as [|[[| |a|a] t n i|a n i] edits]; try done.
  destruct (take_inserts_first n a t i edits) as (l & r1 & Ei). rewrite Ei in H.
  destruct (take_inserts_spec _ _ _ _ Ei) as (He & Ho & Hf).
  destruct (take_deletes n r1) as [dels r2] eqn:Ed. apply take_deletes_spec in Ed as Hd.
  destruct dels as [|d dels]; [done|]. destruct (consecutive (line d.1.1) (d :: dels)) eqn:Hc; [|done].
  cbn [negb] in H. destruct (decide (line a <> line d.1.1)) as [|Hl]; [done|]. apply dec_stable in Hl.
  rewrite He, Hd. clear He Hd Ei Ed. simplify_eq. rewrite app_assoc. split; [done|]. split; try done.
  - by exists a, t, i, (l.*1).
  - intros j x Hj. by apply (consecutive_lookup _ (d :: dels)).
Qed.

Lemma take_run_spec n c edits l r :
  take_run n c edits = (l, r) ->
  edits = l.*1 ++ r /\ omap insert_text l.*1 = l.*2 /\
  Forall (fun e => exists c' t i, e = insert_edit c' t n i /\ cursorMatches c' c = true) l.*1.
Proof.
  revert l r. induction edits as [|e edits IH]; intros l r H; simpl in H; [by simplify_eq|].
  destruct e as [c' t ln i|a ln i]; simplify_eq; try done.
  destruct (bool_decide (ln = n) && cursorMatches c' c) eqn:Hm; [|by simplify_eq].
  apply andb_true_iff in Hm as [Hln Hm]. apply bool_decide_eq_true in Hln as ->.
  destruct (take_run n c edits) as [l' r'] eqn:E. simplify_eq.
  destruct (IH _ _ eq_refl) as (-> & Ho & Hf). rewrite fmap_cons. split_and!; [done| |].
  - change (t :: omap insert_text l'.*1 = t :: l'.*2). by rewrite Ho.
  - constructor; [by eauto 6|done].
Qed.

Record run_ok (g : HashlinePureInsertGroup) : Prop := {
  ro_edits : Forall (fun e => exists c t i, e = insert_edit c t (p_sourceLineNum g) i /\
                                            cursorMatches c (p_cursor g) = true) (p_edits g);
  ro_first : exists t i es, p_edits g = insert_edit (p_cursor g) t (p_sourceLineNum g) i :: es;
  ro_text : omap insert_text (p_edits g) = payload g
}.

Lemma cursorMatches_refl c : cursorMatches c c = true.
Proof. destruct c as [| |a|a]; simpl; try done; by rewrite !bool_decide_true. Qed.

Lemma findPureInsertGroup_spec edits g rest :
  findPureInsertGroup edits = Some (g, rest) -> edits = p_edits g ++ rest /\ run_ok g.
Proof.
  unfold findPureInsertGroup. intros H. destruct edits as [|[c t n i|a n i] edits]; try done.
  destruct (take_run n c (insert_edit c t n i :: edits)) as [run r] eqn:E.
  destruct (take_run_spec _ _ _ _ _ E) as (He & Ho & Hf).
  assert (exists t' i' es, run.*1 = insert_edit c t' n i' :: es) as Hfirst.
  { destruct run as [|[e x] run]; [|simpl in He; simplify_eq; simpl; eauto].
    exfalso. simpl in E. rewrite bool_decide_true, cursorMatches_refl in E by done. simpl in E.
    by destruct (take_run n c edits). }
  assert (rest = r /\ g = {| p_edits := run.*1; p_sourceLineNum := n; p_cursor := c; payload := run.*2 |}) as [-> ->].
  { destruct r as [|[c' t' ln i'|a ln i'] r]; try (case_decide); simplify_eq; done. }
  split; [done|]. by split.
Qed.

(** ** Matching lines *)

Lemma largest_block_spec matches count :
  largest_block matches count = 0%nat \/
  ((2 <= largest_block matches count <= count)%nat /\ matches (largest_block matches count) = true).
Proof.
  induction count as [|[|c] IH]; [by left|by left|].
  change (largest_block matches (S (S c)))
    with (if matches (S (S c)) then S (S c) else largest_block matches (S c)).
  destruct (matches (S (S c))) eqn:Hm; [right; split; [lia|done]|].
  destruct IH as [IH|[IH Ht]]; [by left|right; split; [lia|done]].
Qed.

Lemma block_at_lookup fl start block i l :
  block_at fl start block = true -> block !! i = Some l -> line_at fl (start + Z.of_nat i) = Some l.
Proof.
  unfold block_at. intros Hb Hi. rewrite forallb_forall in Hb.
  specialize (Hb (i, l)). cbn [fst snd] in Hb. apply (bool_decide_eq_true (_ = _)), Hb.
  apply list_elem_of_In, list_elem_of_lookup. exists i. by rewrite list_lookup_imap, Hi.
Qed.

Lemma line_at_Some fl n l : line_at fl n = Some l -> 0 <= n < file_length fl.
Proof.
  unfold line_at, file_length. case_decide; [|done]. intros Hl. apply lookup_lt_Some in Hl. lia.
Qed.

(** The first [p] lines of a payload repeat the [p] lines above line [start]. *)
Definition repeats_above (fl : list string) (start : Z) (pl : list string) (p : nat) : Prop :=
  (p <= length pl)%nat /\ (p = 0%nat \/ Z.of_nat p < start) /\
  forall i, (i < p)%nat -> line_at fl (start - Z.of_nat p - 1 + Z.of_nat i) = pl !! i.

(** Its last [q] lines repeat the [q] lines after line [final]. *)
Definition repeats_below (fl : list string) (final : Z) (pl : list string) (q : nat) : Prop :=
  (q <= length pl)%nat /\ (q = 0%nat \/ final + Z.of_nat q <= file_length fl) /\
  forall i, (i < q)%nat -> line_at fl (final + Z.of_nat i) = pl !! (length pl - q + i)%nat.

Lemma repeats_above_0 fl start pl : repeats_above fl start pl 0.
Proof. split; [lia|]. split; [by left|lia]. Qed.
Lemma repeats_below_0 fl final pl : repeats_below fl final pl 0.
Proof. split; [lia|]. split; [by left|lia]. Qed.

Lemma repeats_above_block fl start pl p :
  (p <= length pl)%nat -> Z.of_nat p < start ->
  block_at fl (start - Z.of_nat p - 1) (take p pl) = true -> repeats_above fl start pl p.
Proof.
  intros Hp Hs Hb. split; [done|]. split; [by right|]. intros i Hi.
  destruct (lookup_lt_is_Some_2 pl i ltac:(lia)) as [l Hl]. rewrite Hl.
  apply (block_at_lookup _ _ _ _ _ Hb). by rewrite lookup_take_lt.
Qed.

Lemma repeats_below_block fl final pl q :
  (q <= length pl)%nat -> final + Z.of_nat q <= file_length fl ->
  block_at fl final (drop (length pl - q) pl) = true -> repeats_below fl final pl q.
Proof.
  intros Hq Hf Hb. split; [done|]. split; [by right|]. intros i Hi.
  destruct (lookup_lt_is_Some_2 pl (length pl - q + i) ltac:(lia)) as [l Hl]. rewrite Hl.
  apply (block_at_lookup _ _ _ _ _ Hb). by rewrite lookup_drop.
Qed.

Lemma repeats_above_1 fl start l rest :
  1 < start -> line_at fl (start - 2) = Some l -> repeats_above fl start (l :: rest) 1.
Proof.
  intros Hs Hl. split; [simpl; lia|]. split; [right; lia|]. intros i Hi.
  replace i with 0%nat by lia.
  by replace (start - Z.of_nat 1 - 1 + Z.of_nat 0) with (start - 2) by lia.
Qed.

Lemma repeats_below_1 fl final pl l :
  last pl = Some l -> line_at fl final = Some l -> repeats_below fl final pl 1.
Proof.
  intros Hp Hl. apply line_at_Some in Hl as Hr. rewrite last_lookup in Hp.
  apply lookup_lt_Some in Hp as Hlt. split; [lia|]. split; [right; lia|]. intros i Hi.
  replace i with 0%nat by lia. rewrite Z.add_0_r, Hl, <- Hp. f_equal. lia.
Qed.

(** ** Boundaries of a replacement *)

Section absorption.
Context (xxHash32 : string -> Z).

Lemma boundary_counts_spec g fl p q :
  boundary_counts g fl = (p, q) ->
  repeats_above fl (group_start g) (replacement g) p /\ repeats_below fl (group_end g) (replacement g) q.
Proof.
  unfold boundary_counts, countMatchingPrefixBlock, countMatchingSuffixBlock. intros H. simplify_eq. split.
  - case_decide as Hd.
    + destruct (largest_block_spec (fun count => block_at fl (group_start g - Z.of_nat count - 1)
        (take count (replacement g))) (length (replacement g) `min` Z.to_nat (group_start g - 1))) as [|[Hr Hm]];
        [done|]. apply repeats_above_block; [lia|lia|done].
    + unfold countMatchingSingleStructuralPrefixBoundary. destruct (replacement g) as [|l rest];
        [apply repeats_above_0|]. destruct (decide (group_start g <= 1)); [apply repeats_above_0|].
      destruct (negb _); [apply repeats_above_0|]. case_decide as Hl; [apply repeats_above_0|].
      destruct (shouldDropSingleStructuralBoundary _ _ _); [|apply repeats_above_0].
      apply repeats_above_1; [lia|done].
  - case_decide as Hd.
    + destruct (largest_block_spec (fun count => block_at fl (group_end g)
        (drop (length (replacement g) - count) (replacement g)))
        (length (replacement g) `min` Z.to_nat (file_length fl - group_end g))) as [|[Hr Hm]];
        [done|]. apply repeats_below_block; [lia|lia|done].
    + unfold countMatchingSingleStructuralSuffixBoundary.
      destruct (last (replacement g)) as [l|] eqn:Hlast; [|apply repeats_below_0].
      destruct (decide (file_length fl <= group_end g)); [apply repeats_below_0|].
      destruct (negb _); [apply repeats_below_0|]. case_decide as Hl; [apply repeats_below_0|].
      destruct (shouldDropSingleStructuralBoundary _ _ _); [|apply repeats_below_0].
      by apply (repeats_below_1 _ _ _ _ Hlast).
Qed.

(** No line of the list is the target of an edit. *)
Definition untargeted_lines (ls targets : list Z) : Prop := Forall (fun n => n ∉ targets) ls.

Lemma hasExternalTargets_false ls targets :
  hasExternalTargets ls targets = false -> untargeted_lines ls targets.
Proof.
  unfold hasExternalTargets, untargeted_lines. intros H. apply Forall_forall. intros n Hn Ht.
  assert (existsb (includes targets) ls = true); [|congruence].
  apply existsb_exists. exists n. split; [by apply list_elem_of_In|by apply includes_true].
Qed.

Lemma safe_counts_spec g fl targets p q :
  safe_counts g fl targets = (p, q) ->
  repeats_above fl (group_start g) (replacement g) p /\
  repeats_below fl (group_end g) (replacement g) q /\
  untargeted_lines (contiguousRange (group_start g - Z.of_nat p) p) targets /\
  untargeted_lines (contiguousRange (group_end g + 1) q) targets.
Proof.
  unfold safe_counts. destruct (boundary_counts g fl) as [p0 q0] eqn:E.
  destruct (boundary_counts_spec _ _ _ _ E) as [Hp Hq]. intros H.
  destruct (hasExternalTargets (contiguousRange (group_start g - Z.of_nat p0) p0) targets) eqn:E1;
    destruct (hasExternalTargets (contiguousRange (group_end g + 1) q0) targets) eqn:E2; simplify_eq;
    split_and!; auto using repeats_above_0, repeats_below_0, hasExternalTargets_false; by constructor.
Qed.

(** ** Boundaries of an insertion *)

Lemma absorb_leading_spec g fl generic above :
  repeats_above fl (above + 2) (payload g) (absorb_leading g fl generic above).
Proof.
  unfold absorb_leading. cbv zeta.
  destruct (decide (_ <> 0%nat)) as [Hd|].
  - destruct generic; [|done].
    match goal with |- context [largest_block ?m ?c] => destruct (largest_block_spec m c) as [|[Hr Hm]]; [done|] end.
    apply repeats_above_block; [lia|lia|].
    by replace (above + 2 - Z.of_nat _ - 1) with (above - Z.of_nat (largest_block (fun count : nat =>
        block_at fl (above - Z.of_nat count + 1) (take count (payload g)))
        (length (payload g) `min` Z.to_nat (above + 1))) + 1) by lia.
  - destruct (payload g) as [|first rest]; [apply repeats_above_0|].
    destruct (bool_decide (0 <= above) && bool_decide (Some first = line_at fl above)) eqn:Ha.
    + apply andb_true_iff in Ha as [H0 Hl]. apply bool_decide_eq_true in H0, Hl.
      assert (repeats_above fl (above + 2) (first :: rest) 1).
      { apply repeats_above_1; [lia|]. by replace (above + 2 - 2) with above by lia. }
      destruct (generic && _ && true && _); [done|].
      destruct (true && _ && _); [done|apply repeats_above_0].
    + rewrite andb_false_r, andb_false_l. rewrite andb_false_l. apply repeats_above_0.
Qed.

Lemma absorb_trailing_spec g fl generic below leading :
  (leading <= length (payload g))%nat -> 0 <= below ->
  repeats_below fl below (payload g) (absorb_trailing g fl generic below leading) /\
  (leading + absorb_trailing g fl generic below leading <= length (payload g))%nat.
Proof.
  intros Hlead Hb. unfold absorb_trailing. cbv zeta. rewrite length_drop.
  destruct (decide (_ <> 0%nat)) as [Hd|].
  - destruct generic; [|done].
    match goal with |- context [largest_block ?m ?c] => destruct (largest_block_spec m c) as [|[Hr Hm]]; [done|] end.
    split; [apply repeats_below_block; [lia|lia|done]|lia].
  - destruct (last (drop leading (payload g))) as [final|] eqn:Hlast;
      [|split; [apply repeats_below_0|lia]].
    assert (leading < length (payload g))%nat as Hlt.
    { destruct (drop leading (payload g)) eqn:E; [done|]. apply (f_equal length) in E.
      rewrite length_drop in E. simpl in E. lia. }
    destruct (bool_decide (below < file_length fl) && bool_decide (Some final = line_at fl below)) eqn:Ha.
    + apply andb_true_iff in Ha as [_ Hl]. apply bool_decide_eq_true in Hl.
      assert (repeats_below fl below (payload g) 1).
      { apply (repeats_below_1 _ _ _ final); [|done]. by rewrite last_drop_lt in Hlast. }
      destruct (_ && generic && true && _); [split; [done|lia]|].
      destruct (true && _ && _); split; auto using repeats_below_0; lia.
    + rewrite andb_false_r, andb_false_l. rewrite andb_false_l. split; [apply repeats_below_0|lia].
Qed.

(** ** What the absorption emits *)

Definition anchored (count : Z) (e : HashlineEdit) : Prop :=
  Forall (fun a => 1 <= line a <= count) (getHashlineEditAnchors e).

(** Edits built from consecutive indexes. *)
Definition synthetic {A} (make : Z -> A -> HashlineEdit) (k : Z) (xs : list A) : list HashlineEdit :=
  imap (fun i x => make (k + Z.of_nat i) x) xs.

(** The deletions of the lines a replacement absorbs. *)
Definition absorb_lines (g : HashlineReplacementGroup) (fl : list string) (k : Z) (ls : list Z) :=
  synthetic (fun i n => deleteEditForAutoAbsorbedLine xxHash32 n (sourceLineNum g) i fl) k ls.

(** The edits read and those emitted for them: a replacement also deletes the
    lines its payload repeats on either side, unless an edit targets one of
    them; an insertion loses the lines that stand on either side of its
    cursor; any other edit is kept. *)
Inductive absorbed_as (fl : list string) (targets : list Z) : list HashlineEdit -> list HashlineEdit -> Prop :=
| absorbed_none : absorbed_as fl targets [] []
| absorbed_edit e es es' : absorbed_as fl targets es es' -> absorbed_as fl targets (e :: es) (e :: es')
| absorbed_replacement g p q k k' es es' :
    group_ok g ->
    repeats_above fl (group_start g) (replacement g) p ->
    repeats_below fl (group_end g) (replacement g) q ->
    untargeted_lines (contiguousRange (group_start g - Z.of_nat p) p) targets ->
    untargeted_lines (contiguousRange (group_end g + 1) q) targets ->
    absorbed_as fl targets es es' ->
    absorbed_as fl targets
      ((g_inserts g ++ (delete_of <$> deletes g)) ++ es)
      (absorb_lines g fl k (contiguousRange (group_start g - Z.of_nat p) p)
         ++ (g_inserts g ++ (delete_of <$> deletes g))
         ++ absorb_lines g fl k' (contiguousRange (group_end g + 1) q) ++ es')
| absorbed_insertion g p q k es es' :
    run_ok g ->
    repeats_above fl ((pureInsertNeighborhood (p_cursor g) fl).1 + 2) (payload g) p ->
    repeats_below fl ((pureInsertNeighborhood (p_cursor g) fl).2) (payload g) q ->
    (p + q <= length (payload g))%nat ->
    absorbed_as fl targets es es' ->
    absorbed_as fl targets
      (p_edits g ++ es)
      (synthetic (fun i t => insert_edit (p_cursor g) t (p_sourceLineNum g) i) k
         (take (length (payload g) - q - p) (drop p (payload g))) ++ es').

(** A run kept whole is emitted edit by edit. *)
Lemma absorbed_run fl targets run es es' :
  absorbed_as fl targets es es' -> absorbed_as fl targets (run ++ es) (run ++ es').
Proof. intros H. induction run; [done|by constructor]. Qed.

Lemma warn_once_absorbed s w k m : absorbed (warn_once s w k m) = absorbed s.
Proof. unfold warn_once. by destruct (w && _). Qed.

Lemma absorb_replacement_absorbed s g fl targets p q :
  safe_counts g fl targets = (p, q) ->
  exists k k', absorbed (absorb_replacement xxHash32 s g fl targets) = absorbed s ++
    absorb_lines g fl k (contiguousRange (group_start g - Z.of_nat p) p)
    ++ (g_inserts g ++ (delete_of <$> deletes g))
    ++ absorb_lines g fl k' (contiguousRange (group_end g + 1) q).
Proof.
  intros E. unfold absorb_replacement. rewrite E. cbv zeta.
  set (s1 := warn_once (warn_once s _ _ _) _ _ _).
  assert (absorbed s1 = absorbed s) as Hs by (unfold s1; by rewrite !warn_once_absorbed).
  unfold emit_synthetic, emit_edits. cbn [absorbed nextSyntheticIndex]. rewrite Hs.
  unfold absorb_lines, synthetic. exists (nextSyntheticIndex s1).
  eexists. rewrite <- !app_assoc. reflexivity.
Qed.

Lemma absorb_pure_absorbed s g fl generic r :
  tryAbsorbPureInsertGroup g fl generic = r ->
  absorbed (absorb_pure s g fl generic) = absorbed s ++ p_edits g \/
  exists k, absorbed (absorb_pure s g fl generic) = absorbed s ++
    synthetic (fun i t => insert_edit (p_cursor g) t (p_sourceLineNum g) i) k (keptPayload r).
Proof.
  intros <-. unfold absorb_pure. cbv zeta. destruct (positive _ || positive _); [right|by left].
  destruct (leadingFileRange _) as [ls le], (trailingFileRange _) as [ts te].
  set (s1 := warn_once (warn_once s _ _ _) _ _ _).
  assert (absorbed s1 = absorbed s) as Hs by (unfold s1; by rewrite !warn_once_absorbed).
  unfold emit_synthetic. cbn [absorbed]. rewrite Hs. unfold synthetic. by exists (nextSyntheticIndex s1).
Qed.

Lemma tryAbsorb_spec g fl generic :
  0 <= (pureInsertNeighborhood (p_cursor g) fl).2 ->
  let r := tryAbsorbPureInsertGroup g fl generic in
  repeats_above fl ((pureInsertNeighborhood (p_cursor g) fl).1 + 2) (payload g) (absorbedLeading r) /\
  repeats_below fl ((pureInsertNeighborhood (p_cursor g) fl).2) (payload g) (absorbedTrailing r) /\
  (absorbedLeading r + absorbedTrailing r <= length (payload g))%nat /\
  keptPayload r = take (length (payload g) - absorbedTrailing r - absorbedLeading r)
                    (drop (absorbedLeading r) (payload g)).
Proof.
  unfold tryAbsorbPureInsertGroup. destruct (pureInsertNeighborhood _ _) as [above below]. cbn [fst snd].
  intros Hb. cbv zeta. cbn [absorbedLeading absorbedTrailing keptPayload].
  pose proof (absorb_leading_spec g fl generic above) as Hl.
  destruct (absorb_trailing_spec g fl generic below _ (proj1 Hl) Hb) as [Ht Hle]. done.
Qed.

(** Enough fuel is one unit per edit: every step consumes at least one. *)
Lemma absorb_loop_spec fl targets generic : forall fuel s edits,
  (length edits <= fuel)%nat ->
  Forall (anchored (file_length fl)) edits ->
  exists es, absorbed (absorb_loop xxHash32 fuel s edits fl targets generic) = absorbed s ++ es /\
             absorbed_as fl targets edits es.
Proof.
  induction fuel as [|fuel IH]; intros s edits Hf Ha.
  { destruct edits; [|simpl in Hf; lia]. exists []. split; [by rewrite app_nil_r|constructor]. }
  destruct edits as [|e rest]; [exists []; split; [by rewrite app_nil_r|constructor]|].
  cbn [absorb_loop]. cbn [length] in Hf.
  destruct (findReplacementGroup (e :: rest)) as [[g r]|] eqn:Eg.
  { destruct (findReplacementGroup_spec _ _ _ Eg) as [He Hg]. rewrite He in Ha |- *.
    apply Forall_app in Ha as [_ Ha]. destruct (go_first _ Hg) as (a & t & i & es0 & Hins & _).
    destruct (safe_counts g fl targets) as [p q] eqn:Es.
    destruct (absorb_replacement_absorbed s g fl targets p q Es) as (k & k' & Hs).
    apply (f_equal length) in He. rewrite Hins in He. cbn [length app] in He. rewrite !length_app in He.
    destruct (IH (absorb_replacement xxHash32 s g fl targets) r) as (es & Hes & Has); [lia|done|].
    destruct (safe_counts_spec _ _ _ _ _ Es) as (H1 & H2 & H3 & H4).
    rewrite Hes, Hs, <- !app_assoc. eexists. split; [reflexivity|].
    rewrite (app_assoc (g_inserts g)), (app_assoc (g_inserts g)).
    by apply absorbed_replacement. }
  destruct (findPureInsertGroup (e :: rest)) as [[g r]|] eqn:Ep.
  { destruct (findPureInsertGroup_spec _ _ _ Ep) as [He Hg].
    destruct (ro_first _ Hg) as (t & i & es0 & Hins).
    assert (anchored (file_length fl) e /\ e = insert_edit (p_cursor g) t (p_sourceLineNum g) i) as [Hae Hee].
    { rewrite Hins in He. cbn [app] in He. simplify_eq. by apply Forall_cons in Ha as [? _]. }
    rewrite He in Ha |- *. apply Forall_app in Ha as [_ Ha].
    apply (f_equal length) in He. rewrite Hins in He. cbn [length app] in He. rewrite !length_app in He.
    destruct (IH (absorb_pure s g fl generic) r) as (es & Hes & Has); [lia|done|].
    rewrite Hes. destruct (absorb_pure_absorbed s g fl generic _ eq_refl) as [->|(k & ->)].
    { rewrite <- app_assoc. eexists. split; [reflexivity|]. by apply absorbed_run. }
    rewrite <- app_assoc. eexists. split; [reflexivity|].
    destruct (tryAbsorb_spec g fl generic) as (H1 & H2 & H3 & ->); [|by apply absorbed_insertion].
    rewrite Hee in Hae. unfold anchored in Hae. unfold file_length.
    destruct (p_cursor g); cbn in Hae |- *; [lia|unfold file_length; lia| |]; apply Forall_cons in Hae as [? _]; lia. }
  apply Forall_cons in Ha as [_ Ha].
  destruct (IH (emit_edits s [e]) rest) as (es & Hes & Has); [lia|done|].
  rewrite Hes. cbn [emit_edits absorbed]. rewrite <- app_assoc. eexists. split; [reflexivity|].
  by apply absorbed_edit.
Qed.
End absorption.
