(* ===== verification/HashlineApply.v ===== *)
(** * Applying hashline edits ([hashline/apply.ts])

    Validated and normalized edits are applied line by line from the bottom of
    the file; the reference definition rewrites every line at once.  The
    origins of the lines, which the source tracks and nobody reads, and the
    in-place update of the edits' cursors are left out. *)

From stdpp Require Import sorting.
From Stdlib Require Import Ascii.
From S2P Require Import Prelude JsNumber JsValue JsText HashlineBigrams Hashline.

Local Open Scope string_scope.
Local Open Scope list_scope.
Local Open Scope Z_scope.

Record HashlineApplyResult := {
  lines : string;
  firstChangedLine : option Z;
  result_warnings : list string
}.

(** [fileLines.splice(i, n, ...repl)] for [0 <= i]. *)
Definition splice (fileLines : list string) (i n : nat) (repl : list string) : list string :=
  take i fileLines ++ repl ++ drop (i + n) fileLines.

Definition insertAtStart (fileLines ls : list string) : list string :=
  match ls with
  | [] => fileLines
  | _ => if decide (fileLines = [EmptyString]) then splice fileLines 0 1 ls else splice fileLines 0 0 ls
  end.

(** The lines and the number of the first line inserted. *)
Definition insertAtEnd (fileLines ls : list string) : option Z * list string :=
  match ls with
  | [] => (None, fileLines)
  | _ =>
      if decide (fileLines = [EmptyString]) then (Some 1, splice fileLines 0 1 ls)
      else
        let insertIndex :=
          if decide (last fileLines = Some EmptyString) then (length fileLines - 1)%nat else length fileLines in
        (Some (Z.of_nat insertIndex + 1), splice fileLines insertIndex 0 ls)
  end.

Section apply.
Context (xxHash32 : string -> Z).

(** An insertion after a line becomes one before the next line, or at the end. *)
Definition normalize_cursor (fileLines : list string) (e : HashlineEdit) : HashlineEdit :=
  match e with
  | insert_edit (after_anchor a) t n i =>
      if decide (file_length fileLines <= line a) then insert_edit eof t n i
      else
        let next := line a + 1 in
        insert_edit (before_anchor {|
          line := next;
          hash := computeLineHash xxHash32 next (default EmptyString (line_at fileLines (next - 1))) |}) t n i
  | _ => e
  end.

Definition bof_text (e : HashlineEdit) : option string :=
  match e with insert_edit bof t _ _ => Some t | _ => None end.
Definition eof_text (e : HashlineEdit) : option string :=
  match e with insert_edit eof t _ _ => Some t | _ => None end.

(** The line an edit of neither kind is bucketed under. *)
Definition bucket_line (e : HashlineEdit) : option Z :=
  match e with
  | delete_edit a _ _ | insert_edit (before_anchor a) _ _ _ => Some (line a)
  | insert_edit (after_anchor _) _ _ _ => Some 0
  | _ => None
  end.

Fixpoint bucketAnchorEditsByLine (edits : list HashlineEdit) (byLine : list (Z * list HashlineEdit))
    : list (Z * list HashlineEdit) :=
  match edits with
  | [] => byLine
  | e :: edits =>
      bucketAnchorEditsByLine edits
        match bucket_line e with
        | Some l => map_set byLine l (default [] (map_get byLine l) ++ [e])
        | None => byLine
        end
  end.

Definition is_delete (e : HashlineEdit) : bool := match e with delete_edit _ _ _ => true | _ => false end.

Definition trackFirstChanged (first : option Z) (n : Z) : option Z :=
  match first with
  | None => Some n
  | Some f => if decide (n < f) then Some n else first
  end.

(** One bucket applied to the lines. *)
Definition apply_bucket (s : list string * option Z) (n : Z) (bucket : list HashlineEdit)
    : list string * option Z :=
  let '(fileLines, first) := s in
  let idx := Z.to_nat (n - 1) in
  let currentLine := default EmptyString (line_at fileLines (n - 1)) in
  let beforeLines := omap insert_text bucket in
  let deleteLine := existsb is_delete bucket in
  if bool_decide (beforeLines = []) && negb deleteLine then s
  else
    let repl := if deleteLine then beforeLines else beforeLines ++ [currentLine] in
    (splice fileLines idx 1 repl, trackFirstChanged first n).

Definition apply_buckets (byLine : list (Z * list HashlineEdit)) (fileLines : list string)
    : list string * option Z :=
  foldl (fun s n => apply_bucket s n (default [] (map_get byLine n))) (fileLines, None)
    (merge_sort Z.ge byLine.*1).

(** The edits that are applied, and the warnings of the absorption. *)
Definition normalized_edits (edits : list HashlineEdit) (fileLines : list string) (generic : bool)
    : list HashlineEdit * list string :=
  let s := absorbReplacementBoundaryDuplicates xxHash32 edits fileLines generic in
  (normalize_cursor fileLines <$> absorbed s, warnings s).

Definition apply_normalized (fileLines : list string) (edits : list HashlineEdit) : list string * option Z :=
  let '(fileLines, first) := apply_buckets (bucketAnchorEditsByLine edits []) fileLines in
  let bofLines := omap bof_text edits in
  let eofLines := omap eof_text edits in
  let '(fileLines, first) :=
    match bofLines with
    | [] => (fileLines, first)
    | _ => (insertAtStart fileLines bofLines, trackFirstChanged first 1)
    end in
  let '(eofChangedLine, fileLines) := insertAtEnd fileLines eofLines in
  (fileLines, match eofChangedLine with Some n => trackFirstChanged first n | None => first end).

Definition applyHashlineEdits (text : string) (edits : list HashlineEdit) (generic : bool)
    : outcome hashline_error HashlineApplyResult :=
  match edits with
  | [] => Ok {| lines := text; firstChangedLine := None; result_warnings := [] |}
  | _ =>
      let fileLines := split_lines text in
      match validateHashlineAnchors xxHash32 edits fileLines with
      | Throw e => Throw e
      | Ok ((_ :: _) as mismatches) => Throw (mismatch mismatches fileLines)
      | Ok [] =>
          let '(normalized, warnings) := normalized_edits edits fileLines generic in
          let '(fileLines, first) := apply_normalized fileLines normalized in
          Ok {| lines := join newline fileLines; firstChangedLine := first; result_warnings := warnings |}
      end
  end.

(** ** Reference: every line rewritten at once *)

Definition targets_line (n : Z) (e : HashlineEdit) : bool :=
  match bucket_line e with Some l => bool_decide (l = n) | None => false end.

Definition at_line (n : Z) (edits : list HashlineEdit) : list HashlineEdit := List.filter (targets_line n) edits.

(** What line [n], with text [l], becomes. *)
Definition segment (edits : list HashlineEdit) (n : Z) (l : string) : list string :=
  omap insert_text (at_line n edits) ++ if existsb is_delete (at_line n edits) then [] else [l].

Definition body (edits : list HashlineEdit) (fileLines : list string) : list string :=
  mjoin (imap (fun i l => segment edits (Z.of_nat i + 1) l) fileLines).

Definition reference (edits : list HashlineEdit) (fileLines : list string) : list string :=
  (insertAtEnd (insertAtStart (body edits fileLines) (omap bof_text edits)) (omap eof_text edits)).2.

(** ** The buckets *)

Lemma at_line_cons n e edits :
  at_line n (e :: edits) = (if targets_line n e then [e] else []) ++ at_line n edits.
Proof. unfold at_line. simpl. by destruct (targets_line n e). Qed.

Lemma bucket_spec edits m n :
  default [] (map_get (bucketAnchorEditsByLine edits m) n) = default [] (map_get m n) ++ at_line n edits.
Proof.
  revert m. induction edits as [|e edits IH]; intros m; [by rewrite app_nil_r|].
  cbn [bucketAnchorEditsByLine]. rewrite IH, at_line_cons. unfold targets_line.
  destruct (bucket_line e) as [l|]; [|done]. case_bool_decide as Hl.
  - subst. rewrite map_get_set_eq. simpl. by rewrite <- app_assoc.
  - by rewrite map_get_set_ne.
Qed.

Lemma bucket_keys edits m :
  NoDup m.*1 ->
  NoDup (bucketAnchorEditsByLine edits m).*1 /\
  (forall n, n ∈ (bucketAnchorEditsByLine edits m).*1 <->
     n ∈ m.*1 \/ exists e, e ∈ edits /\ bucket_line e = Some n).
Proof.
  revert m. induction edits as [|e edits IH]; intros m Hm; cbn [bucketAnchorEditsByLine].
  { split; [done|]. intros n. split; [by left|]. intros [|(e & He & _)]; [done|by apply elem_of_nil in He]. }
  destruct (bucket_line e) as [l|] eqn:Hl.
  - destruct (IH _ (map_set_NoDup m l (default [] (map_get m l) ++ [e]) Hm)) as [Hn Hk]. split; [done|].
    intros n. rewrite Hk, map_set_in. setoid_rewrite elem_of_cons. naive_solver.
  - destruct (IH m Hm) as [Hn Hk]. split; [done|]. intros n. rewrite Hk. setoid_rewrite elem_of_cons. naive_solver.
Qed.

Lemma targets_in n e edits : e ∈ edits -> bucket_line e = Some n -> at_line n edits <> [].
Proof.
  intros He Hl Hn. assert (e ∈ at_line n edits) as H.
  { apply list_elem_of_In, filter_In. split; [by apply list_elem_of_In|].
    unfold targets_line. rewrite Hl. by apply bool_decide_eq_true. }
  rewrite Hn in H. by apply elem_of_nil in H.
Qed.

Lemma untargeted n edits : (forall e, e ∈ edits -> bucket_line e <> Some n) -> at_line n edits = [].
Proof.
  intros H. destruct (at_line n edits) as [|e es] eqn:E; [done|].
  assert (e ∈ at_line n edits) as He by (rewrite E; by left).
  apply list_elem_of_In, filter_In in He as [He Ht]. apply list_elem_of_In in He.
  destruct (H e He). unfold targets_line in Ht. destruct (bucket_line e); [|done].
  by apply bool_decide_eq_true in Ht as ->.
Qed.

(** ** Bottom-up application *)

(** The lines from index [m] on, rewritten. *)
Definition rewritten (edits : list HashlineEdit) (fileLines : list string) (m : nat) : list string :=
  mjoin (imap (fun i l => segment edits (Z.of_nat (m + i) + 1) l) (drop m fileLines)).

Lemma rewritten_step edits fileLines m l :
  fileLines !! m = Some l ->
  rewritten edits fileLines m = segment edits (Z.of_nat m + 1) l ++ rewritten edits fileLines (S m).
Proof.
  intros Hl. unfold rewritten. rewrite (drop_S _ _ _ Hl). rewrite imap_cons. cbn [mjoin list_join].
  rewrite Nat.add_0_r. do 2 f_equal. apply imap_ext. intros i x _. cbn. by rewrite Nat.add_succ_r.
Qed.

Lemma rewritten_all edits fileLines m : (length fileLines <= m)%nat -> rewritten edits fileLines m = [].
Proof. intros H. unfold rewritten. by rewrite drop_ge. Qed.

Lemma body_rewritten edits fileLines : body edits fileLines = rewritten edits fileLines 0.
Proof. unfold body, rewritten. by rewrite drop_0. Qed.

(** Lines no edit targets may be counted on either side. *)
Lemma rewritten_lower edits fileLines n d :
  (n + d <= length fileLines)%nat ->
  (forall k, (n < k <= n + d)%nat -> at_line (Z.of_nat k) edits = []) ->
  take (n + d) fileLines ++ rewritten edits fileLines (n + d)
  = take n fileLines ++ rewritten edits fileLines n.
Proof.
  induction d as [|d IH]; intros Hd Hk; [by rewrite Nat.add_0_r|].
  rewrite <- IH; [|lia|intros; apply Hk; lia].
  destruct (lookup_lt_is_Some_2 fileLines (n + d)) as [l Hl]; [lia|].
  rewrite (rewritten_step _ _ _ _ Hl), Nat.add_succ_r, (take_S_r _ _ _ Hl), <- app_assoc. f_equal.
  unfold segment. replace (Z.of_nat (n + d) + 1) with (Z.of_nat (S (n + d))) by lia.
  by rewrite Hk by lia.
Qed.

Lemma line_at_prefix fileLines rest n l :
  fileLines !! n = Some l -> (n < length fileLines)%nat ->
  line_at (take (S n) fileLines ++ rest) (Z.of_nat n) = Some l.
Proof.
  intros Hl Hn. unfold line_at. rewrite decide_True, Nat2Z.id by lia.
  rewrite lookup_app_l by (rewrite length_take; lia). rewrite lookup_take_lt by lia. done.
Qed.

(** One bucket rewrites one line. *)
Lemma apply_bucket_spec edits fileLines n first :
  (n < length fileLines)%nat ->
  (apply_bucket (take (S n) fileLines ++ rewritten edits fileLines (S n), first) (Z.of_nat n + 1)
     (at_line (Z.of_nat n + 1) edits)).1
  = take n fileLines ++ rewritten edits fileLines n.
Proof.
  intros Hn. destruct (lookup_lt_is_Some_2 fileLines n Hn) as [l Hl].
  rewrite (rewritten_step _ _ _ _ Hl). unfold apply_bucket, segment.
  replace (Z.of_nat n + 1 - 1) with (Z.of_nat n) by lia. rewrite (line_at_prefix _ _ _ _ Hl Hn).
  set (ins := omap insert_text _). set (del := existsb is_delete _). cbn [default from_option].
  assert (take (S n) fileLines = take n fileLines ++ [l]) as Ht by (by apply take_S_r).
  destruct (bool_decide (ins = []) && negb del) eqn:Hskip; simpl.
  - apply andb_true_iff in Hskip as [Hi Hd]. apply bool_decide_eq_true in Hi. apply negb_true_iff in Hd.
    rewrite Hi, Hd, Ht. simpl. by rewrite <- app_assoc.
  - unfold splice. rewrite Nat2Z.id, Ht, <- app_assoc.
    assert (length (take n fileLines) = n) as Hlen by (rewrite length_take; lia).
    rewrite take_app_le, take_take, Nat.min_id by (rewrite Hlen; lia). f_equal.
    rewrite drop_app_ge by (rewrite Hlen; lia). rewrite Hlen. replace (n + 1 - n)%nat with 1%nat by lia.
    cbn [app]. rewrite skipn_cons, drop_0. destruct del; by rewrite ?app_nil_r, <- ?app_assoc.
Qed.

Lemma apply_sorted edits fileLines byLine :
  (forall n, default [] (map_get byLine n) = at_line n edits) ->
  forall keys m first,
  StronglySorted Z.gt keys -> (m <= length fileLines)%nat ->
  (forall k, k ∈ keys -> 1 <= k <= Z.of_nat m) ->
  (forall n, 1 <= n <= Z.of_nat m -> n ∉ keys -> at_line n edits = []) ->
  (foldl (fun s n => apply_bucket s n (default [] (map_get byLine n)))
     (take m fileLines ++ rewritten edits fileLines m, first) keys).1
  = rewritten edits fileLines 0.
Proof.
  intros Hby. induction keys as [|k keys IH]; intros m first Hs Hm Hk Hn.
  { cbn [foldl fst]. rewrite (rewritten_lower _ _ 0 m); [done|done|].
    intros n Hrange. apply Hn; [lia|apply not_elem_of_nil]. }
  apply StronglySorted_inv in Hs as [Hs Hlt]. rewrite Forall_forall in Hlt.
  destruct (Hk k ltac:(by left)) as [Hk1 Hk2]. set (n := Z.to_nat (k - 1)).
  assert (k = Z.of_nat n + 1) as Hkn by lia. cbn [foldl]. rewrite Hby.
  replace m with (S n + (m - S n))%nat at 1 2 by lia.
  rewrite rewritten_lower; [|lia|].
  2: { intros i Hi. apply Hn; [lia|]. rewrite elem_of_cons. intros [|Hin]; [lia|]. specialize (Hlt _ Hin). lia. }
  pose proof (apply_bucket_spec edits fileLines n first ltac:(lia)) as Hb. rewrite <- Hkn in Hb.
  destruct (apply_bucket _ k _) as [fl' first']. cbn [fst] in Hb. subst fl'.
  apply IH; [done|lia| |].
  - intros k' Hin. specialize (Hlt _ Hin). specialize (Hk k' ltac:(by right)). lia.
  - intros i Hi Hnin. apply Hn; [lia|]. rewrite elem_of_cons. intros [->|]; [lia|done].
Qed.

Lemma keys_descending (ks : list Z) : NoDup ks -> StronglySorted Z.gt (merge_sort Z.ge ks).
Proof.
  intros Hn. assert (NoDup (merge_sort Z.ge ks)) as Hn' by (by rewrite merge_sort_Permutation).
  assert (StronglySorted Z.ge (merge_sort Z.ge ks)) as Hs.
  { apply StronglySorted_merge_sort; [intros x y z; lia|]. intros x y. lia. }
  induction Hs as [|k l Hs IH Hall]; [constructor|]. apply NoDup_cons in Hn' as [Hk Hn'].
  constructor; [by apply IH|]. rewrite Forall_forall in *. intros x Hx. specialize (Hall x Hx).
  assert (x <> k) by (by intros ->). lia.
Qed.

(** Every edit is bucketed under a line of the file. *)
Definition in_file (count : Z) (e : HashlineEdit) : Prop :=
  forall n, bucket_line e = Some n -> 1 <= n <= count.

Lemma apply_buckets_body edits fileLines :
  Forall (in_file (file_length fileLines)) edits ->
  (apply_buckets (bucketAnchorEditsByLine edits []) fileLines).1 = body edits fileLines.
Proof.
  intros Hin. rewrite Forall_forall in Hin. unfold apply_buckets. rewrite body_rewritten.
  destruct (bucket_keys edits [] (NoDup_nil_2 (A := Z))) as [Hn Hk].
  replace fileLines with (take (length fileLines) fileLines ++ rewritten edits fileLines (length fileLines)) at 1
    by (rewrite rewritten_all, app_nil_r by done; apply firstn_all).
  apply apply_sorted.
  - intros n. by rewrite bucket_spec.
  - by apply keys_descending.
  - done.
  - intros k Hkin. rewrite merge_sort_Permutation in Hkin. apply Hk in Hkin as [Hkin|(e & He & Hl)].
    + by apply elem_of_nil in Hkin.
    + apply (Hin e He k Hl).
  - intros n _ Hnin. apply untargeted. intros e He Hl. apply Hnin. rewrite merge_sort_Permutation.
    apply Hk. right. by exists e.
Qed.

(** The splices from the bottom up are the reference. *)
Lemma apply_normalized_reference edits fileLines :
  Forall (in_file (file_length fileLines)) edits ->
  (apply_normalized fileLines edits).1 = reference edits fileLines.
Proof.
  intros Hin. unfold apply_normalized, reference. rewrite <- (apply_buckets_body _ _ Hin).
  destruct (apply_buckets _ _) as [fl first]. cbn [fst].
  destruct (omap bof_text edits) as [|b bs]; cbv beta iota zeta.
  - change (insertAtStart fl []) with fl. by destruct (insertAtEnd fl (omap eof_text edits)).
  - by destruct (insertAtEnd (insertAtStart fl (b :: bs)) (omap eof_text edits)).
Qed.
End apply.
