(* ===== verification/HashlineEdits.v ===== *)
(** * What hashline edits promise ([hashline/anchors.ts], [apply.ts])

    Anchors are checked before anything is changed, the result is the
    reference rewriting of the file, and a replacement keeps the lines around
    its range as long as the lines it absorbs do not overlap in its payload. *)

From Stdlib Require Import Ascii.
From S2P Require Import Prelude JsNumber JsValue JsText HashlineBigrams Hashline HashlineAbsorb HashlineApply.

Local Open Scope string_scope.
Local Open Scope list_scope.
Local Open Scope Z_scope.

Section edits.
Context (xxHash32 : string -> Z).

(** ** Anchors *)

Definition in_range (fl : list string) (a : Anchor) : Prop := 1 <= line a <= file_length fl.

Definition current_hash (fl : list string) (a : Anchor) : string :=
  computeLineHash xxHash32 (line a) (default EmptyString (line_at fl (line a - 1))).

Definition stale (fl : list string) (a : Anchor) : bool :=
  negb (bool_decide (hash a = RANGE_INTERIOR_HASH)) && negb (bool_decide (current_hash fl a = hash a)).

Definition mismatch_of (fl : list string) (a : Anchor) : HashMismatch :=
  {| m_line := line a; m_expected := hash a; m_actual := current_hash fl a |}.

Lemma check_anchors_step fl a anchors ms :
  in_range fl a ->
  check_anchors xxHash32 (a :: anchors) fl ms
  = check_anchors xxHash32 anchors fl (ms ++ (mismatch_of fl <$> List.filter (stale fl) [a])).
Proof.
  intros Ha. cbn [check_anchors]. rewrite decide_False by (unfold in_range in Ha; lia).
  cbn [List.filter]. unfold stale.
  destruct (decide (hash a = RANGE_INTERIOR_HASH)) as [Hi|Hi].
  { rewrite bool_decide_true by done. by rewrite app_nil_r. }
  rewrite (bool_decide_false (hash a = _)) by done. cbn [negb andb]. cbv zeta.
  change (computeLineHash xxHash32 (line a) (default EmptyString (line_at fl (line a - 1)))) with (current_hash fl a).
  destruct (decide (current_hash fl a = hash a)) as [Hh|Hh].
  - rewrite bool_decide_true by done. by rewrite app_nil_r.
  - by rewrite bool_decide_false by done.
Qed.

Lemma check_anchors_spec fl anchors ms :
  match check_anchors xxHash32 anchors fl ms with
  | Ok ms' => Forall (in_range fl) anchors /\
              ms' = ms ++ (mismatch_of fl <$> List.filter (stale fl) anchors)
  | Throw e => exists a, a ∈ anchors /\ ~ in_range fl a /\ e = line_missing (line a) (file_length fl)
  end.
Proof.
  revert ms. induction anchors as [|a anchors IH]; intros ms; [by rewrite app_nil_r|].
  destruct (decide (line a < 1 \/ file_length fl < line a)) as [Hr|Hr].
  { cbn [check_anchors]. rewrite decide_True by done. exists a.
    split; [by left|]. split; [unfold in_range; lia|done]. }
  assert (in_range fl a) as Ha by (unfold in_range; lia).
  rewrite check_anchors_step by done. specialize (IH (ms ++ (mismatch_of fl <$> List.filter (stale fl) [a]))).
  destruct (check_anchors _ _ _ _) as [ms'|e].
  - destruct IH as [Hf ->]. split; [by constructor|].
    rewrite <- app_assoc, <- fmap_app. do 2 f_equal. simpl. by destruct (stale fl a).
  - destruct IH as (b & Hb & Hn & He). exists b. split; [by right|done].
Qed.

(** ** The edits stay in the file *)

Lemma in_file_anchored fl e :
  anchored (file_length fl) e -> in_file (file_length fl) (normalize_cursor xxHash32 fl e).
Proof.
  unfold anchored, in_file. intros Ha n.
  destruct e as [[| |a|a] t m i|a m i]; cbn [normalize_cursor getHashlineEditAnchors] in *; try done.
  - cbn. intros [= <-]. by apply Forall_cons in Ha as [? _].
  - apply Forall_cons in Ha as [? _]. case_decide; [done|]. cbn. intros [= <-]. lia.
  - cbn. intros [= <-]. by apply Forall_cons in Ha as [? _].
Qed.

Lemma synthetic_Forall {A} (P : HashlineEdit -> Prop) (make : Z -> A -> HashlineEdit) k xs :
  (forall i x, x ∈ xs -> P (make i x)) -> Forall P (synthetic make k xs).
Proof.
  intros H. apply Forall_lookup. intros j e He. unfold synthetic in He.
  rewrite list_lookup_imap in He. destruct (xs !! j) as [x|] eqn:Hx; [|done]. simpl in He. simplify_eq.
  apply H. by apply (list_elem_of_lookup_2 _ j).
Qed.

Lemma contiguousRange_in n start count :
  n ∈ contiguousRange start count <-> start <= n < start + Z.of_nat count.
Proof.
  unfold contiguousRange. rewrite list_elem_of_fmap. setoid_rewrite elem_of_seq. split.
  - intros (i & -> & Hi). lia.
  - intros H. exists (Z.to_nat (n - start)). split; lia.
Qed.

Lemma group_ends g :
  group_ok g -> group_end g = group_start g + Z.of_nat (length (deletes g)) - 1 /\ (0 < length (deletes g))%nat.
Proof.
  intros Hg. assert (deletes g <> []) as Hne by apply (go_nonempty _ Hg).
  assert (0 < length (deletes g))%nat by (destruct (deletes g); [done|simpl; lia]).
  split; [|done]. unfold group_end. rewrite last_lookup.
  destruct (lookup_lt_is_Some_2 (deletes g) (pred (length (deletes g)))) as [d Hd]; [lia|].
  rewrite Hd, (go_deletes _ Hg _ _ Hd). lia.
Qed.

(** The range of a group whose anchors are in the file. *)
Lemma group_range count g :
  group_ok g -> Forall (anchored count) (g_inserts g ++ (delete_of <$> deletes g)) ->
  1 <= group_start g /\ group_end g <= count.
Proof.
  intros Hg Hs. destruct (group_ends _ Hg) as [Hend Hlen]. apply Forall_app in Hs as [Hi Hd]. split.
  - destruct (go_first _ Hg) as (a & t & i & es0 & Hgi & Hl). rewrite Hgi in Hi.
    apply Forall_cons in Hi as [Hi _]. apply Forall_cons in Hi as [Hi _]. lia.
  - destruct (lookup_lt_is_Some_2 (deletes g) (pred (length (deletes g)))) as [d Hl]; [lia|].
    rewrite Forall_forall in Hd. assert (anchored count (delete_of d)) as Hd'.
    { apply Hd, list_elem_of_fmap. exists d. split; [done|]. by apply (list_elem_of_lookup_2 _ _ _ Hl). }
    apply Forall_cons in Hd' as [Hd' _]. rewrite (go_deletes _ Hg _ _ Hl) in Hd'. lia.
Qed.

Lemma absorbed_anchored fl targets edits es :
  absorbed_as xxHash32 fl targets edits es ->
  Forall (anchored (file_length fl)) edits -> Forall (anchored (file_length fl)) es.
Proof.
  intros H. induction H as [|e es es' Hes IH|g p q k k' es es' Hg Hp Hq Hua Hub Hes IH|g p q k es es' Hg Hp Hq Hpq Hes IH];
    intros Ha.
  - constructor.
  - apply Forall_cons in Ha as [He Ha]. constructor; auto.
  - apply Forall_app in Ha as [Hs Ha].
    destruct (group_ends _ Hg) as [Hend Hlen].
    destruct (group_range _ _ Hg Hs) as [Hstart Hend'].
    destruct Hp as (_ & Hp & _), Hq as (_ & Hq & _).
    repeat (apply Forall_app; split); auto.
    + apply synthetic_Forall. intros i n Hn. apply contiguousRange_in in Hn. constructor; [simpl; lia|done].
    + by apply Forall_app in Hs as [? _].
    + by apply Forall_app in Hs as [_ ?].
    + apply synthetic_Forall. intros i n Hn. apply contiguousRange_in in Hn. constructor; [simpl; lia|done].
  - apply Forall_app in Ha as [Hr Ha]. apply Forall_app. split; [|auto].
    apply synthetic_Forall. intros j t _. destruct (ro_first _ Hg) as (t0 & i0 & es0 & He).
    rewrite He in Hr. apply Forall_cons in Hr as [Hr _]. done.
Qed.

(** ** The result *)

Lemma anchors_edits fl edits :
  Forall (in_range fl) (edits ≫= getHashlineEditAnchors) -> Forall (anchored (file_length fl)) edits.
Proof.
  induction edits as [|e edits IH]; [constructor|]. rewrite bind_cons. intros H.
  apply Forall_app in H as [He H]. constructor; [done|auto].
Qed.

(** ** One replacement *)

Lemma mjoin_imap_id {A} (f : nat -> A -> list A) l :
  (forall i x, l !! i = Some x -> f i x = [x]) -> mjoin (imap f l) = l.
Proof.
  revert f. induction l as [|x l IH]; intros f H; [done|]. rewrite imap_cons. cbn [mjoin list_join].
  rewrite (H 0%nat x eq_refl). cbn [app]. f_equal. apply IH. intros i y Hy. by apply (H (S i)).
Qed.

Lemma mjoin_imap_nil {A B} (f : nat -> A -> list B) l :
  (forall i x, l !! i = Some x -> f i x = []) -> mjoin (imap f l) = [].
Proof.
  revert f. induction l as [|x l IH]; intros f H; [done|]. rewrite imap_cons. cbn [mjoin list_join].
  rewrite (H 0%nat x eq_refl). cbn [app]. apply IH. intros i y Hy. by apply (H (S i)).
Qed.

Lemma mjoin_imap_one {A B} (f : nat -> A -> list B) l k ys :
  (k < length l)%nat -> (forall i x, l !! i = Some x -> f i x = if decide (i = k) then ys else []) ->
  mjoin (imap f l) = ys.
Proof.
  revert f k. induction l as [|x l IH]; intros f k Hk H; [simpl in Hk; lia|].
  rewrite imap_cons. cbn [mjoin list_join]. rewrite (H 0%nat x eq_refl). destruct k as [|k].
  - rewrite decide_True, mjoin_imap_nil, app_nil_r; [done| |done]. intros i y Hy.
    etrans; [apply (H (S i) y Hy)|]. by rewrite decide_False.
  - rewrite decide_False by done. apply (IH _ k); [simpl in Hk; lia|]. intros i y Hy.
    etrans; [apply (H (S i) y Hy)|].
    destruct (decide (i = k)); [by rewrite decide_True by congruence|by rewrite decide_False by congruence].
Qed.

(** Lines [lo..hi] deleted and [ys] inserted before line [m] among them. *)
Lemma body_range es fl lo m hi ys :
  1 <= lo <= m -> m <= hi <= file_length fl ->
  (forall n l, segment es n l =
     (if decide (n = m) then ys else []) ++ (if decide (lo <= n <= hi) then [] else [l])) ->
  body es fl = take (Z.to_nat (lo - 1)) fl ++ ys ++ drop (Z.to_nat hi) fl.
Proof.
  unfold file_length. intros Hlo Hhi Hs. unfold body.
  set (a := Z.to_nat (lo - 1)). set (b := Z.to_nat hi).
  rewrite <- (take_drop a fl) at 1. rewrite imap_app, join_app. f_equal.
  { apply mjoin_imap_id. intros i x Hx. apply lookup_lt_Some in Hx. rewrite length_take in Hx.
    rewrite Hs, decide_False, decide_False by lia. done. }
  rewrite length_take, Nat.min_l by lia.
  rewrite <- (take_drop (b - a) (drop a fl)) at 1. rewrite drop_drop. replace (a + (b - a))%nat with b by lia.
  rewrite imap_app, join_app. f_equal.
  - apply (mjoin_imap_one _ _ (Z.to_nat (m - lo))); [rewrite length_take, length_drop; lia|].
    intros i x Hx. apply lookup_lt_Some in Hx. rewrite length_take, length_drop in Hx.
    unfold compose. rewrite Hs. rewrite (decide_True (P := lo <= _ <= hi)) by lia. rewrite app_nil_r.
    destruct (decide (i = _)); [rewrite decide_True by lia|rewrite decide_False by lia]; done.
  - apply mjoin_imap_id. intros i x Hx. unfold compose. rewrite Hs, length_take, length_drop.
    rewrite (decide_False (P := _ = m)), decide_False by lia. done.
Qed.

Lemma at_line_app n es es' : at_line n (es ++ es') = at_line n es ++ at_line n es'.
Proof. unfold at_line. apply List.filter_app. Qed.

Lemma at_line_deletes n ds :
  Forall (fun e => is_delete e = true) ds ->
  omap insert_text (at_line n ds) = [] /\ existsb is_delete (at_line n ds) = includes (omap bucket_line ds) n.
Proof.
  intros H. induction H as [|e ds He H [IHi IHd]]; [done|]. rewrite at_line_cons.
  destruct e as [c t m i|a m i]; [done|]. unfold targets_line. cbn [bucket_line]. case_bool_decide as Hl.
  - cbn [app]. split; [done|]. cbn [existsb is_delete orb]. symmetry. apply includes_true.
    change (omap bucket_line (delete_edit a m i :: ds)) with (line a :: omap bucket_line ds). subst. by left.
  - cbn [app]. split; [done|]. rewrite IHd.
    change (omap bucket_line (delete_edit a m i :: ds)) with (line a :: omap bucket_line ds).
    unfold includes. apply bool_decide_ext. rewrite elem_of_cons. naive_solver.
Qed.

Lemma at_line_inserts n m es :
  Forall (fun e => is_delete e = false /\ bucket_line e = Some m) es ->
  at_line n es = if decide (n = m) then es else [].
Proof.
  intros H. induction H as [|e es [_ He] H IH]; [by case_decide|]. rewrite at_line_cons, IH. unfold targets_line.
  rewrite He. case_decide; case_bool_decide; by subst.
Qed.

Lemma synthetic_deletes g fl k ls :
  Forall (fun e => is_delete e = true) (absorb_lines xxHash32 g fl k ls) /\
  omap bucket_line (absorb_lines xxHash32 g fl k ls) = ls.
Proof.
  split; [by apply synthetic_Forall|]. unfold absorb_lines, synthetic, deleteEditForAutoAbsorbedLine.
  revert k. induction ls as [|n ls IH]; intros k; [done|]. rewrite imap_cons.
  match goal with |- omap _ (delete_edit _ _ _ :: ?r) = _ =>
    change (n :: omap bucket_line r = n :: ls) end. f_equal. etrans; [|apply (IH (k + 1))]. f_equal.
  apply imap_ext. intros i x _. unfold compose. f_equal. lia.
Qed.

Lemma group_delete_lines g n :
  group_ok g -> includes (omap bucket_line (delete_of <$> deletes g)) n
                = bool_decide (group_start g <= n <= group_end g).
Proof.
  intros Hg. destruct (group_ends _ Hg) as [Hend Hlen]. unfold includes. apply bool_decide_ext.
  rewrite list_elem_of_omap. setoid_rewrite list_elem_of_fmap. split.
  - intros (e & (d & -> & Hd) & Hl). apply list_elem_of_lookup in Hd as [j Hj]. cbn in Hl. simplify_eq.
    apply lookup_lt_Some in Hj as Hlt. rewrite (go_deletes _ Hg _ _ Hj). lia.
  - intros Hn. destruct (lookup_lt_is_Some_2 (deletes g) (Z.to_nat (n - group_start g))) as [d Hd]; [lia|].
    exists (delete_of d). split; [exists d; split; [done|by apply (list_elem_of_lookup_2 _ _ _ Hd)]|].
    cbn. rewrite (go_deletes _ Hg _ _ Hd). f_equal. lia.
Qed.

(** The inserts of the group stand before its first line. *)
Definition same_anchor (g : HashlineReplacementGroup) : Prop :=
  Forall (fun e => getAnchorTargetLine e = Some (group_start g)) (g_inserts g).

Lemma group_insert_lines g :
  group_ok g -> same_anchor g ->
  Forall (fun e => is_delete e = false /\ bucket_line e = Some (group_start g)) (g_inserts g).
Proof.
  intros Hg Ha. pose proof (go_inserts _ Hg) as Hi. apply Forall_forall. intros e He.
  unfold same_anchor in Ha. rewrite Forall_forall in Ha, Hi.
  destruct (Hi e He) as (a & t & i & ->). specialize (Ha _ He). done.
Qed.

(** What the edits of a replacement, absorption included, do to the file. *)
Lemma replacement_body g fl p q k k' :
  group_ok g -> same_anchor g -> 1 <= group_start g -> group_end g <= file_length fl ->
  repeats_above fl (group_start g) (replacement g) p ->
  repeats_below fl (group_end g) (replacement g) q ->
  body (absorb_lines xxHash32 g fl k (contiguousRange (group_start g - Z.of_nat p) p)
          ++ (g_inserts g ++ (delete_of <$> deletes g))
          ++ absorb_lines xxHash32 g fl k' (contiguousRange (group_end g + 1) q)) fl
  = take (Z.to_nat (group_start g - Z.of_nat p - 1)) fl ++ replacement g
      ++ drop (Z.to_nat (group_end g + Z.of_nat q)) fl.
Proof.
  intros Hg Ha Hstart Hend (_ & Hp & _) (_ & Hq & _). destruct (group_ends _ Hg) as [Hge Hlen].
  apply (body_range _ _ _ (group_start g)); [lia|lia|]. intros n l. unfold segment.
  rewrite !at_line_app, !omap_app, !existsb_app.
  destruct (synthetic_deletes g fl k (contiguousRange (group_start g - Z.of_nat p) p)) as [Hd1 Hl1].
  destruct (synthetic_deletes g fl k' (contiguousRange (group_end g + 1) q)) as [Hd2 Hl2].
  destruct (at_line_deletes n _ Hd1) as [-> ->]. destruct (at_line_deletes n _ Hd2) as [-> ->].
  destruct (at_line_deletes n (delete_of <$> deletes g)) as [-> ->]; [by apply Forall_fmap, Forall_true|].
  rewrite (at_line_inserts n _ _ (group_insert_lines _ Hg Ha)), Hl1, Hl2, group_delete_lines by done.
  cbn [app]. rewrite !app_nil_r. f_equal.
  - case_decide; [by apply (go_text _ Hg)|done].
  - assert (existsb is_delete (if decide (n = group_start g) then g_inserts g else []) = false) as ->.
    { case_decide; [|done]. pose proof (group_insert_lines _ Hg Ha) as Hi.
      induction Hi as [|e es [He _] _ IH]; [done|]. cbn [existsb]. by rewrite He. }
    unfold includes. cbn [orb].
    destruct (decide (group_start g - Z.of_nat p <= n <= group_end g + Z.of_nat q)) as [Hr|Hr].
    + match goal with |- (if ?b then _ else _) = _ => assert (b = true) as ->; [|done] end.
      rewrite !orb_true_iff, !bool_decide_eq_true, !contiguousRange_in. lia.
    + match goal with |- (if ?b then _ else _) = _ => assert (b = false) as ->; [|done] end.
      rewrite !orb_false_iff, !bool_decide_eq_false, !contiguousRange_in. lia.
Qed.

Lemma split_three {A} p q (l : list A) :
  (p + q <= length l)%nat -> l = take p l ++ take (length l - q - p) (drop p l) ++ drop (length l - q) l.
Proof.
  intros H. etrans; [symmetry; apply (take_drop p)|]. f_equal.
  etrans; [symmetry; apply (take_drop (length l - q - p))|]. f_equal. rewrite drop_drop. f_equal. lia.
Qed.

(** The lines absorbed are put back by the payload. *)
Lemma absorbed_lines_back fl start pl p final q :
  1 <= start -> 0 <= final -> (p + q <= length pl)%nat ->
  repeats_above fl start pl p -> repeats_below fl final pl q -> final <= file_length fl -> start - 1 <= file_length fl ->
  take (Z.to_nat (start - Z.of_nat p - 1)) fl ++ pl ++ drop (Z.to_nat (final + Z.of_nat q)) fl
  = take (Z.to_nat (start - 1)) fl ++ take (length pl - q - p) (drop p pl) ++ drop (Z.to_nat final) fl.
Proof.
  unfold file_length. intros Hs Hf Hpq (Hp1 & Hp2 & Hp3) (Hq1 & Hq2 & Hq3) Hfl Hsl.
  assert (take p pl = take p (drop (Z.to_nat (start - Z.of_nat p - 1)) fl)) as Ha.
  { apply list_eq. intros i. destruct (decide (i < p)%nat) as [Hi|Hi].
    - rewrite !lookup_take_lt, lookup_drop, <- Hp3 by done. unfold line_at. rewrite decide_True by lia. f_equal. lia.
    - by rewrite !lookup_take_ge by lia. }
  assert (drop (length pl - q) pl = take q (drop (Z.to_nat final) fl)) as Hb.
  { apply list_eq. intros i. rewrite lookup_drop. destruct (decide (i < q)%nat) as [Hi|Hi].
    - rewrite lookup_take_lt, lookup_drop, <- Hq3 by done. unfold line_at. rewrite decide_True by lia. f_equal. lia.
    - rewrite lookup_take_ge by lia. apply lookup_ge_None_2. lia. }
  rewrite (split_three p q pl Hpq) at 1. rewrite Ha, Hb, <- !app_assoc.
  replace (drop (Z.to_nat (final + Z.of_nat q)) fl) with (drop q (drop (Z.to_nat final) fl))
    by (rewrite drop_drop; f_equal; lia).
  rewrite take_drop. rewrite app_assoc. f_equal.
  replace (Z.to_nat (start - 1)) with (Z.to_nat (start - Z.of_nat p - 1) + p)%nat by lia.
  by rewrite take_take_drop.
Qed.

(** The edits applied to the lines themselves, not to the ends of the file. *)
Definition on_line (e : HashlineEdit) : Prop :=
  match e with
  | delete_edit _ _ _ | insert_edit (before_anchor _) _ _ _ => True
  | _ => False
  end.

Lemma on_line_normalized fl es :
  Forall on_line es ->
  normalize_cursor xxHash32 fl <$> es = es /\ omap bof_text es = [] /\ omap eof_text es = [].
Proof.
  intros H. induction H as [|e es He H (IHn & IHb & IHe)]; [done|]. rewrite fmap_cons, IHn.
  destruct e as [[| |a|a] t n i|a n i]; try done; by split_and!.
Qed.

Lemma replacement_on_line g fl k ks k' ks' :
  group_ok g ->
  Forall on_line (absorb_lines xxHash32 g fl k ks
    ++ (g_inserts g ++ (delete_of <$> deletes g)) ++ absorb_lines xxHash32 g fl k' ks').
Proof.
  intros Hg. rewrite !Forall_app, Forall_fmap. split_and!; try by apply synthetic_Forall.
  - eapply Forall_impl; [apply (go_inserts _ Hg)|]. by intros e (a & t & i & ->).
  - by apply Forall_true.
Qed.

(** An accepted replacement alone in its edit list. *)
Lemma single_replacement text edits g generic r p q :
  let fl := split_lines text in
  findReplacementGroup edits = Some (g, []) -> same_anchor g ->
  safe_counts g fl (collectAnchorTargetLines edits) = (p, q) ->
  applyHashlineEdits xxHash32 text edits generic = Ok r ->
  lines r = join newline
    (take (Z.to_nat (group_start g - Z.of_nat p - 1)) fl ++ replacement g
       ++ drop (Z.to_nat (group_end g + Z.of_nat q)) fl) /\
  group_ok g /\ 1 <= group_start g /\ group_end g <= file_length fl /\
  repeats_above fl (group_start g) (replacement g) p /\ repeats_below fl (group_end g) (replacement g) q.
Proof.
  intros fl Hf Hsame Hc. destruct (findReplacementGroup_spec _ _ _ Hf) as [He Hg]. rewrite app_nil_r in He.
  destruct (safe_counts_spec _ _ _ _ _ Hc) as (Hp & Hq & _).
  destruct (group_ends _ Hg) as [Hend Hlen].
  destruct (absorb_replacement_absorbed xxHash32
    {| nextSyntheticIndex := Z.of_nat (length edits); absorbed := []; emittedAbsorbKeys := []; warnings := [] |}
    g fl _ _ _ Hc) as (k & k' & Hs).
  unfold applyHashlineEdits. fold fl. destruct edits as [|e edits0]; [done|].
  set (edits := e :: edits0) in *. unfold validateHashlineAnchors.
  pose proof (check_anchors_spec fl (edits ≫= getHashlineEditAnchors) []) as Hr.
  destruct (check_anchors _ _ _ _) as [[|? ?]|]; [|done|done]. destruct Hr as [Hr _].
  apply anchors_edits in Hr.
  assert (absorbed (absorbReplacementBoundaryDuplicates xxHash32 edits fl generic)
    = absorb_lines xxHash32 g fl k (contiguousRange (group_start g - Z.of_nat p) p)
        ++ (g_inserts g ++ (delete_of <$> deletes g))
        ++ absorb_lines xxHash32 g fl k' (contiguousRange (group_end g + 1) q)) as Habs.
  { unfold absorbReplacementBoundaryDuplicates. change (length edits) with (S (length edits0)) at 1.
    unfold edits at 2. cbn [absorb_loop]. fold edits. rewrite Hf. etrans; [|exact Hs].
    by destruct (length edits0). }
  unfold normalized_edits. cbv zeta. rewrite Habs.
  set (es := absorb_lines xxHash32 g fl k _ ++ _).
  destruct (on_line_normalized fl es (replacement_on_line g fl k _ k' _ Hg)) as (-> & Hb & Hee).
  rewrite He in Hr. destruct (group_range _ _ Hg Hr) as [Hstart Hend'].
  assert (Forall (in_file (file_length fl)) es) as Hin.
  { rewrite <- (proj1 (on_line_normalized fl es (replacement_on_line g fl k _ k' _ Hg))). apply Forall_fmap.
    eapply Forall_impl; [|intros x Hx; apply (in_file_anchored _ _ Hx)].
    destruct (safe_counts_spec _ _ _ _ _ Hc) as (_ & _ & H3 & H4).
    pose proof (absorbed_replacement xxHash32 fl (collectAnchorTargetLines edits) g p q k k' [] []
      Hg Hp Hq H3 H4 (absorbed_none _ _ _)) as Has.
    rewrite !app_nil_r in Has. by apply (absorbed_anchored _ _ _ _ Has). }
  pose proof (apply_normalized_reference es fl Hin) as Hap.
  destruct (apply_normalized fl es) as [fl' first]. cbn [fst] in Hap. intros [= <-]. cbn [lines].
  split_and!; try done. f_equal. rewrite Hap. unfold reference. rewrite Hb, Hee. cbn [insertAtStart insertAtEnd snd].
  by apply replacement_body.
Qed.

(** C14.  A replacement whose payload is at least as long as the lines it
    absorbs rewrites its range and nothing else: the lines before it and after
    it stay, and the range becomes the payload without the lines that already
    stood on either side. *)
Theorem replacement_in_place text edits g generic r p q :
  let fl := split_lines text in
  findReplacementGroup edits = Some (g, []) -> same_anchor g ->
  safe_counts g fl (collectAnchorTargetLines edits) = (p, q) ->
  applyHashlineEdits xxHash32 text edits generic = Ok r ->
  (p + q <= length (replacement g))%nat ->
  lines r = join newline
    (take (Z.to_nat (group_start g - 1)) fl
       ++ take (length (replacement g) - q - p) (drop p (replacement g))
       ++ drop (Z.to_nat (group_end g)) fl).
Proof.
  intros fl Hf Ha Hc Hok Hpq. destruct (single_replacement _ _ _ _ _ _ _ Hf Ha Hc Hok) as (-> & Hg & Hs & He & Hp & Hq).
  f_equal. destruct (group_ends _ Hg). apply absorbed_lines_back; subst fl; try done; lia.
Qed.
End edits.

(** ** A concrete file, with the hash of every line equal *)

Definition flat_hash (_ : string) : Z := 0.

(** Line [n] replaced by the payload. *)
Definition replace_line (n : Z) (pl : list string) : list HashlineEdit :=
  ((fun t => insert_edit (before_anchor {| line := n; hash := "aa" |}) t 1 0) <$> pl)
    ++ [delete_edit {| line := n; hash := "aa" |} 1 0].

Definition three_braces : string := join newline ["f {"; "x"; "}"; "y"].

Definition brace_edits : list HashlineEdit := replace_line 2 ["z"; "}"].

Definition brace_group : HashlineReplacementGroup := {|
  g_inserts := take 2 brace_edits; replacement := ["z"; "}"];
  deletes := [({| line := 2; hash := "aa" |}, 1, 0)]; sourceLineNum := 1 |}.

Definition brace_result : HashlineApplyResult :=
  match applyHashlineEdits flat_hash three_braces brace_edits false with
  | Ok r => r
  | Throw _ => {| lines := ""; firstChangedLine := None; result_warnings := [] |}
  end.

(** The closing brace below the line is absorbed. *)
Lemma replacement_in_place_witness :
  lines brace_result = join newline ["f {"; "z"; "}"; "y"] /\
  lines brace_result = join newline
    (take (Z.to_nat (group_start brace_group - 1)) (split_lines three_braces)
       ++ take (length (replacement brace_group) - 1 - 0) (drop 0 (replacement brace_group))
       ++ drop (Z.to_nat (group_end brace_group)) (split_lines three_braces)).
Proof.
  split; [vm_compute; reflexivity|].
  apply (replacement_in_place flat_hash three_braces brace_edits brace_group false brace_result 0 1).
  - vm_compute. reflexivity.
  - repeat constructor.
  - vm_compute. reflexivity.
  - vm_compute. reflexivity.
  - vm_compute. repeat constructor.
Defined.

(** When the absorbed lines overlap in the payload the guard is missing in
    the code too: line 3 of [a b x a b], replaced by [a b], takes the lines on
    both sides with it, and only one pair is put back. *)
Lemma overlapping_absorption_loses_lines :
  (fun o => match o with Ok r => Some (lines r, length (result_warnings r)) | Throw _ => None end)
    (applyHashlineEdits flat_hash (join newline ["a"; "b"; "x"; "a"; "b"]) (replace_line 3 ["a"; "b"]) false)
  = Some (join newline ["a"; "b"], 2%nat).
Proof. vm_compute. reflexivity. Qed.
