(* ===== verification/VimBuffer.v ===== *)
(** * The Vim text buffer ([vim/buffer.ts])

    Lines of text with a cursor, edited by lines or by offsets into the text.
    Positions and offsets are integers; out of range ones are clamped, as the
    code clamps them. *)

From Stdlib Require Import Ascii.
From S2P Require Import Prelude JsNumber JsValue JsText.

Local Open Scope string_scope.
Local Open Scope list_scope.
Local Open Scope Z_scope.

Record Position := { line : Z; col : Z }.

Record VimFingerprint := { exists_ : bool; size : Z; mtimeMs : Z; fp_hash : string }.

#[export] Instance Position_eq_dec : EqDecision Position.
Proof. solve_decision. Defined.
#[export] Instance VimFingerprint_eq_dec : EqDecision VimFingerprint.
Proof. solve_decision. Defined.

Record VimLoadedFile := {
  absolutePath : string;
  file_displayPath : string;
  file_lines : list string;
  file_trailingNewline : bool;
  fingerprint : option VimFingerprint
}.

Record VimBuffer := {
  displayPath : string;
  filePath : string;
  lines : list string;
  cursor : Position;
  modified : bool;
  trailingNewline : bool;
  baseFingerprint : option VimFingerprint;
  editabilityChecked : bool
}.

(** The snapshot has the buffer's fields; arrays and records are copied. *)
Record VimBufferSnapshot := {
  s_displayPath : string;
  s_filePath : string;
  s_lines : list string;
  s_cursor : Position;
  s_modified : bool;
  s_trailingNewline : bool;
  s_baseFingerprint : option VimFingerprint;
  s_editabilityChecked : bool
}.

Definition splitText (text : string) : list string := split_lines text.

Definition str_len (s : string) : Z := Z.of_nat (String.length s).

Definition or_empty (ls : list string) : list string := match ls with [] => [EmptyString] | _ => ls end.

(** [Math.min(Math.max(x, lo), hi)] *)
Definition clamp (lo hi x : Z) : Z := Z.min (Z.max x lo) hi.

Definition with_lines (b : VimBuffer) (ls : list string) : VimBuffer := {|
  displayPath := displayPath b; filePath := filePath b; lines := ls; cursor := cursor b;
  modified := modified b; trailingNewline := trailingNewline b;
  baseFingerprint := baseFingerprint b; editabilityChecked := editabilityChecked b |}.

Definition with_cursor (b : VimBuffer) (p : Position) : VimBuffer := {|
  displayPath := displayPath b; filePath := filePath b; lines := lines b; cursor := p;
  modified := modified b; trailingNewline := trailingNewline b;
  baseFingerprint := baseFingerprint b; editabilityChecked := editabilityChecked b |}.

Definition with_trailing (b : VimBuffer) (t : bool) : VimBuffer := {|
  displayPath := displayPath b; filePath := filePath b; lines := lines b; cursor := cursor b;
  modified := modified b; trailingNewline := t;
  baseFingerprint := baseFingerprint b; editabilityChecked := editabilityChecked b |}.

(** ** Positions *)

Definition lineCount (b : VimBuffer) : Z := Z.of_nat (length (lines b)).
Definition lastLineIndex (b : VimBuffer) : Z := Z.max 0 (lineCount b - 1).
Definition clampLine (b : VimBuffer) (l : Z) : Z := clamp 0 (lastLineIndex b) l.
Definition getLine (b : VimBuffer) (l : Z) : string :=
  default EmptyString (lines b !! Z.to_nat (clampLine b l)).
Definition clampCol (b : VimBuffer) (l c : Z) : Z := clamp 0 (str_len (getLine b l)) c.

Definition setCursor (b : VimBuffer) (p : Position) : VimBuffer :=
  with_cursor b {| line := clampLine b (line p); col := clampCol b (line p) (col p) |}.

Definition clampCursor (b : VimBuffer) : VimBuffer := setCursor b (cursor b).

(** [content.search(/\S/)], or the length of a blank line. *)
Fixpoint leading_blanks (s : string) : nat :=
  match s with
  | String c r => if is_white c then S (leading_blanks r) else 0
  | EmptyString => 0
  end.

Definition firstNonBlank (b : VimBuffer) (l : Z) : Z :=
  let content := getLine b l in
  let index := leading_blanks content in
  if decide (index = String.length content) then 0 else Z.of_nat index.

(** ** Loading, copies and snapshots *)

Definition create (input : VimLoadedFile) : VimBuffer := {|
  displayPath := file_displayPath input; filePath := absolutePath input;
  lines := or_empty (file_lines input); cursor := {| line := 0; col := 0 |};
  modified := false; trailingNewline := file_trailingNewline input;
  baseFingerprint := fingerprint input; editabilityChecked := false |}.

Definition clone (b : VimBuffer) : VimBuffer :=
  let c := create {| absolutePath := filePath b; file_displayPath := displayPath b; file_lines := lines b;
                     file_trailingNewline := trailingNewline b; fingerprint := baseFingerprint b |} in
  {| displayPath := displayPath c; filePath := filePath c; lines := lines c; cursor := cursor b;
     modified := modified b; trailingNewline := trailingNewline c;
     baseFingerprint := baseFingerprint c; editabilityChecked := editabilityChecked b |}.

Definition createSnapshot (b : VimBuffer) : VimBufferSnapshot := {|
  s_displayPath := displayPath b; s_filePath := filePath b; s_lines := lines b; s_cursor := cursor b;
  s_modified := modified b; s_trailingNewline := trailingNewline b;
  s_baseFingerprint := baseFingerprint b; s_editabilityChecked := editabilityChecked b |}.

Definition restore (b : VimBuffer) (s : VimBufferSnapshot) : VimBuffer :=
  clampCursor {|
    displayPath := s_displayPath s; filePath := s_filePath s; lines := or_empty (s_lines s);
    cursor := s_cursor s; modified := s_modified s; trailingNewline := s_trailingNewline s;
    baseFingerprint := s_baseFingerprint s; editabilityChecked := s_editabilityChecked s |}.

Definition replaceLoadedFile (b : VimBuffer) (input : VimLoadedFile) : VimBuffer := create input.

Definition markSaved (b : VimBuffer) (input : VimLoadedFile) : VimBuffer :=
  clampCursor {|
    displayPath := displayPath b; filePath := filePath b; lines := or_empty (file_lines input);
    cursor := cursor b; modified := false; trailingNewline := file_trailingNewline input;
    baseFingerprint := fingerprint input; editabilityChecked := editabilityChecked b |}.

(** The lines of two arrays of one length, compared in order. *)
Fixpoint same_lines (xs ys : list string) : bool :=
  match xs, ys with
  | x :: xs, y :: ys => if decide (x <> y) then false else same_lines xs ys
  | _, _ => true
  end.

Definition same_fingerprint (x y : option VimFingerprint) : bool :=
  match x, y with
  | Some a, Some b =>
      bool_decide (exists_ a = exists_ b) && bool_decide (size a = size b)
      && bool_decide (mtimeMs a = mtimeMs b) && bool_decide (fp_hash a = fp_hash b)
  | None, None => true
  | _, _ => false
  end.

Definition snapshotEqual (a b : VimBufferSnapshot) : bool :=
  if bool_decide (s_displayPath a <> s_displayPath b) || bool_decide (s_filePath a <> s_filePath b)
     || bool_decide (s_modified a <> s_modified b)
     || bool_decide (s_trailingNewline a <> s_trailingNewline b)
     || bool_decide (line (s_cursor a) <> line (s_cursor b))
     || bool_decide (col (s_cursor a) <> col (s_cursor b))
     || bool_decide (s_editabilityChecked a <> s_editabilityChecked b)
  then false
  else if negb (same_fingerprint (s_baseFingerprint a) (s_baseFingerprint b)) then false
  else if decide (length (s_lines a) <> length (s_lines b)) then false
  else same_lines (s_lines a) (s_lines b).

(** ** Text and offsets *)

Definition getText (b : VimBuffer) : string := join newline (lines b).

Fixpoint ends_with_newline (s : string) : bool :=
  match s with
  | EmptyString => false
  | String c EmptyString => bool_decide (nat_of_ascii c = 10%nat)
  | String _ r => ends_with_newline r
  end.

Definition setText (b : VimBuffer) (text : string) (trailing : bool) : VimBuffer :=
  let normalizedText :=
    if trailing && ends_with_newline text then str_take (String.length text - 1) text else text in
  clampCursor (with_trailing (with_lines b (splitText normalizedText)) trailing).

(** [length + 1] for each of the first lines. *)
Fixpoint lines_width (ls : list string) : Z :=
  match ls with
  | [] => 0
  | l :: ls => str_len l + 1 + lines_width ls
  end.

Definition positionToOffset (b : VimBuffer) (p : Position) : Z :=
  let l := clampLine b (line p) in
  let c := clampCol b l (col p) in
  lines_width (take (Z.to_nat l) (lines b)) + c.

Definition currentOffset (b : VimBuffer) : Z := positionToOffset b (cursor b).

Fixpoint locate (ls : list string) (l remaining : Z) : option Position :=
  match ls with
  | [] => None
  | current :: ls =>
      if decide (remaining <= str_len current) then Some {| line := l; col := remaining |}
      else
        let remaining := remaining - str_len current in
        match ls with
        | [] => None
        | _ =>
            if decide (remaining = 0) then Some {| line := l + 1; col := 0 |}
            else locate ls (l + 1) (remaining - 1)
        end
  end.

Definition offsetToPosition (b : VimBuffer) (offset : Z) : Position :=
  match locate (lines b) 0 (clamp 0 (str_len (getText b)) offset) with
  | Some p => p
  | None => {| line := lastLineIndex b; col := str_len (getLine b (lastLineIndex b)) |}
  end.

Definition setCursorFromOffset (b : VimBuffer) (offset : Z) : VimBuffer :=
  with_cursor b (offsetToPosition b offset).

(** The offsets an edit by offsets works on. *)
Definition normalizedStart (b : VimBuffer) (start : Z) : Z := clamp 0 (str_len (getText b)) start.
Definition normalizedEnd (b : VimBuffer) (start end_ : Z) : Z :=
  clamp (normalizedStart b start) (str_len (getText b)) end_.

Definition replaceOffsets (b : VimBuffer) (start end_ : Z) (replacement : string) (cursorOffset : option Z)
    : VimBuffer :=
  let text := getText b in
  let nextText := str_take (Z.to_nat (normalizedStart b start)) text +:+ replacement
                    +:+ str_drop (Z.to_nat (normalizedEnd b start end_)) text in
  setCursorFromOffset (clampCursor (with_lines b (splitText nextText)))
    (default (start + str_len replacement) cursorOffset).

Definition deleteOffsets (b : VimBuffer) (start end_ : Z) : string * VimBuffer :=
  let s := normalizedStart b start in
  let e := normalizedEnd b start end_ in
  (str_slice (getText b) (Z.to_nat s) (Z.to_nat e), replaceOffsets b s e EmptyString (Some s)).

(** ** Whole lines *)

Definition deleteLines (b : VimBuffer) (startLine endLine : Z) : list string * VimBuffer :=
  let start := clampLine b (Z.min startLine endLine) in
  let end_ := clampLine b (Z.max startLine endLine) in
  let removed := slice (lines b) start (end_ + 1) in
  let b1 := with_lines b (or_empty (take (Z.to_nat start) (lines b) ++ drop (Z.to_nat (end_ + 1)) (lines b))) in
  let b2 := setCursor b1 {| line := Z.min start (lastLineIndex b1); col := 0 |} in
  (removed,
   if decide (1 < lineCount b2 \/ 1 < Z.of_nat (length removed)) then with_trailing b2 true else b2).

Definition insertLines (b : VimBuffer) (index : Z) (newLines : list string) : VimBuffer :=
  let at_ := clamp 0 (lineCount b) index in
  let b := with_lines b (take (Z.to_nat at_) (lines b) ++ or_empty newLines ++ drop (Z.to_nat at_) (lines b)) in
  with_trailing (setCursor b {| line := at_; col := 0 |}) true.

Definition replaceLine (b : VimBuffer) (l : Z) (content : string) : VimBuffer :=
  clampCursor (with_lines b (<[Z.to_nat (clampLine b l) := content]> (lines b))).

Definition joinLines (b : VimBuffer) (startLine count : Z) : VimBuffer :=
  let start := clampLine b startLine in
  let end_ := clampLine b (start + Z.max count 1) in
  if decide (end_ <= start) then b
  else
    let joined := join " " (trim <$> slice (lines b) start (end_ + 1)) in
    let b := with_lines b (take (Z.to_nat start) (lines b) ++ [joined] ++ drop (Z.to_nat (end_ + 1)) (lines b)) in
    setCursor b {| line := start; col := Z.max 0 (str_len joined - 1) |}.

(** [content.match(/^ +/)?.\[0\].length ?? 0] *)
Fixpoint leading_spaces (s : string) : nat :=
  match s with
  | String c r => if bool_decide (c = " "%char) then S (leading_spaces r) else 0
  | EmptyString => 0
  end.

Definition indent_line (indentUnit : string) (indent : bool) (content : string) : string :=
  if indent then indentUnit +:+ content
  else if starts_with indentUnit content then str_drop (String.length indentUnit) content
  else str_drop (leading_spaces content `min` String.length indentUnit) content.

Definition indentLines (b : VimBuffer) (startLine endLine : Z) (indentUnit : string) (indent : bool) : VimBuffer :=
  let start := clampLine b (Z.min startLine endLine) in
  let end_ := clampLine b (Z.max startLine endLine) in
  clampCursor (with_lines b
    (imap (fun i l => if decide (start <= Z.of_nat i <= end_) then indent_line indentUnit indent l else l) (lines b))).

Definition getCharacterAtOffset (b : VimBuffer) (offset : Z) : string :=
  let text := getText b in
  if decide (offset < 0 \/ str_len text <= offset) then EmptyString
  else str_slice text (Z.to_nat offset) (Z.to_nat offset + 1).

Definition getCharacter (b : VimBuffer) (p : Position) : string := getCharacterAtOffset b (positionToOffset b p).

(** ** Well-formed buffers *)

Definition in_buffer (b : VimBuffer) (p : Position) : Prop :=
  0 <= line p < lineCount b /\
  exists l, lines b !! Z.to_nat (line p) = Some l /\ 0 <= col p <= str_len l.

Definition wf (b : VimBuffer) : Prop := lines b <> [] /\ in_buffer b (cursor b).

Lemma or_empty_ne ls : or_empty ls <> [].
Proof. by destruct ls. Qed.

Lemma or_empty_id ls : ls <> [] -> or_empty ls = ls.
Proof. by destruct ls. Qed.

Lemma str_len_nonneg s : 0 <= str_len s.
Proof. unfold str_len. lia. Qed.

Lemma lineCount_pos b : lines b <> [] -> 0 < lineCount b.
Proof. unfold lineCount. destruct (lines b); [done|]. simpl. lia. Qed.

Lemma clamp_range lo hi x : lo <= hi -> lo <= clamp lo hi x <= hi.
Proof. unfold clamp. lia. Qed.

Lemma clamp_id lo hi x : lo <= x <= hi -> clamp lo hi x = x.
Proof. unfold clamp. lia. Qed.

Lemma clampLine_range b l : lines b <> [] -> 0 <= clampLine b l < lineCount b.
Proof.
  intros Hne. pose proof (lineCount_pos b Hne). unfold clampLine, lastLineIndex.
  pose proof (clamp_range 0 (Z.max 0 (lineCount b - 1)) l ltac:(lia)). lia.
Qed.

Lemma clampLine_id b l : 0 <= l < lineCount b -> clampLine b l = l.
Proof. intros H. apply clamp_id. unfold lastLineIndex. lia. Qed.

Lemma getLine_lookup b l : lines b <> [] -> lines b !! Z.to_nat (clampLine b l) = Some (getLine b l).
Proof.
  intros Hne. pose proof (clampLine_range b l Hne) as Hr. unfold lineCount in Hr. unfold getLine.
  destruct (lookup_lt_is_Some_2 (lines b) (Z.to_nat (clampLine b l))) as [s Hs]; [lia|]. by rewrite Hs.
Qed.

(** The place [setCursor] puts the cursor. *)
Definition clampPosition (b : VimBuffer) (p : Position) : Position :=
  {| line := clampLine b (line p); col := clampCol b (line p) (col p) |}.

Lemma clampPosition_in b p : lines b <> [] -> in_buffer b (clampPosition b p).
Proof.
  intros Hne. split; [by apply clampLine_range|]. exists (getLine b (line p)).
  split; [by apply getLine_lookup|]. apply clamp_range, str_len_nonneg.
Qed.

Lemma clampPosition_id b p : in_buffer b p -> clampPosition b p = p.
Proof.
  intros [Hl (s & Hs & Hc)]. destruct p as [l c]. unfold clampPosition. cbn [line col] in *.
  rewrite clampLine_id by done. f_equal. unfold clampCol, getLine. rewrite clampLine_id, Hs by done.
  by apply clamp_id.
Qed.

Lemma setCursor_wf b p : lines b <> [] -> wf (setCursor b p).
Proof. intros Hne. split; [done|]. by apply (clampPosition_in b p). Qed.

Lemma setCursor_id b : wf b -> setCursor b (cursor b) = b.
Proof.
  intros [Hne Hc]. unfold setCursor. change {| line := _; col := _ |} with (clampPosition b (cursor b)).
  rewrite clampPosition_id by done. by destruct b.
Qed.

(** ** Offsets *)

(** The offset of column [c] of the [k]-th line. *)
Definition offset_of (ls : list string) (k : nat) (c : Z) : Z := lines_width (take k ls) + c.

Lemma text_width ls : ls <> [] -> str_len (join newline ls) + 1 = lines_width ls.
Proof.
  induction ls as [|l ls IH]; intros Hne; [done|]. destruct ls as [|l' ls]; [simpl; lia|].
  rewrite join_cons by done. cbn [lines_width] in *. unfold str_len in *.
  rewrite !str_length_app. specialize (IH ltac:(done)).
  change (String.length newline) with 1%nat. lia.
Qed.

Lemma lines_width_nonneg ls : 0 <= lines_width ls.
Proof. induction ls as [|l ls IH]; simpl; [lia|]. pose proof (str_len_nonneg l). lia. Qed.

Lemma offset_of_range ls k l c :
  ls !! k = Some l -> 0 <= c <= str_len l -> 0 <= offset_of ls k c <= str_len (join newline ls).
Proof.
  intros Hl Hc. assert (ls <> []) as Hne by (by intros ->). pose proof (text_width ls Hne) as Hw.
  unfold offset_of. pose proof (lines_width_nonneg (take k ls)).
  assert (lines_width (take k ls) + str_len l + 1 <= lines_width ls); [|lia].
  clear -Hl. revert k Hl. induction ls as [|x ls IH]; intros [|k] Hl; simplify_eq/=.
  - pose proof (lines_width_nonneg ls). lia.
  - specialize (IH k Hl). lia.
Qed.

(** The loop finds the line and column of an offset. *)
Lemma locate_offset ls k l c n :
  ls !! k = Some l -> 0 <= c <= str_len l ->
  locate ls n (offset_of ls k c) = Some {| line := n + Z.of_nat k; col := c |}.
Proof.
  revert k n. induction ls as [|x ls IH]; intros [|k] n Hl Hc; simplify_eq/=; unfold offset_of; cbn [take lines_width].
  - rewrite decide_True by lia. do 2 f_equal. lia.
  - pose proof (lines_width_nonneg (take k ls)). rewrite decide_False by lia.
    destruct ls as [|y ls]; [done|]. rewrite decide_False by lia.
    replace (str_len x + 1 + lines_width (take k (y :: ls)) + c - str_len x - 1)
      with (offset_of (y :: ls) k c) by (unfold offset_of; lia).
    rewrite (IH k (n + 1) Hl Hc). do 2 f_equal. lia.
Qed.

(** Every offset of the text is that of a line and a column. *)
Lemma offset_surjective ls o :
  ls <> [] -> 0 <= o <= str_len (join newline ls) ->
  exists k l c, ls !! k = Some l /\ 0 <= c <= str_len l /\ offset_of ls k c = o.
Proof.
  intros Hne Ho. pose proof (text_width ls Hne) as Hw. assert (0 <= o < lines_width ls) as Hr by lia.
  clear Hne Ho Hw. revert o Hr. induction ls as [|x ls IH]; intros o Hr; [simpl in Hr; lia|].
  cbn [lines_width] in Hr. destruct (decide (o <= str_len x)) as [Hle|Hgt].
  - exists 0%nat, x, o. unfold offset_of. simpl. split_and!; [done|lia|lia|lia].
  - destruct (IH (o - str_len x - 1)) as (k & l & c & Hl & Hc & He); [lia|].
    exists (S k), l, c. unfold offset_of in *. simpl. split_and!; [done|lia|lia|lia].
Qed.

Lemma clampLine_idem b l : clampLine b (clampLine b l) = clampLine b l.
Proof. unfold clampLine, clamp, lastLineIndex. lia. Qed.

Lemma positionToOffset_of b p :
  positionToOffset b p
  = offset_of (lines b) (Z.to_nat (clampLine b (line p))) (clampCol b (line p) (col p)).
Proof.
  unfold positionToOffset, offset_of, clampCol, getLine. by rewrite clampLine_idem.
Qed.

Lemma offsetToPosition_at b k l c :
  lines b !! k = Some l -> 0 <= c <= str_len l ->
  forall o, clamp 0 (str_len (getText b)) o = offset_of (lines b) k c ->
  offsetToPosition b o = {| line := Z.of_nat k; col := c |}.
Proof. intros Hl Hc o Ho. unfold offsetToPosition. by rewrite Ho, (locate_offset _ _ _ _ _ Hl Hc). Qed.

Lemma offsetToPosition_in b o : lines b <> [] -> in_buffer b (offsetToPosition b o).
Proof.
  intros Hne. destruct (offset_surjective (lines b) (clamp 0 (str_len (getText b)) o) Hne) as (k & l & c & Hl & Hc & He).
  { apply clamp_range, str_len_nonneg. }
  rewrite (offsetToPosition_at _ _ _ _ Hl Hc _ (eq_sym He)). apply lookup_lt_Some in Hl as Hlt.
  split; [unfold lineCount; cbn [line]; lia|]. exists l. cbn [line col]. by rewrite Nat2Z.id.
Qed.

(** ** The text an edit leaves *)

Lemma getText_split b s : getText (with_lines b (splitText s)) = s.
Proof. apply join_split_lines. Qed.

Lemma getText_setCursor b p : getText (setCursor b p) = getText b.
Proof. done. Qed.

Lemma replaceOffsets_text b s e r c :
  getText (replaceOffsets b s e r c)
  = str_take (Z.to_nat (normalizedStart b s)) (getText b) +:+ r
      +:+ str_drop (Z.to_nat (normalizedEnd b s e)) (getText b).
Proof. apply join_split_lines. Qed.

Lemma normalized_range b s e :
  0 <= normalizedStart b s <= normalizedEnd b s e /\ normalizedEnd b s e <= str_len (getText b).
Proof.
  pose proof (str_len_nonneg (getText b)). unfold normalizedEnd, normalizedStart, clamp. lia.
Qed.

Lemma replaceOffsets_wf b s e r c : wf (replaceOffsets b s e r c).
Proof.
  split; [apply split_lines_ne|]. unfold replaceOffsets, setCursorFromOffset.
  match goal with |- in_buffer (with_cursor ?b1 _) _ => apply (offsetToPosition_in b1) end.
  apply split_lines_ne.
Qed.

(** ** Operations *)

Inductive vim_op :=
| Op_clone
| Op_restore (s : VimBufferSnapshot)
| Op_replaceLoadedFile (input : VimLoadedFile)
| Op_markSaved (input : VimLoadedFile)
| Op_setCursor (p : Position)
| Op_clampCursor
| Op_setText (text : string) (trailing : bool)
| Op_setCursorFromOffset (offset : Z)
| Op_replaceOffsets (start end_ : Z) (replacement : string) (cursorOffset : option Z)
| Op_deleteOffsets (start end_ : Z)
| Op_deleteLines (startLine endLine : Z)
| Op_insertLines (index : Z) (newLines : list string)
| Op_replaceLine (l : Z) (content : string)
| Op_joinLines (startLine count : Z)
| Op_indentLines (startLine endLine : Z) (indentUnit : string) (indent : bool).

Definition apply_op (b : VimBuffer) (o : vim_op) : VimBuffer :=
  match o with
  | Op_clone => clone b
  | Op_restore s => restore b s
  | Op_replaceLoadedFile i => replaceLoadedFile b i
  | Op_markSaved i => markSaved b i
  | Op_setCursor p => setCursor b p
  | Op_clampCursor => clampCursor b
  | Op_setText t n => setText b t n
  | Op_setCursorFromOffset o => setCursorFromOffset b o
  | Op_replaceOffsets s e r c => replaceOffsets b s e r c
  | Op_deleteOffsets s e => (deleteOffsets b s e).2
  | Op_deleteLines s e => (deleteLines b s e).2
  | Op_insertLines i ls => insertLines b i ls
  | Op_replaceLine l c => replaceLine b l c
  | Op_joinLines s c => joinLines b s c
  | Op_indentLines s e u d => indentLines b s e u d
  end.

Lemma create_wf input : wf (create input).
Proof.
  pose proof (or_empty_ne (file_lines input)) as Hne. split; [done|].
  split; [split; [done|]; by apply (lineCount_pos (create input))|].
  destruct (or_empty (file_lines input)) as [|l ls] eqn:E; [done|]. exists l.
  split; [cbn; by rewrite E|]. cbn. split; [done|apply str_len_nonneg].
Qed.

(** [clone], [restore] of a snapshot of a well-formed buffer and the
    identity agree. *)
Lemma clone_id b : lines b <> [] -> clone b = b.
Proof. intros Hne. unfold clone, create. cbn. rewrite or_empty_id by done. by destruct b. Qed.

Lemma restore_snapshot b0 b : wf b -> restore b0 (createSnapshot b) = b.
Proof.
  intros Hb. unfold restore, createSnapshot. cbn. rewrite or_empty_id by apply Hb.
  etrans; [|exact (setCursor_id b Hb)]. by destruct b.
Qed.

Lemma apply_op_wf b o : wf b -> wf (apply_op b o).
Proof.
  intros Hb. pose proof (proj1 Hb) as Hne. destruct o; cbn [apply_op].
  - by rewrite clone_id.
  - apply setCursor_wf, or_empty_ne.
  - apply create_wf.
  - apply setCursor_wf, or_empty_ne.
  - by apply setCursor_wf.
  - by apply setCursor_wf.
  - apply setCursor_wf, split_lines_ne.
  - split; [done|]. by apply (offsetToPosition_in b).
  - apply replaceOffsets_wf.
  - apply replaceOffsets_wf.
  - unfold deleteLines. cbn [snd]. case_decide; apply setCursor_wf, or_empty_ne.
  - apply setCursor_wf. cbn [with_lines lines]. pose proof (or_empty_ne newLines).
    destruct (or_empty newLines); [done|]. intros Hn. apply app_nil in Hn as [_ Hn]. done.
  - apply setCursor_wf. cbn [with_lines lines]. intros Hn. apply (f_equal length) in Hn.
    rewrite length_insert in Hn. by destruct (lines b).
  - unfold joinLines. case_decide; [done|]. apply setCursor_wf. cbn [with_lines lines].
    intros Hn. apply app_nil in Hn as [_ Hn]. done.
  - apply setCursor_wf. cbn [with_lines lines]. intros Hn. apply (f_equal length) in Hn.
    rewrite length_imap in Hn. by destruct (lines b).
Qed.

(** C40.  The buffer always holds at least one line and its cursor stays on a
    character of one of them or just after the last, whatever operations are
    called with whatever arguments. *)
Theorem vim_buffer_wf input ops : wf (foldl apply_op (create input) ops).
Proof. apply foldl_invariant; [|apply create_wf]. intros b o _. apply apply_op_wf. Qed.

(** ** Offsets and positions *)

Lemma clampPosition_line b p :
  lines b <> [] ->
  exists l, lines b !! Z.to_nat (clampLine b (line p)) = Some l /\ 0 <= clampCol b (line p) (col p) <= str_len l.
Proof.
  intros Hne. exists (getLine b (line p)). split; [by apply getLine_lookup|]. apply clamp_range, str_len_nonneg.
Qed.

Lemma positionToOffset_range b p : lines b <> [] -> 0 <= positionToOffset b p <= str_len (getText b).
Proof.
  intros Hne. destruct (clampPosition_line b p Hne) as (l & Hl & Hc). rewrite positionToOffset_of.
  by apply (offset_of_range _ _ l).
Qed.

Lemma offset_position b p : lines b <> [] -> offsetToPosition b (positionToOffset b p) = clampPosition b p.
Proof.
  intros Hne. destruct (clampPosition_line b p Hne) as (l & Hl & Hc).
  rewrite (offsetToPosition_at b _ l _ Hl Hc).
  - unfold clampPosition. f_equal. pose proof (clampLine_range b (line p) Hne). lia.
  - rewrite clamp_id by (by apply positionToOffset_range). apply positionToOffset_of.
Qed.

Lemma position_offset b o :
  lines b <> [] -> positionToOffset b (offsetToPosition b o) = clamp 0 (str_len (getText b)) o.
Proof.
  intros Hne. destruct (offset_surjective (lines b) (clamp 0 (str_len (getText b)) o) Hne) as (k & l & c & Hl & Hc & He).
  { apply clamp_range, str_len_nonneg. }
  rewrite (offsetToPosition_at _ _ _ _ Hl Hc _ (eq_sym He)), positionToOffset_of. cbn [line col].
  apply lookup_lt_Some in Hl as Hlt. unfold clampCol, getLine.
  rewrite clampLine_id by (unfold lineCount; lia). rewrite Nat2Z.id, Hl. cbn [default from_option id].
  by rewrite clamp_id by done.
Qed.

(** Offsets into the text and positions in the lines are two names of the
    same places: translating a position to an offset and back clamps it, and so
    does translating an offset to a position and back. *)
Theorem vim_offsets_roundtrip b p o :
  lines b <> [] ->
  offsetToPosition b (positionToOffset b p) = clampPosition b p /\
  (in_buffer b p -> offsetToPosition b (positionToOffset b p) = p) /\
  positionToOffset b (offsetToPosition b o) = clamp 0 (str_len (getText b)) o /\
  in_buffer b (offsetToPosition b o).
Proof.
  intros Hne. rewrite offset_position, position_offset by done. split_and!; try done.
  - apply clampPosition_id.
  - by apply offsetToPosition_in.
Qed.

(** ** Edits *)

Lemma same_lines_eq xs ys : length xs = length ys -> same_lines xs ys = true <-> xs = ys.
Proof.
  revert ys. induction xs as [|x xs IH]; intros [|y ys] Hl; try done. simpl in *. case_decide as Hd.
  - split; [done|]. intros [= -> _]. done.
  - rewrite (IH ys) by lia. split; [|by intros [= _ ->]]. intros ->. destruct (decide (x = y)); [by subst|done].
Qed.

Lemma same_fingerprint_eq x y : same_fingerprint x y = true <-> x = y.
Proof.
  destruct x as [[e s m h]|], y as [[e' s' m' h']|]; simpl; try done.
  rewrite !andb_true_iff, !bool_decide_eq_true. naive_solver.
Qed.

Lemma snapshotEqual_eq a b : snapshotEqual a b = true <-> a = b.
Proof.
  destruct a as [d f l [cl cc] m t p e], b as [d' f' l' [cl' cc'] m' t' p' e']. unfold snapshotEqual. simpl.
  destruct (bool_decide (d <> d') || _ || _ || _ || _ || _ || _) eqn:H.
  - split; [done|]. intros [= -> -> -> -> -> -> -> -> ->].
    rewrite !orb_true_iff, !bool_decide_eq_true in H. naive_solver.
  - rewrite !orb_false_iff, !bool_decide_eq_false in H.
    assert (d = d' /\ f = f' /\ m = m' /\ t = t' /\ cl = cl' /\ cc = cc' /\ e = e') as Heq
      by (destruct_and!; split_and!; by apply dec_stable).
    destruct_and!. subst. destruct (same_fingerprint p p') eqn:Hp; simpl.
    + apply same_fingerprint_eq in Hp as ->. case_decide as Hl; [split; [done|by intros [= ->]]|].
      rewrite same_lines_eq by done. naive_solver.
    + split; [done|]. intros [= -> ->]. by rewrite (proj2 (same_fingerprint_eq p' p') eq_refl) in Hp.
Qed.

(** Text without line separators in its lines is given by its lines. *)
Definition clean (b : VimBuffer) : Prop := Forall (fun l => has_newline l = false) (lines b).

Lemma deleteOffsets_text b s e :
  let a := normalizedStart b s in
  let z := normalizedEnd b s e in
  getText b = str_take (Z.to_nat a) (getText b) +:+ (deleteOffsets b s e).1 +:+ str_drop (Z.to_nat z) (getText b) /\
  getText (deleteOffsets b s e).2 = str_take (Z.to_nat a) (getText b) +:+ str_drop (Z.to_nat z) (getText b).
Proof.
  intros a z. destruct (normalized_range b s e) as [Hr Hz]. fold a z in Hr, Hz. split.
  - symmetry. unfold deleteOffsets. cbn [fst]. apply str_slice_split. fold a z. lia.
  - unfold deleteOffsets. cbn [snd]. fold a z. rewrite replaceOffsets_text, append_nil.
    assert (normalizedStart b a = a) as -> by (unfold normalizedStart at 1; apply clamp_id; lia).
    assert (normalizedEnd b a z = z) as ->; [|done].
    unfold normalizedEnd. apply clamp_id. unfold normalizedStart. rewrite clamp_id; lia.
Qed.

Lemma normalized_at (pre post : string) b :
  getText b = pre +:+ post ->
  normalizedStart b (str_len pre) = str_len pre /\ normalizedEnd b (str_len pre) (str_len pre) = str_len pre.
Proof.
  intros Ht. unfold normalizedEnd, normalizedStart. rewrite Ht. unfold str_len. rewrite str_length_app.
  unfold clamp. lia.
Qed.

(** Inserting text between two parts of the text. *)
Lemma insert_between b pre post r c :
  getText b = pre +:+ post ->
  getText (replaceOffsets b (str_len pre) (str_len pre) r c) = pre +:+ r +:+ post.
Proof.
  intros Ht. destruct (normalized_at _ _ _ Ht) as [Ha Hz]. rewrite replaceOffsets_text, Ha, Hz, Ht.
  unfold str_len. by rewrite Nat2Z.id, str_take_app, str_drop_app.
Qed.

Lemma take_length a s : 0 <= a <= str_len s -> str_len (str_take (Z.to_nat a) s) = a.
Proof. unfold str_len. rewrite str_length_take. lia. Qed.

Lemma reinsert_text b s e c :
  getText (replaceOffsets (deleteOffsets b s e).2 (normalizedStart b s) (normalizedStart b s) (deleteOffsets b s e).1 c)
  = getText b.
Proof.
  destruct (deleteOffsets_text b s e) as [H1 H2]. cbv zeta in *. destruct (normalized_range b s e) as [Hr Hz].
  rewrite <- (take_length (normalizedStart b s) (getText b)) at 1 2 by lia.
  rewrite (insert_between _ _ _ _ _ H2). by rewrite H1 at 3.
Qed.

Lemma deleteLines_split b s e :
  lines b <> [] ->
  exists pre post, lines b = pre ++ (deleteLines b s e).1 ++ post /\
    Z.of_nat (length pre) = clampLine b (Z.min s e) /\
    lines (deleteLines b s e).2 = or_empty (pre ++ post).
Proof.
  intros Hne. unfold deleteLines. set (a := clampLine b (Z.min s e)). set (z := clampLine b (Z.max s e)).
  assert (0 <= a < lineCount b) as Ha by (by apply clampLine_range).
  assert (a <= z < lineCount b) as Hz.
  { split; [unfold a, z, clampLine, clamp; lia|by apply clampLine_range]. }
  unfold lineCount in Ha, Hz.
  exists (take (Z.to_nat a) (lines b)), (drop (Z.to_nat (z + 1)) (lines b)). cbn [fst snd]. split_and!.
  - unfold slice. replace (Z.to_nat (z + 1)) with (Z.to_nat a + (Z.to_nat (z + 1) - Z.to_nat a))%nat at 2 by lia.
    rewrite <- drop_drop, take_drop. symmetry. apply take_drop.
  - rewrite length_take. lia.
  - by case_decide.
Qed.

Lemma insertLines_at b pre post ls :
  lines b = pre ++ post -> ls <> [] -> lines (insertLines b (Z.of_nat (length pre)) ls) = pre ++ ls ++ post.
Proof.
  intros Hb Hls. unfold insertLines. cbn [with_trailing setCursor with_cursor with_lines lines].
  rewrite or_empty_id by done. unfold lineCount. rewrite Hb, length_app, clamp_id, Nat2Z.id by lia.
  by rewrite take_app_length, drop_app_length.
Qed.

(** Edits are exact and can be undone.  Replacing a range of offsets
    leaves the text before and after it, and puts the cursor at the offset
    asked for, or the nearest one; deleting a range returns exactly the text
    removed, and putting it back restores the text, and the lines when none
    holds a line separator; lines deleted and inserted again restore the
    buffer's lines unless they were all of them; restoring a snapshot restores
    the buffer whatever happened in between, and two snapshots compare equal
    exactly when they are. *)
Theorem vim_edits_undo b :
  wf b ->
  (forall s e r c,
     let b' := replaceOffsets b s e r c in
     getText b' = str_take (Z.to_nat (normalizedStart b s)) (getText b) +:+ r
                    +:+ str_drop (Z.to_nat (normalizedEnd b s e)) (getText b) /\
     currentOffset b' = clamp 0 (str_len (getText b')) (default (s + str_len r) c)) /\
  (forall s e c,
     let '(removed, b') := deleteOffsets b s e in
     let b'' := replaceOffsets b' (normalizedStart b s) (normalizedStart b s) removed c in
     getText b = str_take (Z.to_nat (normalizedStart b s)) (getText b) +:+ removed
                   +:+ str_drop (Z.to_nat (normalizedEnd b s e)) (getText b) /\
     getText b'' = getText b /\ (clean b -> lines b'' = lines b)) /\
  (forall s e,
     let '(removed, b') := deleteLines b s e in
     length removed <> length (lines b) ->
     lines (insertLines b' (clampLine b (Z.min s e)) removed) = lines b) /\
  (forall b0, restore b0 (createSnapshot b) = b) /\
  (forall b0, snapshotEqual (createSnapshot b) (createSnapshot b0) = true <-> b = b0).
Proof.
  intros Hb. pose proof (proj1 Hb) as Hne. split_and!.
  - intros s e r c. cbv zeta. split; [apply replaceOffsets_text|].
    unfold currentOffset, replaceOffsets, setCursorFromOffset.
    match goal with |- context [with_cursor ?b1 _] => apply (position_offset b1) end. apply split_lines_ne.
  - intros s e c. pose proof (deleteOffsets_text b s e) as [H1 _]. pose proof (reinsert_text b s e c) as H2.
    destruct (deleteOffsets b s e) as [removed b']. cbn [fst snd] in *. split_and!; [done|done|].
    intros Hc. unfold getText in H2. apply (f_equal split_lines) in H2.
    rewrite !split_join in H2; [done|done|done|apply split_lines_ne|apply split_lines_clean].
  - intros s e. pose proof (deleteLines_split b s e Hne) as (pre & post & Hl & Hp & Hd).
    destruct (deleteLines b s e) as [removed b'] eqn:E. cbn [fst snd] in *. intros Hall.
    assert (pre ++ post <> []) as Hpp.
    { intros Hn. apply app_nil in Hn as [-> ->]. rewrite Hl, app_nil_r in Hall. done. }
    rewrite or_empty_id in Hd by done. rewrite <- Hp, (insertLines_at _ _ _ _ Hd); [done|].
    intros ->. unfold deleteLines in E. assert (clampLine b (Z.min s e) <= clampLine b (Z.max s e)) as Hle
      by (unfold clampLine, clamp; lia).
    injection E as Hslice _. unfold slice in Hslice. apply (f_equal length) in Hslice.
    pose proof (clampLine_range b (Z.min s e) Hne). pose proof (clampLine_range b (Z.max s e) Hne) as Hr2.
    unfold lineCount in *. rewrite length_take, length_drop in Hslice. simpl in Hslice. lia.
  - intros b0. by apply restore_snapshot.
  - intros b0. rewrite snapshotEqual_eq. split; [|by intros ->]. intros [= ? ? ? ? ? ? ? ?].
    destruct b, b0. simpl in *. by subst.
Qed.

(** ** A concrete buffer *)

Definition sample_file : VimLoadedFile := {|
  absolutePath := "/a"; file_displayPath := "a"; file_lines := ["one"; "two"; "three"];
  file_trailingNewline := true; fingerprint := None |}.

Lemma vim_offsets_roundtrip_witness :
  offsetToPosition (create sample_file) 5 = {| line := 1; col := 1 |} /\
  offsetToPosition (create sample_file) (positionToOffset (create sample_file) {| line := 1; col := 9 |})
  = {| line := 1; col := 3 |}.
Proof.
  split; [vm_compute; reflexivity|].
  destruct (vim_offsets_roundtrip (create sample_file) {| line := 1; col := 9 |} 5) as [H _]; [vm_compute; discriminate|].
  exact H.
Defined.

Lemma vim_edits_undo_witness :
  getText (replaceOffsets (create sample_file) 2 5 "XY" None) = "onXY" +:+ str_drop 1 "two" +:+ newline +:+ "three" /\
  currentOffset (replaceOffsets (create sample_file) 2 5 "XY" None) = 4.
Proof.
  destruct (vim_edits_undo (create sample_file)) as [H _].
  - split; [vm_compute; discriminate|]. split; [vm_compute; split; [discriminate|reflexivity]|].
    exists "one". split; [reflexivity|]. vm_compute. split; discriminate.
  - destruct (H 2 5 "XY" None) as [H1 H2]. split.
    + rewrite H1. vm_compute. reflexivity.
    + rewrite H2. vm_compute. reflexivity.
Defined.
