(* ===== verification/ApplyPatch.v ===== *)
(** * The [apply_patch] envelope ([edit/apply-patch/parser.ts], [index.ts])

    The parser of the envelope, line by line, and the function that applies
    its hunks in order.  Applying one hunk ([edit/modes/patch.ts]) is a
    parameter. *)

From Stdlib Require Import Ascii.
From S2P Require Import Prelude JsNumber JsValue JsText.

Local Open Scope string_scope.
Local Open Scope list_scope.
Local Open Scope Z_scope.

Inductive Operation := create_op | delete_op | update_op.

Record PatchInput := {
  path : string;
  op : Operation;
  rename : option string;
  diff : option string
}.

Definition BEGIN_PATCH_MARKER : string := "*** Begin Patch".
Definition END_PATCH_MARKER : string := "*** End Patch".
Definition ADD_FILE_MARKER : string := "*** Add File: ".
Definition DELETE_FILE_MARKER : string := "*** Delete File: ".
Definition UPDATE_FILE_MARKER : string := "*** Update File: ".
Definition MOVE_TO_MARKER : string := "*** Move to: ".

(** The errors, with the line number where the code gives one. *)
Inductive parse_error :=
| missing_begin
| missing_end
| empty_update (path : string) (lineNumber : Z)
| bad_header (firstLine : string) (lineNumber : Z).

(** [s.slice(p.length)] *)
Definition strip (p s : string) : string := str_drop (String.length p) s.

Definition heredoc_openers : list string :=
  ["<<EOF"; "<<'EOF'"; "<<" +:+ String quote_char ("EOF" +:+ String quote_char "")].

Definition strip_heredoc (ls : list string) : list string :=
  match ls with
  | first :: (_ :: _) as rest =>
      if includes heredoc_openers first && bool_decide (trim (default EmptyString (last ls)) = "EOF")
      then removelast rest else ls
  | _ => ls
  end.

(** The longest prefix of lines that satisfy [p], and the rest. *)
Fixpoint span {A} (p : A -> bool) (l : list A) : list A * list A :=
  match l with
  | [] => ([], [])
  | x :: l' => if p x then let '(a, b) := span p l' in (x :: a, b) else ([], l)
  end.

Definition added_contents (added : list string) : string :=
  foldr (fun l s => strip "+" l +:+ newline +:+ s) EmptyString added.

Definition is_file_op (l : string) : bool :=
  starts_with "*** Add File:" l || starts_with "*** Delete File:" l || starts_with "*** Update File:" l.

Definition take_move (remaining : list string) : option string * list string :=
  match remaining with
  | l :: rest => if starts_with MOVE_TO_MARKER l then (Some (strip MOVE_TO_MARKER l), rest) else (None, remaining)
  | [] => (None, [])
  end.

Definition count (ls : list string) : Z := Z.of_nat (length ls).

(** One hunk per unit of fuel, or one blank line. *)
Fixpoint parse_hunks (fuel : nat) (streaming : bool) (remaining : list string) (lineNumber : Z)
    (hunks : list PatchInput) : outcome parse_error (list PatchInput) :=
  match fuel, remaining with
  | S fuel, l :: rest =>
      if decide (trim l = EmptyString) then parse_hunks fuel streaming rest (lineNumber + 1) hunks
      else
        let firstLine := trim l in
        if starts_with ADD_FILE_MARKER firstLine then
          let '(added, rest) := span (starts_with "+") rest in
          parse_hunks fuel streaming rest (lineNumber + 1 + count added)
            (hunks ++ [{| path := strip ADD_FILE_MARKER firstLine; op := create_op; rename := None;
                          diff := Some (added_contents added) |}])
        else if starts_with DELETE_FILE_MARKER firstLine then
          parse_hunks fuel streaming rest (lineNumber + 1)
            (hunks ++ [{| path := strip DELETE_FILE_MARKER firstLine; op := delete_op; rename := None; diff := None |}])
        else if starts_with UPDATE_FILE_MARKER firstLine then
          let path := strip UPDATE_FILE_MARKER firstLine in
          let '(movePath, body) := take_move rest in
          let lineNumber := lineNumber + 1 + (count rest - count body) in
          let '(diffLines, rest) := span (fun l => negb (is_file_op l)) body in
          match diffLines with
          | [] =>
              if streaming then
                parse_hunks fuel streaming rest lineNumber
                  (hunks ++ [{| path := path; op := update_op; rename := movePath; diff := Some EmptyString |}])
              else Throw (empty_update path lineNumber)
          | _ =>
              parse_hunks fuel streaming rest (lineNumber + count diffLines)
                (hunks ++ [{| path := path; op := update_op; rename := movePath;
                              diff := Some (join newline diffLines) |}])
          end
        else if streaming then Ok hunks
        else Throw (bad_header firstLine lineNumber)
  | _, _ => Ok hunks
  end.

Definition parseApplyPatchWithOptions (patchText : string) (streaming : bool)
    : outcome parse_error (list PatchInput) :=
  let ls := strip_heredoc (split_lines (trim patchText)) in
  match ls with
  | first :: rest =>
      if decide (trim first <> BEGIN_PATCH_MARKER) then (if streaming then Ok [] else Throw missing_begin)
      else
        let hasEndMarker := bool_decide (trim (default EmptyString (last ls)) = END_PATCH_MARKER) in
        if negb hasEndMarker && negb streaming then Throw missing_end
        else
          let remaining := if hasEndMarker then removelast rest else rest in
          parse_hunks (length remaining) streaming remaining 2 []
  | [] => if streaming then Ok [] else Throw missing_begin
  end.

Definition parseApplyPatch (patchText : string) : outcome parse_error (list PatchInput) :=
  parseApplyPatchWithOptions patchText false.

Definition parseApplyPatchStreaming (patchText : string) : outcome parse_error (list PatchInput) :=
  parseApplyPatchWithOptions patchText true.

(** ** Applying the hunks *)

Record affected_files := { added : list string; modified : list string; deleted : list string }.

Definition recordAffected (a : affected_files) (hunk : PatchInput) : affected_files :=
  match op hunk with
  | create_op => {| added := added a ++ [path hunk]; modified := modified a; deleted := deleted a |}
  | delete_op => {| added := added a; modified := modified a; deleted := deleted a ++ [path hunk] |}
  | update_op => {| added := added a; modified := modified a ++ [path hunk]; deleted := deleted a |}
  end.

Inductive codex_error (E : Type) :=
| parse_failed (e : parse_error)
| no_files
| hunk_failed (e : E).
Arguments parse_failed {E} e.
Arguments no_files {E}.
Arguments hunk_failed {E} e.

Section apply.
Context {FS R E : Type} (applyPatch : FS -> PatchInput -> outcome E R * FS).

Fixpoint apply_hunks (fs : FS) (hunks : list PatchInput) (results : list R) (affected : affected_files)
    : outcome (codex_error E) (list R * affected_files) * FS :=
  match hunks with
  | [] => (Ok (results, affected), fs)
  | h :: hunks =>
      match applyPatch fs h with
      | (Throw e, fs) => (Throw (hunk_failed e), fs)
      | (Ok r, fs) => apply_hunks fs hunks (results ++ [r]) (recordAffected affected h)
      end
  end.

Definition applyCodexPatch (fs : FS) (patchText : string)
    : outcome (codex_error E) (list R * affected_files) * FS :=
  match parseApplyPatch patchText with
  | Throw e => (Throw (parse_failed e), fs)
  | Ok [] => (Throw no_files, fs)
  | Ok hunks => apply_hunks fs hunks [] {| added := []; modified := []; deleted := [] |}
  end.

Definition formatApplyCodexPatchSummary (a : affected_files) : string :=
  join newline (["Success. Updated the following files:"]
    ++ ((fun p => "A " +:+ p) <$> added a) ++ ((fun p => "M " +:+ p) <$> modified a)
    ++ ((fun p => "D " +:+ p) <$> deleted a)).
End apply.

(** ** The text of an envelope *)

(** A hunk as the format writes it. *)
Inductive Hunk :=
| AddFile (p : string) (contents : list string)
| DeleteFile (p : string)
| UpdateFile (p : string) (moveTo : option string) (body : list string).

Definition hunk_lines (h : Hunk) : list string :=
  match h with
  | AddFile p ls => (ADD_FILE_MARKER +:+ p) :: ((fun l => "+" +:+ l) <$> ls)
  | DeleteFile p => [DELETE_FILE_MARKER +:+ p]
  | UpdateFile p m ls =>
      (UPDATE_FILE_MARKER +:+ p) :: match m with Some to => [MOVE_TO_MARKER +:+ to] | None => [] end ++ ls
  end.

Definition hunk_input (h : Hunk) : PatchInput :=
  match h with
  | AddFile p ls =>
      {| path := p; op := create_op; rename := None; diff := Some (foldr (fun l s => l +:+ newline +:+ s) EmptyString ls) |}
  | DeleteFile p => {| path := p; op := delete_op; rename := None; diff := None |}
  | UpdateFile p m ls => {| path := p; op := update_op; rename := m; diff := Some (join newline ls) |}
  end.

Definition envelope (hs : list Hunk) : list string :=
  [BEGIN_PATCH_MARKER] ++ (hs ≫= hunk_lines) ++ [END_PATCH_MARKER].

Definition one_line (l : string) : Prop := has_newline l = false.

(** What the format can express: paths that do not end in a blank, lines
    without separators, and update bodies that are not empty and do not look
    like the lines around them. *)
Definition printable (h : Hunk) : Prop :=
  match h with
  | AddFile p ls => ends_dark p = true /\ one_line p /\ Forall one_line ls
  | DeleteFile p => ends_dark p = true /\ one_line p
  | UpdateFile p m ls =>
      ends_dark p = true /\ one_line p /\ Forall one_line ls /\ ls <> [] /\
      Forall (fun l => is_file_op l = false) ls /\
      match m with
      | Some to => one_line to
      | None => starts_with MOVE_TO_MARKER (default EmptyString (head ls)) = false
      end
  end.

(** ** Parsing it back *)

Lemma strip_marker p s : strip p (p +:+ s) = s.
Proof. apply str_drop_app. Qed.

Lemma marker_trim m p :
  (match m with String c _ => is_white c = false | EmptyString => False end) ->
  ends_dark p = true -> trim (m +:+ p) = m +:+ p.
Proof.
  intros Hm Hp. destruct m as [|c m]; [done|]. rewrite append_cons. apply trim_dark; [done|].
  rewrite <- append_cons. by apply ends_dark_app.
Qed.

Lemma header_trim p :
  ends_dark p = true ->
  trim (ADD_FILE_MARKER +:+ p) = ADD_FILE_MARKER +:+ p /\
  trim (DELETE_FILE_MARKER +:+ p) = DELETE_FILE_MARKER +:+ p /\
  trim (UPDATE_FILE_MARKER +:+ p) = UPDATE_FILE_MARKER +:+ p.
Proof. intros Hp. split_and!; by apply marker_trim. Qed.

Lemma span_all {A} (p : A -> bool) xs ys :
  Forall (fun x => p x = true) xs -> match ys with [] => True | y :: _ => p y = false end ->
  span p (xs ++ ys) = (xs, ys).
Proof.
  intros Hx Hy. induction Hx as [|x xs Hp Hx IH]; [destruct ys as [|y ys]; [done|simpl; by rewrite Hy]|].
  simpl. by rewrite Hp, IH.
Qed.

(** What may follow a hunk: nothing, or the header of another one. *)
Definition at_header (ls : list string) : Prop :=
  match ls with [] => True | l :: _ => is_file_op l = true end.

Lemma hunks_at_header hs : at_header (hs ≫= hunk_lines).
Proof. destruct hs as [|[p ls|p|p m ls] hs]; [done| | |]; by vm_compute. Qed.

Lemma file_op_not_added l : is_file_op l = true -> starts_with "+" l = false.
Proof.
  destruct l as [|c l]; [done|]. intros H. cbn [starts_with].
  destruct (decide ("+"%char = c)) as [<-|Hc]; [by vm_compute in H|by rewrite bool_decide_false].
Qed.

Lemma added_contents_spec ls :
  added_contents ((fun l => "+" +:+ l) <$> ls) = foldr (fun l s => l +:+ newline +:+ s) EmptyString ls.
Proof.
  induction ls as [|l ls IH]; [done|]. rewrite fmap_cons. unfold added_contents in *. cbn [foldr].
  by rewrite IH, strip_marker.
Qed.

Lemma take_move_spec m ls rest :
  ls <> [] -> (m = None -> starts_with MOVE_TO_MARKER (default EmptyString (head ls)) = false) ->
  take_move (match m with Some to => [MOVE_TO_MARKER +:+ to] | None => [] end ++ ls ++ rest) = (m, ls ++ rest).
Proof.
  intros Hne Hm. destruct m as [to|]; cbn [app take_move].
  - by rewrite starts_with_app, strip_marker.
  - destruct ls as [|l ls]; [done|]. specialize (Hm eq_refl). cbn [head from_option id] in Hm.
    cbn [app take_move]. by rewrite Hm.
Qed.

Lemma markers_differ p :
  starts_with ADD_FILE_MARKER (DELETE_FILE_MARKER +:+ p) = false /\
  starts_with ADD_FILE_MARKER (UPDATE_FILE_MARKER +:+ p) = false /\
  starts_with DELETE_FILE_MARKER (UPDATE_FILE_MARKER +:+ p) = false.
Proof. by vm_compute. Qed.

(** One hunk is parsed, and the lines after it are left. *)
Lemma parse_hunk fuel streaming h rest n acc :
  printable h -> at_header rest ->
  exists n', parse_hunks (S fuel) streaming (hunk_lines h ++ rest) n acc
             = parse_hunks fuel streaming rest n' (acc ++ [hunk_input h]).
Proof.
  intros Hp Hr. destruct (markers_differ (match h with AddFile p _ | DeleteFile p | UpdateFile p _ _ => p end)) as (M1 & M2 & M3).
  destruct h as [p ls|p|p m ls]; cbn [hunk_lines app parse_hunks hunk_input].
  - destruct Hp as (Hd & _ & _). destruct (header_trim _ Hd) as (T1 & T2 & T3).
    rewrite T1, decide_False by done. rewrite starts_with_app, strip_marker.
    rewrite span_all; [rewrite added_contents_spec; by eexists| |].
    + apply Forall_fmap, Forall_true. intros l. apply starts_with_app.
    + destruct rest as [|l rest]; [done|]. by apply file_op_not_added.
  - destruct Hp as (Hd & _). destruct (header_trim _ Hd) as (T1 & T2 & T3).
    rewrite T2, decide_False by done. rewrite M1, starts_with_app, strip_marker. by eexists.
  - destruct Hp as (Hd & _ & _ & Hne & Hops & Hm). destruct (header_trim _ Hd) as (T1 & T2 & T3).
    rewrite T3, decide_False by done. rewrite M2, M3, starts_with_app, strip_marker, <- app_assoc.
    rewrite take_move_spec; [|done|by intros ->]. rewrite span_all.
    + destruct ls; [done|]. by eexists.
    + eapply Forall_impl; [exact Hops|]. intros l Hl. by rewrite Hl.
    + destruct rest as [|l rest]; [done|]. simpl in Hr. by rewrite Hr.
Qed.

Lemma parse_all streaming hs : forall fuel n acc,
  Forall printable hs -> (length hs <= fuel)%nat ->
  parse_hunks fuel streaming (hs ≫= hunk_lines) n acc = Ok (acc ++ (hunk_input <$> hs)).
Proof.
  induction hs as [|h hs IH]; intros fuel n acc Hp Hf.
  { rewrite app_nil_r. by destruct fuel. }
  apply Forall_cons in Hp as [Hh Hp]. destruct fuel as [|fuel]; [simpl in Hf; lia|].
  rewrite bind_cons. destruct (parse_hunk fuel streaming h (hs ≫= hunk_lines) n acc Hh (hunks_at_header hs)) as [n' ->].
  rewrite IH by (done || (simpl in Hf; lia)). by rewrite fmap_cons, <- app_assoc.
Qed.

Lemma hunk_lines_clean h : printable h -> Forall one_line (hunk_lines h).
Proof.
  unfold one_line.
  destruct h as [p ls|p|p m ls]; cbn [hunk_lines printable]; intros Hp; constructor; try constructor.
  1, 3, 4: rewrite has_newline_app; destruct_and?; by rewrite orb_false_iff.
  - apply Forall_fmap. destruct Hp as (_ & _ & Hl). eapply Forall_impl; [exact Hl|]. intros l H. simpl.
    rewrite has_newline_app. by rewrite orb_false_iff.
  - destruct Hp as (_ & _ & Hl & _ & _ & Hm). apply Forall_app. split; [|done]. destruct m; [|done].
    constructor; [|done]. rewrite has_newline_app. by rewrite orb_false_iff.
Qed.

Lemma hunks_clean hs : Forall printable hs -> Forall one_line (hs ≫= hunk_lines).
Proof.
  intros H. induction H as [|h hs Hh H IH]; [constructor|]. rewrite bind_cons. apply Forall_app.
  split; [by apply hunk_lines_clean|done].
Qed.

Lemma envelope_clean hs : Forall printable hs -> Forall one_line (envelope hs).
Proof.
  intros H. unfold envelope. rewrite !Forall_app. split_and!; [by repeat constructor|by apply hunks_clean|by repeat constructor].
Qed.

Lemma hunks_count hs : (length hs <= length (hs ≫= hunk_lines))%nat.
Proof.
  induction hs as [|h hs IH]; [done|]. rewrite bind_cons, length_app. simpl.
  assert (1 <= length (hunk_lines h))%nat by (destruct h; simpl; lia). lia.
Qed.

(** The text of some lines that start and end with a character. *)
Lemma join_trim c l mid final :
  is_white c = false -> ends_dark final = true ->
  trim (join newline ([String c l] ++ mid ++ [final])) = join newline ([String c l] ++ mid ++ [final]).
Proof.
  intros Hc Hf. cbn [app]. rewrite join_cons by (by destruct mid). rewrite append_cons. apply trim_dark; [done|].
  rewrite <- append_cons. apply ends_dark_app, ends_dark_app.
  induction mid as [|x mid IH]; [done|]. cbn [app]. rewrite join_cons by (by destruct mid).
  by apply ends_dark_app, ends_dark_app.
Qed.

(** Lines that unwrap to an envelope parse to its hunks. *)
Lemma parse_envelope streaming ls hs :
  Forall printable hs -> ls <> [] -> Forall one_line ls ->
  trim (join newline ls) = join newline ls -> strip_heredoc ls = envelope hs ->
  parseApplyPatchWithOptions (join newline ls) streaming = Ok (hunk_input <$> hs).
Proof.
  intros Hp Hne Hl Ht Hs. unfold parseApplyPatchWithOptions. rewrite Ht, (split_join _ Hne Hl), Hs.
  cbv zeta. unfold envelope at 1. cbn [app]. rewrite decide_False by (intros Hn; by apply Hn).
  unfold envelope. cbn [app]. rewrite app_comm_cons, last_snoc. cbn [from_option id].
  rewrite bool_decide_true by done. cbn [negb andb]. rewrite removelast_last.
  rewrite parse_all; [done|done|apply hunks_count].
Qed.

Lemma strip_heredoc_envelope hs : strip_heredoc (envelope hs) = envelope hs.
Proof. unfold envelope. cbn [app]. unfold strip_heredoc. by destruct (hs ≫= hunk_lines). Qed.

Lemma strip_heredoc_wrapped opener ls :
  includes heredoc_openers opener = true -> strip_heredoc (opener :: ls ++ ["EOF"]) = ls.
Proof.
  intros Ho. unfold strip_heredoc. rewrite app_comm_cons, last_snoc. cbn [from_option id].
  rewrite Ho, bool_decide_true by done. cbn [andb].
  destruct (ls ++ ["EOF"]) as [|x xs] eqn:E; [by destruct ls|]. rewrite <- E. apply removelast_last.
Qed.

(** ** Streaming *)

Lemma parse_streaming_agrees fuel : forall remaining n acc hs,
  parse_hunks fuel false remaining n acc = Ok hs -> parse_hunks fuel true remaining n acc = Ok hs.
Proof.
  induction fuel as [|fuel IH]; intros remaining n acc hs H; [done|].
  destruct remaining as [|l rest]; [done|]. cbn [parse_hunks] in *. destruct (decide (trim l = EmptyString)); [by apply IH|].
  destruct (starts_with ADD_FILE_MARKER (trim l)).
  { destruct (span _ rest) as [added rest']. by apply IH. }
  destruct (starts_with DELETE_FILE_MARKER (trim l)); [by apply IH|].
  destruct (starts_with UPDATE_FILE_MARKER (trim l)); [|done].
  destruct (take_move rest) as [m body]. destruct (span _ body) as [[|d ds] rest']; [done|]. by apply IH.
Qed.

Lemma parse_streaming_total fuel : forall remaining n acc, exists hs, parse_hunks fuel true remaining n acc = Ok hs.
Proof.
  induction fuel as [|fuel IH]; intros remaining n acc; [by eexists|].
  destruct remaining as [|l rest]; [by eexists|]. cbn [parse_hunks]. destruct (decide (trim l = EmptyString)); [apply IH|].
  destruct (starts_with ADD_FILE_MARKER (trim l)); [destruct (span _ rest); apply IH|].
  destruct (starts_with DELETE_FILE_MARKER (trim l)); [apply IH|].
  destruct (starts_with UPDATE_FILE_MARKER (trim l)); [|by eexists].
  destruct (take_move rest) as [m body]. destruct (span _ body) as [[|d ds] rest']; apply IH.
Qed.

(** Parsing inverts printing: the envelope of any hunks the format can
    express, bare or wrapped in a heredoc of any of the accepted spellings, is
    parsed into exactly these hunks, in order, strictly or while streaming.
    Streaming never fails, and agrees with the strict parser wherever that one
    succeeds. *)
Theorem apply_patch_roundtrip hs :
  Forall printable hs ->
  (forall streaming, parseApplyPatchWithOptions (join newline (envelope hs)) streaming = Ok (hunk_input <$> hs)) /\
  (forall streaming opener, opener ∈ heredoc_openers ->
     parseApplyPatchWithOptions (join newline (opener :: envelope hs ++ ["EOF"])) streaming = Ok (hunk_input <$> hs)) /\
  (forall text, exists parsed, parseApplyPatchStreaming text = Ok parsed /\
     forall strict, parseApplyPatch text = Ok strict -> strict = parsed).
Proof.
  intros Hp. split_and!.
  - intros streaming. apply parse_envelope; try done; [by apply envelope_clean|by apply join_trim|apply strip_heredoc_envelope].
  - intros streaming opener Ho. apply parse_envelope; try done.
    + constructor; [|apply Forall_app; split; [by apply envelope_clean|by repeat constructor]].
      unfold heredoc_openers in Ho. rewrite !elem_of_cons, elem_of_nil in Ho. by destruct Ho as [->|[->|[->|[]]]].
    + assert (exists c l, opener = String c l /\ is_white c = false) as (c & l & -> & Hc).
      { unfold heredoc_openers in Ho. rewrite !elem_of_cons, elem_of_nil in Ho.
        destruct Ho as [->|[->|[->|[]]]]; by eexists _, _. }
      by apply (join_trim c l (envelope hs) "EOF").
    + apply strip_heredoc_wrapped. by apply includes_true.
  - intros text. unfold parseApplyPatchStreaming, parseApplyPatch, parseApplyPatchWithOptions.
    destruct (strip_heredoc (split_lines (trim text))) as [|first rest]; [by eexists|].
    destruct (decide (trim first <> BEGIN_PATCH_MARKER)); [by eexists|]. cbv zeta.
    destruct (bool_decide _); cbn [negb andb];
      match goal with |- context [parse_hunks ?f true ?r ?n ?a] =>
        destruct (parse_streaming_total f r n a) as [parsed Hparsed]; rewrite Hparsed; exists parsed; split; [done|] end.
    + intros strict Hs. apply parse_streaming_agrees in Hs. congruence.
    + done.
Qed.

(** ** Applying hunks in order *)

Section in_order.
Context {FS R E : Type} (applyPatch : FS -> PatchInput -> outcome E R * FS).

(** Hunks applied one after the other, all of them successfully. *)
Inductive applied : FS -> list PatchInput -> FS -> list R -> Prop :=
| applied_none fs : applied fs [] fs []
| applied_one fs h fs1 r hs fs2 rs :
    applyPatch fs h = (Ok r, fs1) -> applied fs1 hs fs2 rs -> applied fs (h :: hs) fs2 (r :: rs).

Definition paths_of (o : Operation) (hs : list PatchInput) : list string :=
  omap (fun h => match o, op h with
                 | create_op, create_op | delete_op, delete_op | update_op, update_op => Some (path h)
                 | _, _ => None end) hs.

(** The summary so far, with the paths of the hunks. *)
Definition record_all (a : affected_files) (hs : list PatchInput) : affected_files := {|
  added := added a ++ paths_of create_op hs;
  modified := modified a ++ paths_of update_op hs;
  deleted := deleted a ++ paths_of delete_op hs |}.

Lemma record_all_cons a h hs : record_all a (h :: hs) = record_all (recordAffected a h) hs.
Proof.
  destruct a as [ad mo de]. unfold record_all, recordAffected, paths_of.
  destruct h as [p [| |] rn df]; cbn [op path added modified deleted];
    match goal with |- context [omap _ (?x :: hs)] => idtac end;
    cbn [omap list_omap op path]; by rewrite <- ?app_assoc.
Qed.

Lemma apply_hunks_spec hs : forall fs results a,
  match apply_hunks applyPatch fs hs results a with
  | (Ok (rs, a'), fs') => exists rs', rs = results ++ rs' /\ applied fs hs fs' rs' /\ a' = record_all a hs
  | (Throw e, fs') => exists pre h post fs1 rs err,
      hs = pre ++ h :: post /\ applied fs pre fs1 rs /\ applyPatch fs1 h = (Throw err, fs') /\ e = hunk_failed err
  end.
Proof.
  induction hs as [|h hs IH]; intros fs results a.
  { exists []. rewrite app_nil_r. split_and!; [done|constructor|]. unfold record_all, paths_of. destruct a. cbn.
    by rewrite !app_nil_r. }
  cbn [apply_hunks]. destruct (applyPatch fs h) as [[r|err] fs1] eqn:Eh.
  - specialize (IH fs1 (results ++ [r]) (recordAffected a h)).
    destruct (apply_hunks applyPatch fs1 hs _ _) as [[[rs a']|e] fs'].
    + destruct IH as (rs' & -> & Ha & ->). exists (r :: rs'). rewrite <- app_assoc.
      split_and!; [done|by econstructor|by rewrite record_all_cons].
    + destruct IH as (pre & h' & post & fs2 & rs & err & -> & Ha & Hf & ->).
      exists (h :: pre), h', post, fs2, (r :: rs), err. split_and!; [done|by econstructor|done|done].
  - exists [], h, hs, fs, [], err. split_and!; [done|constructor|done|done].
Qed.

(** Applying an envelope: nothing is touched when it does not parse or
    has no hunk; otherwise its hunks are applied in order, each to the files
    the one before it left, and success means all of them were, the summary
    listing every path once per hunk under its operation; when a hunk fails the
    hunks before it stay applied and those after it are not tried. *)
Theorem codex_patch_in_order fs text :
  match applyCodexPatch applyPatch fs text with
  | (Ok (rs, a), fs') =>
      exists hs, parseApplyPatch text = Ok hs /\ hs <> [] /\ applied fs hs fs' rs /\
        a = {| added := paths_of create_op hs; modified := paths_of update_op hs; deleted := paths_of delete_op hs |}
  | (Throw (parse_failed e), fs') => parseApplyPatch text = Throw e /\ fs' = fs
  | (Throw no_files, fs') => parseApplyPatch text = Ok [] /\ fs' = fs
  | (Throw (hunk_failed err), fs') =>
      exists pre h post fs1 rs, parseApplyPatch text = Ok (pre ++ h :: post) /\
        applied fs pre fs1 rs /\ applyPatch fs1 h = (Throw err, fs')
  end.
Proof.
  unfold applyCodexPatch. destruct (parseApplyPatch text) as [[|h hs]|e]; [done| |done].
  pose proof (apply_hunks_spec (h :: hs) fs [] {| added := []; modified := []; deleted := [] |}) as H.
  destruct (apply_hunks _ _ _ _ _) as [[[rs a]|e] fs'].
  - destruct H as (rs' & -> & Ha & ->). by exists (h :: hs).
  - destruct H as (pre & h' & post & fs1 & rs & err & -> & Ha & Hf & ->). by exists pre, h', post, fs1, rs.
Qed.
End in_order.

Definition sample_hunks : list Hunk :=
  [AddFile "a.txt" ["one"; ""; "two"]; UpdateFile "b.txt" (Some "c.txt") ["@@ f"; "-x"; "+y"];
   DeleteFile "d.txt"; UpdateFile "e.txt" None [" k"; "*** End of File"]].

Lemma apply_patch_roundtrip_witness :
  parseApplyPatchWithOptions (join newline (envelope sample_hunks)) false = Ok (hunk_input <$> sample_hunks) /\
  parseApplyPatch (join newline ["*** Begin Patch"; "*** Update File: a"; "*** End Patch"]) = Throw (empty_update "a" 3).
Proof.
  split; [|vm_compute; reflexivity]. apply (apply_patch_roundtrip sample_hunks).
  unfold sample_hunks. repeat (apply Forall_cons; split); try apply Forall_nil; repeat split; try reflexivity;
    try discriminate; repeat (apply Forall_cons; split); try apply Forall_nil; reflexivity.
Defined.
