(* ===== verification/JobOutput.v ===== *)
(** * Output of background jobs ([async/job-manager.ts])

    The retained output of each job, addressed by UTF-8 byte offsets, and the
    previews of long completion texts.  A code unit below 128 takes one byte
    and the others modelled two. *)

From Stdlib Require Import Ascii.
From S2P Require Import Prelude JsNumber JsValue JsText.

Local Open Scope string_scope.
Local Open Scope list_scope.
Local Open Scope Z_scope.

(** [Buffer.byteLength(char, "utf8")] *)
Definition char_bytes (c : ascii) : Z := if decide (nat_of_ascii c < 128)%nat then 1 else 2.

Fixpoint byteLength (s : string) : Z :=
  match s with
  | EmptyString => 0
  | String c r => char_bytes c + byteLength r
  end.

Fixpoint slice_from (s : string) (consumed offset : Z) : string :=
  match s with
  | EmptyString => EmptyString
  | String c r =>
      if decide (offset < consumed + char_bytes c) then s else slice_from r (consumed + char_bytes c) offset
  end.

Definition sliceTextFromUtf8ByteOffset (text : string) (offsetBytes : Z) : string :=
  if decide (offsetBytes <= 0) then text else slice_from text 0 offsetBytes.

Fixpoint slice_after (s : string) (consumed offset : Z) : string :=
  match s with
  | EmptyString => EmptyString
  | String c r =>
      if decide (offset <= consumed + char_bytes c) then r else slice_after r (consumed + char_bytes c) offset
  end.

Definition sliceTextAfterUtf8ByteOffset (text : string) (offsetBytes : Z) : string :=
  if decide (offsetBytes <= 0) then text else slice_after text 0 offsetBytes.

Fixpoint slice_to (s : string) (consumed maxBytes : Z) : string :=
  match s with
  | EmptyString => EmptyString
  | String c r =>
      if decide (maxBytes < consumed + char_bytes c) then EmptyString
      else String c (slice_to r (consumed + char_bytes c) maxBytes)
  end.

Definition sliceTextToUtf8ByteLength (text : string) (maxBytes : Z) : string :=
  if decide (maxBytes <= 0) then EmptyString else slice_to text 0 maxBytes.

(** ** Previews *)

Definition DELIVERY_MAX_TEXT_BYTES : Z := 64 * 1024.
Definition DELIVERY_PREVIEW_HEAD_BYTES : Z := 32 * 1024.
Definition DELIVERY_PREVIEW_TAIL_BYTES : Z := 32 * 1024.

Record delivery_text := { text : string; originalBytes : option Z; text_truncated : option bool }.

Definition preview_notice (bytes : Z) : string :=
  newline +:+ newline +:+ "[async delivery output truncated from " +:+ show_Z bytes +:+ " bytes]"
    +:+ newline +:+ newline.

Definition boundedDeliveryText (s : string) : delivery_text :=
  let bytes := byteLength s in
  if decide (bytes <= DELIVERY_MAX_TEXT_BYTES) then {| text := s; originalBytes := None; text_truncated := None |}
  else
    let head := sliceTextToUtf8ByteLength s DELIVERY_PREVIEW_HEAD_BYTES in
    let tailStart := Z.max 0 (bytes - DELIVERY_PREVIEW_TAIL_BYTES) in
    let tail := sliceTextAfterUtf8ByteOffset s tailStart in
    {| text := head +:+ preview_notice bytes +:+ tail; originalBytes := Some bytes; text_truncated := Some true |}.

(** ** Retained output *)

Inductive job_status := running | completed | failed | cancelled | paused.

(** The part of a job the output protocol reads. *)
Record AsyncJob := { status : job_status; ownerId : option string }.

Record AsyncJobOutputChunk := { startByte : Z; endByte : Z; chunk_text : string }.

Record AsyncJobOutputState := {
  chunks : list AsyncJobOutputChunk;
  state_startOffset : Z;
  state_nextOffset : Z;
  retainedBytes : Z
}.

Record AsyncJobOutputSlice := {
  slice_status : job_status;
  slice_text : string;
  startOffset : Z;
  nextOffset : Z;
  truncated : bool
}.

Definition DEFAULT_JOB_OUTPUT_RETENTION_BYTES : Z := 512 * 1024.

(** The fields of the manager the output protocol uses. *)
Record job_outputs := {
  jobs : list (string * AsyncJob);
  outputState : list (string * AsyncJobOutputState);
  disposed : bool;
  outputRetentionBytes : Z
}.

Definition empty_state : AsyncJobOutputState :=
  {| chunks := []; state_startOffset := 0; state_nextOffset := 0; retainedBytes := 0 |}.

(** Whole chunks are dropped from the front while too much is retained. *)
Fixpoint evict (limit : Z) (cs : list AsyncJobOutputChunk) (start next retained : Z) : AsyncJobOutputState :=
  match cs with
  | dropped :: cs' =>
      if decide (limit < retained)
      then evict limit cs' (endByte dropped) next (retained - (endByte dropped - startByte dropped))
      else {| chunks := cs; state_startOffset := start; state_nextOffset := next; retainedBytes := retained |}
  | [] => {| chunks := []; state_startOffset := start; state_nextOffset := next; retainedBytes := retained |}
  end.

Definition append_chunk (limit : Z) (s : AsyncJobOutputState) (chunk : string) : AsyncJobOutputState :=
  let byteLength := byteLength chunk in
  let startByte := state_nextOffset s in
  let endByte := startByte + byteLength in
  evict limit (chunks s ++ [{| startByte := startByte; endByte := endByte; chunk_text := chunk |}])
    (state_startOffset s) endByte (retainedBytes s + byteLength).

Definition appendOutput (m : job_outputs) (jobId chunk : string) : job_outputs :=
  if disposed m then m
  else if decide (chunk = EmptyString) then m
  else match map_get (jobs m) jobId with
  | None => m
  | Some _ =>
      let state := default empty_state (map_get (outputState m) jobId) in
      if decide (byteLength chunk = 0) then m
      else {| jobs := jobs m;
              outputState := map_set (outputState m) jobId (append_chunk (outputRetentionBytes m) state chunk);
              disposed := disposed m; outputRetentionBytes := outputRetentionBytes m |}
  end.

Definition read_chunk (offset : Z) (c : AsyncJobOutputChunk) : string :=
  if decide (endByte c <= offset) then EmptyString
  else if decide (startByte c < offset) then sliceTextFromUtf8ByteOffset (chunk_text c) (offset - startByte c)
  else chunk_text c.

Definition read_state (s : AsyncJobOutputState) (status : job_status) (offset : Z) : AsyncJobOutputSlice :=
  let requestedOffset := Z.max 0 offset in
  if decide (state_nextOffset s <= requestedOffset) then {|
    slice_status := status; slice_text := EmptyString; startOffset := state_startOffset s;
    nextOffset := state_nextOffset s; truncated := false |}
  else
    let truncated := bool_decide (requestedOffset < state_startOffset s) in
    let effectiveOffset := if truncated then state_startOffset s else requestedOffset in
    {| slice_status := status; slice_text := join EmptyString (read_chunk effectiveOffset <$> chunks s);
       startOffset := state_startOffset s; nextOffset := state_nextOffset s; truncated := truncated |}.

(** [filter] is the [ownerId] of the filter; an empty one is no filter. *)
Definition readOutputSince (m : job_outputs) (jobId : string) (offset : Z) (filter : option string)
    : option AsyncJobOutputSlice :=
  match map_get (jobs m) jobId with
  | None => None
  | Some job =>
      let foreign := match filter with
                     | Some (String _ _) => bool_decide (ownerId job <> filter)
                     | _ => false
                     end in
      if foreign then None
      else match map_get (outputState m) jobId with
      | None => Some {| slice_status := status job; slice_text := EmptyString; startOffset := 0;
                        nextOffset := 0; truncated := false |}
      | Some s => Some (read_state s (status job) offset)
      end
  end.

(** ** Bytes *)

Lemma char_bytes_pos c : 1 <= char_bytes c <= 2.
Proof. unfold char_bytes. case_decide; lia. Qed.

Lemma byteLength_nonneg s : 0 <= byteLength s.
Proof. induction s as [|c s IH]; simpl; [lia|]. pose proof (char_bytes_pos c). lia. Qed.

Lemma byteLength_app a b : byteLength (a +:+ b) = byteLength a + byteLength b.
Proof. induction a as [|c a IH]; [done|]. rewrite append_cons. simpl. lia. Qed.

Lemma byteLength_pos s : s <> EmptyString -> 0 < byteLength s.
Proof. destruct s as [|c s]; [done|]. intros _. simpl. pose proof (char_bytes_pos c). pose proof (byteLength_nonneg s). lia. Qed.

(** Slicing at a character boundary gives the text after it. *)
Lemma slice_from_boundary p q consumed : slice_from (p +:+ q) consumed (consumed + byteLength p) = q.
Proof.
  revert consumed. induction p as [|c p IH]; intros consumed.
  - rewrite append_nil. cbn [byteLength]. rewrite Z.add_0_r. destruct q as [|d q]; [done|]. simpl.
    pose proof (char_bytes_pos d). by rewrite decide_True by lia.
  - rewrite append_cons. cbn [slice_from byteLength]. pose proof (char_bytes_pos c). pose proof (byteLength_nonneg p).
    rewrite decide_False by lia. rewrite Z.add_assoc. apply IH.
Qed.

Lemma sliceTextFrom_boundary p q : sliceTextFromUtf8ByteOffset (p +:+ q) (byteLength p) = q.
Proof.
  unfold sliceTextFromUtf8ByteOffset. case_decide as H; [|by apply (slice_from_boundary p q 0)].
  destruct p as [|c p]; [done|]. pose proof (byteLength_pos (String c p) ltac:(done)). lia.
Qed.

(** The longest prefix of at most [max] bytes. *)
Lemma slice_to_spec s consumed max :
  consumed <= max ->
  exists rest, s = slice_to s consumed max +:+ rest /\ consumed + byteLength (slice_to s consumed max) <= max /\
    (rest <> EmptyString -> max < consumed + byteLength (slice_to s consumed max) + 2).
Proof.
  revert consumed. induction s as [|c s IH]; intros consumed Hm.
  { exists EmptyString. simpl. split_and!; [done|lia|done]. }
  cbn [slice_to]. pose proof (char_bytes_pos c). case_decide as Hd.
  - exists (String c s). rewrite append_nil. simpl. split_and!; [done|lia|lia].
  - destruct (IH (consumed + char_bytes c)) as (rest & Hs & Hb & Hr); [lia|]. exists rest.
    rewrite append_cons. cbn [byteLength]. split_and!; [by f_equal|lia|]. intros Hne. specialize (Hr Hne). lia.
Qed.

(** The text after the first boundary at or past [offset]. *)
Lemma slice_after_spec s consumed offset :
  consumed < offset -> offset <= consumed + byteLength s ->
  exists p, s = p +:+ slice_after s consumed offset /\
    offset <= consumed + byteLength p < offset + 2.
Proof.
  revert consumed. induction s as [|c s IH]; intros consumed Hc Ho; [simpl in Ho; lia|].
  cbn [slice_after byteLength] in *. pose proof (char_bytes_pos c). case_decide as Hd.
  - exists (String c EmptyString). rewrite append_cons, append_nil. simpl. split; [done|lia].
  - destruct (IH (consumed + char_bytes c)) as (p & Hs & Hp); [lia|lia|].
    exists (String c p). rewrite append_cons. cbn [byteLength]. split; [by f_equal|lia].
Qed.

Lemma app_prefix (a b c d : string) :
  a +:+ b = c +:+ d -> byteLength a <= byteLength c -> exists mid, c = a +:+ mid /\ b = mid +:+ d.
Proof.
  revert c. induction a as [|x a IH]; intros c H Hl.
  { rewrite append_nil in H. by exists c. }
  rewrite append_cons in H. destruct c as [|y c].
  { simpl in Hl. pose proof (char_bytes_pos x). pose proof (byteLength_nonneg a). lia. }
  rewrite append_cons in H. injection H as -> H. destruct (IH c H) as (mid & -> & ->); [simpl in Hl; lia|].
  exists mid. by rewrite append_cons.
Qed.

(** The preview of a completion text: short texts are delivered whole; of
    a long one, the start and the end are kept, each of at most 32 KiB and at
    most one byte short of it, without splitting a character or overlapping,
    around a notice that names its full size. *)
Theorem delivery_preview_exact (s : string) :
  (byteLength s <= 65536 -> boundedDeliveryText s = {| text := s; originalBytes := None; text_truncated := None |}) /\
  (65536 < byteLength s ->
     exists head mid tail, s = head +:+ mid +:+ tail /\
       boundedDeliveryText s = {| text := head +:+ preview_notice (byteLength s) +:+ tail;
                                  originalBytes := Some (byteLength s); text_truncated := Some true |} /\
       32767 <= byteLength head <= 32768 /\ 32767 <= byteLength tail <= 32768).
Proof.
  unfold boundedDeliveryText, DELIVERY_MAX_TEXT_BYTES. change (64 * 1024) with 65536. split; intros Hb.
  { by rewrite decide_True. }
  rewrite decide_False by lia. cbv zeta. unfold DELIVERY_PREVIEW_HEAD_BYTES, DELIVERY_PREVIEW_TAIL_BYTES.
  change (32 * 1024) with 32768. rewrite Z.max_r by lia.
  unfold sliceTextToUtf8ByteLength, sliceTextAfterUtf8ByteOffset. rewrite decide_False by lia.
  rewrite decide_False by lia.
  destruct (slice_to_spec s 0 32768) as (rest & Hs & Hh & Hr); [lia|].
  destruct (slice_after_spec s 0 (byteLength s - 32768)) as (p & Hp & Hpb); [lia|lia|].
  set (head := slice_to s 0 32768) in *. set (tail := slice_after s 0 (byteLength s - 32768)) in *.
  assert (byteLength s = byteLength p + byteLength tail) as Hl by (rewrite Hp at 1; apply byteLength_app).
  destruct (app_prefix head rest p tail) as (mid & Hm & Hrest); [by rewrite <- Hs, <- Hp|lia|].
  exists head, mid, tail. split_and!; try done.
  - by rewrite Hs at 1; rewrite Hrest.
  - assert (rest <> EmptyString) as Hne; [|specialize (Hr Hne); lia].
    intros ->. rewrite append_nil_r in Hs. apply (f_equal byteLength) in Hs. lia.
  - lia.
  - lia.
Qed.

(** ** The retained window *)

Definition bytes (l : list string) : Z := byteLength (join EmptyString l).

Lemma concat_cons x l : join EmptyString (x :: l) = x +:+ join EmptyString l.
Proof. destruct l; [by rewrite append_nil_r|done]. Qed.

Lemma concat_app l l' : join EmptyString (l ++ l') = join EmptyString l +:+ join EmptyString l'.
Proof.
  induction l as [|x l IH]; [by rewrite append_nil|]. cbn [app]. by rewrite !concat_cons, IH, append_assoc.
Qed.

Lemma bytes_cons x l : bytes (x :: l) = byteLength x + bytes l.
Proof. unfold bytes. by rewrite concat_cons, byteLength_app. Qed.

Lemma bytes_app l l' : bytes (l ++ l') = bytes l + bytes l'.
Proof. unfold bytes. by rewrite concat_app, byteLength_app. Qed.

Lemma bytes_nonneg l : 0 <= bytes l.
Proof. apply byteLength_nonneg. Qed.

(** Chunks one after the other from byte [start] on. *)
Fixpoint laid_out (start : Z) (cs : list AsyncJobOutputChunk) : Prop :=
  match cs with
  | [] => True
  | c :: cs => startByte c = start /\ endByte c = start + byteLength (chunk_text c) /\ laid_out (endByte c) cs
  end.

Lemma laid_out_snoc start cs c :
  laid_out start cs -> startByte c = start + bytes (chunk_text <$> cs) ->
  endByte c = startByte c + byteLength (chunk_text c) -> laid_out start (cs ++ [c]).
Proof.
  revert start. induction cs as [|d cs IH]; intros start Hl Hs He; cbn [app laid_out] in *.
  - unfold bytes in Hs. simpl in Hs. split_and!; [lia|lia|done].
  - destruct Hl as (Hd & Hde & Hl). rewrite fmap_cons, bytes_cons in Hs. split_and!; [done|done|].
    apply IH; [done|lia|done].
Qed.

(** The state after the chunks [all]: the first ones are gone, the rest is
    retained, within the limit, and the last one gone did not fit. *)
Definition holds (limit : Z) (s : AsyncJobOutputState) (all : list string) : Prop :=
  exists gone,
    all = gone ++ (chunk_text <$> chunks s) /\
    state_startOffset s = bytes gone /\ laid_out (state_startOffset s) (chunks s) /\
    retainedBytes s = bytes (chunk_text <$> chunks s) /\ state_nextOffset s = bytes all /\
    retainedBytes s <= limit /\
    (forall c, last gone = Some c -> limit < byteLength c + retainedBytes s).

Lemma evict_holds limit all : forall cs gone retained,
  0 <= limit -> all = gone ++ (chunk_text <$> cs) -> laid_out (bytes gone) cs ->
  retained = bytes (chunk_text <$> cs) ->
  (forall c, last gone = Some c -> limit < byteLength c + retained) ->
  holds limit (evict limit cs (bytes gone) (bytes all) retained) all.
Proof.
  induction cs as [|c cs IH]; intros gone retained Hlim Hall Hlay Hret Hlast; cbn [evict].
  { exists gone. cbn in *. subst. rewrite app_nil_r in *. unfold bytes in Hlast |- *. split_and!; auto. }
  destruct Hlay as (Hs & He & Hlay). rewrite fmap_cons, bytes_cons in Hret.
  case_decide as Hd.
  - assert (bytes (gone ++ [chunk_text c]) = endByte c) as Hg.
    { rewrite bytes_app, bytes_cons. unfold bytes at 2. simpl. lia. }
    rewrite <- Hg. apply IH; [done| | | |].
    + rewrite Hall, fmap_cons, <- app_assoc. done.
    + by rewrite Hg.
    + lia.
    + intros x Hx. rewrite last_snoc in Hx. simplify_eq. lia.
  - exists gone. cbn [chunks state_startOffset state_nextOffset retainedBytes]. rewrite fmap_cons, bytes_cons.
    split_and!; try done; lia.
Qed.

Lemma append_holds limit s all chunk :
  0 <= limit -> holds limit s all -> holds limit (append_chunk limit s chunk) (all ++ [chunk]).
Proof.
  intros Hlim (gone & Hall & Hstart & Hlay & Hret & Hnext & Hle & Hlast). unfold append_chunk. cbv zeta.
  rewrite Hstart. replace (state_nextOffset s + byteLength chunk) with (bytes (all ++ [chunk]))
    by (rewrite bytes_app, bytes_cons, Hnext; unfold bytes at 2; simpl; lia).
  pose proof (byteLength_nonneg chunk).
  assert (bytes [chunk] = byteLength chunk) as Hone by (rewrite bytes_cons; unfold bytes; simpl; lia).
  apply evict_holds; [done| | | |].
  - by rewrite Hall, fmap_app, app_assoc.
  - apply laid_out_snoc; [by rewrite <- Hstart| |cbn [endByte startByte chunk_text]; rewrite bytes_app, Hone; lia].
    cbn [startByte]. by rewrite Hnext, Hall, bytes_app.
  - rewrite fmap_app, bytes_app, <- Hret, <- Hone. done.
  - intros c Hc. specialize (Hlast c Hc). lia.
Qed.

(** ** Reading *)

Lemma read_all_chunks start cs offset :
  offset <= start -> laid_out start cs -> Forall (fun c => 0 < byteLength (chunk_text c)) cs ->
  join EmptyString (read_chunk offset <$> cs) = join EmptyString (chunk_text <$> cs).
Proof.
  revert start. induction cs as [|c cs IH]; intros start Ho Hl Hne; [done|]. destruct Hl as (Hs & He & Hl).
  apply Forall_cons in Hne as [Hc Hne].
  rewrite !fmap_cons, !concat_cons. rewrite (IH (endByte c)); [|lia|done|done]. f_equal. unfold read_chunk.
  rewrite decide_False, decide_False by lia. done.
Qed.

(** Reading at a boundary of the retained text gives the rest of it. *)
Lemma read_boundary cs : forall start p q,
  laid_out start cs -> Forall (fun c => 0 < byteLength (chunk_text c)) cs ->
  join EmptyString (chunk_text <$> cs) = p +:+ q ->
  join EmptyString (read_chunk (start + byteLength p) <$> cs) = q.
Proof.
  induction cs as [|c cs IH]; intros start p q Hl Hne Hpq.
  { simpl in Hpq. destruct p as [|x p]; [by rewrite append_nil in Hpq|by rewrite append_cons in Hpq]. }
  destruct Hl as (Hs & He & Hl). apply Forall_cons in Hne as [Hc Hne].
  rewrite fmap_cons, concat_cons in Hpq. rewrite fmap_cons, concat_cons.
  destruct (decide (byteLength (chunk_text c) <= byteLength p)) as [Hle|Hgt].
  - destruct (app_prefix _ _ _ _ Hpq Hle) as (mid & -> & Hmid). rewrite byteLength_app.
    pose proof (byteLength_nonneg mid). unfold read_chunk at 1. rewrite decide_True by lia. rewrite append_nil.
    replace (start + (byteLength (chunk_text c) + byteLength mid)) with (endByte c + byteLength mid) by lia.
    by apply IH.
  - destruct (app_prefix p q (chunk_text c) (join EmptyString (chunk_text <$> cs))) as (mid & Hm & ->); [done|lia|].
    rewrite (read_all_chunks (endByte c)); [|lia|done|done]. f_equal. unfold read_chunk.
    rewrite decide_False by lia. pose proof (byteLength_nonneg p). case_decide as Hp.
    + replace (start + byteLength p - startByte c) with (byteLength p) by lia. rewrite Hm. apply sliceTextFrom_boundary.
    + destruct p as [|x p]; [by rewrite append_nil in Hm|].
      pose proof (byteLength_pos (String x p) ltac:(done)). lia.
Qed.

Lemma chunks_nonempty limit s all :
  holds limit s all -> Forall (fun c => c <> EmptyString) all ->
  Forall (fun c => 0 < byteLength (chunk_text c)) (chunks s).
Proof.
  intros (gone & -> & _) Hne. apply Forall_app in Hne as [_ Hne]. rewrite Forall_forall in Hne.
  apply Forall_forall. intros c Hc. apply byteLength_pos, Hne, list_elem_of_fmap. by exists c.
Qed.

Lemma read_state_exact limit s all st p q :
  holds limit s all -> Forall (fun c => c <> EmptyString) all -> join EmptyString all = p +:+ q ->
  let lost := bool_decide (byteLength p < state_startOffset s) in
  read_state s st (byteLength p) = {|
    slice_status := st;
    slice_text := if lost then join EmptyString (chunk_text <$> chunks s) else q;
    startOffset := state_startOffset s; nextOffset := byteLength (p +:+ q); truncated := lost |}.
Proof.
  intros Hh Hne Hpq. pose proof (chunks_nonempty _ _ _ Hh Hne) as Hcs.
  destruct Hh as (gone & Hall & Hstart & Hlay & Hret & Hnext & Hle & Hlast). cbv zeta.
  pose proof (byteLength_nonneg p). pose proof (byteLength_nonneg q).
  assert (state_nextOffset s = byteLength p + byteLength q) as Hn
    by (rewrite Hnext; unfold bytes; by rewrite Hpq, byteLength_app).
  assert (state_startOffset s <= state_nextOffset s) as Hsn.
  { rewrite Hstart, Hnext, Hall, bytes_app. pose proof (bytes_nonneg (chunk_text <$> chunks s)). lia. }
  unfold read_state. rewrite Z.max_r, byteLength_app, Hn by lia. case_decide as Hd.
  - assert (q = EmptyString) as ->.
    { destruct q as [|c q]; [done|]. pose proof (byteLength_pos (String c q) ltac:(done)). lia. }
    rewrite bool_decide_false by lia. done.
  - destruct (decide (byteLength p < state_startOffset s)) as [Hl|Hl].
    + rewrite bool_decide_true by done. f_equal. by apply (read_all_chunks (state_startOffset s)).
    + rewrite bool_decide_false by done. f_equal.
      rewrite Hall, concat_app in Hpq. fold (bytes gone) in Hstart.
      destruct (app_prefix (join EmptyString gone) (join EmptyString (chunk_text <$> chunks s)) p q) as (mid & -> & Hmid);
        [done|unfold bytes in Hstart; lia|].
      rewrite byteLength_app. unfold bytes in Hstart. rewrite <- Hstart. by apply read_boundary.
Qed.

(** ** The protocol *)

Definition new_outputs (js : list (string * AsyncJob)) : job_outputs := {|
  jobs := js; outputState := []; disposed := false; outputRetentionBytes := DEFAULT_JOB_OUTPUT_RETENTION_BYTES |}.

Definition append_all (m : job_outputs) (calls : list (string * string)) : job_outputs :=
  foldl (fun m c => appendOutput m c.1 c.2) m calls.

(** The chunks appended for one job. *)
Definition chunks_of (id : string) (calls : list (string * string)) : list string :=
  omap (fun c => if decide (c.1 = id) then if decide (c.2 = EmptyString) then None else Some c.2 else None) calls.

Definition foreign (job : AsyncJob) (filter : option string) : bool :=
  match filter with Some (String _ _) => bool_decide (ownerId job <> filter) | _ => false end.

(** What the manager knows of one job after the calls. *)
Definition tracks (m : job_outputs) (id : string) (all : list string) : Prop :=
  match map_get (outputState m) id with
  | Some s => holds (outputRetentionBytes m) s all
  | None => all = []
  end.

Lemma chunks_of_ne id calls : Forall (fun c => c <> EmptyString) (chunks_of id calls).
Proof.
  apply Forall_forall. intros c Hc. unfold chunks_of in Hc. apply list_elem_of_omap in Hc as ([i x] & _ & Hx).
  simpl in Hx. repeat case_decide; by simplify_eq.
Qed.

Lemma chunks_of_snoc id calls c :
  chunks_of id (calls ++ [c]) = chunks_of id calls
    ++ (if decide (c.1 = id) then if decide (c.2 = EmptyString) then [] else [c.2] else []).
Proof. unfold chunks_of. rewrite omap_app. f_equal. simpl. by repeat case_decide. Qed.

Lemma append_tracks js m id job calls c :
  jobs m = js -> map_get js id = Some job -> disposed m = false -> 0 <= outputRetentionBytes m ->
  tracks m id (chunks_of id calls) -> tracks (appendOutput m c.1 c.2) id (chunks_of id (calls ++ [c])).
Proof.
  intros <- Hj Hd Hlim Ht. destruct c as [i x]. rewrite chunks_of_snoc. unfold appendOutput. cbn [fst snd]. rewrite Hd.
  destruct (decide (x = EmptyString)) as [->|Hx]; [case_decide; by rewrite app_nil_r|].
  pose proof (byteLength_pos x Hx). destruct (decide (i = id)) as [->|Hi].
  - rewrite Hj, decide_False by lia. unfold tracks in *. cbn [outputState outputRetentionBytes].
    rewrite map_get_set_eq. apply append_holds; [done|].
    destruct (map_get (outputState m) id) as [s|]; [done|]. rewrite Ht. exists []. cbn. unfold bytes.
    split_and!; try done.
  - rewrite app_nil_r. destruct (map_get (jobs m) i); [|done]. rewrite decide_False by lia.
    unfold tracks in *. cbn [outputState outputRetentionBytes]. by rewrite map_get_set_ne by congruence.
Qed.

Lemma append_fields m i x :
  jobs (appendOutput m i x) = jobs m /\ disposed (appendOutput m i x) = disposed m /\
  outputRetentionBytes (appendOutput m i x) = outputRetentionBytes m.
Proof.
  unfold appendOutput. destruct (disposed m) eqn:E; [done|]. case_decide; [done|].
  destruct (map_get (jobs m) i); [|done]. case_decide; done.
Qed.

Lemma append_all_tracks js id job calls :
  map_get js id = Some job ->
  let m := append_all (new_outputs js) calls in
  jobs m = js /\ disposed m = false /\ outputRetentionBytes m = DEFAULT_JOB_OUTPUT_RETENTION_BYTES /\
  tracks m id (chunks_of id calls).
Proof.
  intros Hj. induction calls as [|c calls IH] using rev_ind; [done|]. unfold append_all in *.
  rewrite foldl_app. cbn [foldl]. destruct IH as (H1 & H2 & H3 & H4).
  set (m := foldl _ _ calls) in *. destruct (append_fields m c.1 c.2) as (F1 & F2 & F3).
  rewrite F1, F2, F3. split_and!; try done. apply (append_tracks js m id job); try done.
  rewrite H3. unfold DEFAULT_JOB_OUTPUT_RETENTION_BYTES. lia.
Qed.

(** C32.  The output of a job can be followed with a cursor and nothing else.
    Whatever was appended, to this job and others, the manager retains the end
    of the job's output, at most 512 KiB of it, having dropped whole chunks
    from the front and none that still fitted; a read at any character
    boundary returns exactly the output from there on and the cursor of its
    end, or, when the boundary is no longer retained, everything that is and
    the mark that something was lost; another owner sees no job. *)
Theorem output_cursor_exact js id job calls :
  map_get js id = Some job ->
  let m := append_all (new_outputs js) calls in
  exists gone kept,
    chunks_of id calls = gone ++ kept /\ bytes kept <= 524288 /\
    (forall c, last gone = Some c -> 524288 < byteLength c + bytes kept) /\
    forall p q filter, join EmptyString (chunks_of id calls) = p +:+ q ->
      readOutputSince m id (byteLength p) filter =
        if foreign job filter then None
        else
          let lost := bool_decide (byteLength p < bytes gone) in
          Some {| slice_status := status job; slice_text := if lost then join EmptyString kept else q;
                  startOffset := bytes gone; nextOffset := byteLength (p +:+ q); truncated := lost |}.
Proof.
  intros Hj m. destruct (append_all_tracks js id job calls Hj) as (H1 & _ & H3 & H4). fold m in H1, H3, H4.
  unfold tracks in H4. destruct (map_get (outputState m) id) as [s|] eqn:Es.
  - pose proof H4 as (gone & Hall & Hstart & Hlay & Hret & Hnext & Hle & Hlast). rewrite H3 in H4, Hle, Hlast.
    exists gone, (chunk_text <$> chunks s). rewrite <- Hret. split_and!; try done.
    intros p q filter Hpq. unfold readOutputSince. rewrite H1, Hj, Es. fold (foreign job filter).
    destruct (foreign job filter); [done|]. f_equal. rewrite <- Hstart.
    by apply (read_state_exact _ _ _ _ _ _ H4 (chunks_of_ne _ _)).
  - rewrite H4. exists [], []. split_and!; [done|done|done|]. intros p q filter Hpq.
    destruct p as [|x p]; [|by rewrite append_cons in Hpq]. rewrite append_nil in Hpq. subst q.
    unfold readOutputSince. rewrite H1, Hj, Es. by fold (foreign job filter).
Qed.

Lemma output_cursor_exact_witness :
  let js := [("j", {| status := running; ownerId := Some "main" |})] in
  let calls := [("j", "one"); ("k", "other"); ("j", "two")] in
  exists gone kept, chunks_of "j" calls = gone ++ kept /\
    readOutputSince (append_all (new_outputs js) calls) "j" (byteLength "one") (Some "main")
    = Some {| slice_status := running;
              slice_text := if bool_decide (byteLength "one" < bytes gone) then join EmptyString kept else "two";
              startOffset := bytes gone; nextOffset := 6; truncated := bool_decide (byteLength "one" < bytes gone) |}.
Proof.
  destruct (output_cursor_exact [("j", {| status := running; ownerId := Some "main" |})] "j"
    {| status := running; ownerId := Some "main" |} [("j", "one"); ("k", "other"); ("j", "two")]) as (gone & kept & H1 & _ & _ & H4);
    [reflexivity|].
  exists gone, kept. split; [exact H1|]. exact (H4 "one" "two" (Some "main") eq_refl).
Defined.
