(* ===== verification/JobDelivery.v ===== *)
(** * Delivery of job completions ([async/job-manager.ts])

    Completion messages wait in a queue, are suppressed while their job is
    watched or once it is acknowledged, are attempted at most three times, and
    end delivered, acknowledged or in the dead letters.  The delivery loop is
    asynchronous: its suspensions are states of [loop], and every settling of a
    callback, timer or microtask is a step.  The callback [onJobComplete] is
    asynchronous: it settles in a later step and its synchronous part only
    reads the manager.  The two parallel maps of dead
    letters and of their owners, always updated together, are one map. *)

From S2P Require Import Prelude JsNumber JsValue JsText JobOutput.

Local Open Scope string_scope.
Local Open Scope list_scope.
Local Open Scope Z_scope.

Definition DELIVERY_RETRY_BASE_MS : Z := 500.
Definition DELIVERY_RETRY_MAX_MS : Z := 30000.
Definition DELIVERY_RETRY_JITTER_MS : Z := 200.
Definition DEFAULT_MAX_DELIVERY_QUEUE : nat := 100.
Definition DELIVERY_MAX_ATTEMPTS : Z := 3.
Definition MAX_DEAD_LETTERED_DELIVERIES : nat := 50.

(** [object] is the identity of the delivery record. *)
Record AsyncJobDelivery := {
  object : nat;
  d_jobId : string;
  d_text : delivery_text;
  attempt : Z;
  nextAttemptAt : Z;
  lastError : option string;
  d_ownerId : option string
}.

Record DeadLetteredDelivery := { l_attempt : Z; l_lastError : option string; l_ownerId : option string }.

#[export] Instance delivery_text_eq_dec : EqDecision delivery_text.
Proof. solve_decision. Defined.
#[export] Instance AsyncJobDelivery_eq_dec : EqDecision AsyncJobDelivery.
Proof. solve_decision. Defined.

(** No loop; a loop about to scan the queue; asleep before an attempt;
    awaiting an attempt; returned, its cleanup not yet run. *)
Inductive loop_state :=
| L_none
| L_scanning
| L_sleeping (o : nat)
| L_delivering (o : nat)
| L_returned.

Record manager := {
  m_jobs : list (string * option string);
  deliveries : list AsyncJobDelivery;
  inFlightDeliveries : list AsyncJobDelivery;
  suppressedDeliveries : list string;
  watchedJobs : list string;
  deadLetteredDeliveries : list (string * DeadLetteredDelivery);
  fencedOwners : list string;
  loop : loop_state;
  m_disposed : bool;
  nextObject : nat;
  (** The calls of [onJobComplete] with their delivery and job, and the
      deliveries whose call succeeded. *)
  started : list (nat * string);
  succeeded : list nat
}.

Definition with_queue (s : manager) ds fl lp st : manager := {|
  m_jobs := m_jobs s; deliveries := ds; inFlightDeliveries := fl;
  suppressedDeliveries := suppressedDeliveries s; watchedJobs := watchedJobs s;
  deadLetteredDeliveries := deadLetteredDeliveries s; fencedOwners := fencedOwners s; loop := lp;
  m_disposed := m_disposed s; nextObject := nextObject s; started := st; succeeded := succeeded s |}.

Definition with_control (s : manager) js sup wat dead fen dis : manager := {|
  m_jobs := js; deliveries := deliveries s; inFlightDeliveries := inFlightDeliveries s;
  suppressedDeliveries := sup; watchedJobs := wat; deadLetteredDeliveries := dead; fencedOwners := fen;
  loop := loop s; m_disposed := dis; nextObject := nextObject s; started := started s; succeeded := succeeded s |}.

Definition with_loop s lp := with_queue s (deliveries s) (inFlightDeliveries s) lp (started s).
Definition with_deliveries s ds := with_queue s ds (inFlightDeliveries s) (loop s) (started s).
Definition with_dead s dead :=
  with_control s (m_jobs s) (suppressedDeliveries s) (watchedJobs s) dead (fencedOwners s) (m_disposed s).

(** ** Sets of strings *)

Definition set_add (l : list string) (x : string) : list string := if includes l x then l else l ++ [x].
Definition set_delete (l : list string) (x : string) : list string := List.filter (fun y => negb (bool_decide (y = x))) l.

(** [Array.from(new Set(ids.map(trim).filter(nonempty)))] *)
Definition uniqueJobIds (ids : list string) : list string :=
  foldl set_add [] (List.filter (fun i => negb (bool_decide (i = EmptyString))) (trim <$> ids)).

(** ** Suppression *)

Definition isDeliveryAcknowledged (s : manager) (id : string) : bool := includes (suppressedDeliveries s) id.
Definition isDeliverySuppressed (s : manager) (id : string) : bool :=
  isDeliveryAcknowledged s id || includes (watchedJobs s) id.
Definition isDeliveryFenced (s : manager) (d : AsyncJobDelivery) : bool :=
  match d_ownerId d with Some (String _ _ as o) => includes (fencedOwners s) o | _ => false end.

Definition deliverable (s : manager) (d : AsyncJobDelivery) : bool :=
  negb (isDeliverySuppressed s (d_jobId d)) && negb (isDeliveryFenced s d).
Definition hasDeliverable (s : manager) : bool := existsb (deliverable s) (deliveries s).

(** ** Dead letters *)

Definition pruneEvictedDeadLetters (s : manager) : manager :=
  with_dead s (List.filter (fun p => bool_decide (p.1 ∈ (m_jobs s).*1)) (deadLetteredDeliveries s)).

(** The loop that drops the oldest entries. *)
Definition newest_letters (l : list (string * DeadLetteredDelivery)) : list (string * DeadLetteredDelivery) :=
  drop (length l - MAX_DEAD_LETTERED_DELIVERIES) l.

Definition recordDeadLetter (s : manager) (d : AsyncJobDelivery) : manager :=
  let s := pruneEvictedDeadLetters s in
  match map_get (m_jobs s) (d_jobId d) with
  | None => s
  | Some _ =>
      with_dead s (newest_letters (map_delete (deadLetteredDeliveries s) (d_jobId d)
        ++ [(d_jobId d, {| l_attempt := attempt d; l_lastError := lastError d; l_ownerId := d_ownerId d |})]))
  end.

(** [random] in [0, 200), already floored. *)
Definition getRetryDelay (att random : Z) : Z :=
  let exp := Z.min (Z.max (att - 1) 0) 8 in
  Z.min DELIVERY_RETRY_MAX_MS (DELIVERY_RETRY_BASE_MS * 2 ^ exp + random).

(** ** Attempts *)

Fixpoint remove_object (o : nat) (l : list AsyncJobDelivery) : list AsyncJobDelivery :=
  match l with
  | [] => []
  | d :: l => if decide (object d = o) then l else d :: remove_object o l
  end.

(** [deliveries.splice(index, 1)] and the start of [deliverDelivery]. *)
Definition deliverDelivery (s : manager) (d : AsyncJobDelivery) (lp : loop_state) : manager :=
  with_queue s (remove_object (object d) (deliveries s)) (inFlightDeliveries s ++ [d]) lp 
    (started s ++ [(object d, d_jobId d)]).

(** [runDeliveryLoop] from the head of its [while] to its next suspension. *)
Definition scan (s : manager) (now : Z) : manager :=
  match find_first (deliverable s) (deliveries s) with
  | None => with_loop s L_returned
  | Some d =>
      if decide (now < nextAttemptAt d) then with_loop s (L_sleeping (object d))
      else deliverDelivery s d (L_delivering (object d))
  end.

Definition ensureDeliveryLoop (s : manager) (now : Z) : manager :=
  if m_disposed s then s
  else match loop s with L_none => scan s now | _ => s end.

(** The loop wakes up from its sleep. *)
Definition wake (s : manager) (o : nat) (now : Z) : manager :=
  match find_first (fun d => bool_decide (object d = o)) (deliveries s) with
  | None => scan s now
  | Some d =>
      if negb (deliverable s d) then scan s now else deliverDelivery s d (L_delivering (object d))
  end.

(** The loop's own cleanup. *)
Definition loop_finally (s : manager) (now : Z) : manager :=
  let s := with_loop s L_none in
  if negb (m_disposed s) && hasDeliverable s then ensureDeliveryLoop s now else s.

(** An attempt ends: the delivery leaves the calls in flight, and a loop that
    awaited it will scan the queue again. *)
Definition deliver_finally (s : manager) (o : nat) (now : Z) : manager :=
  let s := with_queue s (deliveries s) (remove_object o (inFlightDeliveries s)) (loop s) (started s) in
  let s := if negb (m_disposed s) && hasDeliverable s then ensureDeliveryLoop s now else s in
  match loop s with
  | L_delivering o' => if decide (o' = o) then with_loop s L_scanning else s
  | _ => s
  end.

Definition deliver_ok (s : manager) (d : AsyncJobDelivery) (now : Z) : manager :=
  deliver_finally {|
    m_jobs := m_jobs s; deliveries := deliveries s; inFlightDeliveries := inFlightDeliveries s;
    suppressedDeliveries := suppressedDeliveries s; watchedJobs := watchedJobs s;
    deadLetteredDeliveries := deadLetteredDeliveries s; fencedOwners := fencedOwners s; loop := loop s;
    m_disposed := m_disposed s; nextObject := nextObject s; started := started s;
    succeeded := succeeded s ++ [object d] |} (object d) now.

Definition failed_attempt (d : AsyncJobDelivery) (error : string) (next : Z) : AsyncJobDelivery := {|
  object := object d; d_jobId := d_jobId d; d_text := d_text d; attempt := attempt d + 1;
  nextAttemptAt := next; lastError := Some error; d_ownerId := d_ownerId d |}.

Definition deliver_failed (s : manager) (d : AsyncJobDelivery) (error : string) (now random : Z) : manager :=
  let d1 := failed_attempt d error (nextAttemptAt d) in
  let s :=
    if decide (DELIVERY_MAX_ATTEMPTS <= attempt d1) then recordDeadLetter s d1
    else
      let d2 := failed_attempt d error (now + getRetryDelay (attempt d1) random) in
      if isDeliveryAcknowledged s (d_jobId d) then s else with_deliveries s (deliveries s ++ [d2]) in
  deliver_finally s (object d) now.

(** ** Operations *)

(** The loop that trims the queue: the oldest deliveries become dead letters. *)
Fixpoint trim_queue (fuel : nat) (s : manager) : manager :=
  match fuel, deliveries s with
  | S fuel, d :: ds =>
      if decide (DEFAULT_MAX_DELIVERY_QUEUE < length (deliveries s))%nat
      then trim_queue fuel (recordDeadLetter (with_deliveries s ds) d)
      else s
  | _, _ => s
  end.

Definition enqueueDelivery (s : manager) (id text : string) (now : Z) : manager :=
  if isDeliveryAcknowledged s id then s
  else
    let d := {| object := nextObject s; d_jobId := id; d_text := boundedDeliveryText text; attempt := 0;
                nextAttemptAt := now; lastError := None; d_ownerId := default None (map_get (m_jobs s) id) |} in
    let s := {|
      m_jobs := m_jobs s; deliveries := deliveries s ++ [d]; inFlightDeliveries := inFlightDeliveries s;
      suppressedDeliveries := suppressedDeliveries s; watchedJobs := watchedJobs s;
      deadLetteredDeliveries := deadLetteredDeliveries s; fencedOwners := fencedOwners s; loop := loop s;
      m_disposed := m_disposed s; nextObject := S (nextObject s); started := started s; succeeded := succeeded s |} in
    ensureDeliveryLoop (trim_queue (length (deliveries s)) s) now.

Definition watchJobs (s : manager) (ids : list string) : Z * manager :=
  let ids := uniqueJobIds ids in
  (Z.of_nat (length ids),
   with_control s (m_jobs s) (suppressedDeliveries s) (foldl set_add (watchedJobs s) ids)
     (deadLetteredDeliveries s) (fencedOwners s) (m_disposed s)).

Definition unwatchJobs (s : manager) (ids : list string) (now : Z) : Z * manager :=
  let ids := uniqueJobIds ids in
  let removed := Z.of_nat (length (List.filter (includes (watchedJobs s)) ids)) in
  let s := with_control s (m_jobs s) (suppressedDeliveries s) (foldl set_delete (watchedJobs s) ids)
             (deadLetteredDeliveries s) (fencedOwners s) (m_disposed s) in
  (removed, if decide (0 < removed) then ensureDeliveryLoop s now else s).

Definition acknowledgeDeliveries (s : manager) (ids : list string) : Z * manager :=
  let ids := uniqueJobIds ids in
  match ids with
  | [] => (0, s)
  | _ =>
      let s := with_control s (m_jobs s) (foldl set_add (suppressedDeliveries s) ids) (watchedJobs s)
                 (deadLetteredDeliveries s) (fencedOwners s) (m_disposed s) in
      let kept := List.filter (fun d => negb (isDeliveryAcknowledged s (d_jobId d))) (deliveries s) in
      (Z.of_nat (length (deliveries s)) - Z.of_nat (length kept), with_deliveries s kept)
  end.

(** What [register] and [evictJob] do to the deliveries. *)
Definition registerJob (s : manager) (id : string) (owner : option string) : manager :=
  with_control s (map_set (m_jobs s) id owner) (set_delete (suppressedDeliveries s) id) (watchedJobs s)
    (deadLetteredDeliveries s) (fencedOwners s) (m_disposed s).

Definition evictJob (s : manager) (id : string) : manager :=
  with_control s (map_delete (m_jobs s) id) (set_delete (suppressedDeliveries s) id) (set_delete (watchedJobs s) id)
    (map_delete (deadLetteredDeliveries s) id) (fencedOwners s) (m_disposed s).

Definition filterDeliveries (s : manager) (owner : option string) (l : list AsyncJobDelivery) : list AsyncJobDelivery :=
  List.filter (fun d =>
    match owner with Some (String _ _) => bool_decide (d_ownerId d = owner) | _ => true end
    && negb (isDeliverySuppressed s (d_jobId d))) l.

Record AsyncJobDeliveryState := {
  queued : Z;
  delivering : bool;
  nextRetryAt : option Z;
  pendingJobIds : list string;
  deadLettered : Z
}.

Definition min_opt (next : option Z) (d : AsyncJobDelivery) : option Z :=
  match next with None => Some (nextAttemptAt d) | Some n => Some (Z.min n (nextAttemptAt d)) end.

Definition getDeliveryState (s : manager) (owner : option string) : AsyncJobDeliveryState * manager :=
  let s := pruneEvictedDeadLetters s in
  let ds := filterDeliveries s owner (deliveries s) in
  let fl := filterDeliveries s owner (inFlightDeliveries s) in
  let dead := match owner with
              | Some (String _ _) => List.filter (fun p => bool_decide (l_ownerId p.2 = owner)) (deadLetteredDeliveries s)
              | _ => deadLetteredDeliveries s
              end in
  ({| queued := Z.of_nat (length ds) + Z.of_nat (length fl);
      delivering := negb (bool_decide (fl = []))
                    || (match loop s with L_none => false | _ => true end && negb (bool_decide (ds = [])));
      nextRetryAt := foldl min_opt None ds;
      pendingJobIds := d_jobId <$> ds ++ fl;
      deadLettered := Z.of_nat (length dead) |}, s).

Definition hasPendingDeliveries (s : manager) (owner : option string) : bool * manager :=
  let '(st, s) := getDeliveryState s owner in (bool_decide (0 < queued st), s).

Inductive shutdown_outcome := commit | release.

Definition fenceOwner (s : manager) (owner : string) : manager :=
  with_control s (m_jobs s) (suppressedDeliveries s) (watchedJobs s) (deadLetteredDeliveries s)
    (set_add (fencedOwners s) owner) (m_disposed s).

(** The deliveries of [finishOwnerSubagentShutdown], for the current lease. *)
Definition finishOwnerSubagentShutdown (s : manager) (owner : string) (outcome : shutdown_outcome)
    (confirmed : bool) (now : Z) : manager :=
  let s := match outcome with
           | commit =>
               if confirmed then
                 let '(st, s) := getDeliveryState s (Some owner) in (acknowledgeDeliveries s (pendingJobIds st)).2
               else s
           | release => s
           end in
  let s := with_control s (m_jobs s) (suppressedDeliveries s) (watchedJobs s) (deadLetteredDeliveries s)
             (set_delete (fencedOwners s) owner) (m_disposed s) in
  match outcome with release => ensureDeliveryLoop s now | commit => s end.

(** The selection of [deliverNextFiltered]: the earliest, first come. *)
Definition select_filtered (s : manager) (owner : string) : option AsyncJobDelivery :=
  foldl (fun selected d =>
    if bool_decide (d_ownerId d <> Some owner) then selected
    else if negb (deliverable s d) then selected
    else match selected with
         | Some e => if decide (nextAttemptAt d < nextAttemptAt e) then Some d else selected
         | None => Some d
         end) None (deliveries s).

(** It starts the selected delivery when it is due. *)
Definition deliverNextFiltered (s : manager) (owner : string) (now : Z) : manager :=
  match select_filtered s owner with
  | Some d => if decide (nextAttemptAt d <= now) then deliverDelivery s d (loop s) else s
  | None => s
  end.

(** [dispose], up to its first suspension, for the deliveries. *)
Definition dispose (s : manager) : manager :=
  with_control s (m_jobs s) (suppressedDeliveries s) (watchedJobs s) (deadLetteredDeliveries s)
    (fencedOwners s) true.

(** One turn of the loop of [drainDeliveries] without an owner: it ends, waits
    for an attempt or for the loop, or goes round again at once. *)
Inductive drain_turn := D_done | D_await_attempt | D_await_loop (s : manager) | D_again (s : manager).

Definition drain_iteration (s : manager) (now : Z) : drain_turn :=
  let '(pending, s) := hasPendingDeliveries s None in
  if negb pending then D_done
  else if bool_decide (filterDeliveries s None (inFlightDeliveries s) <> [])
          && bool_decide (filterDeliveries s None (deliveries s) = []) then D_await_attempt
  else
    let s := ensureDeliveryLoop s now in
    match loop s with L_none => D_again s | _ => D_await_loop s end.

Definition new_manager : manager := {|
  m_jobs := []; deliveries := []; inFlightDeliveries := []; suppressedDeliveries := []; watchedJobs := [];
  deadLetteredDeliveries := []; fencedOwners := []; loop := L_none; m_disposed := false; nextObject := 0;
  started := []; succeeded := [] |}.

(** ** Runs *)

(** What may happen: calls of the manager, and the timers, callbacks and
    microtasks the environment settles, each with the clock it reads. *)
Inductive delivery_op :=
| O_register (id : string) (owner : option string)
| O_enqueue (id text : string) (now : Z)
| O_watch (ids : list string)
| O_unwatch (ids : list string) (now : Z)
| O_acknowledge (ids : list string)
| O_evict (id : string)
| O_fence (owner : string)
| O_finish (owner : string) (outcome : shutdown_outcome) (confirmed : bool) (now : Z)
| O_ensure (now : Z)
| O_filtered (owner : string) (now : Z)
| O_resume (now : Z)
| O_ok (o : nat) (now : Z)
| O_failed (o : nat) (error : string) (now random : Z)
| O_dispose.

(** The loop goes on from where it is suspended; while it awaits an attempt, or
    when there is none, nothing happens. *)
Definition resume (s : manager) (now : Z) : manager :=
  match loop s with
  | L_scanning => scan s now
  | L_sleeping o => wake s o now
  | L_returned => loop_finally s now
  | L_none | L_delivering _ => s
  end.

Definition in_flight (s : manager) (o : nat) : option AsyncJobDelivery :=
  find_first (fun d => bool_decide (object d = o)) (inFlightDeliveries s).

Definition apply_op (s : manager) (op : delivery_op) : manager :=
  match op with
  | O_register id owner => registerJob s id owner
  | O_enqueue id text now => enqueueDelivery s id text now
  | O_watch ids => (watchJobs s ids).2
  | O_unwatch ids now => (unwatchJobs s ids now).2
  | O_acknowledge ids => (acknowledgeDeliveries s ids).2
  | O_evict id => evictJob s id
  | O_fence owner => fenceOwner s owner
  | O_finish owner outcome confirmed now => finishOwnerSubagentShutdown s owner outcome confirmed now
  | O_ensure now => ensureDeliveryLoop s now
  | O_filtered owner now => deliverNextFiltered s owner now
  | O_resume now => resume s now
  | O_ok o now => match in_flight s o with Some d => deliver_ok s d now | None => s end
  | O_failed o e now random => match in_flight s o with Some d => deliver_failed s d e now random | None => s end
  | O_dispose => dispose s
  end.

Definition run (s : manager) (ops : list delivery_op) : manager := foldl apply_op s ops.

Definition attempts (s : manager) (o : nat) : Z :=
  Z.of_nat (length (List.filter (fun p => bool_decide (p.1 = o)) (started s))).

(** ** The invariant *)

(** [ex] is a delivery whose attempt has just ended: the loop may still await
    it though it is no longer in flight. *)
Record inv' (ex : option nat) (s : manager) : Prop := {
  inv_objects : NoDup ((object <$> deliveries s) ++ (object <$> inFlightDeliveries s) ++ succeeded s);
  inv_fresh : forall o, o ∈ (object <$> deliveries s) ++ (object <$> inFlightDeliveries s) ++ succeeded s \/
                        o ∈ (started s).*1 -> (o < nextObject s)%nat;
  inv_queued : forall d, d ∈ deliveries s ->
    attempts s (object d) = attempt d /\ attempt d < DELIVERY_MAX_ATTEMPTS /\
    isDeliveryAcknowledged s (d_jobId d) = false;
  inv_flight : forall d, d ∈ inFlightDeliveries s ->
    attempts s (object d) = attempt d + 1 /\ attempt d < DELIVERY_MAX_ATTEMPTS;
  inv_attempts : forall o, attempts s o <= DELIVERY_MAX_ATTEMPTS;
  inv_loop : forall o, loop s = L_delivering o -> Some o <> ex -> o ∈ object <$> inFlightDeliveries s;
  inv_dead : (length (deadLetteredDeliveries s) <= MAX_DEAD_LETTERED_DELIVERIES)%nat
}.

Notation inv := (inv' None).

(** *** Lists of deliveries *)

Lemma remove_object_absent o l : o ∉ object <$> l -> remove_object o l = l.
Proof.
  induction l as [|d l IH]; intros H; [done|]. rewrite fmap_cons, not_elem_of_cons in H. cbn [remove_object].
  rewrite decide_False by naive_solver. by rewrite IH by naive_solver.
Qed.

Lemma remove_object_perm o l :
  o ∈ object <$> l -> object <$> l ≡ₚ o :: (object <$> remove_object o l).
Proof.
  induction l as [|d l IH]; intros H; [by apply elem_of_nil in H|]. cbn [remove_object].
  destruct (decide (object d = o)) as [<-|Hd]; [by rewrite fmap_cons|].
  rewrite fmap_cons, elem_of_cons in H. destruct H as [H|H]; [congruence|].
  rewrite !fmap_cons. rewrite (IH H). by rewrite Permutation_swap.
Qed.

Lemma remove_object_in o l d : d ∈ remove_object o l -> d ∈ l.
Proof.
  induction l as [|x l IH]; intros H; [done|]. cbn [remove_object] in H. case_decide; [by right|].
  apply elem_of_cons in H as [->|H]; [by left|right; auto].
Qed.

Lemma remove_object_length o l : (length (remove_object o l) <= length l)%nat.
Proof. induction l as [|x l IH]; [done|]. cbn [remove_object]. case_decide; simpl; lia. Qed.

Lemma attempts_app s o st :
  Z.of_nat (length (List.filter (fun p : nat * string => bool_decide (p.1 = o)) (started s ++ st)))
  = attempts s o + Z.of_nat (length (List.filter (fun p : nat * string => bool_decide (p.1 = o)) st)).
Proof. unfold attempts. rewrite List.filter_app, length_app. lia. Qed.

Lemma attempts_pos s o : 0 < attempts s o -> o ∈ (started s).*1.
Proof.
  unfold attempts. intros H. destruct (List.filter _ (started s)) as [|p l] eqn:E; [simpl in H; lia|].
  assert (In p (List.filter (fun p : nat * string => bool_decide (p.1 = o)) (started s))) as Hp by (rewrite E; by left).
  apply filter_In in Hp as [Hp Ho]. apply bool_decide_eq_true in Ho as <-.
  apply list_elem_of_fmap. exists p. split; [done|]. by apply list_elem_of_In.
Qed.

Lemma attempts_nonneg s o : 0 <= attempts s o.
Proof. unfold attempts. lia. Qed.

(** *** Changes that leave the queue alone *)

Lemma inv_control ex s js sup wat dead fen dis :
  inv' ex s -> (forall id, includes sup id = true -> isDeliveryAcknowledged s id = true) ->
  (length dead <= MAX_DEAD_LETTERED_DELIVERIES)%nat ->
  inv' ex (with_control s js sup wat dead fen dis).
Proof.
  intros [H1 H2 H3 H4 H5 H6 H7] Hsup Hdead. split; try done. intros d Hd. destruct (H3 d Hd) as (Ha & Hb & Hc).
  split_and!; [done|done|]. unfold isDeliveryAcknowledged in *. cbn.
  destruct (includes sup (d_jobId d)) eqn:E; [|done]. by rewrite (Hsup _ E) in Hc.
Qed.

Lemma filter_length {A} (p : A -> bool) l : (length (List.filter p l) <= length l)%nat.
Proof. induction l as [|x l IH]; [done|]. simpl. destruct (p x); simpl; lia. Qed.

Lemma prune_inv ex s : inv' ex s -> inv' ex (pruneEvictedDeadLetters s).
Proof.
  intros H. apply inv_control; [done|done|]. etrans; [apply filter_length|]. apply H.
Qed.

Lemma recordDeadLetter_inv ex s d : inv' ex s -> inv' ex (recordDeadLetter s d).
Proof.
  intros H. apply prune_inv in H. unfold recordDeadLetter. cbv zeta.
  destruct (map_get _ _); [|done]. apply inv_control; [done|done|].
  unfold newest_letters. rewrite length_drop. lia.
Qed.

(** The queue is not touched by the dead letters. *)
Lemma recordDeadLetter_queue s d :
  deliveries (recordDeadLetter s d) = deliveries s /\ inFlightDeliveries (recordDeadLetter s d) = inFlightDeliveries s /\
  started (recordDeadLetter s d) = started s /\ loop (recordDeadLetter s d) = loop s /\
  suppressedDeliveries (recordDeadLetter s d) = suppressedDeliveries s /\
  watchedJobs (recordDeadLetter s d) = watchedJobs s /\ fencedOwners (recordDeadLetter s d) = fencedOwners s /\
  m_disposed (recordDeadLetter s d) = m_disposed s /\ succeeded (recordDeadLetter s d) = succeeded s /\
  nextObject (recordDeadLetter s d) = nextObject s.
Proof. unfold recordDeadLetter. cbv zeta. by destruct (map_get _ _). Qed.

Lemma with_loop_inv ex s lp : inv' ex s -> (forall o, lp <> L_delivering o) -> inv (with_loop s lp).
Proof. intros [H1 H2 H3 H4 H5 H6 H7] Hlp. split; try done. intros o Ho. by destruct (Hlp o). Qed.

(** Deliveries may be taken out of the queue. *)
Lemma fewer_deliveries_inv ex s ds :
  inv' ex s -> ds `sublist_of` deliveries s -> inv' ex (with_deliveries s ds).
Proof.
  intros [H1 H2 H3 H4 H5 H6 H7] Hds.
  pose proof (fmap_sublist object _ _ Hds) as Hobj.
  assert ((object <$> ds) ++ (object <$> inFlightDeliveries s) ++ succeeded s `sublist_of`
    (object <$> deliveries s) ++ (object <$> inFlightDeliveries s) ++ succeeded s) as Hsub
    by (by apply sublist_app).
  split; try done.
  - by apply (sublist_NoDup _ _ H1 Hsub).
  - intros o Ho. apply H2. destruct Ho as [Ho|Ho]; [left|by right]. by apply (elem_of_sublist _ _ _ Ho).
  - intros d Hd. apply H3. by apply (elem_of_sublist _ _ _ Hd).
Qed.

(** *** Attempts start *)

Lemma deliver_inv ex s d lp :
  inv' ex s -> d ∈ deliveries s -> lp = loop s \/ lp = L_delivering (object d) ->
  inv' ex (deliverDelivery s d lp).
Proof.
  intros [H1 H2 H3 H4 H5 H6 H7] Hd Hlp. destruct (H3 d Hd) as (Ha & Hb & _).
  assert (object d ∈ object <$> deliveries s) as Ho by (by apply list_elem_of_fmap_2).
  pose proof (remove_object_perm _ _ Ho) as Hperm.
  assert ((object <$> deliveries s) ++ (object <$> inFlightDeliveries s) ++ succeeded s ≡ₚ
    (object <$> remove_object (object d) (deliveries s))
      ++ (object <$> inFlightDeliveries s ++ [d]) ++ succeeded s) as Hall.
  { rewrite Hperm, fmap_app, <- app_assoc. change (object <$> [d]) with [object d]. cbn [app].
    rewrite !(app_assoc (object <$> remove_object _ _)). apply Permutation_middle. }
  assert (forall x, x ∈ remove_object (object d) (deliveries s) \/ x ∈ inFlightDeliveries s -> object x <> object d) as Hne.
  { intros x Hx Heq. rewrite Hperm in H1. cbn [app] in H1. apply NoDup_cons in H1 as [H1 _]. apply H1.
    assert (object x ∈ (object <$> remove_object (object d) (deliveries s))
      ++ (object <$> inFlightDeliveries s) ++ succeeded s) as Hin; [|by rewrite Heq in Hin].
    apply elem_of_app. destruct Hx as [Hx|Hx]; [left|right; apply elem_of_app; left];
      by apply list_elem_of_fmap_2. }
  assert (forall o, attempts (deliverDelivery s d lp) o = attempts s o + if decide (o = object d) then 1 else 0) as Hatt.
  { intros o. unfold attempts at 1. cbn [deliverDelivery with_queue started]. rewrite attempts_app. f_equal. simpl.
    destruct (decide (o = object d)) as [->|Hn]; [by rewrite bool_decide_true|by rewrite bool_decide_false by congruence]. }
  split; cbn [deliverDelivery with_queue deliveries inFlightDeliveries succeeded nextObject loop deadLetteredDeliveries].
  - by rewrite <- Hall.
  - intros o [Hin|Hin]; [apply H2; left; by rewrite Hall|].
    change (o ∈ (started s ++ [(object d, d_jobId d)]).*1) in Hin.
    rewrite fmap_app, elem_of_app in Hin. destruct Hin as [Hin|Hin]; [apply H2; by right|].
    apply (list_elem_of_singleton o (object d)) in Hin as ->. apply H2. left. apply elem_of_app. by left.
  - intros x Hx. rewrite Hatt, decide_False by (apply Hne; by left). rewrite Z.add_0_r.
    by apply H3, (remove_object_in (object d)).
  - intros x Hx. rewrite Hatt. apply elem_of_app in Hx as [Hx|Hx].
    + rewrite decide_False by (apply Hne; by right). rewrite Z.add_0_r. by apply H4.
    + apply list_elem_of_singleton in Hx as ->. rewrite decide_True by done. lia.
  - intros o. rewrite Hatt. case_decide as Hc; [subst; lia|specialize (H5 o); lia].
  - intros o Hlo Hex. rewrite fmap_app, elem_of_app. destruct Hlp as [-> | ->]; [left; by apply H6|right].
    injection Hlo as <-. by left.
  - done.
Qed.

Lemma scan_inv ex s now : inv' ex s -> inv' ex (scan s now).
Proof.
  intros H. unfold scan. destruct (find_first _ _) as [d|] eqn:E.
  - apply find_first_Some in E as [Hd _]. case_decide; [|apply deliver_inv; auto].
    destruct H. split; try done.
  - destruct H. split; try done.
Qed.

Lemma ensure_inv ex s now : inv' ex s -> inv' ex (ensureDeliveryLoop s now).
Proof. intros H. unfold ensureDeliveryLoop. destruct (m_disposed s); [done|]. destruct (loop s); auto using scan_inv. Qed.

Lemma wake_inv s o now : inv s -> inv (wake s o now).
Proof.
  intros H. unfold wake. destruct (find_first _ _) as [d|] eqn:E; [|by apply scan_inv].
  apply find_first_Some in E as [Hd _]. destruct (negb _); [by apply scan_inv|]. apply deliver_inv; auto.
Qed.

Lemma resume_inv s now : inv s -> inv (resume s now).
Proof.
  intros H. unfold resume. destruct (loop s) eqn:E; auto using scan_inv, wake_inv. unfold loop_finally. cbv zeta.
  assert (inv (with_loop s L_none)) as Hn by (by apply (with_loop_inv None)).
  destruct (negb _ && _); auto using ensure_inv.
Qed.

(** *** Attempts end *)

Lemma deliver_finally_inv s o now :
  inv' (Some o) (with_queue s (deliveries s) (remove_object o (inFlightDeliveries s)) (loop s) (started s)) ->
  inv (deliver_finally s o now).
Proof.
  intros H. unfold deliver_finally. cbv zeta. set (s1 := with_queue _ _ _ _ _) in *.
  assert (inv' (Some o) (if negb (m_disposed s1) && hasDeliverable s1 then ensureDeliveryLoop s1 now else s1)) as H1
    by (destruct (_ && _); auto using ensure_inv).
  set (s2 := if negb _ && _ then _ else _) in *. clearbody s2. clear H s1.
  destruct (loop s2) eqn:E; try (destruct H1 as [I1 I2 I3 I4 I5 I6 I7]; split; try done; intros o' Ho'; congruence).
  destruct (decide (o0 = o)) as [->|Hn]; [by apply (with_loop_inv (Some o))|].
  destruct H1 as [I1 I2 I3 I4 I5 I6 I7]; split; try done. intros o' Ho' _. apply I6; [done|].
  rewrite E in Ho'. congruence.
Qed.

Lemma in_flight_Some s o d : in_flight s o = Some d -> d ∈ inFlightDeliveries s /\ object d = o.
Proof. intros H. apply find_first_Some in H as [Hd Ho]. by apply bool_decide_eq_true in Ho. Qed.

(** The deliveries in flight without the one that ends. *)
Lemma removed_flight ex s d :
  inv' ex s -> d ∈ inFlightDeliveries s ->
  let fl := remove_object (object d) (inFlightDeliveries s) in
  (object <$> deliveries s) ++ (object <$> inFlightDeliveries s) ++ succeeded s
    ≡ₚ object d :: (object <$> deliveries s) ++ (object <$> fl) ++ succeeded s /\
  object d ∉ (object <$> deliveries s) ++ (object <$> fl) ++ succeeded s.
Proof.
  intros H Hd. cbv zeta.
  assert ((object <$> deliveries s) ++ (object <$> inFlightDeliveries s) ++ succeeded s
    ≡ₚ object d :: (object <$> deliveries s) ++ (object <$> remove_object (object d) (inFlightDeliveries s)) ++ succeeded s) as Hp.
  { rewrite (remove_object_perm (object d) (inFlightDeliveries s)) by (by apply list_elem_of_fmap_2).
    cbn [app]. symmetry. apply Permutation_middle. }
  split; [done|]. pose proof (inv_objects _ _ H) as Hn. rewrite Hp in Hn. by apply NoDup_cons in Hn as [? _].
Qed.

Lemma deliver_ok_inv s d now : inv s -> d ∈ inFlightDeliveries s -> inv (deliver_ok s d now).
Proof.
  intros H Hd. destruct (removed_flight _ _ _ H Hd) as [Hp Hn]. pose proof H as [H1 H2 H3 H4 H5 H6 H7].
  unfold deliver_ok. apply deliver_finally_inv. cbn [deliveries inFlightDeliveries loop started].
  set (fl := remove_object (object d) (inFlightDeliveries s)) in *.
  assert ((object <$> deliveries s) ++ (object <$> fl) ++ succeeded s ++ [object d]
    ≡ₚ (object <$> deliveries s) ++ (object <$> inFlightDeliveries s) ++ succeeded s) as Hall.
  { rewrite Hp, (app_assoc (object <$> fl)), (app_assoc (object <$> deliveries s)).
    symmetry. apply Permutation_cons_append. }
  split; cbn [with_queue deliveries inFlightDeliveries succeeded nextObject loop deadLetteredDeliveries]; try done.
  - by rewrite Hall.
  - intros o Ho. apply H2. by rewrite Hall in Ho.
  - intros x Hx. apply H4. by apply (remove_object_in (object d)).
  - intros o Ho Hex. specialize (H6 o Ho ltac:(done)).
    rewrite (remove_object_perm (object d)), elem_of_cons in H6 by (by apply list_elem_of_fmap_2).
    destruct H6 as [->|H6]; [done|done].
Qed.

(** The invariant without one delivery in flight. *)
Lemma dropped_flight_inv s d :
  inv s -> d ∈ inFlightDeliveries s ->
  inv' (Some (object d))
    (with_queue s (deliveries s) (remove_object (object d) (inFlightDeliveries s)) (loop s) (started s)).
Proof.
  intros H Hd. destruct (removed_flight _ _ _ H Hd) as [Hp Hn]. pose proof H as [H1 H2 H3 H4 H5 H6 H7].
  split; cbn [with_queue deliveries inFlightDeliveries succeeded nextObject loop deadLetteredDeliveries]; try done.
  - rewrite Hp in H1. by apply NoDup_cons in H1 as [_ ?].
  - intros o [Ho|Ho]; apply H2; [left; rewrite Hp; by right|by right].
  - intros x Hx. apply H4. by apply (remove_object_in (object d)).
  - intros o Ho Hex. specialize (H6 o Ho ltac:(done)).
    rewrite (remove_object_perm (object d)), elem_of_cons in H6 by (by apply list_elem_of_fmap_2).
    destruct H6 as [->|H6]; [done|done].
Qed.

(** A delivery whose attempt failed goes back to the queue. *)
Lemma requeued_inv s d e next :
  inv' (Some (object d)) s -> object d ∉ (object <$> deliveries s) ++ (object <$> inFlightDeliveries s) ++ succeeded s ->
  attempts s (object d) = attempt d + 1 -> attempt d + 1 < DELIVERY_MAX_ATTEMPTS ->
  (object d < nextObject s)%nat -> isDeliveryAcknowledged s (d_jobId d) = false ->
  inv' (Some (object d)) (with_deliveries s (deliveries s ++ [failed_attempt d e next])).
Proof.
  intros [H1 H2 H3 H4 H5 H6 H7] Hn Ha Hlt Hf Hack.
  assert ((object <$> deliveries s ++ [failed_attempt d e next]) ++ (object <$> inFlightDeliveries s) ++ succeeded s
    ≡ₚ object d :: (object <$> deliveries s) ++ (object <$> inFlightDeliveries s) ++ succeeded s) as Hall.
  { rewrite fmap_app, <- app_assoc. change (object <$> [failed_attempt d e next]) with [object d]. cbn [app].
    symmetry. apply Permutation_middle. }
  split; cbn [with_deliveries with_queue deliveries inFlightDeliveries succeeded nextObject loop deadLetteredDeliveries]; try done.
  - rewrite Hall. by apply NoDup_cons.
  - intros o [Ho|Ho]; [|apply H2; by right]. rewrite Hall, elem_of_cons in Ho.
    destruct Ho as [->|Ho]; [done|apply H2; by left].
  - intros x Hx. apply elem_of_app in Hx as [Hx|Hx]; [by apply H3|]. apply list_elem_of_singleton in Hx as ->. done.
Qed.

Lemma with_queue_dead s d fl o :
  with_queue (recordDeadLetter s d) (deliveries (recordDeadLetter s d)) (remove_object o fl)
    (loop (recordDeadLetter s d)) (started (recordDeadLetter s d))
  = recordDeadLetter (with_queue s (deliveries s) (remove_object o fl) (loop s) (started s)) d.
Proof. unfold recordDeadLetter. cbv zeta. cbn [pruneEvictedDeadLetters with_dead with_control m_jobs with_queue]. by destruct (map_get _ _). Qed.

Lemma deliver_failed_inv s d e now random : inv s -> d ∈ inFlightDeliveries s -> inv (deliver_failed s d e now random).
Proof.
  intros H Hd. pose proof (dropped_flight_inv _ _ H Hd) as Hdrop. destruct (removed_flight _ _ _ H Hd) as [_ Hn].
  destruct (inv_flight _ _ H d Hd) as [Ha Hlt]. unfold deliver_failed. cbv zeta. apply deliver_finally_inv.
  case_decide as Hmax.
  - destruct (recordDeadLetter_queue s (failed_attempt d e (nextAttemptAt d))) as (_ & Hfl & _).
    rewrite Hfl, with_queue_dead. by apply recordDeadLetter_inv.
  - destruct (isDeliveryAcknowledged s (d_jobId d)) eqn:Hack; [done|].
    set (s1 := with_queue s (deliveries s) (remove_object (object d) (inFlightDeliveries s)) (loop s) (started s)) in *.
    apply (requeued_inv s1); try done.
    + cbn [failed_attempt attempt] in Hmax. lia.
    + apply (inv_fresh _ _ H). left. rewrite !elem_of_app. right. left. by apply list_elem_of_fmap_2.
Qed.

(** *** Operations *)

Lemma set_delete_in l x y : includes (set_delete l x) y = true -> includes l y = true.
Proof.
  rewrite !includes_true. unfold set_delete. intros H. apply list_elem_of_In, filter_In in H as [H _].
  by apply list_elem_of_In.
Qed.

Lemma set_add_in l x y : includes (set_add l x) y = true <-> includes l y = true \/ y = x.
Proof.
  unfold set_add. rewrite !includes_true. destruct (includes l x) eqn:E.
  - apply includes_true in E. split; [by left|]. by intros [H| ->].
  - rewrite elem_of_app, list_elem_of_singleton. done.
Qed.

Lemma add_all_in ids l y : includes (foldl set_add l ids) y = true <-> includes l y = true \/ y ∈ ids.
Proof.
  revert l. induction ids as [|i ids IH]; intros l; cbn [foldl].
  - split; [by left|]. intros [H|H]; [done|by apply elem_of_nil in H].
  - rewrite IH, set_add_in, elem_of_cons. naive_solver.
Qed.

Lemma map_delete_length {V} (m : list (string * V)) k : (length (map_delete m k) <= length m)%nat.
Proof.
  induction m as [|p m IH]; [done|]. unfold map_delete in *. rewrite filter_cons.
  case_decide; simpl in *; lia.
Qed.

Lemma evict_inv s id : inv s -> inv (evictJob s id).
Proof.
  intros H. apply inv_control; [done|intros x; apply set_delete_in|].
  etrans; [apply map_delete_length|apply H].
Qed.

Lemma registerJob_inv s id o : inv s -> inv (registerJob s id o).
Proof. intros H. apply inv_control; [done|intros x; apply set_delete_in|apply H]. Qed.

Lemma acknowledge_inv s ids : inv s -> inv (acknowledgeDeliveries s ids).2.
Proof.
  intros [H1 H2 H3 H4 H5 H6 H7]. unfold acknowledgeDeliveries. destruct (uniqueJobIds ids) as [|i is_] eqn:E; [done|].
  cbv zeta. cbn [snd]. set (s1 := with_control s _ _ _ _ _ _).
  set (kept := List.filter (fun d => negb (isDeliveryAcknowledged s1 (d_jobId d))) (deliveries s)).
  assert (kept `sublist_of` deliveries s) as Hk by apply sublist_bool_filter.
  pose proof (fmap_sublist object _ _ Hk) as Hobj.
  assert ((object <$> kept) ++ (object <$> inFlightDeliveries s) ++ succeeded s `sublist_of`
    (object <$> deliveries s) ++ (object <$> inFlightDeliveries s) ++ succeeded s) as Hsub by (by apply sublist_app).
  split; cbn [with_deliveries with_queue deliveries inFlightDeliveries succeeded nextObject loop deadLetteredDeliveries]; try done.
  - by apply (sublist_NoDup _ _ H1 Hsub).
  - intros o [Ho|Ho]; apply H2; [left; by apply (elem_of_sublist _ _ _ Ho)|by right].
  - intros d Hd. apply list_elem_of_In, filter_In in Hd as [Hd Hack]. apply list_elem_of_In in Hd.
    apply negb_true_iff in Hack. destruct (H3 d Hd) as (Ha & Hb & _). done.
Qed.

Lemma finish_inv s owner outcome confirmed now :
  inv s -> inv (finishOwnerSubagentShutdown s owner outcome confirmed now).
Proof.
  intros H. unfold finishOwnerSubagentShutdown. cbv zeta.
  destruct outcome; [destruct confirmed|].
  - destruct (getDeliveryState s (Some owner)) as [st s1] eqn:E.
    assert (inv s1) as H1 by (unfold getDeliveryState in E; injection E as _ <-; by apply prune_inv).
    apply inv_control; [by apply acknowledge_inv|done|by apply acknowledge_inv].
  - apply inv_control; [done|done|apply H].
  - apply ensure_inv, inv_control; [done|done|apply H].
Qed.

Lemma select_filtered_in s owner d : select_filtered s owner = Some d -> d ∈ deliveries s /\ deliverable s d = true.
Proof.
  unfold select_filtered.
  assert (forall l sel, (forall e, sel = Some e -> e ∈ deliveries s /\ deliverable s e = true) ->
    (forall e, e ∈ l -> e ∈ deliveries s) ->
    forall e, foldl (fun selected d => if bool_decide (d_ownerId d <> Some owner) then selected
      else if negb (deliverable s d) then selected
      else match selected with
           | Some e => if decide (nextAttemptAt d < nextAttemptAt e) then Some d else selected
           | None => Some d end) sel l = Some e -> e ∈ deliveries s /\ deliverable s e = true) as Hgen.
  { induction l as [|x l IH]; intros sel Hsel Hl e He; [by apply Hsel|]. cbn [foldl] in He. eapply IH, He.
    - intros y Hy. destruct (bool_decide _); [by apply Hsel|]. destruct (deliverable s x) eqn:Hx; [|by apply Hsel].
      cbn [negb] in Hy. assert (x ∈ deliveries s) by (apply Hl; by left).
      destruct sel as [z|]; [case_decide|]; simplify_eq; auto.
    - intros y Hy. apply Hl. by right. }
  apply Hgen; [done|done].
Qed.

Lemma filtered_inv s owner now : inv s -> inv (deliverNextFiltered s owner now).
Proof.
  intros H. unfold deliverNextFiltered. destruct (select_filtered s owner) as [d|] eqn:E; [|done].
  apply select_filtered_in in E as [Hd _]. case_decide; [|done]. apply deliver_inv; auto.
Qed.

Lemma trim_inv fuel s : inv s -> inv (trim_queue fuel s).
Proof.
  revert s. induction fuel as [|fuel IH]; intros s H; [done|]. cbn [trim_queue].
  destruct (deliveries s) as [|d ds] eqn:E; [done|]. case_decide; [|done].
  apply IH, recordDeadLetter_inv, fewer_deliveries_inv; [done|]. rewrite E. by constructor.
Qed.

Lemma trim_length fuel s :
  (length (deliveries s) <= fuel)%nat -> (length (deliveries (trim_queue fuel s)) <= DEFAULT_MAX_DELIVERY_QUEUE)%nat.
Proof.
  revert s. induction fuel as [|fuel IH]; intros s H; [simpl; unfold DEFAULT_MAX_DELIVERY_QUEUE; lia|]. cbn [trim_queue].
  destruct (deliveries s) as [|d ds] eqn:E; [rewrite E; unfold DEFAULT_MAX_DELIVERY_QUEUE; simpl; lia|].
  case_decide as Hd; [|rewrite E; lia]. apply IH.
  rewrite (proj1 (recordDeadLetter_queue _ _)). cbn. simpl in H. lia.
Qed.

Lemma scan_length s now : (length (deliveries (scan s now)) <= length (deliveries s))%nat.
Proof.
  unfold scan. destruct (find_first _ _); [|done]. case_decide; [done|]. apply remove_object_length.
Qed.

Lemma ensure_length s now : (length (deliveries (ensureDeliveryLoop s now)) <= length (deliveries s))%nat.
Proof. unfold ensureDeliveryLoop. destruct (m_disposed s); [done|]. destruct (loop s); auto using scan_length. Qed.

Lemma enqueue_inv s id text now : inv s -> inv (enqueueDelivery s id text now).
Proof.
  intros H. pose proof H as [H1 H2 H3 H4 H5 H6 H7]. unfold enqueueDelivery.
  destruct (isDeliveryAcknowledged s id) eqn:Hack; [done|]. cbv zeta. apply ensure_inv, trim_inv.
  set (d := {| object := nextObject s |}).
  assert ((object <$> deliveries s ++ [d]) ++ (object <$> inFlightDeliveries s) ++ succeeded s
    ≡ₚ nextObject s :: (object <$> deliveries s) ++ (object <$> inFlightDeliveries s) ++ succeeded s) as Hall.
  { rewrite fmap_app, <- app_assoc. change (object <$> [d]) with [nextObject s]. cbn [app].
    symmetry. apply Permutation_middle. }
  assert (attempts s (nextObject s) = 0) as Hzero.
  { destruct (decide (attempts s (nextObject s) = 0)) as [|Hn]; [done|]. pose proof (attempts_nonneg s (nextObject s)).
    specialize (H2 (nextObject s) (or_intror (attempts_pos s (nextObject s) ltac:(lia)))). lia. }
  split; cbn [deliveries inFlightDeliveries succeeded nextObject loop deadLetteredDeliveries started]; try done.
  - rewrite Hall. apply NoDup_cons. split; [|done]. intros Hin. specialize (H2 _ (or_introl Hin)). lia.
  - intros o [Ho|Ho]; [rewrite Hall, elem_of_cons in Ho; destruct Ho as [->|Ho]; [lia|]|].
    + specialize (H2 o (or_introl Ho)). lia.
    + specialize (H2 o (or_intror Ho)). lia.
  - intros x Hx. apply elem_of_app in Hx as [Hx|Hx]; [by apply H3|]. apply list_elem_of_singleton in Hx as ->.
    split_and!; [exact Hzero|done|exact Hack].
Qed.

Lemma apply_op_inv s op : inv s -> inv (apply_op s op).
Proof.
  intros H. destruct op; cbn [apply_op]; auto using registerJob_inv, enqueue_inv, acknowledge_inv, evict_inv, finish_inv,
    ensure_inv, filtered_inv, resume_inv.
  - apply inv_control; [done|done|apply H].
  - unfold unwatchJobs. cbn [snd]. assert (inv (with_control s (m_jobs s) (suppressedDeliveries s)
      (foldl set_delete (watchedJobs s) (uniqueJobIds ids)) (deadLetteredDeliveries s) (fencedOwners s) (m_disposed s)))
      by (apply inv_control; [done|done|apply H]). case_decide; auto using ensure_inv.
  - apply inv_control; [done|done|apply H].
  - destruct (in_flight s o) as [d|] eqn:E; [|done]. apply in_flight_Some in E as [Hd _]. by apply deliver_ok_inv.
  - destruct (in_flight s o) as [d|] eqn:E; [|done]. apply in_flight_Some in E as [Hd _]. by apply deliver_failed_inv.
  - apply inv_control; [done|done|apply H].
Qed.

Lemma new_inv : inv new_manager.
Proof.
  split; cbn; try done; try (by intros d Hd; apply elem_of_nil in Hd).
  - constructor.
  - intros o [Ho|Ho]; by apply elem_of_nil in Ho.
  - unfold MAX_DEAD_LETTERED_DELIVERIES. lia.
Qed.

Lemma run_inv ops s : inv s -> inv (run s ops).
Proof. apply foldl_invariant. intros s' op _. apply apply_op_inv. Qed.

(** ** Acknowledged jobs *)

Definition calls_for (id : string) (s : manager) : list (nat * string) :=
  List.filter (fun p => bool_decide (p.2 = id)) (started s).

(** Once acknowledged, [id] stays so and is not delivered any more. *)
Definition keeps (id : string) (s s' : manager) : Prop :=
  isDeliveryAcknowledged s id = true ->
  isDeliveryAcknowledged s' id = true /\ calls_for id s' = calls_for id s.

Lemma keeps_trans id s1 s2 s3 : keeps id s1 s2 -> keeps id s2 s3 -> keeps id s1 s3.
Proof. intros H1 H2 Ha. destruct (H1 Ha) as [Ha' E1]. destruct (H2 Ha') as [? E2]. split; congruence. Qed.

Lemma keeps_same id s s' :
  suppressedDeliveries s' = suppressedDeliveries s -> started s' = started s -> keeps id s s'.
Proof. intros H1 H2 Ha. unfold isDeliveryAcknowledged, calls_for in *. by rewrite H1, H2. Qed.

Lemma keeps_deliver id s d lp : deliverable s d = true -> keeps id s (deliverDelivery s d lp).
Proof.
  intros Hd Ha. split; [done|]. unfold calls_for. cbn [deliverDelivery with_queue started].
  rewrite List.filter_app. cbn [List.filter snd]. rewrite bool_decide_false, app_nil_r; [done|]. intros <-.
  unfold deliverable, isDeliverySuppressed in Hd. by rewrite Ha in Hd.
Qed.

Lemma keeps_scan id s now : keeps id s (scan s now).
Proof.
  unfold scan. destruct (find_first _ _) as [d|] eqn:E; [|by apply keeps_same].
  apply find_first_Some in E as [_ Hd]. case_decide; [by apply keeps_same|by apply keeps_deliver].
Qed.

Lemma keeps_ensure id s now : keeps id s (ensureDeliveryLoop s now).
Proof. unfold ensureDeliveryLoop. destruct (m_disposed s); [by intros ?|]. destruct (loop s); by (apply keeps_scan || intros ?). Qed.

Lemma keeps_resume id s now : keeps id s (resume s now).
Proof.
  unfold resume. destruct (loop s); try (by intros ?); [apply keeps_scan| |].
  - unfold wake. destruct (find_first _ _) as [d|]; [|apply keeps_scan]. destruct (deliverable s d) eqn:E; [by apply keeps_deliver|apply keeps_scan].
  - unfold loop_finally. cbv zeta. apply keeps_trans with (with_loop s L_none); [by apply keeps_same|].
    destruct (_ && _); [apply keeps_ensure|by intros ?].
Qed.

Lemma keeps_finally id s o now : keeps id s (deliver_finally s o now).
Proof.
  unfold deliver_finally. cbv zeta. set (s1 := with_queue _ _ _ _ _).
  apply keeps_trans with s1; [by apply keeps_same|]. set (s2 := if _ && _ then _ else s1).
  apply keeps_trans with s2; [unfold s2; destruct (_ && _); [apply keeps_ensure|by intros ?]|].
  clearbody s2. destruct (loop s2); try (by intros ?). case_decide; [by apply keeps_same|by intros ?].
Qed.

Lemma keeps_dead id s d : keeps id s (recordDeadLetter s d).
Proof. destruct (recordDeadLetter_queue s d) as (_ & _ & H1 & _ & H2 & _). by apply keeps_same. Qed.

Lemma keeps_trim id fuel s : keeps id s (trim_queue fuel s).
Proof.
  revert s. induction fuel as [|fuel IH]; intros s; [by intros ?|]. cbn [trim_queue].
  destruct (deliveries s) as [|d ds]; [by intros ?|]. case_decide; [|by intros ?].
  eapply keeps_trans, IH. eapply keeps_trans, keeps_dead. by apply keeps_same.
Qed.

Lemma keeps_acknowledge id s ids : keeps id s (acknowledgeDeliveries s ids).2.
Proof.
  unfold acknowledgeDeliveries. destruct (uniqueJobIds ids); [by intros ?|]. intros Ha. split; [|done].
  unfold isDeliveryAcknowledged in *. apply add_all_in. by left.
Qed.

Lemma set_delete_keeps l x y : x <> y -> includes l y = true -> includes (set_delete l x) y = true.
Proof.
  intros Hxy. rewrite !includes_true. intros H. apply list_elem_of_In, filter_In. split; [by apply list_elem_of_In|].
  apply negb_true_iff, bool_decide_eq_false. congruence.
Qed.

(** The job is forgotten by its eviction and by a new registration only. *)
Definition forgets (id : string) (op : delivery_op) : Prop :=
  match op with O_evict i | O_register i _ => i = id | _ => False end.

Lemma keeps_op id s op : ~ forgets id op -> keeps id s (apply_op s op).
Proof.
  intros Hf. destruct op; cbn [apply_op forgets] in *; try (by apply keeps_same); auto using keeps_ensure, keeps_resume, keeps_acknowledge.
  - intros Ha. split; [|done]. by apply set_delete_keeps.
  - unfold enqueueDelivery. destruct (isDeliveryAcknowledged s id0); [by intros ?|]. cbv zeta.
    eapply keeps_trans, keeps_ensure. eapply keeps_trans, keeps_trim. by apply keeps_same.
  - unfold unwatchJobs. cbn [snd]. case_decide; [|by apply keeps_same]. eapply keeps_trans, keeps_ensure. by apply keeps_same.
  - intros Ha. split; [|done]. by apply set_delete_keeps.
  - unfold finishOwnerSubagentShutdown. cbv zeta. destruct outcome; [destruct confirmed|].
    + destruct (getDeliveryState s (Some owner)) as [st s1] eqn:E.
      apply keeps_trans with s1; [unfold getDeliveryState in E; injection E as _ <-; by apply keeps_same|].
      eapply keeps_trans; [apply keeps_acknowledge|]. by apply keeps_same.
    + by apply keeps_same.
    + eapply keeps_trans, keeps_ensure. by apply keeps_same.
  - unfold deliverNextFiltered. destruct (select_filtered s owner) as [d|] eqn:E; [|by intros ?].
    apply select_filtered_in in E as [_ Hd]. case_decide; [by apply keeps_deliver|by intros ?].
  - destruct (in_flight s o); [|by intros ?]. unfold deliver_ok. eapply keeps_trans, keeps_finally. by apply keeps_same.
  - destruct (in_flight s o) as [d|]; [|by intros ?]. unfold deliver_failed. cbv zeta. eapply keeps_trans, keeps_finally.
    case_decide; [apply keeps_dead|]. destruct (isDeliveryAcknowledged s (d_jobId d)); [by intros ?|by apply keeps_same].
Qed.

Lemma keeps_run id ops s : Forall (fun op => ~ forgets id op) ops -> keeps id s (run s ops).
Proof.
  rewrite Forall_forall. intros Hf. apply (foldl_invariant _ (keeps id s)); [|by intros ?].
  intros s' op Hop Hs. eapply keeps_trans; [exact Hs|]. by apply keeps_op, Hf.
Qed.

(** ** No delivery is stranded *)

(** Without a loop there is nothing to deliver. *)
Definition quiet (s : manager) : Prop := loop s = L_none -> m_disposed s = false -> hasDeliverable s = false.

Lemma hasDeliverable_false s : hasDeliverable s = false <-> forall d, d ∈ deliveries s -> deliverable s d = false.
Proof.
  unfold hasDeliverable. split.
  - intros H d Hd. destruct (deliverable s d) eqn:E; [|done].
    assert (existsb (deliverable s) (deliveries s) = true); [|congruence].
    apply existsb_exists. exists d. split; [by apply list_elem_of_In|done].
  - intros H. destruct (existsb _ _) eqn:E; [|done]. apply existsb_exists in E as (d & Hd & He).
    rewrite H in He; [done|by apply list_elem_of_In].
Qed.

Lemma quiet_mono s s' :
  quiet s -> (loop s' = L_none -> loop s = L_none) -> m_disposed s' = m_disposed s ->
  (forall d, d ∈ deliveries s' -> deliverable s' d = true -> d ∈ deliveries s /\ deliverable s d = true) -> quiet s'.
Proof.
  intros Hq Hl Hd Hsub Hn Hdis. rewrite Hd in Hdis. specialize (Hq (Hl Hn) Hdis).
  rewrite hasDeliverable_false in Hq |- *. intros d Hin. destruct (deliverable s' d) eqn:E; [|done].
  destruct (Hsub d Hin E) as [Hin' E']. by rewrite (Hq d Hin') in E'.
Qed.

Lemma scan_active s now : loop (scan s now) <> L_none.
Proof. unfold scan. destruct (find_first _ _); [|done]. by case_decide. Qed.

Lemma quiet_active s : loop s <> L_none -> quiet s.
Proof. by intros H Hn. Qed.

Lemma quiet_ensure s now : quiet (ensureDeliveryLoop s now).
Proof.
  unfold ensureDeliveryLoop. destruct (m_disposed s) eqn:E; [intros _ Hd; congruence|].
  destruct (loop s) eqn:El; try (apply quiet_active; congruence). apply quiet_active, scan_active.
Qed.

Lemma quiet_recheck s now :
  quiet (if negb (m_disposed s) && hasDeliverable s then ensureDeliveryLoop s now else s).
Proof.
  destruct (m_disposed s) eqn:Ed; cbn [negb andb]; [intros _ H; congruence|].
  destruct (hasDeliverable s) eqn:Eh; [apply quiet_ensure|by intros _ _].
Qed.

Lemma quiet_resume s now : quiet s -> quiet (resume s now).
Proof.
  intros Hq. unfold resume. destruct (loop s) eqn:El; [done|apply quiet_active, scan_active| |done|].
  - unfold wake. destruct (find_first _ _) as [d|]; [|apply quiet_active, scan_active].
    destruct (negb _); [apply quiet_active, scan_active|by apply quiet_active].
  - apply quiet_recheck.
Qed.

Lemma quiet_finally s o now : quiet (deliver_finally s o now).
Proof.
  unfold deliver_finally. cbv zeta. set (s1 := with_queue _ _ _ _ _). pose proof (quiet_recheck s1 now) as Hq.
  set (s2 := if _ && _ then _ else _) in *. clearbody s2. destruct (loop s2) eqn:El; try done.
  case_decide; [by apply quiet_active|done].
Qed.

(** What the loop relies on: an evicted job has nothing left in the queue, and a
    shutdown is committed with its proof. Job ids are trimmed and not empty, as
    [resolveJobId] makes them. *)
Definition orderly (s : manager) (op : delivery_op) : Prop :=
  match op with
  | O_evict id => Forall (fun d => d_jobId d <> id) (deliveries s)
  | O_finish _ commit confirmed _ =>
      confirmed = true /\ Forall (fun d => trim (d_jobId d) = d_jobId d /\ d_jobId d <> EmptyString) (deliveries s)
  | _ => True
  end.

Definition orderly_run : manager -> list delivery_op -> Prop := run_allows apply_op orderly.

Lemma uniqueJobIds_in ids i : i ∈ ids -> trim i = i -> i <> EmptyString -> i ∈ uniqueJobIds ids.
Proof.
  intros Hi Ht Hne. apply includes_true. unfold uniqueJobIds. apply add_all_in. right.
  apply list_elem_of_In, filter_In. split; [|by apply negb_true_iff, bool_decide_eq_false].
  apply list_elem_of_In, list_elem_of_fmap. by exists i.
Qed.

Lemma delete_all_absent ids l : (forall i, i ∈ ids -> includes l i = false) -> foldl set_delete l ids = l.
Proof.
  revert l. induction ids as [|i ids IH]; intros l H; [done|]. cbn [foldl].
  assert (set_delete l i = l) as ->.
  { specialize (H i ltac:(by left)). apply includes_false in H. unfold set_delete. induction l as [|x l IHl]; [done|].
    apply not_elem_of_cons in H as [Hx H]. simpl. rewrite bool_decide_false by congruence. simpl. f_equal. by apply IHl. }
  apply IH. intros j Hj. apply H. by right.
Qed.

(** Suppressing more, or fencing more, delivers less. *)
Lemma deliverable_mono s s' d :
  (forall i, isDeliverySuppressed s i = true -> i = d_jobId d -> isDeliverySuppressed s' i = true) ->
  (isDeliveryFenced s d = true -> isDeliveryFenced s' d = true) ->
  deliverable s' d = true -> deliverable s d = true.
Proof.
  intros Hs Hf. unfold deliverable. rewrite !andb_true_iff, !negb_true_iff. intros [H1 H2]. split.
  - destruct (isDeliverySuppressed s (d_jobId d)) eqn:E; [|done]. by rewrite (Hs _ E eq_refl) in H1.
  - destruct (isDeliveryFenced s d); [|done]. by rewrite Hf in H2.
Qed.

Lemma quiet_watch s ids : quiet s -> quiet (watchJobs s ids).2.
Proof.
  intros Hq. apply (quiet_mono s); [done|done|done|]. intros d Hd E. split; [done|].
  eapply deliverable_mono, E; [|done]. intros i Hi _. unfold isDeliverySuppressed in *.
  apply orb_true_iff in Hi as [Hi|Hi]; apply orb_true_iff; [by left|right]. apply add_all_in. by left.
Qed.

Lemma quiet_unwatch s ids now : quiet s -> quiet (unwatchJobs s ids now).2.
Proof.
  intros Hq. unfold unwatchJobs. cbn [snd]. case_decide as Hr; [apply quiet_ensure|].
  rewrite delete_all_absent; [by destruct s|]. intros i Hi. destruct (includes (watchedJobs s) i) eqn:E; [|done].
  exfalso. apply Hr. assert (In i (List.filter (includes (watchedJobs s)) (uniqueJobIds ids))) as Hin
    by (apply filter_In; split; [by apply list_elem_of_In|done]).
  destruct (List.filter _ _); [done|simpl; lia].
Qed.

Lemma acknowledge_sub s ids :
  let s' := (acknowledgeDeliveries s ids).2 in
  loop s' = loop s /\ m_disposed s' = m_disposed s /\ watchedJobs s' = watchedJobs s /\ fencedOwners s' = fencedOwners s /\
  (forall d, d ∈ deliveries s' -> d ∈ deliveries s /\ (uniqueJobIds ids <> [] -> isDeliveryAcknowledged s' (d_jobId d) = false)) /\
  (forall i, isDeliveryAcknowledged s i = true \/ i ∈ uniqueJobIds ids -> isDeliveryAcknowledged s' i = true).
Proof.
  unfold acknowledgeDeliveries. destruct (uniqueJobIds ids) as [|x xs]; cbn [snd].
  - split_and!; try done. intros i [H|H]; [done|by apply elem_of_nil in H].
  - split_and!; try done.
    + intros d Hd. cbn [with_deliveries with_queue deliveries] in Hd.
      apply list_elem_of_In, filter_In in Hd as [Hd Ha]. split; [by apply list_elem_of_In|]. intros _.
      by apply negb_true_iff in Ha.
    + intros i Hi. by apply add_all_in.
Qed.

Lemma quiet_acknowledge s ids : quiet s -> quiet (acknowledgeDeliveries s ids).2.
Proof.
  intros Hq. destruct (acknowledge_sub s ids) as (H1 & H2 & H3 & H4 & H5 & H6).
  apply (quiet_mono s); [done|by rewrite H1|done|]. intros d Hd E. split; [by apply H5|].
  eapply deliverable_mono, E.
  - intros i Hi _. unfold isDeliverySuppressed in *. rewrite H3. apply orb_true_iff in Hi as [Hi|Hi];
      apply orb_true_iff; [left|by right]. apply H6. by left.
  - unfold isDeliveryFenced. by rewrite H4.
Qed.

Lemma quiet_finish s owner outcome confirmed now :
  quiet s -> orderly s (O_finish owner outcome confirmed now) ->
  quiet (finishOwnerSubagentShutdown s owner outcome confirmed now).
Proof.
  intros Hq Ho. unfold finishOwnerSubagentShutdown. cbv zeta. destruct outcome; [|apply quiet_ensure].
  destruct Ho as [-> Hids]. rewrite Forall_forall in Hids.
  destruct (getDeliveryState s (Some owner)) as [st s1] eqn:E. unfold getDeliveryState in E. injection E as Est Es1.
  destruct (acknowledge_sub s1 (pendingJobIds st)) as (H1 & H2 & H3 & H4 & H5 & H6).
  set (s2 := (acknowledgeDeliveries s1 (pendingJobIds st)).2) in *.
  apply (quiet_mono s); [done|cbn; rewrite H1, <- Es1; done|cbn; rewrite H2, <- Es1; done|].
  cbn [with_control deliveries]. intros d Hd Ed. destruct (H5 d Hd) as [Hd1 Hnack].
  assert (d ∈ deliveries s) as Hds by (by rewrite <- Es1 in Hd1). split; [done|].
  unfold deliverable in Ed. apply andb_true_iff in Ed as [Esup Efen]. apply negb_true_iff in Esup, Efen.
  apply orb_false_iff in Esup as [Eack Ewat]. change (isDeliveryAcknowledged s2 (d_jobId d) = false) in Eack.
  cbn in Ewat. rewrite H3, <- Es1 in Ewat. change (includes (watchedJobs s) (d_jobId d) = false) in Ewat.
  assert (isDeliveryAcknowledged s (d_jobId d) = false) as Hack.
  { destruct (isDeliveryAcknowledged s (d_jobId d)) eqn:Ha; [|done].
    rewrite H6 in Eack; [done|left]. by rewrite <- Es1. }
  assert (isDeliverySuppressed s (d_jobId d) = false) as Hsup by (apply orb_false_iff; done).
  unfold deliverable. rewrite Hsup. cbn [negb andb]. apply negb_true_iff.
  destruct (isDeliveryFenced s d) eqn:Ef; [|done]. unfold isDeliveryFenced in Ef, Efen.
  destruct (d_ownerId d) as [[|c o]|] eqn:Eo; try done. cbn [with_control fencedOwners] in Efen.
  rewrite H4, <- Es1 in Efen. change (fencedOwners _) with (fencedOwners s) in Efen.
  destruct (decide (String c o = owner)) as [<-|Hne]; [|by rewrite set_delete_keeps in Efen].
  exfalso. destruct (Hids d Hds) as [Ht Hnil].
  assert (d_jobId d ∈ uniqueJobIds (pendingJobIds st)) as Hin; [|by rewrite H6 in Eack by (by right)].
  apply uniqueJobIds_in; [|done|done]. rewrite <- Est. cbn [pendingJobIds].
  apply list_elem_of_fmap. exists d. split; [done|]. apply elem_of_app. left. unfold filterDeliveries.
  apply list_elem_of_In, filter_In. split; [by apply list_elem_of_In|].
  rewrite bool_decide_true by done. cbn [andb]. apply negb_true_iff. exact Hsup.
Qed.

Lemma quiet_op s op : inv s -> quiet s -> orderly s op -> quiet (apply_op s op).
Proof.
  intros Hi Hq Ho. destruct op; cbn [apply_op]; auto using quiet_watch, quiet_unwatch, quiet_acknowledge, quiet_finish,
    quiet_ensure, quiet_resume.
  - apply (quiet_mono s); [done|done|done|]. intros d Hd E. split; [done|]. eapply deliverable_mono, E; [|done].
    intros i Hsup ->. destruct (inv_queued _ _ Hi d Hd) as (_ & _ & Hack). unfold isDeliverySuppressed in *.
    by rewrite Hack in Hsup; apply orb_true_iff; right.
  - unfold enqueueDelivery. destruct (isDeliveryAcknowledged s id); [done|apply quiet_ensure].
  - cbn [orderly] in Ho. rewrite Forall_forall in Ho.
    apply (quiet_mono s); [done|done|done|]. intros d Hd E. split; [done|]. eapply deliverable_mono, E; [|done].
    intros i Hsup ->. specialize (Ho d Hd). unfold isDeliverySuppressed in *.
    apply orb_true_iff in Hsup as [H|H]; apply orb_true_iff; [left|right]; by apply set_delete_keeps.
  - apply (quiet_mono s); [done|done|done|]. intros d Hd E. split; [done|]. eapply deliverable_mono, E; [by intros i Hs _|].
    unfold isDeliveryFenced. cbn. destruct (d_ownerId d) as [[|c o]|]; try done. intros H. apply set_add_in. by left.
  - unfold deliverNextFiltered. destruct (select_filtered s owner) as [d|]; [|done]. case_decide; [|done].
    apply (quiet_mono s); [done|done|done|]. intros x Hx E. split; [by apply (remove_object_in (object d))|done].
  - destruct (in_flight s o); [|done]. apply quiet_finally.
  - destruct (in_flight s o); [|done]. apply quiet_finally.
  - by intros _ Hd.
Qed.

Lemma quiet_run ops s : inv s -> quiet s -> orderly_run s ops -> quiet (run s ops).
Proof.
  intros Hi Hq Ho. apply (foldl_allowed apply_op orderly (fun s => inv s /\ quiet s)); [|done|done].
  intros s' op [Hi' Hq'] Hop. split; [by apply apply_op_inv|by apply quiet_op].
Qed.


(** ** Progress *)

Lemma first_deliverable s :
  hasDeliverable s = true -> exists d, find_first (deliverable s) (deliveries s) = Some d.
Proof.
  intros H. destruct (find_first (deliverable s) (deliveries s)) as [d|] eqn:E; [by exists d|].
  pose proof (proj1 (find_first_None _ _) E) as Hn. apply hasDeliverable_false in Hn. congruence.
Qed.

Lemma scan_starts s now d :
  find_first (deliverable s) (deliveries s) = Some d -> nextAttemptAt d <= now ->
  length (started (scan s now)) = S (length (started s)).
Proof.
  intros Hf Hn. unfold scan. rewrite Hf, decide_False by lia. cbn. rewrite length_app. simpl. lia.
Qed.

Lemma resume_starts s :
  hasDeliverable s = true -> m_disposed s = false -> loop s <> L_none -> (forall o, loop s <> L_delivering o) ->
  exists now, length (started (resume s now)) = S (length (started s)).
Proof.
  intros Hh Hd Hn Hl. destruct (first_deliverable s Hh) as [d Hf]. exists (nextAttemptAt d).
  assert (length (started (scan s (nextAttemptAt d))) = S (length (started s))) as Hs by (by apply (scan_starts _ _ d)).
  unfold resume. destruct (loop s) as [| |o|o|] eqn:El; try done.
  - unfold wake. destruct (find_first (fun d => bool_decide (object d = o)) (deliveries s)) as [x|]; [|done].
    destruct (negb (deliverable s x)); [done|]. cbn. rewrite length_app. simpl. lia.
  - by destruct (Hl o).
  - unfold loop_finally. cbv zeta. change (m_disposed (with_loop s L_none)) with (m_disposed s).
    change (hasDeliverable (with_loop s L_none)) with (hasDeliverable s). rewrite Hd, Hh. cbn [negb andb].
    unfold ensureDeliveryLoop. change (m_disposed (with_loop s L_none)) with (m_disposed s). rewrite Hd. cbn [with_loop with_queue loop].
    by apply (scan_starts (with_loop s L_none) _ d).
Qed.

Lemma in_flight_found s o : o ∈ object <$> inFlightDeliveries s -> exists d, in_flight s o = Some d.
Proof.
  intros H. unfold in_flight.
  destruct (find_first (fun d => bool_decide (object d = o)) (inFlightDeliveries s)) as [d|] eqn:E; [by exists d|].
  pose proof (proj1 (find_first_None _ _) E) as Hn. apply list_elem_of_fmap in H as (d & -> & Hd).
  specialize (Hn d Hd). by rewrite bool_decide_true in Hn.
Qed.

(** The loop that awaits an attempt scans the queue again when it ends. *)
Lemma ok_scans s o d now :
  loop s = L_delivering o -> in_flight s o = Some d ->
  let s' := apply_op s (O_ok o now) in
  loop s' = L_scanning /\ m_disposed s' = m_disposed s /\ started s' = started s /\ hasDeliverable s' = hasDeliverable s.
Proof.
  intros Hl Hd. cbn [apply_op]. rewrite Hd. apply in_flight_Some in Hd as [_ <-]. unfold deliver_ok, deliver_finally. cbv zeta.
  set (s1 := with_queue _ _ _ _ _). assert (loop s1 = L_delivering (object d)) as Hl1 by exact Hl.
  assert ((if negb (m_disposed s1) && hasDeliverable s1 then ensureDeliveryLoop s1 now else s1) = s1) as ->.
  { destruct (negb (m_disposed s1) && hasDeliverable s1); [|done]. unfold ensureDeliveryLoop.
    destruct (m_disposed s1); [done|]. by rewrite Hl1. }
  rewrite Hl1, decide_True by done. done.
Qed.


Definition delivery_demo : list delivery_op :=
  [O_register "j" (Some "main"); O_watch ["j"]; O_enqueue "j" "done" 0; O_resume 0; O_unwatch [" j"] 5].


(** ** A stranded completion and a drain that never ends *)

(** A disposed manager without a loop goes round [drainDeliveries] for ever, at
    once and without an await, when a completion is pending. *)
Lemma drain_spins s now :
  m_disposed s = true -> loop s = L_none -> filterDeliveries s None (deliveries s) <> [] ->
  let s' := pruneEvictedDeadLetters s in
  drain_iteration s now = D_again s' /\
  m_disposed s' = true /\ loop s' = L_none /\ filterDeliveries s' None (deliveries s') <> [].
Proof.
  intros Hd Hl Hp s'. split_and!; [|done|done|done]. unfold drain_iteration, hasPendingDeliveries.
  destruct (getDeliveryState s None) as [st s1] eqn:E. unfold getDeliveryState in E. injection E as Est Es1.
  fold s' in Es1. subst s1. rewrite <- Est. cbn [queued].
  change (filterDeliveries s' None (deliveries s')) with (filterDeliveries s None (deliveries s)) in *.
  assert (0 < Z.of_nat (length (filterDeliveries (pruneEvictedDeadLetters s) None (deliveries s)))) as Hpos.
  { change (filterDeliveries (pruneEvictedDeadLetters s) None (deliveries s))
      with (filterDeliveries s None (deliveries s)).
    destruct (filterDeliveries s None (deliveries s)); [done|simpl; lia]. }
  rewrite bool_decide_true by lia. cbn [negb].
  rewrite (bool_decide_false (filterDeliveries s None (deliveries s) = [])) by done. rewrite andb_false_r.
  unfold ensureDeliveryLoop. change (m_disposed s') with (m_disposed s). rewrite Hd.
  change (loop s') with (loop s). by rewrite Hl.
Qed.

(** The eviction of a watched job leaves its completion in the queue, without a
    loop; disposing the manager then never ends. *)
Lemma eviction_strands_delivery :
  let s := run new_manager [O_register "j" None; O_watch ["j"]; O_enqueue "j" "done" 0; O_resume 0; O_evict "j"] in
  hasDeliverable s = true /\ loop s = L_none /\
  forall now, drain_iteration (dispose s) now = D_again (dispose s).
Proof. split_and!; [vm_compute; reflexivity|vm_compute; reflexivity|]. intros now. by vm_compute. Qed.
