(* ===== verification/RateLimitPool.v ===== *)
(** * The shared rate-limit pool ([sdk/bus/rate-limit-pool.ts])

    A token bucket shared by the sessions of a host: lanes in order of priority,
    a rotation over the sessions within a lane, coalescing of queued updates and
    deadlines.  Numbers of tokens are rationals, rounded by [fl] after each
    operation the code does in floating point; times are whole milliseconds.
    Promises are named by the id of their item: [settlements] holds those not
    resolved yet, [settled] the resolutions in order. *)

From Stdlib Require Import QArith Qminmax Lqa.
From S2P Require Import Prelude JsNumber.

Local Open Scope string_scope.
Local Open Scope list_scope.
Local Open Scope Z_scope.

Inductive RateLimitLane := ask | finalized | live | idle.

#[export] Instance RateLimitLane_eq_dec : EqDecision RateLimitLane.
Proof. solve_decision. Defined.

Definition LANE_PRIORITY : list RateLimitLane := [ask; finalized; live; idle].

Inductive RateLimitDisposition := accepted | rejected | ambiguous | removed | expired.

#[export] Instance RateLimitDisposition_eq_dec : EqDecision RateLimitDisposition.
Proof. solve_decision. Defined.

(** What a caller submits, but for the id. *)
Record ItemFields {T : Type} := {
  sessionId : string;
  lane : RateLimitLane;
  coalesceKey : option string;
  deadlineAt : option Z;
  payload : T
}.
Arguments ItemFields : clear implicits.

Record RateLimitItem {T : Type} := { itemId : string; fields :> ItemFields T }.
Arguments RateLimitItem : clear implicits.

Record QueuedItem {T : Type} := { item : RateLimitItem T; seq : Z }.
Arguments QueuedItem : clear implicits.

(** A [Map] with an entry for every lane. *)
Definition set_at {A} (f : RateLimitLane -> A) (l : RateLimitLane) (x : A) : RateLimitLane -> A :=
  fun l' => if decide (l' = l) then x else f l'.

Section pool.
Context {T : Type} (fl : Q -> Q).

Record RateLimitPool := {
  capacity : Q;
  refillPerSec : Q;
  lanes : RateLimitLane -> list (QueuedItem T);
  laneCursor : RateLimitLane -> nat;
  tokens : Q;
  lastRefill : Z;
  settlements : list string;
  settled : list (string * RateLimitDisposition);
  seqCounter : Z
}.

Definition with_lanes (s : RateLimitPool) ls : RateLimitPool := {|
  capacity := capacity s; refillPerSec := refillPerSec s; lanes := ls; laneCursor := laneCursor s;
  tokens := tokens s; lastRefill := lastRefill s; settlements := settlements s; settled := settled s;
  seqCounter := seqCounter s |}.
Definition with_lane (s : RateLimitPool) l q : RateLimitPool := with_lanes s (set_at (lanes s) l q).
Definition with_cursor (s : RateLimitPool) c : RateLimitPool := {|
  capacity := capacity s; refillPerSec := refillPerSec s; lanes := lanes s; laneCursor := c;
  tokens := tokens s; lastRefill := lastRefill s; settlements := settlements s; settled := settled s;
  seqCounter := seqCounter s |}.
Definition with_tokens (s : RateLimitPool) t now : RateLimitPool := {|
  capacity := capacity s; refillPerSec := refillPerSec s; lanes := lanes s; laneCursor := laneCursor s;
  tokens := t; lastRefill := now; settlements := settlements s; settled := settled s;
  seqCounter := seqCounter s |}.
Definition with_settlements (s : RateLimitPool) ps log : RateLimitPool := {|
  capacity := capacity s; refillPerSec := refillPerSec s; lanes := lanes s; laneCursor := laneCursor s;
  tokens := tokens s; lastRefill := lastRefill s; settlements := ps; settled := log;
  seqCounter := seqCounter s |}.
Definition with_counter (s : RateLimitPool) n : RateLimitPool := {|
  capacity := capacity s; refillPerSec := refillPerSec s; lanes := lanes s; laneCursor := laneCursor s;
  tokens := tokens s; lastRefill := lastRefill s; settlements := settlements s; settled := settled s;
  seqCounter := n |}.

Definition create (cap refill : option Q) (now : Z) : RateLimitPool :=
  let cap := Qmax 1 (default (20 # 1) cap) in {|
  capacity := cap; refillPerSec := Qmax 0 (default (1 # 1) refill); lanes := fun _ => [];
  laneCursor := fun _ => O; tokens := cap; lastRefill := now; settlements := []; settled := []; seqCounter := 0 |}.

Definition pending (s : RateLimitPool) : nat := sum_list_with (fun l => length (lanes s l)) LANE_PRIORITY.

Definition refill (s : RateLimitPool) (now : Z) : RateLimitPool :=
  if decide (now <= lastRefill s) then s
  else
    let elapsedSec := fl (inject_Z (now - lastRefill s) / 1000) in
    with_tokens s (Qmin (capacity s) (fl (tokens s + fl (elapsedSec * refillPerSec s)))) now.

Definition availableTokens (s : RateLimitPool) (now : Z) : Q * RateLimitPool :=
  let s := refill s now in (tokens s, s).

(** ** Settlements *)

Definition settle (s : RateLimitPool) (id : string) (d : RateLimitDisposition) : RateLimitPool :=
  if includes (settlements s) id
  then with_settlements s (List.filter (fun i => negb (bool_decide (i = id))) (settlements s)) (settled s ++ [(id, d)])
  else s.

Definition markSending (s : RateLimitPool) (id : string) : outcome string unit :=
  if includes (settlements s) id then Ok tt else Throw ("unknown rate-limit item: " +:+ id).

(** The promise of [handle] is the one the id names. *)
Definition handle (s : RateLimitPool) (id : string) : RateLimitPool :=
  if includes (settlements s) id then s else with_settlements s (settlements s ++ [id]) (settled s).

(** ** Submitting *)

Definition generated_id (n : Z) : string := "rate-limit:" +:+ show_Z n.

Definition submit (s : RateLimitPool) (id : option string) (f : ItemFields T) : string * RateLimitPool :=
  let '(assigned, s) :=
    match id with
    | Some i => (i, s)
    | None => (generated_id (seqCounter s), with_counter s (seqCounter s + 1))
    end in
  let identified := {| itemId := assigned; fields := f |} in
  let queue := lanes s (lane f) in
  let existing :=
    match id, coalesceKey f with
    | None, Some _ =>
        list_find (fun q => sessionId (item q) = sessionId f /\ coalesceKey (item q) = coalesceKey f) queue
    | _, _ => None
    end in
  match existing with
  | Some (i, q) =>
      let s := settle s (itemId (item q)) removed in
      (assigned, handle (with_lane s (lane f) (<[i := {| item := identified; seq := seq q |}]> queue)) assigned)
  | None =>
      let '(n, s) :=
        match id with
        | None => (seqCounter s - 1, s)
        | Some _ => (seqCounter s, with_counter s (seqCounter s + 1))
        end in
      (assigned, handle (with_lane s (lane f) (queue ++ [{| item := identified; seq := n |}])) assigned)
  end.

(** ** Removing *)

Definition matches (p : RateLimitItem T -> bool) (q : QueuedItem T) : bool := p (item q).

Definition remove_lane (p : RateLimitItem T -> bool) (d : RateLimitDisposition)
    (acc : list (RateLimitItem T) * RateLimitPool) (l : RateLimitLane) : list (RateLimitItem T) * RateLimitPool :=
  let '(out, s) := acc in
  let queue := lanes s l in
  let gone := item <$> List.filter (matches p) queue in
  let s := foldl (fun s i => settle s (itemId i) d) s gone in
  (out ++ gone, with_lane s l (List.filter (fun q => negb (matches p q)) queue)).

Definition removeWhere (s : RateLimitPool) (p : RateLimitItem T -> bool) (d : RateLimitDisposition)
    : list (RateLimitItem T) * RateLimitPool :=
  foldl (remove_lane p d) ([], s) LANE_PRIORITY.

Fixpoint remove_id (ls : list RateLimitLane) (s : RateLimitPool) (id : string)
    : option (RateLimitItem T) * RateLimitPool :=
  match ls with
  | [] => (None, s)
  | l :: ls =>
      match list_find (fun q => itemId (item q) = id) (lanes s l) with
      | Some (i, q) => (Some (item q), settle (with_lane s l (delete i (lanes s l))) (itemId (item q)) removed)
      | None => remove_id ls s id
      end
  end.

Definition removeById (s : RateLimitPool) (id : string) : option (RateLimitItem T) * RateLimitPool :=
  remove_id LANE_PRIORITY s id.

(** ** Granting *)

(** The distinct sessions of a queue, in order of first appearance. *)
Definition sessions_of (queue : list (QueuedItem T)) : list string :=
  foldl (fun ss q => if includes ss (sessionId (item q)) then ss else ss ++ [sessionId (item q)]) [] queue.

Fixpoint fair_loop (sessions : list string) (cursor offset fuel : nat) (queue : list (QueuedItem T))
    : nat * option nat :=
  match fuel with
  | O => (O, None)
  | S fuel =>
      let n := length sessions in
      match sessions !! ((cursor + offset) mod n)%nat with
      | None => fair_loop sessions cursor (S offset) fuel queue
      | Some candidate =>
          match list_find (fun q => sessionId (item q) = candidate) queue with
          | Some (i, _) => (i, Some ((cursor + offset + 1) mod n)%nat)
          | None => fair_loop sessions cursor (S offset) fuel queue
          end
      end
  end.

(** The picked index and the new cursor, when it moves. *)
Definition pickFairIndex (cursor : nat) (queue : list (QueuedItem T)) : nat * option nat :=
  let sessions := sessions_of queue in
  if decide (length sessions <= 1)%nat then (O, None)
  else fair_loop sessions cursor 0 (length sessions) queue.

Fixpoint take_from (ls : list RateLimitLane) (s : RateLimitPool)
    : outcome string (option (RateLimitItem T)) * RateLimitPool :=
  match ls with
  | [] => (Ok None, s)
  | l :: ls =>
      let queue := lanes s l in
      if decide (queue = []) then take_from ls s
      else
        let '(picked, c) := pickFairIndex (laneCursor s l) queue in
        let s := match c with Some c => with_cursor s (set_at (laneCursor s) l c) | None => s end in
        let s' := with_lane s l (delete picked queue) in
        match queue !! picked with
        | Some q =>
            match markSending s' (itemId (item q)) with
            | Ok _ => (Ok (Some (item q)), s')
            | Throw e => (Throw e, s')
            end
        | None => (Ok None, s')
        end
  end.

Definition takeNext (s : RateLimitPool) : outcome string (option (RateLimitItem T)) * RateLimitPool :=
  take_from LANE_PRIORITY s.

Fixpoint grant_loop (fuel : nat) (s : RateLimitPool) (granted : list (RateLimitItem T))
    : outcome string (list (RateLimitItem T)) * RateLimitPool :=
  match fuel with
  | O => (Ok granted, s)
  | S fuel =>
      if Qle_bool 1 (tokens s) then
        match takeNext s with
        | (Throw e, s) => (Throw e, s)
        | (Ok None, s) => (Ok granted, s)
        | (Ok (Some i), s) => grant_loop fuel (with_tokens s (fl (tokens s - 1)) (lastRefill s)) (granted ++ [i])
        end
      else (Ok granted, s)
  end.

Record RateLimitDrainResult := { granted : list (RateLimitItem T); expired_items : list (RateLimitItem T) }.

Definition overdue (now : Z) (i : RateLimitItem T) : bool :=
  match deadlineAt i with Some t => bool_decide (t <= now) | None => false end.

Definition drainWithExpired (s : RateLimitPool) (now : Z) : outcome string RateLimitDrainResult * RateLimitPool :=
  let s := refill s now in
  let '(out, s) := removeWhere s (overdue now) expired in
  match grant_loop (S (pending s)) s [] with
  | (Ok g, s) => (Ok {| granted := g; expired_items := out |}, s)
  | (Throw e, s) => (Throw e, s)
  end.

Definition drain (s : RateLimitPool) (now : Z) : outcome string (list (RateLimitItem T)) * RateLimitPool :=
  match drainWithExpired s now with
  | (Ok r, s) => (Ok (granted r), s)
  | (Throw e, s) => (Throw e, s)
  end.
End pool.

Section pool_proofs.
Context {T : Type} (fl : Q -> Q).
Local Abbreviation pool := (@RateLimitPool T).
Implicit Types (s : pool) (l : RateLimitLane) (q : QueuedItem T) (queue : list (QueuedItem T)) (i : RateLimitItem T).

Definition qid (q : QueuedItem T) : string := itemId (item q).
Definition qsession (q : QueuedItem T) : string := sessionId (item q).

(** ** The rotation *)

Definition add_session (ss : list string) (q : QueuedItem T) : list string :=
  if includes ss (qsession q) then ss else ss ++ [qsession q].

Lemma add_sessions_spec ss queue :
  NoDup ss ->
  (exists more, foldl add_session ss queue = ss ++ more) /\ NoDup (foldl add_session ss queue) /\
  forall x, x ∈ foldl add_session ss queue <-> x ∈ ss \/ x ∈ qsession <$> queue.
Proof.
  revert ss. induction queue as [|q queue IH]; intros ss Hn; cbn [foldl].
  { split_and!; [exists []; by rewrite app_nil_r|done|]. intros x. cbn. rewrite elem_of_nil. tauto. }
  unfold add_session at 2 4 6. rewrite fmap_cons. destruct (includes ss (qsession q)) eqn:E.
  - destruct (IH ss Hn) as (Hp & Hd & Hx). apply includes_true in E. split_and!; [done|done|].
    intros x. rewrite Hx, elem_of_cons. split; [tauto|]. intros [?|[->|?]]; tauto.
  - apply includes_false in E. destruct (IH (ss ++ [qsession q])) as ((more & Hp) & Hd & Hx).
    { apply NoDup_app. split_and!; [done|set_solver|apply NoDup_singleton]. }
    split_and!; [exists (qsession q :: more); by rewrite Hp, <- app_assoc|done|].
    intros x. rewrite Hx. set_solver.
Qed.

Lemma sessions_of_NoDup queue : NoDup (sessions_of queue).
Proof. apply (add_sessions_spec [] queue); constructor. Qed.

Lemma sessions_of_elem queue x : x ∈ sessions_of queue <-> x ∈ qsession <$> queue.
Proof.
  destruct (add_sessions_spec [] queue) as (_ & _ & H); [constructor|]. etrans; [apply H|].
  rewrite elem_of_nil. tauto.
Qed.

Lemma sessions_of_head q queue : sessions_of (q :: queue) !! O = Some (qsession q).
Proof.
  destruct (add_sessions_spec [qsession q] queue) as ((more & H) & _); [apply NoDup_singleton|].
  change (sessions_of (q :: queue)) with (foldl add_session [qsession q] queue). by rewrite H.
Qed.

Lemma sessions_of_le queue queue' :
  qsession <$> queue ⊆ qsession <$> queue' -> (length (sessions_of queue) <= length (sessions_of queue'))%nat.
Proof.
  intros H. apply submseteq_length, NoDup_submseteq; [apply sessions_of_NoDup|].
  intros x. rewrite !sessions_of_elem. apply H.
Qed.

(** The sessions of a queue without one of its items. *)
Lemma sessions_of_delete pre q post :
  (length (sessions_of (pre ++ q :: post)) <= S (length (sessions_of (pre ++ post))))%nat.
Proof.
  apply (submseteq_length _ (qsession q :: sessions_of (pre ++ post))), NoDup_submseteq; [apply sessions_of_NoDup|].
  intros x. rewrite sessions_of_elem, elem_of_cons, sessions_of_elem, !fmap_app, fmap_cons, !elem_of_app, elem_of_cons.
  tauto.
Qed.

(** What is picked is the first queued item of its session; which session, the
    cursor says.  A cursor at the first session picks the head. *)
Lemma pick_spec cursor q queue :
  exists pre x post c,
    q :: queue = pre ++ x :: post /\ pickFairIndex cursor (q :: queue) = (length pre, c) /\
    Forall (fun y => qsession y <> qsession x) pre /\
    let n := length (sessions_of (q :: queue)) in
    ((n <= 1)%nat /\ pre = [] /\ c = None \/
     (2 <= n)%nat /\ c = Some ((cursor + 1) mod n)%nat /\ ((cursor mod n)%nat = O -> pre = [])).
Proof.
  unfold pickFairIndex. set (ss := sessions_of (q :: queue)). case_decide as Hn.
  { exists [], q, queue, None. split_and!; [done|done|by constructor|]. left. by split_and!. }
  assert (ss !! O = Some (qsession q)) as H0 by apply sessions_of_head.
  destruct (length ss) as [|n] eqn:En; [lia|]. cbn [fair_loop]. rewrite En, Nat.add_0_r.
  destruct (ss !! (cursor mod S n)%nat) as [x|] eqn:Ex.
  2:{ apply lookup_ge_None in Ex. pose proof (Nat.mod_upper_bound cursor (S n)). lia. }
  destruct (list_find (fun y => sessionId (item y) = x) (q :: queue)) as [[k y]|] eqn:Ef.
  2:{ exfalso. apply list_find_None in Ef. apply list_elem_of_lookup_2, sessions_of_elem, list_elem_of_fmap in Ex.
      destruct Ex as (z & Hz & Hin). rewrite Forall_forall in Ef. by apply (Ef z Hin). }
  apply list_find_Some in Ef as (Hk & Hy & Hb). exists (take k (q :: queue)), y, (drop (S k) (q :: queue)), (Some ((cursor + 1) mod S n)%nat).
  assert (k < length (q :: queue))%nat as Hlt by (by eapply lookup_lt_Some).
  split_and!.
  - symmetry. by apply take_drop_middle.
  - by rewrite length_take_le by lia.
  - apply Forall_lookup. intros j z Hz. apply lookup_take_Some in Hz as [Hz Hj]. rewrite <- Hy in Hb.
    by apply (Hb j z).
  - right. split_and!; [lia|done|]. intros E. rewrite E, H0 in Ex. injection Ex as <-.
    destruct k as [|k]; [done|]. exfalso. apply (Hb O q); try done; lia.
Qed.

(** ** Settlements *)

(** Everything but the settlements. *)
Definition same_queues s s' : Prop :=
  capacity s' = capacity s /\ refillPerSec s' = refillPerSec s /\ lanes s' = lanes s /\
  laneCursor s' = laneCursor s /\ tokens s' = tokens s /\ lastRefill s' = lastRefill s /\ seqCounter s' = seqCounter s.

Lemma settle_spec s id d :
  same_queues s (settle s id d) /\
  (forall x, x ∈ settlements (settle s id d) <-> x ∈ settlements s /\ x <> id) /\
  (forall x, x ∈ (settled (settle s id d)).*1 <-> x ∈ (settled s).*1 \/ x = id /\ id ∈ settlements s) /\
  settled s `prefix_of` settled (settle s id d).
Proof.
  unfold settle. destruct (includes (settlements s) id) eqn:E.
  - apply includes_true in E. split_and!; [done| | |by eexists]; intros x; cbn [with_settlements settlements settled].
    + rewrite list_elem_of_In, filter_In, <- list_elem_of_In, negb_true_iff, bool_decide_eq_false. done.
    + rewrite fmap_app, elem_of_app. cbn. rewrite list_elem_of_singleton. naive_solver.
  - apply includes_false in E. split_and!; [done| | |done]; naive_solver.
Qed.

(** The settlements are consistent: each id is pending or resolved, once. *)
Record settling s : Prop := {
  st_pending : NoDup (settlements s);
  st_log : NoDup (settled s).*1;
  st_disjoint id : id ∈ settlements s -> id ∈ (settled s).*1 -> False;
  st_fresh n : generated_id n ∈ settlements s \/ generated_id n ∈ (settled s).*1 -> n < seqCounter s
}.

Lemma settle_settling s id d : settling s -> settling (settle s id d).
Proof.
  intros [Hp Hl Hd Hf]. destruct (settle_spec s id d) as ((_ & _ & _ & _ & _ & _ & Hc) & Hs & Hg & _).
  constructor.
  - unfold settle. destruct (includes _ _); [|done]. by apply NoDup_ListNoDup, List.NoDup_filter, NoDup_ListNoDup.
  - unfold settle. destruct (includes (settlements s) id) eqn:E; [|done]. apply includes_true in E.
    cbn [with_settlements settled]. rewrite fmap_app. apply NoDup_app. split_and!; [done| |apply NoDup_singleton].
    intros x Hx Hi. apply list_elem_of_singleton in Hi. cbn in Hi. subst x. eauto.
  - intros x Hx Hy. apply Hs in Hx. apply Hg in Hy. naive_solver.
  - intros n Hn. rewrite Hc. apply Hf. rewrite Hs, Hg in Hn. naive_solver.
Qed.

Lemma settle_all s (is_ : list (RateLimitItem T)) d :
  settling s ->
  let s' := foldl (fun s i => settle s (itemId i) d) s is_ in
  same_queues s s' /\ settling s' /\
  (forall x, x ∈ settlements s' <-> x ∈ settlements s /\ x ∉ itemId <$> is_) /\
  (forall x, x ∈ (settled s').*1 <-> x ∈ (settled s).*1 \/ x ∈ itemId <$> is_ /\ x ∈ settlements s).
Proof.
  revert s. induction is_ as [|i is_ IH]; intros s Hs; cbn [foldl].
  { split_and!; [done|done|set_solver|set_solver]. }
  destruct (IH _ (settle_settling s (itemId i) d Hs)) as (Hq & Hst & Hp & Hl).
  destruct (settle_spec s (itemId i) d) as (Hq' & Hp' & Hl' & _). split_and!.
  - unfold same_queues in *. naive_solver congruence.
  - done.
  - intros x. rewrite Hp, Hp'. set_solver.
  - intros x. rewrite Hl, Hl', Hp', fmap_cons, elem_of_cons. destruct (decide (x = itemId i)); naive_solver.
Qed.

Lemma handle_settling s id :
  settling s -> id ∉ (settled s).*1 -> (forall n, id = generated_id n -> n < seqCounter s) -> settling (handle s id).
Proof.
  intros [Hp Hl Hd Hf] Hn Hg. unfold handle. destruct (includes (settlements s) id) eqn:E; [done|].
  apply includes_false in E. constructor; cbn [with_settlements settlements settled seqCounter]; [|done| |].
  - apply NoDup_app. split_and!; [done|set_solver|apply NoDup_singleton].
  - intros x Hx. apply elem_of_app in Hx as [Hx|Hx]; [by apply Hd|].
    apply list_elem_of_singleton in Hx. by subst x.
  - intros n [Hx|Hx]; [|by apply Hf; right]. apply elem_of_app in Hx as [Hx|Hx]; [by apply Hf; left|].
    apply list_elem_of_singleton in Hx. by apply Hg.
Qed.

(** ** Queues *)

(** Queued ids are distinct, and items are in their lane. *)
Record queued s : Prop := {
  q_nodup l : NoDup (qid <$> lanes s l);
  q_apart l l' id : id ∈ qid <$> lanes s l -> id ∈ qid <$> lanes s l' -> l = l';
  q_lane l q : q ∈ lanes s l -> lane (item q) = l
}.

(** Their promises are pending. *)
Definition known s : Prop := forall l id, id ∈ qid <$> lanes s l -> id ∈ settlements s.

Definition inv s : Prop := queued s /\ known s /\ settling s.

Lemma set_at_eq {A} (f : RateLimitLane -> A) l x : set_at f l x l = x.
Proof. unfold set_at. by rewrite decide_True. Qed.

Lemma set_at_ne {A} (f : RateLimitLane -> A) l l' x : l' <> l -> set_at f l x l' = f l'.
Proof. intros H. unfold set_at. by rewrite decide_False. Qed.

Lemma sublist_lane s l queue l' :
  queue `sublist_of` lanes s l -> lanes (with_lane s l queue) l' `sublist_of` lanes s l'.
Proof. intros H. cbn. unfold set_at. case_decide; [by subst|done]. Qed.

(** Queues that only lose items stay consistent. *)
Lemma queued_sublist s s' :
  (forall l, lanes s' l `sublist_of` lanes s l) -> queued s -> queued s'.
Proof.
  intros Hsub [Hn Ha Hl].
  assert (forall l id, id ∈ qid <$> lanes s' l -> id ∈ qid <$> lanes s l) as Hin.
  { intros l id Hid. eapply elem_of_sublist; [exact Hid|apply fmap_sublist, Hsub]. }
  constructor.
  - intros l. eapply sublist_NoDup; [apply (Hn l)|apply fmap_sublist, Hsub].
  - eauto.
  - intros l q Hq. eapply Hl, elem_of_sublist; [exact Hq|apply Hsub].
Qed.

Lemma known_sublist s s' :
  (forall l, lanes s' l `sublist_of` lanes s l) -> settlements s' = settlements s -> known s -> known s'.
Proof. intros Hsub E Hk l id Hid. rewrite E. eapply Hk, elem_of_sublist; [exact Hid|apply fmap_sublist, Hsub]. Qed.

(** *** Removals *)

Lemma remove_lanes p d ls out s :
  NoDup ls -> settling s ->
  let '(out', s') := foldl (remove_lane p d) (out, s) ls in
  let gone := ls ≫= fun l => item <$> List.filter (matches p) (lanes s l) in
  out' = out ++ gone /\ settling s' /\
  capacity s' = capacity s /\ refillPerSec s' = refillPerSec s /\ laneCursor s' = laneCursor s /\
  tokens s' = tokens s /\ lastRefill s' = lastRefill s /\ seqCounter s' = seqCounter s /\
  (forall l, lanes s' l = if decide (l ∈ ls) then List.filter (fun q => negb (matches p q)) (lanes s l) else lanes s l) /\
  (forall x, x ∈ settlements s' <-> x ∈ settlements s /\ x ∉ itemId <$> gone) /\
  (forall x, x ∈ (settled s').*1 <-> x ∈ (settled s).*1 \/ x ∈ itemId <$> gone /\ x ∈ settlements s).
Proof.
  revert out s. induction ls as [|l ls IH]; intros out s Hn Hs; cbn [foldl].
  { split_and!; try done; [by rewrite app_nil_r|set_solver|set_solver]. }
  apply NoDup_cons in Hn as [Hl Hn]. unfold remove_lane at 2.
  set (gone := item <$> List.filter (matches p) (lanes s l)).
  destruct (settle_all s gone d Hs) as (Hq & Hst & Hp & Hg).
  set (s1 := foldl (fun s i => settle s (itemId i) d) s gone) in *.
  set (s2 := with_lane s1 l _). specialize (IH (out ++ gone) s2 Hn).
  destruct (foldl (remove_lane p d) (out ++ gone, s2) ls) as [out' s'].
  destruct IH as (-> & Hst' & E1 & E2 & E3 & E4 & E5 & E6 & Hlanes & Hp' & Hg').
  { destruct Hst. by constructor. }
  destruct Hq as (F1 & F2 & F3 & F4 & F5 & F6 & F7).
  assert ((ls ≫= fun l' => item <$> List.filter (matches p) (lanes s2 l')) =
    (ls ≫= fun l' => item <$> List.filter (matches p) (lanes s l'))) as Erest.
  { apply Forall_bind_ext, Forall_forall. intros l' Hl'. subst s2. cbn. rewrite set_at_ne by congruence. by rewrite F3. }
  rewrite Erest in Hp', Hg' |- *. cbn [mbind list_bind]. fold gone.
  split_and!; try (cbn in *; congruence).
  - by rewrite <- app_assoc.
  - intros l'. rewrite Hlanes. subst s2. cbn [lanes with_lane with_lanes].
    destruct (decide (l' = l)) as [->|Hne].
    + rewrite decide_False by done. rewrite decide_True by (by left). by rewrite set_at_eq.
    + rewrite set_at_ne by done. rewrite F3. destruct (decide (l' ∈ ls)).
      * rewrite decide_True; [done|by right].
      * rewrite decide_False; [done|]. by intros [?|?]%elem_of_cons.
  - intros x. rewrite Hp'. cbn [settlements with_lane with_lanes s2]. rewrite Hp, fmap_app, elem_of_app. tauto.
  - intros x. rewrite Hg'. cbn [settled settlements with_lane with_lanes s2]. rewrite Hg, Hp, fmap_app, elem_of_app.
    destruct (decide (x ∈ itemId <$> gone)); tauto.
Qed.

(** *** Grants *)

Definition rank (l : RateLimitLane) : nat := match l with ask => 0 | finalized => 1 | live => 2 | idle => 3 end.

(** The state after an item left its lane. *)
Definition taken s l queue (c : option nat) : pool :=
  with_lane (match c with Some c => with_cursor s (set_at (laneCursor s) l c) | None => s end) l queue.

Lemma taken_spec s l queue c :
  capacity (taken s l queue c) = capacity s /\ refillPerSec (taken s l queue c) = refillPerSec s /\
  lanes (taken s l queue c) = set_at (lanes s) l queue /\ tokens (taken s l queue c) = tokens s /\
  lastRefill (taken s l queue c) = lastRefill s /\ settlements (taken s l queue c) = settlements s /\
  settled (taken s l queue c) = settled s /\ seqCounter (taken s l queue c) = seqCounter s /\
  laneCursor (taken s l queue c) = match c with Some c => set_at (laneCursor s) l c | None => laneCursor s end.
Proof. unfold taken. by destruct c. Qed.

(** A choice of the pool: the first item of its session in the first lane with
    items. *)
Inductive chosen s (i : RateLimitItem T) (s' : pool) : Prop :=
| Chosen l pre q post c :
    lanes s l = pre ++ q :: post -> item q = i ->
    (forall l', (rank l' < rank l)%nat -> lanes s l' = []) ->
    pickFairIndex (laneCursor s l) (lanes s l) = (length pre, c) ->
    Forall (fun y => qsession y <> qsession q) pre ->
    s' = taken s l (pre ++ post) c ->
    chosen s i s'.

Lemma take_from_spec ls s :
  known s ->
  (exists l pre q post c ahead rest,
     ls = ahead ++ l :: rest /\ Forall (fun l' => lanes s l' = []) ahead /\
     lanes s l = pre ++ q :: post /\ pickFairIndex (laneCursor s l) (lanes s l) = (length pre, c) /\
     Forall (fun y => qsession y <> qsession q) pre /\
     take_from ls s = (Ok (Some (item q)), taken s l (pre ++ post) c)) \/
  Forall (fun l' => lanes s l' = []) ls /\ take_from ls s = (Ok None, s).
Proof.
  intros Hk. induction ls as [|l ls IH]; [by right|]. cbn [take_from]. case_decide as El.
  - destruct IH as [(l1 & pre & q & post & c & ahead & rest & -> & Ha & H)|[Ha H]]; [left|right].
    + exists l1, pre, q, post, c, (l :: ahead), rest. split_and!; try done; [by constructor|apply H..].
    + split; [by constructor|done].
  - left. destruct (lanes s l) as [|q0 queue] eqn:Eq; [done|].
    destruct (pick_spec (laneCursor s l) q0 queue) as (pre & q & post & c & E & Hpick & Hpre & _).
    exists l, pre, q, post, c, [], ls. rewrite Eq. split_and!; try done.
    rewrite Hpick, E, list_lookup_middle by done. rewrite delete_middle. fold (taken s l (pre ++ post) c).
    unfold markSending. destruct (taken_spec s l (pre ++ post) c) as (_ & _ & _ & _ & _ & -> & _).
    replace (includes (settlements s) (itemId (item q))) with true; [done|]. symmetry.
    apply includes_true, (Hk l). rewrite Eq, E. apply list_elem_of_fmap. exists q. split; [done|]. set_solver.
Qed.

Lemma ahead_of l l' ahead rest :
  LANE_PRIORITY = ahead ++ l :: rest -> (rank l' < rank l)%nat -> l' ∈ ahead.
Proof.
  intros E H. assert (ahead = take (length ahead) LANE_PRIORITY) as Ea by (by rewrite E, take_app_length).
  assert (LANE_PRIORITY !! length ahead = Some l) as El by (rewrite E; by apply list_lookup_middle).
  rewrite Ea. destruct (length ahead) as [|[|[|[|n]]]]; [..|done]; injection El as <-;
    destruct l'; cbn in H; try lia; cbn; set_solver.
Qed.

Lemma take_spec s :
  known s ->
  (exists i s', takeNext s = (Ok (Some i), s') /\ chosen s i s') \/
  takeNext s = (Ok None, s) /\ forall l, lanes s l = [].
Proof.
  intros Hk. unfold takeNext.
  destruct (take_from_spec LANE_PRIORITY s Hk) as [(l & pre & q & post & c & ahead & rest & El & Ha & E & Hp & Hf & H)|[Ha H]].
  - left. exists (item q), (taken s l (pre ++ post) c). split; [done|]. econstructor; try done.
    intros l' Hl'. rewrite Forall_forall in Ha. by apply Ha, (ahead_of l l' _ _ El).
  - right. split; [done|]. rewrite Forall_forall in Ha. intros l. apply Ha. destruct l; set_solver.
Qed.

(** The grants of a drain: while a whole token is left, the chosen item costs
    one. *)
Inductive granting : pool -> list (RateLimitItem T) -> pool -> Prop :=
| G_stop s : (forall l, lanes s l = []) \/ Qle_bool 1 (tokens s) = false -> granting s [] s
| G_grant s i s1 is_ s2 :
    Qle_bool 1 (tokens s) = true -> chosen s i s1 ->
    granting (with_tokens s1 (fl (tokens s1 - 1)) (lastRefill s1)) is_ s2 ->
    granting s (i :: is_) s2.

Lemma pending_taken s l pre q post c :
  lanes s l = pre ++ q :: post -> pending s = S (pending (taken s l (pre ++ post) c)).
Proof.
  intros E. unfold pending, LANE_PRIORITY. cbn [sum_list_with].
  destruct (taken_spec s l (pre ++ post) c) as (_ & _ & -> & _). unfold set_at.
  apply (f_equal length) in E. rewrite length_app in E. cbn in E.
  pose proof (length_app pre post) as E2. destruct l; repeat case_decide; try congruence; lia.
Qed.

Lemma chosen_sublist s i s' l : chosen s i s' -> lanes s' l `sublist_of` lanes s l.
Proof.
  intros [l0 pre q post c E _ _ _ _ ->]. destruct (taken_spec s l0 (pre ++ post) c) as (_ & _ & -> & _).
  unfold set_at. case_decide as H; [|done]. subst. rewrite E. apply sublist_app; [done|]. by constructor.
Qed.

Lemma grant_loop_spec fuel s out :
  known s -> (pending s < fuel)%nat ->
  exists is_ s', grant_loop fl fuel s out = (Ok (out ++ is_), s') /\ granting s is_ s'.
Proof.
  revert s out. induction fuel as [|fuel IH]; intros s out Hk Hf; [lia|]. cbn [grant_loop].
  destruct (Qle_bool 1 (tokens s)) eqn:Et.
  2:{ exists [], s. rewrite app_nil_r. split; [done|]. apply G_stop. by right. }
  destruct (take_spec s Hk) as [(i & s1 & E & Hc)|[E He]]; rewrite E.
  2:{ exists [], s. rewrite app_nil_r. split; [done|]. apply G_stop. by left. }
  assert (settlements s1 = settlements s /\ pending s = S (pending s1)) as [Es Ep].
  { destruct Hc as [l pre q post c El _ _ _ _ ->]. split; [apply taken_spec|by apply (pending_taken s l pre q)]. }
  destruct (IH (with_tokens s1 (fl (tokens s1 - 1)) (lastRefill s1)) (out ++ [i])) as (is_ & s' & E' & Hg).
  - apply (known_sublist s); [intros l; by apply (chosen_sublist s i s1)| |done]; by cbn.
  - change (pending (with_tokens s1 (fl (tokens s1 - 1)) (lastRefill s1))) with (pending s1). lia.
  - exists (i :: is_), s'. rewrite E', <- app_assoc. split; [done|]. by eapply G_grant.
Qed.

(** The items a removal takes out, in lane and queue order. *)
Definition taken_out (p : RateLimitItem T -> bool) s : list (RateLimitItem T) :=
  LANE_PRIORITY ≫= fun l => item <$> List.filter (matches p) (lanes s l).

Definition same_budget s s' : Prop :=
  capacity s' = capacity s /\ refillPerSec s' = refillPerSec s /\ laneCursor s' = laneCursor s /\
  tokens s' = tokens s /\ lastRefill s' = lastRefill s /\ seqCounter s' = seqCounter s.

Lemma in_priority l : l ∈ LANE_PRIORITY.
Proof. destruct l; set_solver. Qed.

Lemma taken_out_elem p s id :
  id ∈ itemId <$> taken_out p s <-> exists l q, q ∈ lanes s l /\ qid q = id /\ matches p q = true.
Proof.
  unfold taken_out. split.
  - intros H. apply list_elem_of_fmap in H as (i & -> & H). apply list_elem_of_bind in H as (l & H & _).
    apply list_elem_of_fmap in H as (q & -> & H). apply list_elem_of_In, filter_In in H as [H Hm].
    apply list_elem_of_In in H. by exists l, q.
  - intros (l & q & H & <- & Hm). apply (list_elem_of_fmap_2 itemId _ (item q)), list_elem_of_bind. exists l.
    split; [|apply in_priority]. by apply list_elem_of_fmap_2, list_elem_of_In, filter_In; split; [apply list_elem_of_In|].
Qed.

Lemma removeWhere_spec s p d :
  inv s ->
  exists s', removeWhere s p d = (taken_out p s, s') /\ inv s' /\ same_budget s s' /\
    (forall l, lanes s' l = List.filter (fun q => negb (matches p q)) (lanes s l)) /\
    (forall x, x ∈ settlements s' <-> x ∈ settlements s /\ x ∉ itemId <$> taken_out p s) /\
    (forall x, x ∈ (settled s').*1 <-> x ∈ (settled s).*1 \/ x ∈ itemId <$> taken_out p s /\ x ∈ settlements s).
Proof.
  intros (Hq & Hk & Hs). pose proof (remove_lanes p d LANE_PRIORITY [] s) as H. unfold removeWhere.
  destruct (foldl (remove_lane p d) ([], s) LANE_PRIORITY) as [out s1].
  destruct H as (-> & Hst & E1 & E2 & E3 & E4 & E5 & E6 & Hl & Hp & Hg); [by repeat constructor; set_solver|done|].
  exists s1. fold (taken_out p s) in *.
  assert (forall l, lanes s1 l = List.filter (fun q => negb (matches p q)) (lanes s l)) as Hl'.
  { intros l. by rewrite Hl, decide_True by apply in_priority. }
  assert (forall l, lanes s1 l `sublist_of` lanes s l) as Hsub by (intros l; rewrite Hl'; apply sublist_bool_filter).
  split_and!; [done| |done|done|done|done]. split_and!; [by apply (queued_sublist s)| |done].
  intros l id Hid. apply list_elem_of_fmap in Hid as (q & -> & Hin). rewrite Hl' in Hin.
  apply list_elem_of_In, filter_In in Hin as [Hin Hm]. apply list_elem_of_In in Hin.
  apply Hp. split; [by apply (Hk l), list_elem_of_fmap_2|]. rewrite taken_out_elem. intros (l' & q' & Hin' & Eid & Hm').
  assert (l' = l) as -> by (apply (q_apart _ Hq l' l (qid q)); [rewrite <- Eid|]; by apply list_elem_of_fmap_2).
  assert (q' = q) as -> by (by apply (NoDup_inj_on qid (lanes s l)); [apply Hq|..]).
  by rewrite Hm' in Hm.
Qed.

(** What a drain does: nothing throws, the overdue items expire, the rest
    compete for the tokens. *)
Lemma drain_spec s now :
  inv s ->
  exists s1 is_ s2,
    removeWhere (refill fl s now) (overdue now) expired = (taken_out (overdue now) s, s1) /\
    granting s1 is_ s2 /\ inv (refill fl s now) /\ inv s1 /\
    drainWithExpired fl s now = (Ok {| granted := is_; expired_items := taken_out (overdue now) s |}, s2).
Proof.
  intros (Hq & Hk & Hs). unfold drainWithExpired. cbv zeta.
  assert (inv (refill fl s now)) as Hi.
  { unfold refill. case_decide; [done|]. split_and!; [by destruct Hq|done|by destruct Hs]. }
  destruct (removeWhere_spec (refill fl s now) (overdue now) expired Hi) as (s1 & E & Hi1 & _). rewrite E.
  destruct (grant_loop_spec (S (pending s1)) s1 []) as (is_ & s2 & Eg & Hg); [apply Hi1|lia|].
  assert (taken_out (overdue now) (refill fl s now) = taken_out (overdue now) s) as ->
    by (unfold refill; by case_decide).
  exists s1, is_, s2. rewrite Eg. by split_and!.
Qed.

(** Grants keep the pool consistent. *)
Lemma granting_inv s is_ s' : granting s is_ s' -> inv s -> inv s'.
Proof.
  induction 1 as [s|s i s1 is_ s2 _ Hc _ IH]; [done|]. intros (Hq & Hk & Hs). apply IH.
  assert (forall l, lanes s1 l `sublist_of` lanes s l) as Hsub by (intros l; by apply (chosen_sublist s i)).
  destruct Hc as [l pre q post c _ _ _ _ _ ->].
  destruct (taken_spec s l (pre ++ post) c) as (_ & _ & El & _ & _ & Ep & Eg & Ec & _). split_and!.
  - by apply (queued_sublist s).
  - by apply (known_sublist s).
  - destruct Hs. constructor; cbn [with_tokens settlements settled seqCounter]; rewrite ?Ep, ?Eg, ?Ec; auto.
Qed.

(** *** Submissions *)

Definition waiting s (id : string) : Prop := exists l, id ∈ qid <$> lanes s l.

(** A change of the queues by a submission: [a] is added, in the place of [old]
    or at the end of its lane. *)
Record submission s (a : string) (old : option string) s' : Prop := {
  sub_waiting x : waiting s' x <-> waiting s x /\ old <> Some x \/ x = a;
  sub_pending x : x ∈ settlements s' <-> x ∈ settlements s /\ old <> Some x \/ x = a;
  sub_settled x : x ∈ (settled s').*1 <-> x ∈ (settled s).*1 \/ old = Some x;
  sub_old x : old = Some x -> waiting s x;
  sub_place l p q : lanes s l !! p = Some q -> lanes s' l !! p = Some q \/ old = Some (qid q);
  sub_sessions l : qsession <$> lanes s l `prefix_of` qsession <$> lanes s' l;
  sub_budget : capacity s' = capacity s /\ refillPerSec s' = refillPerSec s /\ laneCursor s' = laneCursor s /\
    tokens s' = tokens s /\ lastRefill s' = lastRefill s
}.

Definition fresh_id s (a : string) : Prop :=
  a ∉ settlements s /\ a ∉ (settled s).*1 /\ forall n, a = generated_id n -> n < seqCounter s.

Lemma append_submission s a f n :
  inv s -> fresh_id s a ->
  let q := {| item := {| itemId := a; fields := f |}; seq := n |} in
  let s' := handle (with_lane s (lane f) (lanes s (lane f) ++ [q])) a in
  inv s' /\ submission s a None s'.
Proof.
  intros (Hq & Hk & Hs) (Hp & Hg & Hf) q s'.
  assert (lanes s' = set_at (lanes s) (lane f) (lanes s (lane f) ++ [q]) /\
    settlements s' = settlements s ++ [a] /\ settled s' = settled s) as (El & Ep & Eg).
  { unfold s', handle. cbn [settlements with_lane with_lanes].
    by replace (includes (settlements s) a) with false by (symmetry; by apply includes_false). }
  assert (forall l, a ∉ qid <$> lanes s l) as Hna by (intros l Hl; by apply Hp, (Hk l)).
  assert (forall l x, x ∈ qid <$> lanes s' l <-> x ∈ qid <$> lanes s l \/ x = a /\ l = lane f) as Hids.
  { intros l x. rewrite El. unfold set_at. case_decide; [subst; rewrite fmap_app|]; set_solver. }
  split; [split_and!|].
  - constructor.
    + intros l. rewrite El. unfold set_at. case_decide; [|apply Hq]. subst l. rewrite fmap_app. apply NoDup_app.
      split_and!; [apply Hq| |apply NoDup_singleton]. intros x Hx E%list_elem_of_singleton. cbn in E. subst x. by apply (Hna (lane f)).
    + intros l l' x [Hx|[-> ->]]%Hids [Hx'|[E ->]]%Hids; [by eapply (q_apart _ Hq)|subst; by destruct (Hna l)|by destruct (Hna l')|done].
    + intros l x. rewrite El. unfold set_at. case_decide; [|apply Hq]. subst l. rewrite elem_of_app.
      intros [Hx|Hx]; [by apply Hq|]. apply list_elem_of_singleton in Hx. by subst x.
  - intros l x Hx. rewrite Ep. apply elem_of_app. apply Hids in Hx as [Hx|[-> _]]; [left; by apply (Hk l)|right; by apply list_elem_of_singleton].
  - apply handle_settling; [destruct Hs; by constructor|done|done].
  - assert (forall x, None <> Some x :> option string) as Hnone by done.
    constructor.
    + intros x. unfold waiting. setoid_rewrite Hids. split; [|naive_solver]. intros [l [Hx| [-> _]]]; [left; naive_solver|by right].
    + intros x. rewrite Ep, elem_of_app, list_elem_of_singleton. naive_solver.
    + intros x. rewrite Eg. naive_solver.
    + done.
    + intros l p x Hx. left. rewrite El. unfold set_at. case_decide; [|done]. subst l. by apply lookup_app_l_Some.
    + intros l. rewrite El. unfold set_at. case_decide; [|done]. subst l. rewrite fmap_app. by eexists.
    + unfold s', handle. cbn [settlements with_lane with_lanes]. by destruct (includes (settlements s) a).
Qed.

Lemma coalesce_submission s a f k e :
  inv s -> fresh_id s a -> lanes s (lane f) !! k = Some e -> qsession e = sessionId f ->
  let q := {| item := {| itemId := a; fields := f |}; seq := seq e |} in
  let s' := handle (with_lane (settle s (qid e) removed) (lane f) (<[k := q]> (lanes s (lane f)))) a in
  inv s' /\ submission s a (Some (qid e)) s'.
Proof.
  intros (Hq & Hk & Hs) (Hp & Hg & Hf) He Hsess q s'.
  destruct (settle_spec s (qid e) removed) as ((F1 & F2 & F3 & F4 & F5 & F6 & F7) & Sp & Sg & _).
  assert (qid e ∈ settlements s) as Hke by (apply (Hk (lane f)), list_elem_of_fmap_2; by eapply list_elem_of_lookup_2).
  assert (qid e <> a) as Hne by (intros E; by rewrite E in Hke).
  assert (a ∉ settlements (settle s (qid e) removed)) as Hp' by (rewrite Sp; tauto).
  assert (lanes s' = set_at (lanes s) (lane f) (<[k := q]> (lanes s (lane f))) /\
    settlements s' = settlements (settle s (qid e) removed) ++ [a] /\ settled s' = settled (settle s (qid e) removed))
    as (El & Ep & Eg).
  { unfold s', handle. cbn [settlements with_lane with_lanes]. rewrite <- F3.
    by replace (includes (settlements (settle s (qid e) removed)) a) with false by (symmetry; by apply includes_false). }
  assert (forall l, a ∉ qid <$> lanes s l) as Hna by (intros l Hl; by apply Hp, (Hk l)).
  assert (qid <$> lanes s' (lane f) = <[k := a]> (qid <$> lanes s (lane f))) as Eids.
  { rewrite El, set_at_eq. apply list_fmap_insert. }
  assert (forall x, x ∈ <[k := a]> (qid <$> lanes s (lane f)) <-> x ∈ qid <$> lanes s (lane f) /\ x <> qid e \/ x = a) as Hins.
  { intros x. rewrite <- (take_drop_middle _ _ _ He), fmap_app, fmap_cons.
    pose proof (q_nodup _ Hq (lane f)) as Hn. rewrite <- (take_drop_middle _ _ _ He), fmap_app, fmap_cons in Hn.
    assert (k = length (qid <$> take k (lanes s (lane f)))) as Ek.
    { rewrite length_fmap, length_take_le; [done|]. apply lookup_lt_Some in He. lia. }
    rewrite Ek at 1. rewrite insert_app_r_alt, Nat.sub_diag by lia. cbn [insert list_insert].
    apply NoDup_app in Hn as (_ & Hn1 & Hn2). apply NoDup_cons in Hn2 as [Hn2 _].
    rewrite !elem_of_app, !elem_of_cons. specialize (Hn1 (qid e)). rewrite elem_of_cons in Hn1.
    destruct (decide (x = qid e)) as [->|]; naive_solver. }
  assert (forall l x, x ∈ qid <$> lanes s' l <-> x ∈ qid <$> lanes s l /\ x <> qid e \/ x = a /\ l = lane f) as Hids.
  { intros l x. destruct (decide (l = lane f)) as [->|Hl]; [rewrite Eids, Hins; tauto|].
    rewrite El, set_at_ne by done. split; [|tauto]. intros Hx. left. split; [done|]. intros ->.
    apply Hl, (q_apart _ Hq _ _ (qid e)); [done|]. apply list_elem_of_fmap_2. by eapply list_elem_of_lookup_2. }
  split; [split_and!|].
  - constructor.
    + intros l. destruct (decide (l = lane f)) as [->|Hl]; [|rewrite El, set_at_ne by done; apply Hq]. rewrite Eids.
      apply NoDup_insert_fresh; [apply Hq|apply Hna].
    + intros l l' x [[Hx _]|[-> ->]]%Hids [[Hx' _]|[E ->]]%Hids; [by eapply (q_apart _ Hq)|subst; by destruct (Hna l)|by destruct (Hna l')|done].
    + intros l x. rewrite El. unfold set_at. case_decide; [|apply Hq]. subst l. intros Hx.
      apply list_elem_of_lookup in Hx as [j Hx]. apply list_lookup_insert_Some in Hx as [(_ & <- & _)|[_ Hx]]; [done|].
      eapply (q_lane _ Hq), list_elem_of_lookup_2, Hx.
  - intros l x Hx. rewrite Ep, elem_of_app, Sp. apply Hids in Hx as [[Hx Hn]|[-> _]]; [left; split; [by apply (Hk l)|done]|right; by apply list_elem_of_singleton].
  - apply handle_settling.
    + pose proof (settle_settling s (qid e) removed Hs) as []. by constructor.
    + cbn. rewrite Sg. intros [?|[-> _]]; done.
    + cbn. by rewrite F7.
  - constructor.
    + intros x. unfold waiting. setoid_rewrite Hids. split.
      * intros [l [[Hx Hn]|[-> _]]]; [left; split; [by exists l|congruence]|by right].
      * intros [[[l Hx] Hn]| ->]; [exists l; left; split; [done|congruence]|exists (lane f); by right].
    + intros x. rewrite Ep, elem_of_app, Sp, list_elem_of_singleton. naive_solver.
    + intros x. rewrite Eg, Sg. naive_solver.
    + intros x [= <-]. exists (lane f). apply list_elem_of_fmap_2. by eapply list_elem_of_lookup_2.
    + intros l p x Hx. rewrite El. unfold set_at. case_decide; [|by left]. subst l.
      destruct (decide (p = k)) as [->|Hpk]; [right; congruence|]. left. by rewrite list_lookup_insert_ne.
    + intros l. rewrite El. unfold set_at. case_decide; [|done]. subst l. rewrite list_fmap_insert.
      rewrite list_insert_id; [done|]. rewrite list_lookup_fmap, He. cbn. f_equal. exact Hsess.
    + unfold s', handle. cbn [settlements with_lane with_lanes]. by destruct (includes _ a).
Qed.

Lemma submit_spec s (id : option string) f :
  inv s ->
  (forall x, id = Some x -> x ∉ settlements s /\ x ∉ (settled s).*1 /\ forall n, x <> generated_id n) ->
  exists a old s', submit s id f = (a, s') /\ a ∉ settlements s /\ a ∉ (settled s).*1 /\ inv s' /\ submission s a old s'.
Proof.
  intros Hi Hid. pose proof Hi as (Hq & Hk & Hs). unfold submit. destruct id as [x|].
  - destruct (Hid x eq_refl) as (Hp & Hg & Hn).
    destruct (append_submission (with_counter s (seqCounter s + 1)) x f (seqCounter s)) as [Hi' Hsub].
    + split_and!; [by destruct Hq|done|destruct Hs; constructor; cbn; auto]. intros n Hn'. apply st_fresh0 in Hn'. lia.
    + split_and!; [done|done|]. intros n E. by destruct (Hn n).
    + exists x, None. eexists. split; [reflexivity|]. split_and!; [done|done|exact Hi'|]. by destruct Hsub.
  - set (a := generated_id (seqCounter s)). set (s0 := with_counter s (seqCounter s + 1)).
    assert (a ∉ settlements s) as Hp by (intros H; assert (seqCounter s < seqCounter s) by (by apply Hs; left); lia).
    assert (a ∉ (settled s).*1) as Hg by (intros H; assert (seqCounter s < seqCounter s) by (by apply Hs; right); lia).
    assert (inv s0) as Hi0.
    { split_and!; [by destruct Hq|done|destruct Hs; constructor; cbn; auto]. intros n Hn'. apply st_fresh0 in Hn'. lia. }
    assert (fresh_id s0 a) as Hf.
    { split_and!; [done|done|]. intros n E. cbn. unfold a, generated_id in E. apply append_inv_l, show_Z_inj in E. lia. }
    destruct (coalesceKey f) as [key|].
    2:{ destruct (append_submission s0 a f (seqCounter s0 - 1) Hi0 Hf) as [Hi' Hsub].
        exists a, None. eexists. split; [reflexivity|]. split_and!; [done|done|exact Hi'|]. by destruct Hsub. }
    destruct (list_find _ (lanes s0 (lane f))) as [[k e]|] eqn:Ef.
    + apply list_find_Some in Ef as (He & [Hsess _] & _).
      destruct (coalesce_submission s0 a f k e Hi0 Hf He Hsess) as [Hi' Hsub].
      exists a, (Some (qid e)). eexists. split; [reflexivity|]. split_and!; [done|done|exact Hi'|]. by destruct Hsub.
    + destruct (append_submission s0 a f (seqCounter s0 - 1) Hi0 Hf) as [Hi' Hsub].
      exists a, None. eexists. split; [reflexivity|]. split_and!; [done|done|exact Hi'|]. by destruct Hsub.
Qed.

(** *** Items leave by removal or expiry *)

Record removal s (gone : list string) s' : Prop := {
  rem_inv : inv s';
  rem_budget : same_budget s s';
  rem_lanes l : lanes s' l `sublist_of` lanes s l;
  rem_gone x : x ∈ gone -> waiting s x;
  rem_waiting x : waiting s' x <-> waiting s x /\ x ∉ gone;
  rem_pending x : x ∈ settlements s' <-> x ∈ settlements s /\ x ∉ gone;
  rem_settled x : x ∈ (settled s').*1 <-> x ∈ (settled s).*1 \/ x ∈ gone
}.

Lemma removeWhere_removal s p d :
  inv s -> exists s', removeWhere s p d = (taken_out p s, s') /\ removal s (itemId <$> taken_out p s) s'.
Proof.
  intros Hi. destruct (removeWhere_spec s p d Hi) as (s' & E & Hi' & Hb & Hl & Hp & Hg).
  destruct Hi as (Hq & Hk & Hs). exists s'. split; [done|].
  assert (forall x, x ∈ itemId <$> taken_out p s -> waiting s x) as Hw.
  { intros x. rewrite taken_out_elem. intros (l & q & Hin & <- & _). exists l. by apply list_elem_of_fmap_2. }
  constructor; try done.
  - intros l. rewrite Hl. apply sublist_bool_filter.
  - intros x. rewrite taken_out_elem. split.
    + intros [l Hx]. apply list_elem_of_fmap in Hx as (q & -> & Hx). rewrite Hl in Hx.
      apply list_elem_of_In, filter_In in Hx as [Hx Hm]. apply list_elem_of_In in Hx.
      split; [exists l; by apply list_elem_of_fmap_2|]. intros (l' & q' & Hx' & Eid & Hm').
      assert (l' = l) as -> by (apply (q_apart _ Hq l' l (qid q)); [rewrite <- Eid|]; by apply list_elem_of_fmap_2).
      assert (q' = q) as -> by (by apply (NoDup_inj_on qid (lanes s l)); [apply Hq|..]). by rewrite Hm' in Hm.
    + intros [[l Hx] Hn]. apply list_elem_of_fmap in Hx as (q & -> & Hx). exists l. apply list_elem_of_fmap_2.
      rewrite Hl. apply list_elem_of_In, filter_In. split; [by apply list_elem_of_In|].
      destruct (matches p q) eqn:Em; [|done]. destruct Hn. by exists l, q.
  - intros x. rewrite Hg. split; [tauto|]. intros [?|Hx]; [by left|]. right. split; [done|].
    destruct (Hw x Hx) as [l Hl']. by apply (Hk l).
Qed.

Lemma take_out_one s l k q :
  inv s -> lanes s l !! k = Some q ->
  removal s [qid q] (settle (with_lane s l (delete k (lanes s l))) (qid q) removed).
Proof.
  intros (Hq & Hk & Hs) Hkq. set (s1 := with_lane s l (delete k (lanes s l))).
  destruct (settle_spec s1 (qid q) removed) as ((F1 & F2 & F3 & F4 & F5 & F6 & F7) & Sp & Sg & _).
  assert (qid q ∈ qid <$> lanes s l) as Hin by (apply list_elem_of_fmap_2; by eapply list_elem_of_lookup_2).
  assert (forall l', lanes s1 l' `sublist_of` lanes s l') as Hsub.
  { intros l'. apply sublist_lane. apply sublist_delete. }
  assert (forall l' x, x ∈ qid <$> lanes s1 l' <-> x ∈ qid <$> lanes s l' /\ x <> qid q) as Hids.
  { intros l' x. destruct (decide (l' = l)) as [->|Hl].
    - cbn [s1 with_lane with_lanes lanes]. rewrite set_at_eq, delete_take_drop, fmap_app, elem_of_app.
      assert (qid <$> lanes s l = (qid <$> take k (lanes s l)) ++ qid q :: (qid <$> drop (S k) (lanes s l))) as E
        by (by rewrite <- fmap_cons, <- fmap_app, take_drop_middle).
      pose proof (q_nodup _ Hq l) as Hn. rewrite E in Hn |- *.
      apply NoDup_app in Hn as (_ & Hn1 & Hn2). apply NoDup_cons in Hn2 as [Hn2 _].
      rewrite elem_of_app, elem_of_cons. specialize (Hn1 (qid q)). rewrite elem_of_cons in Hn1.
      destruct (decide (x = qid q)) as [->|]; naive_solver.
    - cbn [s1 with_lane with_lanes lanes]. rewrite set_at_ne by done. split; [|tauto]. intros Hx. split; [done|].
      intros ->. by apply Hl, (q_apart _ Hq _ _ (qid q)). }
  constructor; try done.
  - split_and!.
    + apply (queued_sublist s); [|done]. intros l'. rewrite F3. apply Hsub.
    + intros l' x. rewrite F3, Hids, Sp. intros [Hx Hne]. split; [by apply (Hk l')|done].
    + apply settle_settling. destruct Hs. by constructor.
  - intros l'. rewrite F3. apply Hsub.
  - intros x ->%list_elem_of_singleton. by exists l.
  - intros x. rewrite list_elem_of_singleton. unfold waiting. split.
    + intros [l' Hx]. rewrite F3 in Hx. apply Hids in Hx as [Hx Hne]. split; [by exists l'|done].
    + intros [[l' Hx] Hne]. exists l'. rewrite F3. by apply Hids.
  - intros x. rewrite Sp, list_elem_of_singleton. done.
  - intros x. rewrite Sg, list_elem_of_singleton. cbn [s1 with_lane with_lanes settlements settled].
    split; [tauto|]. intros [?| ->]; [by left|]. right. split; [done|]. by apply (Hk l).
Qed.

Lemma removeById_removal s id :
  inv s -> exists r gone s', removeById s id = (r, s') /\ removal s gone s' /\ (r = None -> gone = []).
Proof.
  intros Hi. unfold removeById. generalize LANE_PRIORITY. intros ls. induction ls as [|l ls IH]; cbn [remove_id].
  - exists None, [], s. split; [done|]. split; [|done]. constructor; try done; set_solver.
  - destruct (list_find _ (lanes s l)) as [[k q]|] eqn:Ef; [|exact IH].
    apply list_find_Some in Ef as (Hk & _ & _). exists (Some (item q)), [qid q]. eexists. split; [reflexivity|].
    split; [by apply take_out_one|done].
Qed.

Lemma granting_fate s is_ s' :
  granting s is_ s' -> queued s ->
  settlements s' = settlements s /\ settled s' = settled s /\ NoDup (itemId <$> is_) /\
  (forall x, waiting s x <-> waiting s' x \/ x ∈ itemId <$> is_) /\
  (forall x, x ∈ itemId <$> is_ -> waiting s' x -> False).
Proof.
  induction 1 as [s _|s i s1 is_ s2 _ Hc _ IH]; intros Hq.
  { split_and!; [done|done|constructor|set_solver|set_solver]. }
  assert (forall l, lanes s1 l `sublist_of` lanes s l) as Hsub by (intros l; by apply (chosen_sublist s i)).
  destruct IH as (Ep & Eg & Hn & Hw & Hd); [by apply (queued_sublist s)|].
  destruct Hc as [l pre q post c El <- _ _ _ ->].
  destruct (taken_spec s l (pre ++ post) c) as (_ & _ & El' & _ & _ & Ep' & Eg' & _).
  set (s1 := taken s l (pre ++ post) c) in *. cbn [with_tokens settlements settled] in Ep, Eg.
  assert (forall x, waiting s x <-> waiting s1 x \/ x = qid q) as Hw1.
  { intros x. unfold waiting. rewrite El'. split.
    - intros [l' Hx]. destruct (decide (l' = l)) as [->|Hl].
      + rewrite El, fmap_app, fmap_cons, elem_of_app, elem_of_cons in Hx.
        destruct (decide (x = qid q)); [by right|]. left. exists l. rewrite set_at_eq, fmap_app, elem_of_app. naive_solver.
      + left. exists l'. by rewrite set_at_ne.
    - intros [[l' Hx]| ->].
      + exists l'. eapply elem_of_sublist; [exact Hx|apply fmap_sublist]. rewrite <- El'. apply Hsub.
      + exists l. rewrite El, fmap_app, fmap_cons, elem_of_app, elem_of_cons. naive_solver. }
  assert (~ waiting s1 (qid q)) as Hnq.
  { intros [l' Hx]. assert (l' = l) as ->.
    { apply (q_apart _ Hq _ _ (qid q)); [eapply elem_of_sublist; [exact Hx|apply fmap_sublist, Hsub]|].
      rewrite El, fmap_app, fmap_cons, elem_of_app, elem_of_cons. naive_solver. }
    rewrite El', set_at_eq, fmap_app, elem_of_app in Hx. pose proof (q_nodup _ Hq l) as Hnd.
    rewrite El, fmap_app, fmap_cons in Hnd. apply NoDup_app in Hnd as (_ & Hn1 & Hn2). apply NoDup_cons in Hn2 as [Hn2 _].
    destruct Hx as [Hx|Hx]; [|done]. apply (Hn1 _ Hx). by left. }
  assert (forall x, waiting s1 x <-> waiting s2 x \/ x ∈ itemId <$> is_) as Hw' by exact Hw.
  split_and!; [congruence|congruence| | |].
  - rewrite fmap_cons. constructor; [|done]. intros Hin. apply Hnq, Hw'. by right.
  - intros x. rewrite Hw1, Hw', fmap_cons, elem_of_cons. unfold qid. tauto.
  - intros x. rewrite fmap_cons, elem_of_cons. intros [->|Hx]; [|by apply Hd]. intros Hx. apply Hnq, Hw'. by left.
Qed.
End pool_proofs.
