(* ===== verification/RateLimitSchedule.v ===== *)
(** * What the rate-limit pool guarantees

    Runs of the pool of [RateLimitPool.v] with what it granted, and the
    theorems: every submission is accounted for, a drain is exact, the rate is
    bounded and nothing starves. *)

From Stdlib Require Import QArith Qminmax Lqa Sorting.Sorted Ascii.
From S2P Require Import Prelude JsNumber RateLimitPool.

Local Open Scope string_scope.
Local Open Scope list_scope.
Local Open Scope Z_scope.

Section schedule.
Context {T : Type} (fl : Q -> Q).
Local Abbreviation pool := (@RateLimitPool T).
Implicit Types (s : pool) (l : RateLimitLane) (q : QueuedItem T) (i : RateLimitItem T).

(** ** Runs *)

Inductive pool_op :=
| P_submit (id : option string) (f : ItemFields T)
| P_settle (id : string) (d : RateLimitDisposition)
| P_drain (now : Z)
| P_removeWhere (p : RateLimitItem T -> bool) (d : RateLimitDisposition)
| P_removeById (id : string)
| P_availableTokens (now : Z).

(** The pool, the items its drains returned, the ids it assigned, and whether a
    drain threw. *)
Record history := {
  h_pool : pool;
  grants : list (RateLimitItem T);
  submitted : list string;
  threw : bool
}.
Implicit Types (h : history).

Definition with_pool h s : history :=
  {| h_pool := s; grants := grants h; submitted := submitted h; threw := threw h |}.

Definition step h (op : pool_op) : history :=
  match op with
  | P_submit id f =>
      let '(a, s) := submit (h_pool h) id f in
      {| h_pool := s; grants := grants h; submitted := submitted h ++ [a]; threw := threw h |}
  | P_settle id d => with_pool h (settle (h_pool h) id d)
  | P_drain now =>
      match drainWithExpired fl (h_pool h) now with
      | (Ok r, s) => {| h_pool := s; grants := grants h ++ granted r; submitted := submitted h; threw := threw h |}
      | (Throw _, s) => {| h_pool := s; grants := grants h; submitted := submitted h; threw := true |}
      end
  | P_removeWhere p d => with_pool h (removeWhere (h_pool h) p d).2
  | P_removeById id => with_pool h (removeById (h_pool h) id).2
  | P_availableTokens now => with_pool h (availableTokens fl (h_pool h) now).2
  end.

Definition start (cap refill : option Q) (now : Z) : history :=
  {| h_pool := create cap refill now; grants := []; submitted := []; threw := false |}.

(** Callers choose new ids, not of the shape the pool generates, and settle
    items themselves only once they left the queue. *)
Definition allowed h (op : pool_op) : Prop :=
  match op with
  | P_submit (Some x) _ => x ∉ submitted h /\ forall n, x <> generated_id n
  | P_settle id _ => ~ waiting (h_pool h) id
  | _ => True
  end.

(** ** Every submission is accounted for *)

Record accounted h : Prop := {
  a_inv : inv (h_pool h);
  a_threw : threw h = false;
  a_once : NoDup (itemId <$> grants h);
  a_gone x : x ∈ itemId <$> grants h -> ~ waiting (h_pool h) x;
  a_ids x : x ∈ submitted h <-> x ∈ settlements (h_pool h) \/ x ∈ (settled (h_pool h)).*1;
  a_pending x : x ∈ settlements (h_pool h) -> waiting (h_pool h) x \/ x ∈ itemId <$> grants h;
  a_granted x : x ∈ itemId <$> grants h -> x ∈ submitted h
}.

Lemma start_accounted cap rate now : accounted (start cap rate now).
Proof.
  constructor; try done; cbn; try constructor; try set_solver.
  - constructor; cbn; [constructor|set_solver|set_solver].
  - split; [intros l id; cbn; set_solver|]. constructor; cbn; try constructor; try set_solver.
Qed.

Lemma waiting_known s x : inv s -> waiting s x -> x ∈ settlements s.
Proof. intros (_ & Hk & _) [l Hx]. by apply (Hk l). Qed.

Lemma removal_accounted h gone s : accounted h -> removal (h_pool h) gone s -> accounted (with_pool h s).
Proof.
  intros [H1 H2 H3 H4 H5 H6 H7] [R1 R2 R3 R4 R5 R6 R7]. constructor; cbn [with_pool h_pool grants submitted threw]; try done.
  - intros x Hx Hw. apply R5 in Hw as [Hw _]. by apply (H4 x).
  - intros x. rewrite H5, R6, R7. destruct (decide (x ∈ gone)) as [Hg|]; [|tauto].
    pose proof (waiting_known _ _ H1 (R4 x Hg)). tauto.
  - intros x Hx. apply R6 in Hx as [Hx Hg]. apply H6 in Hx as [Hx|Hx]; [left; by apply R5|by right].
Qed.

Lemma refill_accounted h now : accounted h -> accounted (with_pool h (refill fl (h_pool h) now)).
Proof.
  intros [H1 H2 H3 H4 H5 H6 H7]. destruct (drain_spec fl (h_pool h) now H1) as (_ & _ & _ & _ & _ & Hi & _).
  unfold refill in *. case_decide; [by destruct h|]. by constructor.
Qed.

Lemma step_accounted h op : accounted h -> allowed h op -> accounted (step h op).
Proof.
  intros Ha Hop. pose proof Ha as [H1 H2 H3 H4 H5 H6 H7]. destruct op as [id f|id d|now|p d|id|now]; cbn [step].
  - destruct (submit_spec (h_pool h) id f H1) as (a & old & s & -> & Hp & Hg & Hi & Hs).
    { intros x ->. destruct Hop as [Hx Hn]. rewrite H5 in Hx. tauto. }
    destruct Hs as [S1 S2 S3 S4 _ _ _].
    assert (a ∉ submitted h) as Hna by (rewrite H5; tauto).
    constructor; cbn [h_pool grants submitted threw]; try done.
    + intros x Hx Hw. apply S1 in Hw as [[Hw _]| ->]; [by apply (H4 x)|]. by apply H7 in Hx.
    + intros x. rewrite elem_of_app, list_elem_of_singleton, H5, S2, S3. destruct (decide (old = Some x)) as [->|]; [|tauto].
      pose proof (waiting_known _ _ H1 (S4 x eq_refl)). tauto.
    + intros x Hx. apply S2 in Hx as [[Hx Ho]| ->]; [|left; apply S1; by right].
      apply H6 in Hx as [Hx|Hx]; [|by right]. left. apply S1. by left.
    + intros x Hx. apply elem_of_app. left. by apply H7.
  - destruct (settle_spec (h_pool h) id d) as ((_ & _ & E & _) & Sp & Sg & _). destruct H1 as (Hq & Hk & Hs).
    assert (forall x, waiting (settle (h_pool h) id d) x <-> waiting (h_pool h) x) as Hw by (intros x; unfold waiting; by rewrite E).
    constructor; cbn [with_pool h_pool grants submitted threw]; try done.
    + split_and!; [apply (queued_sublist (h_pool h)); [intros l; by rewrite E|done]| |by apply settle_settling].
      intros l x Hx. rewrite E in Hx. apply Sp. split; [by apply (Hk l)|]. intros ->. apply Hop. by exists l.
    + intros x Hx. rewrite Hw. by apply H4.
    + intros x. rewrite H5, Sp, Sg. destruct (decide (x = id)) as [->|]; [|tauto]. tauto.
    + intros x Hx. apply Sp in Hx as [Hx _]. rewrite Hw. by apply H6.
  - destruct (drain_spec fl (h_pool h) now H1) as (s1 & is_ & s2 & Er & Hg & Hi0 & Hi1 & ->).
    destruct (removeWhere_removal (refill fl (h_pool h) now) (overdue now) expired Hi0) as (s1' & Er' & Hr).
    rewrite Er in Er'. injection Er' as Eo <-. rewrite <- Eo in Hr.
    pose proof (removal_accounted _ _ _ (refill_accounted h now Ha) Hr) as [A1 A2 A3 A4 A5 A6 A7].
    destruct (granting_fate _ _ _ _ Hg) as (Ep & Eg & Hn & Hw & Hd); [apply Hi1|].
    cbn [with_pool h_pool grants submitted threw] in *.
    constructor; cbn [h_pool grants submitted threw granted]; try done.
    + by apply (granting_inv _ _ _ _ Hg).
    + rewrite fmap_app. apply NoDup_app. split_and!; [done| |done]. intros x Hx Hx'. apply (A4 x Hx), Hw. by right.
    + intros x. rewrite fmap_app, elem_of_app. intros [Hx|Hx] Hw'; [|by apply (Hd x)]. apply (A4 x Hx), Hw. by left.
    + intros x. by rewrite Ep, Eg.
    + intros x. rewrite Ep, fmap_app, elem_of_app. intros Hx. apply A6 in Hx as [Hx|Hx]; [|tauto].
      apply Hw in Hx. tauto.
    + intros x. rewrite fmap_app, elem_of_app. intros [Hx|Hx]; [by apply A7|]. apply A5. left.
      apply (waiting_known _ _ A1), Hw. by right.
  - destruct (removeWhere_removal (h_pool h) p d H1) as (s & -> & Hr). by apply (removal_accounted _ _ _ Ha Hr).
  - destruct (removeById_removal (h_pool h) id H1) as (r & gone & s & -> & Hr & _). by apply (removal_accounted _ _ _ Ha Hr).
  - by apply refill_accounted.
Qed.

(** Every submission is accounted for.  Over any run in which callers pick
    new ids and settle an item themselves only once it left the queue, no drain
    throws; an item is granted at most once and its promise resolved at most
    once; and every submitted id is in exactly one place: resolved, waiting in
    the queue, or granted and awaiting its outcome.  Items that expired, were
    removed or replaced are resolved and no longer wait. *)
Theorem rate_pool_accounts cap rate now ops :
  run_allows step allowed (start cap rate now) ops ->
  let h := foldl step (start cap rate now) ops in
  threw h = false /\ NoDup (itemId <$> grants h) /\ NoDup (settled (h_pool h)).*1 /\
  forall x, x ∈ submitted h ->
    let resolved := x ∈ (settled (h_pool h)).*1 in
    let granted_ := x ∈ itemId <$> grants h in
    (resolved /\ ~ waiting (h_pool h) x \/
     ~ resolved /\ waiting (h_pool h) x /\ ~ granted_ \/
     ~ resolved /\ ~ waiting (h_pool h) x /\ granted_).
Proof.
  intros Hops h. assert (accounted h) as [H1 H2 H3 H4 H5 H6 H7].
  { apply (foldl_allowed step allowed); [apply step_accounted|done|apply start_accounted]. }
  pose proof H1 as (Hq & Hk & Hs). split_and!; [done|done|by apply Hs|]. intros x Hx. apply H5 in Hx as [Hx|Hx].
  - right. assert (x ∉ (settled (h_pool h)).*1) as Hr by (intros Hr; by apply (st_disjoint _ Hs x)).
    destruct (H6 x Hx) as [Hw|Hg]; [left|right]; split_and!; try done; [by intros Hg; apply (H4 x)|by apply H4].
  - left. split; [done|]. intros Hw. by apply (st_disjoint _ Hs x), Hx; apply waiting_known.
Qed.

(** ** Drains *)

Definition from (l : RateLimitLane) (x : string) : list (RateLimitItem T) -> list (RateLimitItem T) :=
  List.filter (fun i => bool_decide (lane i = l /\ sessionId i = x)).

(** The items of a lane that are still in time. *)
Definition in_time now s l : list (RateLimitItem T) :=
  item <$> List.filter (fun q => negb (matches (overdue now) q)) (lanes s l).

Definition in_lane_order : list (RateLimitItem T) -> Prop :=
  StronglySorted (fun i j => rank (lane i) <= rank (lane j))%nat.

Lemma from_app l x a b : from l x (a ++ b) = from l x a ++ from l x b.
Proof. apply List.filter_app. Qed.

Lemma from_other l x is_ : Forall (fun i => sessionId i <> x) is_ -> from l x is_ = [].
Proof.
  induction 1 as [|i is_ Hi _ IH]; [done|]. cbn. rewrite bool_decide_false; [exact IH|]. by intros [_ ?].
Qed.

(** Grants come from no lane before the first that has items. *)
Lemma granting_rank s is_ s' r :
  granting fl s is_ s' -> queued s -> (forall l, (rank l < r)%nat -> lanes s l = []) ->
  Forall (fun i => r <= rank (lane i))%nat is_.
Proof.
  induction 1 as [s _|s i s1 is_ s2 _ Hc _ IH]; intros Hq Hr; [constructor|].
  assert (forall l, lanes s1 l `sublist_of` lanes s l) as Hsub by (intros l; by apply (chosen_sublist s i)).
  constructor.
  - destruct Hc as [l pre q post c El <- _ _ _ _]. rewrite (q_lane _ Hq l q) by (rewrite El; set_solver).
    apply Nat.nlt_ge. intros Hlt. rewrite Hr in El by done. by destruct pre.
  - apply IH; [by apply (queued_sublist s)|]. intros l Hl. apply sublist_nil_r. rewrite <- (Hr l Hl). apply Hsub.
Qed.

Lemma granting_order s is_ s' :
  granting fl s is_ s' -> queued s ->
  (forall l x, from l x (item <$> lanes s l) = from l x is_ ++ from l x (item <$> lanes s' l)) /\
  in_lane_order is_ /\
  Forall (fun i => forall l, (rank l < rank (lane i))%nat -> lanes s' l = []) is_ /\
  (forall l, lanes s' l `sublist_of` lanes s l) /\
  ((forall l, lanes s' l = []) \/ (tokens s' < 1)%Q).
Proof.
  induction 1 as [s Hstop|s i s1 is_ s2 _ Hc Hg IH]; intros Hq.
  { split_and!; [done|constructor|constructor|done|]. destruct Hstop as [He|Ht]; [by left|right].
    apply Qnot_le_lt. rewrite <- Qle_bool_iff. by rewrite Ht. }
  assert (forall l, lanes s1 l `sublist_of` lanes s l) as Hsub by (intros l; by apply (chosen_sublist s i)).
  destruct IH as (Hf & Hs & Ha & Hsub2 & Hst); [by apply (queued_sublist s)|]. cbn [with_tokens lanes] in Hf, Hsub2, Ha.
  destruct Hc as [l pre q post c El <- Hrank _ Hpre Es1].
  assert (lanes s1 = set_at (lanes s) l (pre ++ post)) as El1 by (subst s1; apply taken_spec).
  assert (lane (item q) = l) as Elane by (apply Hq; rewrite El; set_solver).
  assert (forall l', (rank l' < rank l)%nat -> lanes s1 l' = []) as Hempty.
  { intros l' Hl'. apply sublist_nil_r. rewrite <- (Hrank l' Hl'). apply Hsub. }
  split_and!.
  - intros l' x. change (item q :: is_) with ([item q] ++ is_). rewrite from_app, <- app_assoc, <- Hf, El1.
    unfold set_at. case_decide as Hl; [subst l'|].
    + rewrite El, !fmap_app, fmap_cons, !from_app. change (item q :: (item <$> post)) with ([item q] ++ (item <$> post)).
      rewrite from_app. cbn [from List.filter]. case_bool_decide as Hx; [|done]. destruct Hx as [_ <-].
      rewrite (from_other l _ (item <$> pre)); [done|]. by apply Forall_fmap.
    + cbn [from List.filter]. rewrite bool_decide_false; [done|]. intros [E _]. congruence.
  - constructor; [done|]. rewrite Elane. by apply (granting_rank _ _ _ _ Hg); [apply (queued_sublist s)|].
  - constructor; [|done]. intros l' Hl'. rewrite Elane in Hl'. apply sublist_nil_r. rewrite <- (Hempty l' Hl'). apply Hsub2.
  - intros l'. etrans; [apply Hsub2|apply Hsub].
  - done.
Qed.

(** *** Tokens

    [fl] rounds monotonically and leaves the integers of the mantissa alone. *)
Section whole_tokens.
Context (fl_mono : forall x y, (x <= y)%Q -> (fl x <= fl y)%Q)
        (fl_int : forall n, 0 <= n <= 2 ^ 53 -> (fl (inject_Z n) == inject_Z n)%Q).

Lemma pay_one t n : 1 <= n <= 2 ^ 53 -> (t <= inject_Z n)%Q -> (fl (t - 1) <= inject_Z (n - 1))%Q.
Proof.
  intros Hn Ht. rewrite <- (fl_int (n - 1)) by lia. apply fl_mono. unfold Zminus. rewrite inject_Z_plus.
  change (inject_Z (- (1))) with (- (1))%Q. lra.
Qed.

Lemma keep_one t n : 1 <= n <= 2 ^ 53 -> (inject_Z n <= t)%Q -> (inject_Z (n - 1) <= fl (t - 1))%Q.
Proof.
  intros Hn Ht. rewrite <- (fl_int (n - 1)) by lia. apply fl_mono. unfold Zminus. rewrite inject_Z_plus.
  change (inject_Z (- (1))) with (- (1))%Q. lra.
Qed.

Lemma granting_at_most s is_ s' n :
  granting fl s is_ s' -> 0 <= n <= 2 ^ 53 -> (tokens s <= inject_Z n)%Q -> Z.of_nat (length is_) <= n.
Proof.
  intros Hg. revert n. induction Hg as [s _|s i s1 is_ s2 Ht Hc _ IH]; intros n Hn Hle; cbn [length]; [lia|].
  apply Qle_bool_iff in Ht.
  assert (1 <= n) as Hn1 by (rewrite Zle_Qle; change (inject_Z 1) with 1%Q; lra).
  assert (tokens s1 = tokens s) as Et by (destruct Hc as [? ? ? ? ? _ _ _ _ _ ->]; apply taken_spec).
  specialize (IH (n - 1)). cbn [with_tokens tokens] in IH. rewrite Et in IH.
  assert (Z.of_nat (length is_) <= n - 1); [|lia]. apply IH; [lia|]. apply pay_one; [lia|done].
Qed.

Lemma granting_at_least s is_ s' n :
  granting fl s is_ s' -> 0 <= n <= 2 ^ 53 -> (inject_Z n <= tokens s)%Q ->
  n <= Z.of_nat (length is_) \/ forall l, lanes s' l = [].
Proof.
  intros Hg. revert n. induction Hg as [s Hstop|s i s1 is_ s2 Ht Hc _ IH]; intros n Hn Hle; cbn [length].
  - destruct Hstop as [He|Ht]; [by right|left]. destruct (decide (n <= 0)); [lia|]. exfalso.
    assert (1 <= n) as Hn1 by lia. rewrite Zle_Qle in Hn1. change (inject_Z 1) with 1%Q in Hn1.
    assert (Qle_bool 1 (tokens s) = true) as E by (apply Qle_bool_iff; lra). by rewrite Ht in E.
  - destruct (decide (n <= 0)); [left; lia|].
    assert (tokens s1 = tokens s) as Et by (destruct Hc as [? ? ? ? ? _ _ _ _ _ ->]; apply taken_spec).
    specialize (IH (n - 1)). cbn [with_tokens tokens] in IH. rewrite Et in IH.
    destruct IH as [H|H]; [lia|apply keep_one; [lia|done]|left; lia|by right].
Qed.

(** C26.  A drain is exact.  On any pool reached by a run it returns normally;
    what it expires is exactly what is overdue, in lane and queue order, and
    none of it is granted.  Of every session in every lane it grants the oldest
    items, in their order; a lane gives nothing while a lane of higher priority
    keeps something; and it stops only when nothing waits or less than one
    token is left.  So it grants at most as many items as tokens fit the
    bucket, and at least as many as there are whole tokens, if that many wait. *)
Theorem drain_exact cap rate t0 ops now :
  run_allows step allowed (start cap rate t0) ops ->
  let s := h_pool (foldl step (start cap rate t0) ops) in
  exists r s', drainWithExpired fl s now = (Ok r, s') /\
    expired_items r = taken_out (overdue now) s /\
    (forall l x, from l x (in_time now s l) = from l x (granted r) ++ from l x (item <$> lanes s' l)) /\
    in_lane_order (granted r) /\
    (forall i l, i ∈ granted r -> (rank l < rank (lane i))%nat -> lanes s' l = []) /\
    ((forall l, lanes s' l = []) \/ (tokens s' < 1)%Q) /\
    (forall n, 0 <= n <= 2 ^ 53 -> (tokens (refill fl s now) <= inject_Z n)%Q -> Z.of_nat (length (granted r)) <= n) /\
    (forall n, 0 <= n <= 2 ^ 53 -> (inject_Z n <= tokens (refill fl s now))%Q ->
       n <= Z.of_nat (length (granted r)) \/ forall l, lanes s' l = []).
Proof.
  intros Hops s. assert (accounted (foldl step (start cap rate t0) ops)) as Ha.
  { apply (foldl_allowed step allowed); [apply step_accounted|done|apply start_accounted]. }
  destruct (drain_spec fl s now (a_inv _ Ha)) as (s1 & is_ & s2 & Er & Hg & Hi0 & Hi1 & E).
  destruct (removeWhere_spec (refill fl s now) (overdue now) expired Hi0) as (s1' & Er' & _ & Hb & Hl & _).
  rewrite Er in Er'. injection Er' as _ <-.
  assert (lanes (refill fl s now) = lanes s) as El by (unfold refill; by case_decide).
  destruct (granting_order _ _ _ Hg) as (Hf & Hs & Hp & _ & Hst); [apply Hi1|].
  assert (tokens s1 = tokens (refill fl s now)) as Et by apply Hb.
  exists {| granted := is_; expired_items := taken_out (overdue now) s |}, s2. cbn [granted expired_items].
  split_and!; try done.
  - intros l x. rewrite <- Hf. unfold in_time. by rewrite Hl, El.
  - intros i l Hi. rewrite Forall_forall in Hp. by apply Hp.
  - intros n Hn Ht. rewrite <- Et in Ht. by apply (granting_at_most _ _ _ _ Hg).
  - intros n Hn Ht. rewrite <- Et in Ht. by apply (granting_at_least _ _ _ _ Hg).
Qed.
End whole_tokens.

(** ** The rate

    [fl] rounds with a relative error of at most [eps]. *)
Section rate.
Context (eps : Q) (eps_pos : (0 <= eps)%Q)
        (fl_near : forall x, (0 <= x)%Q -> (0 <= fl x)%Q /\ (fl x <= x * (1 + eps))%Q).

Definition full s : Prop := (0 <= tokens s)%Q /\ (tokens s <= capacity s)%Q.

(** Tokens per millisecond. *)
Definition refill_rate s : Q := (refillPerSec s * ((1 + eps) * (1 + eps) * (1 + eps)) / 1000)%Q.

Lemma near_le x y : (0 <= x)%Q -> (x <= y)%Q -> (0 <= fl x)%Q /\ (fl x <= y * (1 + eps))%Q.
Proof. intros Hx Hy. destruct (fl_near x Hx) as [H1 H2]. split; [done|]. nra. Qed.

Lemma refill_tokens s now :
  full s -> (0 <= refillPerSec s)%Q ->
  full (refill fl s now) /\ lastRefill s <= lastRefill (refill fl s now) /\
  (tokens (refill fl s now) <=
     tokens s + refill_rate s * inject_Z (lastRefill (refill fl s now) - lastRefill s) + capacity s * eps)%Q.
Proof.
  intros [H0 Hc] Hr. unfold refill. case_decide as Hn.
  { split_and!; [done|lia|]. rewrite Z.sub_diag. change (inject_Z 0) with 0%Q. nra. }
  set (d := inject_Z (now - lastRefill s)). cbn [with_tokens tokens lastRefill]. fold d.
  assert (0 <= d)%Q as Hd by (unfold d; change 0%Q with (inject_Z 0); rewrite <- Zle_Qle; lia).
  assert (0 <= d / 1000)%Q as Hd' by (unfold Qdiv; change (/ 1000)%Q with (1 # 1000); nra).
  destruct (fl_near _ Hd') as [Ha0 Ha1]. set (a := fl (d / 1000)) in *.
  assert (0 <= a * refillPerSec s)%Q as Hb' by nra.
  assert (a * refillPerSec s <= d / 1000 * (1 + eps) * refillPerSec s)%Q as Hb'' by nra.
  destruct (near_le _ _ Hb' Hb'') as [Hb0 Hb1]. set (b := fl (a * refillPerSec s)) in *.
  destruct (fl_near (tokens s + b)) as [Hf0 Hf1]; [lra|]. set (f := fl (tokens s + b)) in *.
  split_and!; [|lia|].
  - split; cbn; [apply Q.min_glb; lra|apply Q.le_min_l].
  - eapply Qle_trans; [apply Q.le_min_r|]. unfold refill_rate. 
    assert (refillPerSec s * ((1 + eps) * (1 + eps) * (1 + eps)) / 1000 * d ==
      d / 1000 * (1 + eps) * refillPerSec s * (1 + eps) * (1 + eps))%Q as -> by field.
    nra.
Qed.

Lemma granting_rate s is_ s' :
  granting fl s is_ s' -> full s -> (capacity s * eps <= 1)%Q ->
  full s' /\ capacity s' = capacity s /\ refillPerSec s' = refillPerSec s /\ lastRefill s' = lastRefill s /\
  (tokens s' + inject_Z (Z.of_nat (length is_)) <= tokens s + capacity s * eps * inject_Z (Z.of_nat (length is_)))%Q.
Proof.
  induction 1 as [s _|s i s1 is_ s2 Ht Hc _ IH]; intros [H0 Hle] He.
  { split_and!; try done. cbn [length]. change (inject_Z (Z.of_nat 0)) with 0%Q. lra. }
  apply Qle_bool_iff in Ht.
  assert (tokens s1 = tokens s /\ capacity s1 = capacity s /\ refillPerSec s1 = refillPerSec s /\ lastRefill s1 = lastRefill s)
    as (Et & Ec & Er & El) by (destruct Hc as [l pre q post c _ _ _ _ _ ->]; split_and!; apply taken_spec).
  destruct (fl_near (tokens s - 1)) as [Hf0 Hf1]; [lra|].
  destruct IH as (Hfull & Ec' & Er' & El' & Hb); cbn [with_tokens tokens capacity refillPerSec lastRefill] in *.
  - unfold full. cbn. rewrite Et, Ec. split; [done|]. nra.
  - by rewrite Ec.
  - rewrite Et, Ec in *. split_and!; [done|congruence|congruence|congruence|].
    cbn [length]. rewrite Nat2Z.inj_succ. unfold Z.succ. rewrite inject_Z_plus. change (inject_Z 1) with 1%Q.
    assert (eps * (tokens s - 1) <= eps * capacity s)%Q as Hp by nra. lra.
Qed.

(** The bound after [k] calls. *)
Definition within (s0 : pool) (k : Z) h : Prop :=
  let s := h_pool h in
  capacity s = capacity s0 /\ refillPerSec s = refillPerSec s0 /\ full s /\ lastRefill s0 <= lastRefill s /\
  (tokens s + inject_Z (Z.of_nat (length (grants h))) <=
     capacity s0 + refill_rate s0 * inject_Z (lastRefill s - lastRefill s0)
     + capacity s0 * eps * inject_Z (k + Z.of_nat (length (grants h))))%Q.

(** A call that leaves the budget alone. *)
Lemma within_same s0 k h h' :
  within s0 k h -> grants h' = grants h ->
  capacity (h_pool h') = capacity (h_pool h) -> refillPerSec (h_pool h') = refillPerSec (h_pool h) ->
  tokens (h_pool h') = tokens (h_pool h) -> lastRefill (h_pool h') = lastRefill (h_pool h) ->
  within s0 (k + 1) h'.
Proof.
  intros (H1 & H2 & [H3 H4] & H5 & H6) E1 E2 E3 E4 E5. unfold within, full. rewrite E1, E2, E3, E4, E5.
  split_and!; try done. eapply Qle_trans; [exact H6|]. rewrite !inject_Z_plus. change (inject_Z 1) with 1%Q.
  assert (0 <= capacity s0 * eps)%Q as Hp by (apply Qmult_le_0_compat; [rewrite <- H1; lra|done]). lra.
Qed.

(** A call that refills the bucket and then grants [is_]. *)
Lemma within_refill s0 k h h' now is_ :
  within s0 k h -> (0 <= refillPerSec s0)%Q ->
  let s1 := refill fl (h_pool h) now in
  grants h' = grants h ++ is_ -> full (h_pool h') ->
  capacity (h_pool h') = capacity s1 -> refillPerSec (h_pool h') = refillPerSec s1 ->
  lastRefill (h_pool h') = lastRefill s1 ->
  (tokens (h_pool h') + inject_Z (Z.of_nat (length is_)) <=
     tokens s1 + capacity s1 * eps * inject_Z (Z.of_nat (length is_)))%Q ->
  within s0 (k + 1) h'.
Proof.
  intros (H1 & H2 & H3 & H5 & H6) Hr s1 E1 E2 E3 E4 E5 Hb.
  destruct (refill_tokens (h_pool h) now H3) as (_ & Hlast & Ht); [by rewrite H2|]. fold s1 in Hlast, Ht.
  assert (capacity s1 = capacity (h_pool h) /\ refillPerSec s1 = refillPerSec (h_pool h)) as [F1 F2]
    by (unfold s1, refill; by case_decide).
  unfold within. rewrite E1, E3, E4, E5. split_and!; [congruence|congruence|done|lia|].
  assert (refill_rate (h_pool h) = refill_rate s0) as Er by (unfold refill_rate; by rewrite H2). rewrite Er, H1 in Ht.
  rewrite F1, H1 in Hb.
  replace (lastRefill s1 - lastRefill s0) with ((lastRefill s1 - lastRefill (h_pool h)) + (lastRefill (h_pool h) - lastRefill s0)) by lia.
  rewrite length_app, Nat2Z.inj_add, !inject_Z_plus in *. change (inject_Z 1) with 1%Q in *. lra.
Qed.

Lemma step_within s0 k h op :
  (0 <= refillPerSec s0)%Q -> (capacity s0 * eps <= 1)%Q ->
  accounted h -> allowed h op -> within s0 k h -> within s0 (k + 1) (step h op).
Proof.
  intros Hr He Ha Hop Hw. destruct op as [id f|id d|now|p d|id|now]; cbn [step].
  - destruct (submit_spec (h_pool h) id f (a_inv _ Ha)) as (a & old & s & -> & _ & _ & _ & Hs).
    { intros x ->. destruct Hop as [Hx Hn]. rewrite (a_ids _ Ha) in Hx. tauto. }
    destruct (sub_budget _ _ _ _ Hs) as (E1 & E2 & _ & E4 & E5). by apply (within_same _ _ h).
  - destruct (settle_spec (h_pool h) id d) as ((E1 & E2 & _ & _ & E5 & E6 & _) & _). by apply (within_same _ _ h).
  - destruct (drain_spec fl (h_pool h) now (a_inv _ Ha)) as (s1 & is_ & s2 & Er & Hg & Hi0 & Hi1 & ->).
    destruct (removeWhere_spec (refill fl (h_pool h) now) (overdue now) expired Hi0) as (s1' & Er' & _ & Hb & _).
    rewrite Er in Er'. injection Er' as _ <-. destruct Hb as (B1 & B2 & _ & B4 & B5 & _).
    pose proof Hw as (W1 & W2 & W3 & _).
    destruct (refill_tokens (h_pool h) now W3) as ([F1 F2] & _); [by rewrite W2|].
    assert (capacity (refill fl (h_pool h) now) = capacity s0) as Ec by (unfold refill; case_decide; done).
    destruct (granting_rate s1 is_ s2 Hg) as (G1 & G2 & G3 & G4 & G5); [unfold full; by rewrite B4, B1|by rewrite B1, Ec|].
    apply (within_refill s0 k h _ now is_); cbn [h_pool grants granted]; try done; try congruence.
  - destruct (removeWhere_removal (h_pool h) p d (a_inv _ Ha)) as (s & -> & R).
    destruct (rem_budget _ _ _ R) as (E1 & E2 & _ & E4 & E5 & _). by apply (within_same _ _ h).
  - destruct (removeById_removal (h_pool h) id (a_inv _ Ha)) as (r & gone & s & -> & R & _).
    destruct (rem_budget _ _ _ R) as (E1 & E2 & _ & E4 & E5 & _). by apply (within_same _ _ h).
  - pose proof Hw as (W1 & W2 & W3 & _). destruct (refill_tokens (h_pool h) now W3) as (F & _); [by rewrite W2|].
    apply (within_refill s0 k h _ now []); cbn [with_pool h_pool grants availableTokens snd length]; try done.
    + by rewrite app_nil_r.
    + change (inject_Z (Z.of_nat 0)) with 0%Q. lra.
Qed.

Lemma run_within s0 ops : forall k h,
  (0 <= refillPerSec s0)%Q -> (capacity s0 * eps <= 1)%Q ->
  run_allows step allowed h ops -> accounted h -> within s0 k h ->
  within s0 (k + Z.of_nat (length ops)) (foldl step h ops).
Proof.
  induction ops as [|op ops IH]; intros k h Hr He Ho Ha Hw; [by rewrite Z.add_0_r|]. destruct Ho as [Hop Ho].
  cbn [foldl length]. rewrite Nat2Z.inj_succ. replace (k + Z.succ (Z.of_nat (length ops))) with (k + 1 + Z.of_nat (length ops)) by lia.
  apply IH; [done|done|done|by apply step_accounted|by apply step_within].
Qed.

(** The rate is bounded.  Whatever is submitted, removed and drained, in
    whatever order and at whatever times, the items granted since the pool was
    made are at most its burst capacity plus the refill of the time that
    passed, up to the rounding of one operation per call and per grant. *)
Theorem rate_is_bounded cap rate t0 ops :
  let s0 := create cap rate t0 in
  (capacity s0 * eps <= 1)%Q ->
  run_allows step allowed (start cap rate t0) ops ->
  let h := foldl step (start cap rate t0) ops in
  let granted := inject_Z (Z.of_nat (length (grants h))) in
  let passed := inject_Z (lastRefill (h_pool h) - t0) in
  (0 <= passed)%Q /\
  (granted <= capacity s0 + refill_rate s0 * passed + capacity s0 * eps * (inject_Z (Z.of_nat (length ops)) + granted))%Q.
Proof.
  intros s0 He Ho h granted passed.
  assert (0 <= refillPerSec s0)%Q as Hr by (apply Q.le_max_l).
  assert (0 <= capacity s0)%Q as Hc by (eapply Qle_trans; [|apply Q.le_max_l]; done).
  destruct (run_within s0 ops 0 (start cap rate t0) Hr He Ho) as (_ & _ & [Ht _] & Hl & H); [apply start_accounted| |].
  - split_and!; [done|done|split; [done|cbn; lra]|cbn; lia|]. change (h_pool (start cap rate t0)) with s0.
    change (tokens s0) with (capacity s0). rewrite Z.sub_diag. change (length (grants (start cap rate t0))) with O.
    change (inject_Z (0 + Z.of_nat 0)) with 0%Q. change (inject_Z (Z.of_nat 0)) with 0%Q.
    change (inject_Z 0) with 0%Q. lra.
  - fold h in Ht, Hl, H. rewrite Z.add_0_l, inject_Z_plus in H. fold granted in H.
    change (lastRefill s0) with t0 in Hl, H. fold passed in H. split; [|lra].
    unfold passed. change 0%Q with (inject_Z 0). rewrite <- Zle_Qle. lia.
Qed.
End rate.

(** What is settled stays so, and grants accumulate. *)
Lemma settled_stays x ops h :
  accounted h -> run_allows step allowed h ops -> x ∈ (settled (h_pool h)).*1 ->
  x ∈ (settled (h_pool (foldl step h ops))).*1.
Proof.
  intros Ha Ho Hx. apply (foldl_allowed step allowed (fun h => accounted h /\ x ∈ (settled (h_pool h)).*1)); [|done|done].
  clear. intros h op [Ha Hx] Hop. split; [by apply step_accounted|]. pose proof (a_inv _ Ha) as Hi.
  destruct op as [id f|id d|now|p d|id|now]; cbn [step].
  - destruct (submit_spec (h_pool h) id f Hi) as (a & old & s & -> & _ & _ & _ & Hs).
    { intros y ->. destruct Hop as [Hy Hne]. rewrite (a_ids _ Ha) in Hy. tauto. }
    apply (sub_settled _ _ _ _ Hs). by left.
  - destruct (settle_spec (h_pool h) id d) as (_ & _ & Hg & _). apply Hg. by left.
  - destruct (drain_spec fl (h_pool h) now Hi) as (s1 & is_ & s2 & Er & Hgr & Hi0 & Hi1 & ->).
    destruct (removeWhere_removal (refill fl (h_pool h) now) (overdue now) expired Hi0) as (s1' & Er' & R).
    rewrite Er in Er'. injection Er' as _ <-.
    destruct (granting_fate _ _ _ _ Hgr) as (_ & Es & _); [apply Hi1|]. cbn [h_pool]. rewrite Es.
    apply (rem_settled _ _ _ R). left. unfold refill. by case_decide.
  - destruct (removeWhere_removal (h_pool h) p d Hi) as (s & -> & R). apply (rem_settled _ _ _ R). by left.
  - destruct (removeById_removal (h_pool h) id Hi) as (r & gone & s & -> & R & _). apply (rem_settled _ _ _ R). by left.
  - cbn. unfold refill. by case_decide.
Qed.

Lemma grants_grow ops h : exists is_, grants (foldl step h ops) = grants h ++ is_.
Proof.
  apply (foldl_invariant step (fun h' => exists is_, grants h' = grants h ++ is_)); [|exists []; by rewrite app_nil_r].
  intros h' op _ [is_ E]. destruct op as [id f|id d|now|p d|id|now]; cbn [step]; try (by exists is_).
  - destruct (submit (h_pool h') id f) as [a s]. by exists is_.
  - destruct (drainWithExpired fl (h_pool h') now) as [[r|e] s]; [|by exists is_].
    exists (is_ ++ granted r). cbn. by rewrite E, app_assoc.
Qed.

(** ** Fairness *)

Lemma sublist_place {A} (a b : list A) p x :
  a `sublist_of` b -> NoDup b -> b !! p = Some x -> x ∈ a -> exists p', (p' <= p)%nat /\ a !! p' = Some x.
Proof.
  intros Hsub. revert p. induction Hsub as [|y a b Hsub IH|y a b Hsub IH]; intros p Hn Hp Hx.
  - by apply elem_of_nil in Hx.
  - apply NoDup_cons in Hn as [Hy Hn]. destruct p as [|p]; [exists O; split; [lia|exact Hp]|].
    apply elem_of_cons in Hx as [->|Hx]; [by destruct (Hy (list_elem_of_lookup_2 b p _ Hp))|].
    destruct (IH p Hn Hp Hx) as (p' & Hle & H). exists (S p'). split; [lia|done].
  - apply NoDup_cons in Hn as [Hy Hn]. destruct p as [|p].
    + injection Hp as ->. destruct Hy. by eapply elem_of_sublist.
    + destruct (IH p Hn Hp Hx) as (p' & Hle & H). exists p'. split; [lia|done].
Qed.

Definition lane_sessions s l : nat := length (sessions_of (lanes s l)).

(** How long the head of a lane may have to wait: [wait c] grants of the lane,
    from the cursor [c]; [ok c n] says that the cursor fits the [n] sessions in
    the lane. *)
Record rotation (N : nat) (wait : nat -> nat) (ok : nat -> nat -> Prop) : Prop := {
  rot_bounds c n : ok c n -> (n <= N)%nat -> (1 <= wait c <= N)%nat;
  rot_more c n n' : ok c n -> (n <= n')%nat -> ok c n';
  rot_single c n n' : ok c n -> (n <= 1)%nat -> ok c n';
  rot_turn c n n' : ok c n -> (2 <= n <= N)%nat -> (n - 1 <= n')%nat -> ok ((c + 1) mod n)%nat n';
  rot_skip c n : ok c n -> (2 <= n <= N)%nat -> (c mod n <> 0)%nat -> (wait ((c + 1) mod n) < wait c)%nat
}.

(** At most four sessions: whatever leaves the lane. *)
Definition wait_four (c : nat) : nat := (match c with 0 => 1 | 2 => 3 | 3 => 2 | _ => 4 end)%nat.

Lemma rotation_four : rotation 4 wait_four (fun _ _ => True).
Proof.
  constructor; try done.
  - intros c n _ _. destruct c as [|[|[|[|c]]]]; cbn; lia.
  - intros c n _ Hn Hc. pose proof (Nat.mod_upper_bound c n).
    assert ((c + 1) mod n = O \/ (c + 1) mod n = c mod n + 1)%nat as Hv.
    { pose proof (Nat.div_mod_eq c n). destruct (decide (c mod n + 1 = n)%nat); [left|right]; symmetry.
      - apply (Nat.mod_unique _ _ (c / n + 1)); lia.
      - apply (Nat.mod_unique _ _ (c / n)); lia. }
    pose proof (Nat.mod_upper_bound (c + 1) n).
    assert ((c + 1) mod n <> 1)%nat as H1 by lia.
    destruct c as [|[|[|[|c]]]]; [by rewrite Nat.Div0.mod_0_l in Hc|..].
    2, 3: destruct n as [|[|[|[|[|n]]]]]; cbn in *; lia.
    all: destruct ((_ + 1) mod n)%nat as [|[|[|[|m]]]]; cbn [wait_four]; lia.
Qed.

(** Any number of sessions, when items only leave by being granted. *)
Definition wait_steady (N c : nat) : nat := if decide (c = O) then 1 else S (N - c).

Lemma rotation_steady N : (0 < N)%nat -> rotation N (wait_steady N) (fun c n => c <= n \/ c <= 1)%nat.
Proof.
  intros HN. constructor.
  - intros c n Hc Hn. unfold wait_steady. case_decide; lia.
  - intros c n n' Hc Hn. lia.
  - intros c n n' Hc Hn. lia.
  - intros c n n' Hc Hn Hn'. pose proof (Nat.mod_upper_bound (c + 1) n). lia.
  - intros c n Hc Hn Hm. assert (c < n)%nat as Hlt.
    { destruct (decide (c = n)) as [->|]; [|lia]. by rewrite Nat.Div0.mod_same in Hm. }
    assert (c <> 0)%nat by (intros ->; by rewrite Nat.Div0.mod_0_l in Hm).
    unfold wait_steady. rewrite (decide_False (P := c = O)) by done.
    destruct (decide (c + 1 = n)%nat) as [<-|]; [rewrite Nat.Div0.mod_same, decide_True by done; lia|].
    rewrite Nat.mod_small by lia. rewrite decide_False by lia. lia.
Qed.

Section waiting_time.
Context (N : nat) (wait : nat -> nat) (ok : nat -> nat -> Prop) (Hrot : rotation N wait ok).
Context (l : RateLimitLane).

(** The lane has at most [N] sessions and a cursor that fits. *)
Definition turning s : Prop := (lane_sessions s l <= N)%nat /\ ok (laneCursor s l) (lane_sessions s l).

(** The place of [q], and the grants of the lane it has to wait for. *)
Definition waits s q (m : nat) : Prop :=
  exists p, lanes s l !! p = Some q /\ (N * p + wait (laneCursor s l) <= m)%nat.

Definition of_lane (is_ : list (RateLimitItem T)) : nat :=
  length (List.filter (fun i => bool_decide (lane i = l)) is_).

Lemma of_lane_app a b : of_lane (a ++ b) = (of_lane a + of_lane b)%nat.
Proof. unfold of_lane. by rewrite List.filter_app, length_app. Qed.

Lemma fewer_sessions s s' : lanes s' l `sublist_of` lanes s l -> (lane_sessions s' l <= lane_sessions s l)%nat.
Proof. intros H. by apply sessions_of_le, sublist_subseteq, fmap_sublist. Qed.

(** One choice: the lane turns on, and an item of it comes closer. *)
Lemma chosen_turns s i s' :
  chosen s i s' -> queued s -> turning s ->
  turning s' /\
  forall q m, waits s q m -> item q = i \/ waits s' q (m - of_lane [i]) /\ (of_lane [i] < m)%nat.
Proof.
  intros Hc Hq [Hn Hok]. pose proof (fewer_sessions s s' (chosen_sublist s i s' l Hc)) as Hfew.
  destruct Hc as [l0 pre x post c El <- _ Hpick _ ->].
  destruct (taken_spec s l0 (pre ++ post) c) as (_ & _ & El' & _ & _ & _ & _ & _ & Ec).
  assert (lane (item x) = l0) as Elane by (apply Hq; rewrite El; set_solver).
  destruct (decide (l0 = l)) as [->|Hl].
  2:{ assert (lanes (taken s l0 (pre ++ post) c) l = lanes s l) as E1 by (by rewrite El', set_at_ne).
      assert (laneCursor (taken s l0 (pre ++ post) c) l = laneCursor s l) as E2.
      { rewrite Ec. destruct c; [by rewrite set_at_ne|done]. }
      assert (of_lane [item x] = O) as E3 by (unfold of_lane; cbn; by rewrite bool_decide_false by congruence).
      unfold turning, waits, lane_sessions. rewrite E1, E2, E3. split; [done|].
      intros q m (p & Hp & Hm). right. rewrite Nat.sub_0_r. split; [by exists p|].
      pose proof (rot_bounds _ _ _ Hrot _ _ Hok Hn). lia. }
  assert (of_lane [item x] = 1%nat) as E1 by (unfold of_lane; cbn; by rewrite bool_decide_true).
  assert (lanes (taken s l (pre ++ post) c) l = pre ++ post) as E2 by (by rewrite El', set_at_eq).
  assert (lane_sessions s l <= S (lane_sessions (taken s l (pre ++ post) c) l))%nat as Hless.
  { unfold lane_sessions. rewrite El, E2. apply sessions_of_delete. }
  destruct (lanes s l) as [|y queue] eqn:Eq; [by destruct pre|].
  destruct (pick_spec (laneCursor s l) y queue) as (pre' & x' & post' & c' & Ey & Hpick' & _ & Hcase).
  rewrite Hpick in Hpick'. injection Hpick' as Elen <-.
  assert (pre = pre' /\ x :: post = x' :: post') as [<- [= <- <-]] by (apply app_inj_1; congruence).
  unfold lane_sessions in Hn, Hok. rewrite Eq in Hn, Hok. cbv zeta in Hcase.
  set (n := length (sessions_of (y :: queue))) in *.
  assert (lane_sessions s l = n) as En by (unfold lane_sessions; by rewrite Eq).
  rewrite En in Hless, Hfew.
  assert (forall q p, (y :: queue) !! p = Some q -> item q = item x \/ exists p', (pre ++ post) !! p' = Some q /\
    (pre = [] -> p = S p') /\ (p' <= p)%nat) as Hplace.
  { intros q p Hp. rewrite El in Hp. apply lookup_app_Some in Hp as [Hp|[Hle Hp]].
    - right. exists p. split_and!; [by apply lookup_app_l_Some|by intros ->|done].
    - destruct (p - length pre)%nat as [|k] eqn:Ek; [left; by injection Hp as ->|]. right.
      exists (length pre + k)%nat. split_and!; [|intros ->; cbn in *; lia|lia].
      rewrite lookup_app_r by lia. by replace (length pre + k - length pre)%nat with k by lia. }
  rewrite E1. unfold turning, waits. rewrite E2, Ec, Eq.
  destruct Hcase as [(Hn1 & -> & ->)|(Hn2 & -> & Hhead)].
  - split; [split; [lia|by apply (rot_single _ _ _ Hrot _ n)]|]. intros q m (p & Hp & Hm).
    destruct (Hplace q p Hp) as [?|(p' & Hp' & Hs & _)]; [by left|right]. rewrite (Hs eq_refl) in Hm.
    pose proof (rot_bounds _ _ _ Hrot _ _ Hok Hn). split; [exists p'; split; [done|]|]; nia.
  - rewrite set_at_eq. assert (ok ((laneCursor s l + 1) mod n)%nat (lane_sessions (taken s l (pre ++ post) (Some ((laneCursor s l + 1) mod n)%nat)) l)) as Hok'
      by (apply (rot_turn _ _ _ Hrot); [done|lia|lia]).
    split; [split; [lia|done]|]. intros q m (p & Hp & Hm).
    destruct (Hplace q p Hp) as [?|(p' & Hp' & Hs & Hle)]; [by left|right].
    pose proof (rot_bounds _ _ _ Hrot _ _ Hok Hn). pose proof (rot_bounds _ _ _ Hrot _ _ Hok' ltac:(lia)).
    destruct (decide (laneCursor s l mod n = O)%nat) as [E0|E0].
    + rewrite (Hs (Hhead E0)) in Hm. split; [exists p'; split; [done|]|]; nia.
    + pose proof (rot_skip _ _ _ Hrot _ _ Hok ltac:(lia) E0). split; [exists p'; split; [done|]|]; nia.
Qed.

Lemma granting_turns s is_ s' :
  granting fl s is_ s' -> queued s -> turning s ->
  turning s' /\
  forall q m, waits s q m -> item q ∈ is_ \/ waits s' q (m - of_lane is_) /\ (of_lane is_ < m)%nat.
Proof.
  induction 1 as [s _|s i s1 is_ s2 _ Hc Hg IH]; intros Hq Ht.
  { split; [done|]. intros q m Hw. right. rewrite Nat.sub_0_r. split; [done|]. destruct Ht as [Hn Hok], Hw as (p & _ & Hm).
    pose proof (rot_bounds _ _ _ Hrot _ _ Hok Hn). cbn. lia. }
  destruct (chosen_turns s i s1 Hc Hq Ht) as [Ht1 Hw1].
  destruct IH as [Ht2 Hw2]; [apply (queued_sublist s); [intros l'; by apply (chosen_sublist s i s1)|done]|exact Ht1|].
  split; [done|]. intros q m Hw. destruct (Hw1 q m Hw) as [->|[Hw' Hm]]; [left; by left|].
  destruct (Hw2 q _ Hw') as [Hin|[Hw'' Hm']]; [left; by right|right].
  change (i :: is_) with ([i] ++ is_). rewrite of_lane_app. rewrite Nat.sub_add_distr. split; [done|lia].
Qed.

(** What a call throws out of the queue. *)
Definition removes h (op : pool_op) : list string :=
  match op with
  | P_drain now => itemId <$> taken_out (overdue now) (h_pool h)
  | P_removeWhere p _ => itemId <$> taken_out p (h_pool h)
  | P_removeById id => match (removeById (h_pool h) id).1 with Some i => [itemId i] | None => [] end
  | _ => []
  end.

(** The run: callers behave, the lane has at most [N] sessions, and nothing is
    thrown out unless any cursor will do. *)
Definition steady h (op : pool_op) : Prop :=
  allowed h op /\ (lane_sessions (h_pool h) l <= N)%nat /\ ((forall c n, ok c n) \/ removes h op = []).

Lemma removal_turns s gone s' :
  removal s gone s' -> queued s -> (forall c n, ok c n) \/ gone = [] ->
  ok (laneCursor s l) (lane_sessions s l) ->
  ok (laneCursor s' l) (lane_sessions s' l) /\
  forall q m, waits s q m -> qid q ∈ (settled s').*1 \/ waits s' q m.
Proof.
  intros R Hq Hg Hok. destruct (rem_budget _ _ _ R) as (_ & _ & Ec & _). pose proof (rem_lanes _ _ _ R) as Hsub.
  assert (forall l' q, q ∈ lanes s l' -> qid q ∉ gone -> q ∈ lanes s' l') as Hstay.
  { intros l' q Hin Hng. assert (waiting s' (qid q)) as [l'' Hx].
    { apply (rem_waiting _ _ _ R). split; [exists l'; by apply list_elem_of_fmap_2|done]. }
    assert (l'' = l') as ->.
    { apply (q_apart _ Hq l'' l' (qid q)); [|by apply list_elem_of_fmap_2].
      eapply elem_of_sublist; [exact Hx|apply fmap_sublist, Hsub]. }
    apply list_elem_of_fmap in Hx as (q' & E & Hin').
    assert (q' = q) as <-; [|done]. apply (NoDup_inj_on qid (lanes s l')); [apply Hq| |done|done].
    by eapply elem_of_sublist, Hsub. }
  rewrite Ec. split.
  - destruct Hg as [Hany| ->]; [apply Hany|]. apply (rot_more _ _ _ Hrot _ (lane_sessions s l)); [done|].
    apply sessions_of_le. intros x Hx. apply list_elem_of_fmap in Hx as (q & -> & Hin). apply list_elem_of_fmap_2, Hstay; [done|set_solver].
  - intros q m (p & Hp & Hm). destruct (decide (qid q ∈ gone)) as [Hin|Hng].
    + left. apply (rem_settled _ _ _ R). by right.
    + right. destruct (sublist_place (lanes s' l) (lanes s l) p q) as (p' & Hle & Hp'); [done| |done| |].
      * apply (NoDup_fmap_1 qid), Hq.
      * apply Hstay; [by eapply list_elem_of_lookup_2|done].
      * exists p'. split; [done|]. rewrite Ec. nia.
Qed.

Lemma step_turns h op :
  accounted h -> steady h op -> ok (laneCursor (h_pool h) l) (lane_sessions (h_pool h) l) ->
  let h' := step h op in
  ok (laneCursor (h_pool h') l) (lane_sessions (h_pool h') l) /\
  exists is_, grants h' = grants h ++ is_ /\
    forall q m, waits (h_pool h) q m ->
      qid q ∈ (settled (h_pool h')).*1 \/ item q ∈ is_ \/ waits (h_pool h') q (m - of_lane is_) /\ (of_lane is_ < m)%nat.
Proof.
  intros Ha (Hop & Hn & Hg) Hok. cbv zeta. pose proof (a_inv _ Ha) as Hi. pose proof Hi as (Hq & _).
  assert (forall q m, waits (h_pool h) q m -> (0 < m)%nat) as Hpos.
  { intros q m (p & _ & Hm). pose proof (rot_bounds _ _ _ Hrot _ _ Hok Hn). lia. }
  assert (forall s, removal (h_pool h) (removes h op) s ->
    ok (laneCursor s l) (lane_sessions s l) /\
    exists is_, grants h = grants h ++ is_ /\
      forall q m, waits (h_pool h) q m ->
        qid q ∈ (settled s).*1 \/ item q ∈ is_ \/ waits s q (m - of_lane is_) /\ (of_lane is_ < m)%nat) as Hrem.
  { intros s R. destruct (removal_turns _ _ _ R Hq Hg Hok) as [Hok' Hw]. split; [done|]. exists [].
    split; [by rewrite app_nil_r|]. intros q m Hwq. cbn. rewrite Nat.sub_0_r.
    destruct (Hw q m Hwq) as [?|?]; [by left|right; right; split; [done|by apply (Hpos q)]]. }
  destruct op as [id f|id d|now|p d|id|now]; cbn [step].
  - destruct (submit_spec (h_pool h) id f Hi) as (a & old & s & -> & _ & _ & Hi' & [S1 S2 S3 S4 S5 S6 S7]).
    { intros x ->. destruct Hop as [Hx Hne]. rewrite (a_ids _ Ha) in Hx. tauto. }
    cbn [h_pool grants]. destruct S7 as (_ & _ & Ec & _). rewrite Ec. split.
    + apply (rot_more _ _ _ Hrot _ (lane_sessions (h_pool h) l)); [done|]. apply sessions_of_le.
      destruct (S6 l) as [more ->]. set_solver.
    + exists []. split; [by rewrite app_nil_r|]. intros q m Hw. pose proof Hw as (p & Hp & Hm).
      destruct (S5 l p q Hp) as [Hp'|Ho]; [|left; apply S3; by right]. right. right. cbn. rewrite Nat.sub_0_r.
      split; [exists p; by rewrite Ec|by apply (Hpos q)].
  - destruct (settle_spec (h_pool h) id d) as ((_ & _ & E1 & E2 & _) & _). cbn [with_pool h_pool grants].
    unfold lane_sessions, waits. rewrite E1, E2. split; [done|]. exists []. split; [by rewrite app_nil_r|].
    intros q m Hw. right. right. cbn. rewrite Nat.sub_0_r. split; [done|by apply (Hpos q)].
  - destruct (drain_spec fl (h_pool h) now Hi) as (s1 & is_ & s2 & Er & Hgr & Hi0 & Hi1 & ->).
    destruct (removeWhere_removal (refill fl (h_pool h) now) (overdue now) expired Hi0) as (s1' & Er' & R).
    rewrite Er in Er'. injection Er' as Eo <-. rewrite <- Eo in R. cbn [h_pool grants granted].
    assert (lanes (refill fl (h_pool h) now) = lanes (h_pool h) /\ laneCursor (refill fl (h_pool h) now) = laneCursor (h_pool h))
      as [E1 E2] by (unfold refill; by case_decide).
    destruct (removal_turns _ _ _ R) as [Hok1 Hw1]; [apply Hi0|done|unfold lane_sessions; by rewrite E1, E2|].
    assert (lane_sessions s1 l <= lane_sessions (h_pool h) l)%nat as Hless.
    { apply fewer_sessions. rewrite <- E1. apply (rem_lanes _ _ _ R). }
    destruct (granting_turns _ _ _ Hgr) as [[_ Hok2] Hw2]; [apply Hi1|split; [lia|done]|].
    split; [done|]. exists is_. split; [done|]. intros q m Hw.
    destruct (granting_fate _ _ _ _ Hgr) as (_ & Es & _); [apply Hi1|].
    destruct (Hw1 q m) as [Hs|Hw']; [unfold waits; by rewrite E1, E2|left; by rewrite Es|right]. by apply Hw2.
  - destruct (removeWhere_removal (h_pool h) p d Hi) as (s & -> & R). by apply Hrem.
  - destruct (removeById_removal (h_pool h) id Hi) as (r & gone & s & E & R & Hnone).
    cbn [removes] in Hg. rewrite E in Hg |- *. cbn [fst snd with_pool h_pool grants] in *.
    destruct (removal_turns _ _ _ R Hq) as [Hok' Hw]; [destruct Hg as [?|Hg]; [by left|right; apply Hnone; by destruct r]|done|].
    split; [done|]. exists []. split; [by rewrite app_nil_r|]. intros q m Hwq. cbn. rewrite Nat.sub_0_r.
    destruct (Hw q m Hwq) as [?|?]; [by left|right; right; split; [done|by apply (Hpos q)]].
  - assert (lanes (refill fl (h_pool h) now) = lanes (h_pool h) /\ laneCursor (refill fl (h_pool h) now) = laneCursor (h_pool h))
      as [E1 E2] by (unfold refill; by case_decide).
    cbn [with_pool h_pool grants availableTokens snd]. unfold lane_sessions, waits. rewrite E1, E2. split; [done|].
    exists []. split; [by rewrite app_nil_r|]. intros q m Hw. right. right. cbn. rewrite Nat.sub_0_r.
    split; [done|by apply (Hpos q)].
Qed.

Lemma run_turns ops : forall h q m,
  accounted h -> ok (laneCursor (h_pool h) l) (lane_sessions (h_pool h) l) -> run_allows step steady h ops ->
  waits (h_pool h) q m -> (0 < m)%nat ->
  let h' := foldl step h ops in
  qid q ∈ (settled (h_pool h')).*1 \/
  exists is_, grants h' = grants h ++ is_ /\ (item q ∈ is_ \/ (of_lane is_ < m)%nat).
Proof.
  induction ops as [|op ops IH]; intros h q m Ha Hok Ho Hw Hm; cbn [foldl].
  { right. exists []. split; [by rewrite app_nil_r|]. by right. }
  destruct Ho as [Hop Ho]. destruct (step_turns h op Ha Hop Hok) as (Hok' & is_ & Eg & Hstep).
  assert (accounted (step h op)) as Ha' by (apply step_accounted; [done|apply Hop]).
  destruct (Hstep q m Hw) as [Hs|Hnext].
  - left. apply (settled_stays _ ops); [done| |done].
    eapply run_allows_mono; [|exact Ho]. by intros h0 o [? _].
  - assert (forall ops h0, exists is2, grants (foldl step h0 ops) = grants h0 ++ is2) as Hgrow by apply grants_grow.
    destruct Hnext as [Hin|[Hw' Hlt]].
    + right. destruct (Hgrow ops (step h op)) as [is2 E]. exists (is_ ++ is2). rewrite E, Eg, app_assoc.
      split; [done|]. left. apply elem_of_app. by left.
    + destruct (IH (step h op) q _ Ha' Hok' Ho Hw') as [Hs|(is2 & E & Hend)]; [lia|by left|right].
      exists (is_ ++ is2). rewrite E, Eg, app_assoc. split; [done|]. rewrite of_lane_app, elem_of_app.
      destruct Hend as [?|?]; [left; by right|right; lia].
Qed.

Lemma run_ok ops : forall h,
  accounted h -> ok (laneCursor (h_pool h) l) (lane_sessions (h_pool h) l) -> run_allows step steady h ops ->
  accounted (foldl step h ops) /\
  ok (laneCursor (h_pool (foldl step h ops)) l) (lane_sessions (h_pool (foldl step h ops)) l).
Proof.
  intros h Ha Hok Ho.
  apply (foldl_allowed step steady (fun h => accounted h /\ ok (laneCursor (h_pool h) l) (lane_sessions (h_pool h) l)));
    [|done|done].
  intros h0 op [Ha0 Hok0] Hop. split; [apply step_accounted; [done|apply Hop]|by apply step_turns].
Qed.
End waiting_time.

End schedule.

(** ** Witnesses *)

Definition exact (x : Q) : Q := x.

Definition note (session : string) (key : option string) (deadline : option Z) : ItemFields nat :=
  {| sessionId := session; lane := live; coalesceKey := key; deadlineAt := deadline; payload := O |}.

Definition demo : list (@pool_op nat) :=
  [P_submit (Some "a1") (note "a" None None); P_submit (Some "b1") (note "b" None None);
   P_submit None (note "a" (Some "k") (Some 7)); P_submit None (note "a" (Some "k") None);
   P_submit (Some "a2") (note "a" None (Some 3))].

Lemma not_generated c x n : c <> "r"%char -> String c x <> generated_id n.
Proof. intros Hc E. unfold generated_id in E. rewrite append_cons in E. congruence. Qed.

Ltac demo_allowed :=
  repeat split; try (apply includes_false; vm_compute; reflexivity); try (intros n; by apply not_generated).

Lemma rate_pool_accounts_witness :
  let h := foldl (step exact) (start None None 0) (demo ++ [P_drain 5]) in
  threw h = false /\ itemId <$> grants h = ["a1"; "rate-limit:3"; "b1"] /\ settled (h_pool h) = [("rate-limit:2", removed); ("a2", expired)].
Proof.
  destruct (rate_pool_accounts exact None None 0 (demo ++ [P_drain 5])) as (H & _); [demo_allowed|].
  split; [exact H|]. split; vm_compute; reflexivity.
Defined.

Lemma drain_exact_witness :
  exists r s', drainWithExpired exact (h_pool (foldl (step exact) (start None None 0) demo)) 5 = (Ok r, s') /\
    itemId <$> expired_items r = ["a2"] /\ in_lane_order (granted r).
Proof.
  destruct (drain_exact exact (fun x y H => H) (fun n _ => Qeq_refl (inject_Z n)) None None 0 demo 5)
    as (r & s' & E & Ho & _ & Hl & _); [demo_allowed|].
  exists r, s'. split; [exact E|]. split; [rewrite Ho; vm_compute; reflexivity|exact Hl].
Defined.

Lemma exact_near x : (0 <= x)%Q -> (0 <= exact x)%Q /\ (exact x <= x * (1 + 0))%Q.
Proof. unfold exact. intros H. split; [done|lra]. Qed.

Lemma rate_is_bounded_witness :
  (inject_Z (Z.of_nat (length (grants (foldl (step exact) (start None None 0) (demo ++ [P_drain 5]))))) <= (20 # 1) + (1 # 1000) * 5)%Q.
Proof.
  destruct (rate_is_bounded exact 0 (Qle_refl 0) exact_near None None 0 (demo ++ [P_drain 5])) as [_ H].
  - vm_compute. discriminate.
  - demo_allowed.
  - eapply Qle_trans; [exact H|]. vm_compute. discriminate.
Defined.


(** ** What the rotation does not do *)

(** A session is served twice in a row while another waits. *)
Example same_session_twice :
  itemId <$> grants (foldl (step exact) (start None None 0)
    [P_submit (Some "a1") (note "a" None None); P_submit (Some "b1") (note "b" None None);
     P_submit (Some "a2") (note "a" None None); P_drain 0]) = ["a1"; "a2"; "b1"].
Proof. vm_compute. reflexivity. Qed.

(** Five sessions and one removal a round: the oldest item of the lane is passed
    over round after round. *)
Definition arrival (session : string) (n : nat) : @pool_op nat :=
  P_submit (Some (session +:+ show_Z (Z.of_nat n))) (note session None None).

Definition starving_round (n : nat) : list (@pool_op nat) :=
  let '(p1, p2) := if Nat.even n then ("b", "a") else ("a", "b") in
  let t := 3000 * Z.of_nat n - 2000 in
  [P_drain (t + 1000); arrival p2 n; P_drain (t + 2000); P_removeById ("c" +:+ show_Z (Z.of_nat n - 1));
   P_drain (t + 3000); arrival p1 n; arrival "c" n; arrival "d" n].

Definition starving_opening : list (@pool_op nat) :=
  [arrival "x" 0; arrival "h" 0; arrival "q" 0; arrival "a" 0; arrival "b" 0; P_drain 0; arrival "c" 0;
   P_drain 1000; arrival "d" 0].

Example five_sessions_starve :
  let h := foldl (step exact) (start (Some 1%Q) None 0) (starving_opening ++ (List.seq 1 100 ≫= starving_round)) in
  (length (grants h), head (qid <$> lanes (h_pool h) live), lane_sessions (h_pool h) live) = (302%nat, Some "h0", 5%nat).
Proof. vm_compute. reflexivity. Qed.

(** An update without an id replaces a queued item that has one. *)
Example identified_item_replaced :
  let h := foldl (step exact) (start None None 0)
    [P_submit (Some "a1") (note "a" (Some "k") None); P_submit None (note "a" (Some "k") None)] in
  (qid <$> lanes (h_pool h) live, settled (h_pool h)) = (["rate-limit:1"], [("a1", removed)]).
Proof. vm_compute. reflexivity. Qed.

(** Settling an item that still waits makes a later drain throw, and the items
    it had granted are lost with it. *)
Example drain_loses_grants :
  let h := foldl (step exact) (start None None 0)
    [P_submit (Some "a1") (note "a" None None); P_submit (Some "b1") (note "b" None None);
     P_settle "b1" rejected; P_drain 0] in
  (threw h, grants h, settlements (h_pool h), qid <$> lanes (h_pool h) live) = (true, [], ["a1"], []).
Proof. vm_compute. reflexivity. Qed.
