(* ===== verification/AwsEventStream.v ===== *)
(** * Binary event streams ([packages/ai/src/providers/aws-eventstream.ts])

    Frames with big-endian lengths and two CRC-32 checksums, their typed
    headers, and the streaming decoder.  [TextDecoder.decode] is the parameter
    [decode_utf8].  A view on an [ArrayBuffer] is the list of its bytes;
    [beyond] are the bytes of the buffer after the view, which a byte-array
    header can reach. *)

From Stdlib Require Import Strings.Byte Ascii.
From S2P Require Import Prelude JsNumber.

Local Open Scope string_scope.
Local Open Scope list_scope.
Local Open Scope Z_scope.

#[export] Instance byte_eq_dec : EqDecision byte := Byte.byte_eq_dec.

Definition u8 (b : byte) : Z := Z.of_N (Byte.to_N b).

Definition PRELUDE_LEN : Z := 8.
Definition PRELUDE_CRC_LEN : Z := 4.
Definition MESSAGE_CRC_LEN : Z := 4.
Definition HEADER_BLOCK_OFFSET : Z := PRELUDE_LEN + PRELUDE_CRC_LEN.
Definition MIN_MESSAGE_LEN : Z := HEADER_BLOCK_OFFSET + MESSAGE_CRC_LEN.

Record EventStreamMessage := { headers : list (string * string); payload : list byte }.

(** ** CRC-32 *)

Definition POLYNOMIAL : Z := 0xedb88320.

Definition crc_bit (c : Z) : Z :=
  if decide (js_and c 1 = 0) then js_ushr c 1 else js_xor POLYNOMIAL (js_ushr c 1).

Definition CRC_TABLE : list Z := (fun i => to_uint32 (Nat.iter 8 crc_bit (Z.of_nat i))) <$> seq 0 256.

Definition crc_byte (c : Z) (b : byte) : Z :=
  to_uint32 (js_xor (nth (Z.to_nat (js_and (js_xor c (u8 b)) 0xff)) CRC_TABLE 0) (js_ushr c 8)).

Definition crc32 (bytes : list byte) (seed : Z) : Z :=
  let c := to_uint32 (js_xor seed 0xffffffff) in
  to_uint32 (js_xor (foldl crc_byte c bytes) 0xffffffff).

(** ** Reading a view *)

Definition range_error {A} : outcome string A := Throw "Offset is outside the bounds of the DataView".

(** The big-endian value of some bytes. *)
Definition be (bs : list byte) : Z := foldl (fun v b => 256 * v + u8 b) 0 bs.

Definition len (bs : list byte) : Z := Z.of_nat (length bs).

(** [getUint8], [getUint16], [getUint32]. *)
Definition get_uint (n : nat) (view : list byte) (p : Z) : outcome string Z :=
  if decide (p + Z.of_nat n <= len view) then Ok (be (slice view p (p + Z.of_nat n))) else range_error.

(** Two's complement. *)
Definition signed (bits v : Z) : Z := if decide (v < 2 ^ (bits - 1)) then v else v - 2 ^ bits.

Definition get_int (n : nat) (view : list byte) (p : Z) : outcome string Z :=
  outcome_bind (get_uint n view p) (fun v => Ok (signed (8 * Z.of_nat n) v)).

Definition bigIntFromBytes (b : list byte) : Z :=
  let v := be b in
  if decide (len b = 8 /\ 128 <= u8 (default x00 (head b))) then v - 2 ^ 64 else v.

(** ** Text of values *)

Definition base64_char (n : Z) : ascii :=
  ascii_of_N (Z.to_N (if decide (n < 26) then 65 + n else if decide (n < 52) then 71 + n
    else if decide (n < 62) then n - 4 else if decide (n = 62) then 43 else 47)).

(** [Buffer.toString("base64")] *)
Fixpoint base64 (bs : list byte) : string :=
  match bs with
  | [] => EmptyString
  | [a] => String (base64_char (u8 a / 4)) (String (base64_char (u8 a mod 4 * 16)) "==")
  | [a; b] =>
      String (base64_char (u8 a / 4)) (String (base64_char (u8 a mod 4 * 16 + u8 b / 16))
        (String (base64_char (u8 b mod 16 * 4)) "="))
  | a :: b :: c :: bs =>
      String (base64_char (u8 a / 4)) (String (base64_char (u8 a mod 4 * 16 + u8 b / 16))
        (String (base64_char (u8 b mod 16 * 4 + u8 c / 64)) (String (base64_char (u8 c mod 64)) (base64 bs))))
  end.

Definition hex_digit (n : Z) : ascii := ascii_of_N (Z.to_N (if decide (n < 10) then 48 + n else 87 + n)).
Definition hex_byte (b : byte) : string := String (hex_digit (u8 b / 16)) (String (hex_digit (u8 b mod 16)) EmptyString).
Definition hex (bs : list byte) : string := foldr (fun b s => hex_byte b +:+ s) EmptyString bs.

Definition pad (n : nat) (v : Z) : string := zeros (n - String.length (numeral v)) +:+ numeral v.

(** The civil date of a day counted from the first of March of year 0. *)
Definition civil (day : Z) : Z * Z * Z :=
  let era := day / 146097 in
  let doe := day mod 146097 in
  let yoe := (doe - doe / 1460 + doe / 36524 - doe / 146096) / 365 in
  let doy := doe - (365 * yoe + yoe / 4 - yoe / 100) in
  let mp := (5 * doy + 2) / 153 in
  let d := doy - (153 * mp + 2) / 5 + 1 in
  let m := if decide (mp < 10) then mp + 3 else mp - 9 in
  let y := yoe + 400 * era in
  (if decide (m <= 2) then y + 1 else y, m, d).

(** [new Date(t).toISOString()] *)
Definition toISOString (t : Z) : outcome string string :=
  if decide (Z.abs t <= 8640000000000000) then
    let '(y, m, d) := civil (t / 86400000 + 719468) in
    let ms := t mod 86400000 in
    let year :=
      if decide (0 <= y <= 9999) then pad 4 y
      else String (if decide (y < 0) then "-" else "+")%char (pad 6 (Z.abs y)) in
    Ok (year +:+ "-" +:+ pad 2 m +:+ "-" +:+ pad 2 d +:+ "T" +:+ pad 2 (ms / 3600000) +:+ ":"
      +:+ pad 2 (ms / 60000 mod 60) +:+ ":" +:+ pad 2 (ms / 1000 mod 60) +:+ "." +:+ pad 3 (ms mod 1000) +:+ "Z")
  else Throw "Invalid Date".

(** ** Headers *)

(** [out[name] = value] on a plain object: the prototype is not a string. *)
Definition set_header (out : list (string * string)) (name value : string) : list (string * string) :=
  if decide (name = "__proto__") then out else map_set out name value.

Section decoder.
Context (decode_utf8 : list byte -> string).

(** The value of a type at an offset, and the offset after it. *)
Definition header_value (buf beyond : list byte) (type p : Z) : outcome string (string * Z) :=
  match type with
  | 0 => Ok ("true", p)
  | 1 => Ok ("false", p)
  | 2 => outcome_bind (get_int 1 buf p) (fun v => Ok (show_Z v, p + 1))
  | 3 => outcome_bind (get_int 2 buf p) (fun v => Ok (show_Z v, p + 2))
  | 4 => outcome_bind (get_int 4 buf p) (fun v => Ok (show_Z v, p + 4))
  | 5 => Ok (show_Z (bigIntFromBytes (slice buf p (p + 8))), p + 8)
  | 6 =>
      outcome_bind (get_uint 2 buf p) (fun n =>
        let rest := drop (Z.to_nat (p + 2)) buf ++ beyond in
        if decide (n <= len rest) then Ok (base64 (take (Z.to_nat n) rest), p + 2 + n)
        else Throw "length is outside of buffer bounds")
  | 7 => outcome_bind (get_uint 2 buf p) (fun n => Ok (decode_utf8 (slice buf (p + 2) (p + 2 + n)), p + 2 + n))
  | 8 => outcome_bind (toISOString (bigIntFromBytes (slice buf p (p + 8)))) (fun v => Ok (v, p + 8))
  | 9 =>
      let u := slice buf p (p + 16) in
      if decide (length u = 16%nat) then
        Ok (hex (take 4 u) +:+ "-" +:+ hex (slice u 4 6) +:+ "-" +:+ hex (slice u 6 8) +:+ "-" +:+ hex (slice u 8 10)
          +:+ "-" +:+ hex (slice u 10 16), p + 16)
      else Throw "undefined is not an object"
  | _ => Throw ("eventstream: unknown header value type " +:+ show_Z type)
  end.

Fixpoint header_loop (fuel : nat) (buf beyond : list byte) (p : Z) (out : list (string * string))
    : outcome string (list (string * string)) :=
  if decide (p < len buf) then
    match fuel with
    | O => Ok out
    | S fuel =>
        outcome_bind (get_uint 1 buf p) (fun nameLen =>
        let name := decode_utf8 (slice buf (p + 1) (p + 1 + nameLen)) in
        let p := p + 1 + nameLen in
        outcome_bind (get_uint 1 buf p) (fun type =>
        outcome_bind (header_value buf beyond type (p + 1)) (fun '(value, p) =>
        header_loop fuel buf beyond p (set_header out name value))))
    end
  else Ok out.

Definition parseHeaders (buf beyond : list byte) : outcome string (list (string * string)) :=
  header_loop (length buf) buf beyond 0 [].

Definition decodeMessage (frame beyond : list byte) : outcome string EventStreamMessage :=
  if decide (len frame < MIN_MESSAGE_LEN) then Throw "eventstream: frame too short"
  else
  outcome_bind (get_uint 4 frame 0) (fun total =>
  if decide (total <> len frame)
  then Throw ("eventstream: framed length " +:+ show_Z total +:+ " != buffer " +:+ show_Z (len frame))
  else
  outcome_bind (get_uint 4 frame 4) (fun headersLen =>
  outcome_bind (get_uint 4 frame 8) (fun preludeCrc =>
  if decide (crc32 (slice frame 0 PRELUDE_LEN) 0 <> preludeCrc) then Throw "eventstream: prelude CRC mismatch"
  else
  outcome_bind (get_uint 4 frame (total - MESSAGE_CRC_LEN)) (fun msgCrc =>
  if decide (crc32 (slice frame 0 (total - MESSAGE_CRC_LEN)) 0 <> msgCrc) then Throw "eventstream: message CRC mismatch"
  else
  let headersEnd := HEADER_BLOCK_OFFSET + headersLen in
  outcome_bind (parseHeaders (slice frame HEADER_BLOCK_OFFSET headersEnd) (drop (Z.to_nat headersEnd) frame ++ beyond)) (fun hs =>
  Ok {| headers := hs; payload := slice frame headersEnd (total - MESSAGE_CRC_LEN) |}))))).

(** ** Streams *)

(** The frames at the head of the buffer: what is yielded, and how the loop
    ends, with the bytes that are left. *)
Fixpoint frame_loop (fuel : nat) (buf slack : list byte)
    : list EventStreamMessage * outcome string (list byte) :=
  match fuel with
  | O => ([], Ok buf)
  | S fuel =>
      if decide (len buf < 4) then ([], Ok buf)
      else
        let total := be (take 4 buf) in
        if decide (total < MIN_MESSAGE_LEN)
        then ([], Throw ("eventstream: total length " +:+ show_Z total +:+ " below minimum"))
        else if decide (len buf < total) then ([], Ok buf)
        else
          let rest := drop (Z.to_nat total) buf in
          match decodeMessage (take (Z.to_nat total) buf) (rest ++ slack) with
          | Throw e => ([], Throw e)
          | Ok m => let '(ms, r) := frame_loop fuel rest slack in (m :: ms, r)
          end
  end.

(** A chunk read from the source, and the bytes of the buffer's [ArrayBuffer]
    after it. *)
Record chunk := { value : list byte; slack : list byte }.

Fixpoint read_loop (buf : list byte) (reads : list chunk) : list EventStreamMessage * outcome string unit :=
  match reads with
  | [] =>
      let '(ms, r) := frame_loop (S (length buf)) buf [] in
      (ms, outcome_bind r (fun buf =>
        if decide (0 < len buf) then Throw "eventstream: truncated message at end of stream" else Ok tt))
  | c :: reads =>
      let buf := buf ++ value c in
      match frame_loop (S (length buf)) buf (slack c) with
      | (ms, Throw e) => (ms, Throw e)
      | (ms, Ok buf) => let '(ms', r) := read_loop buf reads in (ms ++ ms', r)
      end
  end.

Definition decodeEventStream (reads : list chunk) : list EventStreamMessage * outcome string unit := read_loop [] reads.
End decoder.

Example crc_check : crc32 [x31; x32; x33; x34; x35; x36; x37; x38; x39] 0 = 0xcbf43926.
Proof. vm_compute. reflexivity. Qed.

Example iso_dates :
  (toISOString 0, toISOString 1709210096789, toISOString (-1), toISOString 8640000000000000, toISOString (-62198755200000)) =
  (Ok "1970-01-01T00:00:00.000Z", Ok "2024-02-29T12:34:56.789Z", Ok "1969-12-31T23:59:59.999Z",
   Ok "+275760-09-13T00:00:00.000Z", Ok "-000001-01-01T00:00:00.000Z").
Proof. vm_compute. reflexivity. Qed.

Example base64_padding : (base64 [x66], base64 [x66; x6f], base64 [x66; x6f; x6f; x62]) = ("Zg==", "Zm8=", "Zm9vYg==").
Proof. vm_compute. reflexivity. Qed.

(** ** Bytes *)

Lemma u8_bounds b : 0 <= u8 b < 256.
Proof. unfold u8. pose proof (Byte.to_N_bounded b). lia. Qed.

Lemma u8_inj a b : u8 a = u8 b -> a = b.
Proof.
  unfold u8. intros H. apply N2Z.inj in H. pose proof (Byte.of_to_N a) as Ha. rewrite H, Byte.of_to_N in Ha. congruence.
Qed.

Lemma be_app_from v bs : foldl (fun v b => 256 * v + u8 b) v bs = v * 256 ^ len bs + be bs.
Proof.
  unfold be, len. revert v. induction bs as [|b bs IH]; intros v; cbn [foldl length]; [cbn; lia|].
  rewrite IH, (IH (256 * 0 + u8 b)), Nat2Z.inj_succ, Z.pow_succ_r by lia. ring.
Qed.

Lemma be_app a b : be (a ++ b) = be a * 256 ^ len b + be b.
Proof. unfold be at 1. rewrite foldl_app. apply be_app_from. Qed.

Lemma len_app (a b : list byte) : len (a ++ b) = len a + len b.
Proof. unfold len. rewrite length_app. lia. Qed.

Lemma be_bounds bs : 0 <= be bs < 256 ^ len bs.
Proof.
  induction bs as [|b bs IH] using rev_ind; [done|]. rewrite be_app, len_app. pose proof (u8_bounds b).
  change (len [b]) with 1. replace (be [b]) with (u8 b) by done. rewrite Z.pow_add_r by (unfold len; lia). lia.
Qed.

Lemma be_inj a b : length a = length b -> be a = be b -> a = b.
Proof.
  revert b. induction a as [|x a IH] using rev_ind; intros b Hl He; [by destruct b|].
  destruct b as [|y b _] using rev_ind; [rewrite length_app in Hl; cbn in Hl; lia|].
  rewrite !length_app in Hl. cbn in Hl. rewrite !be_app in He. change (len [x]) with 1 in He. change (len [y]) with 1 in He.
  replace (be [x]) with (u8 x) in He by done. replace (be [y]) with (u8 y) in He by done.
  pose proof (u8_bounds x). pose proof (u8_bounds y). rewrite (IH b) by lia. by rewrite (u8_inj x y) by lia.
Qed.

(** ** CRC-32 is the division by its polynomial *)

(** One bit of the division, on the 32-bit remainder. *)
Definition crc_step (c : Z) : Z := Z.lxor (if Z.odd c then POLYNOMIAL else 0) (Z.shiftr c 1).

(** The checksum bit by bit. *)
Definition crc32_reference (bytes : list byte) : Z :=
  Z.lxor (foldl (fun c b => Nat.iter 8 crc_step (Z.lxor c (u8 b))) (2 ^ 32 - 1) bytes) (2 ^ 32 - 1).

Lemma to_uint32_bounds x : 0 <= to_uint32 x < 2 ^ 32.
Proof. apply Z.mod_pos_bound. lia. Qed.

Lemma to_uint32_idem x : to_uint32 (to_uint32 x) = to_uint32 x.
Proof. apply to_uint32_small, to_uint32_bounds. Qed.

Lemma lxor_bounds n x y : 0 <= n -> 0 <= x < 2 ^ n -> 0 <= y < 2 ^ n -> 0 <= Z.lxor x y < 2 ^ n.
Proof.
  intros Hn Hx Hy. assert (Z.lxor x y = Z.lxor x y mod 2 ^ n) as ->; [|by apply Z.mod_pos_bound; lia].
  rewrite <- Z.land_ones by done. apply Z.bits_inj'. intros m Hm. rewrite Z.land_spec, Z.lxor_spec.
  destruct (decide (m < n)); [by rewrite Z.ones_spec_low, andb_true_r by lia|].
  rewrite <- (Z.mod_small x (2 ^ n)), <- (Z.mod_small y (2 ^ n)), !Z.mod_pow2_bits_high by lia. done.
Qed.

Lemma crc_step_bounds c : 0 <= c < 2 ^ 32 -> 0 <= crc_step c < 2 ^ 32.
Proof.
  intros H. apply lxor_bounds; [lia|destruct (Z.odd c); unfold POLYNOMIAL; lia|]. rewrite Z.shiftr_div_pow2 by lia.
  split; [apply Z.div_pos; lia|apply Z.div_lt_upper_bound; lia].
Qed.

Lemma odd_uint32 x : Z.odd (to_uint32 x) = Z.odd x.
Proof. unfold to_uint32. rewrite <- !Z.bit0_odd. by apply Z.mod_pow2_bits_low. Qed.

Lemma crc_bit_step c : to_uint32 (crc_bit c) = crc_step (to_uint32 c).
Proof.
  unfold crc_bit, crc_step, js_ushr, js_and. change (to_int32 1) with (Z.ones 1). rewrite Z.land_ones by lia.
  rewrite odd_uint32. assert (Z.odd c = Z.odd (to_int32 c)) as -> by (by rewrite <- odd_uint32, <- to_uint32_int32, odd_uint32).
  change (2 ^ 1) with 2. rewrite Zmod_odd.
  assert (0 <= Z.shiftr (to_uint32 c) 1 < 2 ^ 32) as Hb.
  { pose proof (to_uint32_bounds c). rewrite Z.shiftr_div_pow2 by lia.
    split; [apply Z.div_pos; lia|apply Z.div_lt_upper_bound; lia]. }
  destruct (Z.odd (to_int32 c)); cbn [decide].
  - rewrite decide_False by lia. rewrite to_uint32_xor. by rewrite !to_uint32_small by (unfold POLYNOMIAL; lia).
  - rewrite decide_True by done. rewrite to_uint32_small by done. by rewrite Z.lxor_0_l.
Qed.

Lemma crc_bits_steps n c : to_uint32 (Nat.iter n crc_bit c) = Nat.iter n crc_step (to_uint32 c).
Proof. induction n as [|n IH]; [done|]. rewrite !Nat.iter_succ. by rewrite crc_bit_step, IH. Qed.

Lemma crc_steps_bounds n c : 0 <= c < 2 ^ 32 -> 0 <= Nat.iter n crc_step c < 2 ^ 32.
Proof. intros H. induction n as [|n IH]; [done|]. rewrite Nat.iter_succ. by apply crc_step_bounds. Qed.

Lemma crc_step_xor x y : crc_step (Z.lxor x y) = Z.lxor (crc_step x) (crc_step y).
Proof.
  unfold crc_step. rewrite Z.shiftr_lxor. assert (Z.odd (Z.lxor x y) = xorb (Z.odd x) (Z.odd y)) as ->
    by (rewrite <- !Z.bit0_odd; apply Z.lxor_spec).
  apply Z.bits_inj'. intros n Hn. rewrite !Z.lxor_spec.
  destruct (Z.odd x), (Z.odd y); cbn [xorb]; rewrite ?Z.bits_0;
    by destruct (Z.testbit POLYNOMIAL n), (Z.testbit (Z.shiftr x 1) n), (Z.testbit (Z.shiftr y 1) n).
Qed.

Lemma crc_steps_xor n x y : Nat.iter n crc_step (Z.lxor x y) = Z.lxor (Nat.iter n crc_step x) (Nat.iter n crc_step y).
Proof. induction n as [|n IH]; [done|]. rewrite !Nat.iter_succ. by rewrite IH, crc_step_xor. Qed.

Lemma crc_steps_shift n h : Nat.iter n crc_step (Z.shiftl h (Z.of_nat n)) = h.
Proof.
  revert h. induction n as [|n IH]; intros h; [apply Z.shiftl_0_r|].
  rewrite Nat.iter_succ_r, Nat2Z.inj_succ, <- Z.add_1_r, <- Z.shiftl_shiftl by lia.
  replace (crc_step (Z.shiftl (Z.shiftl h (Z.of_nat n)) 1)) with (Z.shiftl h (Z.of_nat n)); [apply IH|].
  unfold crc_step. rewrite Z.shiftr_shiftl_l by lia. rewrite <- Z.bit0_odd, Z.shiftl_spec_low by lia.
  by rewrite Z.shiftl_0_r, Z.lxor_0_l.
Qed.

Lemma crc_step_inj x y : 0 <= x < 2 ^ 32 -> 0 <= y < 2 ^ 32 -> crc_step x = crc_step y -> x = y.
Proof.
  intros Hx Hy E.
  assert (forall c, 0 <= c < 2 ^ 32 -> Z.testbit (crc_step c) 31 = Z.odd c) as Htop.
  { intros c Hc. unfold crc_step. rewrite Z.lxor_spec, Z.shiftr_spec by lia.
    replace (Z.testbit c (31 + 1)) with false.
    - rewrite xorb_false_r. by destruct (Z.odd c).
    - symmetry. rewrite <- (Z.mod_small c (2 ^ 32)) by done. apply Z.mod_pow2_bits_high. lia. }
  assert (Z.odd x = Z.odd y) as Eo by (by rewrite <- !Htop, E by done).
  assert (Z.shiftr x 1 = Z.shiftr y 1) as Es.
  { unfold crc_step in E. rewrite Eo in E. apply (f_equal (Z.lxor (if Z.odd y then POLYNOMIAL else 0))) in E.
    by rewrite <- !Z.lxor_assoc, !Z.lxor_nilpotent, !Z.lxor_0_l in E. }
  rewrite <- !Z.div2_spec in Es. rewrite (Zdiv2_odd_eqn x), (Zdiv2_odd_eqn y), Es, Eo. done.
Qed.

Lemma crc_steps_inj n x y :
  0 <= x < 2 ^ 32 -> 0 <= y < 2 ^ 32 -> Nat.iter n crc_step x = Nat.iter n crc_step y -> x = y.
Proof.
  intros Hx Hy. induction n as [|n IH]; [done|]. rewrite !Nat.iter_succ. intros E. apply IH, crc_step_inj; auto using crc_steps_bounds.
Qed.

Lemma mod_lxor n x y : 0 <= n -> Z.lxor x y mod 2 ^ n = Z.lxor (x mod 2 ^ n) (y mod 2 ^ n).
Proof.
  intros Hn. rewrite <- !Z.land_ones by done. apply Z.bits_inj'. intros m Hm. rewrite !Z.land_spec, !Z.lxor_spec, !Z.land_spec.
  by destruct (Z.testbit x m), (Z.testbit y m), (Z.testbit (Z.ones n) m).
Qed.

Lemma to_int32_mod256 x : to_int32 x mod 2 ^ 8 = x mod 2 ^ 8.
Proof.
  assert (forall y, to_uint32 y mod 2 ^ 8 = y mod 2 ^ 8) as H.
  { intros y. unfold to_uint32. replace (2 ^ 32) with (2 ^ 8 * 2 ^ 24) by done.
    rewrite Z.rem_mul_r by lia. rewrite Z.mul_comm, Z.mod_add, Z.mod_mod by lia. done. }
  by rewrite <- H, to_uint32_int32, H.
Qed.

Lemma crc_byte_spec c b :
  0 <= c < 2 ^ 32 -> crc_byte c b = Nat.iter 8 crc_step (Z.lxor c (u8 b)) /\ 0 <= crc_byte c b < 2 ^ 32.
Proof.
  intros Hc. pose proof (u8_bounds b) as Hb. split; [|apply to_uint32_bounds].
  unfold crc_byte. rewrite to_uint32_xor. set (x := Z.lxor c (u8 b)).
  assert (js_and (js_xor c (u8 b)) 0xff = x mod 2 ^ 8) as ->.
  { unfold js_and, js_xor. change (to_int32 0xff) with (Z.ones 8). rewrite Z.land_ones by lia.
    rewrite to_int32_mod256. unfold x. by rewrite !mod_lxor, !to_int32_mod256 by lia. }
  pose proof (Z.mod_pos_bound x (2 ^ 8) ltac:(lia)) as Hi.
  unfold CRC_TABLE. rewrite nth_lookup, list_lookup_fmap, lookup_seq_lt by lia. cbn [fmap option_fmap option_map default from_option]. unfold id.
  rewrite to_uint32_idem, crc_bits_steps, Nat.add_0_l, Z2Nat.id by lia.
  rewrite (to_uint32_small (x mod 2 ^ 8)) by lia. unfold js_ushr. rewrite (to_uint32_small c) by done.
  assert (0 <= Z.shiftr c 8 < 2 ^ 32) as Hs.
  { rewrite Z.shiftr_div_pow2 by lia. split; [apply Z.div_pos; lia|apply Z.div_lt_upper_bound; lia]. }
  rewrite (to_uint32_small (Z.shiftr c 8)) by done.
  assert (Z.shiftr c 8 = Z.shiftr x 8) as ->.
  { unfold x. rewrite Z.shiftr_lxor, (Z.shiftr_div_pow2 (u8 b)), (Z.div_small (u8 b)) by lia. by rewrite Z.lxor_0_r. }
  rewrite <- (crc_steps_shift 8 (Z.shiftr x 8)) at 1. rewrite <- crc_steps_xor. f_equal.
  apply Z.bits_inj'. intros m Hm. rewrite Z.lxor_spec. destruct (decide (m < 8)).
  - rewrite Z.mod_pow2_bits_low, Z.shiftl_spec_low by lia. apply xorb_false_r.
  - rewrite Z.mod_pow2_bits_high, Z.shiftl_spec, Z.shiftr_spec by lia. rewrite xorb_false_l. f_equal. lia.
Qed.

Lemma crc_bytes_spec bytes c :
  0 <= c < 2 ^ 32 ->
  foldl crc_byte c bytes = foldl (fun c b => Nat.iter 8 crc_step (Z.lxor c (u8 b))) c bytes /\
  0 <= foldl crc_byte c bytes < 2 ^ 32.
Proof.
  revert c. induction bytes as [|b bytes IH]; intros c Hc; [done|]. cbn [foldl].
  destruct (crc_byte_spec c b Hc) as [E Hb]. rewrite <- E. by apply IH.
Qed.

Lemma crc32_spec bytes : crc32 bytes 0 = crc32_reference bytes /\ 0 <= crc32 bytes 0 < 2 ^ 32.
Proof.
  split; [|apply to_uint32_bounds]. unfold crc32, crc32_reference. rewrite !to_uint32_xor.
  change (Z.lxor (to_uint32 0) (to_uint32 0xffffffff)) with (2 ^ 32 - 1). change (to_uint32 0xffffffff) with (2 ^ 32 - 1).
  destruct (crc_bytes_spec bytes (2 ^ 32 - 1)) as [E Hb]; [lia|]. by rewrite to_uint32_small, E by done.
Qed.

(** A single different byte changes the checksum. *)
Lemma crc_bytes_inj bytes c d :
  0 <= c < 2 ^ 32 -> 0 <= d < 2 ^ 32 -> foldl crc_byte c bytes = foldl crc_byte d bytes -> c = d.
Proof.
  revert c d. induction bytes as [|b bytes IH]; intros c d Hc Hd E; [done|]. cbn [foldl] in E.
  destruct (crc_byte_spec c b Hc) as [E1 B1], (crc_byte_spec d b Hd) as [E2 B2]. apply IH in E; [|done|done].
  rewrite E1, E2 in E. pose proof (u8_bounds b). apply crc_steps_inj in E; [|apply lxor_bounds; lia..].
  apply (f_equal (fun z => Z.lxor z (u8 b))) in E. by rewrite !Z.lxor_assoc, !Z.lxor_nilpotent, !Z.lxor_0_r in E.
Qed.

Lemma crc32_one_byte pre x y post : crc32 (pre ++ x :: post) 0 = crc32 (pre ++ y :: post) 0 -> x = y.
Proof.
  unfold crc32. rewrite !to_uint32_xor. intros E.
  apply (f_equal (fun z => Z.lxor z (to_uint32 0xffffffff))) in E.
  rewrite !Z.lxor_assoc, !Z.lxor_nilpotent, !Z.lxor_0_r, !foldl_app in E. cbn [foldl] in E.
  destruct (crc_bytes_spec pre (Z.lxor (to_uint32 0) (to_uint32 0xffffffff))) as [_ Hp].
  { change (0 <= 2 ^ 32 - 1 < 2 ^ 32). lia. }
  set (c := foldl crc_byte _ pre) in *. destruct (crc_byte_spec c x Hp) as [E1 B1], (crc_byte_spec c y Hp) as [E2 B2].
  rewrite !to_uint32_small in E by (apply crc_bytes_spec; done). apply crc_bytes_inj in E; [|done|done].
  rewrite E1, E2 in E. pose proof (u8_bounds x). pose proof (u8_bounds y). apply crc_steps_inj in E; [|apply lxor_bounds; lia..].
  apply (f_equal (Z.lxor c)) in E. rewrite <- !Z.lxor_assoc, !Z.lxor_nilpotent, !Z.lxor_0_l in E. by apply u8_inj.
Qed.
