(* ===== verification/AwsEventCodec.v ===== *)
(** * The event-stream format: an encoder, and what the decoder promises

    The format of the header comment of
    [packages/ai/src/providers/aws-eventstream.ts], written as an encoder over
    typed header values with the bitwise reference checksum.  The decoder of
    [AwsEventStream] inverts it however the stream is cut into chunks, decodes
    a stream the same way for every cut, and refuses a message with a changed
    byte. *)

From Stdlib Require Import Strings.Byte Ascii.
From S2P Require Import Prelude JsNumber AwsEventStream.

Local Open Scope string_scope.
Local Open Scope list_scope.
Local Open Scope Z_scope.

(** ** Big-endian bytes *)

Definition byte_of (v : Z) : byte := default x00 (Byte.of_N (Z.to_N v)).

Fixpoint be_bytes (n : nat) (v : Z) : list byte :=
  match n with O => [] | S n => be_bytes n (v / 256) ++ [byte_of (v mod 256)] end.

Lemma u8_byte_of v : 0 <= v < 256 -> u8 (byte_of v) = v.
Proof.
  intros H. unfold byte_of, u8. destruct (Byte.of_N (Z.to_N v)) as [b|] eqn:E.
  - apply Byte.to_of_N in E. cbn. lia.
  - exfalso. apply Byte.of_N_None_iff in E. lia.
Qed.

Lemma length_be_bytes n v : length (be_bytes n v) = n.
Proof. revert v. induction n as [|n IH]; intros v; [done|]. cbn [be_bytes]. rewrite length_app, IH. cbn. lia. Qed.

Lemma len_be_bytes n v : len (be_bytes n v) = Z.of_nat n.
Proof. unfold len. by rewrite length_be_bytes. Qed.

Lemma be_be_bytes n v : 0 <= v < 256 ^ Z.of_nat n -> be (be_bytes n v) = v.
Proof.
  revert v. induction n as [|n IH]; intros v H; [cbn in *; lia|]. cbn [be_bytes].
  rewrite Nat2Z.inj_succ, Z.pow_succ_r in H by lia. rewrite be_app. change (len [_]) with 1.
  rewrite IH by (split; [apply Z.div_pos; lia|apply Z.div_lt_upper_bound; lia]).
  unfold be. cbn [foldl]. pose proof (Z.mod_pos_bound v 256 ltac:(lia)). rewrite u8_byte_of by lia.
  pose proof (Z.div_mod v 256 ltac:(lia)). lia.
Qed.

(** The two's complement representation. *)
Definition unsigned (bits v : Z) : Z := v mod 2 ^ bits.

Lemma signed_unsigned bits v : 0 < bits -> - 2 ^ (bits - 1) <= v < 2 ^ (bits - 1) -> signed bits (unsigned bits v) = v.
Proof.
  intros Hb Hv. unfold signed, unsigned. assert (2 ^ bits = 2 * 2 ^ (bits - 1)) as E.
  { rewrite <- Z.pow_succ_r by lia. f_equal. lia. }
  destruct (decide (0 <= v)).
  - rewrite Z.mod_small by lia. case_decide; lia.
  - replace (v mod 2 ^ bits) with (v + 2 ^ bits); [case_decide; lia|].
    rewrite <- (Z.mod_add v 1) by lia. rewrite Z.mod_small by lia. lia.
Qed.

(** ** The format *)

Inductive typed_value :=
  | T_bool (b : bool)
  | T_byte (v : Z)
  | T_short (v : Z)
  | T_integer (v : Z)
  | T_long (v : Z)
  | T_bytes (bs : list byte)
  | T_string (bs : list byte)
  | T_timestamp (ms : Z)
  | T_uuid (bs : list byte).

Definition type_tag (v : typed_value) : Z :=
  match v with
  | T_bool b => if b then 0 else 1
  | T_byte _ => 2 | T_short _ => 3 | T_integer _ => 4 | T_long _ => 5
  | T_bytes _ => 6 | T_string _ => 7 | T_timestamp _ => 8 | T_uuid _ => 9
  end.

Definition encode_value (v : typed_value) : list byte :=
  match v with
  | T_bool _ => []
  | T_byte v => be_bytes 1 (unsigned 8 v)
  | T_short v => be_bytes 2 (unsigned 16 v)
  | T_integer v => be_bytes 4 (unsigned 32 v)
  | T_long v | T_timestamp v => be_bytes 8 (unsigned 64 v)
  | T_bytes bs | T_string bs => be_bytes 2 (len bs) ++ bs
  | T_uuid bs => bs
  end.

Definition encode_header (h : list byte * typed_value) : list byte :=
  byte_of (len h.1) :: h.1 ++ byte_of (type_tag h.2) :: encode_value h.2.

Record typed_message := { typed_headers : list (list byte * typed_value); body : list byte }.

Definition header_block (m : typed_message) : list byte := concat (encode_header <$> typed_headers m).

Definition total_length (m : typed_message) : Z := 16 + len (header_block m) + len (body m).

Definition prelude_bytes (m : typed_message) : list byte :=
  be_bytes 4 (total_length m) ++ be_bytes 4 (len (header_block m)).

Definition checked_bytes (m : typed_message) : list byte :=
  prelude_bytes m ++ be_bytes 4 (crc32_reference (prelude_bytes m)) ++ header_block m ++ body m.

Definition encode_message (m : typed_message) : list byte :=
  checked_bytes m ++ be_bytes 4 (crc32_reference (checked_bytes m)).

(** What the format can represent. *)
Definition value_ok (v : typed_value) : Prop :=
  match v with
  | T_bool _ => True
  | T_byte v => - 2 ^ 7 <= v < 2 ^ 7
  | T_short v => - 2 ^ 15 <= v < 2 ^ 15
  | T_integer v => - 2 ^ 31 <= v < 2 ^ 31
  | T_long v => - 2 ^ 63 <= v < 2 ^ 63
  | T_bytes bs | T_string bs => len bs < 65536
  | T_timestamp ms => Z.abs ms <= 8640000000000000
  | T_uuid bs => length bs = 16%nat
  end.

Definition message_ok (m : typed_message) : Prop :=
  Forall (fun h => len h.1 < 256 /\ value_ok h.2) (typed_headers m) /\ total_length m < 2 ^ 32.

Section decoded.
Context (decode_utf8 : list byte -> string).

(** The string that stands for a value. *)
Definition show_value (v : typed_value) : string :=
  match v with
  | T_bool b => if b then "true" else "false"
  | T_byte v | T_short v | T_integer v | T_long v => show_Z v
  | T_bytes bs => base64 bs
  | T_string bs => decode_utf8 bs
  | T_timestamp ms => match toISOString ms with Ok s => s | Throw _ => "" end
  | T_uuid bs =>
      hex (take 4 bs) +:+ "-" +:+ hex (slice bs 4 6) +:+ "-" +:+ hex (slice bs 6 8) +:+ "-" +:+ hex (slice bs 8 10)
        +:+ "-" +:+ hex (slice bs 10 16)
  end.

Definition decoded (m : typed_message) : EventStreamMessage :=
  {| headers := foldl (fun out h => set_header out (decode_utf8 h.1) (show_value h.2)) [] (typed_headers m);
     payload := body m |}.
End decoded.

(** ** Reading what was written *)

Lemma slice_middle {A} (p q r : list A) (s e : Z) :
  s = Z.of_nat (length p) -> e = Z.of_nat (length p) + Z.of_nat (length q) -> slice (p ++ q ++ r) s e = q.
Proof.
  intros -> ->. unfold slice. rewrite Nat2Z.id, drop_app_length. rewrite take_app_le by lia.
  rewrite take_ge by lia. done.
Qed.

Lemma get_uint_at n p q r o :
  length q = n -> o = len p -> get_uint n (p ++ q ++ r) o = Ok (be q).
Proof.
  intros Hq ->. unfold get_uint. rewrite decide_True by (rewrite !len_app; unfold len; lia).
  f_equal. f_equal. apply slice_middle; unfold len; lia.
Qed.

Lemma get_uint_be n p v r o :
  0 <= v < 256 ^ Z.of_nat n -> o = len p -> get_uint n (p ++ be_bytes n v ++ r) o = Ok v.
Proof. intros Hv ->. rewrite (get_uint_at n) by auto using length_be_bytes. by rewrite be_be_bytes. Qed.

Lemma get_uint_byte p v r o : 0 <= v < 256 -> o = len p -> get_uint 1 (p ++ byte_of v :: r) o = Ok v.
Proof.
  intros Hv ->. change (byte_of v :: r) with ([byte_of v] ++ r). rewrite (get_uint_at 1) by done.
  unfold be. cbn [foldl]. by rewrite u8_byte_of by done.
Qed.

Lemma unsigned_bounds bits v : 0 <= bits -> 0 <= unsigned bits v < 2 ^ bits.
Proof. intros H. apply Z.mod_pos_bound. lia. Qed.

Lemma get_int_be n p v r o :
  (0 < n)%nat -> - 2 ^ (8 * Z.of_nat n - 1) <= v < 2 ^ (8 * Z.of_nat n - 1) -> o = len p ->
  get_int n (p ++ be_bytes n (unsigned (8 * Z.of_nat n) v) ++ r) o = Ok v.
Proof.
  intros Hn Hv Ho. unfold get_int. rewrite get_uint_be; [|..|done]; cbn [outcome_bind].
  - by rewrite signed_unsigned by lia.
  - change 256 with (2 ^ 8). rewrite <- Z.pow_mul_r by lia. apply unsigned_bounds. lia.
Qed.

Lemma bigInt_be v : - 2 ^ 63 <= v < 2 ^ 63 -> bigIntFromBytes (be_bytes 8 (unsigned 64 v)) = v.
Proof.
  intros Hv. pose proof (unsigned_bounds 64 v ltac:(lia)) as Hu. unfold bigIntFromBytes.
  assert (be (be_bytes 8 (unsigned 64 v)) = unsigned 64 v) as E by (apply be_be_bytes; done).
  rewrite E, len_be_bytes. destruct (be_bytes 8 (unsigned 64 v)) as [|b bs] eqn:Eb;
    [by apply (f_equal length) in Eb; rewrite length_be_bytes in Eb|].
  apply (f_equal length) in Eb. rewrite length_be_bytes in Eb. cbn [length] in Eb.
  change (b :: bs) with ([b] ++ bs) in E. rewrite be_app in E. unfold be at 1 in E. cbn [foldl] in E.
  pose proof (be_bounds bs) as Hbs. replace (len bs) with 7 in * by (unfold len; lia). pose proof (u8_bounds b).
  change (u8 (default x00 (head (b :: bs)))) with (u8 b).
  pose proof (signed_unsigned 64 v ltac:(lia) Hv) as Hs. unfold signed in Hs.
  change (256 ^ 7) with (2 ^ 56) in *. change (64 - 1) with 63 in *. repeat case_decide; lia.
Qed.

(** The buffer is what is before the value, the value and what follows. *)
Lemma header_value_encode dec p v r beyond o :
  value_ok v -> o = len p ->
  header_value dec (p ++ encode_value v ++ r) beyond (type_tag v) o = Ok (show_value dec v, o + len (encode_value v)).
Proof.
  intros Hv ->. destruct v as [b|v|v|v|v|bs|bs|ms|bs]; cbn [encode_value type_tag value_ok] in *.
  - destruct b; cbn; by rewrite Z.add_0_r.
  - cbn [header_value]. change 8 with (8 * Z.of_nat 1) at 1. rewrite (get_int_be 1) by (done || lia). done.
  - cbn [header_value]. change 16 with (8 * Z.of_nat 2) at 1. rewrite (get_int_be 2) by (done || lia). done.
  - cbn [header_value]. change 32 with (8 * Z.of_nat 4) at 1. rewrite (get_int_be 4) by (done || lia). done.
  - cbn [header_value]. rewrite slice_middle by (rewrite ?length_be_bytes; unfold len; lia). by rewrite bigInt_be.
  - cbn [header_value]. rewrite <- !app_assoc, get_uint_be by (unfold len in *; cbn; lia). cbn [outcome_bind].
    replace (drop (Z.to_nat (len p + 2)) (p ++ be_bytes 2 (len bs) ++ bs ++ r)) with (bs ++ r).
    + rewrite decide_True by (rewrite !len_app; unfold len; lia). rewrite <- app_assoc. unfold len at 1.
      rewrite Nat2Z.id, take_app_length. rewrite len_app, len_be_bytes. do 2 f_equal. lia.
    + rewrite (app_assoc p), drop_app_length' by (rewrite length_app, length_be_bytes; unfold len; lia). done.
  - cbn [header_value]. rewrite <- !app_assoc, get_uint_be by (unfold len in *; cbn; lia). cbn [outcome_bind].
    rewrite (app_assoc p), slice_middle by (rewrite length_app, length_be_bytes; unfold len; lia).
    rewrite len_app, len_be_bytes. do 2 f_equal. lia.
  - cbn [header_value]. rewrite slice_middle by (rewrite ?length_be_bytes; unfold len; lia).
    rewrite bigInt_be by lia. unfold show_value, toISOString. rewrite decide_True by done.
    destruct (civil _) as [[y m] d]. done.
  - cbn [header_value]. rewrite slice_middle by (unfold len; lia). rewrite decide_True by done.
    unfold len. by rewrite Hv.
Qed.

Lemma header_loop_encode dec hs fuel p beyond out :
  Forall (fun h => len h.1 < 256 /\ value_ok h.2) hs -> (length (concat (encode_header <$> hs)) <= fuel)%nat ->
  header_loop dec fuel (p ++ concat (encode_header <$> hs)) beyond (len p) out =
  Ok (foldl (fun out h => set_header out (dec h.1) (show_value dec h.2)) out hs).
Proof.
  revert fuel p out. induction hs as [|[name v] hs IH]; intros fuel p out Hok Hfuel.
  - cbn [fmap list_fmap concat foldl]. rewrite app_nil_r. destruct fuel; cbn [header_loop]; by rewrite decide_False by lia.
  - inversion_clear Hok as [|? ? [Hn Hv] Hok']. rewrite fmap_cons in *. cbn [concat foldl fst snd] in *.
    set (tl := concat (encode_header <$> hs)) in *.
    assert (encode_header (name, v) ++ tl = byte_of (len name) :: name ++ byte_of (type_tag v) :: encode_value v ++ tl) as E.
    { unfold encode_header. cbn [fst snd app]. by rewrite <- app_assoc. }
    destruct fuel as [|fuel]; [rewrite E in Hfuel; cbn in Hfuel; lia|].
    rewrite E in *. cbn [header_loop]. rewrite decide_True by (rewrite len_app; unfold len; cbn; lia).
    rewrite get_uint_byte by (unfold len in *; lia). cbn [outcome_bind].
    change (p ++ byte_of (len name) :: name ++ ?l) with (p ++ [byte_of (len name)] ++ name ++ l). rewrite app_assoc.
    assert (len (p ++ [byte_of (len name)]) = len p + 1) as E1 by (rewrite len_app; done).
    rewrite slice_middle by (unfold len in *; lia).
    rewrite (app_assoc _ name), get_uint_byte; [|destruct v as [[]| | | | | | | |]; cbn; lia|rewrite (len_app _ name); lia].
    cbn [outcome_bind]. change (byte_of (type_tag v) :: ?l) with ([byte_of (type_tag v)] ++ l). rewrite app_assoc.
    rewrite header_value_encode by (done || rewrite !len_app; unfold len; cbn; lia). cbn [outcome_bind].
    rewrite (app_assoc _ (encode_value v)).
    replace (len p + 1 + len name + 1 + len (encode_value v))
      with (len ((((p ++ [byte_of (len name)]) ++ name) ++ [byte_of (type_tag v)]) ++ encode_value v))
      by (rewrite !len_app; unfold len; cbn; lia).
    apply IH; [done|]. cbn [length] in Hfuel. rewrite length_app in Hfuel. cbn [length] in Hfuel.
    rewrite length_app in Hfuel. lia.
Qed.

Lemma parseHeaders_encode dec hs beyond :
  Forall (fun h => len h.1 < 256 /\ value_ok h.2) hs ->
  parseHeaders dec (concat (encode_header <$> hs)) beyond =
  Ok (foldl (fun out h => set_header out (dec h.1) (show_value dec h.2)) [] hs).
Proof. intros H. by apply (header_loop_encode dec hs _ []). Qed.

Lemma len_prelude_bytes m : len (prelude_bytes m) = 8.
Proof. unfold prelude_bytes. by rewrite len_app, !len_be_bytes. Qed.

Lemma len_encode_message m : len (encode_message m) = total_length m.
Proof.
  unfold encode_message, checked_bytes, total_length. rewrite !len_app, !len_be_bytes, len_prelude_bytes. lia.
Qed.

Lemma crc32_reference_bounds bs : 0 <= crc32_reference bs < 256 ^ Z.of_nat 4.
Proof. destruct (crc32_spec bs) as [<- H]. exact H. Qed.

Lemma slice_prefix {A} (q r : list A) (e : Z) : e = Z.of_nat (length q) -> slice (q ++ r) 0 e = q.
Proof. intros ->. by apply (slice_middle [] q r). Qed.

Lemma total_length_min m : 16 <= total_length m.
Proof. unfold total_length, len. lia. Qed.

(** The decoder inverts the encoder, whatever follows the message. *)
Lemma decode_encode dec m beyond : message_ok m -> decodeMessage dec (encode_message m) beyond = Ok (decoded dec m).
Proof.
  intros [Hh Ht]. pose proof (total_length_min m) as Hmin. pose proof (len_encode_message m) as Hl.
  unfold decodeMessage. change MIN_MESSAGE_LEN with 16. change MESSAGE_CRC_LEN with 4. change PRELUDE_LEN with 8.
  change HEADER_BLOCK_OFFSET with 12. rewrite decide_False by lia.
  set (hb := header_block m) in *.
  assert (len hb + len (body m) + 16 = total_length m) as Et by (unfold total_length, hb; lia).
  assert (0 <= len hb /\ 0 <= len (body m)) as Hpos by (unfold len; lia).
  assert (encode_message m = [] ++ be_bytes 4 (total_length m) ++ be_bytes 4 (len hb)
    ++ be_bytes 4 (crc32_reference (prelude_bytes m)) ++ hb ++ body m ++ be_bytes 4 (crc32_reference (checked_bytes m))) as E1.
  { unfold encode_message. unfold checked_bytes at 1. unfold prelude_bytes at 1. by rewrite <- !app_assoc. }
  assert (get_uint 4 (encode_message m) 0 = Ok (total_length m)) as ->
    by (rewrite E1; apply get_uint_be; [cbn; lia|done]).
  cbn [outcome_bind]. rewrite decide_False by lia.
  assert (get_uint 4 (encode_message m) 4 = Ok (len hb)) as ->.
  { rewrite E1, (app_assoc []). apply get_uint_be; [cbn; lia|]. cbn [app]. by rewrite len_be_bytes. }
  cbn [outcome_bind].
  assert (encode_message m = prelude_bytes m ++ be_bytes 4 (crc32_reference (prelude_bytes m))
    ++ hb ++ body m ++ be_bytes 4 (crc32_reference (checked_bytes m))) as E2.
  { unfold encode_message. unfold checked_bytes at 1. by rewrite <- !app_assoc. }
  assert (get_uint 4 (encode_message m) 8 = Ok (crc32_reference (prelude_bytes m))) as ->.
  { rewrite E2. apply get_uint_be; [apply crc32_reference_bounds|by rewrite len_prelude_bytes]. }
  cbn [outcome_bind].
  assert (slice (encode_message m) 0 8 = prelude_bytes m) as ->.
  { rewrite E2. apply slice_prefix. pose proof (len_prelude_bytes m). unfold len in *. lia. }
  rewrite decide_False by (destruct (crc32_spec (prelude_bytes m)) as [-> _]; auto).
  assert (len (checked_bytes m) = total_length m - 4) as El.
  { rewrite <- len_encode_message. unfold encode_message. rewrite len_app, len_be_bytes. lia. }
  assert (get_uint 4 (encode_message m) (total_length m - 4) = Ok (crc32_reference (checked_bytes m))) as ->.
  { unfold encode_message. rewrite <- (app_nil_r (be_bytes 4 _)). apply get_uint_be; [apply crc32_reference_bounds|lia]. }
  cbn [outcome_bind].
  assert (slice (encode_message m) 0 (total_length m - 4) = checked_bytes m) as ->
    by (apply slice_prefix; unfold len in *; lia).
  rewrite decide_False by (destruct (crc32_spec (checked_bytes m)) as [-> _]; auto).
  set (crc := be_bytes 4 (crc32_reference (prelude_bytes m))) in *.
  assert (len (prelude_bytes m ++ crc) = 12) as Ep by (rewrite len_app, len_prelude_bytes; unfold crc; by rewrite len_be_bytes).
  rewrite E2. rewrite (app_assoc (prelude_bytes m) crc).
  rewrite (slice_middle (_ ++ crc) hb) by (unfold len in *; lia).
  unfold hb at 1, header_block. rewrite parseHeaders_encode by done. cbn [outcome_bind]. unfold decoded. do 2 f_equal.
  rewrite (app_assoc _ hb). apply slice_middle; rewrite length_app; unfold len in *; lia.
Qed.

(** ** Streams of encoded messages *)

Definition encode_stream (ms : list typed_message) : list byte := concat (encode_message <$> ms).

Lemma take_encode m rest : take (Z.to_nat (total_length m)) (encode_message m ++ rest) = encode_message m.
Proof. rewrite <- len_encode_message. unfold len. by rewrite Nat2Z.id, take_app_length. Qed.

Lemma drop_encode m rest : drop (Z.to_nat (total_length m)) (encode_message m ++ rest) = rest.
Proof. rewrite <- len_encode_message. unfold len. by rewrite Nat2Z.id, drop_app_length. Qed.

Lemma be_take_encode m rest : message_ok m -> be (take 4 (encode_message m ++ rest)) = total_length m.
Proof.
  intros [_ Ht]. pose proof (total_length_min m). unfold encode_message, checked_bytes, prelude_bytes. rewrite <- !app_assoc.
  rewrite take_app_length' by (by rewrite length_be_bytes). apply be_be_bytes. cbn. lia.
Qed.

(** The loop decodes the messages that are complete and keeps the beginning of
    the next one. *)
Lemma frame_loop_encode dec fuel buf sl more ms :
  Forall message_ok ms -> (length buf < fuel)%nat -> buf ++ more = encode_stream ms ->
  exists ms1 ms2 buf', ms = ms1 ++ ms2 /\ frame_loop dec fuel buf sl = (decoded dec <$> ms1, Ok buf') /\
    buf' ++ more = encode_stream ms2 /\ (more = [] -> buf' = []).
Proof.
  revert buf ms. induction fuel as [|fuel IH]; intros buf ms Hok Hfuel E; [lia|]. cbn [frame_loop].
  destruct ms as [|m ms].
  { unfold encode_stream in E. cbn in E. apply app_eq_nil in E as [-> ->].
    exists [], [], []. by rewrite decide_True by done. }
  inversion_clear Hok as [|? ? Hm Hms]. pose proof (total_length_min m) as Hmin.
  pose proof (len_encode_message m) as Hl. unfold encode_stream in E. rewrite fmap_cons in E. cbn [concat] in E.
  fold (encode_stream ms) in E. destruct (decide (len buf < total_length m)) as [Hs|Hs].
  - exists [], (m :: ms), buf. split; [done|]. split; [|split; [done|]].
    + case_decide; [done|]. assert (be (take 4 buf) = total_length m) as ->.
      { rewrite <- (take_app_le buf more) by (unfold len in *; lia). rewrite E. by apply be_take_encode. }
      change MIN_MESSAGE_LEN with 16. by rewrite decide_False, decide_True by lia.
    + intros ->. exfalso. rewrite app_nil_r in E. apply (f_equal len) in E. rewrite len_app in E. unfold len in *. lia.
  - assert (exists rest, buf = encode_message m ++ rest /\ rest ++ more = encode_stream ms) as (rest & -> & E').
    { apply app_eq_inv in E as [(k & -> & ->)|(k & E1 & E2)]; [by exists k|]. exists []. rewrite E1, len_app in *.
      assert (k = []) as -> by (destruct k; [done|unfold len in *; cbn in *; lia]). by rewrite !app_nil_r in *. }
    rewrite decide_False by (rewrite len_app in *; unfold len in *; lia).
    rewrite be_take_encode, take_encode, drop_encode by done. change MIN_MESSAGE_LEN with 16.
    rewrite decide_False, decide_False by (rewrite ?len_app; unfold len in *; lia).
    rewrite decode_encode by done.
    destruct (IH rest ms Hms) as (ms1 & ms2 & buf' & -> & E1 & E2 & E3); [|done|].
    { rewrite length_app in Hfuel. unfold len in Hl. lia. }
    rewrite E1. by exists (m :: ms1), ms2, buf'.
Qed.

Lemma read_loop_encode dec reads buf ms :
  Forall message_ok ms -> buf ++ concat (value <$> reads) = encode_stream ms ->
  read_loop dec buf reads = (decoded dec <$> ms, Ok tt).
Proof.
  revert buf ms. induction reads as [|c reads IH]; intros buf ms Hok E; cbn [read_loop].
  - destruct (frame_loop_encode dec (S (length buf)) buf [] [] ms Hok ltac:(lia) E)
      as (ms1 & ms2 & buf' & -> & -> & E2 & E3). rewrite (E3 eq_refl) in *.
    destruct ms2 as [|m ms2]; [by rewrite app_nil_r|]. exfalso. apply (f_equal len) in E2.
    unfold encode_stream in E2. rewrite fmap_cons in E2. cbn [concat] in E2. rewrite (len_app (encode_message m)), len_encode_message in E2.
    pose proof (total_length_min m). unfold len in E2. cbn in E2. lia.
  - rewrite fmap_cons in E. cbn [concat] in E. rewrite app_assoc in E.
    destruct (frame_loop_encode dec (S (length (buf ++ value c))) (buf ++ value c) (slack c) _ ms Hok ltac:(lia) E)
      as (ms1 & ms2 & buf' & -> & -> & E2 & _).
    apply Forall_app in Hok as [_ Hok]. rewrite (IH buf' ms2 Hok E2). by rewrite fmap_app.
Qed.

(** C36.  The messages encoded one after the other, cut into chunks anywhere
    (chunks that split a message, a length or a checksum, hold several
    messages, or are empty), are decoded into exactly those messages in order,
    with every typed header as its string and the payload untouched, and the
    stream ends without an error; the bytes that lie behind a chunk in its
    buffer do not matter. *)
Theorem event_stream_roundtrip (dec : list byte -> string) (ms : list typed_message) (reads : list chunk)
  (Hok : Forall message_ok ms) (Hcut : concat (value <$> reads) = encode_stream ms) :
  decodeEventStream dec reads = (decoded dec <$> ms, Ok tt).
Proof. exact (read_loop_encode dec reads [] ms Hok Hcut). Qed.

(** ** Cutting a stream into chunks *)

(** The frames of a stream, as their lengths delimit them. *)
Fixpoint frames (fuel : nat) (buf : list byte) : list (list byte) :=
  match fuel with
  | O => []
  | S fuel =>
      let total := be (take 4 buf) in
      if decide (4 <= len buf /\ 16 <= total <= len buf)
      then take (Z.to_nat total) buf :: frames fuel (drop (Z.to_nat total) buf)
      else []
  end.

(** No header of the stream reads past its header block. *)
Definition self_contained (dec : list byte -> string) (stream : list byte) : Prop :=
  Forall (fun f => forall b, decodeMessage dec f b = decodeMessage dec f []) (frames (S (length stream)) stream).

Lemma frames_fuel f1 f2 buf : (length buf < f1)%nat -> (length buf < f2)%nat -> frames f1 buf = frames f2 buf.
Proof.
  revert f2 buf. induction f1 as [|f1 IH]; intros f2 buf H1 H2; [lia|]. destruct f2 as [|f2]; [lia|]. cbn [frames].
  case_decide as Hd; [|done]. f_equal. apply IH; rewrite length_drop; unfold len in *; lia.
Qed.

Lemma frame_loop_fuel dec f1 f2 buf sl :
  (length buf < f1)%nat -> (length buf < f2)%nat -> frame_loop dec f1 buf sl = frame_loop dec f2 buf sl.
Proof.
  revert f2 buf. induction f1 as [|f1 IH]; intros f2 buf H1 H2; [lia|]. destruct f2 as [|f2]; [lia|].
  cbn [frame_loop]. change MIN_MESSAGE_LEN with 16. repeat (case_decide; [done|]). destruct (decodeMessage _ _ _); [|done].
  rewrite (IH f2); [done| |]; rewrite length_drop; unfold len in *; lia.
Qed.

(** All the frames of a buffer. *)
Definition decode_all (dec : list byte -> string) (buf : list byte) := frame_loop dec (S (length buf)) buf [].

Lemma decode_all_frame dec buf total :
  be (take 4 buf) = total -> 4 <= len buf -> 16 <= total <= len buf ->
  decode_all dec buf =
    match decodeMessage dec (take (Z.to_nat total) buf) (drop (Z.to_nat total) buf) with
    | Ok m => let '(ms, r) := decode_all dec (drop (Z.to_nat total) buf) in (m :: ms, r)
    | Throw e => ([], Throw e)
    end.
Proof.
  intros Et H4 H16. unfold decode_all at 1. cbn [frame_loop]. change MIN_MESSAGE_LEN with 16.
  rewrite Et, !decide_False, app_nil_r by lia. destruct (decodeMessage _ _ _); [|done].
  unfold decode_all. erewrite frame_loop_fuel; [done| |lia]. rewrite length_drop. unfold len in *. lia.
Qed.

Lemma self_contained_frame dec buf total :
  be (take 4 buf) = total -> 4 <= len buf -> 16 <= total <= len buf -> self_contained dec buf ->
  (forall b, decodeMessage dec (take (Z.to_nat total) buf) b = decodeMessage dec (take (Z.to_nat total) buf) []) /\
  self_contained dec (drop (Z.to_nat total) buf).
Proof.
  intros Et H4 H16 Hc. unfold self_contained in Hc. cbn [frames] in Hc. rewrite Et, decide_True in Hc by lia.
  inversion_clear Hc as [|? ? H1 H2]. split; [done|]. unfold self_contained. erewrite frames_fuel; [exact H2|lia|].
  rewrite length_drop. unfold len in *. lia.
Qed.

(** Decoding goes on from what a chunk left over. *)
Lemma frame_loop_app dec fuel buf sl more :
  (length buf < fuel)%nat -> self_contained dec (buf ++ more) ->
  decode_all dec (buf ++ more) =
    match frame_loop dec fuel buf sl with
    | (ms, Throw e) => (ms, Throw e)
    | (ms, Ok kept) => let '(ms', r) := decode_all dec (kept ++ more) in (ms ++ ms', r)
    end /\
  match frame_loop dec fuel buf sl with
  | (_, Throw _) => True
  | (_, Ok kept) => self_contained dec (kept ++ more)
  end.
Proof.
  assert (forall w : list EventStreamMessage * outcome string (list byte), w = let '(ms', r) := w in ([] ++ ms', r)) as Hid
    by (by intros [? ?]).
  revert buf. induction fuel as [|fuel IH]; intros buf Hf Hc; [lia|]. cbn [frame_loop].
  destruct (decide (len buf < 4)) as [H4|H4]; [split; [apply Hid|done]|].
  assert (len (buf ++ more) = len buf + len more /\ 0 <= len more) as [El Hm] by (rewrite len_app; unfold len; lia).
  assert (take 4 (buf ++ more) = take 4 buf) as E4 by (apply take_app_le; unfold len in *; lia).
  set (total := be (take 4 buf)) in *. change MIN_MESSAGE_LEN with 16.
  destruct (decide (total < 16)) as [H16|H16].
  { split; [|done]. unfold decode_all. cbn [frame_loop]. rewrite E4, decide_False by lia. by rewrite decide_True by done. }
  destruct (decide (len buf < total)) as [Ht|Ht]; [split; [apply Hid|done]|].
  assert (take (Z.to_nat total) (buf ++ more) = take (Z.to_nat total) buf) as Et
    by (apply take_app_le; unfold len in *; lia).
  assert (drop (Z.to_nat total) (buf ++ more) = drop (Z.to_nat total) buf ++ more) as Ed
    by (apply drop_app_le; unfold len in *; lia).
  assert (be (take 4 (buf ++ more)) = total) as Eb by (by rewrite E4).
  rewrite (decode_all_frame dec (buf ++ more) total Eb), Et, Ed by lia.
  destruct (self_contained_frame dec (buf ++ more) total Eb ltac:(lia) ltac:(lia) Hc) as [Hfst Hrest].
  rewrite Et in Hfst. rewrite Ed in Hrest. rewrite Hfst, (Hfst (_ ++ sl)).
  destruct (decodeMessage _ _ _) as [m|e]; [|done].
  destruct (IH (drop (Z.to_nat total) buf)) as [E1 E2]; [rewrite length_drop; unfold len in *; lia|done|].
  rewrite E1. destruct (frame_loop dec fuel _ sl) as [ms [kept|e]]; [|done].
  by destruct (decode_all dec (kept ++ more)).
Qed.

(** How a stream ends: an error of a frame, or bytes that are no whole frame. *)
Definition finish (w : list EventStreamMessage * outcome string (list byte)) : list EventStreamMessage * outcome string unit :=
  (w.1, outcome_bind w.2 (fun buf =>
    if decide (0 < len buf) then Throw "eventstream: truncated message at end of stream" else Ok tt)).

Lemma read_loop_all dec reads buf :
  self_contained dec (buf ++ concat (value <$> reads)) ->
  read_loop dec buf reads = finish (decode_all dec (buf ++ concat (value <$> reads))).
Proof.
  revert buf. induction reads as [|c reads IH]; intros buf Hc; cbn [read_loop].
  - cbn [fmap list_fmap concat]. rewrite app_nil_r. fold (decode_all dec buf). unfold finish.
    by destruct (decode_all dec buf).
  - rewrite fmap_cons in *. cbn [concat] in *. rewrite app_assoc in *.
    destruct (frame_loop_app dec (S (length (buf ++ value c))) (buf ++ value c) (slack c) _ ltac:(lia) Hc) as [-> Hk].
    destruct (frame_loop dec _ _ (slack c)) as [ms [kept|e]]; [|done]. rewrite IH by done.
    by destruct (decode_all dec (kept ++ _)).
Qed.

(** How a stream is cut into chunks does not matter: every cut gives the
    messages and the end (the normal end, the same error of a corrupt frame
    after the same messages, or the truncation error) that the whole stream
    gives when it arrives as one chunk, as long as no byte-array header of the
    stream reads past its own frame. *)
Theorem event_stream_chunking (dec : list byte -> string) (reads : list chunk)
  (Hc : self_contained dec (concat (value <$> reads))) :
  decodeEventStream dec reads = decodeEventStream dec [{| value := concat (value <$> reads); slack := [] |}].
Proof.
  unfold decodeEventStream. rewrite !(read_loop_all dec) by (cbn [fmap list_fmap concat value app]; rewrite ?app_nil_r; done).
  cbn [fmap list_fmap concat value app]. by rewrite app_nil_r.
Qed.

(** ** Corruption *)

Lemma decode_ok_checksum dec f beyond m :
  decodeMessage dec f beyond = Ok m ->
  16 <= len f /\ crc32 (take (length f - 4) f) 0 = be (drop (length f - 4) f).
Proof.
  unfold decodeMessage. change MIN_MESSAGE_LEN with 16. change MESSAGE_CRC_LEN with 4.
  case_decide as H16; [done|]. destruct (get_uint 4 f 0) as [total|]; cbn [outcome_bind]; [|done].
  case_decide as Ht; [done|]. subst total.
  destruct (get_uint 4 f 4); cbn [outcome_bind]; [|done]. destruct (get_uint 4 f 8); cbn [outcome_bind]; [|done].
  case_decide; [done|]. unfold get_uint. rewrite decide_True by lia. cbn [outcome_bind].
  case_decide as Hc; [done|]. intros _. split; [lia|].
  unfold slice in Hc. replace (Z.to_nat (len f - 4)) with (length f - 4)%nat in Hc by (unfold len; lia).
  replace (Z.to_nat (len f - 4 + Z.of_nat 4)) with (length f) in Hc by (unfold len; lia). change (Z.to_nat 0) with 0%nat in Hc.
  rewrite Nat.sub_0_r, drop_0 in Hc. rewrite Hc. f_equal. apply take_ge. rewrite length_drop. lia.
Qed.

(** A message that the decoder accepts is refused once any one of its
    bytes has another value, wherever the byte is: in the lengths, the
    checksums, the headers or the payload. *)
Theorem corruption_detected (dec : list byte -> string) (pre post : list byte) (x y : byte) (b b' : list byte) (m : EventStreamMessage)
  (Hxy : x <> y) (Hok : decodeMessage dec (pre ++ x :: post) b = Ok m) :
  exists e, decodeMessage dec (pre ++ y :: post) b' = Throw e.
Proof.
  destruct (decodeMessage dec (pre ++ y :: post) b') as [m'|e] eqn:E; [|by eauto]. exfalso. apply Hxy.
  apply decode_ok_checksum in Hok as [Hl Hx], E as [_ Hy].
  assert (length (pre ++ y :: post) = length (pre ++ x :: post)) as El by (rewrite !length_app; done).
  rewrite El in Hy. rewrite length_app in *. cbn [length] in *. unfold len in Hl. rewrite length_app in Hl. cbn [length] in Hl.
  set (n := (length pre + S (length post) - 4)%nat) in *. destruct (decide (n <= length pre)%nat) as [Hn|Hn].
  - rewrite !take_app_le in Hx, Hy by done. rewrite Hy in Hx. apply be_inj in Hx.
    + rewrite !drop_app_le in Hx by done. apply app_inj_1 in Hx as [_ [= Hx]]; [done|done].
    + rewrite !length_drop, !length_app. done.
  - replace n with (length pre + S (n - length pre - 1))%nat in * by lia.
    rewrite !take_app_add, !drop_app_add in *. cbn [take drop] in *. rewrite <- Hy in Hx. by apply crc32_one_byte in Hx.
Qed.

(** ** Examples *)

Definition ascii_bytes (s : string) : list byte := String.list_byte_of_string s.

Definition sample_message : typed_message :=
  {| typed_headers := [(ascii_bytes ":event-type", T_string (ascii_bytes "chunk")); (ascii_bytes "n", T_long (-2));
       (ascii_bytes "raw", T_bytes [x66; x6f; x6f]); (ascii_bytes "at", T_timestamp 1709210096789); (ascii_bytes "last", T_bool false)];
     body := ascii_bytes "{}" |}.

Definition empty_message : typed_message := {| typed_headers := []; body := [] |}.

Lemma sample_messages_ok : Forall message_ok [sample_message; empty_message].
Proof. repeat constructor; vm_compute; intuition discriminate. Qed.

(** The stream of the two messages in three chunks, the second of which ends
    inside the length of the second message. *)
Definition sample_reads : list chunk :=
  let s := encode_stream [sample_message; empty_message] in
  let n := length (encode_message sample_message) in
  [{| value := take 7 s; slack := [x00] |}; {| value := take (n - 5) (drop 7 s); slack := [] |};
   {| value := drop (n + 2) s; slack := [xff] |}].

Example sample_decoded :
  decodeEventStream String.string_of_list_byte sample_reads =
  ([{| headers := [(":event-type", "chunk"); ("n", "-2"); ("raw", "Zm9v"); ("at", "2024-02-29T12:34:56.789Z"); ("last", "false")];
       payload := ascii_bytes "{}" |}; {| headers := []; payload := [] |}], Ok tt).
Proof. vm_compute. reflexivity. Qed.

Lemma event_stream_roundtrip_witness :
  decodeEventStream String.string_of_list_byte sample_reads =
  (decoded String.string_of_list_byte <$> [sample_message; empty_message], Ok tt).
Proof. apply event_stream_roundtrip; [apply sample_messages_ok|vm_compute; reflexivity]. Defined.

(** A valid message and the beginning of another one: the same message and the
    same error for this cut and in one piece. *)
Lemma event_stream_chunking_witness :
  let reads := [{| value := take 15 (encode_message empty_message); slack := [] |};
                {| value := drop 15 (encode_message empty_message) ++ [x00; x00; x00]; slack := [] |}] in
  decodeEventStream String.string_of_list_byte reads =
    decodeEventStream String.string_of_list_byte [{| value := concat (value <$> reads); slack := [] |}] /\
  decodeEventStream String.string_of_list_byte reads =
    ([{| headers := []; payload := [] |}], Throw "eventstream: truncated message at end of stream").
Proof.
  split; [|vm_compute; reflexivity]. apply event_stream_chunking. unfold self_contained.
  replace (frames _ _) with [encode_message empty_message] by (vm_compute; reflexivity).
  constructor; [|constructor]. intros b. vm_compute. reflexivity.
Defined.

Lemma corruption_detected_witness :
  exists e, decodeMessage String.string_of_list_byte ([] ++ x80 :: drop 1 (encode_message sample_message)) [] = Throw e.
Proof.
  eapply (corruption_detected String.string_of_list_byte [] (drop 1 (encode_message sample_message)) x00 x80 []); [discriminate|].
  vm_compute. reflexivity.
Defined.

(** A byte-array header of 4 bytes that declares 6: it shows two bytes of the
    message checksum, and with a length that passes the end of the message what
    it shows, or whether it is accepted, depends on what the buffer holds. *)
Definition overrunning_message (declared : Z) : list byte :=
  let hb := byte_of 1 :: x62 :: byte_of 6 :: be_bytes 2 declared ++ [x01; x02; x03; x04] in
  let prelude := be_bytes 4 (16 + len hb) ++ be_bytes 4 (len hb) in
  let checked := prelude ++ be_bytes 4 (crc32_reference prelude) ++ hb in
  checked ++ be_bytes 4 (crc32_reference checked).

Example byte_array_overruns :
  ((fun m => headers m) <$> match decodeMessage String.string_of_list_byte (overrunning_message 6) [] with Ok m => Some m | Throw _ => None end)
    = Some [("b", "AQIDBL69")] /\
  decodeMessage String.string_of_list_byte (overrunning_message 9) [] = Throw "length is outside of buffer bounds" /\
  decodeMessage String.string_of_list_byte (overrunning_message 9) [x2a] =
    Ok {| headers := [("b", base64 ([x01; x02; x03; x04] ++ drop 21 (overrunning_message 9) ++ [x2a]))]; payload := [] |}.
Proof. vm_compute. split_and!; reflexivity. Qed.
