(* ===== verification/JsonClone.v ===== *)
(** * JSON copies of live values ([cloneJson] of [agent/src/append-only-context.ts])

    Values with functions in them, the text [JSON.stringify] gives them, and
    the copy that is to have the same text.  The fields of an object are its
    own properties in their order; its [toJSON] is the method of that name it
    has or inherits, as a function of the key it is called with.  A [bigint],
    which [JSON.stringify] refuses, is not a value here. *)

From Stdlib Require Import Ascii SpecFloat.
From S2P Require Import Prelude JsNumber JsValue.

Local Open Scope string_scope.
Local Open Scope list_scope.
Local Open Scope Z_scope.

Inductive value :=
| V_undefined
| V_null
| V_bool (b : bool)
| V_num (x : number)
| V_str (s : string)
| V_fun
| V_arr (items : list (option value))
| V_obj (fields : list (string * value)) (toJSON : option (string -> value)).

(** The holes of an array are [None]. *)
Definition V_list (l : list value) : value := V_arr (Some <$> l).

Definition is_undefined (v : value) : bool := match v with V_undefined => true | _ => false end.

(** [item === undefined ? null : item] *)
Definition or_null (v : value) : value := if is_undefined v then V_null else v.

(** [cloned[key] = v] on a plain object: the prototype is set by another name
    than an own property. *)
Definition set_property (fs : list (string * value)) (k : string) (v : value) : list (string * value) :=
  if decide (k = "__proto__") then fs else map_set fs k v.

(** ** Walking arrays and objects *)

(** The elements with their index as a key; a hole has a value of its own. *)
Definition on_items {B} (f : string -> value -> B) (hole : B) : Z -> list (option value) -> list B :=
  fix go i items :=
    match items with
    | [] => []
    | o :: items => (match o with Some v => f (show_Z i) v | None => hole end) :: go (i + 1) items
    end.

Definition clone_fields (clone : string -> value -> value)
    : list (string * value) -> list (string * value) -> list (string * value) :=
  fix go out fields :=
    match fields with
    | [] => out
    | (k, v) :: fields =>
        let c := clone k v in
        go (if is_undefined c then out else set_property out k c) fields
    end.

Fixpoint cloneJsonValue (v : value) (key : string) (applyToJson : bool) {struct v} : value :=
  match v with
  | V_undefined | V_fun => V_undefined
  | V_null => V_null
  | V_num x => if is_finite x then v else V_null
  | V_bool _ | V_str _ => v
  | V_arr items => V_arr (on_items (fun k v => Some (or_null (cloneJsonValue v k true))) (Some V_null) 0 items)
  | V_obj fields toJSON =>
      let plain := V_obj (clone_fields (fun k v => cloneJsonValue v k true) [] fields) None in
      match toJSON with
      | Some f => if applyToJson then cloneJsonValue (f key) key false else plain
      | None => plain
      end
  end.

Definition cloneJson (v : value) : value := cloneJsonValue v "" true.

(** ** The language's [JSON.stringify] *)

Definition text_fields (text : string -> value -> option string) : list (string * value) -> list string :=
  fix go fields :=
    match fields with
    | [] => []
    | (k, v) :: fields => match text k v with Some t => (quote k +:+ ":" +:+ t) :: go fields | None => go fields end
    end.

(** [SerializeJSONProperty]; what has no text is [None]. *)
Fixpoint serialize (v : value) (key : string) (applyToJson : bool) {struct v} : option string :=
  match v with
  | V_undefined | V_fun => None
  | V_null => Some "null"
  | V_bool b => Some (if b then "true" else "false")
  | V_num x => Some (if is_finite x then num_to_string x else "null")
  | V_str s => Some (quote s)
  | V_arr items => Some ("[" +:+ join "," (on_items (fun k v => default "null" (serialize v k true)) "null" 0 items) +:+ "]")
  | V_obj fields toJSON =>
      let plain := Some ("{" +:+ join "," (text_fields (fun k v => serialize v k true) fields) +:+ "}") in
      match toJSON with
      | Some f => if applyToJson then serialize (f key) key false else plain
      | None => plain
      end
  end.

Definition json_stringify (v : value) : option string := serialize v "" true.

(** Induction with the hypotheses of the elements. *)
Section value_ind.
Context (P : value -> Prop).
Context (Hundefined : P V_undefined) (Hnull : P V_null) (Hbool : forall b, P (V_bool b)) (Hnum : forall x, P (V_num x)).
Context (Hstr : forall s, P (V_str s)) (Hfun : P V_fun).
Context (Harr : forall items, Forall (fun o => match o with Some v => P v | None => True end) items -> P (V_arr items)).
Context (Hobj : forall fields toJSON, Forall (fun p => P p.2) fields ->
                match toJSON with Some f => forall k, P (f k) | None => True end -> P (V_obj fields toJSON)).

Fixpoint value_nested_ind (v : value) : P v :=
  match v with
  | V_undefined => Hundefined
  | V_null => Hnull
  | V_bool b => Hbool b
  | V_num x => Hnum x
  | V_str s => Hstr s
  | V_fun => Hfun
  | V_arr items =>
      Harr items ((fix go items : Forall (fun o => match o with Some v => P v | None => True end) items :=
        match items with
        | [] => List.Forall_nil _
        | o :: items =>
            List.Forall_cons _ _ _ (match o return (match o with Some v => P v | None => True end) with
              | Some v => value_nested_ind v | None => I end) (go items)
        end) items)
  | V_obj fields toJSON =>
      Hobj fields toJSON
        ((fix go fields : Forall (fun p => P p.2) fields :=
          match fields with
          | [] => List.Forall_nil _
          | p :: fields => List.Forall_cons _ _ _ (value_nested_ind p.2) (go fields)
          end) fields)
        (match toJSON return (match toJSON with Some f => forall k, P (f k) | None => True end) with
         | Some f => fun k => value_nested_ind (f k) | None => I end)
  end.
End value_ind.

(** What the language guarantees of objects, and no property that is named
    like the prototype. *)
Inductive well_formed : value -> Prop :=
| W_undefined : well_formed V_undefined
| W_null : well_formed V_null
| W_bool b : well_formed (V_bool b)
| W_num x : well_formed (V_num x)
| W_str s : well_formed (V_str s)
| W_fun : well_formed V_fun
| W_arr items : (forall i v, items !! i = Some (Some v) -> well_formed v) -> well_formed (V_arr items)
| W_obj fields toJSON :
    NoDup fields.*1 -> "__proto__" ∉ fields.*1 -> (forall k v, (k, v) ∈ fields -> well_formed v) ->
    (forall f k, toJSON = Some f -> well_formed (f k)) -> well_formed (V_obj fields toJSON).

(** JSON data: what a copy consists of. *)
Inductive json_data : value -> Prop :=
| D_null : json_data V_null
| D_bool b : json_data (V_bool b)
| D_num x : is_finite x = true -> json_data (V_num x)
| D_str s : json_data (V_str s)
| D_list l : (forall v, v ∈ l -> json_data v) -> json_data (V_list l)
| D_obj fields :
    NoDup fields.*1 -> "__proto__" ∉ fields.*1 -> (forall k v, (k, v) ∈ fields -> json_data v) ->
    json_data (V_obj fields None).

(** ** Copies *)

Lemma on_items_ext {B C} (f : string -> value -> B) (g : string -> value -> C) (h : B -> C) hole hole' i items :
  h hole = hole' -> (forall j v k, items !! j = Some (Some v) -> h (f k v) = g k v) ->
  h <$> on_items f hole i items = on_items g hole' i items.
Proof.
  intros Hh. revert i. induction items as [|o items IH]; intros i H; [done|]. cbn [on_items fmap list_fmap].
  f_equal; [destruct o as [v|]; [by apply (H O)|done]|]. apply IH. intros j v k Hj. by apply (H (S j)).
Qed.

Lemma on_items_list {B} (f : string -> value -> B) hole i l :
  on_items f hole i (Some <$> l) = imap (fun j v => f (show_Z (i + Z.of_nat j)) v) l.
Proof.
  revert i. induction l as [|v l IH]; intros i; [done|]. cbn [fmap list_fmap on_items imap]. rewrite Z.add_0_r. f_equal.
  rewrite IH. apply imap_ext. intros j x _. cbn [compose]. do 2 f_equal. lia.
Qed.

(** The properties that are copied, in their order. *)
Definition cloned_fields (clone : string -> value -> value) (fields : list (string * value)) : list (string * value) :=
  filter (fun p => is_undefined p.2 = false) ((fun p => (p.1, clone p.1 p.2)) <$> fields).

Lemma cloned_fields_keys clone fields k : k ∈ (cloned_fields clone fields).*1 -> k ∈ fields.*1.
Proof.
  intros (p & -> & Hp)%list_elem_of_fmap. apply list_elem_of_filter in Hp as [_ (q & -> & Hq)%list_elem_of_fmap].
  apply list_elem_of_fmap. by exists q.
Qed.

Lemma clone_fields_spec clone out fields :
  NoDup (out.*1 ++ fields.*1) -> "__proto__" ∉ fields.*1 ->
  clone_fields clone out fields = out ++ cloned_fields clone fields.
Proof.
  revert out. induction fields as [|[k v] fields IH]; intros out Hn Hp; [symmetry; apply app_nil_r|].
  cbn [clone_fields]. rewrite fmap_cons in Hn, Hp. apply not_elem_of_cons in Hp as [Hk Hp]. cbn [fst] in Hk.
  unfold cloned_fields. rewrite fmap_cons, filter_cons. cbn [fst snd]. destruct (is_undefined (clone k v)).
  - rewrite decide_False by done. rewrite IH; [done| |done]. apply NoDup_app in Hn as (H1 & H2 & H3).
    apply NoDup_cons in H3 as [_ H3]. apply NoDup_app. split_and!; try done. intros x Hx. specialize (H2 x Hx). set_solver.
  - rewrite decide_True by done. unfold set_property. rewrite decide_False by congruence.
    assert (k ∉ out.*1) as Hko.
    { apply NoDup_app in Hn as (_ & H2 & _). intros Hx. apply (H2 k Hx). cbn. set_solver. }
    rewrite map_set_fresh by done. rewrite IH, <- app_assoc; [done| |done].
    rewrite fmap_app, <- app_assoc. exact Hn.
Qed.

Lemma clone_fields_nil clone fields :
  NoDup fields.*1 -> "__proto__" ∉ fields.*1 -> clone_fields clone [] fields = cloned_fields clone fields.
Proof. intros Hn Hp. by rewrite clone_fields_spec. Qed.

Lemma cloned_fields_NoDup clone fields : NoDup fields.*1 -> NoDup (cloned_fields clone fields).*1.
Proof.
  unfold cloned_fields. induction fields as [|[k v] fields IH]; intros Hn; [done|]. rewrite fmap_cons in Hn.
  apply NoDup_cons in Hn as [Hk Hn]. rewrite fmap_cons, filter_cons. cbn [fst snd]. case_decide; [|by apply IH].
  rewrite fmap_cons. apply NoDup_cons. split; [|by apply IH]. intros Hx. by apply (cloned_fields_keys clone) in Hx.
Qed.

(** A copy has no [toJSON], so its text does not depend on where it is. *)
Lemma clone_plain v key b k' c :
  serialize (cloneJsonValue v key b) k' c = serialize (cloneJsonValue v key b) "" true.
Proof.
  revert key b k' c. induction v as [| |bo|x|st| |items _|fields toJSON _ IHf] using value_nested_ind; intros key b k' c; try done.
  - cbn [cloneJsonValue]. by destruct (is_finite x).
  - cbn [cloneJsonValue]. destruct toJSON as [f|]; [|done]. destruct b; [|done]. apply IHf.
Qed.

(** Fields that have no text are the fields that are not copied. *)
Lemma text_fields_cloned clone text fields :
  (forall k v, (k, v) ∈ fields -> text k (clone k v) = text k v /\ (is_undefined (clone k v) = true <-> text k v = None)) ->
  text_fields text (cloned_fields clone fields) = text_fields text fields.
Proof.
  unfold cloned_fields. induction fields as [|[k v] fields IH]; intros H; [done|].
  destruct (H k v) as [E Hu]; [by left|]. assert (IH' := IH (fun k v Hkv => H k v (list_elem_of_further _ _ _ Hkv))).
  rewrite fmap_cons, filter_cons. cbn [fst snd]. case_decide as Hd.
  - cbn [text_fields]. by rewrite E, IH'.
  - cbn [text_fields]. rewrite IH'. replace (text k v) with (@None string); [done|]. symmetry. apply Hu.
    by destruct (is_undefined (clone k v)).
Qed.

Lemma clone_undefined v key b :
  is_undefined (cloneJsonValue v key b) = true <-> serialize v key b = None.
Proof.
  revert key b. induction v as [| |bo|x|st| |items _|fields toJSON _ IHf] using value_nested_ind; intros key b; try done.
  - cbn [cloneJsonValue serialize]. by destruct (is_finite x).
  - cbn [cloneJsonValue serialize]. destruct toJSON as [f|]; [|done]. destruct b; [|done]. apply IHf.
Qed.

Lemma or_null_text v text : default "null" (serialize v text true) = default "null" (serialize (or_null v) text true).
Proof. by destruct v. Qed.

Lemma clone_text v : well_formed v -> forall key b, serialize (cloneJsonValue v key b) key b = serialize v key b.
Proof.
  induction v as [| |bo|x|st| |items IH|fields toJSON IH IHf] using value_nested_ind; intros Hw key b; try done.
  - cbn [cloneJsonValue]. by destruct (is_finite x) eqn:E; cbn [serialize]; rewrite ?E.
  - inversion_clear Hw as [| | | | | |? Hi|]. cbn [cloneJsonValue serialize]. do 4 f_equal. generalize 0. intros i.
    revert i. induction items as [|o items IHl]; intros i; [done|]. inversion_clear IH as [|? ? Ho IH'].
    cbn [on_items]. f_equal.
    + destruct o as [v|]; [|done]. rewrite <- or_null_text. by rewrite Ho by (by apply (Hi O)).
    + apply IHl; [done|]. intros j v Hj. by apply (Hi (S j)).
  - inversion_clear Hw as [| | | | | | |? ? Hn Hp Hf Ht]. rewrite Forall_forall in IH.
    assert (serialize (V_obj (clone_fields (fun k v => cloneJsonValue v k true) [] fields) None) key b
      = serialize (V_obj fields None) key b) as Hplain.
    { cbn [serialize]. rewrite clone_fields_nil by done. do 4 f_equal.
      apply (text_fields_cloned (fun k v => cloneJsonValue v k true) (fun k v => serialize v k true)).
      intros k v Hkv. split; [|apply clone_undefined]. by apply (IH (k, v) Hkv), (Hf k). }
    cbn [cloneJsonValue]. destruct toJSON as [f|]; [|exact Hplain]. destruct b; [|exact Hplain].
    cbn [serialize]. rewrite clone_plain. rewrite <- (IHf key (Ht f key eq_refl)). by rewrite (clone_plain (f key) key false key false).
Qed.

(** ** Data is its own copy *)

Lemma is_undefined_data v : json_data v -> is_undefined v = false.
Proof. by inversion 1. Qed.

Lemma clone_data v : json_data v -> forall key b, cloneJsonValue v key b = v.
Proof.
  induction v as [| |bo|x|st| |items IH|fields toJSON IH _] using value_nested_ind; intros Hd key b; try done; try (by inversion Hd).
  - inversion_clear Hd as [| |? E| | |]. cbn [cloneJsonValue]. by rewrite E.
  - inversion Hd as [| | | |l Hl Ei|]. subst items. clear Hd. cbn [cloneJsonValue]. unfold V_list. f_equal. rewrite on_items_list.
    generalize 0. induction l as [|v l IHl]; intros i; [done|]. inversion_clear IH as [|? ? Hv IH']. cbn [imap fmap list_fmap]. f_equal.
    + assert (json_data v) as Hdv by (apply Hl; set_solver). rewrite Hv by done. unfold or_null. by rewrite is_undefined_data.
    + rewrite <- (IHl IH' ltac:(intros w Hw; apply Hl; set_solver) (i + 1)). apply imap_ext. intros j x _.
      cbn [compose]. do 4 f_equal. lia.
  - inversion_clear Hd as [| | | | |? Hn Hp Hf]. cbn [cloneJsonValue]. f_equal. rewrite clone_fields_nil by done.
    clear Hn Hp. unfold cloned_fields. induction fields as [|[k v] fields IHl]; [done|].
    inversion_clear IH as [|? ? Hv IH']. rewrite fmap_cons, filter_cons. cbn [fst snd] in *.
    assert (json_data v) as Hdv by (apply (Hf k); set_solver). rewrite Hv by done. rewrite is_undefined_data by done.
    rewrite decide_True by done. f_equal. apply IHl; [done|]. intros k' v' Hv'. apply (Hf k'). set_solver.
Qed.

Lemma clone_is_data v : well_formed v -> forall key b, is_undefined (cloneJsonValue v key b) = false -> json_data (cloneJsonValue v key b).
Proof.
  induction v as [| |bo|x|st| |items IH|fields toJSON IH IHf] using value_nested_ind; intros Hw key b Hu; try done; try constructor.
  - cbn [cloneJsonValue]. destruct (is_finite x) eqn:E; by constructor.
  - inversion_clear Hw as [| | | | | |? Hi|]. cbn [cloneJsonValue].
    assert (exists l, on_items (fun k v => Some (or_null (cloneJsonValue v k true))) (Some V_null) 0 items = Some <$> l /\
      forall v, v ∈ l -> json_data v) as (l & -> & Hl); [|by constructor].
    generalize 0. clear key b Hu. induction items as [|o items IHl]; intros i; [exists []; split; [done|]; intros w Hw; by apply elem_of_nil in Hw|].
    inversion_clear IH as [|? ? Ho IH'].
    destruct (IHl IH' (fun j v Hj => Hi (S j) v Hj) (i + 1)) as (l & E & Hl). cbn [on_items]. rewrite E.
    destruct o as [v|].
    + exists (or_null (cloneJsonValue v (show_Z i) true) :: l). split; [done|]. intros w [->|Hw]%elem_of_cons; [|by apply Hl].
      unfold or_null. destruct (is_undefined (cloneJsonValue v (show_Z i) true)) eqn:Eu; [constructor|]. apply Ho; [by apply (Hi O)|done].
    + exists (V_null :: l). split; [done|]. intros w [->|Hw]%elem_of_cons; [constructor|by apply Hl].
  - inversion_clear Hw as [| | | | | | |? ? Hn Hp Hf Ht]. rewrite Forall_forall in IH.
    assert (json_data (V_obj (clone_fields (fun k v => cloneJsonValue v k true) [] fields) None)) as Hplain.
    { rewrite clone_fields_nil by done. constructor; [by apply cloned_fields_NoDup| |].
      - intros Hx. by apply cloned_fields_keys in Hx.
      - intros k v Hkv. apply list_elem_of_filter in Hkv as [Hv ([k' v'] & [= -> ->] & Hin)%list_elem_of_fmap].
        by apply (IH _ Hin), Hv; apply (Hf _ _ Hin). }
    cbn [cloneJsonValue] in *. destruct toJSON as [f|]; [|exact Hplain]. destruct b; [|exact Hplain]. apply IHf; [by apply Ht|done].
Qed.


(** A date inside an object with a function, a hole and a number without a
    text. *)
Definition sample_value : value :=
  V_obj [("at", V_obj [] (Some (fun _ => V_str "2024-02-29T12:34:56.789Z"))); ("run", V_fun);
         ("items", V_arr [Some V_undefined; None; Some (V_num S754_nan); Some (V_bool true)]);
         ("self", V_obj [("x", V_null)] (Some (fun k => V_obj [("key", V_str k)] (Some (fun _ => V_null)))))] None.

Lemma sample_well_formed : well_formed sample_value.
Proof.
  assert (forall fs, "__proto__" ∉ fs.*1 -> NoDup fs.*1 -> (forall k v, (k, v) ∈ fs -> well_formed v) -> well_formed (V_obj fs None)) as Hp.
  { intros fs H1 H2 H3. by constructor. }
  apply Hp; [apply (bool_decide_unpack _); vm_compute; done|apply (bool_decide_unpack _); vm_compute; done|].
  intros k v Hin. repeat (apply elem_of_cons in Hin as [[= -> ->]|Hin]); [..|by apply elem_of_nil in Hin].
  - constructor; [constructor|apply not_elem_of_nil|intros ? ? []%elem_of_nil|intros f k [= <-]; constructor].
  - constructor.
  - constructor. intros i v Hi. apply list_elem_of_lookup_2 in Hi. repeat (apply elem_of_cons in Hi as [[= ->]|Hi]; [constructor|]).
    repeat (apply elem_of_cons in Hi as [Hi|Hi]; [try done; injection Hi as ->; constructor|]). by apply elem_of_nil in Hi.
  - constructor; [apply (bool_decide_unpack _); vm_compute; done|apply (bool_decide_unpack _); vm_compute; done| |].
    + intros k v [[= -> ->]|[]%elem_of_nil]%elem_of_cons. constructor.
    + intros f k [= <-]. constructor; [apply (bool_decide_unpack _); vm_compute; done| | |intros f k' [= <-]; constructor].
      * intros Hx. apply elem_of_cons in Hx as [Hx|Hx]; [done|by apply elem_of_nil in Hx].
      * intros k' v [[= -> ->]|[]%elem_of_nil]%elem_of_cons. constructor.
Qed.


(** A property named [__proto__] is an own property of parsed JSON and is lost
    in the copy. *)
Example proto_property_is_lost :
  let v := V_obj [("__proto__", V_str "x"); ("a", V_null)] None in
  cloneJson v = V_obj [("a", V_null)] None /\ json_stringify (cloneJson v) <> json_stringify v.
Proof. split; [reflexivity|vm_compute; discriminate]. Qed.
