(* ===== verification/AppendOnlyContext.v ===== *)
(** * The append-only context ([agent/src/append-only-context.ts])

    What is sent to a provider is cached by its prefix: the system prompt and
    the tools are snapshot once ([StablePrefix]) and the messages only grow
    ([AppendOnlyLog]), as long as their contents stay.  Tools are normalized
    by [normalizeTools] of [agent/src/agent-loop.ts].

    Messages are references into a [store] of values, which other code may
    change between two calls.  [hashSource] ([Bun.hash]) is a parameter, and so
    is [wire], which gives the JSON schema of a live Zod schema
    ([zodToWireSchema], around the Zod library). *)

From Stdlib Require Import Ascii.
From S2P Require Import Prelude JsNumber JsValue JsonClone.

Local Open Scope string_scope.
Local Open Scope list_scope.
Local Open Scope Z_scope.

(** ** Tools *)

Definition INTENT_FIELD : string := "_i".

Inductive intent_mode := require | optional | omit.

#[export] Instance intent_mode_eq_dec : EqDecision intent_mode.
Proof. solve_decision. Defined.

(** A tool: its own properties, and those of its prototype. *)
Record Tool := { own_fields : list (string * value); inherited : list (string * value) }.

Definition tool_get (t : Tool) (k : string) : value :=
  match own (own_fields t) k with Some v => v | None => default V_undefined (own (inherited t) k) end.

Definition resolveIntentMode (intent : value) : intent_mode :=
  match intent with
  | V_fun => omit
  | V_str s => if decide (s = "optional") then optional else if decide (s = "omit") then omit
               else if decide (s = "require") then require else optional
  | _ => optional
  end.

(** An object orders the keys that are array indices before all others. *)
Definition is_index (k : string) : bool :=
  bool_decide (k = show_Z (digits_value k 0) /\ 0 <= digits_value k 0 < 4294967295).

(** [{ [INTENT_FIELD]: x, ...rest }] *)
Definition with_intent (x : value) (rest : list (string * value)) : list (string * value) :=
  filter (fun p => is_index p.1 = true) rest ++ (INTENT_FIELD, x) :: filter (fun p => is_index p.1 = false) rest.

(** The [toJSON] that [{ ...o }] keeps: an own one. *)
Definition spread_toJSON (fields : list (string * value)) (toJSON : option (string -> value)) : option (string -> value) :=
  if decide ("toJSON" ∈ fields.*1) then toJSON else None.

Definition is_text (o : option value) : bool := match o with Some (V_str _) => true | _ => false end.

Definition injectIntentIntoSchema (schema : value) (mode : intent_mode) : value :=
  match schema with
  | V_obj fields toJSON =>
      let properties := match own fields "properties" with Some (V_obj ps _) => ps | _ => [] end in
      let required := match own fields "required" with
                      | Some (V_arr items) => filter (fun o => is_text o = true) items | _ => [] end in
      let is_required := bool_decide (mode = require) in
      match own properties INTENT_FIELD with
      | Some intentProp =>
          let rest := filter (fun p => p.1 <> INTENT_FIELD) properties in
          let needsReorder := negb (bool_decide (head properties.*1 = Some INTENT_FIELD)) in
          let needsRequired := is_required && negb (existsb (fun o => match o with Some (V_str s) => bool_decide (s = INTENT_FIELD) | _ => false end) required) in
          if negb needsReorder && negb needsRequired then schema
          else
            let fs := if needsReorder then map_set fields "properties" (V_obj (with_intent intentProp rest) None) else fields in
            V_obj (if needsRequired then map_set fs "required" (V_arr (required ++ [Some (V_str INTENT_FIELD)])) else fs)
              (spread_toJSON fields toJSON)
      | None =>
          let fs := map_set fields "properties" (V_obj (with_intent (V_obj [("type", V_str "string")] None) properties) None) in
          V_obj (if is_required then map_set fs "required" (V_arr (required ++ [Some (V_str INTENT_FIELD)])) else fs)
            (spread_toJSON fields toJSON)
      end
  | _ => schema
  end.

Section tools.
Context (wire : value -> option value) (no_intent : bool).

(** The properties of a normalized tool, a plain object. *)
Definition normalizeTool (injectIntent : bool) (t : Tool) : list (string * value) :=
  let intentMode := resolveIntentMode (tool_get t "intent") in
  let parameters := tool_get t "parameters" in
  let parameters :=
    if injectIntent && negb no_intent && negb (bool_decide (intentMode = omit)) then
      injectIntentIntoSchema (default parameters (wire parameters)) intentMode
    else parameters in
  let description := match tool_get t "description" with V_undefined | V_null => V_str "" | d => d end in
  map_set (map_set (own_fields t) "parameters" parameters) "description" description.

Definition normalizeTools (tools : option (list Tool)) (injectIntent : bool) : option (list (list (string * value))) :=
  (fun ts : list Tool => normalizeTool injectIntent <$> ts) <$> tools.

(** ** The prefix *)

Record StablePrefixSnapshot := {
  systemPrompt : list string;
  tools : list (list (string * value));
  fingerprint : string
}.

(** The parts of the agent's context that the prefix reads; arrays have an
    identity. *)
Record AgentContext := {
  ctx_prompt : nat * list string;
  ctx_tools : option (nat * list Tool)
}.

Definition hashString31 (s : string) : Z :=
  to_uint32 (foldl (fun hash c => to_int32 (js_shl hash 5 - hash + Z.of_N (N_of_ascii c))) 0 (String.list_ascii_of_string s)).

Definition digit36 (d : Z) : ascii := ascii_of_N (Z.to_N (if decide (d < 10) then 48 + d else 87 + d)).

Fixpoint digits36 (fuel : nat) (n : Z) (acc : string) : string :=
  match fuel with
  | O => acc
  | S fuel =>
      let acc := String (digit36 (n mod 36)) acc in
      if decide (n < 36) then acc else digits36 fuel (n / 36) acc
  end.

(** [n.toString(36)] of a 32-bit number, which has at most 7 digits. *)
Definition base36 (n : Z) : string := digits36 7 n EmptyString.

Definition fingerprinted (t : list (string * value)) : value :=
  let get k := default V_undefined (own t k) in
  V_obj [("n", get "name"); ("d", get "description"); ("p", get "parameters"); ("s", get "strict");
         ("cf", get "customFormat"); ("cw", get "customWireName")] None.

Definition payload (prompt : list string) (ts : list (list (string * value))) (intentTracing : bool) : string :=
  default "undefined" (json_stringify (V_obj [("s", V_list (V_str <$> prompt)); ("t", V_list (fingerprinted <$> ts));
    ("i", V_bool intentTracing)] None)).

Definition computeFingerprint (prompt : list string) (ts : list (list (string * value))) (intentTracing : bool) : string :=
  base36 (hashString31 (payload prompt ts intentTracing)).

Definition takeSnapshot (ctx : AgentContext) (intentTracing : bool) : StablePrefixSnapshot :=
  let prompt := (ctx_prompt ctx).2 in
  let ts := default [] (normalizeTools (snd <$> ctx_tools ctx) intentTracing) in
  {| systemPrompt := prompt; tools := ts; fingerprint := computeFingerprint prompt ts intentTracing |}.

(** The copy of a tool; a tool has no [toJSON] method. *)
Definition clone_tool (t : list (string * value)) : list (string * value) :=
  match cloneJson (V_obj t None) with V_obj fs _ => fs | _ => [] end.

Definition clone_snapshot (s : StablePrefixSnapshot) : StablePrefixSnapshot :=
  {| systemPrompt := systemPrompt s; tools := clone_tool <$> tools s; fingerprint := fingerprint s |}.

Definition normalizeImportedTools (ts : list (list (string * value))) (intentTracing : bool) : list (list (string * value)) :=
  clone_tool <$> default [] (normalizeTools (Some ((fun t => {| own_fields := clone_tool t; inherited := [] |}) <$> ts)) intentTracing).

Record StablePrefix := {
  snapshot : option StablePrefixSnapshot;
  version : Z;
  sourceSystemPrompt : option nat;
  sourceTools : option (option nat);
  sourceIntentTracing : option bool
}.

Definition new_prefix : StablePrefix :=
  {| snapshot := None; version := 0; sourceSystemPrompt := None; sourceTools := None; sourceIntentTracing := None |}.

Definition prefix_fingerprint (p : StablePrefix) : string :=
  match snapshot p with Some s => fingerprint s | None => "<unbuilt>" end.

Definition built (p : StablePrefix) : bool := match snapshot p with Some _ => true | None => false end.

Definition exportSnapshot (p : StablePrefix) : option StablePrefixSnapshot := clone_snapshot <$> snapshot p.

Definition importSnapshot (p : StablePrefix) (s : StablePrefixSnapshot) (intentTracing : bool) : outcome string unit * StablePrefix :=
  let ts := normalizeImportedTools (tools s) intentTracing in
  let fp := computeFingerprint (systemPrompt s) ts intentTracing in
  if decide (fp <> fingerprint s) then
    (Throw ("StablePrefix.importSnapshot() fingerprint mismatch: expected " +:+ fp +:+ ", received " +:+ fingerprint s),
     {| snapshot := snapshot p; version := version p; sourceSystemPrompt := None; sourceTools := None; sourceIntentTracing := None |})
  else
    (Ok tt,
     {| snapshot := Some {| systemPrompt := systemPrompt s; tools := ts; fingerprint := fp |}; version := version p + 1;
        sourceSystemPrompt := None; sourceTools := None; sourceIntentTracing := None |}).

Definition with_source (snap : option StablePrefixSnapshot) (v : Z) (ctx : AgentContext) (intentTracing : bool) : StablePrefix :=
  {| snapshot := snap; version := v; sourceSystemPrompt := Some (ctx_prompt ctx).1;
     sourceTools := Some (fst <$> ctx_tools ctx); sourceIntentTracing := Some intentTracing |}.

Definition build_prefix (p : StablePrefix) (ctx : AgentContext) (intentTracing : bool) : bool * StablePrefix :=
  let same_source :=
    bool_decide (sourceSystemPrompt p = Some (ctx_prompt ctx).1) && bool_decide (sourceTools p = Some (fst <$> ctx_tools ctx))
      && bool_decide (sourceIntentTracing p = Some intentTracing) in
  let snap := takeSnapshot ctx intentTracing in
  match snapshot p with
  | Some s =>
      if same_source && bool_decide (fingerprint s = fingerprint snap) then (false, p)
      else if decide (fingerprint s = fingerprint snap) then (false, with_source (Some s) (version p) ctx intentTracing)
      else (true, with_source (Some snap) (version p + 1) ctx intentTracing)
  | None => (true, with_source (Some snap) (version p + 1) ctx intentTracing)
  end.

Definition invalidate_prefix (p : StablePrefix) : StablePrefix :=
  {| snapshot := None; version := version p; sourceSystemPrompt := None; sourceTools := None; sourceIntentTracing := None |}.

Definition toContext (p : StablePrefix) : outcome string (list string * list (list (string * value))) :=
  match snapshot p with
  | None => Throw "StablePrefix.toContext() called before build()"
  | Some s => Ok (systemPrompt s, clone_tool <$> tools s)
  end.
End tools.

(** ** The log and its manager *)

(** The objects a message reference may refer to. *)
Definition store := list value.

Definition deref (st : store) (r : nat) : value := default V_undefined (st !! r).

Record Manager := {
  prefix : StablePrefix;
  log : list nat;
  lastSyncCount : nat;
  syncedHashes : list Z;
  seededPrefixCount : nat
}.

Definition new_manager : Manager :=
  {| prefix := new_prefix; log := []; lastSyncCount := 0; syncedHashes := []; seededPrefixCount := 0 |}.

Definition with_prefix (m : Manager) p : Manager :=
  {| prefix := p; log := log m; lastSyncCount := lastSyncCount m; syncedHashes := syncedHashes m;
     seededPrefixCount := seededPrefixCount m |}.

Definition with_log (m : Manager) l n hs k : Manager :=
  {| prefix := prefix m; log := l; lastSyncCount := n; syncedHashes := hs; seededPrefixCount := k |}.

(** Without [Bun.hash] the digest is this one. *)
Definition hashString32 (s : string) : Z := hashString31 s.

Section manager.
Context (wire : value -> option value) (no_intent : bool) (hashSource : string -> Z).

Definition hashMessage (v : value) : Z := hashSource (default "null" (json_stringify v)).

(** The digest of [messages[i]], which may be outside the array. *)
Definition hash_at (st : store) (messages : list nat) (i : nat) : Z :=
  hashMessage (match messages !! i with Some r => deref st r | None => V_undefined end).

Definition hashRange (st : store) (messages : list nat) (start end_ : nat) : list Z :=
  hash_at st messages <$> seq start (end_ - start).

Definition rangeHashesEqual (st : store) (a b : list nat) (count : nat) : bool :=
  forallb (fun i => bool_decide (hash_at st a i = hash_at st b i)) (seq 0 count).

Definition prefixChanged (m : Manager) (st : store) (messages : list nat) (count : nat) : bool :=
  if decide (length (syncedHashes m) < count)%nat then false
  else existsb (fun i => negb (bool_decide (Some (hash_at st messages i) = syncedHashes m !! i))) (seq 0 count).

Definition rebaseToBaseline (m : Manager) (st : store) (messages : list nat) (seeded : nat) : Manager :=
  with_log m messages (length messages) (hashRange st messages 0 (length messages)) seeded.

(** [messagesToSync]: the seed, unless the messages begin with it, and the
    messages. *)
Definition messagesToSync (m : Manager) (st : store) (messages : list nat) : list nat :=
  let seeded := seededPrefixCount m in
  let includesSeedPrefix :=
    bool_decide (0 < seeded <= length messages)%nat && rangeHashesEqual st messages (log m) seeded in
  if bool_decide (0 < seeded)%nat && negb includesSeedPrefix then take seeded (log m) ++ messages else messages.

Definition cleared (m : Manager) : Manager := with_log m [] 0 [] (seededPrefixCount m).

Definition append_synced (m : Manager) (st : store) (messages : list nat) : Manager :=
  with_log m (log m ++ drop (lastSyncCount m) messages) (length messages) (hashRange st messages 0 (length messages))
    (seededPrefixCount m).

Definition syncMessages (m : Manager) (st : store) (messages : list nat) : Manager :=
  let seeded := seededPrefixCount m in
  let msgs := messagesToSync m st messages in
  let n := lastSyncCount m in
  if bool_decide (0 < n <= length msgs)%nat && prefixChanged m st msgs n then
    if decide (0 < seeded)%nat then rebaseToBaseline m st msgs seeded
    else append_synced (cleared m) st msgs
  else if decide (length msgs < n)%nat then
    if decide (0 < seeded)%nat then rebaseToBaseline m st msgs seeded
    else append_synced (cleared m) st msgs
  else append_synced m st msgs.

(** The copies are new objects of the store. *)
Definition seedNormalizedMessages (m : Manager) (st : store) (messages : list nat) (reset : bool)
    : outcome string unit * (store * Manager) :=
  if decide ((0 < length (log m))%nat /\ reset = false) then
    (Throw "AppendOnlyContextManager.seedNormalizedMessages() cannot seed a non-empty log without reset", (st, m))
  else
    let copies := imap (fun i r => or_null (cloneJsonValue (deref st r) (show_Z (Z.of_nat i)) true)) messages in
    let refs := seq (length st) (length copies) in
    let st := st ++ copies in
    (Ok tt, (st, with_log m refs (length refs) (hashRange st refs 0 (length refs)) (length refs))).

Record PrefixChange := { from_ : string; to_ : string; change_version : Z }.

Record Context_ := { c_systemPrompt : list string; c_messages : list nat; c_tools : list (list (string * value)) }.

(** The context, and what [onPrefixChange] is told. *)
Definition build (m : Manager) (ctx : AgentContext) (intentTracing : bool) : outcome string Context_ * list PrefixChange * Manager :=
  let previous := prefix_fingerprint (prefix m) in
  let '(changed, p) := build_prefix wire no_intent (prefix m) ctx intentTracing in
  let told := if changed then [{| from_ := previous; to_ := prefix_fingerprint p; change_version := version p |}] else [] in
  let m := with_prefix m p in
  (outcome_bind (toContext p) (fun '(prompt, ts) =>
     Ok {| c_systemPrompt := prompt; c_messages := log m; c_tools := ts |}), told, m).

Definition forkFromSeed (prefixSnapshot : option StablePrefixSnapshot) (st : store) (messages : option (list nat))
    (intentTracing : bool) : outcome string Manager * store :=
  let '(r, p) := match prefixSnapshot with
                 | Some s => importSnapshot wire no_intent new_prefix s intentTracing | None => (Ok tt, new_prefix) end in
  match r with
  | Throw e => (Throw e, st)
  | Ok _ =>
      let m := with_prefix new_manager p in
      match messages with
      | None => (Ok m, st)
      | Some ms => let '(r, (st, m)) := seedNormalizedMessages m st ms false in (outcome_bind r (fun _ => Ok m), st)
      end
  end.

Definition resetSyncCursor (m : Manager) : Manager := with_log m [] 0 [] 0.

Definition invalidateForModelChange (m : Manager) : Manager := resetSyncCursor (with_prefix m (invalidate_prefix (prefix m))).

Definition appendMessage (m : Manager) (r : nat) : Manager :=
  with_log m (log m ++ [r]) (lastSyncCount m) (syncedHashes m) (seededPrefixCount m).

(** [replaceTail] *)
Definition replaceTailMessage (m : Manager) (r : nat) : Manager :=
  with_log m (<[length (log m) - 1 := r]> (log m))%nat (lastSyncCount m) (syncedHashes m) (seededPrefixCount m).

Definition invalidate (m : Manager) : Manager := with_prefix m (invalidate_prefix (prefix m)).

Definition reset (m : Manager) (ctx : AgentContext) (intentTracing : bool) : Manager :=
  let m := invalidateForModelChange m in
  with_prefix m (build_prefix wire no_intent (prefix m) ctx intentTracing).2.
End manager.
