(* ===== verification/AppendOnlyRuns.v ===== *)
(** * What the append-only context guarantees

    The log follows the messages through any history of calls, what was sent
    stays a prefix of what is sent as long as nothing changes, and the prefix
    is that of the live context.  Over [AppendOnlyContext.v]. *)

From Stdlib Require Import Ascii.
From S2P Require Import Prelude JsNumber JsValue JsonClone AppendOnlyContext.

Local Open Scope string_scope.
Local Open Scope list_scope.

Section runs.
Context (wire : value -> option value) (no_intent : bool) (hashSource : string -> Z).

Implicit Types (m : Manager) (st : store) (l ms : list nat).

(** ** Digests *)

Local Abbreviation hash_at := (hash_at hashSource).
Local Abbreviation hashRange := (hashRange hashSource).
Local Abbreviation messagesToSync := (messagesToSync hashSource).
Local Abbreviation syncMessages := (syncMessages hashSource).

Definition digest st (r : nat) : Z := hashMessage hashSource (deref st r).
Definition digests st l : list Z := digest st <$> l.

Lemma length_digests st l : length (digests st l) = length l.
Proof. apply length_fmap. Qed.

Lemma lookup_hash_at st l i r : l !! i = Some r -> hash_at st l i = digest st r.
Proof. unfold AppendOnlyContext.hash_at. by intros ->. Qed.

Lemma hashRange_all st l : hashRange st l 0 (length l) = digests st l.
Proof.
  unfold AppendOnlyContext.hashRange. rewrite Nat.sub_0_r. apply list_eq. intros i. rewrite list_lookup_fmap.
  destruct (decide (i < length l)%nat) as [Hi|Hi].
  - rewrite lookup_seq_lt by done. destruct (lookup_lt_is_Some_2 l i Hi) as [r Hr]. unfold digests. rewrite list_lookup_fmap, Hr.
    cbn. by rewrite (lookup_hash_at st l i r).
  - rewrite !lookup_ge_None_2; [done|rewrite length_digests; lia|rewrite length_seq; lia].
Qed.

Lemma forallb_seq (p : nat -> bool) k : forallb p (seq 0 k) = true <-> forall i, (i < k)%nat -> p i = true.
Proof.
  rewrite forallb_forall. split; intros H i; [intros Hi; apply H; apply List.in_seq; lia|].
  intros Hi%List.in_seq. apply H. lia.
Qed.

Lemma take_digests_eq st a b k :
  (k <= length a)%nat -> (k <= length b)%nat ->
  rangeHashesEqual hashSource st a b k = true <-> digests st (take k a) = digests st (take k b).
Proof.
  intros Ha Hb. unfold rangeHashesEqual. rewrite forallb_seq. split.
  - intros H. apply list_eq. intros i. unfold digests. rewrite !list_lookup_fmap.
    destruct (decide (i < k)%nat) as [Hi|Hi]; [|by rewrite !lookup_take_ge by lia].
    rewrite !lookup_take_lt by done. specialize (H i Hi). apply bool_decide_eq_true in H.
    destruct (lookup_lt_is_Some_2 a i ltac:(lia)) as [x Hx], (lookup_lt_is_Some_2 b i ltac:(lia)) as [y Hy].
    rewrite (lookup_hash_at st a i x), (lookup_hash_at st b i y) in H by done. rewrite Hx, Hy. cbn. by rewrite H.
  - intros E i Hi. apply bool_decide_eq_true.
    destruct (lookup_lt_is_Some_2 a i ltac:(lia)) as [x Hx], (lookup_lt_is_Some_2 b i ltac:(lia)) as [y Hy].
    rewrite (lookup_hash_at st a i x), (lookup_hash_at st b i y) by done.
    apply (f_equal (fun d : list Z => d !! i)) in E. unfold digests in E. rewrite !list_lookup_fmap, !lookup_take_lt, Hx, Hy in E by done.
    by injection E.
Qed.

Lemma prefixChanged_false m st l :
  (length (syncedHashes m) <= length l)%nat ->
  prefixChanged hashSource m st l (length (syncedHashes m)) = false <->
  digests st (take (length (syncedHashes m)) l) = syncedHashes m.
Proof.
  intros Hl. unfold prefixChanged. rewrite decide_False by lia. rewrite <- not_true_iff_false, existsb_exists. split.
  - intros H. apply list_eq. intros i. unfold digests. rewrite list_lookup_fmap.
    destruct (decide (i < length (syncedHashes m))%nat) as [Hi|Hi].
    + rewrite lookup_take_lt by done. destruct (lookup_lt_is_Some_2 l i ltac:(lia)) as [x Hx]. rewrite Hx. cbn.
      destruct (decide (Some (hash_at st l i) = syncedHashes m !! i)) as [E|E].
      * by rewrite <- E, (lookup_hash_at st l i x).
      * exfalso. apply H. exists i. split; [apply List.in_seq; lia|]. by rewrite bool_decide_eq_false_2.
    + rewrite lookup_take_ge, lookup_ge_None_2 by lia. done.
  - intros E (i & Hi & Hn). apply List.in_seq in Hi. apply negb_true_iff, bool_decide_eq_false in Hn. apply Hn.
    destruct (lookup_lt_is_Some_2 l i ltac:(lia)) as [x Hx]. rewrite (lookup_hash_at st l i x) by done.
    apply (f_equal (fun d : list Z => d !! i)) in E. unfold digests in E. rewrite list_lookup_fmap, lookup_take_lt, Hx in E by lia. done.
Qed.

(** ** The log *)

(** What the provider is to see: the messages, behind the seed unless they
    begin with it. *)
Definition provider_view (seed ds : list Z) : list Z :=
  if decide (take (length seed) ds = seed) then ds else seed ++ ds.

(** The cursor covers the whole log. *)
Record log_wf m : Prop := {
  wf_hashes : length (syncedHashes m) = lastSyncCount m;
  wf_log : length (log m) = lastSyncCount m;
  wf_seed : (seededPrefixCount m <= lastSyncCount m)%nat
}.

(** An entry whose object was changed after it was synced is still the object
    that is passed. *)
Definition entries_fresh m st ms : Prop :=
  forall i r, log m !! i = Some r ->
    messagesToSync m st ms !! i = Some r \/ syncedHashes m !! i = Some (digest st r).

Definition seed_digests m st : list Z := digests st (take (seededPrefixCount m) (log m)).

Lemma messagesToSync_spec m st ms :
  log_wf m ->
  digests st (messagesToSync m st ms) = provider_view (seed_digests m st) (digests st ms) /\
  (seededPrefixCount m <= length (messagesToSync m st ms))%nat.
Proof.
  intros [H1 H2 H3]. unfold AppendOnlyContext.messagesToSync, provider_view, seed_digests. set (k := seededPrefixCount m) in *.
  assert (length (digests st (take k (log m))) = k) as -> by (rewrite length_digests, length_take; lia).
  assert (take k (digests st ms) = digests st (take k ms)) as -> by (unfold digests; by rewrite fmap_take).
  destruct (decide (0 < k)%nat) as [Hk|Hk].
  - rewrite (bool_decide_eq_true_2 (0 < k)%nat) by done. cbn [andb].
    destruct (decide (k <= length ms)%nat) as [Hl|Hl].
    + rewrite bool_decide_eq_true_2 by lia. cbn [andb]. pose proof (take_digests_eq st ms (log m) k Hl ltac:(lia)) as He.
      destruct (rangeHashesEqual _ _ _ _ _); cbn [negb].
      * rewrite decide_True by (by apply He). done.
      * rewrite decide_False by (intros E; by apply He in E). unfold digests. rewrite fmap_app, length_app, length_take. split; [done|lia].
    + rewrite bool_decide_eq_false_2 by lia. cbn [andb negb].
      rewrite decide_False; [unfold digests; rewrite fmap_app, length_app, length_take; split; [done|lia]|].
      intros E. apply (f_equal length) in E. rewrite !length_digests, !length_take in E. lia.
  - rewrite (bool_decide_eq_false_2 (0 < k)%nat) by done. cbn [andb]. replace k with 0%nat by lia. rewrite !take_0.
    rewrite decide_True by done. split; [done|lia].
Qed.

(** One synchronization. *)
Lemma sync_spec m st ms :
  log_wf m -> entries_fresh m st ms ->
  let m' := syncMessages m st ms in
  let msgs := messagesToSync m st ms in
  log_wf m' /\ syncedHashes m' = digests st msgs /\ digests st (log m') = digests st msgs /\
  seededPrefixCount m' = seededPrefixCount m /\ prefix m' = prefix m /\
  ((lastSyncCount m <= length msgs)%nat -> digests st (take (lastSyncCount m) msgs) = syncedHashes m ->
   log m' = log m ++ drop (lastSyncCount m) msgs).
Proof.
  intros Hw Hf. pose proof (messagesToSync_spec m st ms Hw) as [_ Hk]. destruct Hw as [H1 H2 H3]. cbn zeta.
  unfold entries_fresh in Hf. unfold AppendOnlyContext.syncMessages. fold (messagesToSync m st ms) in *.
  set (msgs := messagesToSync m st ms) in *. set (n := lastSyncCount m) in *.
  assert (forall k, (k <= length msgs)%nat ->
    let m' := with_log m msgs (length msgs) (hashRange st msgs 0 (length msgs)) k in
    log_wf m' /\ syncedHashes m' = digests st msgs /\ digests st (log m') = digests st msgs) as Hall.
  { intros k Hle. rewrite hashRange_all. cbn. split; [|done]. split; cbn; [apply length_digests|done|done]. }
  destruct (bool_decide (0 < n <= length msgs)%nat && prefixChanged hashSource m st msgs n) eqn:Ec.
  - apply andb_true_iff in Ec as [Hn Ec]. apply bool_decide_eq_true in Hn.
    assert (digests st (take n msgs) <> syncedHashes m) as Hne.
    { rewrite <- H1. intros E. apply prefixChanged_false in E; [|lia]. rewrite H1, Ec in E. done. }
    destruct (decide (0 < seededPrefixCount m)%nat) as [Hs|Hs]; (split; [|split; [|split; [|split; [|split; [done|by intros _ E]]]]]); try apply (Hall _ Hk); try done.
  - destruct (decide (length msgs < n)%nat) as [Hlt|Hlt].
    + assert (~ (n <= length msgs)%nat) as Hnot by lia.
      destruct (decide (0 < seededPrefixCount m)%nat) as [Hs|Hs]; (split; [|split; [|split; [|split; [|split; [done|by intros E _]]]]]); try apply (Hall _ Hk); try done.
    + assert (digests st (take n msgs) = syncedHashes m) as E.
      { destruct (decide (0 < n)%nat) as [Hn|Hn].
        - rewrite bool_decide_eq_true_2 in Ec by lia. cbn [andb] in Ec. rewrite <- H1 in *. apply prefixChanged_false; [lia|done].
        - replace n with 0%nat in * by lia. rewrite take_0. symmetry. by apply nil_length_inv. }
      unfold append_synced. fold n. rewrite hashRange_all.
      assert (digests st (log m) = digests st (take n msgs)) as El.
      { apply list_eq. intros i. unfold digests. rewrite !list_lookup_fmap.
        destruct (decide (i < n)%nat) as [Hi|Hi]; [|rewrite !lookup_ge_None_2; [done|rewrite length_take; lia|lia]].
        destruct (lookup_lt_is_Some_2 (log m) i ltac:(lia)) as [r Hr]. rewrite Hr. cbn. destruct (Hf i r Hr) as [Hm|Hm].
        - by rewrite lookup_take_lt, Hm by done.
        - rewrite <- Hm, <- E. unfold digests. by rewrite list_lookup_fmap. }
      split; [|split; [done|split; [|done]]].
      * split; cbn; [apply length_digests|rewrite length_app, length_drop; lia|lia].
      * cbn [log with_log]. rewrite <- (take_drop n msgs) at 2. unfold digests in *. by rewrite !fmap_app, El.
Qed.

(** ** The prefix *)

Local Abbreviation takeSnapshot := (takeSnapshot wire no_intent).
Local Abbreviation build_prefix := (build_prefix wire no_intent).
Local Abbreviation build := (build wire no_intent).

Lemma build_prefix_spec p ctx i :
  let live := takeSnapshot ctx i in
  let '(changed, p') := build_prefix p ctx i in
  exists s, snapshot p' = Some s /\ fingerprint s = fingerprint live /\
    (changed = false <-> built p = true /\ prefix_fingerprint p = fingerprint live) /\
    (changed = false -> snapshot p' = snapshot p /\ version p' = version p) /\
    (changed = true -> s = live /\ version p' = (version p + 1)%Z).
Proof.
  cbn zeta. unfold AppendOnlyContext.build_prefix, built, prefix_fingerprint. set (live := takeSnapshot ctx i).
  destruct (snapshot p) as [s|] eqn:Es; [|exists live; naive_solver].
  destruct (decide (fingerprint s = fingerprint live)) as [E|E].
  - rewrite (bool_decide_eq_true_2 (fingerprint s = fingerprint live)), andb_true_r by done. destruct (_ && _); exists s; naive_solver.
  - rewrite (bool_decide_eq_false_2 (fingerprint s = fingerprint live)), andb_false_r by done. exists live. naive_solver.
Qed.

(** ** Runs *)

Record world := { w_store : store; w_manager : Manager }.

Inductive manager_op :=
| A_world (st : store)
| A_sync (ms : list nat)
| A_seed (ms : list nat) (reset : bool)
| A_build (ctx : AgentContext) (i : bool)
| A_import (s : StablePrefixSnapshot) (i : bool)
| A_invalidate
| A_model_change
| A_reset_cursor
| A_reset (ctx : AgentContext) (i : bool)
| A_replace_tail (r : nat).

Implicit Types (w : world) (op : manager_op).

Definition with_manager w m : world := {| w_store := w_store w; w_manager := m |}.

Definition step w op : world :=
  let m := w_manager w in
  match op with
  | A_world st => {| w_store := st; w_manager := m |}
  | A_sync ms => with_manager w (syncMessages m (w_store w) ms)
  | A_seed ms reset => let '(_, (st, m)) := seedNormalizedMessages hashSource m (w_store w) ms reset in {| w_store := st; w_manager := m |}
  | A_build ctx i => with_manager w (build m ctx i).2
  | A_import s i => with_manager w (with_prefix m (importSnapshot wire no_intent (prefix m) s i).2)
  | A_invalidate => with_manager w (invalidate m)
  | A_model_change => with_manager w (invalidateForModelChange m)
  | A_reset_cursor => with_manager w (resetSyncCursor m)
  | A_reset ctx i => with_manager w (reset wire no_intent m ctx i)
  | A_replace_tail r => with_manager w (replaceTailMessage m r)
  end.

Definition allowed w op : Prop :=
  match op with A_sync ms => entries_fresh (w_manager w) (w_store w) ms | _ => True end.

Definition start (st : store) : world := {| w_store := st; w_manager := new_manager |}.

Lemma seed_wf m st ms r : log_wf m -> log_wf (seedNormalizedMessages hashSource m st ms r).2.2.
Proof.
  intros Hw. unfold seedNormalizedMessages. case_decide; [done|].
  cbn [snd]. generalize (seq (length st) (length (imap (fun i r => or_null (cloneJsonValue (deref st r) (show_Z (Z.of_nat i)) true)) ms))).
  intros refs. rewrite hashRange_all. split; cbn; [apply length_digests|done|done].
Qed.

Lemma step_wf w op : allowed w op -> log_wf (w_manager w) -> log_wf (w_manager (step w op)).
Proof.
  intros Ha Hw. destruct op; cbn [step]; try (by destruct Hw).
  - by apply sync_spec.
  - pose proof (seed_wf (w_manager w) (w_store w) ms reset Hw) as H.
    destruct (seedNormalizedMessages _ _ _ _ _) as [r [st m]]. exact H.
  - cbn. unfold AppendOnlyContext.build. destruct (build_prefix _ ctx i) as [c p]. cbn. by destruct Hw.
  - destruct Hw as [H1 H2 H3]. split; cbn; [done|by rewrite length_insert|done].
Qed.

Lemma run_wf st ops : run_allows step allowed (start st) ops -> log_wf (w_manager (foldl step (start st) ops)).
Proof. intros H. apply (foldl_allowed step allowed); [|exact H|by split]. intros w op Hw Ha. by apply step_wf. Qed.

(** The log is what the provider is to see.  After any history of calls
    (synchronizations with grown, shrunk or rewritten messages, seeds, resets,
    model changes, prefix builds and imports, replaced tails, and changes other
    code makes to the messages), a synchronization leaves a log with exactly
    the contents of the messages passed, behind the inherited seed unless they
    begin with it; and when the messages already synchronized are unchanged,
    the log is the old log followed by the new messages.  Contents are told
    apart by their digest; an entry that was changed since it was synchronized
    has to be the object that is passed again. *)
Theorem log_follows_messages st ops ms :
  run_allows step allowed (start st) (ops ++ [A_sync ms]) ->
  let w := foldl step (start st) ops in
  let w' := step w (A_sync ms) in
  let msgs := messagesToSync (w_manager w) (w_store w) ms in
  digests (w_store w) (log (w_manager w')) = provider_view (seed_digests (w_manager w) (w_store w)) (digests (w_store w) ms) /\
  (digests (w_store w) (take (lastSyncCount (w_manager w)) msgs) = syncedHashes (w_manager w) ->
   log (w_manager w') = log (w_manager w) ++ drop (lastSyncCount (w_manager w)) msgs).
Proof.
  intros [Ho [Hf _]]%run_allows_app. cbn zeta. pose proof (run_wf st ops Ho) as Hw. set (w := foldl step (start st) ops) in *.
  cbn [step with_manager w_manager]. destruct (sync_spec _ _ _ Hw Hf) as (_ & _ & Hl & _ & _ & Hg).
  destruct (messagesToSync_spec (w_manager w) (w_store w) ms Hw) as [Hv _]. rewrite Hl. split; [done|].
  intros E. apply Hg; [|done]. apply (f_equal length) in E. rewrite length_digests, length_take in E.
  destruct Hw as [Hh _ _]. lia.
Qed.

(** A turn of the agent loop. *)
Definition turn m st ms ctx i := build (syncMessages m st ms) ctx i.

Lemma turn_spec m st ms ctx i :
  log_wf m -> entries_fresh m st ms ->
  exists s c told m', turn m st ms ctx i = (Ok c, told, m') /\ snapshot (prefix m') = Some s /\
    fingerprint s = fingerprint (takeSnapshot ctx i) /\ log_wf m' /\
    syncedHashes m' = digests st (messagesToSync m st ms) /\ log m' = log (syncMessages m st ms) /\
    c = {| c_systemPrompt := systemPrompt s; c_messages := log m'; c_tools := clone_tool <$> tools s |} /\
    (told = [] <-> built (prefix m) = true /\ prefix_fingerprint (prefix m) = fingerprint (takeSnapshot ctx i)) /\
    (told = [] -> snapshot (prefix m') = snapshot (prefix m)).
Proof.
  intros Hw Hf. destruct (sync_spec m st ms Hw Hf) as (Hw' & Hs & _ & _ & Hp & _).
  unfold turn, AppendOnlyContext.build. rewrite Hp. pose proof (build_prefix_spec (prefix m) ctx i) as Hb. cbn zeta in Hb.
  destruct (build_prefix (prefix m) ctx i) as [changed p]. destruct Hb as (s & Es & Ef & Hc & Hu & _).
  unfold toContext. rewrite Es. cbn [outcome_bind]. exists s. do 3 eexists. split; [done|]. cbn [prefix log with_prefix syncedHashes].
  split_and!; try done; [by destruct Hw'|..].
  - rewrite <- Hc. by destruct changed.
  - destruct changed; [done|]. intros _. by apply Hu.
Qed.

(** What the provider has cached stays.  Between two turns of the agent
    loop, reached by any history, if the live system prompt and tools have the
    same fingerprint and the messages extend those of the first turn, then the
    second context has the same system prompt and the same tools, its messages
    are those of the first one, the same objects with the same contents,
    followed by the new ones, and no prefix change is reported. *)
Theorem cached_prefix_stable st ops ms1 ctx1 i1 st2 ms2 ctx2 i2 :
  run_allows step allowed (start st) (ops ++ [A_sync ms1; A_build ctx1 i1; A_world st2; A_sync ms2]) ->
  let w := foldl step (start st) ops in
  let t1 := turn (w_manager w) (w_store w) ms1 ctx1 i1 in
  let t2 := turn t1.2 st2 ms2 ctx2 i2 in
  fingerprint (takeSnapshot ctx2 i2) = fingerprint (takeSnapshot ctx1 i1) ->
  digests (w_store w) (messagesToSync (w_manager w) (w_store w) ms1) `prefix_of` digests st2 (messagesToSync t1.2 st2 ms2) ->
  exists c1 c2 new, t1.1.1 = Ok c1 /\ t2.1.1 = Ok c2 /\ t2.1.2 = [] /\
    c_systemPrompt c2 = c_systemPrompt c1 /\ c_tools c2 = c_tools c1 /\
    c_messages c2 = c_messages c1 ++ new /\
    digests st2 (c_messages c1) = digests (w_store w) (c_messages c1).
Proof.
  intros [Ho Hr]%run_allows_app. cbn zeta. pose proof (run_wf st ops Ho) as Hw. set (w := foldl step (start st) ops) in *.
  destruct Hr as (Hf1 & _ & _ & Hf2 & _). cbn [allowed step with_manager w_manager w_store] in Hf1, Hf2.
  fold (turn (w_manager w) (w_store w) ms1 ctx1 i1) in Hf2.
  destruct (turn_spec _ _ _ ctx1 i1 Hw Hf1) as (s1 & c1 & told1 & m1 & Et1 & Es1 & Ef1 & Hw1 & Eh1 & El1 & -> & _).
  rewrite Et1 in Hf2 |- *. cbn [fst snd] in Hf2 |- *.
  destruct (turn_spec _ _ _ ctx2 i2 Hw1 Hf2) as (s2 & c2 & told & m2 & Et2 & Es2 & Ef2 & _ & Eh2 & El2 & -> & Ht & Hs).
  rewrite Et2. cbn [fst snd]. intros Ef [ext Hpre]. assert (told = []) as ->.
  { apply Ht. unfold built, prefix_fingerprint. rewrite Es1, Ef, Ef1. done. }
  assert (s2 = s1) as -> by (rewrite (Hs eq_refl), Es1 in Es2; by injection Es2).
  destruct (sync_spec _ _ _ Hw Hf1) as (_ & _ & Ed1 & _). rewrite <- El1 in Ed1.
  destruct (sync_spec _ _ _ Hw1 Hf2) as (_ & _ & Ed2 & _ & _ & Hg). destruct Hw1 as [Hh Hl _].
  assert (length (digests (w_store w) (messagesToSync (w_manager w) (w_store w) ms1)) = lastSyncCount m1) as Elen by (by rewrite <- Eh1).
  assert (digests st2 (take (lastSyncCount m1) (messagesToSync m1 st2 ms2)) = syncedHashes m1) as Etake.
  { unfold digests at 1. rewrite fmap_take. fold (digests st2 (messagesToSync m1 st2 ms2)). by rewrite Hpre, Eh1, <- Elen, take_app_length. }
  specialize (Hg ltac:(apply (f_equal length) in Hpre; rewrite length_app, !length_digests in *; lia) Etake).
  eexists _, _, (drop (lastSyncCount m1) (messagesToSync m1 st2 ms2)). cbn. split_and!; try done; [by rewrite El2|].
  cbn [c_messages]. rewrite Ed1. rewrite Hg in Ed2. unfold digests at 1 in Ed2. rewrite fmap_app in Ed2. fold (digests st2 (log m1)) in Ed2.
  rewrite Hpre in Ed2. apply app_inj_1 in Ed2 as [E _]; [done|]. by rewrite Elen, length_digests.
Qed.

(** ** The prefix follows the context *)

Definition fingerprinted_ok (p : StablePrefix) : Prop :=
  forall s, snapshot p = Some s -> exists i, fingerprint s = computeFingerprint (systemPrompt s) (tools s) i.

Lemma build_fingerprinted p ctx i : fingerprinted_ok p -> fingerprinted_ok (build_prefix p ctx i).2.
Proof.
  intros Hp s Hs. pose proof (build_prefix_spec p ctx i) as Hb. cbn zeta in Hb. destruct (build_prefix p ctx i) as [c p'].
  destruct Hb as (s' & Es & _ & _ & Hu & Hc). cbn [snd] in Hs. rewrite Es in Hs. injection Hs as <-. destruct c.
  - destruct (Hc eq_refl) as [-> _]. by exists i.
  - destruct (Hu eq_refl) as [E _]. apply Hp. by rewrite <- E.
Qed.

Lemma step_fingerprinted w op : fingerprinted_ok (prefix (w_manager w)) -> fingerprinted_ok (prefix (w_manager (step w op))).
Proof.
  intros Hp. destruct op; cbn [step w_manager with_manager]; try done.
  - unfold AppendOnlyContext.syncMessages. by repeat case_match.
  - unfold seedNormalizedMessages. by case_decide.
  - unfold AppendOnlyContext.build. pose proof (build_fingerprinted (prefix (w_manager w)) ctx i Hp) as H.
    by destruct (build_prefix _ ctx i).
  - unfold importSnapshot. case_decide; [done|]. intros s' [= <-]. by exists i.
  - by apply build_fingerprinted.
Qed.

(** C24.  A context is built from the live system prompt and tools.  After any
    history of calls, [build] returns a context (it never throws) whose prompt
    and tools are a copy of the live ones, and tells the change, exactly when
    the fingerprint changed or nothing was built; otherwise it returns those
    cached before, and the text of their prompt, tool names, descriptions,
    schemas and flags is the text of the live ones, unless the two texts differ
    and have the same 32-bit hash. *)
Theorem prefix_follows_context st ops ctx i :
  let m := w_manager (foldl step (start st) ops) in
  let live := takeSnapshot ctx i in
  let '(r, told, m') := build m ctx i in
  exists s, snapshot (prefix m') = Some s /\
    r = Ok {| c_systemPrompt := systemPrompt s; c_messages := log m; c_tools := clone_tool <$> tools s |} /\
    (told = [] <-> built (prefix m) = true /\ prefix_fingerprint (prefix m) = fingerprint live) /\
    (told <> [] -> s = live /\
       told = [{| from_ := prefix_fingerprint (prefix m); to_ := fingerprint live; change_version := version (prefix m) + 1 |}]) /\
    (told = [] -> snapshot (prefix m) = Some s /\ version (prefix m') = version (prefix m)) /\
    exists j, let cached := payload (systemPrompt s) (tools s) j in
      let current := payload (systemPrompt live) (tools live) i in
      cached = current \/ cached <> current /\ base36 (hashString31 cached) = base36 (hashString31 current).
Proof.
  cbn zeta. assert (fingerprinted_ok (prefix (w_manager (foldl step (start st) ops)))) as Hp.
  { apply foldl_invariant; [|done]. intros w op _. apply step_fingerprinted. }
  set (m := w_manager _) in *. unfold AppendOnlyContext.build. pose proof (build_prefix_spec (prefix m) ctx i) as Hb. cbn zeta in Hb.
  pose proof (build_fingerprinted (prefix m) ctx i Hp) as Hp'.
  destruct (build_prefix (prefix m) ctx i) as [c p']. destruct Hb as (s & Es & Ef & Hc & Hu & Hn). cbn [snd] in Hp'.
  exists s. unfold toContext. cbn [prefix with_prefix log]. rewrite Es. cbn [outcome_bind].
  split; [done|]. split; [done|]. split; [rewrite <- Hc; by destruct c|].
  split; [|split].
  - destruct c; [|done]. intros _. destruct (Hn eq_refl) as [-> Hv]. split; [done|]. do 2 f_equal; [|done].
    unfold prefix_fingerprint. by rewrite Es.
  - destruct c; [done|]. intros _. destruct (Hu eq_refl) as [E Hv]. by rewrite <- E.
  - destruct (Hp' s Es) as [j Hj]. exists j. destruct (decide (payload (systemPrompt s) (tools s) j
      = payload (systemPrompt (takeSnapshot ctx i)) (tools (takeSnapshot ctx i)) i)) as [E|E]; [by left|right].
    split; [done|]. change (computeFingerprint (systemPrompt s) (tools s) j = fingerprint (takeSnapshot ctx i)). congruence.
Qed.
End runs.

(** ** Examples *)

(** Deciding whether the entries are fresh. *)
Definition entries_freshb (hashSource : string -> Z) m st ms : bool :=
  forallb (fun i => match log m !! i with
    | Some r => bool_decide (messagesToSync hashSource m st ms !! i = Some r) ||
                bool_decide (syncedHashes m !! i = Some (digest hashSource st r))
    | None => true end) (seq 0 (length (log m))).

Lemma entries_freshb_sound hashSource m st ms : entries_freshb hashSource m st ms = true -> entries_fresh hashSource m st ms.
Proof.
  unfold entries_freshb. rewrite forallb_seq. intros H i r Hr. specialize (H i (lookup_lt_Some _ _ _ Hr)). rewrite Hr in H.
  apply orb_true_iff in H as [H|H]; apply bool_decide_eq_true in H; auto.
Qed.

Fixpoint allowed_run wire no_intent hashSource w ops : bool :=
  match ops with
  | [] => true
  | op :: ops =>
      match op with A_sync ms => entries_freshb hashSource (w_manager w) (w_store w) ms | _ => true end &&
      allowed_run wire no_intent hashSource (step wire no_intent hashSource w op) ops
  end.

Lemma allowed_run_sound wire no_intent hashSource w ops :
  allowed_run wire no_intent hashSource w ops = true ->
  run_allows (step wire no_intent hashSource) (allowed hashSource) w ops.
Proof.
  revert w. induction ops as [|op ops IH]; intros w; [done|]. cbn [allowed_run run_allows]. intros [Ha Hr]%andb_true_iff.
  split; [|by apply IH]. destruct op; try done. by apply entries_freshb_sound.
Qed.

Definition no_wire (v : value) : option value := None.

Definition prompt_context (prompt : string) (ts : list Tool) : AgentContext :=
  {| ctx_prompt := (0%nat, [prompt]); ctx_tools := Some (0%nat, ts) |}.

(** Two prompts with the same hash: the changed prompt is not noticed. *)
Example colliding_prompt_is_stale :
  let m := (build no_wire false new_manager (prompt_context "Aa" []) true).2 in
  let '(r, told, _) := build no_wire false m (prompt_context "BB" []) true in
  (r, told) = (Ok {| c_systemPrompt := ["Aa"]; c_messages := []; c_tools := [] |}, []).
Proof. vm_compute. reflexivity. Qed.

(** A message appended to the log and then synchronized is there twice. *)
Example appended_message_twice :
  log (syncMessages hashString32 (appendMessage (syncMessages hashString32 new_manager [V_null; V_bool true] [0%nat]) 1%nat)
    [V_null; V_bool true] [0%nat; 1%nat]) = [0%nat; 1%nat; 1%nat].
Proof. vm_compute. reflexivity. Qed.

Definition note (s : string) : value := V_obj [("role", V_str "user"); ("content", V_str s)] None.

(** A seed, a message of the fork that is then rewritten in place, and one more
    message. *)
Definition seeded_ops : list manager_op :=
  [A_seed [0%nat] false; A_sync [1%nat]; A_world [note "seed"; note "rewritten"; note "b"; note "seed"]].

Lemma log_follows_messages_witness :
  let w := foldl (step no_wire false hashString32) (start [note "seed"; note "a"; note "b"]) seeded_ops in
  let w' := step no_wire false hashString32 w (A_sync [1%nat; 2%nat]) in
  log (w_manager w') = [3%nat; 1%nat; 2%nat] /\
  digests hashString32 (w_store w) (log (w_manager w')) =
    provider_view (seed_digests hashString32 (w_manager w) (w_store w)) (digests hashString32 (w_store w) [1%nat; 2%nat]).
Proof.
  split; [vm_compute; reflexivity|].
  refine (proj1 (log_follows_messages no_wire false hashString32 [note "seed"; note "a"; note "b"] seeded_ops [1%nat; 2%nat] _)).
  apply allowed_run_sound. vm_compute. reflexivity.
Defined.

Lemma cached_prefix_stable_witness :
  let t1 := turn no_wire false hashString32 new_manager [note "a"; note "b"] [0%nat] (prompt_context "Stay." []) true in
  let t2 := turn no_wire false hashString32 t1.2 [note "a"; note "b"] [0%nat; 1%nat] (prompt_context "Stay." []) true in
  exists c1 c2 new, t1.1.1 = Ok c1 /\ t2.1.1 = Ok c2 /\ t2.1.2 = [] /\
    c_systemPrompt c2 = c_systemPrompt c1 /\ c_tools c2 = c_tools c1 /\ c_messages c2 = c_messages c1 ++ new /\
    digests hashString32 [note "a"; note "b"] (c_messages c1) = digests hashString32 [note "a"; note "b"] (c_messages c1).
Proof.
  refine (cached_prefix_stable no_wire false hashString32 [note "a"; note "b"] [] [0%nat] (prompt_context "Stay." []) true
    [note "a"; note "b"] [0%nat; 1%nat] (prompt_context "Stay." []) true _ _ _).
  - apply allowed_run_sound. vm_compute. reflexivity.
  - reflexivity.
  - eexists. vm_compute. reflexivity.
Defined.

(** An entry whose object was changed while another object with its old
    contents is passed stays in the log as it is. *)
Example stale_entry :
  let m := syncMessages hashString32 new_manager [note "a"; note "a"] [0%nat] in
  let st := [note "changed"; note "a"] in
  (log (syncMessages hashString32 m st [1%nat]), entries_freshb hashString32 m st [1%nat]) = ([0%nat], false).
Proof. vm_compute. reflexivity. Qed.
