(* ===== verification/AppendOnlyFork.v ===== *)
(** * Forking an append-only context

    A prefix that was exported can be imported under the same options, because
    normalizing a copy of normalized tools changes nothing.  Over
    [AppendOnlyContext.v]. *)

From Stdlib Require Import Ascii.
From S2P Require Import Prelude JsNumber JsValue JsonClone AppendOnlyContext AppendOnlyRuns.

Local Open Scope string_scope.
Local Open Scope list_scope.

Notation fields := (list (string * value)) (only parsing).

(** ** Properties of objects *)

Lemma own_map_set (fs : fields) k v k' :
  own (map_set fs k v) k' = if decide (k = k') then Some v else own fs k'.
Proof.
  induction fs as [|[a x] fs IH]; cbn [map_set own]; [done|].
  destruct (decide (a = k)) as [->|Ha]; cbn [own]; [by case_decide|]. rewrite IH. repeat case_decide; congruence.
Qed.

Lemma map_set_own (fs : fields) k v : own fs k = Some v -> map_set fs k v = fs.
Proof.
  induction fs as [|[a x] fs IH]; cbn [map_set own]; [done|]. case_decide; [|intros Hv; by rewrite IH].
  intros [= ->]. by subst a.
Qed.

Lemma own_cloned_fields clone (fs : fields) k :
  NoDup fs.*1 ->
  own (cloned_fields clone fs) k =
    match own fs k with Some v => if is_undefined (clone k v) then None else Some (clone k v) | None => None end.
Proof.
  induction fs as [|[a x] fs IH]; intros Hn; [done|]. rewrite fmap_cons in Hn. apply NoDup_cons in Hn as [Ha Hn].
  unfold cloned_fields. rewrite fmap_cons, filter_cons. cbn [fst snd own].
  fold (cloned_fields clone fs). case_decide as Hu; cbn [own].
  - case_decide; [|by apply IH]. subst a. by rewrite Hu.
  - case_decide; [|by apply IH]. subst a. apply not_false_iff_true in Hu. rewrite Hu. cbn in Ha.
    apply own_None. intros Hin. by apply Ha, (cloned_fields_keys clone).
Qed.

Lemma json_data_obj (fs : fields) :
  json_data (V_obj fs None) <-> NoDup fs.*1 /\ "__proto__" ∉ fs.*1 /\ forall k v, own fs k = Some v -> json_data v.
Proof.
  split.
  - inversion 1; subst. split_and!; try done. intros k v Hv. apply own_Some_elem in Hv. eauto.
  - intros (Hn & Hp & Hv). constructor; try done. intros k v Hin. by apply (Hv k), own_elem.
Qed.

Lemma json_data_set (fs : fields) k v :
  json_data (V_obj fs None) -> k <> "__proto__" -> json_data v -> json_data (V_obj (map_set fs k v) None).
Proof.
  rewrite !json_data_obj. intros (Hn & Hp & Hv) Hk Hd. split_and!; [by apply map_set_NoDup| |].
  - rewrite map_set_in. naive_solver.
  - intros k' v'. rewrite own_map_set. case_decide; [naive_solver|apply Hv].
Qed.

Lemma json_data_wf v : json_data v -> well_formed v.
Proof.
  induction v as [| |bo|x|st| |items IH|fs toJSON IH _] using value_nested_ind; intros Hd; try constructor; try done.
  - intros i v Hi. rewrite Forall_forall in IH. pose proof (IH _ (list_elem_of_lookup_2 _ _ _ Hi)) as Hv. apply Hv.
    inversion Hd as [| | | |l Hl El|]. subst items. rewrite list_lookup_fmap in Hi. apply Hl.
    destruct (l !! i) as [x|] eqn:E; [|done]. cbn in Hi. injection Hi as ->. by apply list_elem_of_lookup_2 in E.
  - by inversion Hd.
  - by inversion Hd.
  - intros k v Hv. rewrite Forall_forall in IH. apply (IH _ Hv). inversion Hd; subst; eauto.
  - intros f k ->. by inversion Hd.
Qed.

(** ** Injecting the intent field twice *)

Lemma index_intent : is_index INTENT_FIELD = false.
Proof. vm_compute. reflexivity. Qed.

Lemma own_with_intent x rest : own (with_intent x rest) INTENT_FIELD = Some x.
Proof.
  unfold with_intent. assert (own (filter (fun p : string * value => is_index p.1 = true) rest) INTENT_FIELD = None) as E.
  { apply own_None. intros (p & Hp & [Hi _]%list_elem_of_filter)%list_elem_of_fmap. rewrite <- Hp, index_intent in Hi. done. }
  revert E. generalize (filter (fun p : string * value => is_index p.1 = true) rest) as idx.
  induction idx as [|[k v] idx IH]; cbn [own app]; [by rewrite decide_True|]. case_decide; [done|apply IH].
Qed.

Lemma filter_filter_intent b (ps : fields) :
  filter (fun p => is_index p.1 = b) (filter (fun p => p.1 <> INTENT_FIELD) ps) =
  filter (fun p => p.1 <> INTENT_FIELD) (filter (fun p => is_index p.1 = b) ps).
Proof.
  induction ps as [|p ps IH]; [done|]. rewrite !filter_cons. repeat case_decide; rewrite ?filter_cons, ?IH; repeat case_decide; congruence.
Qed.

Lemma filter_idem {A} (P : A -> Prop) `{!forall x, Decision (P x)} (ps : list A) : filter P (filter P ps) = filter P ps.
Proof. induction ps as [|p ps IH]; [done|]. rewrite filter_cons. case_decide; rewrite ?filter_cons, ?decide_True, ?IH; done. Qed.

Lemma filter_none (P Q : string * value -> Prop) `{!forall x, Decision (P x), !forall x, Decision (Q x)} (ps : fields) :
  (forall p, P p -> ~ Q p) -> filter P (filter Q ps) = [].
Proof.
  intros Hpq. induction ps as [|p ps IH]; [done|]. rewrite filter_cons. case_decide; [|done]. rewrite filter_cons, decide_False; [done|].
  intros Hp. by apply (Hpq p).
Qed.

(** The intent field is put at the same place again. *)
Lemma with_intent_idem x ps :
  INTENT_FIELD ∉ ps.*1 ->
  with_intent x (filter (fun p => p.1 <> INTENT_FIELD) (with_intent x ps)) = with_intent x ps.
Proof.
  intros Hn. assert (forall b, filter (fun p : string * value => p.1 <> INTENT_FIELD) (filter (fun p => is_index p.1 = b) ps)
    = filter (fun p => is_index p.1 = b) ps) as Hf.
  { intros b. rewrite <- filter_filter_intent. f_equal. clear b. induction ps as [|p ps IH]; [done|]. rewrite fmap_cons in Hn.
    apply not_elem_of_cons in Hn as [Hp Hn]. rewrite filter_cons, decide_True by congruence. by rewrite IH. }
  unfold with_intent at 1 2 3. rewrite !filter_app, !filter_cons. cbn [fst]. rewrite decide_False by congruence.
  rewrite !Hf, !filter_idem. rewrite (filter_none (fun p => is_index p.1 = true)) by congruence.
  rewrite (filter_none (fun p => is_index p.1 = false)) by congruence. by rewrite app_nil_r.
Qed.

(** What the properties and the required list of a schema are read as. *)
Definition schema_properties (fs : fields) : fields :=
  match own fs "properties" with Some (V_obj ps _) => ps | _ => [] end.

Definition schema_required (fs : fields) : list (option value) :=
  match own fs "required" with Some (V_arr items) => filter (fun o => is_text o = true) items | _ => [] end.

Definition names_intent (o : option value) : bool :=
  match o with Some (V_str s) => bool_decide (s = INTENT_FIELD) | _ => false end.

Definition properties_injected (fs : fields) : Prop :=
  exists ip rest, INTENT_FIELD ∉ rest.*1 /\ own fs "properties" = Some (V_obj (with_intent ip rest) None) \/
     own fs "properties" = Some (V_obj ((INTENT_FIELD, ip) :: rest) None).

(** A schema with the intent field in its place, and required where the mode
    asks for it. *)
Definition injected (fs : fields) (mode : intent_mode) : Prop :=
  properties_injected fs /\
  (mode = require -> existsb names_intent (schema_required fs) = true).

Lemma inject_injected fs mode : injected fs mode -> injectIntentIntoSchema (V_obj fs None) mode = V_obj fs None.
Proof.
  intros [Hp Hr]. cbn [injectIntentIntoSchema]. fold (schema_required fs). fold names_intent.
  assert (spread_toJSON fs None = None) as -> by (unfold spread_toJSON; by case_decide).
  assert (bool_decide (mode = require) && negb (existsb names_intent (schema_required fs)) = false) as ->.
  { case_bool_decide; [|done]. by rewrite Hr. }
  destruct Hp as (ip & rest & [[Hn E]|E]); rewrite E.
  - rewrite own_with_intent. cbn [negb andb]. rewrite andb_true_r, with_intent_idem by done.
    rewrite map_set_own by done. by destruct (bool_decide _).
  - cbn [own]. rewrite decide_True by done. cbn [fst head fmap list_fmap]. by rewrite bool_decide_eq_true_2.
Qed.

Lemma existsb_text_app items o : existsb names_intent (filter (fun o => is_text o = true) (filter (fun o => is_text o = true) items ++ [o])) =
  existsb names_intent (filter (fun o => is_text o = true) items) || names_intent o.
Proof.
  rewrite filter_app, filter_idem, existsb_app. f_equal. rewrite filter_cons. destruct o as [[]|]; case_decide; cbn in *; rewrite ?orb_false_r; done.
Qed.

Lemma required_set fs items : schema_required (map_set fs "required" (V_arr items)) = filter (fun o => is_text o = true) items.
Proof. unfold schema_required. by rewrite own_map_set, decide_True by done. Qed.

Lemma filter_NoDup_keys (P : string * value -> Prop) `{!forall x, Decision (P x)} (fs : fields) :
  NoDup fs.*1 -> NoDup (filter P fs).*1.
Proof. intros Hn. eapply sublist_NoDup; [exact Hn|apply fmap_sublist, sublist_filter]. Qed.

Lemma with_intent_data ip rest :
  json_data ip -> json_data (V_obj rest None) -> INTENT_FIELD ∉ rest.*1 -> json_data (V_obj (with_intent ip rest) None).
Proof.
  rewrite !json_data_obj. intros Hi (Hn & Hp & Hv) Hni.
  assert (with_intent ip rest ≡ₚ (INTENT_FIELD, ip) :: rest) as Hperm.
  { unfold with_intent. rewrite <- Permutation_middle. f_equiv.
    assert (filter (fun p : string * value => is_index p.1 = false) rest = filter (fun p => ~ is_index p.1 = true) rest) as ->.
    { apply list_filter_iff. intros p. by destruct (is_index p.1). }
    apply filter_app_complement. }
  assert (NoDup (with_intent ip rest).*1) as Hnd by (rewrite Hperm; cbn; by apply NoDup_cons).
  split; [done|]. split; [rewrite Hperm; cbn; apply not_elem_of_cons; done|].
  intros k v Hk. apply own_Some_elem in Hk. rewrite Hperm in Hk. apply elem_of_cons in Hk as [[= -> ->]|Hk]; [done|].
  apply (Hv k). by apply own_elem.
Qed.

Lemma without_intent_data ps : json_data (V_obj ps None) -> json_data (V_obj (filter (fun p => p.1 <> INTENT_FIELD) ps) None).
Proof.
  rewrite !json_data_obj. intros (Hn & Hp & Hv).
  assert (forall p, p ∈ filter (fun p : string * value => p.1 <> INTENT_FIELD) ps -> p ∈ ps) as Hsub
    by (intros p [_ Hin]%list_elem_of_filter; done).
  split_and!; [by apply filter_NoDup_keys|intros (p & Ep & Hin)%list_elem_of_fmap; apply Hp, list_elem_of_fmap; eauto|].
  intros k v Hk. apply own_Some_elem, Hsub in Hk. apply (Hv k). by apply own_elem.
Qed.

Lemma without_intent_keys (ps : fields) : INTENT_FIELD ∉ (filter (fun p => p.1 <> INTENT_FIELD) ps).*1.
Proof. by intros (p & Ep & [Hne _]%list_elem_of_filter)%list_elem_of_fmap. Qed.

Lemma required_data fs : json_data (V_arr (schema_required fs ++ [Some (V_str INTENT_FIELD)])).
Proof.
  assert (exists l, schema_required fs = Some <$> l /\ forall v, v ∈ l -> exists s, v = V_str s) as (l & -> & Hl).
  { unfold schema_required. destruct (own fs "required") as [[]|]; try (exists []; split; [done|]; intros v []%elem_of_nil).
    induction items as [|o items (l & E & Hl)]; [exists []; split; [done|]; intros v []%elem_of_nil|].
    rewrite filter_cons. case_decide as Ho; [|by exists l]. destruct o as [[| | | |s| | |]|]; try done.
    exists (V_str s :: l). rewrite E. split; [done|]. intros v [->|Hv]%elem_of_cons; [by exists s|by apply Hl]. }
  replace ((Some <$> l) ++ [Some (V_str INTENT_FIELD)]) with (Some <$> (l ++ [V_str INTENT_FIELD])) by by rewrite fmap_app.
  apply D_list. intros v [Hv|Hv]%elem_of_app; [destruct (Hl v Hv) as [s ->]; constructor|].
  apply list_elem_of_singleton in Hv as ->. constructor.
Qed.


(** The last step: the required list, where the mode asks for it. *)
Lemma finish_injection fs fs1 (needs : bool) mode :
  json_data (V_obj fs1 None) -> properties_injected fs1 -> schema_required fs1 = schema_required fs ->
  (needs = false -> mode = require -> existsb names_intent (schema_required fs) = true) ->
  let fs2 := if needs then map_set fs1 "required" (V_arr (schema_required fs ++ [Some (V_str INTENT_FIELD)])) else fs1 in
  json_data (V_obj fs2 None) /\ forall mode', (mode' = require -> mode = require) -> injected fs2 mode'.
Proof.
  intros Hd Hp Hr Hn. destruct needs; cbn zeta.
  - split; [apply json_data_set; [done|done|apply required_data]|]. intros mode' _. split.
    + destruct Hp as (ip & rest & Hp). exists ip, rest. by rewrite own_map_set, decide_False by done.
    + intros _. rewrite required_set. unfold schema_required.
      destruct (own fs "required") as [[]|]; try done. rewrite existsb_text_app. by rewrite orb_true_r.
  - split; [done|]. intros mode' Hm. split; [done|]. rewrite Hr. auto.
Qed.

Lemma properties_data fs ps toJSON :
  json_data (V_obj fs None) -> own fs "properties" = Some (V_obj ps toJSON) -> toJSON = None /\ json_data (V_obj ps None).
Proof. rewrite json_data_obj. intros (_ & _ & Hv) E. apply Hv in E. inversion E; subst. by split. Qed.

Lemma required_map_set_properties fs v : schema_required (map_set fs "properties" v) = schema_required fs.
Proof. unfold schema_required. by rewrite own_map_set, decide_False by done. Qed.

Lemma inject_spec fs mode :
  json_data (V_obj fs None) ->
  exists fs', injectIntentIntoSchema (V_obj fs None) mode = V_obj fs' None /\ json_data (V_obj fs' None) /\
    forall mode', (mode' = require -> mode = require) -> injected fs' mode'.
Proof.
  intros Hd. cbn [injectIntentIntoSchema]. fold (schema_required fs) (schema_properties fs). fold names_intent.
  assert (spread_toJSON fs None = None) as -> by (unfold spread_toJSON; by case_decide).
  assert (json_data (V_obj (schema_properties fs) None)) as Hps.
  { unfold schema_properties. destruct (own fs "properties") as [[]|] eqn:E;
      try (rewrite json_data_obj; split_and!; [constructor|apply not_elem_of_nil|done]). by eapply properties_data. }
  assert (json_data (V_obj [("type", V_str "string")] None)) as Htype.
  { rewrite json_data_obj. split_and!; [apply NoDup_singleton|by intros Hx%list_elem_of_singleton|].
    intros k v. cbn [own]. case_decide; [|done]. intros [= <-]. constructor. }
  destruct (own (schema_properties fs) INTENT_FIELD) as [ip|] eqn:Ei.
  - assert (own fs "properties" = Some (V_obj (schema_properties fs) None)) as Eps.
    { unfold schema_properties in *. destruct (own fs "properties") as [[]|] eqn:E; try done.
      by destruct (properties_data fs _ _ Hd E) as [-> _]. }
    set (ps := schema_properties fs) in *. set (rest := filter (fun p : string * value => p.1 <> INTENT_FIELD) ps).
    assert (json_data ip) as Hip by (apply json_data_obj in Hps as (_ & _ & Hv); eauto).
    assert (forall fs1, fs1 = map_set fs "properties" (V_obj (with_intent ip rest) None) ->
      json_data (V_obj fs1 None) /\ properties_injected fs1 /\ schema_required fs1 = schema_required fs) as Hre.
    { intros fs1 ->. split; [|split; [|apply required_map_set_properties]].
      - apply json_data_set; [done|done|]. apply with_intent_data; [done|by apply without_intent_data|apply without_intent_keys].
      - exists ip, rest. left. split; [apply without_intent_keys|]. by rewrite own_map_set, decide_True by done. }
    set (needs := bool_decide (mode = require) && negb (existsb names_intent (schema_required fs))).
    assert (needs = false -> mode = require -> existsb names_intent (schema_required fs) = true) as Hneeds.
    { intros Hn ->. unfold needs in Hn. cbn [bool_decide_eq_true] in Hn. rewrite bool_decide_eq_true_2 in Hn by done.
      by apply negb_false_iff. }
    destruct (bool_decide (head ps.*1 = Some INTENT_FIELD)) eqn:Eh; cbn [negb andb].
    + assert (properties_injected fs) as Hinj.
      { apply bool_decide_eq_true in Eh. destruct ps as [|[k x] ps']; [done|]. cbn in Eh. injection Eh as ->.
        exists x, ps'. by right. }
      destruct (finish_injection fs fs needs mode Hd Hinj eq_refl Hneeds) as [H1 H2].
      destruct needs; eexists; split; done.
    + destruct (Hre _ eq_refl) as (H1 & H2 & H3). destruct (finish_injection fs _ needs mode H1 H2 H3 Hneeds) as [H4 H5].
      eexists; split; [done|]. done.
  - set (fs1 := map_set fs "properties" _).
    assert (properties_injected fs1) as Hinj.
    { eexists _, _. left. split; [by apply own_None in Ei|]. unfold fs1. by rewrite own_map_set, decide_True by done. }
    assert (json_data (V_obj fs1 None)) as H1.
    { apply json_data_set; [done|done|]. apply with_intent_data; [done|done|by apply own_None in Ei]. }
    destruct (finish_injection fs fs1 (bool_decide (mode = require)) mode H1 Hinj (required_map_set_properties _ _)) as [H4 H5].
    { intros Hb ->. by apply bool_decide_eq_false in Hb. }
    eexists; split; [done|]. done.
Qed.

(** ** Normalizing a copy *)

Section fork.
Context (wire : value -> option value) (no_intent : bool).
Context (wire_data : forall v, json_data v -> wire v = None).

Local Abbreviation normalizeTool := (normalizeTool wire no_intent).

(** Absent, a function, [undefined] or JSON data. *)
Definition plain_or_absent (o : option value) : Prop :=
  match o with None | Some V_fun | Some V_undefined => True | Some v => json_data v end.

Definition injects (i : bool) (t : Tool) : bool :=
  i && negb no_intent && negb (bool_decide (resolveIntentMode (tool_get t "intent") = omit)).

(** The tools whose snapshot can be exported: their texts are plain, their
    schema is JSON data or a Zod schema that is converted, and a tool that omits
    the intent field says so in a property that is copied. *)
Record exportable (i : bool) (t : Tool) : Prop := {
  ex_wf : well_formed (V_obj (own_fields t) None);
  ex_plain : forall k, k ∈ ["name"; "strict"; "customFormat"; "customWireName"; "intent"] -> plain_or_absent (own (own_fields t) k);
  ex_description : match tool_get t "description" with V_undefined | V_null | V_str _ => True | _ => False end;
  ex_parameters : json_data (if injects i t then default (tool_get t "parameters") (wire (tool_get t "parameters"))
                             else tool_get t "parameters");
  ex_intent : i && negb no_intent = true -> resolveIntentMode (tool_get t "intent") = omit ->
              own (own_fields t) "intent" = Some (V_str "omit")
}.

Lemma well_formed_fields (fs : fields) :
  well_formed (V_obj fs None) <-> NoDup fs.*1 /\ "__proto__" ∉ fs.*1 /\ forall k v, own fs k = Some v -> well_formed v.
Proof.
  split.
  - inversion 1; subst. split_and!; try done. intros k v Hv. apply own_Some_elem in Hv. eauto.
  - intros (Hn & Hp & Hv). constructor; try done. intros k v Hin. by apply (Hv k), own_elem.
Qed.

Lemma clone_tool_fields (fs : fields) :
  well_formed (V_obj fs None) -> clone_tool fs = cloned_fields (fun k v => cloneJsonValue v k true) fs.
Proof. intros (Hn & Hp & _)%well_formed_fields. unfold clone_tool, cloneJson. cbn [cloneJsonValue]. by apply clone_fields_nil. Qed.

Lemma clone_tool_data (fs : fields) : well_formed (V_obj fs None) -> json_data (V_obj (clone_tool fs) None).
Proof.
  intros Hw. pose proof (clone_is_data _ Hw "" true) as H. unfold clone_tool, cloneJson. cbn [cloneJsonValue] in *. by apply H.
Qed.

Lemma clone_tool_idem (fs : fields) : json_data (V_obj fs None) -> clone_tool fs = fs.
Proof. intros Hd. unfold clone_tool, cloneJson. by rewrite clone_data. Qed.

Lemma own_clone_tool (fs : fields) k :
  well_formed (V_obj fs None) -> plain_or_absent (own fs k) ->
  own (clone_tool fs) k = match own fs k with Some V_fun | Some V_undefined => None | o => o end.
Proof.
  intros Hw Hp. rewrite clone_tool_fields by done. apply well_formed_fields in Hw as (Hn & _). rewrite own_cloned_fields by done.
  destruct (own fs k) as [v|]; [|done]. destruct v; try done; cbn [plain_or_absent] in Hp;
    by rewrite (clone_data _ Hp).
Qed.

(** What the normalized tool has. *)
Lemma normalize_fields i t :
  exportable i t ->
  let n := normalizeTool i t in
  well_formed (V_obj n None) /\
  (exists d, own n "description" = Some (V_str d)) /\
  (exists p, own n "parameters" = Some p /\ json_data p /\
     (injects i t = true -> forall mode', (mode' = require -> resolveIntentMode (tool_get t "intent") = require) ->
        injectIntentIntoSchema p mode' = p)) /\
  forall k, k <> "description" -> k <> "parameters" -> own n k = own (own_fields t) k.
Proof.
  intros [Hw Hp Hdesc Hpar Hi]. cbn zeta. unfold AppendOnlyContext.normalizeTool. fold (injects i t).
  set (d := match tool_get t "description" with V_undefined | V_null => V_str "" | d => d end).
  assert (exists s, d = V_str s) as [s ->] by (unfold d; destruct (tool_get t "description"); eauto; done).
  set (p := if injects i t then injectIntentIntoSchema _ _ else _).
  assert (json_data p /\ (injects i t = true -> forall mode', (mode' = require -> resolveIntentMode (tool_get t "intent") = require) ->
    injectIntentIntoSchema p mode' = p)) as [Hpd Hinj].
  { unfold p. destruct (injects i t); [|done]. set (q := default _ _) in *. set (mode := resolveIntentMode _).
    destruct q as [| |b|x|str| |items|fs tj]; try (by split). assert (tj = None) as -> by (by inversion Hpar).
    destruct (inject_spec fs mode Hpar) as (fs' & -> & H1 & H2). split; [done|]. intros _ mode' Hm.
    by apply inject_injected, H2. }
  assert (forall k, own (map_set (map_set (own_fields t) "parameters" p) "description" (V_str s)) k =
    if decide ("description" = k) then Some (V_str s) else if decide ("parameters" = k) then Some p else own (own_fields t) k) as Ho
    by (intros k; by rewrite !own_map_set).
  apply well_formed_fields in Hw as (Hn & Hpr & Hv). split_and!.
  - apply well_formed_fields. split_and!; [by apply map_set_NoDup, map_set_NoDup| |].
    + rewrite !map_set_in. naive_solver.
    + intros k v. rewrite Ho. repeat case_decide; [intros [= <-]; constructor|intros [= <-]; by apply json_data_wf|apply Hv].
  - exists s. by rewrite Ho, decide_True by done.
  - exists p. by rewrite Ho, decide_False, decide_True by done.
  - intros k H1 H2. by rewrite Ho, !decide_False by congruence.
Qed.

(** The properties a fingerprint and a second normalization read. *)
Definition copied_keys : list string := ["name"; "strict"; "customFormat"; "customWireName"; "intent"; "description"; "parameters"].

Ltac key_in := apply (bool_decide_unpack _); vm_compute; exact I.

Definition copied (fs : fields) : Tool := {| own_fields := fs; inherited := [] |}.

Lemma plain_get i t k :
  exportable i t -> k ∈ copied_keys ->
  plain_or_absent (own (normalizeTool i t) k).
Proof.
  intros He Hk. destruct (normalize_fields i t He) as (_ & [d Ed] & (p & Ep & Hp & _) & Ho).
  destruct (decide (k = "description")) as [->|H1]; [rewrite Ed; constructor|].
  destruct (decide (k = "parameters")) as [->|H2]; [rewrite Ep; by destruct p|].
  rewrite Ho by done. apply (ex_plain _ _ He). set_solver.
Qed.

Lemma normalize_copy i t :
  exportable i t -> normalizeTool i (copied (clone_tool (normalizeTool i t))) = clone_tool (normalizeTool i t).
Proof.
  intros He. destruct (normalize_fields i t He) as (Hw & [d Ed] & (p & Ep & Hp & Hinj) & Ho).
  set (n := normalizeTool i t) in *.
  assert (forall k, k ∈ copied_keys ->
    own (clone_tool n) k = match own n k with Some V_fun | Some V_undefined => None | o => o end) as Hc.
  { intros k Hk. apply own_clone_tool; [done|]. by apply plain_get. }
  assert (own (clone_tool n) "description" = Some (V_str d)) as Ed' by (rewrite Hc, Ed by key_in; done).
  assert (own (clone_tool n) "parameters" = Some p) as Ep' by (rewrite Hc, Ep by key_in; destruct p; try done; by inversion Hp).
  unfold AppendOnlyContext.normalizeTool at 1. cbn [own_fields copied].
  assert (tool_get (copied (clone_tool n)) "description" = V_str d) as -> by (unfold tool_get; cbn [own_fields copied]; by rewrite Ed').
  assert (tool_get (copied (clone_tool n)) "parameters" = p) as -> by (unfold tool_get; cbn [own_fields copied]; by rewrite Ep').
  rewrite (wire_data p Hp). cbn [default]. fold (injects i (copied (clone_tool n))).
  assert ((if injects i (copied (clone_tool n)) then injectIntentIntoSchema p (resolveIntentMode (tool_get (copied (clone_tool n)) "intent")) else p) = p) as E.
  { destruct (injects i (copied (clone_tool n))) eqn:Ei; [|done]. unfold injects in Ei. apply andb_true_iff in Ei as [Ei Em].
    assert (tool_get (copied (clone_tool n)) "intent" =
      match own (own_fields t) "intent" with Some V_fun | Some V_undefined | None => V_undefined | Some v => v end) as Et.
    { unfold tool_get. cbn [own_fields copied inherited own default]. rewrite Hc, Ho by (done || key_in).
      by destruct (own (own_fields t) "intent") as [[]|]. }
    rewrite Et in *. apply Hinj.
    - unfold injects. rewrite Ei. cbn [andb]. destruct (decide (resolveIntentMode (tool_get t "intent") = omit)) as [Eo|Eo];
        [|by rewrite bool_decide_eq_false_2].
      rewrite (ex_intent _ _ He Ei Eo) in Em. done.
    - intros mode'. destruct (own (own_fields t) "intent") as [v|] eqn:Eo; [|done].
      assert (tool_get t "intent" = v) as -> by (unfold tool_get; by rewrite Eo). by destruct v. }
  rewrite E, (map_set_own _ "parameters") by done. by rewrite map_set_own.
Qed.

(** A copy has the same fingerprint. *)
Lemma fingerprinted_copy i t key :
  exportable i t ->
  serialize (fingerprinted (clone_tool (normalizeTool i t))) key true = serialize (fingerprinted (normalizeTool i t)) key true.
Proof.
  intros He. destruct (normalize_fields i t He) as (Hw & _).
  assert (forall k key, k ∈ copied_keys ->
    serialize (default V_undefined (own (clone_tool (normalizeTool i t)) k)) key true =
    serialize (default V_undefined (own (normalizeTool i t) k)) key true) as Hk.
  { intros k key' Hk. rewrite own_clone_tool by (done || by apply plain_get). by destruct (own _ k) as [[]|]. }
  unfold fingerprinted. cbn [serialize text_fields]. by rewrite !Hk by key_in.
Qed.

Lemma on_items_text (f g : list fields) i :
  Forall2 (fun a b => forall key, serialize (fingerprinted a) key true = serialize (fingerprinted b) key true) f g ->
  on_items (fun k v => default "null" (serialize v k true)) "null" i (Some <$> (fingerprinted <$> f)) =
  on_items (fun k v => default "null" (serialize v k true)) "null" i (Some <$> (fingerprinted <$> g)).
Proof. intros H. revert i. induction H as [|a b f g Hab _ IH]; intros i; [done|]. cbn [fmap list_fmap on_items]. by rewrite IH, Hab. Qed.

Lemma computeFingerprint_copy prompt i ts :
  Forall (exportable i) ts ->
  computeFingerprint prompt (clone_tool <$> (normalizeTool i <$> ts)) i = computeFingerprint prompt (normalizeTool i <$> ts) i.
Proof.
  intros He. unfold computeFingerprint, payload. do 3 f_equal. unfold json_stringify, V_list. cbn [serialize text_fields].
  rewrite (on_items_text (clone_tool <$> (normalizeTool i <$> ts)) (normalizeTool i <$> ts)); [done|].
  induction He as [|t ts Ht _ IH]; constructor; [intros key; by apply fingerprinted_copy|done].
Qed.

Lemma import_export ctx i q s :
  Forall (exportable i) (from_option snd [] (ctx_tools ctx)) -> s = takeSnapshot wire no_intent ctx i ->
  exists q', importSnapshot wire no_intent q (clone_snapshot s) i = (Ok tt, q') /\ snapshot q' = Some (clone_snapshot s) /\
    version q' = (version q + 1)%Z.
Proof.
  intros He ->. set (s := takeSnapshot _ _ _ _).
  assert (tools s = normalizeTool i <$> from_option snd [] (ctx_tools ctx)) as Et
    by (unfold s, takeSnapshot; cbn [tools]; by destruct (ctx_tools ctx)).
  assert (fingerprint s = computeFingerprint (systemPrompt s) (tools s) i) as Ef by done.
  assert (normalizeImportedTools wire no_intent (clone_tool <$> tools s) i = clone_tool <$> tools s) as En.
  { unfold normalizeImportedTools, normalizeTools. cbn [fmap option_fmap option_map default]. rewrite Et. clear -wire_data He.
    induction He as [|t ts Ht _ IH]; [done|]. cbn [fmap list_fmap]. cbn in IH.
    assert (json_data (V_obj (clone_tool (normalizeTool i t)) None)) as Hd
      by (apply clone_tool_data; by destruct (normalize_fields i t Ht)).
    rewrite (clone_tool_idem (clone_tool (normalizeTool i t))) by done. fold (copied (clone_tool (normalizeTool i t))).
    unfold id in *. cbn [from_option fmap list_fmap] in IH |- *. f_equal; [|exact IH].
    change (clone_tool (normalizeTool i (copied (clone_tool (normalizeTool i t)))) = clone_tool (normalizeTool i t)).
    by rewrite normalize_copy, clone_tool_idem. }
  unfold importSnapshot. cbn [tools systemPrompt fingerprint clone_snapshot]. rewrite En, Ef.
  assert (computeFingerprint (systemPrompt s) (clone_tool <$> tools s) i = computeFingerprint (systemPrompt s) (tools s) i) as Ec
    by (rewrite Et; by apply computeFingerprint_copy).
  rewrite Ec, decide_False by (intros H; by apply H). eexists. split; [done|]. cbn. split; [|done]. f_equal.
Qed.
End fork.

(** A fork inherits what its parent's provider has cached.  A prefix that
    was built from a context, exported and imported by a fork under the same
    options is accepted, and the fork's next [build] with that context reports
    no change and returns the parent's prompt and tools; its messages are new
    objects with the JSON texts of the parent's messages, in order, and no
    object of the parent is touched. *)
Theorem fork_inherits_context wire no_intent hashSource p ctx i st ms
  (Hwire : forall v, json_data v -> wire v = None)
  (Htools : Forall (exportable wire no_intent i) (from_option snd [] (ctx_tools ctx)))
  (Hp : snapshot p = Some (takeSnapshot wire no_intent ctx i))
  (Hms : forall r, r ∈ ms -> well_formed (deref st r)) :
  exists m st' prompt ts refs,
    forkFromSeed wire no_intent hashSource (exportSnapshot p) st (Some ms) i = (Ok m, st') /\
    toContext p = Ok (prompt, ts) /\
    (build wire no_intent m ctx i).1 = (Ok {| c_systemPrompt := prompt; c_messages := refs; c_tools := ts |}, []) /\
    take (length st) st' = st /\ length refs = length ms /\ (forall r, r ∈ refs -> (length st <= r)%nat) /\
    forall j r r', refs !! j = Some r -> ms !! j = Some r' ->
      default "null" (json_stringify (deref st' r)) = default "null" (serialize (deref st r') (show_Z (Z.of_nat j)) true).
Proof.
  destruct (import_export wire no_intent Hwire ctx i new_prefix _ Htools eq_refl) as (q & Eq & Es & _).
  set (s := takeSnapshot wire no_intent ctx i) in *. unfold exportSnapshot, forkFromSeed. rewrite Hp. cbn [fmap option_fmap option_map].
  rewrite Eq. unfold seedNormalizedMessages. rewrite decide_False by (cbn; lia). cbn [outcome_bind].
  set (copies := imap _ ms). assert (length copies = length ms) as El by apply length_imap.
  unfold toContext at 1. rewrite Hp. do 4 eexists. exists (seq (length st) (length copies)).
  split; [done|]. split; [done|]. split; [|split; [by apply take_app_length|split; [by rewrite length_seq|split]]].
  - unfold build. cbn [prefix with_log with_prefix log].
    assert (build_prefix wire no_intent q ctx i = (false, (build_prefix wire no_intent q ctx i).2)) as Eb.
    { unfold build_prefix. rewrite Es. fold s. cbn [fingerprint clone_snapshot].
      destruct (_ && _); [done|]. by rewrite decide_True. }
    rewrite Eb. pose proof (build_prefix_spec wire no_intent q ctx i) as Hb. rewrite Eb in Hb. cbn zeta in Hb.
    destruct Hb as (s' & Es' & _ & _ & Hu & _). destruct (Hu eq_refl) as [Eu _]. rewrite Es' in Eu.
    rewrite Es in Eu. injection Eu as ->. unfold toContext. rewrite Es'. cbn [outcome_bind fst snd systemPrompt tools clone_snapshot].
    do 3 f_equal. rewrite <- list_fmap_compose. apply list_fmap_ext. intros k t Ht. cbn [compose]. apply clone_tool_idem, clone_tool_data.
    unfold s, takeSnapshot, normalizeTools in Ht. cbn [tools] in Ht.
    assert (exists t0, t0 ∈ from_option snd [] (ctx_tools ctx) /\ t = normalizeTool wire no_intent i t0) as (t0 & Ht0 & ->).
    { destruct (ctx_tools ctx) as [[x l]|]; [|done]. cbn in Ht |- *. unfold id in Ht. rewrite list_lookup_fmap in Ht.
      destruct (l !! k) as [t0|] eqn:E; [|done]. exists t0. split; [by apply list_elem_of_lookup_2 in E|by injection Ht]. }
    rewrite Forall_forall in Htools. by destruct (normalize_fields wire no_intent i t0 (Htools t0 Ht0)).
  - intros r Hr%elem_of_seq. lia.
  - intros j r r' Hr Hr'. apply lookup_seq in Hr as [-> Hj]. unfold deref at 1. unfold store in *. rewrite lookup_app_r by lia.
    replace (length st + j - length st)%nat with j by lia. unfold copies. rewrite list_lookup_imap, Hr'. cbn [fmap option_fmap option_map default from_option].
    unfold id. unfold json_stringify. rewrite <- or_null_text.
    rewrite <- (clone_text (deref st r')) by (apply Hms; by apply list_elem_of_lookup_2 in Hr').
    by rewrite (clone_plain _ _ _ (show_Z (Z.of_nat j)) true).
Qed.

(** ** Examples *)

(** A stand-in for live Zod schemas: an object with a [parse] method. *)
Definition sample_wire (v : value) : option value :=
  match v with
  | V_obj fs _ => match own fs "parse" with Some V_fun => Some (V_obj [("type", V_str "object")] None) | _ => None end
  | _ => None
  end.

Lemma sample_wire_data v : json_data v -> sample_wire v = None.
Proof.
  destruct v as [| |b|x|str| |items|fs tj]; try done. intros Hd. assert (tj = None) as -> by (by inversion Hd).
  apply json_data_obj in Hd as (_ & _ & Hv). cbn. destruct (own fs "parse") as [[]|] eqn:E; try done.
  apply Hv in E. by inversion E.
Qed.

Definition zod_schema : value := V_obj [("parse", V_fun); ("type", V_str "object")] None.

Definition tool (intent : list (string * value)) : Tool :=
  {| own_fields := [("name", V_str "read"); ("parameters", zod_schema); ("execute", V_fun)] ++ intent;
     inherited := [("description", V_str "Read a file")] |}.

Definition tool_context (t : Tool) : AgentContext := {| ctx_prompt := (0%nat, ["Stay."]); ctx_tools := Some (0%nat, [t]) |}.

Definition built_prefix (t : Tool) (i : bool) : StablePrefix :=
  (build_prefix sample_wire false new_prefix (tool_context t) i).2.

Lemma tool_exportable : exportable sample_wire false true (tool []).
Proof.
  assert (forall fs : fields, (forall k v, (k, v) ∈ fs -> v = V_fun \/ exists s, v = V_str s) ->
    bool_decide (NoDup fs.*1) = true -> bool_decide ("__proto__" ∉ fs.*1) = true -> well_formed (V_obj fs None)) as Hw.
  { intros fs Hv Hn%bool_decide_eq_true Hp%bool_decide_eq_true. constructor; try done.
    intros k v Hkv. destruct (Hv k v Hkv) as [->|[x ->]]; constructor. }
  split.
  - constructor; [apply (bool_decide_unpack _); vm_compute; exact I|apply (bool_decide_unpack _); vm_compute; exact I| |done].
    intros k v Hin. repeat (apply elem_of_cons in Hin as [[= -> ->]|Hin]); [constructor| |constructor|by apply elem_of_nil in Hin].
    apply Hw; [|vm_compute; reflexivity|vm_compute; reflexivity]. intros k v Hin.
    repeat (apply elem_of_cons in Hin as [[= -> ->]|Hin]); [by left|right; eauto|by apply elem_of_nil in Hin].
  - intros k Hk. repeat (apply elem_of_cons in Hk as [->|Hk]); [constructor|done|done|done|done|by apply elem_of_nil in Hk].
  - done.
  - apply (json_data_set [] "type" (V_str "object")); [|done|constructor]. apply json_data_obj. split_and!; [constructor|apply not_elem_of_nil|done].
  - done.
Qed.

Lemma fork_inherits_context_witness :
  let ctx := tool_context (tool []) in
  let st := [V_obj [("role", V_str "user"); ("at", V_obj [] (Some V_str))] None] in
  exists m st' prompt ts refs,
    forkFromSeed sample_wire false hashString32 (exportSnapshot (built_prefix (tool []) true)) st (Some [0%nat]) true = (Ok m, st') /\
    toContext (built_prefix (tool []) true) = Ok (prompt, ts) /\
    (build sample_wire false m ctx true).1 = (Ok {| c_systemPrompt := prompt; c_messages := refs; c_tools := ts |}, []) /\
    take (length st) st' = st /\ length refs = length [0%nat] /\ (forall r, r ∈ refs -> (length st <= r)%nat) /\
    forall j r r', refs !! j = Some r -> [0%nat] !! j = Some r' ->
      default "null" (json_stringify (deref st' r)) = default "null" (serialize (deref st r') (show_Z (Z.of_nat j)) true).
Proof.
  apply (fork_inherits_context sample_wire false hashString32 (built_prefix (tool []) true) (tool_context (tool [])) true).
  - exact sample_wire_data.
  - constructor; [apply tool_exportable|constructor].
  - reflexivity.
  - intros r [->|[]%elem_of_nil]%elem_of_cons. constructor; [apply (bool_decide_unpack _); vm_compute; exact I|apply (bool_decide_unpack _); vm_compute; exact I| |done].
    intros k v Hin. repeat (apply elem_of_cons in Hin as [[= -> ->]|Hin]); [constructor| |by apply elem_of_nil in Hin].
    constructor; [constructor|apply not_elem_of_nil|intros ? ? []%elem_of_nil|]. intros f k [= <-]. constructor.
Defined.

Definition imports (t : Tool) (i j : bool) : bool :=
  match exportSnapshot (built_prefix t i) with
  | Some e => match (importSnapshot sample_wire false new_prefix e j).1 with Ok _ => true | Throw _ => false end
  | None => false
  end.

(** A tool that derives its intent by a function loses the function in the
    copy; the import then injects the field and refuses the snapshot. *)
Example function_intent_breaks_fork :
  (imports (tool []) true true, imports (tool [("intent", V_str "omit")]) true true, imports (tool [("intent", V_fun)]) true true)
  = (true, true, false).
Proof. vm_compute. reflexivity. Qed.

(** A snapshot taken with intent tracing is refused by a fork without. *)
Example other_tracing_breaks_fork : imports (tool []) true false = false.
Proof. vm_compute. reflexivity. Qed.

(** Without the intent field, a Zod schema is served as a copy of its fields
    that is no Zod schema any more. *)
Example zod_schema_is_copied :
  match toContext (built_prefix (tool []) false) with
  | Ok (_, [t]) => (own t "parameters", sample_wire <$> own t "parameters")
  | _ => (None, None)
  end = (Some (V_obj [("type", V_str "object")] None), Some None).
Proof. vm_compute. reflexivity. Qed.
