(* ===== verification/JobRegistry.v ===== *)
(** * Background jobs and subagents ([async/job-manager.ts])

    Registration, settling, cancelling and eviction of jobs, their lifecycle
    hooks and tombstones; the records of subagents that pause, queue and
    resume; and the shutdown of an owner's subagents.  A run is one call of
    [register]: it makes a job object, which its asynchronous body holds even
    when the registry has forgotten it; the settling of the body is a step of
    its own ([settle]).  Deliveries and output ([JobDelivery.v], [JobOutput.v])
    get what the log records.  A resume runner is a callback that either
    registers a job, returns nothing or throws. *)

From stdpp Require Import sorting.
From S2P Require Import Prelude JsNumber JsValue JsText.

Local Open Scope string_scope.
Local Open Scope list_scope.
Local Open Scope Z_scope.

Definition MONITOR_TOMBSTONE_TTL_MS : Z := 5 * 60000.
Definition OWNER_SUBAGENT_SHUTDOWN_TIMEOUT_MS : Z := 5000.

(** ** Data *)

Inductive job_type := bash | task.
Inductive job_status := running | completed | failed | cancelled | paused.
Inductive SubagentLifecycle := S_running | S_paused | S_queued | S_completed | S_failed | S_cancelled.
Inductive phase := P_cancel | P_terminal | P_evict.

#[export] Instance job_status_eq_dec : EqDecision job_status.
Proof. solve_decision. Defined.
#[export] Instance SubagentLifecycle_eq_dec : EqDecision SubagentLifecycle.
Proof. solve_decision. Defined.
#[export] Instance phase_eq_dec : EqDecision phase.
Proof. solve_decision. Defined.

Record AsyncJob := {
  id : string;
  type : job_type;
  status : job_status;
  startTime : Z;
  endTime : option Z;
  label : string;
  aborted : bool;
  resultText : option string;
  errorText : option string;
  subagent_id : option string;
  monitor : bool;
  ownerId : option string
}.

Definition with_status (j : AsyncJob) s e : AsyncJob :=
  {| id := id j; type := type j; status := s; startTime := startTime j; endTime := e; label := label j;
     aborted := aborted j; resultText := resultText j; errorText := errorText j; subagent_id := subagent_id j;
     monitor := monitor j; ownerId := ownerId j |}.

Definition with_texts (j : AsyncJob) r e : AsyncJob :=
  {| id := id j; type := type j; status := status j; startTime := startTime j; endTime := endTime j; label := label j;
     aborted := aborted j; resultText := r; errorText := e; subagent_id := subagent_id j; monitor := monitor j;
     ownerId := ownerId j |}.

Definition abort (j : AsyncJob) : AsyncJob :=
  {| id := id j; type := type j; status := status j; startTime := startTime j; endTime := endTime j; label := label j;
     aborted := true; resultText := resultText j; errorText := errorText j; subagent_id := subagent_id j; monitor := monitor j;
     ownerId := ownerId j |}.

Definition jobElapsedMs (j : AsyncJob) (now : Z) : Z := Z.max 0 (default now (endTime j) - startTime j).

(** [freezeEndTime] *)
Definition frozen (j : AsyncJob) (now : Z) : option Z := Some (default now (endTime j)).

Record ResumeRequest := { rq_owner : option string; rq_seq : Z; rq_message : option string; createdAt : Z }.

Record SubagentRecord := {
  subagentId : string;
  rec_owner : option string;
  currentJobId : option string;
  historicalJobIds : list string;
  rec_status : SubagentLifecycle;
  sessionFile : option string;
  resumable : bool;
  queued : option ResumeRequest;
  models : option string * option string * option bool
}.

Definition with_rec (r : SubagentRecord) cur hist st q : SubagentRecord :=
  {| subagentId := subagentId r; rec_owner := rec_owner r; currentJobId := cur; historicalJobIds := hist;
     rec_status := st; sessionFile := sessionFile r; resumable := resumable r; queued := q; models := models r |}.

Definition with_rec_status (r : SubagentRecord) st : SubagentRecord :=
  with_rec r (currentJobId r) (historicalJobIds r) st (queued r).

Record ResumeDescriptor := { d_subagent : string; d_owner : option string; d_sessionFile : option string }.

Record ResumeQueueEntry := { q_subagent : string; q_owner : option string; seq : Z; message : option string; q_createdAt : Z }.

Inductive target_source := record | metadata_job.
Record OwnerSubagentShutdownTarget := { t_subagent : string; t_job : option string; source : target_source }.
Record OwnerSubagentShutdownLease := { l_owner : string; l_id : Z; targets : list OwnerSubagentShutdownTarget }.
Inductive shutdown_reason := confirmed | deadline_exceeded | missing_terminal_evidence | lease_lost.
Record OwnerSubagentShutdownProof := {
  reason : shutdown_reason; proof_lease : OwnerSubagentShutdownLease; terminalIds : list string; unresolvedIds : list string }.
Inductive lease_phase := active | proving | proved.
Record lease_state := {
  lease : OwnerSubagentShutdownLease;
  backingJobIds : list (string * list string);
  l_phase : lease_phase;
  proof : option OwnerSubagentShutdownProof
}.

Record MonitorTombstone := { tomb_owner : option string; tomb_status : job_status; expiresAt : Z; purge_run : nat }.

#[export] Instance shutdown_reason_eq_dec : EqDecision shutdown_reason.
Proof. solve_decision. Defined.
#[export] Instance lease_phase_eq_dec : EqDecision lease_phase.
Proof. solve_decision. Defined.
#[export] Instance target_source_eq_dec : EqDecision target_source.
Proof. solve_decision. Defined.
#[export] Instance OwnerSubagentShutdownTarget_eq_dec : EqDecision OwnerSubagentShutdownTarget.
Proof. solve_decision. Defined.
#[export] Instance OwnerSubagentShutdownLease_eq_dec : EqDecision OwnerSubagentShutdownLease.
Proof. solve_decision. Defined.

(** What the operations ask of the delivery queue and of callbacks. *)
Inductive effect :=
| E_register (id : string)
| E_enqueue (id text : string) (owner : option string)
| E_hook (hooks : nat) (p : phase) (run : nat)
| E_purge (run : nat)
| E_evict (id : string)
| E_acknowledge (owner : string)
| E_ensureDeliveryLoop
| E_requestPause (subagent : string).

(** ** State *)

(** The subagent control plane. *)
Record control := {
  records : list (string * SubagentRecord);
  liveHandles : list string;
  subagentProgress : list string;
  resumeQueue : list ResumeQueueEntry;
  resumeSeq : Z;
  resumeDescriptors : list (string * ResumeDescriptor);
  descriptorRunners : list (string * nat);
  resumeRunner : option nat;
  leases : list (string * lease_state);
  shutdownSeq : Z
}.

Record manager := {
  objs : list AsyncJob;
  pending : list nat;
  jobs : list (string * nat);
  evictionTimers : list string;
  lifecycles : list (string * nat);
  lifecyclePhases : list (string * list phase);
  tombstones : list (string * MonitorTombstone);
  disposed : bool;
  effects : list effect;
  ctl : control
}.

Definition with_core (m : manager) os ps js ts es : manager :=
  {| objs := os; pending := ps; jobs := js; evictionTimers := ts; lifecycles := lifecycles m; lifecyclePhases := lifecyclePhases m;
     tombstones := tombstones m; disposed := disposed m; effects := effects m ++ es; ctl := ctl m |}.

Definition with_hooks (m : manager) ls ps ts es : manager :=
  {| objs := objs m; pending := pending m; jobs := jobs m; evictionTimers := evictionTimers m; lifecycles := ls; lifecyclePhases := ps;
     tombstones := ts; disposed := disposed m; effects := effects m ++ es; ctl := ctl m |}.

Definition with_ctl (m : manager) c : manager :=
  {| objs := objs m; pending := pending m; jobs := jobs m; evictionTimers := evictionTimers m; lifecycles := lifecycles m;
     lifecyclePhases := lifecyclePhases m; tombstones := tombstones m; disposed := disposed m; effects := effects m; ctl := c |}.

Definition emit (m : manager) e : manager := with_core m (objs m) (pending m) (jobs m) (evictionTimers m) [e].

Definition with_obj (m : manager) (r : nat) (j : AsyncJob) : manager :=
  with_core m (<[r := j]> (objs m)) (pending m) (jobs m) (evictionTimers m) [].

Definition with_records (c : control) rs hs ps q : control :=
  {| records := rs; liveHandles := hs; subagentProgress := ps; resumeQueue := q; resumeSeq := resumeSeq c;
     resumeDescriptors := resumeDescriptors c; descriptorRunners := descriptorRunners c; resumeRunner := resumeRunner c;
     leases := leases c; shutdownSeq := shutdownSeq c |}.

Definition with_seq (c : control) n : control :=
  {| records := records c; liveHandles := liveHandles c; subagentProgress := subagentProgress c; resumeQueue := resumeQueue c;
     resumeSeq := n; resumeDescriptors := resumeDescriptors c; descriptorRunners := descriptorRunners c;
     resumeRunner := resumeRunner c; leases := leases c; shutdownSeq := shutdownSeq c |}.

Definition with_leases (c : control) ls n : control :=
  {| records := records c; liveHandles := liveHandles c; subagentProgress := subagentProgress c; resumeQueue := resumeQueue c;
     resumeSeq := resumeSeq c; resumeDescriptors := resumeDescriptors c; descriptorRunners := descriptorRunners c;
     resumeRunner := resumeRunner c; leases := ls; shutdownSeq := n |}.

Definition with_descriptors (c : control) ds rs g : control :=
  {| records := records c; liveHandles := liveHandles c; subagentProgress := subagentProgress c; resumeQueue := resumeQueue c;
     resumeSeq := resumeSeq c; resumeDescriptors := ds; descriptorRunners := rs; resumeRunner := g; leases := leases c;
     shutdownSeq := shutdownSeq c |}.

Definition set_delete (l : list string) (x : string) : list string := List.filter (fun y => negb (bool_decide (y = x))) l.
Definition set_insert (l : list string) (x : string) : list string := if decide (x ∈ l) then l else l ++ [x].

Definition new_manager : manager :=
  {| objs := []; pending := []; jobs := []; evictionTimers := []; lifecycles := []; lifecyclePhases := []; tombstones := [];
     disposed := false; effects := [];
     ctl := {| records := []; liveHandles := []; subagentProgress := []; resumeQueue := []; resumeSeq := 0; resumeDescriptors := [];
               descriptorRunners := []; resumeRunner := None; leases := []; shutdownSeq := 0 |} |}.

(** [jobs.get(id)], with the run that made it. *)
Definition get_job (m : manager) (i : string) : option (nat * AsyncJob) :=
  match map_get (jobs m) i with Some r => pair r <$> objs m !! r | None => None end.

Definition listed_jobs (m : manager) : list AsyncJob := omap (fun p => objs m !! p.2) (jobs m).

(** A filter applies when it names an owner that is not empty. *)
Definition filter_owner (filter : option string) : option string :=
  match filter with Some o => if decide (o = "") then None else Some o | None => None end.

Definition passes (filter owner : option string) : bool :=
  match filter_owner filter with Some o => bool_decide (owner = Some o) | None => true end.

Definition filterJobs (m : manager) (filter : option string) : list AsyncJob :=
  List.filter (fun j => passes filter (ownerId j)) (listed_jobs m).

Definition getAllJobs := filterJobs.

Definition is_running (j : AsyncJob) : bool := bool_decide (status j = running).

Definition getRunningJobs (m : manager) (filter : option string) : list AsyncJob := List.filter is_running (filterJobs m filter).

#[export] Instance newest_first_dec : RelDecision (fun a b : AsyncJob => startTime b <= startTime a).
Proof. intros a b. unfold Decision. apply Z_le_dec. Defined.

Definition getRecentJobs (m : manager) (limit : Z) (filter : option string) : list AsyncJob :=
  let js := merge_sort (fun a b => startTime b <= startTime a) (List.filter (fun j => negb (is_running j)) (filterJobs m filter)) in
  take (Z.to_nat (if decide (limit < 0) then Z.of_nat (length js) + limit else limit)) js.

(** ** Hooks and tombstones *)

Definition runLifecycle (m : manager) (jobId : string) (p : phase) (override : option nat) : manager :=
  match map_get (lifecycles m) jobId, (match override with Some r => Some r | None => map_get (jobs m) jobId end) with
  | Some hooks, Some r =>
      let fired := default [] (map_get (lifecyclePhases m) jobId) in
      if decide (p ∈ fired) then m
      else with_hooks m (lifecycles m) (map_set (lifecyclePhases m) jobId (fired ++ [p])) (tombstones m) [E_hook hooks p r]
  | _, _ => m
  end.

Definition expireMonitorTombstones (m : manager) (now : Z) : manager :=
  with_hooks m (lifecycles m) (lifecyclePhases m) (List.filter (fun p => negb (bool_decide (expiresAt p.2 <= now))) (tombstones m)) [].

Definition recordMonitorTombstone (m : manager) (jobId : string) (now : Z) : manager :=
  match get_job m jobId with
  | Some (r, j) =>
      if monitor j then
        with_hooks m (lifecycles m) (lifecyclePhases m)
          (map_set (tombstones m) jobId
             {| tomb_owner := ownerId j; tomb_status := status j; expiresAt := now + MONITOR_TOMBSTONE_TTL_MS; purge_run := r |}) []
      else m
  | None => m
  end.

Definition getMonitorTombstone (m : manager) (jobId : string) (filter : option string) (now : Z)
    : option MonitorTombstone * manager :=
  let m := expireMonitorTombstones m now in
  (match map_get (tombstones m) jobId with
   | Some t => if passes filter (tomb_owner t) then Some t else None
   | None => None
   end, m).

Definition purgeMonitorTombstone (m : manager) (jobId : string) (filter : option string) (now : Z)
    : option job_status * manager :=
  let '(t, m) := getMonitorTombstone m jobId filter now in
  match t with
  | None => (None, m)
  | Some t =>
      (Some (tomb_status t), with_hooks m (lifecycles m) (lifecyclePhases m) (map_delete (tombstones m) jobId) [E_purge (purge_run t)])
  end.

(** ** Records *)

Definition recordByJobId (c : control) (jobId : string) : option SubagentRecord :=
  snd <$> find_first (fun p => bool_decide (currentJobId p.2 = Some jobId)) (records c).

Definition set_record (c : control) (r : SubagentRecord) : control :=
  with_records c (map_set (records c) (subagentId r) r) (liveHandles c) (subagentProgress c) (resumeQueue c).

Definition forget_live (c : control) (sid : string) : control :=
  with_records c (records c) (set_delete (liveHandles c) sid) (set_delete (subagentProgress c) sid) (resumeQueue c).

Definition forget_progress (c : control) (sid : string) : control :=
  with_records c (records c) (liveHandles c) (set_delete (subagentProgress c) sid) (resumeQueue c).

Definition mark_record (c : control) (jobId : string) (st : SubagentLifecycle) : control :=
  match recordByJobId c jobId with
  | Some r => forget_live (set_record c (with_rec_status r st)) (subagentId r)
  | None => c
  end.

Definition markRecordPaused (m : manager) (jobId : string) : manager := with_ctl m (mark_record (ctl m) jobId S_paused).
Definition markRecordTerminal (m : manager) (jobId : string) (st : SubagentLifecycle) : manager :=
  with_ctl m (mark_record (ctl m) jobId st).

Definition purgeTerminalSubagentStateForJob (m : manager) (jobId : string) : manager :=
  match recordByJobId (ctl m) jobId with
  | Some r =>
      if decide (rec_status r = S_paused \/ rec_status r = S_queued) then m
      else with_ctl m (forget_live (ctl m) (subagentId r))
  | None => m
  end.

Definition isTerminalSubagentStatus (s : SubagentLifecycle) : bool :=
  match s with S_completed | S_failed | S_cancelled => true | _ => false end.

Definition isOwnerSubagentShutdownFenced (c : control) (owner : option string) : bool :=
  match owner with Some o => match map_get (leases c) o with Some _ => true | None => false end | None => false end.

(** ** Jobs *)

Inductive thrown := OwnerSubagentShutdownError | Error (msg : string).

Section registry.
Context (maxRunningJobs retentionMs : Z).

Definition evictJob (m : manager) (jobId : string) (now : Z) : manager :=
  let m := expireMonitorTombstones m now in
  let m := recordMonitorTombstone m jobId now in
  let m := runLifecycle m jobId P_evict None in
  let m := purgeTerminalSubagentStateForJob m jobId in
  let m := with_core m (objs m) (pending m) (map_delete (jobs m) jobId) (evictionTimers m) [E_evict jobId] in
  with_hooks m (map_delete (lifecycles m) jobId) (map_delete (lifecyclePhases m) jobId) (tombstones m) [].

Definition scheduleEviction (m : manager) (jobId : string) (now : Z) : manager :=
  if disposed m then m
  else if decide (retentionMs <= 0) then evictJob m jobId now
  else with_core m (objs m) (pending m) (jobs m) (set_insert (evictionTimers m) jobId) [].

(** The timer of a job fires. *)
Definition evictionTimer (m : manager) (jobId : string) (now : Z) : manager :=
  evictJob (with_core m (objs m) (pending m) (jobs m) (set_delete (evictionTimers m) jobId) []) jobId now.

(** The first free candidate. *)
Fixpoint first_free (taken : list string) (name : Z -> string) (n : Z) (fuel : nat) : string :=
  match fuel with
  | O => name n
  | S fuel => if decide (name n ∈ taken) then first_free taken name (n + 1) fuel else name n
  end.

Definition resolveJobId (m : manager) (preferredId : option string) : string :=
  let taken := (jobs m).*1 in
  let base := match preferredId with Some p => trim p | None => "" end in
  if decide (base = "") then first_free taken (fun n => "bg_" +:+ show_Z n) 1 (S (length taken))
  else if decide (base ∈ taken) then first_free taken (fun n => base +:+ "-" +:+ show_Z n) 2 (S (length taken))
  else base.

Record register_options := {
  o_type : job_type; o_label : string; o_id : option string; o_owner : option string; o_subagent : option string;
  o_monitor : bool; o_lifecycle : bool }.

Definition register (m : manager) (o : register_options) (now : Z) : outcome thrown string * manager :=
  if disposed m then (Throw (Error "Async job manager is disposed"), m)
  else if bool_decide (default "" (o_owner o) <> "") && isOwnerSubagentShutdownFenced (ctl m) (o_owner o)
  then (Throw OwnerSubagentShutdownError, m)
  else if decide (maxRunningJobs <= Z.of_nat (length (getRunningJobs m None))) then
    (Throw (Error ("Background job limit reached (" +:+ show_Z maxRunningJobs +:+
       "). Wait for running jobs to finish or cancel one.")), m)
  else
    let m := expireMonitorTombstones m now in
    let i := resolveJobId m (o_id o) in
    let r := length (objs m) in
    let j := {| id := i; type := o_type o; status := running; startTime := now; endTime := None; label := o_label o;
                aborted := false; resultText := None; errorText := None; subagent_id := o_subagent o; monitor := o_monitor o;
                ownerId := o_owner o |} in
    let m := if o_lifecycle o
             then with_hooks m (map_set (lifecycles m) i r) (lifecyclePhases m) (tombstones m) [] else m in
    (Ok i, with_core m (objs m ++ [j]) (pending m ++ [r]) (map_set (jobs m) i r) (evictionTimers m) [E_register i]).

(** ** Resuming *)

(** What a resume runner does with a subagent, a message and its descriptor. *)
Inductive run_request :=
| R_none
| R_throw (e : thrown)
| R_register (o : register_options).

Context (runner : nat -> string -> option string -> option ResumeDescriptor -> run_request).

Definition resolveResumeRunner (c : control) (sid : string) : option nat :=
  match map_get (descriptorRunners c) sid with Some r => Some r | None => resumeRunner c end.

Record resume_result := {
  ok : bool; r_status : option SubagentLifecycle; r_jobId : option string; r_queued : bool; r_reason : option string }.

Definition refused (st : option SubagentLifecycle) (why : string) : resume_result :=
  {| ok := false; r_status := st; r_jobId := None; r_queued := false; r_reason := Some why |}.

Definition lifecycle_of (s : job_status) : SubagentLifecycle :=
  match s with running => S_running | completed => S_completed | failed => S_failed | cancelled => S_cancelled | paused => S_paused end.

Definition call_runner (m : manager) (f : nat) (sid : string) (msg : option string) (now : Z) : outcome thrown (option string) * manager :=
  match runner f sid msg (map_get (resumeDescriptors (ctl m)) sid) with
  | R_none => (Ok None, m)
  | R_throw e => (Throw e, m)
  | R_register o => match register m o now with (Ok i, m) => (Ok (Some i), m) | (Throw e, m) => (Throw e, m) end
  end.

Definition startResume (m : manager) (rec : SubagentRecord) (msg : option string) (now : Z) : outcome thrown resume_result * manager :=
  if isOwnerSubagentShutdownFenced (ctl m) (rec_owner rec)
  then (Ok (refused (Some (rec_status rec)) "owner_shutdown_in_progress"), m)
  else
    let sid := subagentId rec in
    let m := with_ctl m (forget_progress (ctl m) sid) in
    let '(res, m) := match resolveResumeRunner (ctl m) sid with
                     | Some f => call_runner m f sid msg now | None => (Ok None, m) end in
    match res with
    | Throw e => (Throw e, m)
    | Ok None => (Ok (refused None "resume_failed"), m)
    | Ok (Some newJobId) =>
        let hist := match currentJobId rec with
                    | Some p => if decide (p <> "" /\ p <> newJobId) then historicalJobIds rec ++ [p] else historicalJobIds rec
                    | None => historicalJobIds rec end in
        let st := match get_job m newJobId with Some (_, j) => lifecycle_of (status j) | None => S_running end in
        (Ok {| ok := true; r_status := Some st; r_jobId := Some newJobId; r_queued := false; r_reason := None |},
         with_ctl m (set_record (ctl m) (with_rec rec (Some newJobId) hist st None)))
    end.

Definition with_resume_queue (m : manager) q : manager :=
  with_ctl m (with_records (ctl m) (records (ctl m)) (liveHandles (ctl m)) (subagentProgress (ctl m)) q).

Definition free_slot (m : manager) : bool := bool_decide (Z.of_nat (length (getRunningJobs m None)) < maxRunningJobs).

Fixpoint drain_loop (fuel : nat) (m : manager) (index : nat) (now : Z) : outcome thrown unit * manager :=
  match fuel with
  | O => (Ok tt, m)
  | S fuel =>
      match resumeQueue (ctl m) !! index with
      | None => (Ok tt, m)
      | Some entry =>
          if negb (free_slot m) then (Ok tt, m)
          else
            let removed m := with_resume_queue m (delete index (resumeQueue (ctl m))) in
            match map_get (records (ctl m)) (q_subagent entry) with
            | None => drain_loop fuel (removed m) index now
            | Some rec =>
                if decide (rec_status rec <> S_queued) then drain_loop fuel (removed m) index now
                else if isOwnerSubagentShutdownFenced (ctl m) (q_owner entry) then drain_loop fuel m (S index) now
                else
                  match startResume m rec (message entry) now with
                  | (Ok result, m) =>
                      if decide (r_reason result = Some "owner_shutdown_in_progress") then drain_loop fuel m (S index) now
                      else drain_loop fuel (removed m) index now
                  | (Throw OwnerSubagentShutdownError, m) => drain_loop fuel m (S index) now
                  | (Throw e, m) => (Throw e, m)
                  end
            end
      end
  end.

#[local] Instance seq_le_dec : RelDecision (fun a b : ResumeQueueEntry => seq a <= seq b).
Proof. intros a b. unfold Decision. apply Z_le_dec. Defined.

Definition drainResumeQueue (m : manager) (now : Z) : outcome thrown unit * manager :=
  if decide (resumeQueue (ctl m) = []) then (Ok tt, m)
  else
    let m := with_resume_queue m (merge_sort (fun a b => seq a <= seq b) (resumeQueue (ctl m))) in
    drain_loop (S (length (resumeQueue (ctl m)))) m 0 now.

(** ** Settling *)

(** How the body of a run ends. *)
Inductive run_outcome :=
| O_completed (text : string)
| O_paused (note : option string)
| O_error (error : string).

Definition update_obj (m : manager) (r : nat) (f : AsyncJob -> AsyncJob) : manager :=
  match objs m !! r with Some j => with_obj m r (f j) | None => m end.

(** The tail shared by the branches that end a run. *)
Definition end_run (m : manager) (i : string) (st : SubagentLifecycle) (now : Z) : outcome thrown unit * manager :=
  drainResumeQueue (markRecordTerminal (scheduleEviction m i now) i st) now.

Definition enqueueDelivery (m : manager) (i text : string) : manager :=
  emit m (E_enqueue i text (match get_job m i with Some (_, j) => ownerId j | None => None end)).

Definition error_text (e : thrown) : string :=
  match e with
  | OwnerSubagentShutdownError => "Cannot start subagent while owner shutdown is in progress."
  | Error msg => msg
  end.

(** The [try] of the body, after [run] has returned. *)
Definition settle_try (m : manager) (r : nat) (j : AsyncJob) (o : run_outcome) (now : Z) : outcome thrown unit * manager :=
  let i := id j in
  match o with
  | O_error e => (Throw (Error e), m)
  | O_completed text =>
      if decide (status j = cancelled) then
        let m := update_obj m r (fun j => with_texts j (Some text) (errorText j)) in
        end_run (runLifecycle m i P_terminal (Some r)) i S_cancelled now
      else
        let m := update_obj m r (fun j => with_texts (with_status j completed (frozen j now)) (Some text) (errorText j)) in
        end_run (runLifecycle (enqueueDelivery m i text) i P_terminal (Some r)) i S_completed now
  | O_paused note =>
      if decide (status j = cancelled) then
        let m := update_obj m r (fun j => with_texts j note (errorText j)) in
        end_run (runLifecycle m i P_terminal (Some r)) i S_cancelled now
      else
        let m := update_obj m r (fun j => with_texts (with_status j paused (frozen j now))
          (match note with Some n => if decide (n = "") then resultText j else Some n | None => resultText j end) (errorText j)) in
        drainResumeQueue (markRecordPaused m i) now
  end.

(** Its [catch], which also catches what draining the queue throws. *)
Definition settle_catch (m : manager) (r : nat) (j : AsyncJob) (e : thrown) (now : Z) : outcome thrown unit * manager :=
  let i := id j in
  if decide (status j = cancelled) then
    let m := update_obj m r (fun j => with_texts j (resultText j) (Some (error_text e))) in
    end_run (runLifecycle m i P_terminal (Some r)) i S_cancelled now
  else
    let m := runLifecycle m i P_terminal (Some r) in
    let m := update_obj m r (fun j => with_texts (with_status j failed (frozen j now)) (resultText j) (Some (error_text e))) in
    end_run (enqueueDelivery m i (error_text e)) i S_failed now.

Definition settled (m : manager) (r : nat) : manager :=
  with_core m (objs m) (List.filter (fun x => negb (bool_decide (x = r))) (pending m)) (jobs m) (evictionTimers m) [].

Definition settle (m : manager) (r : nat) (o : run_outcome) (now : Z) : manager :=
  match objs m !! r with
  | None => m
  | Some j =>
      match settle_try m r j o now with
      | (Ok _, m) => settled m r
      | (Throw e, m) =>
          match objs m !! r with
          | Some j => settled (settle_catch m r j e now).2 r
          | None => m
          end
      end
  end.

(** ** Cancelling *)

Definition cancel (m : manager) (i : string) (filter : option string) (now : Z) : outcome thrown bool * manager :=
  match get_job m i with
  | None => (Ok false, m)
  | Some (r, j) =>
      if negb (passes filter (ownerId j)) then (Ok false, m)
      else if decide (status j = paused) then
        let m := runLifecycle m i P_cancel None in
        let m := update_obj m r (fun j => with_status j cancelled (endTime j)) in
        let m := scheduleEviction (markRecordTerminal m i S_cancelled) i now in
        match drainResumeQueue m now with (Ok _, m) => (Ok true, m) | (Throw e, m) => (Throw e, m) end
      else if decide (status j <> running) then (Ok false, m)
      else
        let m := runLifecycle m i P_cancel None in
        (Ok true, update_obj m r (fun j => abort (with_status j cancelled (frozen j now))))
  end.

Definition cancel_run (now : Z) (m : manager) (r : nat) : manager :=
  match objs m !! r with
  | None => m
  | Some j =>
      let m := runLifecycle m (id j) P_cancel None in
      let m := update_obj m r (fun j => abort (with_status j cancelled (frozen j now))) in
      scheduleEviction m (id j) now
  end.

(** The runs [getRunningJobs] lists, taken before the loop. *)
Definition running_runs (m : manager) (filter : option string) : list nat :=
  List.filter (fun r => match objs m !! r with Some j => passes filter (ownerId j) && is_running j | None => false end) (jobs m).*2.

Definition cancelAll (m : manager) (filter : option string) (now : Z) : manager :=
  foldl (cancel_run now) m (running_runs m filter).

(** ** Subagents *)

Definition registerSubagentRecord (m : manager) (r : SubagentRecord) : manager := with_ctl m (set_record (ctl m) r).

Definition getResumeDescriptor (m : manager) (sid : string) (filter : option string) : option ResumeDescriptor :=
  match map_get (resumeDescriptors (ctl m)) (trim sid) with
  | Some d => if passes filter (d_owner d) then Some d else None
  | None => None
  end.

Definition recordFromResumeDescriptor (m : manager) (sid : string) (filter : option string) : option SubagentRecord * manager :=
  match getResumeDescriptor m sid filter with
  | None => (None, m)
  | Some d =>
      let file := match d_sessionFile d with Some f => if decide (trim f = "") then None else Some f | None => None end in
      let r := {| subagentId := d_subagent d; rec_owner := d_owner d; currentJobId := None; historicalJobIds := [];
                  rec_status := S_completed; sessionFile := file; resumable := bool_decide (file <> None); queued := None;
                  models := (None, None, None) |} in
      (Some r, with_ctl m (set_record (ctl m) r))
  end.

Definition getSubagentRecord (m : manager) (sid : string) (filter : option string) : option SubagentRecord * manager :=
  match map_get (records (ctl m)) (trim sid) with
  | Some r => (if passes filter (rec_owner r) then Some r else None, m)
  | None => recordFromResumeDescriptor m (trim sid) filter
  end.

Definition with_models (r : SubagentRecord) ms : SubagentRecord :=
  {| subagentId := subagentId r; rec_owner := rec_owner r; currentJobId := currentJobId r; historicalJobIds := historicalJobIds r;
     rec_status := rec_status r; sessionFile := sessionFile r; resumable := resumable r; queued := queued r; models := ms |}.

Definition updateSubagentModel (m : manager) (sid : string) ms : manager :=
  match map_get (records (ctl m)) sid with
  | Some r => with_ctl m (with_records (ctl m) (map_set (records (ctl m)) sid (with_models r ms)) (liveHandles (ctl m))
                            (subagentProgress (ctl m)) (resumeQueue (ctl m)))
  | None => m
  end.

Definition getSubagentRecords (m : manager) (filter : option string) : list SubagentRecord :=
  List.filter (fun r => passes filter (rec_owner r)) (records (ctl m)).*2.

Definition registerLiveHandle (m : manager) (sid : string) : manager :=
  with_ctl m (with_records (ctl m) (records (ctl m)) (set_insert (liveHandles (ctl m)) sid) (subagentProgress (ctl m)) (resumeQueue (ctl m))).

Definition removeLiveHandle (m : manager) (sid : string) : manager :=
  with_ctl m (with_records (ctl m) (records (ctl m)) (set_delete (liveHandles (ctl m)) sid) (subagentProgress (ctl m)) (resumeQueue (ctl m))).

Definition recordSubagentProgress (m : manager) (sid : string) : manager :=
  match map_get (records (ctl m)) sid with
  | Some _ => with_ctl m (with_records (ctl m) (records (ctl m)) (liveHandles (ctl m)) (set_insert (subagentProgress (ctl m)) sid)
                            (resumeQueue (ctl m)))
  | None => m
  end.

Definition hasLiveSubagent (m : manager) (sid : string) (filter : option string) : bool * manager :=
  let '(r, m) := getSubagentRecord m sid filter in
  match r with
  | None => (false, m)
  | Some r =>
      if decide (subagentId r ∈ liveHandles (ctl m)) then (true, m)
      else
        let job := default "" (currentJobId r) in
        (match (if decide (job = "") then None else get_job m job) with Some (_, j) => is_running j | None => false end, m)
  end.

Definition setResumeRunner (m : manager) (f : nat) : manager :=
  with_ctl m (with_descriptors (ctl m) (resumeDescriptors (ctl m)) (descriptorRunners (ctl m)) (Some f)).

Definition registerResumeDescriptor (m : manager) (d : ResumeDescriptor) (f : option nat) : manager :=
  with_ctl m (with_descriptors (ctl m) (map_set (resumeDescriptors (ctl m)) (d_subagent d) d)
    (match f with Some f => map_set (descriptorRunners (ctl m)) (d_subagent d) f | None => descriptorRunners (ctl m) end)
    (resumeRunner (ctl m))).

Definition pauseSubagent (m : manager) (sid : string) (filter : option string) : resume_result * manager :=
  let '(r, m) := getSubagentRecord m sid filter in
  match r with
  | None => (refused None "not_found", m)
  | Some r =>
      if decide (rec_status r <> S_running) then (refused (Some (rec_status r)) "not_running", m)
      else if decide (subagentId r ∉ liveHandles (ctl m)) then (refused (Some (rec_status r)) "no_live_handle", m)
      else ({| ok := true; r_status := Some (rec_status r); r_jobId := None; r_queued := false; r_reason := None |},
            emit m (E_requestPause (subagentId r)))
  end.

Definition set_message (q : option string) (e : ResumeQueueEntry) : ResumeQueueEntry :=
  {| q_subagent := q_subagent e; q_owner := q_owner e; seq := seq e; message := q; q_createdAt := q_createdAt e |}.

(** [resumeQueue.find(entry => entry.subagentId === sid)], given a message. *)
Fixpoint message_first (sid : string) (msg : option string) (q : list ResumeQueueEntry) : list ResumeQueueEntry :=
  match q with
  | [] => []
  | e :: q => if decide (q_subagent e = sid) then set_message msg e :: q else e :: message_first sid msg q
  end.

Definition queued_result : resume_result :=
  {| ok := true; r_status := Some S_queued; r_jobId := None; r_queued := true; r_reason := None |}.

Definition resumeSubagent (m : manager) (sid : string) (filter : option string) (msg : option string) (now : Z)
    : outcome thrown resume_result * manager :=
  let '(r, m) := getSubagentRecord m sid filter in
  match r with
  | None => (Ok (refused None "not_found"), m)
  | Some r =>
      if isOwnerSubagentShutdownFenced (ctl m) (rec_owner r)
      then (Ok (refused (Some (rec_status r)) "owner_shutdown_in_progress"), m)
      else if decide (rec_status r = S_running) then (Ok (refused (Some S_running) "already_running"), m)
      else if decide (rec_status r = S_queued) then
        match msg, queued r with
        | Some _, Some q =>
            let q := {| rq_owner := rq_owner q; rq_seq := rq_seq q; rq_message := msg; createdAt := createdAt q |} in
            let c := set_record (ctl m) (with_rec r (currentJobId r) (historicalJobIds r) S_queued (Some q)) in
            (Ok queued_result, with_resume_queue (with_ctl m c) (message_first (subagentId r) msg (resumeQueue c)))
        | _, _ => (Ok (refused (Some S_queued) "already_queued"), m)
        end
      else if negb (resumable r) || bool_decide (default "" (sessionFile r) = "")
      then (Ok (refused None "context_unavailable"), m)
      else
        match resolveResumeRunner (ctl m) (subagentId r) with
        | None => (Ok (refused None "no_runner"), m)
        | Some _ =>
            if free_slot m then startResume m r msg now
            else
              let n := resumeSeq (ctl m) + 1 in
              let q := {| rq_owner := rec_owner r; rq_seq := n; rq_message := msg; createdAt := now |} in
              let c := set_record (with_seq (ctl m) n) (with_rec r (currentJobId r) (historicalJobIds r) S_queued (Some q)) in
              let e := {| q_subagent := subagentId r; q_owner := rec_owner r; seq := n; message := msg; q_createdAt := now |} in
              (Ok queued_result, with_resume_queue (with_ctl m c) (resumeQueue c ++ [e]))
        end
  end.

(** The first entry of a subagent is taken out of the queue. *)
Definition unqueue (q : list ResumeQueueEntry) (sid : string) : list ResumeQueueEntry :=
  match list_find (fun e => q_subagent e = sid) q with Some (i, _) => delete i q | None => q end.

Definition cancelSubagent (m : manager) (sid : string) (filter : option string) (now : Z) : outcome thrown bool * manager :=
  let '(r, m) := getSubagentRecord m sid filter in
  match r with
  | None => (Ok false, m)
  | Some r =>
      let job := default "" (currentJobId r) in
      if decide (rec_status r = S_running /\ job <> "") then cancel m job filter now
      else if decide (rec_status r = S_paused) then
        let m := match get_job m job with
                 | Some (run, j) =>
                     if decide (job <> "" /\ status j = paused)
                     then scheduleEviction (update_obj m run (fun j => with_status j cancelled (endTime j))) job now else m
                 | None => m end in
        let m := with_ctl m (forget_live (set_record (ctl m) (with_rec_status r S_cancelled)) (subagentId r)) in
        match drainResumeQueue m now with (Ok _, m) => (Ok true, m) | (Throw e, m) => (Throw e, m) end
      else if decide (rec_status r = S_queued) then
        let m := with_resume_queue m (unqueue (resumeQueue (ctl m)) (subagentId r)) in
        (Ok true, with_ctl m (forget_progress (set_record (ctl m)
          (with_rec r (currentJobId r) (historicalJobIds r) S_cancelled None)) (subagentId r)))
      else (Ok false, m)
  end.

Definition owned (owner : option string) (o : option string) : bool :=
  match filter_owner owner with Some w => bool_decide (o = Some w) | None => true end.

Definition purgeOwnerSubagentState (m : manager) (owner : option string) : manager :=
  let c := ctl m in
  let gone := (fun p => p.1) <$> List.filter (fun p => owned owner (rec_owner p.2)) (records c) in
  let keep {A} (l : list (string * A)) := List.filter (fun p => negb (bool_decide (p.1 ∈ gone))) l in
  let keep_ids l := List.filter (fun x => negb (bool_decide (x ∈ gone))) l in
  let c := with_descriptors c (keep (resumeDescriptors c)) (keep (descriptorRunners c)) (resumeRunner c) in
  with_ctl m (with_records c (keep (records c)) (keep_ids (liveHandles c)) (keep_ids (subagentProgress c))
    (List.filter (fun e => negb (owned owner (q_owner e))) (resumeQueue c))).

(** ** Shutting down an owner's subagents *)

Definition addBackingJob (b : list (string * list string)) (sid : string) (jobId : option string) : list (string * list string) :=
  match jobId with
  | Some i => if decide (i = "") then b else map_set b sid (set_insert (default [] (map_get b sid)) i)
  | None => b
  end.

Notation collected := (list (string * OwnerSubagentShutdownTarget) * list (string * list string))%type.

Definition collect_record (owner : string) (acc : collected) (r : SubagentRecord) : collected :=
  if decide (rec_owner r <> Some owner) then acc
  else if isTerminalSubagentStatus (rec_status r) then acc
  else
    let q := bool_decide (rec_status r = S_queued) in
    (map_set acc.1 (subagentId r) {| t_subagent := subagentId r; t_job := if q then None else currentJobId r; source := record |},
     if q then acc.2 else addBackingJob acc.2 (subagentId r) (currentJobId r)).

Definition collect_job (owner : string) (acc : collected) (j : AsyncJob) : collected :=
  let sid := default "" (subagent_id j) in
  if decide (ownerId j <> Some owner \/ sid = "" \/ status j ∉ [running; paused; cancelled]) then acc
  else
    (match map_get acc.1 sid with
     | Some _ => acc.1
     | None => map_set acc.1 sid {| t_subagent := sid; t_job := Some (id j); source := metadata_job |}
     end, addBackingJob acc.2 sid (Some (id j))).

Definition set_lease (c : control) (owner : string) (st : lease_state) : control :=
  with_leases c (map_set (leases c) owner st) (shutdownSeq c).

Definition beginOwnerSubagentShutdown (m : manager) (owner : string) : option OwnerSubagentShutdownLease * manager :=
  if decide (owner = "") then (None, m)
  else match map_get (leases (ctl m)) owner with
  | Some _ => (None, m)
  | None =>
      let acc := foldl (collect_record owner) ([], []) (records (ctl m)).*2 in
      let acc := foldl (collect_job owner) acc (listed_jobs m) in
      let n := shutdownSeq (ctl m) + 1 in
      let l := {| l_owner := owner; l_id := n; targets := acc.1.*2 |} in
      (Some l, with_ctl m (with_leases (ctl m)
         (map_set (leases (ctl m)) owner {| lease := l; backingJobIds := acc.2; l_phase := active; proof := None |}) n))
  end.

Definition ownerSubagentShutdownProof (l : OwnerSubagentShutdownLease) (why : shutdown_reason) (unresolved : list string)
    : OwnerSubagentShutdownProof :=
  {| reason := why; proof_lease := l;
     terminalIds := t_subagent <$> List.filter (fun t => negb (bool_decide (t_subagent t ∈ unresolved))) (targets l);
     unresolvedIds := unresolved |}.

Definition lost (l : OwnerSubagentShutdownLease) : OwnerSubagentShutdownProof :=
  ownerSubagentShutdownProof l lease_lost (t_subagent <$> targets l).

Inductive prove_start :=
| Answered (p : OwnerSubagentShutdownProof)
| Waiting (watched : list (string * nat)).

Definition cancel_backing (owner : string) (now : Z) (acc : outcome thrown (list (string * nat)) * manager)
    (p : string * option (nat * AsyncJob)) : outcome thrown (list (string * nat)) * manager :=
  match acc with
  | (Throw e, m) => (Throw e, m)
  | (Ok watched, m) =>
      match cancel m p.1 (Some owner) now with
      | (Throw e, m) => (Throw e, m)
      | (Ok _, m) =>
          (Ok match p.2 with
              | Some (r, j) => if decide (ownerId j = Some owner) then watched ++ [(p.1, r)] else watched
              | None => watched end, m)
      end
  end.

Definition cancel_target (st : lease_state) (now : Z) (acc : outcome thrown (list (string * nat)) * manager)
    (t : OwnerSubagentShutdownTarget) : outcome thrown (list (string * nat)) * manager :=
  match acc with
  | (Throw e, m) => (Throw e, m)
  | (Ok watched, m) =>
      let owner := l_owner (lease st) in
      let backing := (fun i => (i, get_job m i)) <$> default [] (map_get (backingJobIds st) (t_subagent t)) in
      match (if decide (source t = record) then cancelSubagent m (t_subagent t) (Some owner) now else (Ok true, m)) with
      | (Throw e, m) => (Throw e, m)
      | (Ok _, m) => foldl (cancel_backing owner now) (Ok watched, m) backing
      end
  end.

Definition with_phase (st : lease_state) ph p : lease_state :=
  {| lease := lease st; backingJobIds := backingJobIds st; l_phase := ph; proof := p |}.

(** Up to the wait: the runs whose end it waits for. *)
Definition cancelAndProve_start (m : manager) (l : OwnerSubagentShutdownLease) (now : Z) : outcome thrown prove_start * manager :=
  match map_get (leases (ctl m)) (l_owner l) with
  | None => (Ok (Answered (lost l)), m)
  | Some st =>
      if decide (l_id (lease st) <> l_id l) then (Ok (Answered (lost l)), m)
      else match l_phase st, proof st with
      | proved, Some p => (Ok (Answered p), m)
      | _, _ =>
          let st := with_phase st proving (proof st) in
          let m := with_ctl m (set_lease (ctl m) (l_owner l) st) in
          match foldl (cancel_target st now) (Ok [], m) (targets l) with
          | (Throw e, m) => (Throw e, m)
          | (Ok watched, m) => (Ok (Waiting watched), m)
          end
      end
  end.

Definition hasTerminalShutdownEvidence (m : manager) (t : OwnerSubagentShutdownTarget) (owner : string)
    (backing : list (string * list string)) (settled : list string) : bool :=
  match map_get (records (ctl m)) (t_subagent t) with
  | None => false
  | Some r =>
      bool_decide (rec_owner r = Some owner) && isTerminalSubagentStatus (rec_status r) &&
      forallb (fun i => bool_decide (i ∈ settled) &&
                 match get_job m i with Some (_, j) => bool_decide (ownerId j = Some owner) | None => true end)
        (default [] (map_get backing (t_subagent t)))
  end.

(** After the wait: [settled] are the watched jobs that have ended. *)
Definition cancelAndProve_finish (m : manager) (l : OwnerSubagentShutdownLease) (settled : list string) (deadlineExceeded : bool)
    : OwnerSubagentShutdownProof * manager :=
  match map_get (leases (ctl m)) (l_owner l) with
  | None => (lost l, m)
  | Some st =>
      if decide (l_id (lease st) <> l_id l \/ l_phase st <> proving) then (lost l, m)
      else
        let unresolved := t_subagent <$>
          List.filter (fun t => negb (hasTerminalShutdownEvidence m t (l_owner l) (backingJobIds st) settled)) (targets l) in
        let why := if decide (unresolved = []) then confirmed
                   else if deadlineExceeded then deadline_exceeded else missing_terminal_evidence in
        let p := ownerSubagentShutdownProof l why unresolved in
        (p, with_ctl m (set_lease (ctl m) (l_owner l) (with_phase st proved (Some p))))
  end.

Inductive shutdown_outcome := commit | release.

Definition finishOwnerSubagentShutdown (m : manager) (l : OwnerSubagentShutdownLease) (o : shutdown_outcome) : manager :=
  match map_get (leases (ctl m)) (l_owner l) with
  | None => m
  | Some st =>
      if decide (l_id (lease st) <> l_id l) then m
      else
        let m := match o, proof st with
                 | commit, Some p =>
                     if decide (reason p = confirmed)
                     then purgeOwnerSubagentState (emit m (E_acknowledge (l_owner l))) (Some (l_owner l)) else m
                 | _, _ => m end in
        let m := with_ctl m (with_leases (ctl m) (map_delete (leases (ctl m)) (l_owner l)) (shutdownSeq (ctl m))) in
        match o with release => emit m E_ensureDeliveryLoop | commit => m end
  end.

(** ** Disposal *)

(** Up to the wait for the running jobs. *)
Definition dispose_start (m : manager) (now : Z) : manager :=
  let m := {| objs := objs m; pending := pending m; jobs := jobs m; evictionTimers := []; lifecycles := lifecycles m;
              lifecyclePhases := lifecyclePhases m; tombstones := tombstones m; disposed := true; effects := effects m; ctl := ctl m |} in
  let m := cancelAll (purgeOwnerSubagentState m None) None now in
  with_hooks m (lifecycles m) (lifecyclePhases m) [] ((fun p => E_purge (purge_run p.2)) <$> tombstones m).

(** After it. *)
Definition dispose_finish (m : manager) : manager :=
  {| objs := objs m; pending := pending m; jobs := []; evictionTimers := []; lifecycles := lifecycles m;
     lifecyclePhases := lifecyclePhases m; tombstones := tombstones m; disposed := disposed m; effects := effects m;
     ctl := {| records := []; liveHandles := []; subagentProgress := []; resumeQueue := []; resumeSeq := resumeSeq (ctl m);
               resumeDescriptors := []; descriptorRunners := []; resumeRunner := resumeRunner (ctl m); leases := [];
               shutdownSeq := shutdownSeq (ctl m) |} |}.
End registry.

(** ** Owner cleanups

    Callbacks kept per owner, each named by a number; they are called when the
    owner is torn down, and one that throws is kept for another try when the
    call is strict.  A callback does not itself register or run cleanups. *)

Notation cleanup_bags := (list (string * list nat)).

Definition registerOwnerCleanup (b : cleanup_bags) (owner : string) (cleanup : nat) : outcome string cleanup_bags :=
  if decide (owner = "") then Throw "registerOwnerCleanup requires a non-empty ownerId"
  else
    let bag := default [] (map_get b owner) in
    Ok (map_set b owner (if decide (cleanup ∈ bag) then bag else bag ++ [cleanup])).

(** The function that [registerOwnerCleanup] returns. *)
Definition unregister (b : cleanup_bags) (owner : string) (cleanup : nat) : cleanup_bags :=
  match map_get b owner with
  | None => b
  | Some bag =>
      let bag := List.filter (fun c => negb (bool_decide (c = cleanup))) bag in
      if decide (bag = []) then map_delete b owner else map_set b owner bag
  end.

Section cleanups.
Context (throws : nat -> bool) (strict : bool).

Record cleanup_run := { bags : cleanup_bags; called : list nat; errors : nat }.

Definition run_cleanup (owner : string) (s : cleanup_run) (c : nat) : cleanup_run :=
  let failed := throws c in
  {| bags := if failed && strict
             then let bag := default [] (map_get (bags s) owner) in map_set (bags s) owner (if decide (c ∈ bag) then bag else bag ++ [c])
             else bags s;
     called := called s ++ [c];
     errors := if failed then S (errors s) else errors s |}.

Definition run_bag (s : cleanup_run) (p : string * list nat) : cleanup_run :=
  foldl (run_cleanup p.1) {| bags := map_delete (bags s) p.1; called := called s; errors := errors s |} p.2.

Definition runOwnerProducerCleanups (b : cleanup_bags) (filter : option string) : outcome string unit * cleanup_run :=
  let owned := match filter_owner filter with
               | Some o => match map_get b o with Some bag => [(o, bag)] | None => [] end
               | None => b end in
  let s := foldl run_bag {| bags := b; called := []; errors := 0 |} owned in
  (if strict && bool_decide (0 < errors s)%nat then Throw "Async job owner cleanup failed" else Ok tt, s).

Lemma run_cleanups_bag owner s cs :
  NoDup (default [] (map_get (bags s) owner) ++ cs) ->
  let s' := foldl (run_cleanup owner) s cs in
  default [] (map_get (bags s') owner) = default [] (map_get (bags s) owner) ++ (if strict then List.filter throws cs else []) /\
  called s' = called s ++ cs /\ errors s' = (errors s + length (List.filter throws cs))%nat /\
  (forall o, o <> owner -> map_get (bags s') o = map_get (bags s) o).
Proof.
  revert s. induction cs as [|c cs IH]; intros s Hn; cbn [foldl].
  { cbn. rewrite Nat.add_0_r. destruct strict; by rewrite !app_nil_r. }
  set (bag := default [] (map_get (bags s) owner)) in *.
  assert (Hc : c ∉ bag).
  { intros Hin. apply NoDup_app in Hn as (_ & Hd & _). apply (Hd c Hin). by left. }
  assert (Hbag : default [] (map_get (bags (run_cleanup owner s c)) owner) = bag ++ (if throws c && strict then [c] else [])).
  { cbn. destruct (throws c && strict); [|by rewrite app_nil_r]. rewrite map_get_set_eq. cbn. by rewrite decide_False. }
  destruct (IH (run_cleanup owner s c)) as (H1 & H2 & H3 & H4).
  { rewrite Hbag. destruct (throws c && strict).
    - rewrite <- app_assoc. exact Hn.
    - rewrite app_nil_r. apply NoDup_app in Hn as (Ha & Hb & [_ Hd]%NoDup_cons).
      apply NoDup_app. split; [done|]. split; [|done]. intros x Hx Hin. apply (Hb x Hx). by right. }
  rewrite H1, H2, H3, Hbag. cbn. split_all.
  - destruct (throws c), strict; cbn; rewrite <- ?app_assoc; done.
  - by rewrite <- app_assoc.
  - destruct (throws c); cbn; lia.
  - intros o Ho. rewrite H4 by done. cbn. destruct (throws c && strict); [|done]. by rewrite map_get_set_ne.
Qed.

(** Every callback of the owner is called once, in order; a strict call keeps
    those that threw, in order, and throws when there is one. *)
Theorem owner_cleanups_retry b owner bag :
  owner <> "" -> map_get b owner = Some bag -> NoDup bag ->
  let '(res, s) := runOwnerProducerCleanups b (Some owner) in
  called s = bag /\
  default [] (map_get (bags s) owner) = (if strict then List.filter throws bag else []) /\
  (forall o, o <> owner -> map_get (bags s) o = map_get b o) /\
  (res = Ok tt <-> strict = false \/ Forall (fun c => throws c = false) bag).
Proof.
  intros Hne Hb Hn. unfold runOwnerProducerCleanups, filter_owner. rewrite decide_False, Hb by done. cbn [foldl]. unfold run_bag. cbn [fst snd].
  destruct (run_cleanups_bag owner {| bags := map_delete b owner; called := []; errors := 0 |} bag) as (H1 & H2 & H3 & H4).
  { cbn. by rewrite map_get_delete_eq. }
  cbn in H1, H2, H3. rewrite map_get_delete_eq in H1. split; [done|]. split; [exact H1|]. split.
  - intros o Ho. rewrite H4 by done. cbn. by apply map_get_delete_ne.
  - cbn [bags called errors]. rewrite H3. destruct strict; cbn; [|tauto]. case_bool_decide as Hd.
    + split; [done|]. intros [?|Hall]; [done|]. exfalso. clear -Hd Hall. induction Hall as [|c l Hc _ IH]; cbn in Hd; [lia|].
      rewrite Hc in Hd. by apply IH.
    + split; [|done]. intros _. right. clear -Hd. induction bag as [|c l IH]; [constructor|]. cbn in Hd.
      destruct (throws c) eqn:Hc; cbn in Hd; [lia|]. constructor; [done|by apply IH].
Qed.
End cleanups.

Lemma owner_cleanups_retry_witness :
  let '(res, s) := runOwnerProducerCleanups (fun c => bool_decide (c = 2%nat)) true [("a", [1%nat; 2%nat]); ("b", [3%nat])] (Some "a") in
  called s = [1%nat; 2%nat] /\ default [] (map_get (bags s) "a") = [2%nat] /\ res = Throw "Async job owner cleanup failed".
Proof.
  pose proof (owner_cleanups_retry (fun c => bool_decide (c = 2%nat)) true [("a", [1%nat; 2%nat]); ("b", [3%nat])] "a" [1%nat; 2%nat]
    ltac:(done) ltac:(reflexivity) ltac:(apply (bool_decide_unpack _); vm_compute; exact I)) as H.
  cbn in H. vm_compute. repeat split; reflexivity.
Defined.
