(* ===== verification/JobRuns.v ===== *)
(** * Runs of the job manager

    The operations of [JobRegistry.v] as the steps of a run, and what holds
    after every run: the job limit, the fate of each job, and what a
    confirmed shutdown of an owner's subagents says.  Every operation is a
    sequence of [move]s, so the invariants are proved once, for the moves. *)

From stdpp Require Import sorting relations.
From S2P Require Import Prelude JsNumber JsValue JsText JobRegistry.

Local Open Scope string_scope.
Local Open Scope list_scope.
Local Open Scope Z_scope.

(** ** Candidates for a fresh id *)

Lemma first_free_fresh taken name n fuel :
  (forall a b, name a = name b -> a = b) -> (length taken < fuel)%nat -> first_free taken name n fuel ∉ taken.
Proof.
  intros Hinj. revert taken n. induction fuel as [|fuel IH]; intros taken n Hf; [lia|].
  cbn [first_free]. case_decide as Hin; [|done].
  set (rest := List.filter (fun x => negb (bool_decide (x = name n))) taken).
  assert (Hlen : (length rest < fuel)%nat).
  { assert (length rest < length taken)%nat; [|lia].
    subst rest. clear -Hin. induction taken as [|y l IH]; [by apply not_elem_of_nil in Hin|].
    cbn. destruct (bool_decide_reflect (y = name n)) as [E|E]; cbn.
    - apply Nat.lt_succ_r. clear. induction l as [|z l IH]; cbn; [lia|]. case_match; cbn; lia.
    - apply elem_of_cons in Hin as [Hin|Hin]; [congruence|]. specialize (IH Hin). lia. }
  assert (Heq : forall m, n < m -> first_free taken name m fuel = first_free rest name m fuel).
  { clear IH Hlen Hf. induction fuel as [|fuel IH]; intros m Hm; [done|]. cbn.
    assert (name m ∈ taken <-> name m ∈ rest) as Hiff.
    { subst rest. rewrite !list_elem_of_In, filter_In. split; [|tauto]. intros Hx. split; [done|].
      apply negb_true_iff, bool_decide_eq_false. intros E. apply Hinj in E. lia. }
    destruct (decide (name m ∈ taken)), (decide (name m ∈ rest)); try tauto. apply IH. lia. }
  specialize (IH rest (n + 1) Hlen). rewrite Heq by lia. intros Hc. apply IH.
  apply list_elem_of_In, filter_In. split; [by apply list_elem_of_In|].
  apply negb_true_iff, bool_decide_eq_false. intros E.
  assert (Hge : forall l m f, m <= m -> exists k, m <= k /\ first_free l name m f = name k).
  { clear -Hinj. intros l m f _. revert m. induction f as [|f IHf]; intros m; cbn; [exists m; split; [lia|done]|].
    case_decide; [|exists m; split; [lia|done]]. destruct (IHf (m + 1)) as (k & Hk & Ek). exists k. split; [lia|done]. }
  destruct (Hge rest (n + 1) fuel ltac:(lia)) as (k & Hk & Ek). rewrite Ek in E. apply Hinj in E. lia.
Qed.

Lemma resolveJobId_fresh m p : resolveJobId m p ∉ (jobs m).*1.
Proof.
  unfold resolveJobId. repeat case_decide; try done.
  - apply first_free_fresh; [|lia]. intros a b E. by apply append_inv_l, show_Z_inj in E.
  - apply first_free_fresh; [|lia]. intros a b E. rewrite <- !append_assoc in E. by apply append_inv_l, show_Z_inj in E.
Qed.

Lemma first_free_named taken name n fuel : exists k, first_free taken name n fuel = name k.
Proof. revert n. induction fuel as [|fuel IH]; intros n; cbn; [by exists n|]. case_decide; [apply IH|by exists n]. Qed.

Lemma resolveJobId_named m p : resolveJobId m p <> "".
Proof.
  unfold resolveJobId. repeat case_decide; try done;
    match goal with |- first_free ?t ?f ?n ?k <> _ => destruct (first_free_named t f n k) as [x ->] end; [done|].
  by destruct (match p with Some p => trim p | None => "" end).
Qed.

(** ** Moves *)

(** What may become of a job. *)
Definition status_later (a b : job_status) : bool :=
  bool_decide (a = b) ||
  match a, b with
  | running, _ | completed, failed | paused, cancelled | paused, failed => true
  | _, _ => false
  end.

Record later (j j' : AsyncJob) : Prop := {
  l_id_same : id j' = id j;
  l_start : startTime j' = startTime j;
  l_owner_same : ownerId j' = ownerId j;
  l_subagent : subagent_id j' = subagent_id j;
  l_end : forall t, endTime j = Some t -> endTime j' = Some t;
  l_status : status_later (status j) (status j') = true
}.

#[export] Instance later_refl : Reflexive later.
Proof. intros j. split; try done. unfold status_later. by rewrite bool_decide_true. Qed.

#[export] Instance later_trans : Transitive later.
Proof.
  intros a b c [A1 A2 A3 A4 A5 A6] [B1 B2 B3 B4 B5 B6]. split; try congruence; [by eauto|].
  revert A6 B6. unfold status_later. by destruct (status a), (status b), (status c).
Qed.

(** The end of a job, frozen when it stops. *)
Lemma later_stop j s now : status_later (status j) s = true -> later j (with_status j s (frozen j now)).
Proof. intros H. split; cbn; try done. intros t E. unfold frozen. by rewrite E. Qed.

Lemma later_status j s : status_later (status j) s = true -> later j (with_status j s (endTime j)).
Proof. intros H. by split. Qed.

Lemma later_abort j j' : later j j' -> later j (abort j').
Proof. intros [H1 H2 H3 H4 H5 H6]. by split. Qed.

Lemma later_texts j j' r e : later j j' -> later j (with_texts j' r e).
Proof. intros [H1 H2 H3 H4 H5 H6]. by split. Qed.

(** What the shutdown of an owner keeps. *)
Notation lz m := (leases (ctl m), shutdownSeq (ctl m)).

Section moves.
Context (maxRunningJobs retentionMs : Z).

(** A change of one job; a run that has not ended is only cancelled, unless
    it is the one that ends. *)
Inductive move (ending : option nat) (m m' : manager) : Prop :=
| move_frame :
    objs m' = objs m -> pending m' = pending m -> jobs m' = jobs m -> lz m' = lz m -> move ending m m'
| move_evict i :
    objs m' = objs m -> pending m' = pending m -> jobs m' = map_delete (jobs m) i -> lz m' = lz m -> move ending m m'
| move_change r j j' :
    objs m !! r = Some j -> later j j' ->
    (ending = Some r \/ status j' = status j \/ status j' = cancelled) ->
    objs m' = <[r := j']> (objs m) -> pending m' = pending m -> jobs m' = jobs m -> lz m' = lz m -> move ending m m'
| move_register j :
    free_slot maxRunningJobs m = true -> id j ∉ (jobs m).*1 -> status j = running -> endTime j = None ->
    (forall o, ownerId j = Some o -> o <> "" -> map_get (leases (ctl m)) o = None) -> id j <> "" ->
    objs m' = objs m ++ [j] -> pending m' = pending m ++ [length (objs m)] ->
    jobs m' = map_set (jobs m) (id j) (length (objs m)) -> lz m' = lz m -> move ending m m'.

Notation moves ending := (rtc (move ending)).

Lemma frame_moves e m m' :
  objs m' = objs m -> pending m' = pending m -> jobs m' = jobs m -> lz m' = lz m -> moves e m m'.
Proof. intros. by apply rtc_once, move_frame. Qed.

(** Nothing a move looks at changes. *)
Definition same (m m' : manager) : Prop :=
  objs m' = objs m /\ pending m' = pending m /\ jobs m' = jobs m /\ lz m' = lz m.

Lemma same_refl m : same m m.
Proof. by split_all. Qed.

Lemma same_trans m1 m2 m3 : same m1 m2 -> same m2 m3 -> same m1 m3.
Proof. unfold same. intros (?&?&?&?) (?&?&?&?). split_all; congruence. Qed.

Lemma same_moves e m m' : same m m' -> moves e m m'.
Proof. intros (?&?&?&?). by apply frame_moves. Qed.

Ltac same_cases := intros; repeat (case_match || case_decide); cbn; try apply same_refl; by split_all.

Lemma expire_same m now : same m (expireMonitorTombstones m now).
Proof. by split_all. Qed.

Lemma tombstone_same m i now : same m (recordMonitorTombstone m i now).
Proof. unfold recordMonitorTombstone. same_cases. Qed.

Lemma lifecycle_same m i p o : same m (runLifecycle m i p o).
Proof. unfold runLifecycle. same_cases. Qed.

Lemma mark_same m i st : same m (with_ctl m (mark_record (ctl m) i st)).
Proof. unfold mark_record. same_cases. Qed.

Lemma purge_same m i : same m (purgeTerminalSubagentStateForJob m i).
Proof. unfold purgeTerminalSubagentStateForJob. same_cases. Qed.

Lemma enqueue_same m i t : same m (enqueueDelivery m i t).
Proof. by split_all. Qed.

Lemma evictJob_moves e m i now : moves e m (evictJob m i now).
Proof.
  unfold evictJob.
  set (m1 := purgeTerminalSubagentStateForJob _ _).
  assert (H : same m m1).
  { eapply same_trans; [|apply purge_same]. eapply same_trans; [|apply lifecycle_same].
    eapply same_trans; [apply expire_same|apply tombstone_same]. }
  destruct H as (?&?&?&?). apply rtc_once, (move_evict _ _ _ i); cbn; congruence.
Qed.

Lemma scheduleEviction_moves e m i now : moves e m (scheduleEviction retentionMs m i now).
Proof. unfold scheduleEviction. repeat case_match; [done|apply evictJob_moves|by apply frame_moves]. Qed.

Lemma evictionTimer_moves e m i now : moves e m (evictionTimer m i now).
Proof. unfold evictionTimer. etrans; [|apply evictJob_moves]. by apply frame_moves. Qed.

Lemma register_moves e m o now : moves e m (register maxRunningJobs m o now).2.
Proof.
  unfold register. destruct (disposed m); [done|].
  destruct (bool_decide _ && isOwnerSubagentShutdownFenced _ _) eqn:Hf; [done|]. destruct (decide (maxRunningJobs <= _)) as [Hn|Hn]; [done|].
  set (m1 := expireMonitorTombstones m now). set (i := resolveJobId m1 (o_id o)). cbn [fst snd].
  set (j := {| id := i |}). apply rtc_once.
  apply (move_register _ _ _ j); try (destruct (o_lifecycle o); done).
  - apply bool_decide_eq_true. lia.
  - apply (resolveJobId_fresh m1).
  - intros ow Ho Hne. unfold j in Ho. cbn in Ho. rewrite Ho in Hf. cbn in Hf.
    rewrite bool_decide_true in Hf by done. cbn in Hf. by case_match.
  - apply resolveJobId_named.
Qed.

Section runner.
Context (runner : nat -> string -> option string -> option ResumeDescriptor -> run_request).

Lemma call_runner_moves e m f sid msg now : moves e m (call_runner maxRunningJobs runner m f sid msg now).2.
Proof.
  unfold call_runner. case_match; try done.
  match goal with |- context [register _ _ ?o _] => pose proof (register_moves e m o now) end. by repeat case_match.
Qed.

Lemma startResume_moves e m rec msg now : moves e m (startResume maxRunningJobs runner m rec msg now).2.
Proof.
  unfold startResume. case_match; [done|].
  set (m1 := with_ctl m _). assert (H1 : moves e m m1) by by apply frame_moves.
  destruct (match resolveResumeRunner (ctl m1) (subagentId rec) with Some _ => _ | None => _ end) as [res m2] eqn:Er.
  assert (H2 : moves e m m2).
  { etrans; [exact H1|]. case_match; [|by simplify_eq].
    match type of Er with call_runner _ _ ?a ?b ?c ?d ?f = _ => pose proof (call_runner_moves e a b c d f) as Hc end.
    by rewrite Er in Hc. }
  destruct res as [[newJobId|]|ex]; [|done|done]. etrans; [exact H2|]. by apply frame_moves.
Qed.

Lemma drain_loop_moves e fuel m n now : moves e m (drain_loop maxRunningJobs runner fuel m n now).2.
Proof.
  revert m n. induction fuel as [|fuel IH]; intros m n; [done|]. cbn [drain_loop].
  destruct (_ !! n) as [en|]; [|done]. destruct (negb _); [done|].
  assert (Hr : forall m', moves e m' (with_resume_queue m' (delete n (resumeQueue (ctl m'))))) by (intros; by apply frame_moves).
  destruct (map_get _ _) as [rec|]; [|etrans; [apply Hr|apply IH]].
  case_decide; [etrans; [apply Hr|apply IH]|]. case_match; [apply IH|].
  pose proof (startResume_moves e m rec (message en) now) as Hs.
  destruct (startResume _ _ _ _ _ _) as [[res|[|msg]] m2]; cbn in Hs.
  - case_decide; (etrans; [exact Hs|]); [apply IH|etrans; [apply Hr|apply IH]].
  - etrans; [exact Hs|apply IH].
  - exact Hs.
Qed.

Lemma drain_moves e m now : moves e m (drainResumeQueue maxRunningJobs runner m now).2.
Proof.
  unfold drainResumeQueue. case_decide; [done|]. etrans; [|apply drain_loop_moves]. by apply frame_moves.
Qed.

Notation end_run := (end_run maxRunningJobs retentionMs runner).
Notation drainResumeQueue := (drainResumeQueue maxRunningJobs runner).

Lemma update_obj_moves e m r (f : AsyncJob -> AsyncJob) j :
  objs m !! r = Some j -> later j (f j) -> (e = Some r \/ status (f j) = status j \/ status (f j) = cancelled) ->
  moves e m (update_obj m r f).
Proof. intros Hr Hl Hs. unfold update_obj. rewrite Hr. by apply rtc_once, (move_change _ _ _ r j (f j)). Qed.

Lemma end_run_moves e m i st now : moves e m (end_run m i st now).2.
Proof.
  unfold JobRegistry.end_run. etrans; [|apply drain_moves]. etrans; [|apply same_moves, mark_same]. apply scheduleEviction_moves.
Qed.

(** From the last call back to the first. *)
Ltac back l := etrans; [|apply l].
Ltac back_same := etrans; [|apply same_moves; first [apply lifecycle_same | apply enqueue_same | apply mark_same]].

Lemma settle_try_moves m r j o now :
  objs m !! r = Some j -> status j = running \/ status j = cancelled ->
  moves (Some r) m (settle_try maxRunningJobs retentionMs runner m r j o now).2.
Proof.
  intros Hr Hs. unfold settle_try. destruct o as [text|note|e]; [| |done]; case_decide as Hc;
    try (assert (status j = running) as Hrun by tauto).
  - back end_run_moves. back_same.
    apply (update_obj_moves _ _ _ _ _ Hr); [by apply later_texts|by left].
  - back end_run_moves. back_same. back_same.
    apply (update_obj_moves _ _ _ _ _ Hr); [apply later_texts, later_stop; by rewrite Hrun|by left].
  - back end_run_moves. back_same.
    apply (update_obj_moves _ _ _ _ _ Hr); [by apply later_texts|by left].
  - back drain_moves. back_same.
    apply (update_obj_moves _ _ _ _ _ Hr); [apply later_texts, later_stop; by rewrite Hrun|by left].
Qed.

Lemma lifecycle_obj m i p o r : objs (runLifecycle m i p o) !! r = objs m !! r.
Proof. by destruct (lifecycle_same m i p o) as [-> _]. Qed.

Lemma settle_catch_moves m r j e now :
  objs m !! r = Some j -> moves (Some r) m (settle_catch maxRunningJobs retentionMs runner m r j e now).2.
Proof.
  intros Hr. unfold settle_catch. case_decide as Hc.
  - back end_run_moves. back_same.
    apply (update_obj_moves _ _ _ _ _ Hr); [by apply later_texts|by left].
  - back end_run_moves. back_same.
    etrans; [apply same_moves, (lifecycle_same m (id j) P_terminal (Some r))|].
    apply (update_obj_moves _ _ _ _ j); [by rewrite lifecycle_obj| |by left].
    apply later_texts, later_stop. by destruct (status j).
Qed.

Lemma moves_objs e m m' r j : moves e m m' -> objs m !! r = Some j -> exists j', objs m' !! r = Some j' /\ later j j'.
Proof.
  intros H. revert j. induction H as [m|m m1 m2 H _ IH]; intros j Hr; [by exists j|].
  assert (exists j1, objs m1 !! r = Some j1 /\ later j j1) as (j1 & H1 & L1).
  { destruct H as [E _ _ _|i E _ _ _|r' j1 j2 H1 L _ E _ _ _|j1 _ _ _ _ _ _ E _ _ _]; rewrite E.
    - by exists j.
    - by exists j.
    - destruct (decide (r' = r)) as [->|Hne].
      + assert (j1 = j) as -> by congruence. exists j2. split; [|done]. apply list_lookup_insert_eq. by eapply lookup_lt_Some.
      + exists j. by rewrite list_lookup_insert_ne.
    - exists j. split; [|done]. by apply lookup_app_l_Some. }
  destruct (IH j1 H1) as (j2 & H2 & L2). exists j2. split; [done|by etrans].
Qed.

(** The end of a run: moves, then its promise is settled. *)
Lemma settle_moves m r j o now :
  objs m !! r = Some j -> status j = running \/ status j = cancelled ->
  exists m1, moves (Some r) m m1 /\ settle maxRunningJobs retentionMs runner m r o now = settled m1 r.
Proof.
  intros Hr Hs. unfold settle. rewrite Hr.
  pose proof (settle_try_moves m r j o now Hr Hs) as Ht.
  destruct (settle_try _ _ _ _ _ _ _ _) as [[u|e] m1]; cbn in Ht; [by exists m1|].
  destruct (moves_objs _ _ _ _ _ Ht Hr) as (j1 & Hr1 & _). rewrite Hr1.
  eexists. split; [|done]. etrans; [exact Ht|by apply settle_catch_moves].
Qed.

Notation cancel := (cancel maxRunningJobs retentionMs runner).

Lemma cancel_moves e m i f now : moves e m (cancel m i f now).2.
Proof.
  unfold JobRegistry.cancel, get_job. destruct (map_get (jobs m) i) as [r|] eqn:Hi; [|done].
  destruct (objs m !! r) as [j|] eqn:Hr; [|done]. cbn. destruct (negb _); [done|].
  assert (Hr' : objs (runLifecycle m i P_cancel None) !! r = Some j)
    by (destruct (lifecycle_same m i P_cancel None) as [-> _]; done).
  case_decide as Hp; [|case_decide as Hn; [done|]].
  - match goal with |- moves e m (match drainResumeQueue ?m1 ?t with _ => _ end).2 =>
      assert (H : moves e m (drainResumeQueue m1 t).2); [|by repeat case_match] end.
    back drain_moves. back scheduleEviction_moves. back_same.
    etrans; [apply same_moves, (lifecycle_same m i P_cancel None)|].
    apply (update_obj_moves _ _ _ _ j); [done| |by right; right]. apply later_status. by rewrite Hp.
  - etrans; [apply same_moves, (lifecycle_same m i P_cancel None)|].
    apply (update_obj_moves _ _ _ _ j); [done| |by right; right]. apply later_abort, later_stop. by destruct (status j).
Qed.

Lemma scheduleEviction_objs m i now : objs (scheduleEviction retentionMs m i now) = objs m.
Proof.
  unfold scheduleEviction, evictJob. repeat case_match; [done| |done].
  set (m1 := purgeTerminalSubagentStateForJob _ _).
  assert (same m m1) as (E&_); [|exact E].
  eapply same_trans; [|apply purge_same]. eapply same_trans; [|apply lifecycle_same].
  eapply same_trans; [apply expire_same|apply tombstone_same].
Qed.

Lemma cancelAll_moves e m f now : moves e m (cancelAll retentionMs m f now).
Proof.
  unfold cancelAll.
  assert (H : Forall (fun r => exists j, objs m !! r = Some j /\ (status j = running \/ status j = cancelled)) (running_runs m f)).
  { apply Forall_forall. intros r Hr. apply list_elem_of_In, filter_In in Hr as [_ Hr]. destruct (objs m !! r) as [j|]; [|done].
    exists j. split; [done|left]. apply andb_true_iff in Hr as [_ Hr]. by apply bool_decide_eq_true in Hr. }
  revert H. generalize (running_runs m f). intros rs. revert m. induction rs as [|r rs IH]; intros m' H; [done|]. cbn.
  inversion H as [|? ? (j & Hr & Hs) Hrs]; subst.
  assert (moves e m' (cancel_run retentionMs now m' r) /\
    objs (cancel_run retentionMs now m' r) = <[r := abort (with_status j cancelled (frozen j now))]> (objs m')) as [Hm Ho].
  { unfold cancel_run. rewrite Hr.
    split.
    - back scheduleEviction_moves. etrans; [apply same_moves, (lifecycle_same m' (id j) P_cancel None)|].
      apply (update_obj_moves _ _ _ _ j); [by rewrite lifecycle_obj| |by right; right].
      apply later_abort, later_stop. destruct Hs as [Hs|Hs]; by rewrite Hs.
    - rewrite scheduleEviction_objs. unfold update_obj. rewrite lifecycle_obj, Hr. cbn.
      by destruct (lifecycle_same m' (id j) P_cancel None) as [-> _]. }
  etrans; [exact Hm|]. apply IH. eapply Forall_impl; [exact Hrs|]. intros r' (j' & Hr' & Hs'). rewrite Ho.
  destruct (decide (r = r')) as [->|Hne]; [|rewrite list_lookup_insert_ne by done; by exists j'].
  rewrite list_lookup_insert_eq by by eapply lookup_lt_Some. eexists. split; [done|]. by right.
Qed.

Lemma descriptor_record_same m sid f : same m (recordFromResumeDescriptor m sid f).2.
Proof. unfold recordFromResumeDescriptor. same_cases. Qed.

Lemma getSubagentRecord_same m sid f : same m (getSubagentRecord m sid f).2.
Proof. unfold getSubagentRecord. case_match; [same_cases|apply descriptor_record_same]. Qed.

Lemma resumeSubagent_moves e m sid f msg now : moves e m (resumeSubagent maxRunningJobs runner m sid f msg now).2.
Proof.
  unfold resumeSubagent. pose proof (getSubagentRecord_same m sid f) as Hs.
  destruct (getSubagentRecord m sid f) as [[r|] m1]; cbn in Hs; (etrans; [apply same_moves, Hs|]); [|done].
  destruct (isOwnerSubagentShutdownFenced _ _); [done|]. case_decide; [done|]. case_decide.
  { destruct msg, (queued r); try done. by apply frame_moves. }
  destruct (_ || _); [done|]. destruct (resolveResumeRunner _ _); [|done].
  destruct (free_slot _ _); [apply startResume_moves|]. by apply frame_moves.
Qed.

Notation cancelSubagent := (cancelSubagent maxRunningJobs retentionMs runner).

Lemma cancelSubagent_moves e m sid f now : moves e m (cancelSubagent m sid f now).2.
Proof.
  unfold JobRegistry.cancelSubagent. pose proof (getSubagentRecord_same m sid f) as Hs.
  destruct (getSubagentRecord m sid f) as [[r|] m1]; cbn in Hs; (etrans; [apply same_moves, Hs|]); [|done].
  case_decide; [apply cancel_moves|]. case_decide; [|case_decide; [by apply frame_moves|done]].
  match goal with |- moves e m1 (match drainResumeQueue ?m2 ?t with _ => _ end).2 =>
    assert (H1 : moves e m1 (drainResumeQueue m2 t).2); [|by repeat case_match] end.
  etrans; [|apply drain_moves].
  match goal with |- moves e m1 (with_ctl ?m2 _) => etrans; [|apply (frame_moves e m2); by try destruct r] end.
  unfold get_job. destruct (map_get (jobs m1) _) as [run|]; [|done].
  destruct (objs m1 !! run) as [j|] eqn:Hr; [|done]. cbn. case_decide as Hj; [|done]. destruct Hj as [_ Hj].
  back scheduleEviction_moves. apply (update_obj_moves _ _ _ _ _ Hr); [apply later_status; by rewrite Hj|by right; right].
Qed.
End runner.
End moves.

(** ** What the moves keep *)

Section wf.
Context (maxRunningJobs : Z).

(** Each listed job is listed once, under its own id; a run that has not
    ended, other than the one that is ending, is running or cancelled; the
    running jobs fit. *)
Record wf (ending : option nat) (m : manager) : Prop := {
  wf_keys : NoDup (jobs m).*1;
  wf_ids : forall i r, map_get (jobs m) i = Some r -> exists j, objs m !! r = Some j /\ id j = i;
  wf_pending : forall r, r ∈ pending m -> exists j, objs m !! r = Some j /\ (ending = Some r \/ status j = running \/ status j = cancelled);
  wf_fits : Z.of_nat (length (getRunningJobs m None)) <= maxRunningJobs;
  wf_named : forall i, i ∈ (jobs m).*1 -> i <> ""
}.

Lemma wf_core e m m' : objs m' = objs m -> pending m' = pending m -> jobs m' = jobs m -> wf e m -> wf e m'.
Proof.
  intros Ho Hp Hj [H1 H2 H3 H4 H5]. split; rewrite ?Ho, ?Hp, ?Hj; try done.
  unfold getRunningJobs, filterJobs, listed_jobs in *. by rewrite Ho, Hj.
Qed.

Definition slots (os : list AsyncJob) (js : list (string * nat)) : nat :=
  length (List.filter is_running (omap (fun p => os !! p.2) js)).

Lemma slots_spec m : length (getRunningJobs m None) = slots (objs m) (jobs m).
Proof.
  unfold getRunningJobs, filterJobs, slots. fold (listed_jobs m). f_equal. f_equal.
  induction (listed_jobs m) as [|j l IH]; [done|]. cbn [List.filter]. change (passes None (ownerId j)) with true. by f_equal.
Qed.

Lemma slots_cons os p js :
  slots os (p :: js) = ((match os !! p.2 with Some j => if is_running j then 1 else 0 | None => 0 end) + slots os js)%nat.
Proof. unfold slots. cbn. destruct (os !! p.2) as [j|]; [|done]. cbn. by destruct (is_running j). Qed.

Lemma slots_le os os' js :
  (forall r j', os' !! r = Some j' -> is_running j' = true -> r ∈ js.*2 -> exists j, os !! r = Some j /\ is_running j = true) ->
  (slots os' js <= slots os js)%nat.
Proof.
  intros H. induction js as [|p js IH]; [done|]. rewrite !slots_cons.
  assert (slots os' js <= slots os js)%nat by (apply IH; intros r j' H1 H2 H3; apply (H r j' H1 H2); by right).
  destruct (os' !! p.2) as [j'|] eqn:E; [|lia]. destruct (is_running j') eqn:Er; [|lia].
  destruct (H _ _ E Er ltac:(by left)) as (j & -> & ->). lia.
Qed.

Lemma slots_delete os js i : (slots os (map_delete js i) <= slots os js)%nat.
Proof.
  induction js as [|p js IH]; [done|]. rewrite slots_cons. unfold map_delete in *. rewrite filter_cons.
  case_decide; [rewrite slots_cons|]; lia.
Qed.

Lemma slots_app os js p : slots os (js ++ [p]) = (slots os js + slots os [p])%nat.
Proof. induction js as [|q js IH]; [done|]. cbn [app]. rewrite !(slots_cons _ q), IH. lia. Qed.

Lemma later_running j j' : later j j' -> is_running j' = true -> is_running j = true.
Proof. intros L H. pose proof (l_status _ _ L) as Hs. unfold is_running in *. by destruct (status j), (status j'). Qed.

Lemma move_wf e m m' : move maxRunningJobs e m m' -> wf e m -> wf e m'.
Proof.
  intros [Ho Hp Hj _|i Ho Hp Hj _|r j j' Hr L Hs Ho Hp Hj _|j Hf Hi Hs He Hl Hnm Ho Hp Hj _]; [by apply wf_core| | |];
    intros [H1 H2 H3 H4 H5]; rewrite slots_spec in H4; (split; [| | |rewrite slots_spec|]); rewrite ?Ho, ?Hp, ?Hj.
  - by apply map_delete_NoDup.
  - intros i' r E. destruct (decide (i' = i)) as [->|Hne]; [by rewrite map_get_delete_eq in E|].
    rewrite map_get_delete_ne in E by done. by apply H2.
  - done.
  - pose proof (slots_delete (objs m) (jobs m) i). lia.
  - intros i' Hi'. apply H5. apply list_elem_of_fmap in Hi' as (p & -> & Hp'). apply map_delete_elem in Hp' as [_ Hp'].
    apply list_elem_of_fmap. by exists p.
  - done.
  - intros i' r' E. destruct (H2 i' r' E) as (j0 & Hr0 & Hid). destruct (decide (r = r')) as [->|Hne].
    + exists j'. rewrite list_lookup_insert_eq by by eapply lookup_lt_Some. split; [done|].
      rewrite (l_id_same _ _ L). congruence.
    + exists j0. by rewrite list_lookup_insert_ne.
  - intros r' Hr'. destruct (H3 r' Hr') as (j0 & Hr0 & Hs0). destruct (decide (r = r')) as [->|Hne].
    + exists j'. rewrite list_lookup_insert_eq by by eapply lookup_lt_Some. split; [done|].
      assert (j0 = j) as -> by congruence. destruct Hs as [Hs|[Hs|Hs]]; [by left|rewrite Hs; tauto|tauto].
    + exists j0. by rewrite list_lookup_insert_ne.
  - eapply Z.le_trans; [|exact H4]. apply inj_le, slots_le. intros r' j0 E Er _.
    destruct (decide (r = r')) as [->|Hne]; [|rewrite list_lookup_insert_ne in E by done; by exists j0].
    rewrite list_lookup_insert_eq in E by by eapply lookup_lt_Some. simplify_eq. exists j. split; [done|by eapply later_running].
  - done.
  - by apply map_set_NoDup.
  - intros i' r' E. destruct (decide (i' = id j)) as [->|Hne].
    + rewrite map_get_set_eq in E. simplify_eq. exists j. split; [|done]. by apply list_lookup_middle.
    + rewrite map_get_set_ne in E by done. destruct (H2 _ _ E) as (j0 & Hr0 & Hid). exists j0. split; [|done]. by apply lookup_app_l_Some.
  - intros r' Hr'. apply elem_of_app in Hr' as [Hr'|Hr'].
    + destruct (H3 r' Hr') as (j0 & Hr0 & Hs0). exists j0. split; [|done]. by apply lookup_app_l_Some.
    + apply list_elem_of_singleton in Hr' as ->. exists j. split; [by apply list_lookup_middle|tauto].
  - rewrite map_set_fresh by done. rewrite slots_app, slots_cons. unfold free_slot in Hf. apply bool_decide_eq_true in Hf.
    rewrite slots_spec in Hf.
    assert (slots (objs m ++ [j]) (jobs m) <= slots (objs m) (jobs m))%nat.
    { apply slots_le. intros r' j' E Er Hin. apply list_elem_of_fmap in Hin as ([i' r0] & -> & Hin). cbn in *.
      destruct (H2 i' r0 (map_elem_get _ _ _ H1 Hin)) as (j0 & Hr0 & _). exists j0. split; [done|].
      rewrite (lookup_app_l_Some _ _ _ _ Hr0) in E. by simplify_eq. }
    assert (slots (objs m ++ [j]) [] = 0%nat) by done. cbn [fst snd]. case_match; [case_match|]; lia.
  - intros i' [-> | Hi']%map_set_in; [done|by apply H5].
Qed.

Lemma moves_wf e m m' : rtc (move maxRunningJobs e) m m' -> wf e m -> wf e m'.
Proof. induction 1 as [|m m1 m2 H _ IH]; [done|]. intros Hw. by apply IH, (move_wf _ m). Qed.

Lemma settled_wf m r : wf (Some r) m -> wf None (settled m r).
Proof.
  intros [H1 H2 H3 H4 H5]. split; cbn; try done. intros r' Hr'.
  apply list_elem_of_In, filter_In in Hr' as [Hr' Hne]. apply list_elem_of_In in Hr'. apply negb_true_iff, bool_decide_eq_false in Hne.
  destruct (H3 r' Hr') as (j & Hr & Hs). exists j. split; [done|]. right. destruct Hs as [Hs|Hs]; [congruence|done].
Qed.
End wf.

(** ** Runs of the manager *)

Inductive op :=
| Register (o : register_options) (now : Z)
| Settle (r : nat) (o : run_outcome) (now : Z)
| Cancel (i : string) (filter : option string) (now : Z)
| CancelAll (filter : option string) (now : Z)
| EvictionTimer (i : string) (now : Z)
| PurgeTombstone (i : string) (filter : option string) (now : Z)
| RegisterRecord (r : SubagentRecord)
| UpdateModel (sid : string) (ms : option string * option string * option bool)
| RegisterLiveHandle (sid : string)
| RemoveLiveHandle (sid : string)
| RecordProgress (sid : string)
| HasLive (sid : string) (filter : option string)
| SetRunner (f : nat)
| RegisterDescriptor (d : ResumeDescriptor) (f : option nat)
| GetRecord (sid : string) (filter : option string)
| Pause (sid : string) (filter : option string)
| Resume (sid : string) (filter : option string) (msg : option string) (now : Z)
| CancelSubagent (sid : string) (filter : option string) (now : Z)
| Begin (owner : string)
| ProveStart (l : OwnerSubagentShutdownLease) (now : Z)
| ProveFinish (k : nat) (settled : list string) (deadlineExceeded : bool)
| Finish (l : OwnerSubagentShutdownLease) (o : shutdown_outcome)
| DisposeStart (now : Z)
| DisposeFinish.

(** The manager, the leases it has handed out, and the proofs that wait, each
    for the runs of its watched jobs. *)
Record system := {
  mgr : manager;
  issued : list OwnerSubagentShutdownLease;
  waits : list (OwnerSubagentShutdownLease * list (string * nat))
}.

Section runs.
Context (maxRunningJobs retentionMs : Z).
Context (runner : nat -> string -> option string -> option ResumeDescriptor -> run_request).

Definition manage (m : manager) (o : op) : manager :=
  match o with
  | Register o now => (register maxRunningJobs m o now).2
  | Settle r o now => settle maxRunningJobs retentionMs runner m r o now
  | Cancel i f now => (cancel maxRunningJobs retentionMs runner m i f now).2
  | CancelAll f now => cancelAll retentionMs m f now
  | EvictionTimer i now => evictionTimer m i now
  | PurgeTombstone i f now => (purgeMonitorTombstone m i f now).2
  | RegisterRecord r => registerSubagentRecord m r
  | UpdateModel sid ms => updateSubagentModel m sid ms
  | RegisterLiveHandle sid => registerLiveHandle m sid
  | RemoveLiveHandle sid => removeLiveHandle m sid
  | RecordProgress sid => recordSubagentProgress m sid
  | HasLive sid f => (hasLiveSubagent m sid f).2
  | SetRunner f => setResumeRunner m f
  | RegisterDescriptor d f => registerResumeDescriptor m d f
  | GetRecord sid f => (getSubagentRecord m sid f).2
  | Pause sid f => (pauseSubagent m sid f).2
  | Resume sid f msg now => (resumeSubagent maxRunningJobs runner m sid f msg now).2
  | CancelSubagent sid f now => (cancelSubagent maxRunningJobs retentionMs runner m sid f now).2
  | Begin owner => (beginOwnerSubagentShutdown m owner).2
  | ProveStart l now => (cancelAndProve_start maxRunningJobs retentionMs runner m l now).2
  | ProveFinish _ _ _ => m
  | Finish l o => finishOwnerSubagentShutdown m l o
  | DisposeStart now => dispose_start retentionMs m now
  | DisposeFinish => dispose_finish m
  end.

Definition step (s : system) (o : op) : system :=
  match o with
  | ProveFinish k settled dl =>
      match waits s !! k with
      | Some (l, _) => {| mgr := (cancelAndProve_finish (mgr s) l settled dl).2; issued := issued s; waits := delete k (waits s) |}
      | None => s
      end
  | _ =>
      {| mgr := manage (mgr s) o;
         issued := issued s ++ match o with
                               | Begin owner => match (beginOwnerSubagentShutdown (mgr s) owner).1 with Some l => [l] | None => [] end
                               | _ => [] end;
         waits := waits s ++ match o with
                             | ProveStart l now =>
                                 match (cancelAndProve_start maxRunningJobs retentionMs runner (mgr s) l now).1 with
                                 | Ok (Waiting w) => [(l, w)] | _ => [] end
                             | _ => [] end |}
  end.

(** A run settles once; a timer fires when it is set; a lease is one that was
    handed out; a proof resumes with watched jobs whose runs have ended. *)
Definition possible (s : system) (o : op) : Prop :=
  match o with
  | Settle r _ _ => r ∈ pending (mgr s)
  | EvictionTimer i _ => i ∈ evictionTimers (mgr s)
  | ProveStart l _ | Finish l _ => l ∈ issued s
  | ProveFinish k settled _ =>
      exists l w, waits s !! k = Some (l, w) /\ Forall (fun i => exists r, (i, r) ∈ w /\ r ∉ pending (mgr s)) settled
  | _ => True
  end.

#[export] Instance possible_dec s o : Decision (possible s o).
Proof.
  destruct o; cbn; try apply _.
  destruct (waits s !! k) as [[l w]|] eqn:E; [|right; intros (?&?&?&_); congruence].
  destruct (decide (Forall (fun i => Exists (fun p => p.1 = i /\ p.2 ∉ pending (mgr s)) w) settled)) as [H|H]; [left|right].
  - exists l, w. split; [done|]. eapply Forall_impl; [exact H|]. intros i Hi.
    apply Exists_exists in Hi as ([i' r] & Hin & Heq & Hr). cbn in *. subst. by exists r.
  - intros (l' & w' & E' & Hs). simplify_eq. apply H. eapply Forall_impl; [exact Hs|]. intros i (r & Hin & Hr).
    apply Exists_exists. by exists (i, r).
Defined.

Definition start : system := {| mgr := new_manager; issued := []; waits := [] |}.
Definition run (ops : list op) : system := foldl step start ops.
Definition possible_run (ops : list op) : Prop := run_allows step possible start ops.

Fixpoint check_run (s : system) (ops : list op) : bool :=
  match ops with [] => true | o :: ops => bool_decide (possible s o) && check_run (step s o) ops end.

Lemma check_run_sound ops : check_run start ops = true -> possible_run ops.
Proof.
  unfold possible_run. generalize start. induction ops as [|o ops IH]; intros s; cbn; [done|].
  intros [Ho Hops]%andb_true_iff. split; [by apply bool_decide_eq_true in Ho|by apply IH].
Qed.

(** What an operation does, leases apart. *)
Definition shift (m m' : manager) : Prop :=
  objs m' = objs m /\ pending m' = pending m /\ (jobs m' = jobs m \/ jobs m' = []).

Definition acts (e : option nat) : manager -> manager -> Prop := rtc (fun a b => move maxRunningJobs e a b \/ shift a b).

Lemma moves_acts e m m' : rtc (move maxRunningJobs e) m m' -> acts e m m'.
Proof. apply rtc_subrel. intros a b. by left. Qed.

Lemma shift_acts e m m' : shift m m' -> acts e m m'.
Proof. intros H. apply rtc_once. by right. Qed.

Lemma cancel_backing_moves e owner now acc ps :
  rtc (move maxRunningJobs e) acc.2 (foldl (cancel_backing maxRunningJobs retentionMs runner owner now) acc ps).2.
Proof.
  revert acc. induction ps as [|p ps IH]; intros [[w|ex] m]; [done|done| |]; cbn [foldl].
  - etrans; [|apply IH]. cbn. pose proof (cancel_moves maxRunningJobs retentionMs runner e m p.1 (Some owner) now) as H.
    by destruct (cancel _ _ _ _ _ _ _) as [[]].
  - apply IH.
Qed.

Lemma cancel_target_moves e st now acc ts :
  rtc (move maxRunningJobs e) acc.2 (foldl (cancel_target maxRunningJobs retentionMs runner st now) acc ts).2.
Proof.
  revert acc. induction ts as [|t ts IH]; intros [[w|ex] m]; [done|done| |]; cbn [foldl]; [|apply IH].
  etrans; [|apply IH]. cbn.
  pose proof (cancelSubagent_moves maxRunningJobs retentionMs runner e m (t_subagent t) (Some (l_owner (lease st))) now) as H.
  case_decide.
  - destruct (cancelSubagent _ _ _ _ _ _ _) as [[b|ex] m1]; cbn in H; [|done]. etrans; [exact H|apply (cancel_backing_moves _ _ _ (Ok w, m1))].
  - apply (cancel_backing_moves _ _ _ (Ok w, m)).
Qed.

Lemma begin_shift m owner : shift m (beginOwnerSubagentShutdown m owner).2.
Proof. unfold beginOwnerSubagentShutdown. case_decide; [|case_match]; cbn; split_all; auto. Qed.

Lemma finish_shift m l o : shift m (finishOwnerSubagentShutdown m l o).
Proof.
  unfold finishOwnerSubagentShutdown. case_match; [|split_all; auto]. case_decide; [split_all; auto|].
  destruct o; [destruct (proof _) as [p|]; [case_decide|]|]; split_all; auto.
Qed.

Lemma prove_finish_shift m l settled dl : shift m (cancelAndProve_finish m l settled dl).2.
Proof. unfold cancelAndProve_finish. repeat case_match; cbn; split_all; auto. Qed.

Lemma prove_start_acts e m l now : acts e m (cancelAndProve_start maxRunningJobs retentionMs runner m l now).2.
Proof.
  unfold cancelAndProve_start. destruct (map_get _ _) as [st|]; [|done]. case_decide; [done|].
  set (st' := with_phase st proving (proof st)). set (m1 := with_ctl m (set_lease (ctl m) (l_owner l) st')).
  assert (Hall : acts e m (foldl (cancel_target maxRunningJobs retentionMs runner st' now) (Ok [], m1) (targets l)).2).
  { etrans; [apply (shift_acts _ _ m1); split_all; by auto|].
    apply moves_acts, (cancel_target_moves _ st' now (Ok [], m1)). }
  destruct (foldl _ _ _) as [[w|ex] m2]; cbn in Hall; destruct (l_phase st), (proof st); done.
Qed.

Lemma dispose_moves e m now : rtc (move maxRunningJobs e) m (dispose_start retentionMs m now).
Proof.
  unfold dispose_start. set (m1 := {| objs := objs m |}).
  etrans; [by apply (frame_moves _ _ m (purgeOwnerSubagentState m1 None))|].
  etrans; [apply (cancelAll_moves _ retentionMs _ _ None now)|]. by apply frame_moves.
Qed.

Lemma tombstone_purge_same m i f now : same m (purgeMonitorTombstone m i f now).2.
Proof. unfold purgeMonitorTombstone. cbn. repeat case_match; simplify_eq; by split_all. Qed.

Lemma hasLive_same m sid f : same m (hasLiveSubagent m sid f).2.
Proof.
  unfold hasLiveSubagent. pose proof (getSubagentRecord_same m sid f) as Hg.
  destruct (getSubagentRecord m sid f) as [[r|] m1]; [|done]. cbn in *. by case_decide.
Qed.

Lemma pause_same m sid f : same m (pauseSubagent m sid f).2.
Proof.
  unfold pauseSubagent. pose proof (getSubagentRecord_same m sid f) as Hg.
  destruct (getSubagentRecord m sid f) as [[r|] m1]; [|done]. cbn in *. case_decide; [done|]. case_decide; [done|].
  eapply same_trans; [exact Hg|]. by split_all.
Qed.

(** The operations that leave the leases alone. *)
Definition quiet (o : op) : bool :=
  match o with Settle _ _ _ | Begin _ | ProveStart _ _ | ProveFinish _ _ _ | Finish _ _ | DisposeFinish => false | _ => true end.

Lemma manage_moves e m o : quiet o = true -> rtc (move maxRunningJobs e) m (manage m o).
Proof.
  intros Hq. destruct o; try discriminate Hq; cbn [manage]; try (by apply frame_moves).
  - apply register_moves.
  - apply cancel_moves.
  - apply cancelAll_moves.
  - apply evictionTimer_moves.
  - apply same_moves, tombstone_purge_same.
  - apply same_moves. unfold updateSubagentModel. case_match; by split_all.
  - apply same_moves. unfold recordSubagentProgress. case_match; by split_all.
  - apply same_moves, hasLive_same.
  - apply same_moves, getSubagentRecord_same.
  - apply same_moves, pause_same.
  - apply resumeSubagent_moves.
  - apply cancelSubagent_moves.
  - apply dispose_moves.
Qed.

Lemma manage_acts m o : match o with Settle _ _ _ => True | _ => acts None m (manage m o) end.
Proof.
  destruct (quiet o) eqn:Hq; [pose proof (moves_acts _ _ _ (manage_moves None m o Hq)); by destruct o|].
  destruct o; try discriminate Hq; cbn [manage]; try done.
  - apply shift_acts, begin_shift.
  - apply prove_start_acts.
  - apply shift_acts, finish_shift.
  - apply shift_acts. split_all; auto.
Qed.

(** Every step acts; the end of a run also settles its promise. *)
Lemma step_acts s o :
  wf maxRunningJobs None (mgr s) -> possible s o ->
  acts None (mgr s) (mgr (step s o)) \/ exists r m1, acts (Some r) (mgr s) m1 /\ mgr (step s o) = settled m1 r.
Proof.
  intros Hw Hp. pose proof (manage_acts (mgr s) o) as Ha. destruct o; try (left; exact Ha); clear Ha.
  - right. cbn in Hp. destruct (wf_pending _ _ _ Hw r Hp) as (j & Hr & [Hs|Hs]); [done|].
    destruct (settle_moves maxRunningJobs retentionMs runner (mgr s) r j o now Hr Hs) as (m1 & H1 & H2).
    exists r, m1. split; [by apply moves_acts|exact H2].
  - left. cbn. destruct (waits s !! k) as [[l w]|]; [|done]. apply shift_acts, prove_finish_shift.
Qed.

Section kept.
Context (Hmax : 1 <= maxRunningJobs).

Lemma acts_wf e m m' : acts e m m' -> wf maxRunningJobs e m -> wf maxRunningJobs e m'.
Proof.
  induction 1 as [|m m1 m2 H _ IH]; [done|]. intros Hw. apply IH. destruct H as [H|(Ho & Hp & Hj)]; [by apply (move_wf _ _ m)|].
  destruct Hj as [Hj|Hj]; [by apply (wf_core _ _ m)|]. destruct Hw as [H1 H2 H3 H4 H5].
  split; [|intros i r| |rewrite slots_spec|intros i]; rewrite ?Ho, ?Hp, ?Hj; cbn;
    [constructor|done|done|unfold slots; cbn; lia|by intros ?%not_elem_of_nil].
Qed.

Lemma wf_weaken e m : wf maxRunningJobs None m -> wf maxRunningJobs e m.
Proof. intros [H1 H2 H3 H4 H5]. split; try done. intros r Hr. destruct (H3 r Hr) as (j & ? & [?|?]); [done|]. exists j. tauto. Qed.

Lemma jobs_step_wf s o : wf maxRunningJobs None (mgr s) -> possible s o -> wf maxRunningJobs None (mgr (step s o)).
Proof.
  intros Hw Hp. destruct (step_acts s o Hw Hp) as [H|(r & m1 & H & ->)]; [by eapply acts_wf|].
  apply settled_wf. by eapply acts_wf, wf_weaken.
Qed.

Lemma jobs_run_wf ops : possible_run ops -> wf maxRunningJobs None (mgr (run ops)).
Proof.
  intros H. apply (foldl_allowed step possible (fun s => wf maxRunningJobs None (mgr s))); [apply jobs_step_wf|done|].
  split; cbn; [constructor|done|by intros r Hr%not_elem_of_nil|lia|by intros i Hi%not_elem_of_nil].
Qed.

Lemma acts_objs e m m' r j : acts e m m' -> objs m !! r = Some j -> exists j', objs m' !! r = Some j' /\ later j j'.
Proof.
  intros H. revert j. induction H as [m|m m1 m2 H _ IH]; intros j Hr; [by exists j|].
  destruct H as [H|(Ho & _)].
  - destruct (moves_objs maxRunningJobs e m m1 r j (rtc_once _ _ H) Hr) as (j1 & H1 & L1).
    destruct (IH _ H1) as (j2 & H2 & L2). exists j2. split; [done|by etrans].
  - apply IH. by rewrite Ho.
Qed.

Lemma listed_ids m : wf maxRunningJobs None m -> id <$> listed_jobs m = (jobs m).*1.
Proof.
  intros [H1 H2 _ _ _]. unfold listed_jobs.
  assert (H : Forall (fun p => exists j, objs m !! p.2 = Some j /\ id j = p.1) (jobs m)).
  { apply Forall_forall. intros [i r] Hin. apply H2. by apply map_elem_get. }
  clear -H. induction H as [|[i r] js (j & Hr & Hid) _ IH]; [done|]. cbn in *. rewrite Hr. cbn. by rewrite IH, Hid.
Qed.

(** After every run of the manager, whatever its callers do, no more than
    [maxRunningJobs] listed jobs are running, no two listed jobs have the same
    id, and every job is found under its own id. *)
Theorem job_slots_bounded ops :
  possible_run ops ->
  let m := mgr (run ops) in
  Z.of_nat (length (getRunningJobs m None)) <= maxRunningJobs /\
  NoDup (id <$> getAllJobs m None) /\
  forall i r j, get_job m i = Some (r, j) -> id j = i.
Proof.
  intros H m. pose proof (jobs_run_wf ops H) as Hw. fold m in Hw. split; [apply Hw|split].
  - assert (getAllJobs m None = listed_jobs m) as ->.
    { unfold getAllJobs, filterJobs. induction (listed_jobs m) as [|j l IH]; [done|]. cbn [List.filter].
      change (passes None (ownerId j)) with true. by f_equal. }
    rewrite listed_ids by done. apply Hw.
  - intros i r j. unfold get_job. destruct (map_get (jobs m) i) as [r'|] eqn:E; [|done].
    destruct (wf_ids _ _ _ Hw i r' E) as (j' & Hr & Hid). rewrite Hr. cbn. congruence.
Qed.

(** A job keeps its id, its start and its owner as long as it exists; its
    end, once set, stays; and its status only moves from running to an end,
    from paused to cancelled or failed, and from completed to failed. *)
Theorem job_fate ops ops' r j :
  possible_run (ops ++ ops') -> objs (mgr (run ops)) !! r = Some j ->
  exists j', objs (mgr (run (ops ++ ops'))) !! r = Some j' /\
    id j' = id j /\ startTime j' = startTime j /\ ownerId j' = ownerId j /\
    (forall t, endTime j = Some t -> endTime j' = Some t) /\
    status_later (status j) (status j') = true.
Proof.
  intros H Hr.
  assert (exists j', objs (mgr (run (ops ++ ops'))) !! r = Some j' /\ later j j') as (j' & Hr' & [L1 L2 L3 L4 L5 L6]); [|by exists j'].
  unfold possible_run in H. apply run_allows_app in H as [H H']. pose proof (jobs_run_wf ops H) as Hw.
  unfold run. rewrite foldl_app. fold (run ops). revert j Hr Hw H'. change (foldl step start ops) with (run ops). generalize (run ops). clear H.
  induction ops' as [|o ops' IH]; intros s j Hr Hw H'; [by exists j|]. cbn in *. destruct H' as [Ho H'].
  assert (exists j1, objs (mgr (step s o)) !! r = Some j1 /\ later j j1) as (j1 & H1 & L1).
  { destruct (step_acts s o Hw Ho) as [Ha|(r0 & m1 & Ha & ->)]; by apply (acts_objs _ _ _ _ _ Ha) in Hr. }
  destruct (IH (step s o) j1 H1 (jobs_step_wf s o Hw Ho) H') as (j2 & H2 & L2). exists j2. split; [done|by etrans].
Qed.
End kept.
End runs.

(** ** Runs at work *)

(** A background job of an owner; a task of one of its subagents. *)
Definition bg_job (owner : string) : register_options :=
  {| o_type := bash; o_label := "sleep"; o_id := None; o_owner := Some owner; o_subagent := None; o_monitor := false;
     o_lifecycle := false |}.

Definition task_job (owner sid : string) : register_options :=
  {| o_type := task; o_label := sid; o_id := Some sid; o_owner := Some owner; o_subagent := Some sid; o_monitor := false;
     o_lifecycle := true |}.

(** A runner that starts the task again under its owner, one that fails, and
    one that throws. *)
Definition sample_runner (f : nat) (sid : string) (msg : option string) (d : option ResumeDescriptor) : run_request :=
  match f with
  | 0%nat => R_register (task_job "0-Main" sid)
  | 1%nat => R_none
  | _ => R_throw (Error "no executor")
  end.

Definition sample_record (owner sid : string) (job : option string) st : SubagentRecord :=
  {| subagentId := sid; rec_owner := Some owner; currentJobId := job; historicalJobIds := []; rec_status := st;
     sessionFile := Some "session.jsonl"; resumable := true; queued := None; models := (None, None, None) |}.

Definition slots_ops : list op :=
  [Register (bg_job "0-Main") 1; Register (task_job "0-Main" "a") 2; Register (bg_job "1-B") 3; Settle 0 (O_completed "done") 4;
   Register (bg_job "1-B") 5; Cancel "a" None 6; Settle 1 (O_error "aborted") 7; EvictionTimer "bg_1" 8].

Lemma job_slots_bounded_witness :
  let m := mgr (run 2 1000 sample_runner slots_ops) in
  Z.of_nat (length (getRunningJobs m None)) <= 2 /\ NoDup (id <$> getAllJobs m None) /\
  forall i r j, get_job m i = Some (r, j) -> id j = i.
Proof. apply (job_slots_bounded 2 1000 sample_runner ltac:(lia) slots_ops). apply check_run_sound. vm_compute. reflexivity. Defined.

Lemma job_fate_witness :
  exists j', objs (mgr (run 2 1000 sample_runner slots_ops)) !! 1%nat = Some j' /\ id j' = "a" /\ startTime j' = 2 /\
    endTime j' = Some 6 /\ status_later cancelled (status j') = true.
Proof.
  destruct (job_fate 2 1000 sample_runner ltac:(lia) (take 6 slots_ops) (drop 6 slots_ops) 1
    {| id := "a"; type := task; status := cancelled; startTime := 2; endTime := Some 6; label := "a"; aborted := true;
       resultText := None; errorText := None; subagent_id := Some "a"; monitor := false; ownerId := Some "0-Main" |})
    as (j' & H1 & H2 & H3 & _ & H5 & H6).
  - apply check_run_sound. vm_compute. reflexivity.
  - vm_compute. reflexivity.
  - exists j'. split; [exact H1|]. split; [exact H2|]. split; [exact H3|]. split; [by apply H5|exact H6].
Defined.

