(* ===== verification/JobShutdown.v ===== *)
(** * The shutdown of an owner's subagents ([async/job-manager.ts])

    What [beginOwnerSubagentShutdown] sees, what the fence keeps out, and what
    a confirmed [cancelAndProveOwnerSubagents] proves. *)

From stdpp Require Import sorting relations.
From S2P Require Import Prelude JsNumber JsValue JsText JobRegistry JobRuns.

Local Open Scope string_scope.
Local Open Scope list_scope.
Local Open Scope Z_scope.

(** ** What the fence keeps out *)

(** The listed runs of an owner in [m'] were listed runs of its in [m]. *)
Definition back_to (o : string) (m m' : manager) : Prop :=
  forall i r j', map_get (jobs m') i = Some r -> objs m' !! r = Some j' -> ownerId j' = Some o ->
    exists j, map_get (jobs m) i = Some r /\ objs m !! r = Some j /\ ownerId j = Some o /\ subagent_id j = subagent_id j' /\
      (r ∈ pending m' -> r ∈ pending m).

#[export] Instance back_to_refl o : Reflexive (back_to o).
Proof. intros m i r j H1 H2 H3. by exists j. Qed.

#[export] Instance back_to_trans o : Transitive (back_to o).
Proof.
  intros m1 m2 m3 H12 H23 i r j3 Hi Hr Ho. destruct (H23 i r j3 Hi Hr Ho) as (j2 & Hi2 & Hr2 & Ho2 & Hs2 & Hp2).
  destruct (H12 i r j2 Hi2 Hr2 Ho2) as (j1 & Hi1 & Hr1 & Ho1 & Hs1 & Hp1). exists j1. split_all; try done; [congruence|auto].
Qed.

Section shutdown.
Context (maxRunningJobs retentionMs : Z).
Context (runner : nat -> string -> option string -> option ResumeDescriptor -> run_request).

Lemma move_back e o m m' :
  move maxRunningJobs e m m' -> wf maxRunningJobs e m -> o <> "" -> map_get (leases (ctl m)) o <> None -> back_to o m m'.
Proof.
  intros H Hw Hne Hfence i r j'. destruct H as [Ho Hp Hj _|i0 Ho Hp Hj _|r0 j0 j1 Hr0 L _ Ho Hp Hj _|j0 _ Hi _ _ Hl _ Ho Hp Hj _];
    rewrite Ho, Hp, Hj; intros Hi' Hr' Ho'.
  - by exists j'.
  - destruct (decide (i = i0)) as [->|Hni]; [by rewrite map_get_delete_eq in Hi'|]. rewrite map_get_delete_ne in Hi' by done. by exists j'.
  - destruct (decide (r0 = r)) as [->|Hnr]; [|rewrite list_lookup_insert_ne in Hr' by done; by exists j'].
    rewrite list_lookup_insert_eq in Hr' by by eapply lookup_lt_Some. simplify_eq. exists j0.
    rewrite <- (l_owner_same _ _ L), (l_subagent _ _ L). by split_all.
  - destruct (decide (i = id j0)) as [->|Hni].
    + rewrite map_get_set_eq in Hi'. simplify_eq. rewrite list_lookup_middle in Hr' by done. simplify_eq.
      by specialize (Hl o Ho' Hne).
    + rewrite map_get_set_ne in Hi' by done. destruct (wf_ids _ _ _ Hw _ _ Hi') as (j & Hr & _).
      rewrite (lookup_app_l_Some _ _ _ _ Hr) in Hr'. simplify_eq. exists j'. split_all; try done.
      intros Hin. apply elem_of_app in Hin as [Hin|Hin]; [done|]. apply list_elem_of_singleton in Hin. apply lookup_lt_Some in Hr. lia.
Qed.

Lemma move_lz e m m' : move maxRunningJobs e m m' -> lz m' = lz m.
Proof. by destruct 1. Qed.

Lemma moves_lz e m m' : rtc (move maxRunningJobs e) m m' -> lz m' = lz m.
Proof. induction 1 as [|? ? ? H _ IH]; [done|]. by rewrite IH, (move_lz _ _ _ H). Qed.

Lemma moves_back e o m m' :
  rtc (move maxRunningJobs e) m m' -> wf maxRunningJobs e m -> o <> "" -> map_get (leases (ctl m)) o <> None -> back_to o m m'.
Proof.
  induction 1 as [m|m m1 m2 H H' IH]; intros Hw Hne Hf; [done|]. etrans; [by eapply move_back|].
  pose proof (move_lz _ _ _ H) as E. apply IH; [by eapply move_wf|done|]. congruence.
Qed.

(** ** What the shutdown keeps *)

(** A run of the owner's subagents that has not ended is backing a target,
    and there is none once the shutdown is confirmed. *)
Definition tracked (m : manager) (o : string) (st : lease_state) : Prop :=
  forall i r j sid, map_get (jobs m) i = Some r -> objs m !! r = Some j -> ownerId j = Some o -> subagent_id j = Some sid ->
    sid <> "" -> r ∈ pending m ->
    sid ∈ t_subagent <$> targets (lease st) /\ i ∈ default [] (map_get (backingJobIds st) sid) /\
    (forall p, proof st = Some p -> reason p <> confirmed).

(** The id is bound to that run, or to none of the owner. *)
Definition bound (m : manager) (o : string) (p : string * nat) : Prop :=
  forall r j, map_get (jobs m) p.1 = Some r -> objs m !! r = Some j -> ownerId j = Some o -> r = p.2.

Lemma tracked_back m m' o st : back_to o m m' -> tracked m o st -> tracked m' o st.
Proof.
  intros Hb Ht i r j' sid Hi Hr Ho Hs Hne Hp. destruct (Hb i r j' Hi Hr Ho) as (j & Hi0 & Hr0 & Ho0 & Hs0 & Hp0).
  apply (Ht i r j sid); try done; [congruence|auto].
Qed.

Lemma bound_back m m' o p : back_to o m m' -> bound m o p -> bound m' o p.
Proof. intros Hb Hbd r j' Hi Hr Ho. destruct (Hb _ _ _ Hi Hr Ho) as (j & Hi0 & Hr0 & Ho0 & _). by apply (Hbd r j). Qed.

Record shut (s : system) : Prop := {
  sh_wf : wf maxRunningJobs None (mgr s);
  sh_lease : forall o st, map_get (leases (ctl (mgr s))) o = Some st ->
    o <> "" /\ l_owner (lease st) = o /\ lease st ∈ issued s /\ tracked (mgr s) o st;
  sh_ids : forall l, l ∈ issued s -> l_id l <= shutdownSeq (ctl (mgr s));
  sh_unique : NoDup (l_id <$> issued s);
  sh_waits : forall l w, (l, w) ∈ waits s -> l ∈ issued s /\
    forall st, map_get (leases (ctl (mgr s))) (l_owner l) = Some st -> lease st = l -> Forall (bound (mgr s) (l_owner l)) w
}.

(** Steps that leave the leases alone. *)
Lemma shut_back s s' :
  shut s -> lz (mgr s') = lz (mgr s) -> wf maxRunningJobs None (mgr s') ->
  (forall o, o <> "" -> map_get (leases (ctl (mgr s))) o <> None -> back_to o (mgr s) (mgr s')) ->
  issued s' = issued s -> waits s' = waits s -> shut s'.
Proof.
  intros [H1 H2 H3 H4 H5] E Hw Hb Ei Ew. injection E as El Es. split; rewrite ?Ei, ?Ew, ?El, ?Es; try done.
  - intros o st Hst. destruct (H2 o st Hst) as (Hne & Ho & Hi & Ht). split; [done|]. split; [done|]. split; [done|].
    apply (tracked_back (mgr s)); [|done]. apply Hb; [done|]. by rewrite Hst.
  - intros l w Hin. destruct (H5 l w Hin) as [Hi Hbd]. split; [done|]. intros st Hst Hl.
    eapply Forall_impl; [by apply (Hbd st)|]. intros p. apply bound_back. apply Hb; [|by rewrite Hst].
    by destruct (H2 _ _ Hst).
Qed.

Lemma issued_same s l l' : shut s -> l ∈ issued s -> l' ∈ issued s -> l_id l = l_id l' -> l = l'.
Proof. intros H. apply (NoDup_inj_on l_id). apply (sh_unique _ H). Qed.

(** ** Beginning a shutdown *)

Lemma keyed_set (l : list (string * OwnerSubagentShutdownTarget)) k t :
  t_subagent <$> l.*2 = l.*1 -> t_subagent t = k -> t_subagent <$> (map_set l k t).*2 = (map_set l k t).*1.
Proof.
  intros H Ht. induction l as [|[k' t'] l IH]; cbn in *; [by rewrite Ht|]. injection H as H1 H2.
  case_decide; cbn; [by rewrite Ht, H2|]. by rewrite H1, IH.
Qed.

Lemma backing_grows b sid job sid' i :
  i ∈ default [] (map_get b sid') -> i ∈ default [] (map_get (addBackingJob b sid job) sid').
Proof.
  intros H. unfold addBackingJob. destruct job as [j|]; [|done]. case_decide; [done|].
  destruct (decide (sid = sid')) as [->|Hne]; [|by rewrite map_get_set_ne]. rewrite map_get_set_eq. cbn.
  unfold set_insert. case_decide; [done|]. apply elem_of_app. by left.
Qed.

Lemma backing_added b sid i : i <> "" -> i ∈ default [] (map_get (addBackingJob b sid (Some i)) sid).
Proof.
  intros H. unfold addBackingJob. rewrite decide_False, map_get_set_eq by done. cbn. unfold set_insert.
  case_decide; [done|]. apply elem_of_app. right. by left.
Qed.

Definition keyed (acc : list (string * OwnerSubagentShutdownTarget) * list (string * list string)) : Prop :=
  t_subagent <$> acc.1.*2 = acc.1.*1.

Lemma collect_record_keyed o acc r : keyed acc -> keyed (collect_record o acc r).
Proof. intros H. unfold collect_record. case_decide; [done|]. destruct (isTerminalSubagentStatus _); [done|]. by apply keyed_set. Qed.

Lemma collect_job_keyed o acc j : keyed acc -> keyed (collect_job o acc j).
Proof. intros H. unfold collect_job. case_decide; [done|]. case_match; [done|]. by apply keyed_set. Qed.

Lemma collect_job_grows o acc j sid i :
  sid ∈ acc.1.*1 /\ i ∈ default [] (map_get acc.2 sid) ->
  sid ∈ (collect_job o acc j).1.*1 /\ i ∈ default [] (map_get (collect_job o acc j).2 sid).
Proof.
  intros [H1 H2]. unfold collect_job. case_decide; [done|]. cbn [fst snd]. split; [|by apply backing_grows].
  case_match; [done|]. apply map_set_in. by right.
Qed.

Lemma collect_job_adds o acc j sid :
  ownerId j = Some o -> subagent_id j = Some sid -> sid <> "" -> status j ∈ [running; paused; cancelled] -> id j <> "" ->
  sid ∈ (collect_job o acc j).1.*1 /\ id j ∈ default [] (map_get (collect_job o acc j).2 sid).
Proof.
  intros Ho Hs Hne Hst Hi. unfold collect_job. rewrite Hs. change (default "" (Some sid)) with sid.
  rewrite decide_False by (intros [?|[?|?]]; done). cbn [fst snd]. split; [|by apply backing_added].
  destruct (map_get acc.1 sid) as [t|] eqn:E; [|apply map_set_in; by left].
  apply map_get_elem in E. apply list_elem_of_fmap. by exists (sid, t).
Qed.

Lemma collect_jobs_cover o js acc j sid :
  j ∈ js -> ownerId j = Some o -> subagent_id j = Some sid -> sid <> "" -> status j ∈ [running; paused; cancelled] -> id j <> "" ->
  sid ∈ (foldl (collect_job o) acc js).1.*1 /\ id j ∈ default [] (map_get (foldl (collect_job o) acc js).2 sid).
Proof.
  intros Hin Ho Hs Hne Hst Hi. revert acc. induction js as [|j' js IH]; intros acc; [by apply not_elem_of_nil in Hin|]. cbn [foldl].
  apply elem_of_cons in Hin as [<-|Hin]; [|by apply IH].
  apply (foldl_invariant (collect_job o) (fun acc => sid ∈ acc.1.*1 /\ id j ∈ default [] (map_get acc.2 sid))).
  - intros acc' j' _. apply collect_job_grows.
  - by apply collect_job_adds.
Qed.

Lemma begin_spec m o l :
  (beginOwnerSubagentShutdown m o).1 = Some l -> wf maxRunningJobs None m ->
  exists st, o <> "" /\ map_get (leases (ctl m)) o = None /\ lease st = l /\ l_owner l = o /\ l_id l = shutdownSeq (ctl m) + 1 /\
    lz (beginOwnerSubagentShutdown m o).2 = (map_set (leases (ctl m)) o st, shutdownSeq (ctl m) + 1) /\ tracked m o st.
Proof.
  intros Hl Hw. unfold beginOwnerSubagentShutdown in *. case_decide as Hne; [done|].
  destruct (map_get (leases (ctl m)) o) eqn:Ef; [done|]. cbn in Hl. injection Hl as <-.
  set (acc := foldl (collect_record o) ([], []) (records (ctl m)).*2).
  set (acc' := foldl (collect_job o) acc (listed_jobs m)).
  exists {| lease := {| l_owner := o; l_id := shutdownSeq (ctl m) + 1; targets := acc'.1.*2 |};
       backingJobIds := acc'.2; l_phase := active; proof := None |}. do 6 (split; [done|]).
  intros i r j sid Hi Hr Ho Hs Hsid Hp. cbn [lease backingJobIds proof targets].
  assert (Hk : keyed acc').
  { apply foldl_invariant; [intros; by apply collect_job_keyed|].
    apply (foldl_invariant (collect_record o) keyed); [intros; by apply collect_record_keyed|done]. }
  rewrite Hk. destruct (wf_ids _ _ _ Hw i r Hi) as (j' & Hr' & Hid). assert (j' = j) as -> by congruence.
  assert (Hin : (i, r) ∈ jobs m) by by apply map_get_elem.
  destruct (collect_jobs_cover o (listed_jobs m) acc j sid) as [H1 H2]; try done.
  - unfold listed_jobs. apply list_elem_of_omap. by exists (i, r).
  - destruct (wf_pending _ _ _ Hw r Hp) as (j0 & Hr0 & [?|[Hst|Hst]]); [done| |]; assert (j0 = j) as -> by congruence; rewrite Hst; set_solver.
  - rewrite Hid. apply (wf_named _ _ _ Hw). apply list_elem_of_fmap. by exists (i, r).
  - rewrite <- Hid. by split.
Qed.

Lemma begin_none m o : (beginOwnerSubagentShutdown m o).1 = None -> (beginOwnerSubagentShutdown m o).2 = m.
Proof. unfold beginOwnerSubagentShutdown. by repeat case_match. Qed.

(** What [tracked] and [bound] look at. *)
Lemma shift_back o m m' : shift m m' -> back_to o m m'.
Proof.
  intros (Ho & Hp & Hj) i r j. rewrite Ho, Hp. destruct Hj as [-> | ->]; [|done]. intros. by exists j.
Qed.

Lemma shut_begin s o : shut s -> shut (step maxRunningJobs retentionMs runner s (Begin o)).
Proof.
  intros Hsh. cbn. pose proof (begin_shift (mgr s) o) as Hb.
  destruct (beginOwnerSubagentShutdown (mgr s) o).1 as [l|] eqn:El.
  2:{ rewrite (begin_none _ _ El), !app_nil_r. by destruct s. }
  destruct (begin_spec _ _ _ El (sh_wf _ Hsh)) as (st & Hne & Hfree & <- & Hlo & Hlid & Hlz & Ht). injection Hlz as Hl Hseq.
  destruct Hsh as [H1 H2 H3 H4 H5]. split; cbn [mgr issued waits]; rewrite ?Hl, ?Hseq, ?app_nil_r.
  - destruct Hb as (? & ? & [?|Hj]); [by apply (wf_core _ _ (mgr s))|].
    apply (wf_core _ _ (mgr s)); try done. revert Hj. unfold beginOwnerSubagentShutdown. by repeat case_match.
  - intros o' st' Hst'. destruct (decide (o' = o)) as [->|Hno].
    + rewrite map_get_set_eq in Hst'. injection Hst' as <-. split; [done|]. split; [done|]. split; [apply elem_of_app; right; by left|].
      apply (tracked_back (mgr s)); [by apply shift_back|done].
    + rewrite map_get_set_ne in Hst' by done. destruct (H2 _ _ Hst') as (? & ? & ? & ?). split; [done|]. split; [done|].
      split; [apply elem_of_app; by left|]. apply (tracked_back (mgr s)); [by apply shift_back|done].
  - intros l [Hin|Hin]%elem_of_app; [specialize (H3 _ Hin); lia|]. apply list_elem_of_singleton in Hin as ->. lia.
  - rewrite fmap_app. apply NoDup_app. split; [done|]. split; [|by apply NoDup_singleton].
    intros x Hx Hx'. apply list_elem_of_singleton in Hx'. apply list_elem_of_fmap in Hx as (l & -> & Hin). specialize (H3 _ Hin). lia.
  - intros l w Hin. destruct (H5 l w Hin) as [Hi Hbd]. split; [apply elem_of_app; by left|]. intros st' Hst' Hls.
    destruct (decide (l_owner l = o)) as [Heq|Hno].
    + rewrite Heq, map_get_set_eq in Hst'. injection Hst' as <-. subst l. specialize (H3 _ Hi). lia.
    + rewrite map_get_set_ne in Hst' by done. eapply Forall_impl; [by apply (Hbd st')|]. intros p. by apply bound_back, shift_back.
Qed.

(** The leases after an operation that only moves. *)
Lemma shut_moves e s s' :
  shut s -> rtc (move maxRunningJobs e) (mgr s) (mgr s') -> wf maxRunningJobs None (mgr s') -> issued s' = issued s -> waits s' = waits s ->
  shut s'.
Proof.
  intros Hsh Hm Hw Hi Hws. apply (shut_back s); try done; [by eapply moves_lz|].
  intros o Hne Hf. eapply moves_back; [exact Hm|by apply wf_weaken, sh_wf|done|done].
Qed.

Lemma shut_quiet s o : shut s -> possible s o -> quiet o = true -> 1 <= maxRunningJobs -> shut (step maxRunningJobs retentionMs runner s o).
Proof.
  intros Hsh Hp Hq Hmax. pose proof (jobs_step_wf maxRunningJobs retentionMs runner Hmax s o (sh_wf _ Hsh) Hp) as Hw.
  pose proof (manage_moves maxRunningJobs retentionMs runner None (mgr s) o Hq) as Hm.
  destruct o; try discriminate Hq; (apply (shut_moves None s); [done|exact Hm|exact Hw| |]; cbn; by rewrite app_nil_r).
Qed.

Lemma shut_settle s r o now :
  shut s -> r ∈ pending (mgr s) -> 1 <= maxRunningJobs -> shut (step maxRunningJobs retentionMs runner s (Settle r o now)).
Proof.
  intros Hsh Hp Hmax. pose proof (jobs_step_wf maxRunningJobs retentionMs runner Hmax s (Settle r o now) (sh_wf _ Hsh) Hp) as Hw.
  destruct (wf_pending _ _ _ (sh_wf _ Hsh) r Hp) as (j & Hr & [Hs|Hs]); [done|].
  destruct (settle_moves maxRunningJobs retentionMs runner (mgr s) r j o now Hr Hs) as (m1 & H1 & H2).
  apply (shut_back s); cbn in *; rewrite ?app_nil_r; rewrite ?H2 in *; try done; [by apply (moves_lz _ _ _ H1)|].
  intros o' Hne Hf. etrans; [eapply moves_back; [exact H1|by apply wf_weaken, sh_wf|done|done]|].
  intros i r' j' Hi Hr' Ho. exists j'. split_all; try done. cbn. intros [Hin _]%list_elem_of_In%filter_In. by apply list_elem_of_In.
Qed.

(** A lease changes its phase. *)
Lemma shut_phase s o st st' ws :
  shut s -> map_get (leases (ctl (mgr s))) o = Some st -> lease st' = lease st -> tracked (mgr s) o st' -> ws ⊆ waits s ->
  shut {| mgr := with_ctl (mgr s) (set_lease (ctl (mgr s)) o st'); issued := issued s; waits := ws |}.
Proof.
  intros [H1 H2 H3 H4 H5] Hst Hl Ht Hws. destruct (H2 _ _ Hst) as (Hne & Ho & Hi & _). split; cbn; try done.
  - by apply (wf_core _ _ (mgr s)).
  - intros o' st0 H0. destruct (decide (o' = o)) as [->|Hno].
    + rewrite map_get_set_eq in H0. injection H0 as <-. rewrite Hl. by do 3 (split; [done|]).
    + rewrite map_get_set_ne in H0 by done. destruct (H2 _ _ H0) as (? & ? & ? & ?). by do 3 (split; [done|]).
  - intros l w Hin. destruct (H5 l w (Hws _ Hin)) as [Hli Hbd]. split; [done|]. intros st0 H0 Hl0.
    destruct (decide (l_owner l = o)) as [Heq|Hno].
    + rewrite Heq, map_get_set_eq in H0. injection H0 as <-. apply (Hbd st); [by rewrite Heq|congruence].
    + rewrite map_get_set_ne in H0 by done. by apply (Hbd st0).
Qed.

(** *** The watched runs *)

Section watched.
Context (o : string) (Hne : o <> "").

Definition watching (m0 : manager) (acc : outcome thrown (list (string * nat)) * manager) : Prop :=
  back_to o m0 acc.2 /\ wf maxRunningJobs None acc.2 /\ lz acc.2 = lz m0 /\
  forall w, acc.1 = Ok w -> Forall (bound acc.2 o) w.

(** Moves keep what is watched. *)
Lemma watching_moves m0 w m m' (res : outcome thrown (list (string * nat))) :
  watching m0 (Ok w, m) -> rtc (move maxRunningJobs None) m m' -> map_get (leases (ctl m0)) o <> None ->
  (res = Ok w \/ exists e, res = Throw e) -> watching m0 (res, m').
Proof.
  intros (Hb & Hw & Hl & Hbd) Hm Hf Hres. cbn in *.
  assert (Hb' : back_to o m m') by (eapply moves_back; [done|done|done|congruence]).
  split; [by etrans|]. split; [by eapply moves_wf|]. split; [etrans; [apply (moves_lz _ _ _ Hm)|exact Hl]|].
  intros w' E. destruct Hres as [-> | [e ->]]; [|done]. injection E as <-.
  eapply Forall_impl; [by apply Hbd|]. intros p. by apply bound_back.
Qed.

Lemma cancel_backing_watching m0 ps now acc :
  map_get (leases (ctl m0)) o <> None -> Forall (fun p => forall r j, p.2 = Some (r, j) -> bound m0 o (p.1, r)) ps ->
  watching m0 acc -> watching m0 (foldl (cancel_backing maxRunningJobs retentionMs runner o now) acc ps).
Proof.
  intros Hf Hps. revert acc. induction Hps as [|[i g] ps Hp _ IH]; intros [[w|e] m] Hacc; [done|done| |]; cbn [foldl]; [|by apply IH].
  apply IH. cbn. pose proof (cancel_moves maxRunningJobs retentionMs runner None m i (Some o) now) as Hc.
  destruct (cancel _ _ _ _ _ _ _) as [[b|e] m']; cbn in Hc; [|by apply (watching_moves _ w m); eauto].
  pose proof (watching_moves m0 w m m' (Ok w) Hacc Hc Hf (or_introl eq_refl)) as (Hb & Hw & Hl & Hbd).
  split; [done|]. split; [done|]. split; [done|]. intros w' E. injection E as <-.
  assert (Forall (bound m' o) w) by by apply Hbd.
  destruct g as [[r j]|]; [|done]. cbn. case_decide; [|done]. apply Forall_app. split; [done|]. constructor; [|done].
  apply (bound_back m0); [done|]. by apply (Hp r j).
Qed.

Lemma captured_bound m i r j : get_job m i = Some (r, j) -> bound m o (i, r).
Proof.
  unfold get_job. intros E r' j' Hi Hr Ho. cbn in *. rewrite Hi in E. destruct (objs m !! r'); cbn in E; congruence.
Qed.

Lemma cancel_target_watching st m0 ts now acc :
  l_owner (lease st) = o -> map_get (leases (ctl m0)) o <> None ->
  watching m0 acc -> watching m0 (foldl (cancel_target maxRunningJobs retentionMs runner st now) acc ts).
Proof.
  intros Ho Hf. revert acc. induction ts as [|t ts IH]; intros [[w|e] m] Hacc; [done|done| |]; cbn [foldl]; [|by apply IH].
  apply IH. cbn. rewrite Ho. set (ps := (fun i => (i, get_job m i)) <$> _).
  assert (Hps : Forall (fun p => forall r j, p.2 = Some (r, j) -> bound m o (p.1, r)) ps).
  { apply Forall_forall. intros p Hp. apply list_elem_of_fmap in Hp as (i & -> & _). cbn. intros r j. apply captured_bound. }
  assert (Hfm : map_get (leases (ctl m)) o <> None) by (destruct Hacc as (_ & _ & Hl & _); cbn in *; congruence).
  assert (Hstart : watching m (Ok w, m)).
  { destruct Hacc as (_ & Hw & _ & Hbd). split; [done|]. split; [exact Hw|]. split; [done|exact Hbd]. }
  pose proof (cancelSubagent_moves maxRunningJobs retentionMs runner None m (t_subagent t) (Some o) now) as Hc.
  assert (Hjoin : forall acc', watching m acc' -> watching m0 acc').
  { intros acc' (Hb & Hw & Hl & Hbd). destruct Hacc as (Hb0 & _ & Hl0 & _). cbn in *.
    split; [by etrans|]. split; [done|]. split; [congruence|done]. }
  apply Hjoin. case_decide; [|by apply cancel_backing_watching].
  destruct (cancelSubagent _ _ _ _ _ _ _) as [[b|e] m']; cbn in Hc; [apply cancel_backing_watching; [done|done|]|];
    apply (watching_moves m w m m'); eauto.
Qed.
End watched.

Lemma shut_prove_start s l now :
  shut s -> l ∈ issued s -> shut (step maxRunningJobs retentionMs runner s (ProveStart l now)).
Proof.
  intros Hsh Hl. cbn. unfold cancelAndProve_start.
  assert (Hsame : shut {| mgr := mgr s; issued := issued s ++ []; waits := waits s ++ [] |}) by (rewrite !app_nil_r; by destruct s).
  destruct (map_get (leases (ctl (mgr s))) (l_owner l)) as [st|] eqn:Est; [|exact Hsame].
  destruct (decide (l_id (lease st) <> l_id l)) as [|Hid]; [exact Hsame|]. apply dec_stable in Hid.
  destruct (sh_lease _ Hsh _ _ Est) as (Hne & Ho & Hi & Ht). assert (lease st = l) as El by by apply (issued_same s).
  set (st' := with_phase st proving (proof st)). set (m1 := with_ctl (mgr s) (set_lease (ctl (mgr s)) (l_owner l) st')).
  assert (Hs1 : shut {| mgr := m1; issued := issued s; waits := waits s |}) by by apply (shut_phase s _ st).
  assert (Hf : map_get (leases (ctl m1)) (l_owner l) <> None) by (cbn; by rewrite map_get_set_eq).
  pose proof (cancel_target_moves maxRunningJobs retentionMs runner None st' now (Ok [], m1) (targets l)) as Hm.
  assert (Hwt : watching (l_owner l) m1 (foldl (cancel_target maxRunningJobs retentionMs runner st' now) (Ok [], m1) (targets l))).
  { apply cancel_target_watching; [done|done|done|]. split; [done|]. split; [apply (sh_wf _ Hs1)|]. split; [done|].
    intros w E. by injection E as <-. }
  destruct (foldl _ _ _) as [res m2]. cbn in Hm. destruct Hwt as (Hb & Hw & Hlz & Hbd). cbn in Hb, Hw, Hlz, Hbd.
  assert (Hs2 : shut {| mgr := m2; issued := issued s; waits := waits s |}) by by apply (shut_moves None _ _ Hs1).
  assert (Hgo : shut {| mgr := m2; issued := issued s ++ []; waits := waits s ++ match res with Ok w => [(l, w)] | Throw _ => [] end |}).
  { rewrite app_nil_r. destruct res as [w|e]; [|by rewrite app_nil_r]. destruct Hs2 as [H1 H2 H3 H4 H5]. split; try done.
    intros l' w' [Hin|Hin]%elem_of_app; [by apply H5|]. apply list_elem_of_singleton in Hin. simplify_eq. split; [done|].
    intros _ _ _. by apply Hbd. }
  destruct (l_phase st), (proof st), res; first [exact Hsame|exact Hgo].
Qed.

Lemma shut_prove_finish s k settled dl :
  shut s -> possible s (ProveFinish k settled dl) -> shut (step maxRunningJobs retentionMs runner s (ProveFinish k settled dl)).
Proof.
  intros Hsh (l & w & Hk & Hset). cbn. rewrite Hk.
  assert (Hsub : delete k (waits s) ⊆ waits s) by (apply sublist_subseteq, sublist_delete).
  assert (Hin : (l, w) ∈ waits s) by by eapply list_elem_of_lookup_2. destruct (sh_waits _ Hsh _ _ Hin) as [Hl Hbd].
  unfold cancelAndProve_finish.
  assert (Hsame : shut {| mgr := mgr s; issued := issued s; waits := delete k (waits s) |}).
  { destruct Hsh as [H1 H2 H3 H4 H5]. split; try done. intros l' w' Hin'. by apply H5, Hsub. }
  destruct (map_get (leases (ctl (mgr s))) (l_owner l)) as [st|] eqn:Est; [|exact Hsame].
  case_decide as Hid; [exact Hsame|]. cbn.
  assert (Hid' : l_id (lease st) = l_id l) by (destruct (decide (l_id (lease st) = l_id l)); tauto). clear Hid.
  destruct (sh_lease _ Hsh _ _ Est) as (Hne & Ho & Hi & Ht). assert (lease st = l) as El by by apply (issued_same s).
  apply (shut_phase s _ st); try done. intros i r j sid Hij Hr Hoj Hs Hsid Hp.
  destruct (Ht i r j sid Hij Hr Hoj Hs Hsid Hp) as (H1 & H2 & _). split; [done|]. split; [done|].
  intros p E Hc. cbn in E. injection E as <-. cbn in Hc. case_decide as Hun; [|by destruct dl].
  apply list_elem_of_fmap in H1 as (t & -> & Htt). rewrite El in Htt.
  apply fmap_nil_inv in Hun.
  assert (He : hasTerminalShutdownEvidence (mgr s) t (l_owner l) (backingJobIds st) settled = true).
  { destruct (hasTerminalShutdownEvidence _ t _ _ _) eqn:E; [done|].
    assert (Hf : t ∈ (@nil OwnerSubagentShutdownTarget)); [|by apply not_elem_of_nil in Hf].
    rewrite <- Hun. apply list_elem_of_In, filter_In. split; [by apply list_elem_of_In|]. by rewrite E. }
  unfold hasTerminalShutdownEvidence in He. destruct (map_get (records _) _); [|done]. apply andb_true_iff in He as [_ He].
  apply forallb_Forall in He. rewrite Forall_forall in He. specialize (He i H2). apply andb_true_iff in He as [He _].
  apply bool_decide_eq_true in He. rewrite Forall_forall in Hset. destruct (Hset i He) as (r0 & Hw & Hnp).
  specialize (Hbd st eq_refl El). rewrite Forall_forall in Hbd. specialize (Hbd _ Hw r j Hij Hr Hoj). cbn in Hbd. by subst r0.
Qed.

Lemma finish_lz m l o :
  lz (finishOwnerSubagentShutdown m l o) = lz m \/
  lz (finishOwnerSubagentShutdown m l o) = (map_delete (leases (ctl m)) (l_owner l), shutdownSeq (ctl m)).
Proof.
  unfold finishOwnerSubagentShutdown. destruct (map_get _ _) as [st|]; [|by left]. case_decide; [by left|]. right.
  destruct o; [destruct (proof st) as [p|]; [case_decide|]|]; done.
Qed.

(** Fewer leases, and no other jobs. *)
Lemma shut_drop s m' :
  shut s -> shift (mgr s) m' -> wf maxRunningJobs None m' -> shutdownSeq (ctl m') = shutdownSeq (ctl (mgr s)) ->
  (forall o st, map_get (leases (ctl m')) o = Some st -> map_get (leases (ctl (mgr s))) o = Some st) ->
  shut {| mgr := m'; issued := issued s; waits := waits s |}.
Proof.
  intros [H1 H2 H3 H4 H5] Hb Hw Hseq Hle. split; cbn; rewrite ?Hseq; try done.
  - intros o st Hst%Hle. destruct (H2 o st Hst) as (? & ? & ? & Ht). do 3 (split; [done|]).
    apply (tracked_back (mgr s)); [by apply shift_back|done].
  - intros l w Hin. destruct (H5 l w Hin) as [Hi Hbd]. split; [done|]. intros st Hst%Hle Hl.
    eapply Forall_impl; [by apply (Hbd st)|]. intros p. by apply bound_back, shift_back.
Qed.

Lemma shut_finish s l o : shut s -> shut (step maxRunningJobs retentionMs runner s (Finish l o)).
Proof.
  intros Hsh. cbn. rewrite !app_nil_r. pose proof (finish_shift (mgr s) l o) as Hb.
  assert (Hw : wf maxRunningJobs None (finishOwnerSubagentShutdown (mgr s) l o)).
  { destruct Hb as (? & ? & _). apply (wf_core _ _ (mgr s)); try done; [|apply (sh_wf _ Hsh)].
    unfold finishOwnerSubagentShutdown. destruct (map_get _ _) as [st|]; [|done]. case_decide; [done|].
    destruct o; [destruct (proof st) as [p|]; [case_decide|]|]; done. }
  destruct (finish_lz (mgr s) l o) as [E|E]; injection E as El Es; apply shut_drop; try done; rewrite ?El; [done|].
  intros o' st. destruct (decide (o' = l_owner l)) as [->|Hne]; [by rewrite map_get_delete_eq|by rewrite map_get_delete_ne].
Qed.

Section runs.
Context (Hmax : 1 <= maxRunningJobs).

Lemma shut_step s o : shut s -> possible s o -> shut (step maxRunningJobs retentionMs runner s o).
Proof.
  intros Hsh Hp. destruct (quiet o) eqn:Hq; [by apply shut_quiet|]. destruct o; try discriminate Hq.
  - by apply shut_settle.
  - by apply shut_begin.
  - by apply shut_prove_start.
  - by apply shut_prove_finish.
  - by apply shut_finish.
  - pose proof (jobs_step_wf maxRunningJobs retentionMs runner Hmax s DisposeFinish (sh_wf _ Hsh) Hp) as Hw.
    cbn in *. rewrite !app_nil_r. apply shut_drop; try done. split_all; auto.
Qed.

Lemma run_shut ops :
  possible_run maxRunningJobs retentionMs runner ops -> shut (run maxRunningJobs retentionMs runner ops).
Proof.
  intros H. apply (foldl_allowed (step maxRunningJobs retentionMs runner) possible shut); [apply shut_step|done|].
  split; cbn; try done.
  - apply (jobs_run_wf maxRunningJobs retentionMs runner Hmax [] I).
  - by intros l Hl%not_elem_of_nil.
  - constructor.
  - by intros l w Hl%not_elem_of_nil.
Qed.

End runs.
End shutdown.

(** ** A shutdown at work *)

Definition shutdown_lease : OwnerSubagentShutdownLease :=
  {| l_owner := "0-Main"; l_id := 1; targets := [{| t_subagent := "a"; t_job := Some "a"; source := record |}] |}.

Definition shutdown_ops : list op :=
  [Register (task_job "0-Main" "a") 1; RegisterRecord (sample_record "0-Main" "a" (Some "a") S_running); Begin "0-Main";
   Register (bg_job "1-B") 3; ProveStart shutdown_lease 4; Settle 0 (O_error "aborted") 5].

Definition shutdown_system (ops : list op) : system := run 2 1000 sample_runner ops.


(** While the shutdown runs, its owner starts no job. *)
Example fenced_owner_registers_nothing :
  (register 2 (mgr (shutdown_system shutdown_ops)) (task_job "0-Main" "c") 6).1 = Throw OwnerSubagentShutdownError.
Proof. vm_compute. reflexivity. Qed.

(** A run that has not ended by the deadline is unresolved. *)
Example deadline_is_not_confirmed :
  (fun p => option_map reason (proof p.2)) <$>
    leases (ctl (mgr (shutdown_system (take 5 shutdown_ops ++ [ProveFinish 0 [] true])))) = [Some deadline_exceeded].
Proof. vm_compute. reflexivity. Qed.
