(* ===== verification/JobQueue.v ===== *)
(** * The queue of resumes ([async/job-manager.ts])

    What [drainResumeQueue] does with every entry of the queue, in the order
    of their sequence numbers. *)

From stdpp Require Import sorting relations.
From S2P Require Import Prelude JsNumber JsValue JsText JobRegistry JobRuns.

Local Open Scope string_scope.
Local Open Scope list_scope.
Local Open Scope Z_scope.

Lemma StronglySorted_part {A} (R : A -> A -> Prop) l1 l2 : l1 `sublist_of` l2 -> StronglySorted R l2 -> StronglySorted R l1.
Proof.
  induction 1 as [|x l1 l2 Hs IH|x l1 l2 Hs IH]; intros H; [constructor| |]; inversion H; subst; [|by apply IH].
  constructor; [by apply IH|]. rewrite Forall_forall in *. intros y Hy. apply (H3 y). by eapply sublist_subseteq.
Qed.

Section queue.
Context (maxRunningJobs retentionMs : Z).
Context (runner : nat -> string -> option string -> option ResumeDescriptor -> run_request).
Context (now : Z).

Notation startResume := (startResume maxRunningJobs runner).
Notation drain_loop := (drain_loop maxRunningJobs runner).
Notation drainResumeQueue := (drainResumeQueue maxRunningJobs runner).

(** The answer to a resume is that a shutdown is in progress. *)
Definition shutdown_answer (a : outcome thrown resume_result) : bool :=
  match a with
  | Throw OwnerSubagentShutdownError => true
  | Throw _ => false
  | Ok res => bool_decide (r_reason res = Some "owner_shutdown_in_progress")
  end.

(** In this state, a shutdown keeps the entry in the queue. *)
Definition refuses (m : manager) (e : ResumeQueueEntry) : Prop :=
  exists r, map_get (records (ctl m)) (q_subagent e) = Some r /\ rec_status r = S_queued /\
    (isOwnerSubagentShutdownFenced (ctl m) (q_owner e) = true \/ shutdown_answer (startResume m r (message e) now).1 = true).

(** In this state, the entry is dropped since its subagent no longer waits, or
    its resume is tried, in a free slot and with another answer. *)
Definition serves (m : manager) (e : ResumeQueueEntry) : Prop :=
  match map_get (records (ctl m)) (q_subagent e) with
  | Some r =>
      rec_status r = S_queued ->
      free_slot maxRunningJobs m = true /\ isOwnerSubagentShutdownFenced (ctl m) (q_owner e) = false /\
      exists res, (startResume m r (message e) now).1 = Ok res /\ shutdown_answer (Ok res) = false
  | None => True
  end.

(** In some state on the way. *)
Definition on_the_way (m : manager) (P : manager -> ResumeQueueEntry -> Prop) (e : ResumeQueueEntry) : Prop :=
  exists m1, rtc (move maxRunningJobs None) m m1 /\ P m1 e.

Lemma on_the_way_back m m1 P e : rtc (move maxRunningJobs None) m m1 -> on_the_way m1 P e -> on_the_way m P e.
Proof. intros H (m2 & H2 & HP). exists m2. split; [by etrans|done]. Qed.

Lemma register_queue m o t : resumeQueue (ctl (register maxRunningJobs m o t).2) = resumeQueue (ctl m).
Proof.
  unfold register. destruct (disposed m); [done|]. destruct (_ && _); [done|]. destruct (decide (maxRunningJobs <= _)); [done|].
  by destruct (o_lifecycle o).
Qed.

Lemma startResume_queue m r msg : resumeQueue (ctl (startResume m r msg now).2) = resumeQueue (ctl m).
Proof.
  unfold JobRegistry.startResume. case_match; [done|].
  destruct (resolveResumeRunner _ _) as [f|]; [|done]. unfold call_runner. destruct (runner _ _ _ _) as [|e|o]; [done|done|].
  match goal with |- context [register _ ?m1 ?o now] =>
    pose proof (register_queue m1 o now) as Hq; destruct (register _ m1 o now) as [[i|e] m2] end; cbn in *; done.
Qed.

(** Each entry of [q] is served or kept, and an entry is kept only for a
    shutdown or for want of a slot. *)
Definition resolved (m : manager) (q : list ResumeQueueEntry) (m' : manager) (kept : list ResumeQueueEntry) : Prop :=
  kept `sublist_of` q /\
  exists gone, q ≡ₚ gone ++ kept /\ Forall (on_the_way m serves) gone /\
    (free_slot maxRunningJobs m' = true -> Forall (on_the_way m refuses) kept).

Lemma resolved_from m m1 q m' kept : rtc (move maxRunningJobs None) m m1 -> resolved m1 q m' kept -> resolved m q m' kept.
Proof.
  intros Hm (Hs & gone & Hp & Hg & Hk). split; [done|]. exists gone. split; [done|].
  split; [|intros Hf; specialize (Hk Hf)]; (eapply Forall_impl; [eassumption|]); intros x; by apply on_the_way_back.
Qed.

Lemma resolved_gone m q m' kept e : serves m e -> resolved m q m' kept -> resolved m (e :: q) m' kept.
Proof.
  intros He (Hs & gone & Hp & Hg & Hk). split; [by apply sublist_cons|]. exists (e :: gone). split; [by rewrite Hp|].
  split; [|done]. constructor; [by exists m|done].
Qed.

Lemma resolved_kept m q m' kept e : refuses m e -> resolved m q m' kept -> resolved m (e :: q) m' (e :: kept).
Proof.
  intros He (Hs & gone & Hp & Hg & Hk). split; [by apply sublist_skip|]. exists gone. split; [rewrite Hp; apply Permutation_middle|].
  split; [done|]. intros Hf. constructor; [by exists m|by apply Hk].
Qed.

Lemma resolved_nil m m' : resolved m [] m' [].
Proof. split; [done|]. by exists []. Qed.

Lemma resolved_full m q : free_slot maxRunningJobs m = false -> resolved m q m q.
Proof. intros Hf. split; [done|]. exists []. rewrite Hf. done. Qed.

(** The loop from an index on: what is behind it stays. *)
Lemma drain_loop_spec fuel m n m' :
  drain_loop fuel m n now = (Ok tt, m') -> (length (resumeQueue (ctl m)) < fuel + n)%nat ->
  exists kept, resolved m (drop n (resumeQueue (ctl m))) m' kept /\ resumeQueue (ctl m') = take n (resumeQueue (ctl m)) ++ kept.
Proof.
  revert m n. induction fuel as [|fuel IH]; intros m n.
  { intros [= <-] Hlen. exists []. rewrite drop_ge, take_ge, app_nil_r by lia. split; [apply resolved_nil|done]. }
  intros E Hlen. cbn [JobRegistry.drain_loop] in E. destruct (resumeQueue (ctl m) !! n) as [e|] eqn:Hn.
  2:{ injection E as <-. apply lookup_ge_None in Hn. exists []. rewrite drop_ge, take_ge, app_nil_r by lia. split; [apply resolved_nil|done]. }
  destruct (free_slot maxRunningJobs m) eqn:Hfree; cbn [negb] in E.
  2:{ injection E as <-. exists (drop n (resumeQueue (ctl m))). rewrite take_drop. split; [by apply resolved_full|done]. }
  rewrite (drop_S _ e n) by done. pose proof (lookup_lt_Some _ _ _ Hn) as Hlt.
  (* the entry is taken out, or stays *)
  assert (Hgone : forall m1, rtc (move maxRunningJobs None) m m1 -> resumeQueue (ctl m1) = resumeQueue (ctl m) -> serves m e ->
    drain_loop fuel (with_resume_queue m1 (delete n (resumeQueue (ctl m1)))) n now = (Ok tt, m') ->
    exists kept, resolved m (e :: drop (S n) (resumeQueue (ctl m))) m' kept /\ resumeQueue (ctl m') = take n (resumeQueue (ctl m)) ++ kept).
  { intros m1 Hm Hq Hs Hd.
    destruct (IH _ _ Hd) as (kept & Hr & Hr'); [cbn; rewrite Hq, length_delete by done; lia|].
    cbn in Hr, Hr'. rewrite Hq, delete_take_drop in Hr, Hr'. rewrite drop_app_length' in Hr by (rewrite length_take; lia).
    rewrite take_app_length' in Hr' by (rewrite length_take; lia). exists kept. split; [|done].
    apply resolved_gone; [done|]. eapply resolved_from; [|exact Hr]. etrans; [exact Hm|by apply frame_moves]. }
  assert (Hkept : forall m1, rtc (move maxRunningJobs None) m m1 -> resumeQueue (ctl m1) = resumeQueue (ctl m) -> refuses m e ->
    drain_loop fuel m1 (S n) now = (Ok tt, m') ->
    exists kept, resolved m (e :: drop (S n) (resumeQueue (ctl m))) m' kept /\ resumeQueue (ctl m') = take n (resumeQueue (ctl m)) ++ kept).
  { intros m1 Hm Hq Hs Hd. destruct (IH _ _ Hd) as (kept & Hr & Hr'); [rewrite Hq; lia|]. rewrite Hq in Hr, Hr'. exists (e :: kept).
    split; [by eapply resolved_kept, resolved_from|]. rewrite Hr', (take_S_r _ _ e) by done. by rewrite <- app_assoc. }
  clear IH. destruct (map_get (records (ctl m)) (q_subagent e)) as [r|] eqn:Hrec;
    [|apply (Hgone m); try done; unfold serves; by rewrite Hrec].
  case_decide as Hst; [apply (Hgone m); try done; unfold serves; rewrite Hrec; done|].
  destruct (isOwnerSubagentShutdownFenced (ctl m) (q_owner e)) eqn:Hfe.
  { apply (Hkept m); try done. exists r. by auto. }
  pose proof (startResume_moves maxRunningJobs runner None m r (message e) now) as Hm.
  pose proof (startResume_queue m r (message e)) as Hq.
  destruct (startResume m r (message e) now) as [a m1] eqn:Ea. cbn in Hm, Hq.
  destruct a as [res|[|msg]]; [case_decide as Hres| |done].
  - apply (Hkept m1); try done. exists r. rewrite Ea. split; [done|]. split; [done|]. right. by apply bool_decide_eq_true.
  - apply (Hgone m1); try done. unfold serves. rewrite Hrec, Ea. intros _. split; [done|]. split; [done|].
    exists res. split; [done|]. by apply bool_decide_eq_false.
  - apply (Hkept m1); try done. exists r. rewrite Ea. split; [done|]. split; [done|]. by right.
Qed.

(** When draining the queue of resumes returns, each entry has been
    served in a free slot, or dropped since its subagent no longer waits, or it
    is still queued, in the order of the sequence numbers; and with a slot
    still free, only the shutdown of an owner keeps an entry in the queue. *)
Theorem resume_queue_served m m' :
  drainResumeQueue m now = (Ok tt, m') ->
  exists gone,
    resumeQueue (ctl m) ≡ₚ gone ++ resumeQueue (ctl m') /\
    StronglySorted (fun a b => seq a <= seq b) (resumeQueue (ctl m')) /\
    Forall (on_the_way m serves) gone /\
    (free_slot maxRunningJobs m' = true -> Forall (on_the_way m refuses) (resumeQueue (ctl m'))).
Proof.
  unfold JobRegistry.drainResumeQueue. case_decide as Hq.
  { intros [= <-]. exists []. rewrite Hq. split; [done|]. split; [constructor|done]. }
  set (q := merge_sort _ _). set (m1 := with_resume_queue m q). intros E.
  destruct (drain_loop_spec _ m1 0 m' E) as (kept & Hr & Hk); [cbn; lia|]. cbn in Hr, Hk.
  assert (Hm : rtc (move maxRunningJobs None) m m1) by by apply frame_moves.
  apply (resolved_from m m1) in Hr; [|done]. destruct Hr as (Hs & gone & Hp & Hg & Hf). rewrite Hk. exists gone.
  split; [rewrite <- Hp; symmetry; apply merge_sort_Permutation|]. split; [|done].
  assert (Hsorted : StronglySorted (fun a b => seq a <= seq b) q).
  { apply Sorted_StronglySorted; [intros a b c; lia|]. apply Sorted_merge_sort. intros a b. lia. }
  by eapply StronglySorted_part.
Qed.
End queue.

(** ** Queued resumes at work *)

Definition two_resumes (f : nat) : list op :=
  [SetRunner f; RegisterRecord (sample_record "0-Main" "a" None S_completed);
   RegisterRecord (sample_record "1-B" "b" None S_completed); Register (bg_job "1-B") 1;
   Resume "a" None (Some "go") 2; Resume "b" None None 3].

(** The job that filled the only slot is cancelled; its run has not ended. *)
Definition two_waiting : manager := mgr (run 1 1000 sample_runner (two_resumes 0 ++ [Cancel "bg_1" None 4])).

Lemma resume_queue_served_witness :
  q_subagent <$> resumeQueue (ctl two_waiting) = ["a"; "b"] /\
  exists gone,
    resumeQueue (ctl two_waiting) ≡ₚ gone ++ resumeQueue (ctl (drainResumeQueue 1 sample_runner two_waiting 5).2) /\
    StronglySorted (fun a b => seq a <= seq b) (resumeQueue (ctl (drainResumeQueue 1 sample_runner two_waiting 5).2)) /\
    Forall (on_the_way 1 two_waiting (serves 1 sample_runner 5)) gone.
Proof.
  split; [vm_compute; reflexivity|].
  destruct (resume_queue_served 1 sample_runner 5 two_waiting (drainResumeQueue 1 sample_runner two_waiting 5).2) as (gone & H1 & H2 & H3 & _).
  - vm_compute. reflexivity.
  - exists gone. split; [exact H1|]. split; [exact H2|exact H3].
Defined.

Definition statuses (m : manager) : list (string * SubagentLifecycle) := (fun p => (p.1, rec_status p.2)) <$> records (ctl m).

(** The first starts when the slot is free, the second stays. *)
Example first_come_first_served :
  let m := mgr (run 1 1000 sample_runner (two_resumes 0 ++ [Settle 0 (O_completed "ok") 4])) in
  statuses m = [("a", S_running); ("b", S_queued)] /\ q_subagent <$> resumeQueue (ctl m) = ["b"].
Proof. vm_compute. split; reflexivity. Qed.

(** A fenced owner waits while others go on, and releasing its shutdown does
    not start its resumes: a slot is free, no run is left that would drain the
    queue when it ends, and the resume stays queued. *)
Example release_strands_resumes :
  let l := {| l_owner := "0-Main"; l_id := 1; targets := [{| t_subagent := "a"; t_job := None; source := record |}] |} in
  let m := mgr (run 1 1000 sample_runner
    (two_resumes 0 ++ [Begin "0-Main"; CancelSubagent "b" None 4; Settle 0 (O_completed "ok") 4; Finish l release])) in
  statuses m = [("a", S_queued); ("b", S_cancelled)] /\ q_subagent <$> resumeQueue (ctl m) = ["a"] /\
  leases (ctl m) = [] /\ pending m = [] /\ free_slot 1 m = true.
Proof. vm_compute. repeat split; reflexivity. Qed.

(** A queued resume whose runner fails leaves its record queued with no entry
    in the queue: the subagent answers [already_queued] from then on, or takes
    a message that nobody reads. *)
Example failed_resume_stays_queued :
  let ops := two_resumes 1 ++ [Settle 0 (O_completed "ok") 4] in
  let m := mgr (run 1 1000 sample_runner ops) in
  statuses m = [("a", S_queued); ("b", S_queued)] /\ resumeQueue (ctl m) = [] /\
  (resumeSubagent 1 sample_runner m "a" None None 5).1 = Ok (refused (Some S_queued) "already_queued") /\
  (resumeSubagent 1 sample_runner m "a" None (Some "again") 5).1 = Ok queued_result.
Proof. vm_compute. repeat split; reflexivity. Qed.

(** A runner that throws while the queue drains turns the job that has just
    completed into a failed one, delivered twice. *)
Example completed_job_fails :
  let m := mgr (run 1 1000 sample_runner (two_resumes 2 ++ [Settle 0 (O_completed "ok") 4])) in
  status <$> objs m = [failed] /\
  effects m = [E_register "bg_1"; E_enqueue "bg_1" "ok" (Some "1-B"); E_enqueue "bg_1" "no executor" (Some "1-B")].
Proof. vm_compute. split; reflexivity. Qed.

(** A run that settles after its job was evicted acts on the job that has its
    id by then: it runs that job's hooks for itself and evicts it while it
    runs, so the registry loses a running job. *)
Example late_settle_evicts_successor :
  let m := mgr (run 1 0 sample_runner
    [Register (task_job "0-Main" "a") 1; CancelAll None 2; Register (task_job "0-Main" "a") 3; Settle 0 (O_error "aborted") 4]) in
  status <$> objs m = [cancelled; running] /\ pending m = [1%nat] /\ jobs m = [] /\ free_slot 1 m = true /\
  E_hook 1 P_terminal 0 ∈ effects m.
Proof. vm_compute. repeat split; try reflexivity. set_solver. Qed.
