(* ===== verification/CodeUnits.v ===== *)
(** * Text as UTF-16 code units

    Components whose characters go beyond Latin-1 (terminal input, the hashline
    language) take a text as the list of its code units.  The string methods
    and the character classes of regular expressions they use, with their
    lemmas. *)

From S2P Require Import Prelude.
From Stdlib Require Import Ascii.

Local Open Scope list_scope.
Local Open Scope Z_scope.

Notation text := (list Z).

(** The code units of an ASCII string. *)
Fixpoint units (s : string) : text :=
  match s with
  | EmptyString => []
  | String c s => Z.of_N (N_of_ascii c) :: units s
  end.

(** ** Classes *)

Definition is_digit (c : Z) : bool := bool_decide (48 <= c <= 57).
Definition is_lower (c : Z) : bool := bool_decide (97 <= c <= 122).

(** [\s], which is also what [trim] removes. *)
Definition is_white (c : Z) : bool :=
  bool_decide (9 <= c <= 13) || bool_decide (8192 <= c <= 8202) ||
  existsb (Z.eqb c) [32; 160; 5760; 8232; 8233; 8239; 8287; 12288; 65279].

(** What [.] does not match. *)
Definition is_terminator (c : Z) : bool := existsb (Z.eqb c) [10; 13; 8232; 8233].

(** ** Prefixes and positions *)

Fixpoint starts_with (p s : text) : bool :=
  match p, s with
  | [], _ => true
  | a :: p, b :: s => bool_decide (a = b) && starts_with p s
  | _ :: _, [] => false
  end.

Definition ends_with (s p : text) : bool := starts_with (rev p) (rev s).

(** [indexOf] of a text that is not empty. *)
Fixpoint index_of (p s : text) : option nat :=
  if starts_with p s then Some O
  else match s with [] => None | _ :: s => S <$> index_of p s end.

(** The longest prefix in a class, and the rest. *)
Fixpoint span (class : Z -> bool) (s : text) : text * text :=
  match s with
  | c :: s' => if class c then let '(d, r) := span class s' in (c :: d, r) else ([], s)
  | [] => ([], [])
  end.

Definition digits (s : text) : text * text := span is_digit s.

Definition digits_value (d : text) : Z := foldl (fun n c => 10 * n + (c - 48)) 0 d.

(** The decimal numeral of [n >= 0]; a number has fewer decimal digits than
    bits, so the fuel is enough. *)
Fixpoint decimal_go (fuel : nat) (n : Z) (acc : text) : text :=
  match fuel with
  | O => acc
  | S fuel => let acc := (48 + n mod 10) :: acc in if decide (n < 10) then acc else decimal_go fuel (n / 10) acc
  end.

Definition decimal (n : Z) : text := decimal_go (Z.to_nat (Z.log2 n + 1)) n [].

(** ** White space *)

Definition trimStart (s : text) : text := (span is_white s).2.
Definition trimEnd (s : text) : text := rev (trimStart (rev s)).
Definition trim (s : text) : text := trimEnd (trimStart s).
Definition blank (s : text) : bool := forallb is_white s.

(** ** Lines *)

Definition LF : Z := 10.
Definition CR : Z := 13.

(** [split("\n")] *)
Fixpoint split_lf (s : text) : list text :=
  match s with
  | [] => [[]]
  | c :: s =>
      if decide (c = LF) then [] :: split_lf s
      else match split_lf s with l :: ls => (c :: l) :: ls | [] => [[c]] end
  end.

(** [join("\n")] *)
Fixpoint join_lf (ls : list text) : text :=
  match ls with
  | [] => []
  | [l] => l
  | l :: ls => l ++ LF :: join_lf ls
  end.

(** A line without the carriage return before its line feed. *)
Definition chop_cr (l : text) : text :=
  match rev l with c :: r => if decide (c = CR) then rev r else l | [] => l end.

Fixpoint chop_all_but_last (ls : list text) : list text :=
  match ls with
  | [] => []
  | [l] => [l]
  | l :: ls => chop_cr l :: chop_all_but_last ls
  end.

(** [split(/\r?\n/)] *)
Definition split_eol (s : text) : list text := chop_all_but_last (split_lf s).

(** ** Lemmas *)

Lemma begins_spec p s : starts_with p s = true <-> exists r, s = p ++ r.
Proof.
  revert s. induction p as [|a p IH]; intros [|b s]; cbn.
  - split; [by exists []|done].
  - split; [by exists (b :: s)|done].
  - split; [done|by intros [r E]].
  - rewrite andb_true_iff, bool_decide_eq_true, IH. split; [intros [-> [r ->]]; by exists r|].
    intros [r E]. injection E as -> ->. split; [done|by exists r].
Qed.

Lemma begins_app p s : starts_with p (p ++ s) = true.
Proof. apply begins_spec. by exists s. Qed.

Lemma index_of_Some m s k : index_of m s = Some k -> (k <= length s)%nat /\ starts_with m (drop k s) = true.
Proof.
  revert k. induction s as [|c s IH]; intros k; cbn [index_of]; destruct (starts_with m _) eqn:Es; try discriminate.
  - intros [= <-]. by split; [cbn; lia|].
  - intros [= <-]. split; [cbn; lia|done].
  - destruct (index_of m s) as [k'|]; [|discriminate]. intros [= <-]. destruct (IH k' eq_refl). split; [cbn; lia|done].
Qed.

Lemma index_of_least m s k : starts_with m (drop k s) = true -> (k <= length s)%nat -> exists j, index_of m s = Some j /\ (j <= k)%nat.
Proof.
  revert k. induction s as [|c s IH]; intros k Hs Hk; cbn [index_of].
  - rewrite drop_nil in Hs. rewrite Hs. exists O. split; [done|lia].
  - destruct (starts_with m (c :: s)) eqn:E; [exists O; split; [done|lia]|]. destruct k as [|k]; [cbn in Hs; congruence|].
    cbn in Hs, Hk. destruct (IH k Hs ltac:(lia)) as (j & -> & Hj). exists (S j). split; [done|lia].
Qed.

(** *** [span] *)

Lemma span_app class d r : Forall (fun c => class c = true) d -> (match r with c :: _ => class c = false | [] => True end) ->
  span class (d ++ r) = (d, r).
Proof.
  induction 1 as [|c d Hc _ IH]; intros Hr; [destruct r as [|c r]; [done|]; cbn; by rewrite Hr|]. cbn. by rewrite Hc, IH.
Qed.

Lemma span_whole class d : Forall (fun c => class c = true) d -> span class d = (d, []).
Proof. intros H. rewrite <- (app_nil_r d) at 1. by apply span_app. Qed.

Lemma span_spec class s : let '(d, r) := span class s in
  s = d ++ r /\ Forall (fun c => class c = true) d /\ match r with c :: _ => class c = false | [] => True end.
Proof.
  induction s as [|c s IH]; [done|]. cbn. destruct (class c) eqn:E; [|done]. destruct (span class s) as [d r].
  destruct IH as (-> & Hd & Hr). split; [done|]. split; [by constructor|done].
Qed.

(** *** Lines *)

Lemma split_lf_nonempty s : split_lf s <> [].
Proof. destruct s as [|c s]; [done|]. cbn. destruct (decide _); [done|]. by destruct (split_lf s). Qed.

Lemma join_split_lf s : join_lf (split_lf s) = s.
Proof.
  induction s as [|c s IH]; [done|]. cbn [split_lf]. pose proof (split_lf_nonempty s) as Hne.
  destruct (split_lf s) as [|l ls] eqn:E; [done|]. destruct (decide (c = LF)) as [->|].
  - change (join_lf ([] :: l :: ls)) with (LF :: join_lf (l :: ls)). by rewrite IH.
  - destruct ls; cbn in *; by rewrite <- IH.
Qed.

Lemma split_lf_line l : Forall (fun c => c <> LF) l -> split_lf l = [l].
Proof. induction 1 as [|c l Hc _ IH]; [done|]. cbn. rewrite decide_False by done. by rewrite IH. Qed.

Lemma split_lf_app l s : Forall (fun c => c <> LF) l -> split_lf (l ++ LF :: s) = l :: split_lf s.
Proof. induction 1 as [|c l Hc _ IH]; [done|]. cbn. rewrite decide_False by done. by rewrite IH. Qed.

Lemma split_join_lf ls : ls <> [] -> Forall (Forall (fun c => c <> LF)) ls -> split_lf (join_lf ls) = ls.
Proof.
  intros Hne H. induction H as [|l ls Hl _ IH]; [done|]. destruct ls as [|l' ls]; [by apply split_lf_line|].
  change (join_lf (l :: l' :: ls)) with (l ++ LF :: join_lf (l' :: ls)). by rewrite split_lf_app, IH.
Qed.

Lemma split_lf_lines s : Forall (Forall (fun c => c <> LF)) (split_lf s).
Proof.
  induction s as [|c s IH]; [by repeat constructor|]. cbn. destruct (decide (c = LF)); [by constructor|].
  destruct (split_lf s) as [|l ls]; [by repeat constructor|]. inversion_clear IH. by constructor; [constructor|].
Qed.

Lemma join_lf_cons l ls : ls <> [] -> join_lf (l :: ls) = l ++ LF :: join_lf ls.
Proof. by destruct ls. Qed.

Lemma join_lf_app ls1 ls2 : ls1 <> [] -> ls2 <> [] -> join_lf (ls1 ++ ls2) = join_lf ls1 ++ LF :: join_lf ls2.
Proof.
  intros H1 H2. induction ls1 as [|l ls1 IH]; [done|]. destruct ls1 as [|l' ls1]; [exact (join_lf_cons l ls2 H2)|].
  change ((l :: l' :: ls1) ++ ls2) with (l :: ((l' :: ls1) ++ ls2)). rewrite join_lf_cons by done.
  rewrite (join_lf_cons l (l' :: ls1)), IH by done. by rewrite <- app_assoc.
Qed.

Lemma chop_all_app ls1 ls2 : ls2 <> [] -> chop_all_but_last (ls1 ++ ls2) = (chop_cr <$> ls1) ++ chop_all_but_last ls2.
Proof.
  intros H. induction ls1 as [|l ls1 IH]; [done|]. cbn [app fmap list_fmap]. rewrite <- IH. by destruct ls1, ls2.
Qed.

(** A line that no line break ends inside, nor joins. *)
Definition line_ok (l : text) : Prop := Forall (fun c => c <> LF) l /\ chop_cr l = l.

#[export] Instance line_ok_dec l : Decision (line_ok l).
Proof. unfold line_ok. apply _. Defined.

Lemma chop_ok ls : Forall line_ok ls -> chop_cr <$> ls = ls.
Proof. induction 1 as [|l ls [_ Hl] _ IH]; [done|]. cbn. by rewrite Hl, IH. Qed.

Lemma chop_all_ok ls : Forall line_ok ls -> chop_all_but_last ls = ls.
Proof.
  induction 1 as [|l ls [_ Hl] _ IH]; [done|]. cbn. destruct ls; [done|]. by rewrite Hl, IH.
Qed.

Lemma lines_no_lf ls : Forall line_ok ls -> Forall (Forall (fun c => c <> LF)) ls.
Proof. intros H. eapply Forall_impl; [exact H|]. by intros l [Hl _]. Qed.

Lemma split_eol_join ls : ls <> [] -> Forall line_ok ls -> split_eol (join_lf ls) = ls.
Proof. intros Hne H. unfold split_eol. rewrite split_join_lf by (done || by apply lines_no_lf). by apply chop_all_ok. Qed.

Lemma chop_cr_snoc l c : c <> CR -> chop_cr (l ++ [c]) = l ++ [c].
Proof. intros Hc. unfold chop_cr. rewrite rev_app_distr. cbn. by rewrite decide_False. Qed.

(** A line without white space. *)
Lemma line_dark l : Forall (fun c => is_white c = false) l -> line_ok l.
Proof.
  intros H. assert (Hlf : Forall (fun c => c <> LF /\ c <> CR) l) by (eapply Forall_impl; [exact H|]; intros c Hc; split; by intros ->).
  split; [eapply Forall_impl; [exact Hlf|]; by intros c []|]. destruct l as [|x l] using rev_ind; [done|].
  apply chop_cr_snoc. by apply Forall_app in Hlf as [_ [[_ Hx] _]%Forall_cons].
Qed.

Lemma ends_with_snoc s c : ends_with (s ++ [c]) [c] = true.
Proof. unfold ends_with. rewrite rev_app_distr. cbn. by rewrite bool_decide_eq_true_2. Qed.

Lemma join_lf_snoc ls : ls <> [] -> join_lf (ls ++ [[]]) = join_lf ls ++ [LF].
Proof. intros H. by rewrite join_lf_app. Qed.

Lemma join_lf_concat lss : Forall (fun ls => ls <> []) lss -> join_lf (join_lf <$> lss) = join_lf (concat lss).
Proof.
  induction 1 as [|ls lss Hl H IH]; [done|]. destruct lss as [|ls' lss]; [cbn; by rewrite app_nil_r|].
  transitivity (join_lf ls ++ LF :: join_lf (join_lf <$> ls' :: lss)); [done|].
  rewrite IH. cbn [concat]. rewrite <- join_lf_app; [done|done|]. inversion_clear H. by destruct ls'.
Qed.

(** *** Numerals *)

Lemma decimal_go_digits fuel n acc :
  0 <= n -> Forall (fun c => is_digit c = true) acc -> Forall (fun c => is_digit c = true) (decimal_go fuel n acc).
Proof.
  revert n acc. induction fuel as [|fuel IH]; intros n acc Hn Ha; [done|]. cbn [decimal_go].
  assert (Hd : is_digit (48 + n mod 10) = true) by (apply bool_decide_eq_true; pose proof (Z.mod_pos_bound n 10); lia).
  destruct (decide (n < 10)); [by constructor|]. apply IH; [by apply Z.div_pos|by constructor].
Qed.

Lemma decimal_digits n : 0 <= n -> Forall (fun c => is_digit c = true) (decimal n).
Proof. intros Hn. by apply decimal_go_digits. Qed.

Lemma digits_value_cons c d v : foldl (fun n c => 10 * n + (c - 48)) v (c :: d) = foldl (fun n c => 10 * n + (c - 48)) (10 * v + (c - 48)) d.
Proof. done. Qed.

Lemma decimal_go_value fuel n acc :
  0 <= n < 10 ^ Z.of_nat fuel ->
  foldl (fun n c => 10 * n + (c - 48)) 0 (decimal_go fuel n acc) = foldl (fun n c => 10 * n + (c - 48)) n acc.
Proof.
  revert n acc. induction fuel as [|fuel IH]; intros n acc Hn; [change (10 ^ Z.of_nat 0) with 1 in Hn; by replace n with 0 by lia|].
  rewrite Nat2Z.inj_succ, Z.pow_succ_r in Hn by lia. pose proof (Z.div_mod n 10). pose proof (Z.mod_pos_bound n 10). cbn [decimal_go].
  destruct (decide (n < 10)).
  - rewrite digits_value_cons. f_equal. rewrite Z.mod_small by lia. lia.
  - rewrite IH by (split; [apply Z.div_pos; lia|apply Z.div_lt_upper_bound; lia]). rewrite digits_value_cons. f_equal. lia.
Qed.

Lemma decimal_value n : 0 <= n -> digits_value (decimal n) = n.
Proof.
  intros Hn. unfold digits_value, decimal. rewrite decimal_go_value; [done|].
  pose proof (Z.log2_nonneg n). rewrite Z2Nat.id by lia. split; [done|].
  apply Z.lt_le_trans with (2 ^ (Z.log2 n + 1)); [|apply Z.pow_le_mono_l; lia].
  destruct (decide (n = 0)) as [->|]; [done|]. apply Z.log2_spec. lia.
Qed.

Lemma decimal_go_head fuel n acc : 1 <= n -> exists c d, decimal_go (S fuel) n acc = c :: d /\ (n < 10 ^ Z.of_nat (S fuel) -> 49 <= c <= 57).
Proof.
  revert n acc. induction fuel as [|fuel IH]; intros n acc Hn; pose proof (Z.mod_pos_bound n 10).
  - exists (48 + n mod 10), acc. split; [cbn; by destruct (decide _)|]. change (10 ^ Z.of_nat 1) with 10. intros H10. rewrite Z.mod_small by lia. lia.
  - remember (S fuel) as f eqn:Ef. cbn [decimal_go]. destruct (decide (n < 10)).
    + exists (48 + n mod 10), acc. split; [done|]. intros _. rewrite Z.mod_small by lia. lia.
    + pose proof (Z.div_le_lower_bound n 10 1). subst f. destruct (IH (n / 10) ((48 + n mod 10) :: acc)) as (c & d & E & Hc); [lia|].
      exists c, d. split; [done|]. intros Hb. apply Hc. rewrite (Nat2Z.inj_succ (S fuel)), Z.pow_succ_r in Hb by lia.
      apply Z.div_lt_upper_bound; lia.
Qed.

Lemma decimal_head n : 1 <= n -> exists c d, decimal n = c :: d /\ 49 <= c <= 57.
Proof.
  intros Hn. unfold decimal. pose proof (Z.log2_nonneg n). replace (Z.to_nat (Z.log2 n + 1)) with (S (Z.to_nat (Z.log2 n))) by lia.
  destruct (decimal_go_head (Z.to_nat (Z.log2 n)) n [] Hn) as (c & d & E & Hc). exists c, d. split; [done|]. apply Hc.
  rewrite Nat2Z.inj_succ, Z2Nat.id by lia. apply Z.lt_le_trans with (2 ^ (Z.log2 n + 1)); [apply Z.log2_spec; lia|].
  apply Z.pow_le_mono_l. lia.
Qed.

Lemma last_app_nonempty {A} (l1 l2 : list A) d : l2 <> [] -> List.last (l1 ++ l2) d = List.last l2 d.
Proof. intros H. induction l1 as [|x l1 IH]; [done|]. cbn. rewrite IH. by destruct l1, l2. Qed.

(** Text that follows continues the last line. *)
Lemma split_lf_more s x : split_lf (s ++ x) = removelast (split_lf s) ++ split_lf (List.last (split_lf s) [] ++ x).
Proof.
  induction s as [|c s IH]; [done|]. cbn [app split_lf]. pose proof (split_lf_nonempty s) as Hne. rewrite IH.
  destruct (split_lf s) as [|l ls] eqn:E; [done|]. destruct (decide (c = LF)) as [->|Hc]; [done|].
  destruct ls as [|l' ls]; [|done]. cbn. by rewrite decide_False.
Qed.
