(* ===== verification/StdinBuffer.v ===== *)
(** * Terminal input ([tui/src/stdin-buffer.ts])

    The buffer between raw terminal input and the key parser: it cuts input
    that arrives in arbitrary pieces into key sequences and pastes.  Text is a
    list of UTF-16 code units, bytes are a list of integers.  The UTF-8
    decoder of the platform ([StringDecoder]) is a parameter.  A timer that
    fires is an operation of its own ([timer_fires]). *)

From S2P Require Import Prelude CodeUnits.

Local Open Scope list_scope.
Local Open Scope Z_scope.

Definition ESC : Z := 27.
Definition BRACKETED_PASTE_START : text := [ESC; 91; 50; 48; 48; 126].
Definition BRACKETED_PASTE_END : text := [ESC; 91; 50; 48; 49; 126].
Definition SGR_QUARANTINE_MAX_BYTES : Z := 256.

(** ** Text *)

Definition isHighSurrogate (c : Z) : bool := bool_decide (55296 <= c <= 56319).
Definition isLowSurrogate (c : Z) : bool := bool_decide (56320 <= c <= 57343).

Definition codePointAt0 (s : text) : option Z :=
  match s with
  | [] => None
  | a :: b :: _ =>
      if isHighSurrogate a && isLowSurrogate b then Some ((a - 55296) * 1024 + (b - 56320) + 65536) else Some a
  | [a] => Some a
  end.

Definition singleCodePoint (s : text) : option Z :=
  match codePointAt0 s with
  | None => None
  | Some c => if decide (Z.of_nat (length s) = if decide (65535 < c) then 2 else 1) then Some c else None
  end.

(** ** Bytes *)

Definition isUtf8LeadByte (b : Z) : bool := bool_decide (194 <= b <= 244).
Definition is_continuation (b : Z) : bool := bool_decide (128 <= b <= 191).

(** The trailing continuation bytes, counted from the end. *)
Fixpoint trailing (r : list Z) (n : Z) : Z * list Z :=
  match r with
  | b :: r' => if is_continuation b then trailing r' (n + 1) else (n, r)
  | [] => (n, [])
  end.

Definition expected_length (lead : Z) : Z :=
  if bool_decide (194 <= lead <= 223) then 2
  else if bool_decide (224 <= lead <= 239) then 3
  else if bool_decide (240 <= lead <= 244) then 4 else 0.

Definition endsWithIncompleteUtf8Sequence (data : list Z) : bool :=
  match data with
  | [] => false
  | _ =>
      let '(n, r) := trailing (rev data) 0 in
      match r with
      | [] => bool_decide (0 < n)
      | lead :: _ => bool_decide (0 < expected_length lead) && bool_decide (n + 1 < expected_length lead)
      end
  end.

Definition legacyMetaSequence (b : Z) : text := [ESC; b - 128].

(** ** Sequences *)

Inductive completeness := complete | incomplete | not_escape.

#[export] Instance completeness_eq_dec : EqDecision completeness.
Proof. solve_decision. Defined.

(** [ESC [ <], three numbers separated by semicolons, and [M] or [m]. *)
Definition isSgrMouseSequence (s : text) : bool :=
  starts_with [ESC; 91; 60] s &&
  let '(a, r) := digits (drop 3 s) in
  match r with
  | 59 :: r =>
      let '(b, r) := digits r in
      match r with
      | 59 :: r =>
          let '(c, r) := digits r in
          bool_decide (a <> [] /\ b <> [] /\ c <> []) && bool_decide (r = [77] \/ r = [109])
      | _ => false
      end
  | _ => false
  end.

Definition isSgrMousePrefix (s : text) : bool := starts_with [ESC; 91; 60] s.

Definition isCompleteCsiSequence (data : text) : completeness :=
  if negb (starts_with [ESC; 91] data) then complete
  else if decide (length data < 3)%nat then incomplete
  else
    let payload := drop 2 data in
    let lastChar := List.last payload 0 in
    if bool_decide (64 <= lastChar <= 126) then
      if starts_with [60] payload then if bool_decide (lastChar = 77 \/ lastChar = 109) then complete else incomplete
      else complete
    else incomplete.

Definition isCompleteOscSequence (data : text) : completeness :=
  if negb (starts_with [ESC; 93] data) then complete
  else if ends_with data [ESC; 92] || ends_with data [7] then complete else incomplete.

(** DCS and APC sequences differ in their second unit. *)
Definition isCompleteStringSequence (second : Z) (data : text) : completeness :=
  if negb (starts_with [ESC; second] data) then complete
  else if ends_with data [ESC; 92] then complete else incomplete.

Definition isCompleteDcsSequence := isCompleteStringSequence 80.
Definition isCompleteApcSequence := isCompleteStringSequence 95.

Definition isCompleteSequence (data : text) : completeness :=
  if negb (starts_with [ESC] data) then not_escape
  else
    match drop 1 data with
    | [] => incomplete
    | afterEsc =>
        if starts_with [91] afterEsc then
          if starts_with [91; 77] afterEsc then if decide (6 <= length data)%nat then complete else incomplete
          else isCompleteCsiSequence data
        else if starts_with [93] afterEsc then isCompleteOscSequence data
        else if starts_with [80] afterEsc then isCompleteDcsSequence data
        else if starts_with [95] afterEsc then isCompleteApcSequence data
        else if starts_with [79] afterEsc then if decide (2 <= length afterEsc)%nat then complete else incomplete
        else match afterEsc with
             | [c] => if isHighSurrogate c then incomplete else complete
             | _ => complete
             end
    end.

(** A key report without modifiers: digits, then up to two fields after
    colons, the second of them not empty, then [u]. *)
Definition parseUnmodifiedKittyPrintableCodepoint (s : text) : option Z :=
  if negb (starts_with [ESC; 91] s) then None
  else
    let '(d, r) := digits (drop 2 s) in
    let matched :=
      bool_decide (d <> []) &&
      match r with
      | [117] => true
      | 58 :: r =>
          let '(_, r) := digits r in
          match r with
          | [117] => true
          | 58 :: r => let '(e, r) := digits r in bool_decide (e <> []) && bool_decide (r = [117])
          | _ => false
          end
      | _ => false
      end in
    if matched then let c := digits_value d in if decide (32 <= c) then Some c else None else None.

(** The end of the escape sequence a text begins with: the first [n] whose
    first [n] units are not incomplete. *)
Fixpoint seq_end (fuel n : nat) (s : text) : option nat :=
  match fuel with
  | O => None
  | S fuel =>
      if decide (length s < n)%nat then None
      else if decide (isCompleteSequence (take n s) = incomplete) then seq_end fuel (S n) s else Some n
  end.

Fixpoint extract (fuel : nat) (s : text) : list text * text :=
  match fuel with
  | O => ([], s)
  | S fuel =>
      let more n := let '(q, r) := extract fuel (drop n s) in (take n s :: q, r) in
      match s with
      | [] => ([], [])
      | a :: rest =>
          if decide (a = ESC) then
            match rest with
            | b :: c :: _ => if isHighSurrogate b && negb (isLowSurrogate c) then more 2%nat
                             else match seq_end (length s) 1 s with Some n => more n | None => ([], s) end
            | _ => match seq_end (length s) 1 s with Some n => more n | None => ([], s) end
            end
          else if isHighSurrogate a then
            match rest with
            | [] => ([], s)
            | b :: _ => if isLowSurrogate b then more 2%nat else more 1%nat
            end
          else more 1%nat
      end
  end.

Definition extractCompleteSequences (s : text) : list text * text := extract (S (length s)) s.

(** ** The buffer *)

Inductive timer := T_meta | T_flush | T_quarantine.
Inductive event := E_data (s : text) | E_paste (s : text).

#[export] Instance timer_eq_dec : EqDecision timer.
Proof. solve_decision. Defined.
#[export] Instance event_eq_dec : EqDecision event.
Proof. solve_decision. Defined.

Record quarantine := { q_active : bool; q_bytes : Z; q_semicolons : Z; q_hasDigit : bool }.
Definition no_quarantine : quarantine := {| q_active := false; q_bytes := 0; q_semicolons := 0; q_hasDigit := false |}.

Section stdin.
Context {D : Type} (new_decoder : D) (decoder_write : D -> list Z -> text * D).

Record stdin := {
  buffer : text;
  handle : option nat;
  timers : list (nat * timer);
  next_timer : nat;
  pasteMode : bool;
  pasteBuffer : text;
  pendingKitty : option Z;
  decoder : D;
  decoderHasPendingUtf8 : bool;
  pendingSingleUtf8LeadByte : option Z;
  sgr : quarantine;
  events : list event
}.

Definition new_stdin : stdin :=
  {| buffer := []; handle := None; timers := []; next_timer := 0; pasteMode := false; pasteBuffer := []; pendingKitty := None;
     decoder := new_decoder; decoderHasPendingUtf8 := false; pendingSingleUtf8LeadByte := None; sgr := no_quarantine; events := [] |}.

Definition with_text (s : stdin) b pm pb k es : stdin :=
  {| buffer := b; handle := handle s; timers := timers s; next_timer := next_timer s; pasteMode := pm; pasteBuffer := pb;
     pendingKitty := k; decoder := decoder s; decoderHasPendingUtf8 := decoderHasPendingUtf8 s;
     pendingSingleUtf8LeadByte := pendingSingleUtf8LeadByte s; sgr := sgr s; events := events s ++ es |}.

Definition with_timers (s : stdin) h ts n : stdin :=
  {| buffer := buffer s; handle := h; timers := ts; next_timer := n; pasteMode := pasteMode s; pasteBuffer := pasteBuffer s;
     pendingKitty := pendingKitty s; decoder := decoder s; decoderHasPendingUtf8 := decoderHasPendingUtf8 s;
     pendingSingleUtf8LeadByte := pendingSingleUtf8LeadByte s; sgr := sgr s; events := events s |}.

Definition with_utf8 (s : stdin) d p l : stdin :=
  {| buffer := buffer s; handle := handle s; timers := timers s; next_timer := next_timer s; pasteMode := pasteMode s;
     pasteBuffer := pasteBuffer s; pendingKitty := pendingKitty s; decoder := d; decoderHasPendingUtf8 := p;
     pendingSingleUtf8LeadByte := l; sgr := sgr s; events := events s |}.

Definition with_sgr (s : stdin) q : stdin :=
  {| buffer := buffer s; handle := handle s; timers := timers s; next_timer := next_timer s; pasteMode := pasteMode s;
     pasteBuffer := pasteBuffer s; pendingKitty := pendingKitty s; decoder := decoder s;
     decoderHasPendingUtf8 := decoderHasPendingUtf8 s; pendingSingleUtf8LeadByte := pendingSingleUtf8LeadByte s; sgr := q;
     events := events s |}.

Definition with_buffer (s : stdin) b : stdin := with_text s b (pasteMode s) (pasteBuffer s) (pendingKitty s) [].

(** [clearTimeout] of the current timer. *)
Definition clear_timer (s : stdin) : stdin :=
  match handle s with
  | Some h => with_timers s None (List.filter (fun p => negb (bool_decide (p.1 = h))) (timers s)) (next_timer s)
  | None => s
  end.

Definition set_timer (s : stdin) (k : timer) : stdin :=
  with_timers s (Some (next_timer s)) (timers s ++ [(next_timer s, k)]) (S (next_timer s)).

Definition emitDataSequence (s : stdin) (sequence : text) : stdin :=
  match singleCodePoint sequence with
  | Some c =>
      if decide (pendingKitty s = Some c) then with_text s (buffer s) (pasteMode s) (pasteBuffer s) None []
      else with_text s (buffer s) (pasteMode s) (pasteBuffer s) (parseUnmodifiedKittyPrintableCodepoint sequence) [E_data sequence]
  | None => with_text s (buffer s) (pasteMode s) (pasteBuffer s) (parseUnmodifiedKittyPrintableCodepoint sequence) [E_data sequence]
  end.

Definition emit_all (s : stdin) (l : list text) : stdin := foldl emitDataSequence s l.

Definition consumePendingSingleUtf8LeadAsMeta (s : stdin) : option text * stdin :=
  match pendingSingleUtf8LeadByte s with
  | None => (None, s)
  | Some b => (Some (legacyMetaSequence b), with_utf8 s (decoder s) false None)
  end.

Definition emit_pending_meta (s : stdin) : stdin :=
  match consumePendingSingleUtf8LeadAsMeta s with
  | (Some m, s) => emitDataSequence s m
  | (None, s) => s
  end.

Definition endSgrQuarantine (s : stdin) : stdin := with_sgr (clear_timer s) no_quarantine.

Definition is_final (c : Z) : bool := bool_decide (c = 77 \/ c = 109).

(** The text after the rest of a report that is too long. *)
Fixpoint resume (data : text) : text :=
  match data with
  | c :: rest => if is_digit c || bool_decide (c = 59) then resume rest else if is_final c then rest else data
  | [] => []
  end.

(** What is left of the text after the quarantined report. *)
Fixpoint consumeSgrQuarantine (s : stdin) (data : text) : text * stdin :=
  match data with
  | [] => ([], s)
  | c :: rest =>
      let q := sgr s in
      if decide (SGR_QUARANTINE_MAX_BYTES <= q_bytes q) then
        (resume data, endSgrQuarantine s)
      else if is_digit c then
        consumeSgrQuarantine (with_sgr s {| q_active := q_active q; q_bytes := q_bytes q + 1; q_semicolons := q_semicolons q; q_hasDigit := true |}) rest
      else if bool_decide (c = 59) && q_hasDigit q && bool_decide (q_semicolons q < 2) then
        consumeSgrQuarantine (with_sgr s {| q_active := q_active q; q_bytes := q_bytes q + 1; q_semicolons := q_semicolons q + 1; q_hasDigit := false |}) rest
      else if is_final c && bool_decide (q_semicolons q = 2) && q_hasDigit q then (rest, endSgrQuarantine s)
      else (data, endSgrQuarantine s)
  end.

(** The start of [process]: the timer stops, unless it guards a quarantine. *)
Definition stop_timer (s : stdin) : stdin := if q_active (sgr s) then s else clear_timer s.

(** The rest of a paste, and what follows its end. *)
Definition end_paste (s : stdin) : option text * stdin :=
  match index_of BRACKETED_PASTE_END (pasteBuffer s) with
  | None => (None, s)
  | Some n =>
      (Some (drop (n + length BRACKETED_PASTE_END) (pasteBuffer s)),
       with_text s (buffer s) false [] None [E_paste (take n (pasteBuffer s))])
  end.

(** [process] from the place where the text joins the buffer; [after] is what
    happens once a paste is open. *)
Definition join_text (after : stdin -> stdin) (s : stdin) (str : text) : stdin :=
  let s := with_buffer s (buffer s ++ str) in
  if pasteMode s then after (with_text s [] true (pasteBuffer s ++ buffer s) (pendingKitty s) [])
  else
    match index_of BRACKETED_PASTE_START (buffer s) with
    | Some n =>
        let s' := match n with
                  | O => s
                  | _ => let '(sequences, remainder) := extractCompleteSequences (take n (buffer s)) in
                         let s := emit_all s sequences in
                         match remainder with [] => s | _ => emitDataSequence s remainder end
                  end in
        after (with_text s' [] true (drop (n + length BRACKETED_PASTE_START) (buffer s)) None [])
    | None =>
        let '(sequences, remainder) := extractCompleteSequences (buffer s) in
        let s := with_buffer s remainder in
        let s := emit_all s (List.filter (fun q => negb (isSgrMousePrefix q && negb (isSgrMouseSequence q))) sequences) in
        match remainder with [] => s | _ => set_timer s T_flush end
    end.

(** [process] once bytes are decoded. *)
Definition process_text (after : stdin -> stdin) (decodedFromBuffer : bool) (s : stdin) (str : text) : stdin :=
  match str, buffer s with
  | [], [] => if decodedFromBuffer then s else emitDataSequence s []
  | _, _ =>
      if q_active (sgr s) then
        let '(str, s) := consumeSgrQuarantine s str in
        match str with [] => s | _ => join_text after s str end
      else join_text after s str
  end.

(** [process] of a text; what follows a paste is processed in turn. *)
Fixpoint feed (fuel : nat) (decodedFromBuffer : bool) (s : stdin) (str : text) : stdin :=
  match fuel with
  | O => s
  | S fuel =>
      process_text (fun s =>
        match end_paste s with
        | (Some ((_ :: _) as remaining), s) => feed fuel false (emit_pending_meta (stop_timer s)) remaining
        | (_, s) => s
        end) decodedFromBuffer s str
  end.

Definition feed_fuel (s : stdin) (str : text) : nat := S (length (buffer s) + length (pasteBuffer s) + length str).

Definition process_string (s : stdin) (data : text) : stdin :=
  let s := emit_pending_meta (stop_timer s) in feed (feed_fuel s data) false s data.

(** [process] of bytes. *)
Definition process_bytes (s : stdin) (data : list Z) : stdin :=
  let s := stop_timer s in
  let hadPendingUtf8 := decoderHasPendingUtf8 s || match pendingSingleUtf8LeadByte s with Some _ => true | None => false end in
  let '(bytes, s) :=
    match pendingSingleUtf8LeadByte s with
    | None => (data, s)
    | Some lead =>
        if match data with b :: _ => is_continuation b | [] => false end
        then (lead :: data, with_utf8 s (decoder s) (decoderHasPendingUtf8 s) None)
        else (data, emit_pending_meta s)
    end in
  match (if decoderHasPendingUtf8 s then None else match bytes with [b] => if decide (127 < b) then Some b else None | _ => None end) with
  | Some b =>
      if isUtf8LeadByte b then set_timer (with_utf8 s (decoder s) true (Some b)) T_meta
      else let str := legacyMetaSequence b in feed (feed_fuel s str) false s str
  | None =>
      let '(str, d) := decoder_write (decoder s) bytes in
      let pending := endsWithIncompleteUtf8Sequence bytes &&
                     negb (hadPendingUtf8 && bool_decide (str <> []) && forallb is_continuation bytes) in
      let s := with_utf8 s d pending (pendingSingleUtf8LeadByte s) in
      feed (feed_fuel s str) true s str
  end.

(** The longest prefix of a report a quarantine may begin with: its
    semicolons, whether a digit follows the last of them, and the rest. *)
Fixpoint report_prefix (suffix : text) (semicolons : Z) (hasDigit : bool) : Z * bool * text :=
  match suffix with
  | [] => (semicolons, hasDigit, [])
  | c :: rest =>
      if is_digit c then report_prefix rest semicolons true
      else if bool_decide (c = 59) && hasDigit && bool_decide (semicolons < 2) then report_prefix rest (semicolons + 1) false
      else (semicolons, hasDigit, suffix)
  end.

Definition beginSgrQuarantine (s : stdin) : stdin :=
  let suffix := drop 3 (buffer s) in
  let '(semicolons, hasDigit, remainder) := report_prefix suffix 0 false in
  let s := with_text s [] (pasteMode s) (pasteBuffer s) None [] in
  match remainder with
  | _ :: _ => process_string s remainder
  | [] =>
      set_timer (with_sgr s {| q_active := true; q_bytes := Z.of_nat (length suffix); q_semicolons := semicolons;
                               q_hasDigit := hasDigit |}) T_quarantine
  end.

Definition flush (s : stdin) : list text * stdin :=
  let s := clear_timer s in
  let s := if q_active (sgr s) then endSgrQuarantine s else s in
  let '(pendingMeta, s) := consumePendingSingleUtf8LeadAsMeta s in
  let metas := match pendingMeta with Some m => [m] | None => [] end in
  match buffer s with
  | [] => (metas, s)
  | b =>
      let s' := with_text s [] (pasteMode s) (pasteBuffer s) None [] in
      if isSgrMousePrefix b then (metas, s') else (metas ++ [b], s')
  end.

(** A pending timer fires. *)
Definition timer_fires (s : stdin) (t : nat) : stdin :=
  match List.find (fun p => bool_decide (p.1 = t)) (timers s) with
  | None => s
  | Some (_, k) =>
      let s := with_timers s (handle s) (List.filter (fun p => negb (bool_decide (p.1 = t))) (timers s)) (next_timer s) in
      match k with
      | T_meta => emit_pending_meta s
      | T_flush =>
          if isSgrMousePrefix (buffer s) then beginSgrQuarantine s
          else let '(flushed, s) := flush s in emit_all s flushed
      | T_quarantine => endSgrQuarantine s
      end
  end.

Definition clear (s : stdin) : stdin :=
  let s := clear_timer s in
  with_sgr (with_utf8 (with_text s [] false [] None []) new_decoder false None) no_quarantine.

Definition getBuffer (s : stdin) : text := buffer s.
Definition destroy (s : stdin) : stdin := clear s.
End stdin.
