(* ===== verification/StdinRuns.v ===== *)
(** * Input in pieces ([tui/src/stdin-buffer.ts])

    Keys and pastes come out of [StdinBuffer.v] the same however their text
    was cut, and a report that stays unfinished leaves no text behind. *)

From S2P Require Import Prelude CodeUnits StdinBuffer.

Local Open Scope list_scope.
Local Open Scope Z_scope.

(** ** Prefixes *)

(** One of two texts begins with the other. *)
Definition compatible (p s : text) : bool := starts_with p s || starts_with s p.

Lemma compatible_app p s x : starts_with p (s ++ x) = true -> compatible p s = true.
Proof.
  unfold compatible. intros H. apply begins_spec in H as [r E]. apply orb_true_iff.
  revert p E. induction s as [|b s IH]; intros p E; [by right|]. destruct p as [|a p]; [by left|].
  injection E as -> E. destruct (IH p E) as [H|H]; [left|right]; cbn; by rewrite bool_decide_true.
Qed.

Lemma index_of_skip p s x : Forall (fun n => compatible p (drop n s) = false) (seq 0 (length s)) ->
  index_of p (s ++ x) = Nat.add (length s) <$> index_of p x.
Proof.
  induction s as [|c s IH]; intros H; [cbn; by destruct (index_of p x)|].
  assert (Hc : starts_with p ((c :: s) ++ x) = false).
  { destruct (starts_with p ((c :: s) ++ x)) eqn:E; [|done]. apply compatible_app in E.
    rewrite Forall_forall in H. specialize (H O). cbn in H. rewrite H in E; [done|]. by left. }
  change ((c :: s) ++ x) with (c :: (s ++ x)) in *. cbn [index_of]. rewrite Hc, IH.
  - by destruct (index_of p x).
  - apply Forall_forall. intros n Hn. rewrite Forall_forall in H. apply (H (S n)).
    apply elem_of_seq in Hn. apply elem_of_seq. cbn. lia.
Qed.

Lemma index_of_none p s : p <> [] -> Forall (fun n => compatible p (drop n s) = false) (seq 0 (length s)) -> index_of p s = None.
Proof.
  intros Hp H. pose proof (index_of_skip p s [] H) as E. rewrite app_nil_r in E. rewrite E. by destruct p.
Qed.

(** ** Key sequences *)

(** Nowhere in the text a marker begins, and none begins that what follows
    could complete. *)
Definition no_marker (p s : text) : Prop := Forall (fun n => compatible p (drop n s) = false) (seq 0 (length s)).

#[export] Instance no_marker_dec p s : Decision (no_marker p s).
Proof. unfold no_marker. apply _. Defined.

(** A complete key sequence: it is extracted whole and waits until it is; it
    is no malformed mouse report, and no start of a paste begins in it. *)
Definition key_ok (s : text) : Prop :=
  s <> [] /\ extractCompleteSequences s = ([s], []) /\ no_marker BRACKETED_PASTE_START s /\
  (isSgrMousePrefix s && negb (isSgrMouseSequence s)) = false.

(** The first end of the paste is the one that follows its contents. *)
Definition paste_ok (c : text) : Prop := index_of BRACKETED_PASTE_END (c ++ BRACKETED_PASTE_END) = Some (length c).

#[export] Instance key_ok_dec s : Decision (key_ok s).
Proof. unfold key_ok. apply _. Defined.

Inductive segment := Key (s : text) | Paste (c : text).

Definition segment_ok (g : segment) : Prop := match g with Key s => key_ok s | Paste c => paste_ok c end.

#[export] Instance segment_ok_dec g : Decision (segment_ok g).
Proof. destruct g; cbn; [apply _|unfold paste_ok; apply _]. Defined.

Definition render_segment (g : segment) : text :=
  match g with Key s => s | Paste c => BRACKETED_PASTE_START ++ c ++ BRACKETED_PASTE_END end.

Definition render (gs : list segment) : text := concat (render_segment <$> gs).

(** ** Extraction *)

(** The length of the first sequence, once it is known. *)
Definition first_end (s : text) : option nat :=
  match s with
  | [] => None
  | a :: rest =>
      if decide (a = ESC) then
        match rest with
        | b :: c :: _ => if isHighSurrogate b && negb (isLowSurrogate c) then Some 2%nat else seq_end (length s) 1 s
        | _ => seq_end (length s) 1 s
        end
      else if isHighSurrogate a then match rest with [] => None | b :: _ => if isLowSurrogate b then Some 2%nat else Some 1%nat end
      else Some 1%nat
  end.

Lemma extract_step fuel s :
  extract (S fuel) s =
  match first_end s with
  | Some n => let '(q, r) := extract fuel (drop n s) in (take n s :: q, r)
  | None => ([], s)
  end.
Proof.
  destruct s as [|a rest]; [done|]. cbn [extract first_end]. case_decide; [|by repeat case_match].
  destruct rest as [|b [|c rest]]; [by case_match|by case_match|]. destruct (_ && _); [done|]. by case_match.
Qed.

Lemma seq_end_spec fuel n s :
  match seq_end fuel n s with
  | Some k => (n <= k <= length s)%nat /\ isCompleteSequence (take k s) <> incomplete /\
              forall j, (n <= j < k)%nat -> isCompleteSequence (take j s) = incomplete
  | None => forall j, (n <= j < n + fuel)%nat -> (j <= length s)%nat -> isCompleteSequence (take j s) = incomplete
  end.
Proof.
  revert n. induction fuel as [|fuel IH]; intros n; cbn [seq_end]; [intros j Hj; lia|].
  case_decide; [intros j Hj; lia|]. case_decide as Hi.
  - specialize (IH (S n)). destruct (seq_end fuel (S n) s) as [k|].
    + destruct IH as (Hk & Hc & Hj). split; [lia|]. split; [done|]. intros j Hjk.
      destruct (decide (j = n)) as [->|]; [done|]. apply Hj. lia.
    + intros j Hj Hl. destruct (decide (j = n)) as [->|]; [done|]. apply IH; lia.
  - split; [lia|]. split; [done|]. intros j Hj. lia.
Qed.

Lemma seq_end_unique s k :
  (1 <= k <= length s)%nat -> isCompleteSequence (take k s) <> incomplete ->
  (forall j, (1 <= j < k)%nat -> isCompleteSequence (take j s) = incomplete) -> seq_end (length s) 1 s = Some k.
Proof.
  intros Hk Hc Hj. pose proof (seq_end_spec (length s) 1 s) as H. destruct (seq_end (length s) 1 s) as [k'|].
  - destruct H as (Hk' & Hc' & Hj'). f_equal. destruct (lt_eq_lt_dec k k') as [[Hlt|Heq]|Hgt]; [|done|].
    + by rewrite Hj' in Hc by lia.
    + by rewrite Hj in Hc' by lia.
  - by rewrite H in Hc by lia.
Qed.

Lemma first_end_bounds s n : first_end s = Some n -> (1 <= n <= length s)%nat.
Proof.
  destruct s as [|a rest]; [done|]. cbn [first_end]. pose proof (seq_end_spec (length (a :: rest)) 1 (a :: rest)) as Hs.
  case_decide.
  - destruct rest as [|b [|c rest]]; [| |destruct (_ && _); [intros [= <-]; cbn; lia|]]; intros E; rewrite E in Hs; lia.
  - destruct (isHighSurrogate a); [destruct rest as [|b rest]; [done|]; destruct (isLowSurrogate b)|]; intros [= <-]; cbn; lia.
Qed.

Lemma seq_end_app s x n : seq_end (length s) 1 s = Some n -> seq_end (length (s ++ x)) 1 (s ++ x) = Some n.
Proof.
  intros E. pose proof (seq_end_spec (length s) 1 s) as H. rewrite E in H. destruct H as (Hk & Hc & Hj).
  apply seq_end_unique; [rewrite length_app; lia|rewrite take_app_le by lia; done|].
  intros j Hjn. rewrite take_app_le by lia. apply Hj. lia.
Qed.

Lemma meta_waits b : isHighSurrogate b = true -> seq_end (length [ESC; b]) 1 [ESC; b] = None.
Proof.
  intros Hb. pose proof (seq_end_spec (length [ESC; b]) 1 [ESC; b]) as Hs.
  destruct (seq_end _ 1 _) as [k|]; [|done]. destruct Hs as ((Hk1 & Hk2) & Hc & _). exfalso. apply Hc. clear Hc.
  assert (55296 <= b) as Hge by (unfold isHighSurrogate in Hb; apply bool_decide_eq_true in Hb; lia).
  destruct k as [|[|[|k]]]; [lia|reflexivity| |cbn in Hk2; lia]. cbn [take].
  unfold isCompleteSequence. cbn [drop starts_with]. rewrite !(bool_decide_eq_false_2 (_ = b)) by lia. cbn [andb].
  rewrite (bool_decide_eq_true_2 (ESC = ESC)) by done. cbn [andb negb]. by rewrite Hb.
Qed.

(** What follows does not change a sequence that is known. *)
Lemma first_end_app s x n : first_end s = Some n -> first_end (s ++ x) = Some n.
Proof.
  destruct s as [|a rest]; [done|]. change ((a :: rest) ++ x) with (a :: (rest ++ x)). cbn [first_end].
  case_decide as Ha.
  - destruct rest as [|b [|c rest]].
    + by subst a.
    + intros E. pose proof (seq_end_app [a; b] x n E) as Ex. cbn [app] in Ex. cbn [app].
      destruct x as [|c x]; [exact Ex|]. destruct (isHighSurrogate b) eqn:Hb; cbn [andb]; [|exact Ex].
      exfalso. subst a. pose proof (meta_waits b Hb). congruence.
    + cbn [app]. destruct (_ && _); [done|]. intros E. exact (seq_end_app (a :: b :: c :: rest) x n E).
  - destruct (isHighSurrogate a); [|done]. by destruct rest.
Qed.

(** Before its end is known, a sequence waits. *)
Lemma first_end_take s k n : first_end s = Some n -> (k < n)%nat -> first_end (take k s) = None.
Proof.
  intros E Hk. pose proof (first_end_bounds s n E) as Hb. destruct s as [|a rest]; [done|]. destruct k as [|k]; [done|].
  cbn [take]. cbn [first_end] in *. case_decide as Ha.
  - destruct (seq_end (length (a :: take k rest)) 1 (a :: take k rest)) as [j|] eqn:Ej.
    + exfalso. pose proof (seq_end_spec (length (a :: take k rest)) 1 (a :: take k rest)) as Hj. rewrite Ej in Hj.
      destruct Hj as ((Hj1 & Hj2) & Hc & _). cbn in Hj2. rewrite length_take in Hj2.
      assert (Hin : isCompleteSequence (take j (a :: rest)) = incomplete).
      { destruct rest as [|b [|c rest]]; [cbn in *; lia| |].
        - pose proof (seq_end_spec (length [a; b]) 1 [a; b]) as Hs. rewrite E in Hs. apply Hs. lia.
        - destruct (isHighSurrogate b && negb (isLowSurrogate c)).
          + injection E as <-. assert (j = 1%nat) as -> by lia. subst a. reflexivity.
          + pose proof (seq_end_spec (length (a :: b :: c :: rest)) 1 (a :: b :: c :: rest)) as Hs. rewrite E in Hs. apply Hs. lia. }
      apply Hc. rewrite <- Hin. f_equal. change (a :: take k rest) with (take (S k) (a :: rest)). rewrite take_take. f_equal. lia.
    + destruct (take k rest) as [|b [|c rest']] eqn:Et; [done|done|].
      destruct rest as [|b' [|c' rest]]; [by rewrite take_nil in Et|by destruct k as [|[|k]]; cbn in Et; simplify_eq|].
      destruct k as [|[|k]]; cbn in Et; simplify_eq. destruct (isHighSurrogate b && negb (isLowSurrogate c)); [|done].
      injection E as <-. lia.
  - destruct (isHighSurrogate a); [|injection E as <-; lia]. destruct rest as [|b rest]; [done|].
    destruct (isLowSurrogate b); injection E as <-; [|lia]. assert (k = 0%nat) as -> by lia. done.
Qed.

Lemma extract_fuel fuel s : (length s < fuel)%nat -> extract fuel s = extractCompleteSequences s.
Proof.
  unfold extractCompleteSequences. revert s. induction fuel as [fuel IH] using lt_wf_ind. intros s Hf.
  destruct fuel as [|fuel]; [lia|]. rewrite !extract_step. destruct (first_end s) as [n|] eqn:E; [|done].
  apply first_end_bounds in E as Hb.
  assert (H1 : extract fuel (drop n s) = extractCompleteSequences (drop n s)) by (apply IH; rewrite ?length_drop; lia).
  assert (H2 : extract (length s) (drop n s) = extractCompleteSequences (drop n s)) by (apply IH; rewrite ?length_drop; lia).
  by rewrite H1, H2.
Qed.

Lemma extract_first s n :
  first_end s = Some n ->
  extractCompleteSequences s = let '(q, r) := extractCompleteSequences (drop n s) in (take n s :: q, r).
Proof.
  intros E. unfold extractCompleteSequences at 1. rewrite extract_step, E. apply first_end_bounds in E.
  rewrite extract_fuel by (rewrite length_drop; lia). done.
Qed.

Lemma key_first_end s : s <> [] -> extractCompleteSequences s = ([s], []) -> first_end s = Some (length s).
Proof.
  intros Hs E. unfold extractCompleteSequences in E. rewrite extract_step in E.
  destruct (first_end s) as [n|] eqn:En; [|by injection E as E].
  destruct (extract (length s) (drop n s)) as [q r]. injection E as E _ _. apply first_end_bounds in En.
  apply (f_equal length) in E. rewrite length_take in E. f_equal. lia.
Qed.

Lemma extract_keys ks p :
  Forall key_ok ks -> extractCompleteSequences (concat ks ++ p) = let '(q, r) := extractCompleteSequences p in (ks ++ q, r).
Proof.
  induction 1 as [|s ks (Hne & He & _) _ IH]; [cbn [concat app]; by destruct (extractCompleteSequences p)|].
  cbn [concat]. rewrite <- app_assoc. pose proof (key_first_end s Hne He) as Hf.
  rewrite (extract_first _ (length s)) by by apply first_end_app.
  rewrite drop_app_length, take_app_length, IH. by destruct (extractCompleteSequences p).
Qed.

Lemma extract_waiting p : first_end p = None -> extractCompleteSequences p = ([], p).
Proof. intros E. unfold extractCompleteSequences. by rewrite extract_step, E. Qed.

Lemma extract_all ks : Forall key_ok ks -> extractCompleteSequences (concat ks) = (ks, []).
Proof.
  intros H. apply (extract_keys ks []) in H. change (extractCompleteSequences []) with (@nil text, @nil Z) in H.
  by rewrite !app_nil_r in H.
Qed.

(** ** Segments *)

Definition strict_prefix (p s : text) : Prop := exists r, s = p ++ r /\ r <> [].

Lemma strict_prefix_length p s : strict_prefix p s -> (length p < length s)%nat.
Proof. intros (r & -> & Hr). rewrite length_app. destruct r; [done|cbn; lia]. Qed.

Lemma key_waiting p s : key_ok s -> strict_prefix p s -> first_end p = None.
Proof.
  intros (Hne & He & _) (r & -> & Hr). pose proof (key_first_end _ Hne He) as Hf.
  rewrite <- (take_app_length p r). apply (first_end_take _ _ _ Hf). rewrite length_app. destruct r; [done|cbn; lia].
Qed.

Lemma strict_prefix_take p s : strict_prefix p s -> exists k, (k < length s)%nat /\ p = take k s.
Proof.
  intros H. exists (length p). split; [by apply strict_prefix_length|]. destruct H as (r & -> & _). by rewrite take_app_length.
Qed.

Lemma start_waiting p : strict_prefix p BRACKETED_PASTE_START -> first_end p = None.
Proof.
  intros (k & Hk & ->)%strict_prefix_take. cbn in Hk. do 6 (destruct k as [|k]; [reflexivity|]). lia.
Qed.

Lemma begins_drop_app m p r k : starts_with m (drop k p) = true -> m <> [] -> starts_with m (drop k (p ++ r)) = true.
Proof.
  intros Hs Hm. apply begins_spec in Hs as [x Hx]. assert (k < length p)%nat.
  { destruct (decide (k < length p)%nat); [done|]. rewrite drop_ge in Hx by lia. symmetry in Hx. by apply app_eq_nil in Hx as [? _]. }
  rewrite drop_app_le, Hx, <- app_assoc by lia. apply begins_app.
Qed.

Lemma no_marker_prefix m p r : m <> [] -> no_marker m (p ++ r) -> index_of m p = None.
Proof.
  intros Hm H. destruct (index_of m p) as [k|] eqn:E; [|done]. exfalso. apply index_of_Some in E as [Hk Hs].
  assert (k < length p)%nat.
  { destruct (decide (k < length p)%nat); [done|]. rewrite drop_ge in Hs by lia. by destruct m. }
  unfold no_marker in H. rewrite Forall_forall in H. specialize (H k ltac:(apply elem_of_seq; rewrite length_app; lia)).
  unfold compatible in H. apply orb_false_iff in H as [H _]. by rewrite begins_drop_app in H.
Qed.

(** The contents of a paste end at its end, whatever follows. *)
Lemma paste_end c x : paste_ok c -> index_of BRACKETED_PASTE_END (c ++ BRACKETED_PASTE_END ++ x) = Some (length c).
Proof.
  intros Hc. destruct (index_of_least BRACKETED_PASTE_END (c ++ BRACKETED_PASTE_END ++ x) (length c)) as (j & Hj & Hle).
  { rewrite drop_app_length. apply begins_app. }
  { rewrite length_app. lia. }
  rewrite Hj. f_equal. apply Nat.le_antisymm; [done|]. apply Nat.nlt_ge. intros Hlt. apply index_of_Some in Hj as [_ Hs].
  assert (Hs' : starts_with BRACKETED_PASTE_END (drop j (c ++ BRACKETED_PASTE_END)) = true).
  { apply begins_spec in Hs as [y Hy]. rewrite app_assoc, drop_app_le in Hy by (rewrite length_app; lia).
    apply (f_equal (take 6)) in Hy. rewrite take_app_le in Hy by (rewrite length_drop, length_app; cbn; lia).
    change (take 6 (BRACKETED_PASTE_END ++ y)) with BRACKETED_PASTE_END in Hy.
    apply begins_spec. exists (drop 6 (drop j (c ++ BRACKETED_PASTE_END))). rewrite <- Hy at 2. by rewrite take_drop. }
  apply index_of_least in Hs' as (j' & Hj' & Hle'); [|rewrite length_app; lia]. unfold paste_ok in Hc. rewrite Hc in Hj'. simplify_eq. lia.
Qed.

Lemma paste_open c p : paste_ok c -> strict_prefix p (c ++ BRACKETED_PASTE_END) -> index_of BRACKETED_PASTE_END p = None.
Proof.
  intros Hc (r & E & Hr). destruct (index_of BRACKETED_PASTE_END p) as [k|] eqn:Ek; [|done]. exfalso.
  apply index_of_Some in Ek as [Hk Hs]. apply begins_spec in Hs as [x Hx].
  assert (Hlen : (k + 6 <= length p)%nat).
  { apply (f_equal length) in Hx. rewrite length_drop, length_app in Hx. cbn in Hx. lia. }
  assert (Hs' : starts_with BRACKETED_PASTE_END (drop k (c ++ BRACKETED_PASTE_END)) = true).
  { rewrite E. apply begins_drop_app; [apply begins_spec; by exists x|done]. }
  apply (f_equal length) in E as El. rewrite !length_app in El. cbn in El. assert (0 < length r)%nat by (destruct r; [done|cbn; lia]).
  apply index_of_least in Hs' as (j & Hj & Hle); [|rewrite length_app; lia]. unfold paste_ok in Hc. rewrite Hc in Hj. simplify_eq. lia.
Qed.

Lemma keys_start ks x :
  Forall key_ok ks -> index_of BRACKETED_PASTE_START (concat ks ++ x) = Nat.add (length (concat ks)) <$> index_of BRACKETED_PASTE_START x.
Proof.
  induction 1 as [|s ks (_ & _ & Hs & _) _ IH]; [cbn; by destruct (index_of _ x)|]. cbn [concat]. rewrite <- app_assoc.
  rewrite index_of_skip by exact Hs. rewrite IH. destruct (index_of _ x) as [n|]; [|done]. cbn. f_equal. rewrite length_app. lia.
Qed.

Lemma start_at x : index_of BRACKETED_PASTE_START (BRACKETED_PASTE_START ++ x) = Some O.
Proof. done. Qed.

Lemma start_open p : strict_prefix p BRACKETED_PASTE_START -> index_of BRACKETED_PASTE_START p = None.
Proof.
  intros (k & Hk & ->)%strict_prefix_take. cbn in Hk. do 6 (destruct k as [|k]; [reflexivity|]). lia.
Qed.

(** ** What the buffer shows *)

(** The pending key of the kitty protocol and the events so far. *)
Definition emit_key (st : option Z * list event) (s : text) : option Z * list event :=
  match singleCodePoint s with
  | Some c =>
      if decide (st.1 = Some c) then (None, st.2) else (parseUnmodifiedKittyPrintableCodepoint s, st.2 ++ [E_data s])
  | None => (parseUnmodifiedKittyPrintableCodepoint s, st.2 ++ [E_data s])
  end.

Definition deliver (st : option Z * list event) (g : segment) : option Z * list event :=
  match g with Key s => emit_key st s | Paste c => (None, st.2 ++ [E_paste c]) end.

Definition delivered (st : option Z * list event) (gs : list segment) : option Z * list event := foldl deliver st gs.

(** The part of a segment that has to be there before it is recognised. *)
Definition opening (g : segment) : text := match g with Key s => s | Paste _ => BRACKETED_PASTE_START end.

(** What follows the opening of the first segment. *)
Definition remainder (g : segment) (gs : list segment) : text :=
  match g with Key _ => render gs | Paste c => c ++ BRACKETED_PASTE_END ++ render gs end.

Lemma render_opening g gs : render (g :: gs) = opening g ++ remainder g gs.
Proof. unfold render. destruct g; cbn [fmap list_fmap concat render_segment opening remainder]; [done|]. by rewrite <- !app_assoc. Qed.

(** Two cuts of the same text. *)
Lemma two_cuts (b r o x : text) : o ++ x = b ++ r -> (exists k, b = o ++ k /\ x = k ++ r) \/ (strict_prefix b o /\ exists k, k <> [] /\ o = b ++ k /\ r = k ++ x).
Proof.
  intros E. destruct (app_eq_inv _ _ _ _ E) as [(k & -> & ->)|(k & -> & ->)].
  - destruct k as [|z k]; [left; exists []; by rewrite !app_nil_r|]. right. split; [by exists (z :: k)|by exists (z :: k)].
  - left. by exists k.
Qed.

(** [p] is the beginning of the first of the segments, or nothing. *)
Definition begun (gs : list segment) (p : text) : Prop := p = [] \/ exists g gs', gs = g :: gs' /\ strict_prefix p (opening g).

Lemma split_input gs b r :
  render gs = b ++ r ->
  exists ks gs', gs = (Key <$> ks) ++ gs' /\
    ((exists p, b = concat ks ++ p /\ render gs' = p ++ r /\ begun gs' p) \/
     (exists c gs'' y, gs' = Paste c :: gs'' /\ b = concat ks ++ BRACKETED_PASTE_START ++ y /\
                       c ++ BRACKETED_PASTE_END ++ render gs'' = y ++ r)).
Proof.
  revert b. induction gs as [|g gs IH]; intros b E.
  - destruct b; [|done]. exists [], []. split; [done|]. left. exists []. split; [done|]. split; [exact E|by left].
  - rewrite render_opening in E. apply two_cuts in E as [(k & -> & E)|(Hp & k & _ & E & ->)].
    + destruct g as [s|c].
      * destruct (IH k E) as (ks & gs' & -> & H). exists (s :: ks), gs'. split; [done|]. cbn [concat opening].
        destruct H as [(p & -> & H)|(c & gs'' & y & -> & -> & H)]; [left; exists p|right; exists c, gs'', y]; by rewrite <- !app_assoc.
      * exists [], (Paste c :: gs). split; [done|]. right. by exists c, gs, k.
    + exists [], (g :: gs). split; [done|]. left. exists b. split; [done|]. split; [by rewrite render_opening, E, <- app_assoc|]. right. by exists g, gs.
Qed.

Lemma begun_waits gs p : Forall segment_ok gs -> begun gs p -> first_end p = None /\ index_of BRACKETED_PASTE_START p = None.
Proof.
  intros Hok [->|(g & gs' & -> & Hp)]; [done|]. inversion_clear Hok as [|? ? Hg _]. destruct g as [s|c]; cbn in *.
  - split; [by apply (key_waiting p s)|]. destruct Hp as (r & -> & _). by apply (no_marker_prefix _ p r); [|apply Hg].
  - split; [by apply start_waiting|by apply start_open].
Qed.

Lemma keys_ok ks gs : Forall segment_ok ((Key <$> ks) ++ gs) -> Forall key_ok ks /\ Forall segment_ok gs.
Proof. intros [Hk Hg]%Forall_app. split; [|done]. by rewrite Forall_fmap in Hk. Qed.

Lemma no_filter ks : Forall key_ok ks -> List.filter (fun q => negb (isSgrMousePrefix q && negb (isSgrMouseSequence q))) ks = ks.
Proof. induction 1 as [|q ks (_ & _ & _ & Hq) _ IH]; [done|]. cbn [List.filter]. rewrite Hq. cbn [negb]. by rewrite IH. Qed.

Section runs.
Context {D : Type} (new_decoder : D) (decoder_write : D -> list Z -> text * D).

Notation stdin := (@stdin D).

(** The parts of the state that text passes through. *)
Record view := { v_buffer : text; v_paste : bool; v_pasted : text; v_shown : option Z * list event; v_lead : option Z; v_quarantined : bool }.

Definition view_of (s : stdin) : view :=
  {| v_buffer := buffer s; v_paste := pasteMode s; v_pasted := pasteBuffer s; v_shown := (pendingKitty s, events s);
     v_lead := pendingSingleUtf8LeadByte s; v_quarantined := q_active (sgr s) |}.

Definition plain (b : text) (pm : bool) (pb : text) st : view :=
  {| v_buffer := b; v_paste := pm; v_pasted := pb; v_shown := st; v_lead := None; v_quarantined := false |}.

Lemma view_set_timer s k : view_of (set_timer s k) = view_of s.
Proof. done. Qed.

Lemma view_stop_timer s : view_of (stop_timer s) = view_of s.
Proof. unfold stop_timer, clear_timer. destruct (q_active _); [done|]. by destruct (handle s). Qed.

Lemma view_emit s q b pm pb st : view_of s = plain b pm pb st -> view_of (emitDataSequence s q) = plain b pm pb (emit_key st q).
Proof.
  intros E. unfold plain in *. unfold view_of in E. simplify_eq. unfold emitDataSequence, emit_key, view_of. cbn [fst snd].
  destruct (singleCodePoint q) as [c|]; [destruct (decide _)|]; cbn; rewrite ?app_nil_r; congruence.
Qed.

Lemma view_emit_all s ks b pm pb st :
  view_of s = plain b pm pb st -> view_of (emit_all s ks) = plain b pm pb (delivered st (Key <$> ks)).
Proof.
  revert s st. induction ks as [|q ks IH]; intros s st E; [done|]. cbn. apply IH. by apply view_emit.
Qed.

Lemma no_lead s b pm pb st : view_of s = plain b pm pb st -> emit_pending_meta s = s.
Proof. intros E. apply (f_equal v_lead) in E. cbn in E. unfold emit_pending_meta, consumePendingSingleUtf8LeadAsMeta. by rewrite E. Qed.

Lemma view_start s b pm pb st : view_of s = plain b pm pb st -> view_of (emit_pending_meta (stop_timer s)) = plain b pm pb st.
Proof. intros E. rewrite (no_lead _ b pm pb st); by rewrite view_stop_timer. Qed.

Lemma view_with_text s b' pm' pb' k es b pm pb st :
  view_of s = plain b pm pb st -> view_of (with_text s b' pm' pb' k es) = plain b' pm' pb' (k, st.2 ++ es).
Proof. intros E. unfold plain, view_of in *. simplify_eq. cbn. congruence. Qed.

Lemma view_with_buffer s b' b pm pb st : view_of s = plain b pm pb st -> view_of (with_buffer s b') = plain b' pm pb st.
Proof. intros E. unfold plain, view_of in *. simplify_eq. cbn. rewrite app_nil_r. congruence. Qed.

(** The fields of a state whose view is known. *)
Lemma view_fields s b pm pb st :
  view_of s = plain b pm pb st ->
  buffer s = b /\ pasteMode s = pm /\ pasteBuffer s = pb /\ pendingKitty s = st.1 /\ q_active (sgr s) = false.
Proof. intros E. unfold plain, view_of in E. simplify_eq. done. Qed.

(** *** The input still to come *)

(** [r] is still to come of the segments [gs]; what came of them is held. *)
Inductive waiting (gs : list segment) (r : text) : text -> bool -> text -> Prop :=
| waiting_idle b : render gs = b ++ r -> begun gs b -> waiting gs r b false []
| waiting_paste c gs' q r' :
    gs = Paste c :: gs' -> c ++ BRACKETED_PASTE_END = q ++ r' -> r' <> [] -> r = r' ++ render gs' -> waiting gs r [] true q.

(** The buffer holds a beginning of [gs], after what [st] shows. *)
Definition holds (s : stdin) (gs : list segment) (r : text) st : Prop :=
  exists b pm pb st', view_of s = plain b pm pb st' /\ st'.2 = st.2 /\ (pm = false -> st' = st) /\ waiting gs r b pm pb.

(** *** A piece of input *)

Notation feed := (feed (D := D)).

(** What [feed] does once a paste is open. *)
Definition after_paste (fuel : nat) (s : stdin) : stdin :=
  match end_paste s with
  | (Some ((_ :: _) as remaining), s) => feed fuel false (emit_pending_meta (stop_timer s)) remaining
  | (_, s) => s
  end.

Lemma feed_step fuel from s str : feed (S fuel) from s str = process_text (after_paste fuel) from s str.
Proof. done. Qed.

Lemma feed_pasting fuel from s c str pb st :
  view_of s = plain [] true pb st ->
  feed (S fuel) from s (c :: str) = after_paste fuel (with_text (with_buffer s (c :: str)) [] true (pb ++ c :: str) st.1 []).
Proof.
  intros E. apply view_fields in E as (Eb & Ep & Eq & Ek & Ea). rewrite feed_step. unfold process_text, join_text. rewrite Ea. cbn [andb]. rewrite Eb. cbn [app].
  cbn [with_buffer with_text pasteMode buffer pasteBuffer pendingKitty]. by rewrite Ep, Eq, Ek.
Qed.

Lemma feed_waiting fuel from s c str b ks p st :
  view_of s = plain b false [] st -> Forall key_ok ks -> b ++ c :: str = concat ks ++ p -> first_end p = None ->
  index_of BRACKETED_PASTE_START p = None ->
  view_of (feed (S fuel) from s (c :: str)) = plain p false [] (delivered st (Key <$> ks)).
Proof.
  intros E Hk Hs Hp Hi. apply view_fields in E as Hf. destruct Hf as (Eb & Ep & _ & _ & Ea). rewrite feed_step. unfold process_text, join_text. rewrite Ea.
  cbn [andb]. rewrite Eb. cbn [with_buffer with_text pasteMode buffer]. rewrite Ep, Hs, keys_start, Hi by done. cbn [fmap option_fmap option_map].
  rewrite extract_keys, extract_waiting, app_nil_r, no_filter by done.
  match goal with |- view_of (match p with [] => ?t | _ => _ end) = _ => assert (H : view_of t = plain p false [] (delivered st (Key <$> ks))) end.
  { apply view_emit_all. by do 2 eapply view_with_buffer. }
  destruct p; [exact H|by rewrite view_set_timer].
Qed.

Lemma feed_opening fuel from s c str b ks y st :
  view_of s = plain b false [] st -> Forall key_ok ks -> b ++ c :: str = concat ks ++ BRACKETED_PASTE_START ++ y ->
  exists s', feed (S fuel) from s (c :: str) = after_paste fuel s' /\
    view_of s' = plain [] true y (None, (delivered st (Key <$> ks)).2).
Proof.
  intros E Hk Hs. apply view_fields in E as Hf. destruct Hf as (Eb & Ep & _ & _ & Ea). rewrite feed_step. unfold process_text, join_text. rewrite Ea.
  cbn [andb]. rewrite Eb. cbn [with_buffer with_text pasteMode buffer]. rewrite Ep, Hs, keys_start, start_at by done.
  cbn [fmap option_fmap option_map]. rewrite Nat.add_0_r, take_app_length.
  rewrite extract_all by done. eexists. split; [reflexivity|].
  assert (H0 : view_of (with_buffer s (concat ks ++ BRACKETED_PASTE_START ++ y)) = plain (concat ks ++ BRACKETED_PASTE_START ++ y) false [] st) by by eapply view_with_buffer.
  match goal with |- view_of (with_text ?t _ _ _ _ _) = _ =>
    assert (H : view_of t = plain (concat ks ++ BRACKETED_PASTE_START ++ y) false [] (delivered st (Key <$> ks))) end.
  { destruct (length (concat ks)) eqn:El; [|by apply view_emit_all].
    destruct ks as [|k ks]; [done|]. inversion_clear Hk as [|? ? (Hne & _) _]. by destruct k. }
  assert (Hd : drop (length (concat ks) + length BRACKETED_PASTE_START) (concat ks ++ BRACKETED_PASTE_START ++ y) = y).
  { by rewrite <- length_app, app_assoc, drop_app_length. }
  rewrite Hd. erewrite view_with_text by exact H. by rewrite app_nil_r.
Qed.

(** The end of the paste has not come yet, or the rest is input again. *)
Lemma after_paste_open fuel s q st c r :
  view_of s = plain [] true q st -> paste_ok c -> c ++ BRACKETED_PASTE_END = q ++ r -> r <> [] -> after_paste fuel s = s.
Proof.
  intros E Hc Hq Hr. apply view_fields in E as (_ & _ & Eq & _). unfold after_paste, end_paste.
  rewrite Eq, (paste_open c q); [done|done|by exists r].
Qed.

Lemma after_paste_closed fuel s c x st :
  view_of s = plain [] true (c ++ BRACKETED_PASTE_END ++ x) st -> paste_ok c ->
  exists s', after_paste fuel s = match x with [] => s' | _ => feed fuel false s' x end /\
    view_of s' = plain [] false [] (None, st.2 ++ [E_paste c]).
Proof.
  intros E Hc. apply view_fields in E as Hf. destruct Hf as (Eb & _ & Eq & _).
  assert (He : end_paste s = (Some x, with_text s [] false [] None [E_paste c])).
  { unfold end_paste. rewrite Eq, paste_end, Eb, take_app_length by done. rewrite <- length_app, app_assoc. by rewrite drop_app_length. }
  assert (H : view_of (with_text s [] false [] None [E_paste c]) = plain [] false [] (None, st.2 ++ [E_paste c])) by by eapply view_with_text.
  unfold after_paste. rewrite He. destruct x as [|z x]; [by eexists|].
  exists (emit_pending_meta (stop_timer (with_text s [] false [] None [E_paste c]))). split; [done|by apply view_start].
Qed.

(** A piece of the input brings the keys and pastes it completes, and the
    buffer holds the beginning of what is left. *)
Definition feeds (fuel : nat) : Prop :=
  forall from s str gs r st, holds s gs (str ++ r) st -> Forall segment_ok gs -> str <> [] ->
    (length (buffer s) + length (pasteBuffer s) + length str < fuel)%nat ->
    exists gs1 gs2, gs = gs1 ++ gs2 /\ holds (feed fuel from s str) gs2 r (delivered st gs1).

Lemma holds_idle s b gs r st : view_of s = plain b false [] st -> render gs = b ++ r -> begun gs b -> holds s gs r st.
Proof. intros E Hr Hb. exists b, false, [], st. split_and!; [done|done|done|by apply waiting_idle]. Qed.

Lemma after_paste_segments fuel s c gs y r st st' :
  feeds fuel -> paste_ok c -> Forall segment_ok gs -> view_of s = plain [] true y st' -> st'.2 = st.2 ->
  c ++ BRACKETED_PASTE_END ++ render gs = y ++ r -> (length y < S fuel)%nat ->
  exists gs1 gs2, Paste c :: gs = gs1 ++ gs2 /\ holds (after_paste fuel s) gs2 r (delivered st gs1).
Proof.
  intros IH Hc Hok E Hst Hy Hl. rewrite app_assoc in Hy. apply two_cuts in Hy as [(x & -> & Hx)|(_ & x & Hx & Hy & ->)].
  - rewrite <- app_assoc in E. destruct (after_paste_closed fuel s c x st' E Hc) as (s2 & -> & E2).
    assert (Hidle : holds s2 gs (x ++ r) (deliver st (Paste c))).
    { eapply holds_idle; [cbn; by rewrite <- Hst|done|by left]. }
    destruct x as [|z x]; [by exists [Paste c], gs|]. apply view_fields in E2 as (Eb & _ & Ep & _). rewrite !length_app in Hl.
    cbn in Hl. destruct (IH false s2 (z :: x) gs r _ Hidle Hok) as (gs1 & gs2 & -> & Hh); [done|rewrite Eb, Ep; cbn; lia|].
    by exists (Paste c :: gs1), gs2.
  - rewrite (after_paste_open fuel s y st' c x) by done. exists [], (Paste c :: gs). split; [done|].
    exists [], true, y, st'. split_and!; [done|done|done|by eapply waiting_paste].
Qed.

Lemma feed_segments fuel : feeds fuel.
Proof.
  induction fuel as [|fuel IH]; intros from s str gs r st (b & pm & pb & st' & E & Hst & Hidle & Hw) Hok Hne Hf; [lia|].
  apply view_fields in E as Hfields. destruct Hfields as (Eb & _ & Ep & _). rewrite Eb, Ep in Hf.
  destruct str as [|z str]; [done|]. destruct Hw as [b Hr Hb|c gs' q r' -> Hq Hr' Hr].
  - rewrite Hidle in E by done. rewrite app_assoc in Hr. apply split_input in Hr as (ks & gs' & -> & Hcase).
    apply keys_ok in Hok as [Hk Hok'].
    destruct Hcase as [(p & Hp & Hr & Hbeg)|(c & gs'' & y & -> & Hy & Hr)].
    + destruct (begun_waits _ _ Hok' Hbeg) as [Hw Hi]. exists (Key <$> ks), gs'. split; [done|].
      eapply holds_idle; [by apply (feed_waiting fuel from s z str b ks p st)|done|done].
    + inversion_clear Hok' as [|? ? Hc Hok'']. destruct (feed_opening fuel from s z str b ks y st E Hk Hy) as (s' & -> & E').
      apply (f_equal length) in Hy as Hl. rewrite !length_app in Hl. cbn in Hl, Hf.
      destruct (after_paste_segments fuel s' c gs'' y r (delivered st (Key <$> ks)) _ IH Hc Hok'' E' eq_refl Hr ltac:(lia)) as (gs1 & gs2 & Hg & Hh).
      exists ((Key <$> ks) ++ gs1), gs2. split; [by rewrite Hg, <- app_assoc|]. unfold delivered in *. by rewrite foldl_app.
  - inversion_clear Hok as [|? ? Hc Hok']. rewrite (feed_pasting fuel from s z str q st' E). cbn in Hf.
    apply (after_paste_segments fuel _ c gs' (q ++ z :: str) r st st'); [done|done|done| |done| |rewrite length_app; cbn; lia].
    + destruct st' as [k es]. erewrite view_with_text; [|by eapply view_with_buffer]. by rewrite app_nil_r.
    + rewrite app_assoc, Hq, <- !app_assoc, <- Hr. done.
Qed.

Lemma process_segments s str gs r st :
  holds s gs (str ++ r) st -> Forall segment_ok gs -> str <> [] ->
  exists gs1 gs2, gs = gs1 ++ gs2 /\ holds (process_string s str) gs2 r (delivered st gs1).
Proof.
  intros (b & pm & pb & st' & E & H) Hok Hne. unfold process_string. apply view_start in E as E'.
  apply feed_segments; [by exists b, pm, pb, st'|done|done|]. unfold feed_fuel. lia.
Qed.

(** Once everything came, nothing is held. *)
Lemma holds_end s gs st : Forall segment_ok gs -> holds s gs [] st -> gs = [] /\ view_of s = plain [] false [] st.
Proof.
  intros Hok (b & pm & pb & st' & E & Hst & Hidle & Hw). destruct Hw as [b Hr Hb|c gs' q r' -> Hq Hr' Hr].
  - rewrite app_nil_r in Hr. assert (gs = []) as ->; [|cbn in Hr; subst b; by rewrite Hidle in E].
    destruct Hb as [->|(g & gs' & -> & Hp)].
    + destruct gs as [|[s'|c] gs]; [done| |done]. inversion_clear Hok as [|? ? Hg _]. destruct Hg as (Hne & _). by destruct s'.
    + apply strict_prefix_length in Hp. rewrite render_opening in Hr. apply (f_equal length) in Hr. rewrite length_app in Hr. lia.
  - by destruct r'.
Qed.

Lemma fold_segments gs chunks s st :
  Forall segment_ok gs -> Forall (fun c => c <> []) chunks -> holds s gs (concat chunks) st ->
  view_of (foldl process_string s chunks) = plain [] false [] (delivered st gs).
Proof.
  intros Hok Hne. revert gs s st Hok. induction Hne as [|c chunks Hc _ IH]; intros gs s st Hok H0; cbn [foldl concat] in *.
  - by destruct (holds_end s gs st Hok H0) as [-> ?].
  - destruct (process_segments s c gs _ st H0 Hok Hc) as (gs1 & gs2 & -> & H1). apply Forall_app in Hok as [_ Hok].
    rewrite (IH gs2 _ _ Hok H1). unfold delivered. by rewrite foldl_app.
Qed.


(** *** A mouse report that comes late *)

(** [l] is the text of a report after its first three characters, up to its last letter. *)
Definition report_body (l : text) : Prop := report_prefix l 0 false = (2, true, []).

Lemma report_prefix_app l1 l2 n d :
  report_prefix (l1 ++ l2) n d =
  let '(n', d', r) := report_prefix l1 n d in match r with [] => report_prefix l2 n' d' | _ => (n', d', r ++ l2) end.
Proof.
  revert n d. induction l1 as [|c l1 IH]; intros n d; [done|]. cbn [app report_prefix]. destruct (is_digit c); [apply IH|].
  destruct (_ && _); [apply IH|done].
Qed.

Lemma report_body_split l1 l2 :
  report_body (l1 ++ l2) -> exists n d, report_prefix l1 0 false = (n, d, []) /\ report_prefix l2 n d = (2, true, []).
Proof.
  unfold report_body. rewrite report_prefix_app. destruct (report_prefix l1 0 false) as [[n d] [|z r]]; [by exists n, d|done].
Qed.

(** The buffer waits for the rest of a report. *)
Definition awaits (s : stdin) (st : option Z * list event) (l : text) (bytes : Z) : Prop :=
  exists n d, view_of s = {| v_buffer := []; v_paste := false; v_pasted := []; v_shown := st; v_lead := None; v_quarantined := true |} /\
    sgr s = {| q_active := true; q_bytes := bytes; q_semicolons := n; q_hasDigit := d |} /\ report_prefix l n d = (2, true, []).

Lemma awaits_step s st c l bytes :
  awaits s st (c :: l) bytes -> bytes < SGR_QUARANTINE_MAX_BYTES ->
  exists s', awaits s' st l (bytes + 1) /\ forall x, consumeSgrQuarantine s (c :: x) = consumeSgrQuarantine s' x.
Proof.
  intros (n & d & E & Eq & Hl) Hb. cbn [report_prefix] in Hl.
  destruct (is_digit c) eqn:Ec; [|destruct (bool_decide (c = 59) && d && bool_decide (n < 2)) eqn:Es; [|done]].
  - exists (with_sgr s {| q_active := true; q_bytes := bytes + 1; q_semicolons := n; q_hasDigit := true |}). split.
    + exists n, true. by split_and!; [unfold view_of in *; cbn in *; simplify_eq; congruence| |].
    + intros x. cbn [consumeSgrQuarantine]. rewrite Eq. cbn [q_bytes q_active q_semicolons]. rewrite decide_False by lia. by rewrite Ec.
  - exists (with_sgr s {| q_active := true; q_bytes := bytes + 1; q_semicolons := n + 1; q_hasDigit := false |}). split.
    + exists (n + 1), false. by split_and!; [unfold view_of in *; cbn in *; simplify_eq; congruence| |].
    + intros x. cbn [consumeSgrQuarantine]. rewrite Eq. cbn [q_bytes q_active q_semicolons q_hasDigit].
      rewrite decide_False by lia. by rewrite Ec, Es.
Qed.

Lemma awaits_run s st l1 l2 bytes :
  awaits s st (l1 ++ l2) bytes -> bytes + Z.of_nat (length l1) <= SGR_QUARANTINE_MAX_BYTES ->
  exists s', awaits s' st l2 (bytes + Z.of_nat (length l1)) /\ forall x, consumeSgrQuarantine s (l1 ++ x) = consumeSgrQuarantine s' x.
Proof.
  revert s bytes. induction l1 as [|c l1 IH]; intros s bytes H Hb.
  - exists s. split; [by rewrite Z.add_0_r|done].
  - cbn [length] in *. destruct (awaits_step s st c (l1 ++ l2) bytes H ltac:(lia)) as (s1 & H1 & E1).
    destruct (IH s1 _ H1 ltac:(lia)) as (s2 & H2 & E2). exists s2. split.
    + by replace (bytes + Z.of_nat (S (length l1))) with (bytes + 1 + Z.of_nat (length l1)) by lia.
    + intros x. cbn [app]. by rewrite E1, E2.
Qed.

Lemma awaits_final s st f bytes x :
  awaits s st [] bytes -> bytes < SGR_QUARANTINE_MAX_BYTES -> is_final f = true ->
  consumeSgrQuarantine s (f :: x) = (x, endSgrQuarantine s) /\ view_of (endSgrQuarantine s) = plain [] false [] st.
Proof.
  intros (n & d & E & Eq & Hl) Hb Hf. cbn in Hl. simplify_eq. split.
  - cbn [consumeSgrQuarantine]. rewrite Eq. cbn [q_bytes q_semicolons q_hasDigit]. rewrite decide_False by lia.
    assert (is_digit f = false) as -> by (unfold is_final, is_digit in *; apply bool_decide_eq_true in Hf; apply bool_decide_eq_false; lia).
    rewrite Hf. assert (bool_decide (f = 59) = false) as -> by (unfold is_final in Hf; apply bool_decide_eq_true in Hf; apply bool_decide_eq_false; lia).
    done.
  - unfold endSgrQuarantine, clear_timer. unfold view_of in E. destruct (handle s); unfold view_of, plain; cbn; simplify_eq; congruence.
Qed.

Lemma awaits_view s st l bytes : awaits s st l bytes -> buffer s = [] /\ q_active (sgr s) = true /\ emit_pending_meta (stop_timer s) = s.
Proof.
  intros (n & d & E & Eq & _). assert (Ha : q_active (sgr s) = true) by (by rewrite Eq).
  split; [by apply (f_equal v_buffer) in E|]. split; [done|]. unfold stop_timer. rewrite Ha.
  apply (f_equal v_lead) in E. cbn in E. unfold emit_pending_meta, consumePendingSingleUtf8LeadAsMeta. by rewrite E.
Qed.

Lemma feed_awaits fuel from s st l bytes c str s' :
  awaits s st l bytes -> consumeSgrQuarantine s (c :: str) = ([], s') -> feed (S fuel) from s (c :: str) = s'.
Proof.
  intros H E. destruct (awaits_view _ _ _ _ H) as (Eb & Ea & _). rewrite feed_step. unfold process_text. by rewrite Ea, E.
Qed.

Lemma feed_after_report fuel from s st l bytes c str z x s' st' :
  awaits s st l bytes -> consumeSgrQuarantine s (c :: str) = (z :: x, s') -> view_of s' = plain [] false [] st' ->
  feed (S fuel) from s (c :: str) = feed (S fuel) from s' (z :: x).
Proof.
  intros H E E'. destruct (awaits_view _ _ _ _ H) as (Eb & Ea & _). apply view_fields in E' as (_ & _ & _ & _ & Ea').
  rewrite !feed_step. unfold process_text. by rewrite Ea, E, Ea'.
Qed.

(** A piece ends inside the report, or brings its end. *)
Lemma process_report s st c str l f x r bytes :
  awaits s st l bytes -> bytes + Z.of_nat (length l) < SGR_QUARANTINE_MAX_BYTES -> is_final f = true ->
  l ++ f :: x = (c :: str) ++ r ->
  (exists l1 l2, l = l1 ++ l2 /\ r = l2 ++ f :: x /\ awaits (process_string s (c :: str)) st l2 (bytes + Z.of_nat (length l1))) \/
  (exists y s' fuel, x = y ++ r /\ view_of s' = plain [] false [] st /\ (length y < fuel)%nat /\
     process_string s (c :: str) = match y with [] => s' | _ => feed fuel false s' y end).
Proof.
  intros H Hb Hf E. destruct (awaits_view _ _ _ _ H) as (_ & _ & Ep). unfold process_string. rewrite Ep. unfold feed_fuel.
  apply two_cuts in E as [(k & Ek & E)|(_ & k & _ & -> & ->)].
  - destruct k as [|z y]; cbn in E.
    + left. rewrite app_nil_r in Ek. subst l. destruct (awaits_run s st (c :: str) [] bytes) as (s1 & H1 & E1);
        [by rewrite app_nil_r|lia|]. exists (c :: str), []. split; [by rewrite app_nil_r|]. split; [done|].
      specialize (E1 []). rewrite app_nil_r in E1. cbn in E1. by rewrite (feed_awaits _ _ _ _ _ _ _ _ _ H E1).
    + right. injection E as <- ->. destruct (awaits_run s st l [] bytes) as (s1 & H1 & E1); [by rewrite app_nil_r|lia|].
      destruct (awaits_final s1 st f _ y H1 Hb Hf) as [E2 Hv]. specialize (E1 (f :: y)). rewrite E2, <- Ek in E1.
      exists y, (endSgrQuarantine s1), (S (length (buffer s) + length (pasteBuffer s) + length (c :: str))). split; [done|]. split; [done|]. split; [|destruct y as [|z y]].
      * apply (f_equal length) in Ek. rewrite length_app in Ek. cbn in *. lia.
      * by apply (feed_awaits _ _ _ _ _ _ _ _ _ H).
      * by apply (feed_after_report _ _ s st l bytes c str z y _ st H E1).
  - left. destruct (awaits_run s st (c :: str) k bytes) as (s1 & H1 & E1); [done|rewrite length_app in Hb; lia|].
    exists (c :: str), k. split; [done|]. split; [done|].
    specialize (E1 []). rewrite app_nil_r in E1. cbn in E1. by rewrite (feed_awaits _ _ _ _ _ _ _ _ _ H E1).
Qed.

Lemma fold_report gs chunks s st l f bytes :
  Forall segment_ok gs -> Forall (fun c => c <> []) chunks -> awaits s st l bytes ->
  bytes + Z.of_nat (length l) < SGR_QUARANTINE_MAX_BYTES -> is_final f = true -> concat chunks = l ++ f :: render gs ->
  view_of (foldl process_string s chunks) = plain [] false [] (delivered st gs).
Proof.
  intros Hok Hne. revert s l bytes. induction Hne as [|c chunks Hc Hne IH]; intros s l bytes H Hb Hf E; cbn [foldl concat] in *; [by destruct l|].
  destruct c as [|c str]; [done|]. symmetry in E.
  destruct (process_report s st c str l f _ _ bytes H Hb Hf E) as [(l1 & l2 & -> & Er & H1)|(y & s' & fuel & Ey & Hv & Hfuel & ->)].
  - apply (IH _ l2 (bytes + Z.of_nat (length l1))); [done| |done|done]. rewrite length_app in Hb. lia.
  - assert (H0 : holds s' gs (y ++ concat chunks) st) by (eapply holds_idle; [done|done|by left]).
    destruct y as [|z y]; [by apply fold_segments|].
    destruct (feed_segments fuel false s' (z :: y) gs _ st H0 Hok) as (gs1 & gs2 & -> & H1); [done| |].
    + apply view_fields in Hv as (-> & _ & -> & _). exact Hfuel.
    + apply Forall_app in Hok as [_ Hok]. rewrite (fold_segments gs2 _ _ _ Hok Hne H1). unfold delivered. by rewrite foldl_app.
Qed.

(** The timer of an unfinished report starts to wait for its rest. *)
Lemma timer_awaits s t l1 l2 st :
  view_of s = plain ([ESC; 91; 60] ++ l1) false [] st -> report_body (l1 ++ l2) ->
  List.find (fun p => bool_decide (p.1 = t)) (timers s) = Some (t, T_flush) ->
  awaits (timer_fires s t) (None, st.2) l2 (Z.of_nat (length l1)).
Proof.
  intros E Hl Ht. unfold timer_fires. rewrite Ht. apply view_fields in E as Hf. destruct Hf as (Eb & Ep & Eq & _).
  assert (Hm : isSgrMousePrefix (buffer s) = true) by (by rewrite Eb).
  cbn [buffer with_timers]. rewrite Hm. unfold beginSgrQuarantine. cbn [buffer with_timers]. rewrite Eb. change (drop 3 ([ESC; 91; 60] ++ l1)) with l1.
  apply report_body_split in Hl as (n & d & H1 & H2). rewrite H1. exists n, d. split; [|done].
  apply (f_equal v_lead) in E as El. apply (f_equal v_shown) in E. cbn in El, E. unfold view_of. cbn. rewrite Ep, Eq, El, app_nil_r.
  by rewrite <- E.
Qed.

(** When the timer fires inside a mouse report, the rest of the report brings
    no key, however it is cut and however late it comes; the input after it
    is read as if there had been none. *)
Theorem late_report_swallowed s t l1 l2 f gs chunks st :
  view_of s = plain ([ESC; 91; 60] ++ l1) false [] st ->
  List.find (fun p => bool_decide (p.1 = t)) (timers s) = Some (t, T_flush) ->
  report_body (l1 ++ l2) -> is_final f = true -> Z.of_nat (length (l1 ++ l2)) < SGR_QUARANTINE_MAX_BYTES ->
  Forall segment_ok gs -> Forall (fun c => c <> []) chunks -> concat chunks = l2 ++ f :: render gs ->
  view_of (foldl process_string (timer_fires s t) chunks) = plain [] false [] (delivered (None, st.2) gs).
Proof.
  intros E Ht Hl Hf Hb Hok Hne Hc. rewrite length_app in Hb.
  apply (fold_report gs chunks _ _ l2 f (Z.of_nat (length l1))); [done|done|by apply timer_awaits|lia|done|done].
Qed.

(** *** Any input *)

(** Nothing but [feed] itself changes the text that is held. *)
Definition text_of (s : stdin) : text * text := (buffer s, pasteBuffer s).

Lemma text_emit s q : text_of (emitDataSequence s q) = text_of s.
Proof. unfold emitDataSequence. by destruct (singleCodePoint q); [destruct (decide _)|]. Qed.

Lemma text_start s : text_of (emit_pending_meta (stop_timer s)) = text_of s.
Proof.
  assert (H : text_of (stop_timer s) = text_of s) by (by unfold stop_timer, clear_timer; destruct (q_active _), (handle s)).
  rewrite <- H. unfold emit_pending_meta, consumePendingSingleUtf8LeadAsMeta.
  destruct (pendingSingleUtf8LeadByte _); [by rewrite text_emit|done].
Qed.

Lemma resume_length l : (length (resume l) <= length l)%nat.
Proof. induction l as [|c l IH]; [done|]. cbn [resume]. destruct (_ || _); [cbn; lia|]. destruct (is_final c); cbn; lia. Qed.

Lemma consume_text s data :
  text_of (consumeSgrQuarantine s data).2 = text_of s /\ (length (consumeSgrQuarantine s data).1 <= length data)%nat.
Proof.
  assert (Hend : forall s, text_of (endSgrQuarantine s) = text_of s) by (intros; unfold endSgrQuarantine, clear_timer; by destruct (handle _)).
  revert s. induction data as [|c data IH]; intros s; [done|]. cbn [consumeSgrQuarantine]. destruct (decide _).
  { split; [apply Hend|apply resume_length]. }
  destruct (is_digit c); [destruct (IH (with_sgr s {| q_active := q_active (sgr s); q_bytes := q_bytes (sgr s) + 1; q_semicolons := q_semicolons (sgr s); q_hasDigit := true |})) as [H1 H2]; split; [exact H1|cbn; lia]|].
  destruct (_ && _ && _); [destruct (IH (with_sgr s {| q_active := q_active (sgr s); q_bytes := q_bytes (sgr s) + 1; q_semicolons := q_semicolons (sgr s) + 1; q_hasDigit := false |})) as [H1 H2]; split; [exact H1|cbn; lia]|].
  destruct (_ && _ && _); cbn [fst snd]; (split; [apply Hend|cbn; lia]).
Qed.

Lemma after_paste_fuel f1 f2 s :
  (forall s' x, text_of s' = (buffer s, []) -> (length x + 6 <= length (pasteBuffer s))%nat -> feed f1 false s' x = feed f2 false s' x) ->
  after_paste f1 s = after_paste f2 s.
Proof.
  intros H. unfold after_paste, end_paste. destruct (index_of _ _) as [n|] eqn:E; [|done].
  apply index_of_Some in E as [Hn Hs]. apply begins_spec in Hs as [r Hr].
  apply (f_equal length) in Hr as Hl. rewrite length_drop, length_app in Hl. cbn in Hl.
  destruct (drop (n + length BRACKETED_PASTE_END) (pasteBuffer s)) as [|z x] eqn:Ed; [done|].
  apply H; [by rewrite text_start|]. rewrite <- Ed, length_drop. cbn. lia.
Qed.

Lemma join_text_ext after1 after2 (s : stdin) str :
  (forall s', buffer s' = [] -> (length (pasteBuffer s') <= length (buffer s) + length (pasteBuffer s) + length str)%nat ->
    after1 s' = after2 s') ->
  join_text after1 s str = join_text after2 s str.
Proof.
  intros H. unfold join_text. destruct (pasteMode _); [apply H; [done|]; cbn; rewrite !length_app; lia|].
  destruct (index_of _ _) as [n|]; [|done]. apply H; [done|]. cbn. rewrite length_drop, length_app. lia.
Qed.

Lemma process_text_ext after1 after2 from (s : stdin) str :
  (forall s', buffer s' = [] -> (length (pasteBuffer s') <= length (buffer s) + length (pasteBuffer s) + length str)%nat ->
    after1 s' = after2 s') ->
  process_text after1 from s str = process_text after2 from s str.
Proof.
  intros H. destruct (consume_text s str) as [Ht Hl]. injection Ht as Ht1 Ht2.
  assert (Hrest : (if q_active (sgr s) then let '(str, s) := consumeSgrQuarantine s str in
                     match str with [] => s | _ => join_text after1 s str end else join_text after1 s str) =
                  (if q_active (sgr s) then let '(str, s) := consumeSgrQuarantine s str in
                     match str with [] => s | _ => join_text after2 s str end else join_text after2 s str)).
  { destruct (q_active (sgr s)); [|by apply join_text_ext]. destruct (consumeSgrQuarantine s str) as [[|c str'] s']; [done|].
    cbn [fst snd] in *. apply join_text_ext. intros s2 Hb Hs. apply H; [done|]. rewrite <- Ht1, <- Ht2. lia. }
  unfold process_text. by destruct str, (buffer s).
Qed.

(** More fuel than the text that is held and the text that comes changes
    nothing: every call of [process] returns. *)
Theorem feed_total f1 f2 from s str :
  (length (buffer s) + length (pasteBuffer s) + length str < f1)%nat -> (length (buffer s) + length (pasteBuffer s) + length str < f2)%nat ->
  feed f1 from s str = feed f2 from s str.
Proof.
  revert f2 from s str. induction f1 as [|f1 IH]; intros f2 from s str H1 H2; [lia|]. destruct f2 as [|f2]; [lia|].
  assert (Hafter : forall s', buffer s' = [] -> (length (pasteBuffer s') <= length (buffer s) + length (pasteBuffer s) + length str)%nat ->
            after_paste f1 s' = after_paste f2 s').
  { intros s' Hb Hl. apply after_paste_fuel. intros s2 x [= E1 E2] Hx. apply IH; rewrite E1, E2, Hb; cbn; lia. }
  exact (process_text_ext _ _ from s str Hafter).
Qed.
End runs.

(** ** Runs *)

(** A decoder of ASCII, for the concrete runs. *)
Definition ascii_write (d : unit) (bytes : list Z) : text * unit := (bytes, d).
Definition fresh := new_stdin tt.

(** A mouse report, a pasted text with an arrow key in it, and an emoji. *)
Definition some_input : list segment :=
  [Key [27; 91; 60; 48; 59; 51; 59; 52; 77]; Paste [104; 105; 27; 91; 65; 10]; Key [55357; 56832]; Key [27; 91; 65]].


(** [ESC [ <35;2] is there when the timer fires; [0;5m] and a key follow. *)
Lemma late_report_swallowed_witness :
  view_of (foldl process_string (timer_fires (process_string fresh [27; 91; 60; 51; 53; 59; 50]) 0) [[48; 59]; [53; 109; 120]]) =
  plain [] false [] (None, [E_data [120]]).
Proof.
  refine (late_report_swallowed (process_string fresh [27; 91; 60; 51; 53; 59; 50]) 0 [51; 53; 59; 50] [48; 59; 53] 109
            [Key [120]] [[48; 59]; [53; 109; 120]] (None, []) _ _ _ _ _ _ _ _).
  1-5: by vm_compute.
  - by apply (bool_decide_unpack (Forall segment_ok [Key [120]])).
  - by apply (bool_decide_unpack (Forall (fun c => c <> []) [[48; 59]; [53; 109; 120]])).
  - reflexivity.
Defined.

Lemma feed_total_witness : feed 4 false fresh [97; 98] = feed 9 false fresh [97; 98].
Proof. apply (feed_total 4 9 false fresh [97; 98]); vm_compute; lia. Defined.

(** *** What the buffer does not mean to do *)

(** A malformed mouse report is dropped, but not when a paste follows it in
    the same piece. *)
Example malformed_report_dropped : events (process_string fresh [27; 91; 60; 77]) = [].
Proof. reflexivity. Qed.

Example malformed_report_before_paste :
  events (process_string fresh ([27; 91; 60; 77] ++ BRACKETED_PASTE_START ++ [97] ++ BRACKETED_PASTE_END)) =
  [E_data [27; 91; 60; 77]; E_paste [97]].
Proof. reflexivity. Qed.

(** The escape key and a paste in one piece are two events; cut inside the
    start marker, the paste becomes keys. *)
Example escape_then_paste :
  events (process_string fresh ([27] ++ BRACKETED_PASTE_START ++ [97] ++ BRACKETED_PASTE_END)) = [E_data [27]; E_paste [97]].
Proof. reflexivity. Qed.

Example escape_then_cut_paste :
  events (foldl process_string fresh [[27; 27; 91; 50; 48]; [48; 126; 97] ++ BRACKETED_PASTE_END]) =
  [E_data [27; 27]; E_data [91]; E_data [50]; E_data [48]; E_data [48]; E_data [126]; E_data [97]; E_data BRACKETED_PASTE_END].
Proof. reflexivity. Qed.

(** A meta key that arrives in the quarantine is not emitted when the
    quarantine ends: its timer is cleared, and it waits for more input. *)
Example meta_in_quarantine :
  let s1 := timer_fires (process_string fresh [27; 91; 60; 51]) 0 in
  let s2 := timer_fires (process_bytes ascii_write s1 [225]) 1 in
  (timers s1, timers s2, events s2, pendingSingleUtf8LeadByte s2) = ([(1%nat, T_quarantine)], [], [], Some 225).
Proof. reflexivity. Qed.

