(* ===== verification/HashlineParser.v ===== *)
(** * The hashline language: input and parser
      ([hashline/input.ts], [parser.ts], [hash.ts] and the merging of
      [execute.ts])

    The text a model writes is split into a section per file and each section
    is parsed into edits.  Text is a list of UTF-16 code units, as the sigils
    go beyond Latin-1.  xxHash32 and the path functions of the runtime are
    parameters; [memory] is how many anchors the array of a range may hold
    before the runtime gives up. *)

From S2P Require Import Prelude CodeUnits HashlineBigrams.
From Stdlib Require Import Ascii.

Local Open Scope list_scope.
Local Open Scope Z_scope.
Local Open Scope js_scope.

(** ** Constants ([constants.ts], [hash.ts]) *)

Definition HL_OP_INSERT_BEFORE : Z := 171.
Definition HL_OP_INSERT_AFTER : Z := 187.
Definition HL_OP_REPLACE : Z := 8788.
Definition HL_OP_CHARS : text := [HL_OP_INSERT_BEFORE; HL_OP_INSERT_AFTER; HL_OP_REPLACE].
Definition HL_FILE_PREFIX : Z := 167.
Definition HL_BODY_SEP : Z := 124.
Definition BOM : Z := 65279.
Definition RANGE_INTERIOR_HASH : text := units "**".
Definition BEGIN_PATCH_MARKER : text := units "*** Begin Patch".
Definition END_PATCH_MARKER : text := units "*** End Patch".
Definition ABORT_MARKER : text := units "*** Abort".

(** ** Edits ([types.ts]) *)

Record Anchor := { line : Z; hash : text }.

Inductive HashlineCursor :=
| bof
| eof
| before_anchor (anchor : Anchor)
| after_anchor (anchor : Anchor).

Inductive HashlineEdit :=
| insert_edit (cursor : HashlineCursor) (txt : text) (lineNum index : Z)
| delete_edit (anchor : Anchor) (lineNum index : Z).

#[export] Instance Anchor_eq_dec : EqDecision Anchor.
Proof. solve_decision. Defined.
#[export] Instance HashlineCursor_eq_dec : EqDecision HashlineCursor.
Proof. solve_decision. Defined.
#[export] Instance HashlineEdit_eq_dec : EqDecision HashlineEdit.
Proof. solve_decision. Defined.

(** What a call throws; the texts of the messages are not modelled. *)
Inductive hashline_error :=
| bad_anchor (lineNum : Z) (raw : text)
| bad_range (lineNum : Z)
| range_reversed (lineNum : Z)
| range_two_hashes (lineNum : Z)
| payload_required (lineNum : Z)
| unrecognized_op (lineNum : Z) (line : text)
| orphan_payload (lineNum : Z) (line : text)
| out_of_memory (lineNum : Z)
| empty_header
| missing_header (firstLine : text).

Inductive warning := ABORT_WARNING.

(** ** Numbers *)

(** The nearest double of an integer; 2^1024 stands for [Infinity]. *)
Definition round_double (n : Z) : Z :=
  if decide (n < 2 ^ 53) then n
  else
    let e := Z.log2 n - 52 in
    let q := n / 2 ^ e in
    let r := n mod 2 ^ e in
    let up := bool_decide (2 ^ (e - 1) < r) || (bool_decide (r = 2 ^ (e - 1)) && Z.odd q) in
    Z.min (2 ^ 1024) ((if up then q + 1 else q) * 2 ^ e).

(** [Number.parseInt] of digits. *)
Definition parseInt (d : text) : Z := round_double (digits_value d).

Section language.
Context (xxHash32 : text -> Z) (memory : nat).

(** ** Anchors ([parser.ts]) *)

Definition computeLineHash (idx : Z) (l : text) : text :=
  units (default EmptyString (HL_BIGRAMS !! Z.to_nat (xxHash32 (trimEnd (List.filter (fun c => negb (c =? CR)) l)) mod HL_BIGRAMS_COUNT))).

Definition is_decoration (c : Z) : bool := existsb (Z.eqb c) [62; 43; 45; 42].

(** The end of an anchor: a bar and a body up to a line terminator, then white
    space, or white space alone; [None] when it is something else. *)
Definition body_tail (r : text) : option (option text) :=
  match r with
  | c :: x =>
      if decide (c = HL_BODY_SEP) then
        let '(body, r) := span (fun c => negb (is_terminator c)) x in
        if blank r then Some (Some body) else None
      else if blank r then Some None else None
  | [] => Some None
  end.

(** [LID_CAPTURE_RE] *)
Definition match_lid (raw : text) : option (text * text) :=
  let r := trimStart (span is_decoration (trimStart raw)).2 in
  match r with
  | c :: _ =>
      if bool_decide (49 <= c <= 57) then
        let '(d, r) := digits r in
        match r with
        | a :: b :: r => if is_lower a && is_lower b then match body_tail r with Some _ => Some (d, [a; b]) | None => None end else None
        | _ => None
        end
      else None
  | [] => None
  end.

Definition parseLid (raw : text) (lineNum : Z) : outcome hashline_error Anchor :=
  match match_lid raw with
  | None => Throw (bad_anchor lineNum raw)
  | Some (d, h) => Ok {| line := parseInt d; hash := h |}
  end.

Definition DOTS : text := [46; 46].

(** [split("..")] *)
Fixpoint split_dots (fuel : nat) (s : text) : list text :=
  match fuel with
  | O => [s]
  | S fuel =>
      match index_of DOTS s with
      | None => [s]
      | Some n => take n s :: split_dots fuel (drop (n + 2) s)
      end
  end.

Definition ParsedRange : Type := Anchor * Anchor.

Definition parseRange (raw : text) (lineNum : Z) : outcome hashline_error ParsedRange :=
  match index_of DOTS raw with
  | None => let* start := parseLid raw lineNum in Ok (start, start)
  | Some _ =>
      match split_dots (length raw) raw with
      | [(_ :: _) as startRaw; (_ :: _) as endRaw] =>
          let* start := parseLid startRaw lineNum in
          let* end_ := parseLid endRaw lineNum in
          if decide (line end_ < line start) then Throw (range_reversed lineNum)
          else if decide (line end_ = line start /\ hash end_ <> hash start) then Throw (range_two_hashes lineNum)
          else Ok (start, end_)
      | _ => Throw (bad_range lineNum)
      end
  end.

(** The loop over the lines of a range, as long as there is memory. *)
Fixpoint expand (fuel : nat) (range : ParsedRange) (n : Z) : option (list Anchor) :=
  if decide (n <= line range.2) then
    match fuel with
    | O => None
    | S fuel =>
        let h := if decide (n = line range.1) then hash range.1
                 else if decide (n = line range.2) then hash range.2 else RANGE_INTERIOR_HASH in
        match expand fuel range (round_double (n + 1)) with
        | Some l => Some ({| line := n; hash := h |} :: l)
        | None => None
        end
    end
  else Some [].

Definition expandRange (range : ParsedRange) (lineNum : Z) : outcome hashline_error (list Anchor) :=
  match expand memory range (line range.1) with Some l => Ok l | None => Throw (out_of_memory lineNum) end.

(** [before] tells the two kinds of insertions apart. *)
Definition parseInsertTarget (raw : text) (lineNum : Z) (before : bool) : outcome hashline_error HashlineCursor :=
  if decide (raw = units "BOF") then Ok bof
  else if decide (raw = units "EOF") then Ok eof
  else let* a := parseLid raw lineNum in Ok (if before then before_anchor a else after_anchor a).

Definition resolveInlineInsertBody (cursor : HashlineCursor) (body : option text) : option text :=
  match body with
  | None => None
  | Some b =>
      match cursor with
      | bof | eof => Some b
      | before_anchor a | after_anchor a => if decide (computeLineHash (line a) b = hash a) then None else Some b
      end
  end.

(** [INSERT_BEFORE_OP_RE] and [INSERT_AFTER_OP_RE]: the anchor and the body. *)
Definition match_insert (sigil : Z) (l : text) : option (text * option text) :=
  match l with
  | c :: r =>
      if decide (c = sigil) then
        let '(token, r) := span (fun c => negb (is_white c) && negb (c =? HL_BODY_SEP)) (trimStart r) in
        match token with
        | [] => None
        | _ => match body_tail r with Some body => Some (token, body) | None => None end
        end
      else None
  | [] => None
  end.

(** [REPLACE_OP_RE] *)
Definition match_replace (l : text) : option text :=
  match l with
  | c :: r =>
      if decide (c = HL_OP_REPLACE) then
        match trimStart r with
        | (d :: _) as s =>
            if existsb (Z.eqb d) [43; 60; 45; 61] then None
            else let '(token, r) := span (fun c => negb (is_white c)) s in if blank r then Some token else None
        | [] => None
        end
      else None
  | [] => None
  end.

(** ** Payload *)

Definition isEnvelopeOrAbortMarkerLine (l : text) : bool :=
  let trimmed := trimEnd l in
  bool_decide (trimmed = BEGIN_PATCH_MARKER) || bool_decide (trimmed = END_PATCH_MARKER) || bool_decide (trimmed = ABORT_MARKER).

Definition isPayloadTerminatorLine (l : text) : bool :=
  match l with c :: _ => (c =? HL_FILE_PREFIX) || existsb (Z.eqb c) HL_OP_CHARS | [] => false end ||
  isEnvelopeOrAbortMarkerLine l.

(** The lines up to a terminator, and the rest. *)
Fixpoint payload_lines (ls : list text) : list text * list text :=
  match ls with
  | l :: ls' => if isPayloadTerminatorLine l then ([], ls) else let '(p, r) := payload_lines ls' in (l :: p, r)
  | [] => ([], [])
  end.

Definition collectPayload (ls : list text) (opLineNum : Z) (requirePayload : bool) : outcome hashline_error (list text * list text) :=
  let '(payload, rest) := payload_lines ls in
  match payload with
  | [] => if requirePayload then Throw (payload_required opLineNum) else Ok ([], rest)
  | _ => Ok (payload, rest)
  end.

(** ** The loop over the lines *)

Definition count (ls : list text) : Z := Z.of_nat (length ls).

(** Edits numbered from [index] on. *)
Definition inserts (cursor : HashlineCursor) (payload : list text) (lineNum index : Z) : list HashlineEdit :=
  imap (fun i t => insert_edit cursor t lineNum (index + Z.of_nat i)) payload.

Definition deletes (anchors : list Anchor) (lineNum index : Z) : list HashlineEdit :=
  imap (fun i a => delete_edit a lineNum (index + Z.of_nat i)) anchors.

(** One insertion: its edits and the lines after it. *)
Definition parse_insert (before : bool) (m : text * option text) (ls : list text) (lineNum index : Z)
    : outcome hashline_error (list HashlineEdit * list text) :=
  let* cursor := parseInsertTarget m.1 lineNum before in
  let inlineBody := resolveInlineInsertBody cursor m.2 in
  let* (payload, rest) := collectPayload ls lineNum (match inlineBody with None => true | _ => false end) in
  Ok (inserts cursor (option_list inlineBody ++ payload) lineNum index, rest).

(** One replacement. *)
Definition parse_replace (raw : text) (ls : list text) (lineNum index : Z) : outcome hashline_error (list HashlineEdit * list text) :=
  let* range := parseRange raw lineNum in
  let* (payload, rest) := collectPayload ls lineNum false in
  let* anchors := expandRange range lineNum in
  let es := inserts (before_anchor range.1) payload lineNum index in
  Ok (es ++ deletes anchors lineNum (index + Z.of_nat (length es)), rest).

Definition looks_like_op (l : text) : bool :=
  isPayloadTerminatorLine l || match l with c :: _ => existsb (Z.eqb c) [45; 64; 182] | [] => false end.

Fixpoint parse_lines (fuel : nat) (ls : list text) (lineNum index : Z) : outcome hashline_error (list HashlineEdit * list warning) :=
  match fuel, ls with
  | S fuel, l :: rest =>
      let op m :=
        let* (es, rest') := m in
        let* (es', ws) := parse_lines fuel rest' (lineNum + count rest - count rest' + 1) (index + Z.of_nat (length es)) in
        Ok (es ++ es', ws) in
      if blank l then parse_lines fuel rest (lineNum + 1) index
      else if decide (l = END_PATCH_MARKER) then Ok ([], [])
      else if decide (l = ABORT_MARKER) then Ok ([], [ABORT_WARNING])
      else if decide (l = BEGIN_PATCH_MARKER) then parse_lines fuel rest (lineNum + 1) index
      else
        match match_insert HL_OP_INSERT_BEFORE l with
        | Some m => op (parse_insert true m rest lineNum index)
        | None =>
            match match_insert HL_OP_INSERT_AFTER l with
            | Some m => op (parse_insert false m rest lineNum index)
            | None =>
                match match_replace l with
                | Some raw => op (parse_replace raw rest lineNum index)
                | None => Throw (if looks_like_op l then unrecognized_op lineNum l else orphan_payload lineNum l)
                end
            end
        end
  | _, _ => Ok ([], [])
  end.

(** The lines of a diff; a last line break ends a line. *)
Definition diff_lines (diff : text) : list text :=
  let ls := split_eol diff in
  if ends_with diff [LF] && bool_decide (List.last ls [] = []) then removelast ls else ls.

Definition parseHashlineWithWarnings (diff : text) : outcome hashline_error (list HashlineEdit * list warning) :=
  let ls := diff_lines diff in parse_lines (length ls) ls 1 0.

Definition parseHashline (diff : text) : outcome hashline_error (list HashlineEdit) :=
  let* (edits, _) := parseHashlineWithWarnings diff in Ok edits.

(** ** Sections ([input.ts]) *)

Context (isAbsolute : text -> bool) (resolve : text -> text) (relative : text -> text -> text).

Record HashlineInputSection := { path : text; diff : text }.
Record SplitHashlineOptions := { cwd : option text; fallback : option text }.

Definition unquoteHashlinePath (pathText : text) : text :=
  match pathText with
  | first :: _ :: _ =>
      let last := List.last pathText 0 in
      if bool_decide (first = 34 \/ first = 39) && bool_decide (first = last) then removelast (drop 1 pathText) else pathText
  | _ => pathText
  end.

Definition normalizeHashlinePath (rawPath : text) (cwd : option text) : text :=
  let unquoted := unquoteHashlinePath (trim rawPath) in
  match cwd with
  | Some ((_ :: _) as cwd) =>
      if isAbsolute unquoted then
        let rel := relative (resolve cwd) (resolve unquoted) in
        let isWithinCwd := bool_decide (rel = []) || (negb (starts_with [46; 46] rel) && negb (isAbsolute rel)) in
        if isWithinCwd then match rel with [] => [46] | _ => rel end else unquoted
      else unquoted
  | _ => unquoted
  end.

(** [null] when the line is no header. *)
Definition parseHashlineHeaderLine (l : text) (cwd : option text) : outcome hashline_error (option text) :=
  let trimmed := trimEnd l in
  if starts_with [HL_FILE_PREFIX] trimmed then
    let rest := (span (fun c => c =? HL_FILE_PREFIX) trimmed).2 in
    if blank rest then Throw empty_header
    else match normalizeHashlinePath rest cwd with [] => Throw empty_header | p => Ok (Some p) end
  else Ok None.

Definition isPatchEnvelopeMarker (l : text) : bool :=
  let trimmed := trimEnd l in bool_decide (trimmed = BEGIN_PATCH_MARKER) || bool_decide (trimmed = END_PATCH_MARKER).

Definition strip_bom (input : text) : text := match input with c :: r => if decide (c = BOM) then r else input | [] => [] end.

Fixpoint drop_leading (ls : list text) : list text :=
  match ls with
  | l :: ls' =>
      let head := chop_cr l in
      if blank head || bool_decide (trimEnd head = BEGIN_PATCH_MARKER) then drop_leading ls' else ls
  | [] => []
  end.

Definition stripLeadingBlankLines (input : text) : text := join_lf (drop_leading (split_lf (strip_bom input))).

Definition containsRecognizableHashlineOperations (input : text) : bool :=
  existsb (fun l => match l with c :: _ => existsb (Z.eqb c) HL_OP_CHARS | [] => false end) (split_eol input).

(** [some], which may throw. *)
Fixpoint some_header (ls : list text) (cwd : option text) : outcome hashline_error bool :=
  match ls with
  | [] => Ok false
  | l :: ls => let* h := parseHashlineHeaderLine l cwd in match h with Some _ => Ok true | None => some_header ls cwd end
  end.

Definition normalizeFallbackInput (input : text) (options : SplitHashlineOptions) : outcome hashline_error text :=
  let* hasExplicitHeader := some_header (split_eol (strip_bom input)) (cwd options) in
  if hasExplicitHeader : bool then Ok input
  else
    match fallback options with
    | Some ((_ :: _) as p) =>
        if containsRecognizableHashlineOperations input then
          match normalizeHashlinePath p (cwd options) with
          | [] => Ok input
          | fallbackPath => Ok (HL_FILE_PREFIX :: fallbackPath ++ LF :: input)
          end
        else Ok input
    | _ => Ok input
    end.

(** The section so far, when it has a path and lines that are not blank. *)
Definition flush (currentPath : text) (currentLines : list text) : list HashlineInputSection :=
  match currentPath with
  | [] => []
  | _ => if existsb (fun l => negb (blank l)) currentLines then [{| path := currentPath; diff := join_lf currentLines |}] else []
  end.

Fixpoint section_loop (ls : list text) (cwd : option text) (currentPath : text) (currentLines : list text)
    : outcome hashline_error (list HashlineInputSection) :=
  match ls with
  | [] => Ok (flush currentPath currentLines)
  | l :: ls =>
      if bool_decide (trimEnd l = END_PATCH_MARKER) || bool_decide (trimEnd l = ABORT_MARKER) then Ok (flush currentPath currentLines)
      else if isPatchEnvelopeMarker l then section_loop ls cwd currentPath currentLines
      else
        let* header := parseHashlineHeaderLine l cwd in
        match header with
        | Some p => let* sections := section_loop ls cwd p [] in Ok (flush currentPath currentLines ++ sections)
        | None => section_loop ls cwd currentPath (currentLines ++ [l])
        end
  end.

Definition splitHashlineInputs (input : text) (options : SplitHashlineOptions) : outcome hashline_error (list HashlineInputSection) :=
  let* normalized := normalizeFallbackInput input options in
  let ls := split_eol (stripLeadingBlankLines normalized) in
  let firstLine := default [] (head ls) in
  let* first := parseHashlineHeaderLine firstLine (cwd options) in
  match first with
  | None => Throw (missing_header firstLine)
  | Some _ => section_loop ls (cwd options) [] []
  end.

Definition splitHashlineInput (input : text) (options : SplitHashlineOptions) : outcome hashline_error (option HashlineInputSection) :=
  let* sections := splitHashlineInputs input options in Ok (head sections).

(** ** Merging ([execute.ts]) *)

Fixpoint add_diff (byPath : list (text * list text)) (s : HashlineInputSection) : list (text * list text) :=
  match byPath with
  | [] => [(path s, [diff s])]
  | (p, ds) :: r => if decide (p = path s) then (p, ds ++ [diff s]) :: r else (p, ds) :: add_diff r s
  end.

Definition mergeSamePathSections (sections : list HashlineInputSection) : list HashlineInputSection :=
  (fun e => {| path := e.1; diff := join_lf e.2 |}) <$> foldl add_diff [] sections.
End language.
