(* ===== verification/HashlineScript.v ===== *)
(** * Hashline scripts ([hashline/parser.ts], [input.ts])

    The syntax of the edit language as data, its printer, and what the parser
    of [HashlineParser.v] makes of printed scripts and of any text. *)

From S2P Require Import Prelude CodeUnits HashlineParser.

Local Open Scope list_scope.
Local Open Scope Z_scope.

(** ** Syntax *)

Inductive target := T_bof | T_eof | T_anchor (a : Anchor).

Inductive op :=
| Insert (before : bool) (t : target) (payload : list text)
| Replace (a b : Anchor) (payload : list text).

Definition print_anchor (a : Anchor) : text := decimal (line a) ++ hash a.

Definition print_target (t : target) : text :=
  match t with T_bof => units "BOF" | T_eof => units "EOF" | T_anchor a => print_anchor a end.

Definition op_line (o : op) : text :=
  match o with
  | Insert before t _ => (if before then HL_OP_INSERT_BEFORE else HL_OP_INSERT_AFTER) :: print_target t
  | Replace a b _ => HL_OP_REPLACE :: print_anchor a ++ DOTS ++ print_anchor b
  end.

Definition payload_of (o : op) : list text := match o with Insert _ _ p | Replace _ _ p => p end.

Definition op_lines (o : op) : list text := op_line o :: payload_of o.

Definition script_lines (ops : list op) : list text := ops ≫= op_lines.

(** A line break after every line. *)
Definition terminated (ls : list text) : text := concat ((fun l => l ++ [LF]) <$> ls).

(** ** Meaning *)

Definition cursor_of (before : bool) (t : target) : HashlineCursor :=
  match t with T_bof => bof | T_eof => eof | T_anchor a => if before then before_anchor a else after_anchor a end.

(** The anchors of the lines from [a] to [b]. *)
Definition range_anchors (a b : Anchor) : list Anchor :=
  if decide (line a = line b) then [a]
  else a :: ((fun n => {| line := n; hash := RANGE_INTERIOR_HASH |}) <$> seqZ (line a + 1) (line b - line a - 1)) ++ [b].

Definition op_edits (o : op) (lineNum index : Z) : list HashlineEdit :=
  match o with
  | Insert before t p => inserts (cursor_of before t) p lineNum index
  | Replace a b p => inserts (before_anchor a) p lineNum index ++ deletes (range_anchors a b) lineNum (index + count p)
  end.

Fixpoint script_edits (ops : list op) (lineNum index : Z) : list HashlineEdit :=
  match ops with
  | [] => []
  | o :: ops =>
      let es := op_edits o lineNum index in
      es ++ script_edits ops (lineNum + count (op_lines o)) (index + Z.of_nat (length es))
  end.

(** ** Well-formed scripts *)

Definition anchor_ok (a : Anchor) : Prop :=
  1 <= line a < 2 ^ 53 /\ length (hash a) = 2%nat /\ Forall (fun c => is_lower c = true) (hash a).

(** A line of payload: no line break in it, and no operation or marker. *)
Definition payload_ok (p : list text) : Prop := Forall (fun l => line_ok l /\ isPayloadTerminatorLine l = false) p.

Definition target_ok (t : target) : Prop := match t with T_anchor a => anchor_ok a | _ => True end.

Definition op_ok (memory : nat) (o : op) : Prop :=
  payload_ok (payload_of o) /\
  match o with
  | Insert _ t p => target_ok t /\ p <> []
  | Replace a b _ =>
      anchor_ok a /\ anchor_ok b /\ line a <= line b /\ (line a = line b -> hash a = hash b) /\
      line b - line a < Z.of_nat memory
  end.

#[export] Instance anchor_ok_dec a : Decision (anchor_ok a).
Proof. unfold anchor_ok. apply _. Defined.
#[export] Instance op_ok_dec memory o : Decision (op_ok memory o).
Proof. unfold op_ok, payload_ok. destruct o as [before [| |a] p|a b p]; cbn; apply _. Defined.

(** ** Anchors *)

(** The characters of an anchor. *)
Definition anchor_char (c : Z) : bool := is_digit c || is_lower c.

Lemma anchor_char_bounds c : anchor_char c = true -> 48 <= c <= 57 \/ 97 <= c <= 122.
Proof. unfold anchor_char, is_digit, is_lower. rewrite orb_true_iff, !bool_decide_eq_true. lia. Qed.

Lemma anchor_char_class c : anchor_char c = true -> is_white c = false /\ is_decoration c = false /\ (c =? HL_BODY_SEP) = false /\ c <> 46.
Proof.
  intros H. apply anchor_char_bounds in H. unfold is_white, is_decoration, HL_BODY_SEP. cbn [existsb].
  rewrite !bool_decide_eq_false_2 by lia. cbn [orb]. rewrite !orb_false_iff, !Z.eqb_neq. repeat split; lia.
Qed.

Lemma digit_char_class c : is_digit c = true -> anchor_char c = true.
Proof. unfold anchor_char. by intros ->. Qed.

Lemma print_anchor_chars a : anchor_ok a -> Forall (fun c => anchor_char c = true) (print_anchor a).
Proof.
  intros (Hl & _ & Hh). apply Forall_app. split.
  - eapply Forall_impl; [apply decimal_digits; lia|]. exact digit_char_class.
  - eapply Forall_impl; [exact Hh|]. intros c. unfold anchor_char. intros ->. apply orb_true_r.
Qed.

Lemma print_anchor_cons a : anchor_ok a -> exists c r, print_anchor a = c :: r /\ 49 <= c <= 57.
Proof.
  intros (Hl & _). destruct (decimal_head (line a)) as (c & d & E & Hc); [lia|]. exists c, (d ++ hash a). unfold print_anchor. by rewrite E.
Qed.

Lemma trimStart_dark c r : is_white c = false -> trimStart (c :: r) = c :: r.
Proof. intros H. unfold trimStart. cbn. by rewrite H. Qed.

Lemma round_double_small n : n <= 2 ^ 53 -> round_double n = n.
Proof.
  intros H. destruct (decide (n = 2 ^ 53)) as [->|]; [by vm_compute|]. unfold round_double. by rewrite decide_True by lia.
Qed.

Lemma parse_print_anchor a lineNum : anchor_ok a -> parseLid (print_anchor a) lineNum = Ok a.
Proof.
  intros Ha. pose proof (print_anchor_cons a Ha) as (c & r & E & Hc). pose proof Ha as (Hl & Hlen & Hh).
  assert (Hcc : anchor_char c = true) by (unfold anchor_char, is_digit; rewrite bool_decide_eq_true_2 by lia; done).
  apply anchor_char_class in Hcc as (Hw & Hd & _).
  assert (Hm : match_lid (print_anchor a) = Some (decimal (line a), hash a)).
  { unfold match_lid. rewrite E, (trimStart_dark c r Hw). cbn [span]. rewrite Hd. cbn [snd]. rewrite (trimStart_dark c r Hw).
    rewrite bool_decide_eq_true_2 by lia. rewrite <- E. unfold print_anchor, digits.
    destruct (hash a) as [|x [|y [|z h]]] eqn:Eh; try done. inversion_clear Hh as [|? ? Hx Hh']. inversion_clear Hh' as [|? ? Hy _].
    rewrite (span_app is_digit (decimal (line a)) [x; y]).
    - by rewrite Hx, Hy.
    - apply decimal_digits. lia.
    - unfold is_lower in Hx. apply bool_decide_eq_true in Hx. apply bool_decide_eq_false. lia. }
  unfold parseLid. rewrite Hm. unfold parseInt. rewrite decimal_value, round_double_small by lia. by destruct a.
Qed.

(** ** Ranges *)

Lemma dots_absent s x : Forall (fun c => c <> 46) s -> index_of DOTS (s ++ x) = Nat.add (length s) <$> index_of DOTS x.
Proof.
  induction 1 as [|c s Hc _ IH]; [cbn; by destruct (index_of DOTS x)|]. cbn [app index_of]. unfold DOTS at 1. cbn [starts_with].
  rewrite bool_decide_eq_false_2 by done. cbn [andb]. rewrite IH. by destruct (index_of DOTS x).
Qed.

Lemma print_anchor_no_dots a : anchor_ok a -> Forall (fun c => c <> 46) (print_anchor a).
Proof. intros Ha. eapply Forall_impl; [by apply print_anchor_chars|]. by intros c (_ & _ & _ & Hc)%anchor_char_class. Qed.

Lemma split_print_range a b n :
  anchor_ok a -> anchor_ok b -> (1 <= n)%nat -> split_dots n (print_anchor a ++ DOTS ++ print_anchor b) = [print_anchor a; print_anchor b].
Proof.
  intros Ha Hb Hn. destruct n as [|n]; [lia|]. cbn [split_dots]. rewrite dots_absent by by apply print_anchor_no_dots.
  change (index_of DOTS (DOTS ++ print_anchor b)) with (Some O). cbn [fmap option_fmap option_map]. rewrite Nat.add_0_r, take_app_length.
  replace (length (print_anchor a) + 2)%nat with (length (print_anchor a ++ DOTS)) by (rewrite length_app; done).
  rewrite app_assoc, drop_app_length. f_equal. destruct n as [|n]; [done|]. cbn [split_dots].
  pose proof (dots_absent (print_anchor b) [] (print_anchor_no_dots b Hb)) as E. rewrite app_nil_r in E. by rewrite E.
Qed.

Lemma parse_print_range a b lineNum :
  anchor_ok a -> anchor_ok b -> line a <= line b -> (line a = line b -> hash a = hash b) ->
  parseRange (print_anchor a ++ DOTS ++ print_anchor b) lineNum = Ok (a, b).
Proof.
  intros Ha Hb Hle Heq. unfold parseRange. rewrite dots_absent by by apply print_anchor_no_dots.
  change (index_of DOTS (DOTS ++ print_anchor b)) with (Some O). cbn [fmap option_fmap option_map].
  rewrite split_print_range by (done || rewrite !length_app; cbn; lia).
  pose proof (parse_print_anchor a lineNum Ha) as Ea. pose proof (parse_print_anchor b lineNum Hb) as Eb.
  destruct (print_anchor_cons a Ha) as (ca & ra & Eca & _), (print_anchor_cons b Hb) as (cb & rb & Ecb & _).
  rewrite Eca, Ecb in *. rewrite Ea, Eb. cbn [outcome_bind]. rewrite decide_False by lia.
  rewrite decide_False; [done|]. intros [Hl Hh]. by rewrite Heq in Hh.
Qed.

Lemma expand_from fuel a b n :
  line b < 2 ^ 53 -> line a < n -> line b - n < Z.of_nat fuel -> n <= line b ->
  expand fuel (a, b) n = Some (((fun n => {| line := n; hash := RANGE_INTERIOR_HASH |}) <$> seqZ n (line b - n)) ++ [b]).
Proof.
  intros Hb. revert n. induction fuel as [|fuel IH]; intros n Ha Hf Hn; [lia|]. cbn [expand fst snd].
  rewrite decide_True by done. rewrite (decide_False (P := n = line a)) by lia.
  rewrite round_double_small by lia. destruct (decide (n = line b)) as [->|].
  - rewrite seqZ_nil by lia. destruct fuel; cbn [expand fst snd]; rewrite decide_False by lia; by destruct b.
  - rewrite IH by lia. rewrite (seqZ_cons n) by lia. cbn [fmap list_fmap app]. by replace (Z.pred (line b - n)) with (line b - (n + 1)) by lia.
Qed.

Lemma expandRange_print memory a b lineNum :
  line b < 2 ^ 53 -> line a <= line b -> line b - line a < Z.of_nat memory -> expandRange memory (a, b) lineNum = Ok (range_anchors a b).
Proof.
  intros Hb Hle Hm. unfold expandRange, range_anchors. destruct memory as [|memory]; [lia|]. cbn [expand fst snd].
  rewrite decide_True by done. rewrite (decide_True (P := line a = line a)) by done. rewrite round_double_small by lia.
  destruct (decide (line a = line b)) as [E|].
  - assert (Hx : expand memory (a, b) (line a + 1) = Some []) by (destruct memory; cbn [expand fst snd]; by rewrite decide_False by lia).
    rewrite Hx. by destruct a.
  - rewrite expand_from by lia. replace (line b - (line a + 1)) with (line b - line a - 1) by lia. by destruct a.
Qed.

(** A range that ends beyond the integers that are exact is never expanded:
    the loop over its lines stops at 2^53. *)
Lemma expand_stuck fuel a b n : 2 ^ 53 <= line b -> n <= 2 ^ 53 -> expand fuel (a, b) n = None.
Proof.
  intros Hb. revert n. induction fuel as [|fuel IH]; intros n Hn; cbn [expand fst snd]; rewrite decide_True by lia; [done|].
  rewrite IH; [done|]. destruct (decide (n = 2 ^ 53)) as [->|]; [by vm_compute|]. rewrite round_double_small by lia. lia.
Qed.

(** ** Operations *)

(** A token without white space or bars. *)
Definition token_ok (s : text) : Prop := s <> [] /\ Forall (fun c => is_white c = false /\ (c =? HL_BODY_SEP) = false) s.

Lemma token_trim s : token_ok s -> trimStart s = s.
Proof. intros [Hne H]. destruct s as [|c s]; [done|]. inversion_clear H as [|? ? [Hc _] _]. by apply trimStart_dark. Qed.

Lemma match_insert_token sigil s : token_ok s -> match_insert sigil (sigil :: s) = Some (s, None).
Proof.
  intros Hs. unfold match_insert. rewrite decide_True by done. rewrite token_trim by done. destruct Hs as [Hne H].
  rewrite span_whole; [by destruct s|]. eapply Forall_impl; [exact H|]. intros c [Hc Hb]. by rewrite Hc, Hb.
Qed.

Lemma match_insert_other sigil c s : c <> sigil -> match_insert sigil (c :: s) = None.
Proof. intros H. unfold match_insert. by rewrite decide_False. Qed.

Lemma match_replace_token c s :
  token_ok (c :: s) -> existsb (Z.eqb c) [43; 60; 45; 61] = false -> match_replace (HL_OP_REPLACE :: c :: s) = Some (c :: s).
Proof.
  intros Hs Hc. unfold match_replace. rewrite decide_True by done. rewrite token_trim by done. rewrite Hc. destruct Hs as [_ H].
  rewrite span_whole; [done|]. eapply Forall_impl; [exact H|]. intros d [Hd _]. by rewrite Hd.
Qed.

Lemma print_anchor_token a : anchor_ok a -> token_ok (print_anchor a).
Proof.
  intros Ha. split; [by destruct (print_anchor_cons a Ha) as (c & r & -> & _)|].
  eapply Forall_impl; [by apply print_anchor_chars|]. intros c Hc. by apply anchor_char_class in Hc as (? & _ & ? & _).
Qed.

Lemma token_app s1 s2 : token_ok s1 -> token_ok s2 -> token_ok (s1 ++ s2).
Proof. intros [H1 H1'] [_ H2]. split; [by destruct s1|by apply Forall_app]. Qed.

Lemma print_range_token a b : anchor_ok a -> anchor_ok b -> token_ok (print_anchor a ++ DOTS ++ print_anchor b).
Proof. intros Ha Hb. apply token_app; [by apply print_anchor_token|]. apply token_app; [by repeat constructor|by apply print_anchor_token]. Qed.

Lemma print_target_token t : target_ok t -> token_ok (print_target t).
Proof. destruct t as [| |a]; [by repeat constructor..|]. apply print_anchor_token. Qed.

Lemma print_anchor_not_word a w : anchor_ok a -> (match w with c :: _ => 58 <= c | [] => True end) -> print_anchor a <> w.
Proof. intros Ha Hw E. destruct (print_anchor_cons a Ha) as (c & r & E' & Hc). subst w. rewrite E' in Hw. lia. Qed.

Lemma parse_print_target before t lineNum : target_ok t -> parseInsertTarget (print_target t) lineNum before = Ok (cursor_of before t).
Proof.
  destruct t as [| |a]; [done|done|]. cbn [target_ok print_target cursor_of]. intros Ha. unfold parseInsertTarget.
  rewrite !decide_False by (apply print_anchor_not_word; [done|by vm_compute]). by rewrite parse_print_anchor.
Qed.

(** ** Payload *)

(** Nothing, or lines that begin with one that ends a payload. *)
Definition stops (ls : list text) : Prop := match ls with l :: _ => isPayloadTerminatorLine l = true | [] => True end.

Lemma payload_lines_app p rest : payload_ok p -> stops rest -> payload_lines (p ++ rest) = (p, rest).
Proof.
  induction 1 as [|l p [_ Hl] _ IH]; intros Hr; [destruct rest as [|l rest]; [done|]; cbn in *; by rewrite Hr|].
  cbn. by rewrite Hl, IH.
Qed.

Lemma collect_print p rest lineNum require :
  payload_ok p -> stops rest -> (p <> [] \/ require = false) -> collectPayload (p ++ rest) lineNum require = Ok (p, rest).
Proof. intros Hp Hr Hor. unfold collectPayload. rewrite payload_lines_app by done. by destruct p, Hor as [?| ->]. Qed.

(** ** Scripts *)

Section scripts.
Context (xxHash32 : text -> Z) (memory : nat).

Notation parse_lines := (parse_lines xxHash32 memory).

Lemma op_line_stops o : isPayloadTerminatorLine (op_line o) = true.
Proof. by destruct o as [[] t p|a b p]. Qed.

Lemma op_line_plain o : blank (op_line o) = false /\ op_line o <> END_PATCH_MARKER /\ op_line o <> ABORT_MARKER /\ op_line o <> BEGIN_PATCH_MARKER.
Proof. destruct o as [[] t p|a b p]; (split; [reflexivity|]); split_and!; intros E; vm_compute in E; discriminate. Qed.

Lemma script_stops ops rest : stops rest -> stops (script_lines ops ++ rest).
Proof. destruct ops as [|o ops]; [done|]. intros _. exact (op_line_stops o). Qed.

Lemma length_inserts c p lineNum index : length (inserts c p lineNum index) = length p.
Proof. apply length_imap. Qed.

(** What is parsed after an operation. *)
Definition continue (es : list HashlineEdit) (m : outcome hashline_error (list HashlineEdit * list warning))
    : outcome hashline_error (list HashlineEdit * list warning) :=
  outcome_bind m (fun '(es', ws) => Ok (es ++ es', ws)).

Lemma parse_insert_print before t p rest lineNum index :
  op_ok memory (Insert before t p) -> stops rest ->
  parse_insert xxHash32 before (print_target t, None) (p ++ rest) lineNum index = Ok (op_edits (Insert before t p) lineNum index, rest).
Proof.
  intros (Hp & Ht & Hne) Hr. unfold parse_insert. cbn [fst snd]. rewrite parse_print_target by done. cbn [outcome_bind resolveInlineInsertBody].
  rewrite collect_print by (done || by left). done.
Qed.

Lemma parse_replace_print a b p rest lineNum index :
  op_ok memory (Replace a b p) -> stops rest ->
  parse_replace memory (print_anchor a ++ DOTS ++ print_anchor b) (p ++ rest) lineNum index = Ok (op_edits (Replace a b p) lineNum index, rest).
Proof.
  intros (Hp & Ha & Hb & Hle & Hh & Hm) Hr. unfold parse_replace. rewrite parse_print_range by done. cbn [outcome_bind fst snd].
  rewrite collect_print by (done || by right). cbn [outcome_bind]. rewrite expandRange_print by (done || apply Hb). cbn [outcome_bind].
  by rewrite length_inserts.
Qed.

Lemma parse_op fuel o rest lineNum index :
  op_ok memory o -> stops rest ->
  parse_lines (S fuel) (op_lines o ++ rest) lineNum index =
  continue (op_edits o lineNum index)
    (parse_lines fuel rest (lineNum + count (op_lines o)) (index + Z.of_nat (length (op_edits o lineNum index)))).
Proof.
  intros Ho Hr. destruct (op_line_plain o) as (Hb & He & Ha & Hp). unfold op_lines. cbn [app HashlineParser.parse_lines].
  rewrite Hb. rewrite !decide_False by done.
  assert (Hn : forall ls, lineNum + count (payload_of o ++ ls) - count ls + 1 = lineNum + count (op_line o :: payload_of o)).
  { intros ls. unfold count. cbn [length]. rewrite length_app. lia. }
  destruct o as [before t p|a b p]; cbn [payload_of op_line] in *.
  - pose proof (print_target_token t) as Ht. pose proof Ho as (_ & Hok & _). specialize (Ht Hok).
    pose proof (parse_insert_print before t p rest lineNum index Ho Hr) as Hi.
    destruct before; rewrite match_insert_token by done; [|rewrite (match_insert_other HL_OP_INSERT_BEFORE) by done];
      rewrite Hi; cbn [outcome_bind]; by rewrite Hn.
  - pose proof Ho as (_ & Hoa & Hob & _). rewrite !match_insert_other by done.
    destruct (print_anchor_cons a Hoa) as (c & r & E & Hc). pose proof (print_range_token a b Hoa Hob) as Ht.
    pose proof (parse_replace_print a b p rest lineNum index Ho Hr) as Hi. rewrite E in *. cbn [app] in *.
    rewrite match_replace_token by (done || (cbn [existsb]; rewrite !orb_false_iff, !Z.eqb_neq; repeat split; lia)).
    rewrite Hi. cbn [outcome_bind]. by rewrite Hn.
Qed.

Lemma parse_script fuel ops rest lineNum index :
  Forall (op_ok memory) ops -> stops rest -> (length ops <= fuel)%nat ->
  parse_lines fuel (script_lines ops ++ rest) lineNum index =
  continue (script_edits ops lineNum index)
    (parse_lines (fuel - length ops) rest (lineNum + count (script_lines ops)) (index + Z.of_nat (length (script_edits ops lineNum index)))).
Proof.
  intros H Hr. revert fuel lineNum index. induction H as [|o ops Ho _ IH]; intros fuel lineNum index Hf.
  - cbn [script_lines length script_edits app]. rewrite Nat.sub_0_r, !Z.add_0_r. unfold continue.
    by destruct (parse_lines _ _ _ _) as [[]|].
  - cbn [length] in Hf. destruct fuel as [|fuel]; [lia|]. change (script_lines (o :: ops)) with (op_lines o ++ script_lines ops).
    rewrite <- app_assoc, parse_op by (done || by apply script_stops). rewrite IH by lia. cbn [length script_edits Nat.sub].
    unfold continue, count. rewrite !length_app, !Nat2Z.inj_add, !Z.add_assoc.
    destruct (parse_lines _ _ _ _) as [[es ws]|]; [|done]. cbn [outcome_bind]. by rewrite app_assoc.
Qed.

Lemma script_longer ops : (length ops <= length (script_lines ops))%nat.
Proof. induction ops as [|o ops IH]; [done|]. change (script_lines (o :: ops)) with (op_lines o ++ script_lines ops). rewrite length_app. cbn. lia. Qed.

Lemma terminated_join ls : terminated ls = join_lf (ls ++ [[]]).
Proof.
  induction ls as [|l ls IH]; [done|]. change (terminated (l :: ls)) with ((l ++ [LF]) ++ terminated ls).
  cbn [app]. rewrite join_lf_cons by by destruct ls. by rewrite <- app_assoc, IH.
Qed.

(** A diff is read as its lines: those of a text that ends with a line break,
    and those of one whose last line is not empty. *)
Lemma diff_lines_terminated ls : ls <> [] -> Forall line_ok ls -> diff_lines (terminated ls) = ls.
Proof.
  intros Hne H. unfold diff_lines. rewrite terminated_join. rewrite split_eol_join;
    [|by destruct ls|apply Forall_app; split; [done|by repeat constructor]].
  rewrite join_lf_snoc by done. rewrite ends_with_snoc, last_last. cbn. by rewrite removelast_last.
Qed.

Lemma diff_lines_join ls : List.last ls [] <> [] -> Forall line_ok ls -> diff_lines (join_lf ls) = ls.
Proof.
  intros Hne H. unfold diff_lines. rewrite split_eol_join; [|by destruct ls|done]. rewrite bool_decide_eq_false_2 by done. by rewrite andb_false_r.
Qed.

Lemma token_line c s : is_white c = false -> token_ok s -> line_ok (c :: s).
Proof. intros Hc [_ Hs]. apply line_dark. constructor; [done|]. eapply Forall_impl; [exact Hs|]. by intros d []. Qed.

Lemma script_lines_ok ops : Forall (op_ok memory) ops -> Forall line_ok (script_lines ops).
Proof.
  induction 1 as [|o ops Ho _ IH]; [constructor|]. change (script_lines (o :: ops)) with (op_lines o ++ script_lines ops).
  apply Forall_app. split; [|done]. destruct Ho as [Hp Ho]. constructor; [|eapply Forall_impl; [exact Hp|]; by intros l []].
  destruct o as [before t p|a b p].
  - destruct Ho as [Ht _]. apply token_line; [by destruct before|by apply print_target_token].
  - destruct Ho as (Ha & Hb & _). apply token_line; [done|by apply print_range_token].
Qed.

(** A diff whose lines are those of a printed script is read back: the edits
    it means, numbered in order, with the lines they came from. *)
Lemma parse_printed d ops :
  diff_lines d = script_lines ops -> Forall (op_ok memory) ops -> parseHashlineWithWarnings xxHash32 memory d = Ok (script_edits ops 1 0, []).
Proof.
  intros Hd H. unfold parseHashlineWithWarnings. rewrite Hd.
  pose proof (parse_script (length (script_lines ops)) ops [] 1 0 H I (script_longer ops)) as E. rewrite app_nil_r in E.
  rewrite E. destruct (_ - _)%nat; cbn; by rewrite app_nil_r.
Qed.
End scripts.
