(* ===== verification/HashlineSections.v ===== *)
(** * Sections of a hashline input ([hashline/input.ts], [execute.ts])

    What an input of several sections becomes: a printed input is read back
    section by section, and the sections of a file become one batch. *)

From S2P Require Import Prelude CodeUnits HashlineParser HashlineScript.

Local Open Scope list_scope.
Local Open Scope Z_scope.
Local Open Scope js_scope.

(** ** Merging *)

(** Paths in the order of their first occurrence. *)
Definition first_paths (ps : list text) : list text := foldl (fun acc p => if decide (p ∈ acc) then acc else acc ++ [p]) [] ps.

Definition diffs_of (p : text) (ss : list HashlineInputSection) : list text := diff <$> List.filter (fun s => bool_decide (path s = p)) ss.

Lemma first_paths_snoc ps p : first_paths (ps ++ [p]) = if decide (p ∈ first_paths ps) then first_paths ps else first_paths ps ++ [p].
Proof. unfold first_paths. by rewrite foldl_app. Qed.

Lemma first_paths_elem ps p : p ∈ first_paths ps <-> p ∈ ps.
Proof.
  induction ps as [|x ps IH] using rev_ind; [done|]. rewrite first_paths_snoc. destruct (decide (x ∈ first_paths ps)); set_solver.
Qed.

Lemma first_paths_NoDup ps : NoDup (first_paths ps).
Proof.
  induction ps as [|x ps IH] using rev_ind; [constructor|]. rewrite first_paths_snoc. destruct (decide _); [done|].
  apply NoDup_app. split; [done|]. split; [set_solver|apply NoDup_singleton].
Qed.

Lemma add_diff_absent l s : path s ∉ l.*1 -> add_diff l s = l ++ [(path s, [diff s])].
Proof.
  induction l as [|[p ds] l IH]; intros H; [done|]. cbn. cbn in H. rewrite decide_False by set_solver. rewrite IH; [done|set_solver].
Qed.

Lemma add_diff_map l s (f : text -> list text) :
  NoDup l -> path s ∈ l ->
  add_diff ((fun p => (p, f p)) <$> l) s = (fun p => (p, f p ++ if decide (p = path s) then [diff s] else [])) <$> l.
Proof.
  induction 1 as [|p l Hp Hl IH]; intros H; [by apply not_elem_of_nil in H|]. cbn. destruct (decide (p = path s)) as [->|Hne].
  - f_equal. apply list_fmap_ext. intros i q Hq. rewrite decide_False; [by rewrite app_nil_r|]. intros ->. by apply Hp, list_elem_of_lookup; exists i.
  - rewrite app_nil_r. f_equal. apply IH. set_solver.
Qed.

Lemma diffs_of_absent p ss : p ∉ path <$> ss -> diffs_of p ss = [].
Proof.
  unfold diffs_of. induction ss as [|s ss IH]; intros H; [done|]. cbn in *. apply not_elem_of_cons in H as [H1 H2].
  rewrite bool_decide_eq_false_2 by congruence. by apply IH.
Qed.

(** Merging keeps every section's diff, in order, under its path. *)
Lemma merge_spec ss : foldl add_diff [] ss = (fun p => (p, diffs_of p ss)) <$> first_paths (path <$> ss).
Proof.
  induction ss as [|s ss IH] using rev_ind; [done|]. rewrite foldl_app. cbn [foldl]. rewrite IH, fmap_app. cbn [fmap list_fmap].
  rewrite first_paths_snoc.
  assert (Hd : forall p, diffs_of p (ss ++ [s]) = diffs_of p ss ++ if decide (p = path s) then [diff s] else []).
  { intros p. unfold diffs_of. rewrite List.filter_app, fmap_app. f_equal. cbn. destruct (decide (p = path s)) as [->|].
    - by rewrite bool_decide_eq_true_2.
    - by rewrite bool_decide_eq_false_2. }
  destruct (decide _) as [Hin|Hin].
  - rewrite add_diff_map by (apply first_paths_NoDup || done). apply list_fmap_ext. intros i p _. by rewrite Hd.
  - rewrite add_diff_absent.
    + rewrite fmap_app. cbn. rewrite Hd, decide_True by done. f_equal.
      * apply list_fmap_ext. intros i p Hp. rewrite Hd, decide_False; [by rewrite app_nil_r|]. intros ->. apply Hin, list_elem_of_lookup. by exists i.
      * do 2 f_equal. rewrite diffs_of_absent; [done|]. by rewrite first_paths_elem in Hin.
    + rewrite <- list_fmap_compose. cbn. rewrite list_fmap_id. done.
Qed.

(** ** Printed inputs *)

Definition file_ops : Type := text * list op.

Definition header (p : text) : text := HL_FILE_PREFIX :: p.
Definition input_lines (files : list file_ops) : list text := files ≫= (fun f => header f.1 :: script_lines f.2).
Definition print_input (files : list file_ops) : text := terminated (input_lines files).

Definition ops_of (p : text) (files : list file_ops) : list op := concat (snd <$> List.filter (fun f => bool_decide (f.1 = p)) files).

Section inputs.
Context (xxHash32 : text -> Z) (memory : nat) (isAbsolute : text -> bool) (resolve : text -> text) (relative : text -> text -> text).
Context (cwd : option text).

Notation parse_header := (parseHashlineHeaderLine isAbsolute resolve relative).
Notation section_loop := (section_loop isAbsolute resolve relative).

(** A path that is written as it is used. *)
Definition path_ok (p : text) : Prop :=
  p <> [] /\ line_ok p /\ blank p = false /\ trimEnd (header p) = header p /\ (match p with c :: _ => c <> HL_FILE_PREFIX | [] => True end) /\
  normalizeHashlinePath isAbsolute resolve relative p cwd = p.

(** A section with operations; between two sections a blank line of payload
    at the end of the first is lost. *)
Definition file_ok (f : file_ops) : Prop := path_ok f.1 /\ f.2 <> [] /\ Forall (op_ok memory) f.2.
Definition ends_dark (f : file_ops) : Prop := List.last (script_lines f.2) [] <> [].

Lemma header_read p : path_ok p -> parse_header (header p) cwd = Ok (Some p).
Proof.
  intros (Hne & _ & Hb & Ht & Hc & Hn). unfold parseHashlineHeaderLine. rewrite Ht. unfold header. cbn [starts_with].
  rewrite bool_decide_eq_true_2 by done. cbn [andb span]. rewrite Z.eqb_refl.
  assert (Hs : span (fun c => c =? HL_FILE_PREFIX) p = ([], p)).
  { destruct p as [|c p]; [done|]. cbn. by rewrite (proj2 (Z.eqb_neq c HL_FILE_PREFIX)). }
  rewrite Hs. cbn [snd]. rewrite Hb, Hn. by destruct p.
Qed.

Lemma trimEnd_prefix l : exists r, l = trimEnd l ++ r.
Proof.
  unfold trimEnd, trimStart. pose proof (span_spec is_white (rev l)) as H. destruct (span is_white (rev l)) as [d r]. destruct H as (E & _).
  exists (rev d). cbn [snd]. by rewrite <- rev_app_distr, <- E, rev_involutive.
Qed.

(** Lines that belong to a section. *)
Definition content (l : text) : Prop :=
  (match l with c :: _ => c <> HL_FILE_PREFIX | [] => True end) /\ isEnvelopeOrAbortMarkerLine l = false.

Lemma content_not_header l c : content l -> parse_header l c = Ok None.
Proof.
  intros [H _]. unfold parseHashlineHeaderLine. destruct (starts_with [HL_FILE_PREFIX] (trimEnd l)) eqn:E; [|done].
  apply begins_spec in E as [r E]. destruct (trimEnd_prefix l) as [r' El]. rewrite E in El. by rewrite El in H.
Qed.

Lemma section_content ls rest p lines :
  Forall content ls -> section_loop (ls ++ rest) cwd p lines = section_loop rest cwd p (lines ++ ls).
Proof.
  intros H. revert lines. induction H as [|l ls Hl _ IH]; intros lines; [by rewrite app_nil_r|]. cbn [app HashlineParser.section_loop].
  pose proof Hl as [_ Hm]. unfold isEnvelopeOrAbortMarkerLine in Hm. rewrite !orb_false_iff in Hm. destruct Hm as [[Hb He] Ha].
  unfold isPatchEnvelopeMarker. rewrite Hb, He, Ha. cbn [orb]. rewrite content_not_header by done. cbn [outcome_bind].
  by rewrite IH, <- app_assoc.
Qed.

Lemma trimEnd_dark l : Forall (fun c => is_white c = false) l -> trimEnd l = l.
Proof.
  intros H. unfold trimEnd, trimStart. destruct l as [|x l] using rev_ind; [done|]. apply Forall_app in H as [_ [Hx _]%Forall_cons].
  rewrite rev_app_distr. cbn. rewrite Hx. cbn. by rewrite rev_involutive.
Qed.

Lemma op_line_dark o : op_ok memory o -> Forall (fun c => is_white c = false) (op_line o).
Proof.
  intros [_ Ho].
  assert (Htok : forall s, token_ok s -> Forall (fun c => is_white c = false) s) by (intros s [_ Hs]; eapply Forall_impl; [exact Hs|]; by intros c []).
  destruct o as [before t p|a b p].
  - destruct Ho as [Ht _]. constructor; [by destruct before|]. by apply Htok, print_target_token.
  - destruct Ho as (Ha & Hb & _). constructor; [done|]. by apply Htok, print_range_token.
Qed.

Lemma script_content ops : Forall (op_ok memory) ops -> Forall content (script_lines ops).
Proof.
  induction 1 as [|o ops Ho _ IH]; [constructor|]. change (script_lines (o :: ops)) with (op_lines o ++ script_lines ops).
  apply Forall_app. split; [|done]. pose proof (op_line_dark o Ho) as Hd. constructor.
  - split; [by destruct o as [[] t p|a b p]|]. unfold isEnvelopeOrAbortMarkerLine. rewrite trimEnd_dark by done.
    destruct (op_line_plain o) as (_ & He & Ha & Hb). by rewrite !bool_decide_eq_false_2.
  - destruct Ho as [Hp _]. eapply Forall_impl; [exact Hp|]. intros l [_ Hl]. unfold isPayloadTerminatorLine in Hl.
    apply orb_false_iff in Hl as [Hc Hm]. split; [|done]. destruct l as [|c l]; [done|]. apply orb_false_iff in Hc as [Hc _].
    by apply Z.eqb_neq in Hc.
Qed.

Lemma flush_script p ops ls : p <> [] -> ops <> [] -> flush p (script_lines ops ++ ls) = [{| path := p; diff := join_lf (script_lines ops ++ ls) |}].
Proof.
  intros Hp Ho. destruct p as [|c p]; [done|]. destruct ops as [|o ops]; [done|]. unfold flush.
  change (script_lines (o :: ops)) with (op_lines o ++ script_lines ops). unfold op_lines. cbn [app existsb].
  destruct (op_line_plain o) as [-> _]. done.
Qed.

Fixpoint sections_of (files : list file_ops) : list HashlineInputSection :=
  match files with
  | [] => []
  | [f] => [{| path := f.1; diff := join_lf (script_lines f.2 ++ [[]]) |}]
  | f :: files => {| path := f.1; diff := join_lf (script_lines f.2) |} :: sections_of files
  end.

Lemma section_files files p lines :
  Forall file_ok files ->
  section_loop (input_lines files ++ [[]]) cwd p lines =
  Ok (match files with [] => flush p (lines ++ [[]]) | _ => flush p lines ++ sections_of files end).
Proof.
  intros H. revert p lines. induction H as [|f files (Hp & Hne & Ho) _ IH]; intros p lines.
  - apply (section_content [[]] [] p lines). by repeat constructor.
  - change (input_lines (f :: files)) with ((header f.1 :: script_lines f.2) ++ input_lines files).
    cbn [app HashlineParser.section_loop]. pose proof Hp as (Hpne & _ & _ & Ht & _). unfold isPatchEnvelopeMarker. rewrite Ht.
    rewrite !bool_decide_eq_false_2 by (intros E; vm_compute in E; discriminate). cbn [orb]. rewrite header_read by done. cbn [outcome_bind].
    rewrite <- app_assoc, section_content by by apply script_content. rewrite app_nil_l, IH. cbn [outcome_bind].
    destruct files as [|f' files]; [by rewrite flush_script|]. rewrite <- (app_nil_r (script_lines f.2)) at 1. rewrite flush_script by done.
    by rewrite app_nil_r.
Qed.

Lemma input_lines_ok files : Forall file_ok files -> Forall line_ok (input_lines files).
Proof.
  induction 1 as [|f files (Hp & _ & Ho) _ IH]; [constructor|].
  change (input_lines (f :: files)) with ((header f.1 :: script_lines f.2) ++ input_lines files). apply Forall_app. split; [|done].
  constructor; [|by eapply script_lines_ok]. destruct Hp as (Hne & (Hlf & Hcr) & _). split; [by constructor|].
  unfold header. destruct (f.1) as [|x l] using rev_ind; [done|]. unfold chop_cr in *. cbn [rev]. rewrite rev_app_distr in *. cbn in *.
  destruct (decide (x = CR)) as [->|]; [|done]. exfalso. apply (f_equal length) in Hcr. rewrite rev_involutive, length_app in Hcr. cbn in Hcr. lia.
Qed.

Lemma split_print files opts :
  files <> [] -> Forall file_ok files -> HashlineParser.cwd opts = cwd ->
  splitHashlineInputs isAbsolute resolve relative (print_input files) opts = Ok (sections_of files).
Proof.
  intros Hne Hok Hcwd. unfold splitHashlineInputs, normalizeFallbackInput, print_input.
  assert (Hall : Forall line_ok (input_lines files ++ [[]])) by (apply Forall_app; split; [by apply input_lines_ok|by repeat constructor]).
  assert (Hlines : split_eol (terminated (input_lines files)) = input_lines files ++ [[]]).
  { rewrite terminated_join. apply split_eol_join; [by destruct (input_lines files)|done]. }
  destruct files as [|f files]; [done|]. inversion Hok as [|? ? Hf _ [E1 E2]]. destruct Hf as (Hp & _).
  assert (Hbom : strip_bom (terminated (input_lines (f :: files))) = terminated (input_lines (f :: files))) by done.
  rewrite Hbom, Hlines, Hcwd. pose proof (header_read f.1 Hp) as Hh.
  change (input_lines (f :: files) ++ [[]]) with (header f.1 :: (script_lines f.2 ++ input_lines files) ++ [[]]).
  cbn [some_header]. rewrite Hh. cbn [outcome_bind].
  assert (Hstrip : stripLeadingBlankLines (terminated (input_lines (f :: files))) = terminated (input_lines (f :: files))).
  { unfold stripLeadingBlankLines. rewrite Hbom. rewrite <- (join_split_lf (terminated (input_lines (f :: files)))) at 2. f_equal.
    rewrite terminated_join, split_join_lf; [|done|by apply lines_no_lf]. cbn [drop_leading].
    change (input_lines (f :: files) ++ [[]]) with (header f.1 :: (script_lines f.2 ++ input_lines files) ++ [[]]). cbn [drop_leading].
    inversion Hall as [|? ? [_ Hc] _]. rewrite Hc. destruct Hp as (_ & _ & _ & -> & _).
    rewrite bool_decide_eq_false_2 by (intros E; vm_compute in E; discriminate). done. }
  rewrite Hstrip, Hlines.
  change (default [] (head (input_lines (f :: files) ++ [[]]))) with (header f.1). rewrite Hh. cbn [outcome_bind].
  exact (section_files (f :: files) [] [] Hok).
Qed.

(** *** One batch per file *)

Fixpoint lined (files : list file_ops) : list (text * list text) :=
  match files with
  | [] => []
  | [f] => [(f.1, script_lines f.2 ++ [[]])]
  | f :: files => (f.1, script_lines f.2) :: lined files
  end.

Definition lines_of (p : text) (files : list file_ops) : list (list text) := snd <$> List.filter (fun e => bool_decide (e.1 = p)) (lined files).

Definition final_path (files : list file_ops) : option text := fst <$> last files.

Lemma sections_lined files : sections_of files = (fun e => {| path := e.1; diff := join_lf e.2 |}) <$> lined files.
Proof. induction files as [|f files IH]; [done|]. destruct files; [done|]. cbn in *. by rewrite IH. Qed.

Lemma diffs_lined p files : diffs_of p (sections_of files) = join_lf <$> lines_of p files.
Proof.
  rewrite sections_lined. unfold diffs_of, lines_of. induction (lined files) as [|e l IH]; [done|]. cbn.
  destruct (bool_decide (e.1 = p)); cbn; by rewrite IH.
Qed.

Lemma ops_of_cons p f files : ops_of p (f :: files) = (if decide (f.1 = p) then f.2 else []) ++ ops_of p files.
Proof.
  unfold ops_of. cbn. destruct (decide (f.1 = p)); [by rewrite bool_decide_eq_true_2|by rewrite bool_decide_eq_false_2].
Qed.

Lemma script_lines_app ops1 ops2 : script_lines (ops1 ++ ops2) = script_lines ops1 ++ script_lines ops2.
Proof. apply bind_app. Qed.

Lemma lines_of_cons p f f' files : lines_of p (f :: f' :: files) = (if decide (f.1 = p) then [script_lines f.2] else []) ++ lines_of p (f' :: files).
Proof.
  unfold lines_of. change (lined (f :: f' :: files)) with ((f.1, script_lines f.2) :: lined (f' :: files)). cbn [List.filter fst].
  destruct (decide (f.1 = p)); [by rewrite bool_decide_eq_true_2|by rewrite bool_decide_eq_false_2].
Qed.

Lemma concat_lines_of p files :
  concat (lines_of p files) = script_lines (ops_of p files) ++ (if decide (final_path files = Some p) then [[]] else []).
Proof.
  induction files as [|f files IH]; [by rewrite decide_False|]. rewrite ops_of_cons, script_lines_app. destruct files as [|f' files].
  - unfold lines_of, ops_of. cbn. destruct (decide (f.1 = p)) as [->|Hne].
    + rewrite bool_decide_eq_true_2, decide_True by done. cbn. by rewrite !app_nil_r.
    + rewrite bool_decide_eq_false_2, decide_False by congruence. done.
  - rewrite lines_of_cons, concat_app, IH. change (final_path (f :: f' :: files)) with (final_path (f' :: files)).
    rewrite <- app_assoc. f_equal. destruct (decide (f.1 = p)); [cbn; by rewrite app_nil_r|done].
Qed.

Lemma script_lines_nonempty ops : ops <> [] -> script_lines ops <> [].
Proof. by destruct ops. Qed.

Lemma lines_of_nonempty p files : Forall file_ok files -> Forall (fun ls => ls <> []) (lines_of p files).
Proof.
  induction 1 as [|f files (_ & Hne & _) _ IH]; [constructor|]. destruct files as [|f' files].
  - unfold lines_of. cbn. destruct (bool_decide _); repeat constructor. by destruct (script_lines f.2).
  - rewrite lines_of_cons. apply Forall_app. split; [|done]. destruct (decide _); repeat constructor. by apply script_lines_nonempty.
Qed.

Lemma last_app_ne {A} (l1 l2 : list A) d : l2 <> [] -> List.last (l1 ++ l2) d = List.last l2 d.
Proof. intros H. induction l1 as [|x l1 IH]; [done|]. cbn. rewrite IH. by destruct l1, l2. Qed.

Lemma ops_of_dark p files :
  Forall file_ok files -> Forall ends_dark (removelast files) -> final_path files <> Some p -> p ∈ files.*1 ->
  List.last (script_lines (ops_of p files)) [] <> [].
Proof.
  intros H. induction H as [|f files (_ & Hne & _) _ IH]; intros Hd Hp Hin; [by apply not_elem_of_nil in Hin|].
  rewrite ops_of_cons, script_lines_app. destruct files as [|f' files].
  { cbn in *. apply list_elem_of_singleton in Hin. congruence. }
  change (removelast (f :: f' :: files)) with (f :: removelast (f' :: files)) in Hd. inversion_clear Hd as [|? ? Hf Hd'].
  change (final_path (f :: f' :: files)) with (final_path (f' :: files)) in Hp. destruct (decide (p ∈ (f' :: files).*1)) as [Hin'|Hout].
  - specialize (IH Hd' Hp Hin'). destruct (script_lines (ops_of p (f' :: files))) eqn:E; [done|]. rewrite <- E in *. by rewrite last_app_ne by (rewrite E; done).
  - assert (ops_of p (f' :: files) = []) as ->.
    { clear - Hout. induction (f' :: files) as [|g l IH]; [done|]. cbn in Hout. apply not_elem_of_cons in Hout as [H1 H2].
      rewrite ops_of_cons, decide_False by congruence. by apply IH. }
    assert (f.1 = p) as Hfp by set_solver. rewrite decide_True by done. cbn. rewrite app_nil_r. exact Hf.
Qed.

Lemma ops_of_ok p files : Forall file_ok files -> Forall (op_ok memory) (ops_of p files).
Proof.
  induction 1 as [|f files (_ & _ & Ho) _ IH]; [constructor|]. rewrite ops_of_cons. apply Forall_app. split; [by destruct (decide _)|done].
Qed.

(** C15.  An input of printed sections is read back: every file gets one batch,
    in the order of the first section of each, and the batch of a file means
    all the operations of its sections, in order. *)
Theorem hashline_input_roundtrip files opts :
  files <> [] -> Forall file_ok files -> Forall ends_dark (removelast files) -> HashlineParser.cwd opts = cwd ->
  exists sections,
    splitHashlineInputs isAbsolute resolve relative (print_input files) opts = Ok sections /\
    path <$> mergeSamePathSections sections = first_paths files.*1 /\
    Forall (fun s => parseHashlineWithWarnings xxHash32 memory (diff s) = Ok (script_edits (ops_of (path s) files) 1 0, []))
      (mergeSamePathSections sections).
Proof.
  intros Hne Hok Hd Hcwd. exists (sections_of files). split; [by apply split_print|].
  assert (Hpaths : path <$> sections_of files = files.*1).
  { rewrite sections_lined. clear. induction files as [|f files IH]; [done|]. destruct files; [done|]. cbn in *. by rewrite IH. }
  unfold mergeSamePathSections. rewrite merge_spec, Hpaths, <- !list_fmap_compose. split; [by rewrite <- (list_fmap_id (first_paths files.*1)) at 2|].
  rewrite Forall_fmap. apply Forall_forall. intros p Hp. cbn. rewrite first_paths_elem in Hp.
  apply parse_printed; [|by apply ops_of_ok].
  rewrite diffs_lined, join_lf_concat, concat_lines_of by by apply lines_of_nonempty.
  destruct (decide _) as [Hf|Hf].
  - rewrite <- terminated_join. apply diff_lines_terminated; [|by eapply script_lines_ok, ops_of_ok].
    apply script_lines_nonempty. clear - Hok Hp. induction Hok as [|f files (_ & Hne & _) _ IH]; [by apply not_elem_of_nil in Hp|].
    rewrite ops_of_cons. cbn in Hp. apply elem_of_cons in Hp as [->|Hp]; [rewrite decide_True by done; by destruct f.2|].
    intros [_ E]%app_eq_nil. by apply IH.
  - rewrite app_nil_r. apply diff_lines_join; [by apply ops_of_dark|by eapply script_lines_ok, ops_of_ok].
Qed.
End inputs.

(** ** Where a script ends early *)

Section aborted.
Context (xxHash32 : text -> Z) (memory : nat) (isAbsolute : text -> bool) (resolve : text -> text) (relative : text -> text -> text).

Lemma payload_lines_suffix ls : exists p, ls = p ++ (payload_lines ls).2.
Proof.
  induction ls as [|l ls [p E]]; [by exists []|]. cbn. destruct (isPayloadTerminatorLine l); [by exists []|].
  destruct (payload_lines ls) as [q r]. exists (l :: p). cbn in *. by rewrite <- E.
Qed.

(** The lines after an operation are the last of those before it. *)
Definition suffix_of (ls rest : list text) : Prop := exists p, ls = p ++ rest.

Lemma collect_suffix ls n r p rest : collectPayload ls n r = Ok (p, rest) -> suffix_of ls rest.
Proof.
  unfold collectPayload. pose proof (payload_lines_suffix ls) as H. destruct (payload_lines ls) as [q x].
  destruct q; [destruct r; [done|]|]; by intros [= <- <-].
Qed.

Lemma parse_insert_suffix before m ls n i es rest : parse_insert xxHash32 before m ls n i = Ok (es, rest) -> suffix_of ls rest.
Proof.
  unfold parse_insert. destruct (parseInsertTarget _ _ _) as [c|]; [|done]. cbn [outcome_bind].
  destruct (collectPayload _ _ _) as [[p r]|] eqn:E; [|done]. intros [= _ <-]. by apply collect_suffix in E.
Qed.

Lemma parse_replace_suffix raw ls n i es rest : parse_replace memory raw ls n i = Ok (es, rest) -> suffix_of ls rest.
Proof.
  unfold parse_replace. destruct (parseRange _ _) as [g|]; [|done]. cbn [outcome_bind].
  destruct (collectPayload _ _ _) as [[p r]|] eqn:E; [|done]. cbn [outcome_bind]. destruct (expandRange _ _ _); [|done].
  intros [= _ <-]. by apply collect_suffix in E.
Qed.

Lemma suffix_Forall (P : text -> Prop) ls rest : suffix_of ls rest -> Forall P ls -> Forall P rest.
Proof. intros [p ->] H. by apply Forall_app in H as [_ H]. Qed.

Lemma parse_no_abort fuel ls n i es ws :
  Forall (fun l => l <> ABORT_MARKER) ls -> parse_lines xxHash32 memory fuel ls n i = Ok (es, ws) -> ws = [].
Proof.
  revert ls n i es ws. induction fuel as [|fuel IH]; intros ls n i es ws H E; [by injection E as _ <-|].
  destruct ls as [|l ls]; [by injection E as _ <-|]. inversion_clear H as [|? ? Hl Hls]. cbn [HashlineParser.parse_lines] in E.
  assert (Hop : forall m k, (forall es' rest, m = Ok (es', rest) -> suffix_of ls rest) ->
    (let* (es', rest) := m in
     let* (es2, ws2) := parse_lines xxHash32 memory fuel rest (k rest) (i + Z.of_nat (length es')) in Ok (es' ++ es2, ws2)) = Ok (es, ws) -> ws = []).
  { intros m k Hm Em. destruct m as [[es' rest]|]; [|done]. cbn [outcome_bind] in Em. specialize (Hm es' rest eq_refl).
    destruct (parse_lines _ _ fuel rest _ _) as [[es2 ws2]|] eqn:E2; [|done]. injection Em as _ <-. eapply IH; [|exact E2]. by eapply suffix_Forall. }
  destruct (blank l); [by eapply IH|]. destruct (decide (l = END_PATCH_MARKER)); [by injection E as _ <-|].
  destruct (decide (l = ABORT_MARKER)); [done|]. destruct (decide (l = BEGIN_PATCH_MARKER)); [by eapply IH|].
  destruct (match_insert HL_OP_INSERT_BEFORE l); [eapply (Hop _ (fun r => n + count ls - count r + 1)), E; by apply parse_insert_suffix|].
  destruct (match_insert HL_OP_INSERT_AFTER l); [eapply (Hop _ (fun r => n + count ls - count r + 1)), E; by apply parse_insert_suffix|].
  destruct (match_replace l); [|done]. eapply (Hop _ (fun r => n + count ls - count r + 1)), E. by apply parse_replace_suffix.
Qed.

(** Lines that neither break nor abort. *)
Definition calm (l : text) : Prop := Forall (fun c => c <> LF) l /\ trimEnd l <> ABORT_MARKER.

Definition calm_section (s : HashlineInputSection) : Prop := exists ls, ls <> [] /\ diff s = join_lf ls /\ Forall calm ls.

Lemma flush_calm p lines : Forall calm lines -> Forall calm_section (flush p lines).
Proof.
  intros H. unfold flush. destruct p; [constructor|]. destruct (existsb _ lines) eqn:E; [|constructor]. repeat constructor.
  exists lines. split_and!; [by intros ->|done|done].
Qed.

Lemma section_loop_calm ls cwd p lines ss :
  Forall (Forall (fun c => c <> LF)) ls -> Forall calm lines -> section_loop isAbsolute resolve relative ls cwd p lines = Ok ss -> Forall calm_section ss.
Proof.
  intros H. revert p lines ss. induction H as [|l ls Hl _ IH]; intros p lines ss Hc E; [injection E as <-; by apply flush_calm|].
  cbn [section_loop] in E. destruct (bool_decide (trimEnd l = END_PATCH_MARKER) || bool_decide (trimEnd l = ABORT_MARKER)) eqn:Em;
    [injection E as <-; by apply flush_calm|].
  apply orb_false_iff in Em as [_ Em]. apply bool_decide_eq_false in Em. destruct (isPatchEnvelopeMarker l); [by eapply IH|].
  destruct (parseHashlineHeaderLine _ _ _ _ _) as [[q|]|]; [| |done]; cbn [outcome_bind] in E.
  - destruct (section_loop _ _ _ ls cwd q []) as [ss'|] eqn:E'; [|done]. injection E as <-. apply Forall_app.
    split; [by apply flush_calm|]. by eapply IH, E'.
  - eapply IH, E. apply Forall_app. split; [done|]. by repeat constructor.
Qed.

Lemma chop_cr_cases l : chop_cr l = l \/ l = chop_cr l ++ [CR].
Proof.
  unfold chop_cr. destruct (rev l) as [|c r] eqn:E; [by left|]. destruct (decide (c = CR)) as [->|]; [|by left]. right.
  by rewrite <- (rev_involutive l), E.
Qed.

Lemma calm_chopped l : calm l -> chop_cr l <> ABORT_MARKER.
Proof. intros [_ Ht] E. destruct (chop_cr_cases l) as [El|El]; apply Ht; [rewrite El in E; by rewrite E|by rewrite El, E]. Qed.

Lemma calm_plain l : calm l -> l <> ABORT_MARKER.
Proof. by intros [_ Ht] ->. Qed.

Lemma calm_lines ls : ls <> [] -> Forall calm ls -> Forall (fun l => l <> ABORT_MARKER) (diff_lines (join_lf ls)).
Proof.
  intros Hne H. assert (Hall : Forall (fun l => l <> ABORT_MARKER) (split_eol (join_lf ls))).
  { unfold split_eol. rewrite split_join_lf; [|done|eapply Forall_impl; [exact H|]; by intros l []]. clear Hne.
    induction H as [|l ls Hl _ IH]; [constructor|]. destruct ls as [|l' ls]; [repeat constructor; by apply calm_plain|].
    cbn [chop_all_but_last]. constructor; [by apply calm_chopped|exact IH]. }
  unfold diff_lines. destruct (_ && _); [|done]. rewrite removelast_firstn_len. by apply Forall_take.
Qed.

(** The marker that aborts a script ends the input before the parser sees
    it: whatever the input, no section parses with the warning that some edits
    are missing. *)
Theorem abort_never_warns input opts sections :
  splitHashlineInputs isAbsolute resolve relative input opts = Ok sections ->
  Forall (fun s => forall es ws, parseHashlineWithWarnings xxHash32 memory (diff s) = Ok (es, ws) -> ws = []) (mergeSamePathSections sections).
Proof.
  unfold splitHashlineInputs. destruct (normalizeFallbackInput _ _ _ _ _) as [normalized|]; [|done]. cbn [outcome_bind].
  destruct (parseHashlineHeaderLine _ _ _ _ _) as [[q|]|]; [|done|done]. cbn [outcome_bind]. intros E.
  assert (Hcalm : Forall calm_section sections).
  { eapply section_loop_calm, E; [|constructor]. unfold split_eol. pose proof (split_lf_lines (stripLeadingBlankLines normalized)) as H.
    induction H as [|l ls Hl _ IH]; [constructor|]. destruct ls; [by repeat constructor|]. cbn [chop_all_but_last]. constructor; [|exact IH].
    destruct (chop_cr_cases l) as [->|El]; [done|]. rewrite El in Hl. by apply Forall_app in Hl as [? _]. }
  unfold mergeSamePathSections. rewrite merge_spec, <- list_fmap_compose. apply Forall_fmap, Forall_forall. intros p _ es ws. cbn.
  apply parse_no_abort.
  assert (Hlines : exists lss, diffs_of p sections = join_lf <$> lss /\ Forall (fun ls => ls <> []) lss /\ Forall (Forall calm) lss).
  { clear - Hcalm. unfold diffs_of. induction Hcalm as [|s ss (ls & Hne & Hd & Hc) _ (lss & El & Hn & Hl)]; [by exists []|]. cbn.
    destruct (bool_decide _); [|by exists lss]. exists (ls :: lss). split_and!; [cbn; by rewrite Hd, El|by constructor|by constructor]. }
  destruct Hlines as (lss & -> & Hn & Hl). destruct lss as [|ls lss]; [by repeat constructor|].
  rewrite join_lf_concat by done. inversion Hn. apply calm_lines; [by destruct ls|by apply Forall_concat].
Qed.
End aborted.

(** ** Runs *)

Definition flat_hash (_ : text) : Z := 0.
Definition no_absolute (_ : text) : bool := false.
Definition same_path (p : text) : text := p.
Definition same_relative (_ p : text) : text := p.
Definition no_options : SplitHashlineOptions := {| cwd := None; fallback := None |}.

Definition split_input := splitHashlineInputs no_absolute same_path same_relative.
Definition parse_diff := parseHashlineWithWarnings flat_hash 1000.

Definition at_line (n : Z) (h : string) : Anchor := {| line := n; hash := units h |}.

(** Two sections of one file around a section of another. *)
Definition some_files : list file_ops :=
  [(units "a.ts", [Insert false (T_anchor (at_line 4 "fb")) [units "const a = 1;"; []; units "  b"]; Replace (at_line 7 "ab") (at_line 9 "cd") []]);
   (units "b.ts", [Insert true T_bof [units "// b"]]);
   (units "a.ts", [Replace (at_line 12 "xy") (at_line 12 "xy") [units "x"; []]])].

#[local] Instance path_ok_dec p : Decision (path_ok no_absolute same_path same_relative None p).
Proof. unfold path_ok. destruct p; apply _. Defined.
#[local] Instance file_ok_dec f : Decision (file_ok 1000 no_absolute same_path same_relative None f).
Proof. unfold file_ok. apply _. Defined.
#[local] Instance ends_dark_dec f : Decision (ends_dark f).
Proof. unfold ends_dark. apply _. Defined.

Lemma hashline_input_roundtrip_witness :
  exists sections,
    split_input (print_input some_files) no_options = Ok sections /\
    path <$> mergeSamePathSections sections = [units "a.ts"; units "b.ts"] /\
    Forall (fun s => parse_diff (diff s) = Ok (script_edits (ops_of (path s) some_files) 1 0, [])) (mergeSamePathSections sections).
Proof.
  refine (hashline_input_roundtrip flat_hash 1000 no_absolute same_path same_relative None some_files no_options _ _ _ _).
  - done.
  - by apply (bool_decide_unpack (Forall (file_ok 1000 no_absolute same_path same_relative None) some_files)).
  - by apply (bool_decide_unpack (Forall ends_dark (removelast some_files))).
  - done.
Defined.

(** A script that is cut off by the marker. *)
Definition cut_input : text := terminated [header (units "a.ts"); HL_OP_INSERT_AFTER :: units "EOF"; units "x"; ABORT_MARKER].

Lemma abort_never_warns_witness :
  exists sections, split_input cut_input no_options = Ok sections /\ sections <> [] /\
    Forall (fun s => forall es ws, parse_diff (diff s) = Ok (es, ws) -> ws = []) (mergeSamePathSections sections).
Proof.
  eexists. split; [vm_compute; reflexivity|]. split; [done|].
  apply (abort_never_warns flat_hash 1000 no_absolute same_path same_relative cut_input no_options). vm_compute. reflexivity.
Defined.

(** The parser alone does warn. *)
Example parser_warns : parse_diff (terminated [HL_OP_INSERT_AFTER :: units "EOF"; units "x"; ABORT_MARKER]) =
  Ok ([insert_edit eof (units "x") 1 0], [ABORT_WARNING]).
Proof. reflexivity. Qed.

(** *** What the language does not mean to do *)

Definition edits_of_input (input : text) : outcome hashline_error (list (text * outcome hashline_error (list HashlineEdit))) :=
  outcome_bind (split_input input no_options) (fun ss =>
    Ok ((fun s => (path s, outcome_bind (parse_diff (diff s)) (fun r => Ok r.1))) <$> mergeSamePathSections ss)).

(** A replacement by one blank line, before the next header, deletes the line. *)
Example blank_before_header :
  edits_of_input (terminated [header (units "a"); HL_OP_REPLACE :: units "4fb"; []; header (units "b"); HL_OP_INSERT_AFTER :: units "EOF"; units "y"]) =
  Ok [(units "a", Ok [delete_edit (at_line 4 "fb") 1 0]); (units "b", Ok [insert_edit eof (units "y") 1 0])] /\
  edits_of_input (terminated [header (units "a"); HL_OP_REPLACE :: units "4fb"; []]) =
  Ok [(units "a", Ok [insert_edit (before_anchor (at_line 4 "fb")) [] 1 0; delete_edit (at_line 4 "fb") 1 1])].
Proof. split; reflexivity. Qed.

(** A section that is no script is refused, but not when another section of
    its file comes before it: then it is payload. *)
Example stray_section_becomes_payload :
  edits_of_input (terminated [header (units "a"); units "stray"]) = Ok [(units "a", Throw (orphan_payload 1 (units "stray")))] /\
  edits_of_input (terminated [header (units "a"); HL_OP_INSERT_AFTER :: units "EOF"; units "x"; header (units "a"); units "stray"]) =
  Ok [(units "a", Ok [insert_edit eof (units "x") 1 0; insert_edit eof (units "stray") 1 1])].
Proof. split; reflexivity. Qed.

(** With a path from outside, a byte order mark spoils the first operation. *)
Example bom_with_fallback :
  let s := terminated [HL_OP_INSERT_AFTER :: units "EOF"; units "x"; HL_OP_INSERT_BEFORE :: units "BOF"; units "y"] in
  let go input := outcome_bind (split_input input {| cwd := None; fallback := Some (units "a") |}) (fun ss => Ok ((fun s => parse_diff (diff s)) <$> ss)) in
  go s = Ok [Ok ([insert_edit eof (units "x") 1 0; insert_edit bof (units "y") 3 1], [])] /\
  go (BOM :: s) = Ok [Throw (orphan_payload 1 (BOM :: HL_OP_INSERT_AFTER :: units "EOF"))].
Proof. split; reflexivity. Qed.

(** No memory is enough for a range whose end is not exact. *)
Example huge_range memory :
  parse_lines flat_hash memory 1 [HL_OP_REPLACE :: units "1ab..9007199254740993cd"] 1 0 = Throw (out_of_memory 1).
Proof.
  assert (H : parse_replace memory (units "1ab..9007199254740993cd") [] 1 0 = Throw (out_of_memory 1)).
  { unfold parse_replace.
    assert (E : parseRange (units "1ab..9007199254740993cd") 1 = Ok (at_line 1 "ab", at_line 9007199254740992 "cd")) by (vm_compute; reflexivity).
    rewrite E. cbn [outcome_bind collectPayload payload_lines]. unfold expandRange. by rewrite expand_stuck by (vm_compute; done). }
  cbn [parse_lines].
  change (blank (HL_OP_REPLACE :: units "1ab..9007199254740993cd")) with false. rewrite !decide_False by (vm_compute; discriminate).
  rewrite !match_insert_other by done.
  change (match_replace (HL_OP_REPLACE :: units "1ab..9007199254740993cd")) with (Some (units "1ab..9007199254740993cd")).
  cbv beta iota zeta. by rewrite H.
Qed.

