(* ===== verification/HashlineDisplay.v ===== *)
(** * Lines as the model sees them ([hashline/hash.ts], [stream.ts],
      [prefixes.ts])

    [read] and [search] print lines with their anchors, in chunks of bounded
    size, and what the model echoes back is stripped of them.  The UTF-8
    decoder of the platform ([TextDecoder]) is a parameter, and so is
    xxHash32. *)

From S2P Require Import Prelude CodeUnits HashlineBigrams HashlineParser.

Local Open Scope list_scope.
Local Open Scope Z_scope.

(** ** Formatting ([hash.ts]) *)

Section display.
Context (xxHash32 : text -> Z).

Definition formatLineHash (n : Z) (l : text) : text := decimal n ++ computeLineHash xxHash32 n l.

Definition formatHashLine (n : Z) (l : text) : text := decimal n ++ computeLineHash xxHash32 n l ++ HL_BODY_SEP :: l.

(** The TypeScript loop; the native one is an accelerator with its contract. *)
Definition formatHashLines (s : text) (startLine : Z) : text :=
  join_lf (imap (fun i l => formatHashLine (startLine + Z.of_nat i) l) (split_lf s)).

(** ** Chunks ([stream.ts]) *)

(** [Buffer.byteLength]: a surrogate pair takes four bytes, a lone surrogate
    the three of the replacement character. *)
Definition is_pair (c d : Z) : bool := bool_decide (55296 <= c <= 56319) && bool_decide (56320 <= d <= 57343).

Definition unit_bytes (c : Z) : Z := if decide (c < 128) then 1 else if decide (c < 2048) then 2 else 3.

Fixpoint byteLength (s : text) : Z :=
  match s with
  | [] => 0
  | c :: s' =>
      match s' with
      | d :: s'' => if is_pair c d then 4 + byteLength s'' else unit_bytes c + byteLength s'
      | [] => unit_bytes c
      end
  end.

Record HashlineStreamOptions := { startLine : option Z; maxChunkLines : option Z; maxChunkBytes : option Z }.
Record ResolvedHashlineStreamOptions := { r_startLine : Z; r_maxChunkLines : Z; r_maxChunkBytes : Z }.

Definition resolveHashlineStreamOptions (o : HashlineStreamOptions) : ResolvedHashlineStreamOptions :=
  {| r_startLine := default 1 (startLine o); r_maxChunkLines := default 200 (maxChunkLines o);
     r_maxChunkBytes := default (64 * 1024) (maxChunkBytes o) |}.

Record HashlineChunkEmitter := { lineNumber : Z; outLines : list text; outBytes : Z }.

Definition createHashlineChunkEmitter (o : ResolvedHashlineStreamOptions) : HashlineChunkEmitter :=
  {| lineNumber := r_startLine o; outLines := []; outBytes := 0 |}.

Definition flush (e : HashlineChunkEmitter) : option text * HashlineChunkEmitter :=
  match outLines e with
  | [] => (None, e)
  | ls => (Some (join_lf ls), {| lineNumber := lineNumber e; outLines := []; outBytes := 0 |})
  end.

(** A flushed chunk is kept when it is not empty. *)
Definition flush_into (chunks : list text) (e : HashlineChunkEmitter) : list text * HashlineChunkEmitter :=
  let '(flushed, e) := flush e in
  (match flushed with Some ((_ :: _) as c) => chunks ++ [c] | _ => chunks end, e).

Definition pushLine (o : ResolvedHashlineStreamOptions) (e : HashlineChunkEmitter) (l : text) : list text * HashlineChunkEmitter :=
  let formatted := formatHashLine (lineNumber e) l in
  let e := {| lineNumber := lineNumber e + 1; outLines := outLines e; outBytes := outBytes e |} in
  let sepBytes := match outLines e with [] => 0 | _ => 1 end in
  let lineBytes := byteLength formatted in
  let wouldOverflow := bool_decide (r_maxChunkLines o <= Z.of_nat (length (outLines e))) ||
                       bool_decide (r_maxChunkBytes o < outBytes e + sepBytes + lineBytes) in
  let '(chunks, e) := if match outLines e with [] => false | _ => wouldOverflow end then flush_into [] e else ([], e) in
  let outLines := outLines e ++ [formatted] in
  let e := {| lineNumber := lineNumber e; outLines := outLines;
              outBytes := outBytes e + (if decide (length outLines = 1%nat) then 0 else 1) + lineBytes |} in
  if bool_decide (r_maxChunkLines o <= Z.of_nat (length outLines)) || bool_decide (r_maxChunkBytes o <= outBytes e)
  then flush_into chunks e else (chunks, e).

(** *** The stream *)

Context {D : Type} (new_decoder : D) (decode_stream : D -> list Z -> text * D) (decode_end : D -> text).

Record stream := { s_decoder : D; pending : text; sawAnyLine : bool; emitter : HashlineChunkEmitter; yielded : list text }.

Definition push_stream (o : ResolvedHashlineStreamOptions) (s : stream) (l : text) : stream :=
  let '(out, e) := pushLine o (emitter s) (chop_cr l) in
  {| s_decoder := s_decoder s; pending := pending s; sawAnyLine := true; emitter := e; yielded := yielded s ++ out |}.

(** The lines that are complete; the last piece waits. *)
Fixpoint take_lines (o : ResolvedHashlineStreamOptions) (s : stream) (pieces : list text) : stream :=
  match pieces with
  | [] => s
  | [rest] => {| s_decoder := s_decoder s; pending := rest; sawAnyLine := sawAnyLine s; emitter := emitter s; yielded := yielded s |}
  | raw :: pieces => take_lines o (push_stream o s raw) pieces
  end.

Definition on_chunk (o : ResolvedHashlineStreamOptions) (s : stream) (chunk : list Z) : stream :=
  let '(str, d) := decode_stream (s_decoder s) chunk in
  take_lines o {| s_decoder := d; pending := pending s; sawAnyLine := sawAnyLine s; emitter := emitter s; yielded := yielded s |}
    (split_lf (pending s ++ str)).

(** The text after the last line break, and a line for an empty file. *)
Definition last_lines (o : ResolvedHashlineStreamOptions) (s : stream) : stream :=
  let p := pending s ++ decode_end (s_decoder s) in
  let s := match p with [] => s | _ => push_stream o s p end in
  if sawAnyLine s then s else push_stream o s [].

Definition on_end (o : ResolvedHashlineStreamOptions) (s : stream) : list text :=
  let s := last_lines o s in
  match flush (emitter s) with (Some ((_ :: _) as last), _) => yielded s ++ [last] | _ => yielded s end.

Definition streamHashLinesFromUtf8 (source : list (list Z)) (options : HashlineStreamOptions) : list text :=
  let o := resolveHashlineStreamOptions options in
  on_end o (foldl (on_chunk o)
    {| s_decoder := new_decoder; pending := []; sawAnyLine := false; emitter := createHashlineChunkEmitter o; yielded := [] |} source).
End display.

(** ** Echoed prefixes ([prefixes.ts]) *)

Definition is_word (c : Z) : bool := is_digit c || is_lower c || bool_decide (65 <= c <= 90) || (c =? 95).

(** [>>>] or [>>], when it is there. *)
Definition skip_marker (s : text) : text :=
  if starts_with [62; 62; 62] s then drop 3 s else if starts_with [62; 62] s then drop 2 s else s.

(** Digits, two letters and a separator, and the rest. *)
Definition match_anchor_sep (s : text) : option text :=
  let '(d, r) := digits s in
  match d, r with
  | _ :: _, a :: b :: c :: r => if is_lower a && is_lower b && ((c =? 58) || (c =? HL_BODY_SEP)) then Some r else None
  | _, _ => None
  end.

(** [HL_PREFIX_RE]: the rest of the line after the prefix. *)
Definition match_prefix (l : text) : option text :=
  let s := trimStart (skip_marker (trimStart l)) in
  match_anchor_sep (match s with c :: r => if (c =? 43) || (c =? 42) then trimStart r else s | [] => s end).

(** [HL_PREFIX_PLUS_RE] *)
Definition match_prefix_plus (l : text) : bool :=
  match trimStart (skip_marker (trimStart l)) with
  | c :: r => if c =? 43 then match match_anchor_sep (trimStart r) with Some _ => true | None => false end else false
  | [] => false
  end.

(** [DIFF_PLUS_RE] *)
Definition match_diff_plus (l : text) : bool :=
  match l with
  | c :: r => (c =? 43) && match r with d :: _ => negb (d =? 43) | [] => true end
  | [] => false
  end.

(** [Use :], perhaps [L], and a digit. *)
Definition match_use (s : text) : bool :=
  starts_with (units "Use :") s &&
  let r := drop 5 s in
  match (match r with c :: r' => if c =? 76 then r' else r | [] => r end) with c :: _ => is_digit c | [] => false end.

(** [.*\bUse :L?\d+] after the character [prev]. *)
Fixpoint find_use (prev : Z) (s : text) : bool :=
  (negb (is_word prev) && match_use s) ||
  match s with c :: s' => negb (is_terminator c) && find_use c s' | [] => false end.

(** A word boundary after [prev], and then [find_use]. *)
Definition boundary_use (prev : Z) (s : text) : bool :=
  negb (Bool.eqb (is_word prev) (match s with c :: _ => is_word c | [] => false end)) && find_use prev s.

(** Some characters without white space, a word boundary and [find_use]. *)
Fixpoint target_use (s : text) : bool :=
  match s with
  | c :: s' => negb (is_white c) && (boundary_use c s' || target_use s')
  | [] => false
  end.

(** Digits that end at a word boundary: the last of them and the rest. *)
Definition take_number (s : text) : option (Z * text) :=
  let '(d, r) := digits s in match d with [] => None | _ => Some (List.last d 0, r) end.

Definition skip_word (w : string) (s : text) : option text :=
  if starts_with (units w) s then Some (drop (length (units w)) s) else None.

(** [Showing lines N-N of N] *)
Definition showing_lines (s : text) : bool :=
  match (s ← skip_word "Showing lines " s; '(_, s) ← take_number s; s ← skip_word "-" s;
         '(_, s) ← take_number s; s ← skip_word " of " s; take_number s) with
  | Some (prev, r) => boundary_use prev r
  | None => false
  end.

(** [N more lines in TARGET] *)
Definition more_lines (s : text) : bool :=
  match ('(_, s) ← take_number s; s ← skip_word " more line" s;
         skip_word " in " (match s with c :: r => if c =? 115 then r else s | [] => s end)) with
  | Some r => target_use r
  | None => false
  end.

(** [READ_TRUNCATION_NOTICE_RE] *)
Definition is_truncation_notice (l : text) : bool :=
  match l with c :: s => (c =? 91) && (showing_lines s || more_lines s) | [] => false end.

(** Prefixes are removed as long as there is one. *)
Fixpoint strip_prefixes (fuel : nat) (l : text) : text :=
  match fuel with
  | O => l
  | S fuel => match match_prefix l with Some r => strip_prefixes fuel r | None => l end
  end.

Definition stripLeadingHashlinePrefixes (l : text) : text := strip_prefixes (length l) l.

Record LinePrefixStats := { nonEmpty : Z; hashPrefixCount : Z; diffPlusHashPrefixCount : Z; diffPlusCount : Z; truncationNoticeCount : Z }.

Definition one (b : bool) : Z := if b then 1 else 0.

Definition has_prefix (l : text) : bool := match match_prefix l with Some _ => true | None => false end.

Definition add_line (st : LinePrefixStats) (l : text) : LinePrefixStats :=
  match l with
  | [] => st
  | _ =>
      if is_truncation_notice l then
        {| nonEmpty := nonEmpty st; hashPrefixCount := hashPrefixCount st; diffPlusHashPrefixCount := diffPlusHashPrefixCount st;
           diffPlusCount := diffPlusCount st; truncationNoticeCount := truncationNoticeCount st + 1 |}
      else
        {| nonEmpty := nonEmpty st + 1; hashPrefixCount := hashPrefixCount st + one (has_prefix l);
           diffPlusHashPrefixCount := diffPlusHashPrefixCount st + one (match_prefix_plus l);
           diffPlusCount := diffPlusCount st + one (match_diff_plus l); truncationNoticeCount := truncationNoticeCount st |}
  end.

Definition collectLinePrefixStats (ls : list text) : LinePrefixStats :=
  foldl add_line {| nonEmpty := 0; hashPrefixCount := 0; diffPlusHashPrefixCount := 0; diffPlusCount := 0; truncationNoticeCount := 0 |} ls.

Definition no_notices (ls : list text) : list text := List.filter (fun l => negb (is_truncation_notice l)) ls.

Definition stripNewLinePrefixes (ls : list text) : list text :=
  let st := collectLinePrefixStats ls in
  if decide (nonEmpty st = 0) then ls
  else
    let stripHash := bool_decide (0 < hashPrefixCount st) && bool_decide (hashPrefixCount st = nonEmpty st) in
    let stripPlus := negb stripHash && bool_decide (diffPlusHashPrefixCount st = 0) && bool_decide (0 < diffPlusCount st) &&
                     bool_decide (nonEmpty st <= 2 * diffPlusCount st) in
    if negb stripHash && negb stripPlus && bool_decide (diffPlusHashPrefixCount st = 0) then ls
    else
      (fun l =>
        if stripHash then stripLeadingHashlinePrefixes l
        else if stripPlus then if match_diff_plus l then drop 1 l else l
        else if bool_decide (0 < diffPlusHashPrefixCount st) && match_prefix_plus l then default l (match_prefix l)
        else l) <$> no_notices ls.

Definition stripHashlinePrefixes (ls : list text) : list text :=
  let st := collectLinePrefixStats ls in
  if decide (nonEmpty st = 0) then ls
  else if decide (hashPrefixCount st <> nonEmpty st) then ls
  else stripLeadingHashlinePrefixes <$> no_notices ls.

Inductive edit_text := E_none | E_text (s : text) | E_lines (ls : list text).

(** [E_none] is [null] or [undefined]. *)
Definition hashlineParseText (edit : edit_text) : list text :=
  match edit with
  | E_none => []
  | E_text s =>
      let trimmed := if ends_with s [LF] then removelast s else s in
      stripNewLinePrefixes (split_lf (List.filter (fun c => negb (c =? CR)) trimmed))
  | E_lines ls => stripNewLinePrefixes ls
  end.
