(* ===== verification/HashlineEcho.v ===== *)
(** * Displayed lines come back ([hashline/stream.ts], [prefixes.ts])

    The chunks of a streamed file are its formatted lines, however its bytes
    arrive, and an echo of displayed lines is stripped to the lines. *)

From S2P Require Import Prelude CodeUnits HashlineBigrams HashlineParser HashlineScript HashlineDisplay.

Local Open Scope list_scope.
Local Open Scope Z_scope.

(** ** Lengths *)

Lemma byteLength_pair c d s : byteLength (c :: d :: s) = if is_pair c d then 4 + byteLength s else unit_bytes c + byteLength (d :: s).
Proof. done. Qed.

Lemma byteLength_ind (P : text -> Prop) :
  P [] -> (forall c, P [c]) -> (forall c d s, P s -> P (d :: s) -> P (c :: d :: s)) -> forall s, P s.
Proof.
  intros H0 H1 H2 s. induction s as [s IH] using (induction_ltof1 _ (@length Z)). unfold ltof in IH.
  destruct s as [|c [|d s]]; [done|apply H1|]. apply H2; apply IH; cbn; lia.
Qed.

Lemma byteLength_lf a b : byteLength (a ++ LF :: b) = byteLength a + 1 + byteLength b.
Proof.
  assert (Hlf : byteLength (LF :: b) = 1 + byteLength b) by (by destruct b).
  induction a as [|c|c d a IH1 IH2] using byteLength_ind; [exact Hlf| |].
  - cbn [app]. rewrite byteLength_pair, Hlf. replace (is_pair c LF) with false by (unfold is_pair; by rewrite andb_false_r).
    change (byteLength [c]) with (unit_bytes c). lia.
  - cbn [app] in *. rewrite !byteLength_pair. destruct (is_pair c d); [rewrite IH1|rewrite IH2]; lia.
Qed.

Lemma utf8_length_nonneg s : 0 <= byteLength s.
Proof.
  assert (Hu : forall c, 0 <= unit_bytes c) by (intros c; unfold unit_bytes; repeat case_decide; lia).
  induction s as [|c|c d s IH1 IH2] using byteLength_ind; [done|apply Hu|]. rewrite byteLength_pair. specialize (Hu c). destruct (is_pair c d); lia.
Qed.

Section stream.
Context (xxHash32 : text -> Z).

Notation formatHashLine := (formatHashLine xxHash32).
Notation pushLine := (pushLine xxHash32).

Lemma format_nonempty n l : formatHashLine n l <> [].
Proof. unfold HashlineDisplay.formatHashLine. intros [_ [_ E]%app_eq_nil]%app_eq_nil. done. Qed.

(** Lines that make a chunk within the limits, or a single line. *)
Definition chunk_ok (o : ResolvedHashlineStreamOptions) (seg : list text) : Prop :=
  seg <> [] /\
  (length seg = 1%nat \/ (Z.of_nat (length seg) <= r_maxChunkLines o /\ byteLength (join_lf seg) <= r_maxChunkBytes o)).

(** What waits in the emitter is within the limits and counted exactly. *)
Definition emitter_ok (o : ResolvedHashlineStreamOptions) (e : HashlineChunkEmitter) : Prop :=
  outBytes e = byteLength (join_lf (outLines e)) /\ Forall (fun l => l <> []) (outLines e) /\
  (outLines e = [] \/ (Z.of_nat (length (outLines e)) < r_maxChunkLines o /\ outBytes e < r_maxChunkBytes o)).

Lemma join_nonempty (ls : list text) : ls <> [] -> Forall (fun l => l <> []) ls -> join_lf ls <> [].
Proof. intros Hne H. destruct H as [|l ls Hl H]; [done|]. destruct ls; [done|]. rewrite join_lf_cons by done. by destruct l. Qed.

Lemma flush_into_spec chunks e :
  Forall (fun l => l <> []) (outLines e) -> outLines e <> [] ->
  flush_into chunks e = (chunks ++ [join_lf (outLines e)], {| lineNumber := lineNumber e; outLines := []; outBytes := 0 |}).
Proof.
  intros H Hne. pose proof (join_nonempty _ Hne H) as Hj. unfold flush_into, flush. destruct (outLines e); [done|]. by destruct (join_lf _).
Qed.

(** The chunks that come out, after [before], and the emitter that is left,
    when [ls] are the lines. *)
Definition cut_into (o : ResolvedHashlineStreamOptions) (before : list text) (ls : list text) (n : Z) (r : list text * HashlineChunkEmitter) : Prop :=
  exists segs, r.1 = before ++ (join_lf <$> segs) /\ Forall (chunk_ok o) segs /\ emitter_ok o r.2 /\ lineNumber r.2 = n /\ ls = concat segs ++ outLines r.2.

(** Room for one more line. *)
Definition room (o : ResolvedHashlineStreamOptions) (ls : list text) (f : text) : Prop :=
  ls = [] \/ (Z.of_nat (length ls) < r_maxChunkLines o /\ byteLength (join_lf ls) + 1 + byteLength f <= r_maxChunkBytes o).

Definition push_one (ls : list text) (f : text) (n : Z) : HashlineChunkEmitter :=
  {| lineNumber := n; outLines := ls ++ [f];
     outBytes := byteLength (join_lf ls) + (if decide (length (ls ++ [f]) = 1%nat) then 0 else 1) + byteLength f |}.

Lemma push_one_bytes ls f n : outBytes (push_one ls f n) = byteLength (join_lf (ls ++ [f])).
Proof.
  destruct ls as [|x ls]; [change (0 + 0 + byteLength f = byteLength f); lia|]. cbn [push_one outBytes].
  rewrite decide_False by (rewrite length_app; cbn; lia). by rewrite join_lf_app, byteLength_lf.
Qed.

Lemma push_rest o before ls f n :
  f <> [] -> Forall (fun l => l <> []) ls -> room o ls f ->
  cut_into o before (ls ++ [f]) n
    (if bool_decide (r_maxChunkLines o <= Z.of_nat (length (ls ++ [f]))) || bool_decide (r_maxChunkBytes o <= outBytes (push_one ls f n))
     then flush_into before (push_one ls f n) else (before, push_one ls f n)).
Proof.
  intros Hf Hls Hroom.
  assert (Hall : Forall (fun l => l <> []) (ls ++ [f])) by (apply Forall_app; split; [done|by repeat constructor]).
  pose proof (push_one_bytes ls f n) as Hbytes.
  assert (Hok : chunk_ok o (ls ++ [f])).
  { split; [by destruct ls|]. destruct Hroom as [->|[H1 H2]]; [by left|]. right. rewrite <- Hbytes. cbn [push_one outBytes].
    rewrite length_app. cbn [length]. split; [lia|]. case_decide; lia. }
  destruct (_ || _) eqn:Eo.
  - rewrite flush_into_spec by (done || by destruct ls). exists [ls ++ [f]]. cbn [push_one outLines lineNumber fst snd concat].
    split; [done|]. split; [by constructor|]. split; [split; [done|split; [constructor|by left]]|]. split; [done|]. by rewrite !app_nil_r.
  - apply orb_false_iff in Eo as [Ho1 Ho2]. apply bool_decide_eq_false in Ho1, Ho2. exists []. cbn [fst snd].
    split; [by rewrite app_nil_r|]. split; [constructor|]. split; [|done]. split; [exact Hbytes|]. split; [done|]. right. cbn [push_one outLines]. lia.
Qed.

(** Pushing a line puts it behind those that wait, and what is flushed are
    chunks. *)
Lemma pushLine_spec o e l :
  emitter_ok o e -> cut_into o [] (outLines e ++ [formatHashLine (lineNumber e) l]) (lineNumber e + 1) (pushLine o e l).
Proof.
  intros (Hb & Hne & Hlim). unfold HashlineDisplay.pushLine. cbn [outLines outBytes lineNumber].
  pose proof (format_nonempty (lineNumber e) l) as Hf. revert Hf. generalize (formatHashLine (lineNumber e) l) as f. intros f Hf.
  destruct (outLines e) as [|x ls]; [rewrite Hb; apply (push_rest o [] []); [done|constructor|by left]|].
  destruct Hlim as [?|[Hl1 Hl2]]; [done|].
  destruct (bool_decide (r_maxChunkLines o <= Z.of_nat (length (x :: ls))) || bool_decide (r_maxChunkBytes o < outBytes e + 1 + byteLength f)) eqn:Eo.
  - rewrite flush_into_spec by done. cbn [outLines outBytes lineNumber app].
    destruct (push_rest o [join_lf (x :: ls)] [] f (lineNumber e + 1) Hf ltac:(constructor) ltac:(by left)) as (segs & E1 & Hs & He & Hn & Hc).
    exists ((x :: ls) :: segs). split; [exact E1|]. split; [constructor; [split; [done|right; rewrite Hb in Hl2; lia]|done]|].
    split; [exact He|]. split; [exact Hn|]. etransitivity; [exact (f_equal (app (x :: ls)) Hc)|]. apply app_assoc.
  - apply orb_false_iff in Eo as [_ Eo]. apply bool_decide_eq_false in Eo. rewrite Hb in *.
    apply (push_rest o [] (x :: ls)); [done|done|right; lia].
Qed.

(** *** The stream *)

Context {D : Type} (new_decoder : D) (decode_stream : D -> list Z -> text * D) (decode_end : D -> text).

Definition formatted (start : Z) (ls : list text) : list text := imap (fun i l => formatHashLine (start + Z.of_nat i) l) ls.

Lemma formatted_snoc start ls l : formatted start (ls ++ [l]) = formatted start ls ++ [formatHashLine (start + Z.of_nat (length ls)) l].
Proof. unfold formatted. rewrite imap_app. cbn. by rewrite Nat.add_0_r. Qed.

(** The lines [ls] have been pushed. *)
Definition pushed (o : ResolvedHashlineStreamOptions) (s : @stream D) (ls : list text) : Prop :=
  exists segs, yielded s = join_lf <$> segs /\ Forall (chunk_ok o) segs /\ emitter_ok o (emitter s) /\
    lineNumber (emitter s) = r_startLine o + Z.of_nat (length ls) /\
    formatted (r_startLine o) ls = concat segs ++ outLines (emitter s) /\ sawAnyLine s = match ls with [] => false | _ => true end.

Lemma push_stream_pushed o s ls l : pushed o s ls -> pushed o (push_stream xxHash32 o s l) (ls ++ [chop_cr l]).
Proof.
  intros (segs & Ey & Hs & He & Hn & Hc & _). unfold push_stream. destruct (pushLine_spec o (emitter s) (chop_cr l) He) as (segs' & Ey' & Hs' & He' & Hn' & Hc').
  destruct (pushLine o (emitter s) (chop_cr l)) as [out e']. cbn [fst snd] in *. exists (segs ++ segs'). cbn.
  split; [rewrite Ey, Ey', app_nil_l; by rewrite fmap_app|]. split; [by apply Forall_app|]. split; [done|].
  split; [rewrite Hn', Hn, length_app; cbn; lia|].
  split; [rewrite formatted_snoc, Hc, concat_app, <- !app_assoc, <- Hn; by rewrite Hc'|by destruct ls].
Qed.

Lemma take_lines_pushed o s ls pieces :
  pushed o s ls -> pieces <> [] ->
  let s' := take_lines xxHash32 o s pieces in
  pushed o s' (ls ++ (chop_cr <$> removelast pieces)) /\ pending s' = List.last pieces [] /\ s_decoder s' = s_decoder s.
Proof.
  revert s ls. induction pieces as [|l pieces IH]; intros s ls H Hne; [done|]. destruct pieces as [|l' pieces].
  - cbn. rewrite app_nil_r. split; [exact H|done].
  - change (take_lines xxHash32 o s (l :: l' :: pieces)) with (take_lines xxHash32 o (push_stream xxHash32 o s l) (l' :: pieces)).
    destruct (IH (push_stream xxHash32 o s l) (ls ++ [chop_cr l])) as (H1 & H2 & H3); [by apply push_stream_pushed|done|].
    split; [by rewrite <- app_assoc in H1|]. split; [done|]. rewrite H3. unfold push_stream. by destruct (pushLine _ _ _).
Qed.

(** The text [str] has been decoded. *)
Definition streamed (o : ResolvedHashlineStreamOptions) (s : @stream D) (str : text) : Prop :=
  pushed o s (chop_cr <$> removelast (split_lf str)) /\ pending s = List.last (split_lf str) [].

Lemma on_chunk_streamed o s str chunk :
  streamed o s str -> let s' := on_chunk xxHash32 decode_stream o s chunk in
  streamed o s' (str ++ (decode_stream (s_decoder s) chunk).1) /\ s_decoder s' = (decode_stream (s_decoder s) chunk).2.
Proof.
  intros [H Hp]. cbv zeta. unfold on_chunk. destruct (decode_stream (s_decoder s) chunk) as [more d]. cbn [fst snd]. rewrite Hp.
  match goal with |- context [take_lines _ o ?t ?p] =>
    destruct (take_lines_pushed o t (chop_cr <$> removelast (split_lf str)) p H (split_lf_nonempty _)) as (H1 & H2 & H3) end.
  split; [|done]. unfold streamed. rewrite H2, (split_lf_more str more). split.
  - rewrite removelast_app by apply split_lf_nonempty. by rewrite fmap_app.
  - by rewrite last_app_nonempty by apply split_lf_nonempty.
Qed.

(** The decoded text and the decoder after the chunks. *)
Definition decoded (source : list (list Z)) : text * D :=
  foldl (fun '(x, d) c => let '(y, d) := decode_stream d c in (x ++ y, d)) ([], new_decoder) source.

(** What ends with a line break has no line after it; an empty text has one. *)
Definition stream_lines (str : text) : list text :=
  let ls := split_lf str in
  chop_cr <$> match ls with [_] => ls | _ => if bool_decide (List.last ls [] = []) then removelast ls else ls end.

Lemma streamed_all o source :
  let s := foldl (on_chunk xxHash32 decode_stream o)
    {| s_decoder := new_decoder; pending := []; sawAnyLine := false; emitter := createHashlineChunkEmitter o; yielded := [] |} source in
  streamed o s (decoded source).1 /\ s_decoder s = (decoded source).2.
Proof.
  induction source as [|c source IH] using rev_ind.
  - split; [|done]. split; [|done]. exists []. split; [done|]. split; [constructor|].
    split; [split; [done|split; [constructor|by left]]|]. split; [cbn; lia|done].
  - unfold decoded. rewrite !foldl_app. cbn [foldl]. fold (decoded source). destruct IH as [H Hd]. destruct (decoded source) as [x d]. cbn [fst snd] in *.
    destruct (on_chunk_streamed o _ x c H) as [H1 H2]. rewrite Hd in *. by destruct (decode_stream d c).
Qed.

Lemma stream_lines_split str ls p :
  split_lf str = ls ++ [p] -> stream_lines str = chop_cr <$> (if decide (p = [] /\ ls <> []) then ls else ls ++ [p]).
Proof.
  intros E. unfold stream_lines. rewrite E. f_equal. destruct ls as [|l ls]; [by rewrite decide_False by (by intros [_ ?])|].
  replace (match (l :: ls) ++ [p] with [_] => (l :: ls) ++ [p]
           | _ => if bool_decide (List.last ((l :: ls) ++ [p]) [] = []) then removelast ((l :: ls) ++ [p]) else (l :: ls) ++ [p] end)
    with (if bool_decide (List.last ((l :: ls) ++ [p]) [] = []) then removelast ((l :: ls) ++ [p]) else (l :: ls) ++ [p]) by by destruct ls.
  rewrite last_last, removelast_last. destruct (decide (p = [])) as [->|Hp].
  - by rewrite bool_decide_eq_true_2, decide_True by done.
  - by rewrite bool_decide_eq_false_2, decide_False by (done || by intros [? _]).
Qed.

(** At the end of the file every line has been pushed. *)
Lemma last_lines_pushed o s str :
  streamed o s str -> Forall (fun c => c <> LF) (decode_end (s_decoder s)) ->
  pushed o (last_lines xxHash32 decode_end o s) (stream_lines (str ++ decode_end (s_decoder s))).
Proof.
  intros [H Hp] Hlf. unfold last_lines. rewrite Hp. revert Hlf. generalize (decode_end (s_decoder s)) as tail. intros tail Hlf.
  assert (Hsplit : split_lf (str ++ tail) = removelast (split_lf str) ++ [List.last (split_lf str) [] ++ tail]).
  { rewrite split_lf_more, (split_lf_line (_ ++ tail)); [done|]. apply Forall_app. split; [|done].
    pose proof (split_lf_lines str) as Hl. pose proof (split_lf_nonempty str) as Hne. rewrite (app_removelast_last [] Hne) in Hl.
    by apply Forall_app in Hl as [_ [Hl _]%Forall_cons]. }
  rewrite (stream_lines_split _ _ _ Hsplit). clear Hsplit. revert H.
  generalize (List.last (split_lf str) [] ++ tail) as p, (removelast (split_lf str)) as ls. intros p ls H.
  pose proof H as (? & _ & _ & _ & _ & _ & Hsaw). destruct p as [|c q].
  - cbv zeta. rewrite Hsaw. destruct ls as [|l ls]; [exact (push_stream_pushed o s [] [] H)|]. by rewrite decide_True.
  - rewrite decide_False by by intros [? _]. pose proof (push_stream_pushed o s _ (c :: q) H) as H1.
    pose proof H1 as (? & _ & _ & _ & _ & _ & Hsaw1). cbv zeta. rewrite Hsaw1, fmap_app.
    by replace (match (chop_cr <$> ls) ++ [chop_cr (c :: q)] with [] => false | _ => true end) with true by by destruct ls.
Qed.

Lemma on_end_chunks o s str :
  streamed o s str -> Forall (fun c => c <> LF) (decode_end (s_decoder s)) ->
  exists segs, on_end xxHash32 decode_end o s = join_lf <$> segs /\ Forall (chunk_ok o) segs /\
    concat segs = formatted (r_startLine o) (stream_lines (str ++ decode_end (s_decoder s))).
Proof.
  intros H Hlf. unfold on_end. destruct (last_lines_pushed o s str H Hlf) as (segs & Ey & Hs & (Hb & Hne & Hlim) & _ & Hc & _). rewrite Hc.
  unfold flush. destruct (outLines (emitter _)) as [|x out].
  - exists segs. by rewrite app_nil_r.
  - assert (Hj : join_lf (x :: out) <> []) by by apply join_nonempty. destruct (join_lf (x :: out)) as [|z j] eqn:Ej; [done|].
    exists (segs ++ [x :: out]). rewrite fmap_app, concat_app, Ey. cbn [fmap list_fmap concat]. rewrite Ej, app_nil_r. split; [done|].
    split; [|done]. apply Forall_app. split; [done|]. constructor; [|constructor]. split; [done|]. right.
    destruct Hlim as [?|[H1 H2]]; [done|]. rewrite Ej, <- Hb. lia.
Qed.

(** The chunks of a streamed file are its formatted lines, cut between
    lines, however the bytes arrive: no line is lost, repeated or split, and
    every chunk keeps the limits or is a single line. *)
Theorem stream_is_format decode source options :
  (forall source, (decoded source).1 ++ decode_end (decoded source).2 = decode (concat source)) ->
  (forall source, Forall (fun c => c <> LF) (decode_end (decoded source).2)) ->
  let o := resolveHashlineStreamOptions options in
  exists segs, streamHashLinesFromUtf8 xxHash32 new_decoder decode_stream decode_end source options = join_lf <$> segs /\
    concat segs = formatted (r_startLine o) (stream_lines (decode (concat source))) /\
    Forall (chunk_ok o) segs.
Proof.
  intros Hdec Hlf o. unfold streamHashLinesFromUtf8. fold o. destruct (streamed_all o source) as [H Hd].
  destruct (on_end_chunks o _ (decoded source).1 H) as (segs & Es & Hs & Hc); [rewrite Hd; apply Hlf|].
  exists segs. split; [exact Es|]. split; [|done]. by rewrite Hc, Hd, Hdec.
Qed.
End stream.

(** ** Echoes *)

Definition two_letters (w : text) : bool := match w with [a; b] => is_lower a && is_lower b | _ => false end.

Lemma bigrams_letters : forallb (fun w => two_letters (units w)) HL_BIGRAMS = true.
Proof. vm_compute. reflexivity. Qed.

Lemma hash_letters xxHash32 n l : exists a b, computeLineHash xxHash32 n l = [a; b] /\ is_lower a = true /\ is_lower b = true.
Proof.
  unfold computeLineHash. match goal with |- context [HL_BIGRAMS !! ?i] => assert (Hi : (i < length HL_BIGRAMS)%nat) end.
  { match goal with |- context [?x mod HL_BIGRAMS_COUNT] => pose proof (Z.mod_pos_bound x HL_BIGRAMS_COUNT ltac:(done)) end.
    unfold HL_BIGRAMS_COUNT in *. lia. }
  apply lookup_lt_is_Some in Hi as [w Hw]. rewrite Hw. cbn [default].
  assert (H : two_letters (units w) = true).
  { pose proof bigrams_letters as Hb. rewrite forallb_forall in Hb. apply Hb. apply list_elem_of_In. by eapply list_elem_of_lookup_2. }
  change (id w) with w. unfold two_letters in H. destruct (units w) as [|a [|b [|]]]; try done.
  apply andb_true_iff in H. exists a, b. by destruct H.
Qed.

Lemma decimal_go_nonempty fuel n acc : acc <> [] -> decimal_go fuel n acc <> [].
Proof.
  revert n acc. induction fuel as [|fuel IH]; intros n acc H; [done|]. cbn [decimal_go]. destruct (decide _); [done|]. by apply IH.
Qed.

Lemma decimal_cons n : 0 <= n -> exists c d, decimal n = c :: d /\ is_digit c = true.
Proof.
  intros Hn. pose proof (decimal_digits n Hn) as H. destruct (decimal n) as [|c d] eqn:E; [|by apply Forall_cons_1 in H as [Hc _]; exists c, d]. exfalso. revert E.
  unfold decimal. pose proof (Z.log2_nonneg n). replace (Z.to_nat (Z.log2 n + 1)) with (S (Z.to_nat (Z.log2 n))) by lia.
  cbn [decimal_go]. destruct (decide _); [done|]. by apply decimal_go_nonempty.
Qed.

Lemma digit_class c : is_digit c = true -> is_white c = false /\ (c =? 62) = false /\ (c =? 43) = false /\ (c =? 42) = false /\ (c =? 91) = false.
Proof.
  intros H. pose proof (anchor_char_class c (digit_char_class c H)) as (Hw & _). split; [done|].
  unfold is_digit in H. apply bool_decide_eq_true in H. rewrite !Z.eqb_neq. lia.
Qed.

Section echo.
Context (xxHash32 : text -> Z).

Notation formatHashLine := (formatHashLine xxHash32).

Lemma match_formatted n l : 0 <= n -> match_prefix (formatHashLine n l) = Some l.
Proof.
  intros Hn. destruct (decimal_cons n Hn) as (c & d & E & Hc). destruct (digit_class c Hc) as (Hw & Hg & Hp & Hs & _).
  destruct (hash_letters xxHash32 n l) as (a & b & Eh & Ha & Hb). unfold HashlineDisplay.formatHashLine. rewrite Eh.
  assert (Hm : match_anchor_sep (decimal n ++ [a; b] ++ HL_BODY_SEP :: l) = Some l).
  { unfold match_anchor_sep, digits. rewrite span_app; [|by apply decimal_digits|].
    - rewrite E. cbn [app]. by rewrite Ha, Hb.
    - unfold is_lower in Ha. apply bool_decide_eq_true in Ha. unfold is_digit. apply bool_decide_eq_false. lia. }
  unfold match_prefix. rewrite E in *. cbn [app] in *. rewrite (trimStart_dark c) by done. unfold skip_marker. cbn [starts_with].
  rewrite !(bool_decide_eq_false_2 (62 = c)) by (apply Z.eqb_neq in Hg; congruence). cbn [andb]. rewrite (trimStart_dark c) by done.
  by rewrite Hp, Hs.
Qed.

(** How a formatted line counts. *)
Lemma add_formatted st n l :
  0 <= n -> add_line st (formatHashLine n l) =
  {| nonEmpty := nonEmpty st + 1; hashPrefixCount := hashPrefixCount st + 1; diffPlusHashPrefixCount := diffPlusHashPrefixCount st;
     diffPlusCount := diffPlusCount st; truncationNoticeCount := truncationNoticeCount st |}.
Proof.
  intros Hn. pose proof (match_formatted n l Hn) as Hm. destruct (decimal_cons n Hn) as (c & d & E & Hc).
  destruct (digit_class c Hc) as (Hw & Hg & Hp & Hs & Hb). unfold add_line, has_prefix. rewrite Hm.
  unfold HashlineDisplay.formatHashLine. rewrite E. cbn [app is_truncation_notice]. rewrite Hb. cbn [andb match_diff_plus]. rewrite Hp. cbn [andb].
  replace (match_prefix_plus _) with false; [cbn; by rewrite !Z.add_0_r|]. symmetry. unfold match_prefix_plus. rewrite (trimStart_dark c) by done.
  unfold skip_marker. cbn [starts_with]. rewrite !(bool_decide_eq_false_2 (62 = c)) by (apply Z.eqb_neq in Hg; congruence).
  cbn [andb]. rewrite (trimStart_dark c) by done. by rewrite Hp.
Qed.

Lemma not_notice n l : 0 <= n -> is_truncation_notice (formatHashLine n l) = false.
Proof.
  intros Hn. destruct (decimal_cons n Hn) as (c & d & E & Hc). destruct (digit_class c Hc) as (_ & _ & _ & _ & Hb).
  unfold HashlineDisplay.formatHashLine. rewrite E. cbn [app is_truncation_notice]. by rewrite Hb.
Qed.

Lemma stats_formatted start ls :
  0 <= start -> collectLinePrefixStats (formatted xxHash32 start ls) =
  {| nonEmpty := Z.of_nat (length ls); hashPrefixCount := Z.of_nat (length ls); diffPlusHashPrefixCount := 0; diffPlusCount := 0;
     truncationNoticeCount := 0 |}.
Proof.
  intros Hs. unfold collectLinePrefixStats. induction ls as [|l ls IH] using rev_ind; [done|].
  rewrite formatted_snoc, foldl_app. cbn [foldl]. rewrite IH, add_formatted by lia. rewrite length_app. cbn [nonEmpty hashPrefixCount length].
  by rewrite Nat2Z.inj_add.
Qed.

Lemma strip_formatted n l : 0 <= n -> has_prefix l = false -> stripLeadingHashlinePrefixes (formatHashLine n l) = l.
Proof.
  intros Hn Hl. unfold stripLeadingHashlinePrefixes. pose proof (match_formatted n l Hn) as Hm.
  destruct (formatHashLine n l) as [|c f]; [done|]. cbn [length strip_prefixes]. rewrite Hm.
  unfold has_prefix in Hl. destruct (length f); cbn [strip_prefixes]; [done|]. by destruct (match_prefix l).
Qed.

Lemma strip_all start ls :
  0 <= start -> Forall (fun l => has_prefix l = false) ls ->
  stripLeadingHashlinePrefixes <$> no_notices (formatted xxHash32 start ls) = ls.
Proof.
  intros Hs H. induction ls as [|l ls IH] using rev_ind; [done|]. apply Forall_app in H as [H [Hl _]%Forall_cons].
  rewrite formatted_snoc. unfold no_notices in *. rewrite List.filter_app, fmap_app, IH by done. cbn [List.filter].
  rewrite not_notice by lia. cbn [negb fmap list_fmap]. by rewrite strip_formatted by (done || lia).
Qed.

(** An echo of displayed lines is stripped to the lines themselves, by
    both strippers, when no line looks like a displayed one. *)
Theorem echo_stripped start ls :
  0 <= start -> ls <> [] -> Forall (fun l => has_prefix l = false) ls ->
  stripNewLinePrefixes (formatted xxHash32 start ls) = ls /\ stripHashlinePrefixes (formatted xxHash32 start ls) = ls.
Proof.
  intros Hs Hne H. assert (Hlen : Z.of_nat (length ls) <> 0) by (destruct ls; [done|cbn; lia]).
  unfold stripNewLinePrefixes, stripHashlinePrefixes. rewrite stats_formatted by done.
  cbn [nonEmpty hashPrefixCount diffPlusHashPrefixCount diffPlusCount]. rewrite !(decide_False (P := Z.of_nat (length ls) = 0)) by done.
  rewrite (bool_decide_eq_true_2 (0 < Z.of_nat (length ls))) by lia. rewrite (bool_decide_eq_true_2 (Z.of_nat (length ls) = _)) by done.
  cbn [andb negb]. split; [by apply strip_all|]. rewrite decide_False by by intros []. by apply strip_all.
Qed.
End echo.


(** ** The theorems at work *)

(** A decoder of ASCII, which keeps nothing back. *)
Definition ascii_stream (d : unit) (bytes : list Z) : text * unit := (bytes, d).

Definition zero_hash (_ : text) : Z := 0.

Definition two_lines : HashlineStreamOptions := {| startLine := Some 9; maxChunkLines := Some 2; maxChunkBytes := None |}.

Lemma ascii_decoded d source : foldl (fun '(str, d) c => let '(t, d) := ascii_stream d c in (str ++ t, d)) d source = (d.1 ++ concat source, d.2).
Proof.
  revert d. induction source as [|c source IH]; intros [str d]; cbn; [by rewrite app_nil_r|]. rewrite IH. cbn. by rewrite <- app_assoc.
Qed.

(** ["a\r\nb"] and ["\nc\n"]: three lines, from line 9, in two chunks. *)
Lemma stream_is_format_witness :
  exists segs, streamHashLinesFromUtf8 zero_hash tt ascii_stream (fun _ => []) [[97; 13; 10; 98]; [10; 99; 10]] two_lines = join_lf <$> segs /\
    concat segs = formatted zero_hash 9 [[97]; [98]; [99]] /\ Forall (chunk_ok (resolveHashlineStreamOptions two_lines)) segs.
Proof.
  refine (stream_is_format zero_hash tt ascii_stream (fun _ => []) (fun bytes => bytes) [[97; 13; 10; 98]; [10; 99; 10]] two_lines _ _).
  - intros source. rewrite app_nil_r. unfold decoded. by rewrite ascii_decoded.
  - intros source. constructor.
Defined.

Lemma echo_stripped_witness :
  stripNewLinePrefixes (formatted zero_hash 7 [units "let x = 5;"; []; units "}"]) = [units "let x = 5;"; []; units "}"] /\
  stripHashlinePrefixes (formatted zero_hash 7 [units "let x = 5;"; []; units "}"]) = [units "let x = 5;"; []; units "}"].
Proof.
  apply (echo_stripped zero_hash 7 [units "let x = 5;"; []; units "}"]).
  - lia.
  - done.
  - by apply (bool_decide_unpack (Forall (fun l => has_prefix l = false) [units "let x = 5;"; []; units "}"])).
Defined.

(** ** What the strippers do not mean to do *)

(** A file whose lines begin with a number, two letters and a colon is written
    without them. *)
Example times_are_lost :
  stripHashlinePrefixes [units "9am: standup"; units "10am: review"] = [units " standup"; units " review"].
Proof. reflexivity. Qed.

(** A displayed line that itself looks displayed loses both prefixes. *)
Example nested_prefix_lost :
  stripNewLinePrefixes [formatHashLine zero_hash 7 (units "5ab|x")] = [units "x"].
Proof. reflexivity. Qed.

(** A line of content that reads like a notice is dropped with the prefixes. *)
Example notice_dropped :
  stripNewLinePrefixes [units "7ab|x"; units "[3 more lines in a.txt. Use :L9]"] = [units "x"].
Proof. reflexivity. Qed.
