(* ===== verification/SessionEntries.v ===== *)
(** * Session entries and files ([session/session-manager.ts],
      [agent/src/compaction/entries.ts])

    A session is a log of entries that form a tree: each names its parent.
    The file of a session holds a header, the entries in the order they were
    appended and, from version 4, patches of earlier records.

    A timestamp is its instant in milliseconds.  The values of extensions
    ([details], [data], [preserveData]) are those of [JsonClone.v]. *)

From S2P Require Import Prelude JsNumber JsonClone CodeUnits.

Local Open Scope list_scope.
Local Open Scope Z_scope.

(** ** Messages *)

Inductive block :=
| B_text (t : text)
| B_image
| B_thinking (t : text)
| B_toolCall (callId name : string) (arguments : value).

Inductive content := C_text (t : text) | C_blocks (bs : list block).

Record Usage := {
  input : Z; output : Z; cacheRead : Z; cacheWrite : Z; totalTokens : Z;
  premiumRequests : option number;
  total_cost : number
}.

(** [OpenAI]'s replacement of a history. *)
Record ProviderPayload := { payload_provider : string; payload_items : list (option value) }.

(** [M_toolResult] carries the [usage] of its details.  A message appended
    through [appendMessage] is none of the summaries. *)
Inductive AgentMessage :=
| M_user (c : content)
| M_developer (c : content)
| M_assistant (bs : list block) (provider model : string) (usage : Usage) (stopReason : string)
| M_toolResult (toolCallId toolName : string) (bs : list block) (usage : option Usage)
| M_bashExecution (command output : text)
| M_pythonExecution (code output : text)
| M_fileMention (files : list (string * text))
| M_hookMessage (customType : string) (c : content) (display : bool) (details : option value) (timestamp : Z) (attribution : option string)
| M_custom (customType : string) (c : content) (display : bool) (details : option value) (timestamp : Z) (attribution : option string)
| M_branchSummary (summary : text) (fromId : string) (timestamp : Z)
| M_compactionSummary (summary : text) (tokensBefore : Z) (timestamp : Z) (shortSummary : option text) (payload : option ProviderPayload).

Definition createBranchSummaryMessage (summary : text) (fromId : string) (timestamp : Z) : AgentMessage :=
  M_branchSummary summary fromId timestamp.

Definition createCompactionSummaryMessage (summary : text) (tokensBefore timestamp : Z) (shortSummary : option text)
    (payload : option ProviderPayload) : AgentMessage :=
  M_compactionSummary summary tokensBefore timestamp shortSummary payload.

Definition createCustomMessage (customType : string) (c : content) (display : bool) (details : option value) (timestamp : Z)
    (attribution : option string) : AgentMessage :=
  M_custom customType c display details timestamp attribution.

Definition is_assistant (m : AgentMessage) : bool := match m with M_assistant _ _ _ _ _ => true | _ => false end.
Definition is_toolResult (m : AgentMessage) : bool := match m with M_toolResult _ _ _ _ => true | _ => false end.

(** ** Entries *)

Record ConfiguredModelChain := {
  role : string; entries : list string; origin : string; identity : option string;
  explicitHead : bool; cleared : bool
}.

Record TtsrInjectionRecord := {
  rule_name : string; lastInjectedAt : Z; repeatMode : option string; repeatGap : option Z
}.

Record CompactionEntry := {
  c_summary : text; c_shortSummary : option text; firstKeptEntryId : string; tokensBefore : Z;
  c_details : option value; preserveData : option value; fromExtension : option bool
}.

Inductive entry_kind :=
| message (m : AgentMessage)
| thinking_level_change (thinkingLevel : option string)
| model_change (model : string) (role previousModel reason thinkingLevel : option string)
| service_tier_change (serviceTier : option string)
| compaction (c : CompactionEntry)
| branch_summary (fromId : string) (summary : text) (details : option value) (fromExtension : option bool)
| custom (customType : string) (data : option value)
| custom_message (customType : string) (c : content) (display : bool) (details : option value) (attribution : option string)
| label (targetId : string) (name : option string)
| ttsr_injection (injectedRules : list string) (records : option (list TtsrInjectionRecord)) (ttsrMessageCount : option Z)
| mcp_tool_selection (selectedToolNames : list string)
| session_init (systemPrompt task : text) (tools : list string) (outputSchema forkContext : option value)
| mode_change (mode : string) (data : option value)
| configured_model_chain (chain : ConfiguredModelChain).

Record SessionEntry := { entryId : string; parentId : option string; timestamp : Z; kind : entry_kind }.

Record SessionHeader := {
  version : option Z; sessionId : string; title : option text; titleSource : option string;
  created : Z; cwd : string; parentSession : option string
}.

Inductive FileEntry := F_session (h : SessionHeader) | F_entry (e : SessionEntry).

Definition CURRENT_SESSION_VERSION : Z := 4.

(** The entries without the header. *)
Definition session_entries (fs : list FileEntry) : list SessionEntry :=
  omap (fun f => match f with F_entry e => Some e | F_session _ => None end) fs.

Definition with_message (e : SessionEntry) (m : AgentMessage) : SessionEntry :=
  {| entryId := entryId e; parentId := parentId e; timestamp := timestamp e; kind := message m |}.

(** The parent that a traversal follows: the empty id counts as none. *)
Definition parent_of (e : SessionEntry) : option string :=
  match parentId e with Some ""%string | None => None | p => p end.

(** ** Positions by id

    The maps from ids to entries of the source hold the entries themselves;
    here they hold positions in the list of entries, which the entries do not
    leave while they are in the map. *)

Definition positions := list (string * nat).

Definition entry_at (fs : list FileEntry) (i : nat) : option SessionEntry :=
  match fs !! i with Some (F_entry e) => Some e | _ => None end.

Definition entry_by_id (fs : list FileEntry) (ps : positions) (x : string) : option SessionEntry :=
  i ← map_get ps x; entry_at fs i.

(** [entry.message = m] for the message entry [x]. *)
Definition set_message (fs : list FileEntry) (ps : positions) (x : string) (m : AgentMessage) : list FileEntry :=
  match map_get ps x with
  | Some i =>
      match entry_at fs i with
      | Some e => match kind e with message _ => <[i := F_entry (with_message e m)]> fs | _ => fs end
      | None => fs
      end
  | None => fs
  end.

(** ** Files

    A file is the list of its records; their JSON text is not modelled. *)

Record HeaderPatch := { patch_title : option text; patch_titleSource : option string; patch_cwd : option string }.

Inductive record :=
| R_session (h : SessionHeader)
| R_entry (e : SessionEntry)
| R_header_patch (p : HeaderPatch)
| R_entry_patch (x : string) (m : option AgentMessage).

Definition record_of (f : FileEntry) : record := match f with F_session h => R_session h | F_entry e => R_entry e end.

Definition or_else {A} (a b : option A) : option A := match a with Some _ => a | None => b end.

Definition applyHeaderPatch (h : SessionHeader) (p : HeaderPatch) : SessionHeader :=
  {| version := version h; sessionId := sessionId h; title := or_else (patch_title p) (title h);
     titleSource := or_else (patch_titleSource p) (titleSource h); created := created h;
     cwd := default (cwd h) (patch_cwd p); parentSession := parentSession h |}.

(** The first header, in place. *)
Fixpoint patch_header (fs : list FileEntry) (p : HeaderPatch) : list FileEntry :=
  match fs with
  | [] => []
  | F_session h :: fs => F_session (applyHeaderPatch h p) :: fs
  | f :: fs => f :: patch_header fs p
  end.

Fixpoint first_header (fs : list FileEntry) : option SessionHeader :=
  match fs with
  | [] => None
  | F_session h :: _ => Some h
  | F_entry _ :: fs => first_header fs
  end.

(** The header seen so far is of the current version. *)
Definition patches_apply (fs : list FileEntry) : bool :=
  match first_header fs with Some h => bool_decide (version h = Some CURRENT_SESSION_VERSION) | None => false end.

Definition parse_record (st : list FileEntry * positions) (r : record) : list FileEntry * positions :=
  let '(fs, entriesById) := st in
  match r with
  | R_header_patch p => (if patches_apply fs then patch_header fs p else fs, entriesById)
  | R_entry_patch x m =>
      (match m with Some m => if patches_apply fs then set_message fs entriesById x m else fs | None => fs end, entriesById)
  | R_session h => (fs ++ [F_session h], entriesById)
  | R_entry e => (fs ++ [F_entry e], map_set entriesById (entryId e) (length fs))
  end.

Definition parseSessionEntries (rs : list record) : list FileEntry := (foldl parse_record ([], []) rs).1.

(** A file without a header is no session. *)
Definition loadEntriesFromFile (file : option (list record)) : list FileEntry :=
  match file with
  | None => []
  | Some rs => match parseSessionEntries rs with (F_session _ :: _) as fs => fs | _ => [] end
  end.

(** ** Fresh ids *)

(** The first of a hundred random ids that is free, or a snowflake. *)
Definition generateId (has : string -> bool) (draws : nat -> string) (snowflake : string) : string :=
  default snowflake (draws <$> find_first (fun i => negb (has (draws i))) (seq 0 100)).

(** ** Migrations *)

Definition with_version (h : SessionHeader) (v : Z) : SessionHeader :=
  {| version := Some v; sessionId := sessionId h; title := title h; titleSource := titleSource h; created := created h;
     cwd := cwd h; parentSession := parentSession h |}.

(** An entry of a version 1 file has no ids, and a compaction in it may name
    the index of the first entry it keeps.  [generateId] is called on a set
    that stays empty, so the id is the first random one. *)
Definition migrate_entry (fs : list FileEntry) (e : SessionEntry) (x : string) (prevId : option string) (keptIndex : option nat)
    : SessionEntry :=
  {| entryId := x; parentId := prevId; timestamp := timestamp e;
     kind :=
       match kind e, keptIndex with
       | compaction c, Some i =>
           match entry_at fs i with
           | Some target =>
               compaction {| c_summary := c_summary c; c_shortSummary := c_shortSummary c; firstKeptEntryId := entryId target;
                             tokensBefore := tokensBefore c; c_details := c_details c; preserveData := preserveData c;
                             fromExtension := fromExtension c |}
           | None => kind e
           end
       | k, _ => k
       end |}.

(** [done] are the entries that have been migrated in place. *)
Fixpoint migrate_loop (draws : nat -> nat -> string) (keptIndex : nat -> option nat) (done todo : list FileEntry) (prevId : option string)
    : list FileEntry :=
  match todo with
  | [] => done
  | F_session h :: todo => migrate_loop draws keptIndex (done ++ [F_session (with_version h 2)]) todo prevId
  | F_entry e :: rest =>
      let i := length done in
      let x := generateId (fun _ => false) (draws i) "" in
      let renamed := F_entry {| entryId := x; parentId := prevId; timestamp := timestamp e; kind := kind e |} in
      migrate_loop draws keptIndex
        (done ++ [F_entry (migrate_entry (done ++ renamed :: rest) e x prevId (keptIndex i))]) rest (Some x)
  end.

Definition migrateV1ToV2 (draws : nat -> nat -> string) (keptIndex : nat -> option nat) (fs : list FileEntry) : list FileEntry :=
  migrate_loop draws keptIndex [] fs None.

(** [hookMessage] becomes [custom]. *)
Definition migrateV2ToV3 (fs : list FileEntry) : list FileEntry :=
  (fun f =>
    match f with
    | F_session h => F_session (with_version h 3)
    | F_entry e =>
        match kind e with
        | message (M_hookMessage t c d v ts a) => F_entry (with_message e (M_custom t c d v ts a))
        | _ => f
        end
    end) <$> fs.

Fixpoint set_first_version (fs : list FileEntry) (v : Z) : list FileEntry :=
  match fs with
  | [] => []
  | F_session h :: fs => F_session (with_version h v) :: fs
  | f :: fs => f :: set_first_version fs v
  end.

Definition migrateToCurrentVersion (draws : nat -> nat -> string) (keptIndex : nat -> option nat) (fs : list FileEntry)
    : list FileEntry * bool :=
  let v := default 1 (h ← first_header fs; version h) in
  if decide (CURRENT_SESSION_VERSION <= v) then (fs, false)
  else
    let fs := if decide (v < 2) then migrateV1ToV2 draws keptIndex fs else fs in
    let fs := if decide (v < 3) then migrateV2ToV3 fs else fs in
    (set_first_version fs CURRENT_SESSION_VERSION, true).
