(* ===== verification/SessionContext.v ===== *)
(** * What a session sends to the model ([buildSessionContext])

    The path from a leaf to the root of the tree of entries gives the settings
    in force and the messages of the conversation; a compaction on it replaces
    the messages before it by its summary and those it kept.  The association
    of messages with their entries (weak maps) is not modelled. *)

From S2P Require Import Prelude JsNumber JsonClone CodeUnits SessionEntries.

Local Open Scope list_scope.
Local Open Scope Z_scope.

(** ** The path *)

Definition by_id (es : list SessionEntry) : list (string * SessionEntry) :=
  foldl (fun m e => map_set m (entryId e) e) [] es.

(** From a leaf upwards; an id that returns ends the walk.  Every turn visits
    another id, so one unit of fuel per id and one more are enough. *)
Fixpoint walk (fuel : nat) (find : string -> option SessionEntry) (visited : list string) (current : option SessionEntry)
    : list SessionEntry :=
  match fuel, current with
  | S fuel, Some e =>
      if includes visited (entryId e) then []
      else e :: walk fuel find (entryId e :: visited) (p ← parent_of e; find p)
  | _, _ => []
  end.

Definition path_of (fuel : nat) (find : string -> option SessionEntry) (leaf : option SessionEntry) : list SessionEntry :=
  rev (walk fuel find [] leaf).

(** ** Settings *)

Record SessionContext := {
  messages : list AgentMessage;
  thinkingLevel : option string;
  serviceTier : option string;
  models : list (string * string);
  configuredModelChains : list (string * ConfiguredModelChain);
  injectedTtsrRules : list string;
  injectedTtsrRuleRecords : list TtsrInjectionRecord;
  ttsrMessageCount : Z;
  selectedMCPToolNames : list string;
  hasPersistedMCPToolSelection : bool;
  mode : string;
  modeData : option value
}.

Definition empty_context : SessionContext :=
  {| messages := []; thinkingLevel := Some "off"%string; serviceTier := None; models := []; configuredModelChains := [];
     injectedTtsrRules := []; injectedTtsrRuleRecords := []; ttsrMessageCount := 0; selectedMCPToolNames := [];
     hasPersistedMCPToolSelection := false; mode := "none"%string; modeData := None |}.

(** The chain of an entry, whose fields have the types they are declared with. *)
Definition normalizeConfiguredModelChainEntry (c : ConfiguredModelChain) : option ConfiguredModelChain :=
  if decide (role c = ""%string) then None
  else if cleared c then
    Some {| role := role c; entries := []; origin := origin c; identity := None; explicitHead := explicitHead c; cleared := true |}
  else
    match List.filter (fun m => negb (bool_decide (m = ""%string))) (entries c) with
    | [] => None
    | ms => Some {| role := role c; entries := ms; origin := origin c; identity := identity c; explicitHead := explicitHead c; cleared := false |}
    end.

(** What the loop over the path accumulates. *)
Record settings := {
  s_thinkingLevel : option string;
  s_serviceTier : option string;
  s_models : list (string * string);
  s_chains : list (string * ConfiguredModelChain);
  s_compaction : option SessionEntry;
  s_rules : list string;
  s_records : list (string * TtsrInjectionRecord);
  s_messageCount : Z;
  s_tools : list string;
  s_hasTools : bool;
  s_mode : string;
  s_modeData : option value;
  s_hasExplicitDefaultModel : bool
}.

Definition no_settings : settings :=
  {| s_thinkingLevel := Some "off"%string; s_serviceTier := None; s_models := []; s_chains := []; s_compaction := None; s_rules := [];
     s_records := []; s_messageCount := 0; s_tools := []; s_hasTools := false; s_mode := "none"%string; s_modeData := None;
     s_hasExplicitDefaultModel := false |}.

(** [set.add] *)
Definition set_add (l : list string) (x : string) : list string := if includes l x then l else l ++ [x].

Definition add_rule (st : list string * list (string * TtsrInjectionRecord)) (x : string) : list string * list (string * TtsrInjectionRecord) :=
  let '(rules, records) := st in
  (set_add rules x,
   match map_get records x with
   | Some _ => records
   | None => map_set records x {| rule_name := x; lastInjectedAt := 0; repeatMode := None; repeatGap := None |}
   end).

Definition add_record (st : list string * list (string * TtsrInjectionRecord)) (r : TtsrInjectionRecord)
    : list string * list (string * TtsrInjectionRecord) :=
  let '(rules, records) := st in (set_add rules (rule_name r), map_set records (rule_name r) r).

Definition with_thinking (s : settings) (l : option string) : settings :=
  {| s_thinkingLevel := Some (default "off"%string l); s_serviceTier := s_serviceTier s; s_models := s_models s; s_chains := s_chains s;
     s_compaction := s_compaction s; s_rules := s_rules s; s_records := s_records s; s_messageCount := s_messageCount s; s_tools := s_tools s;
     s_hasTools := s_hasTools s; s_mode := s_mode s; s_modeData := s_modeData s; s_hasExplicitDefaultModel := s_hasExplicitDefaultModel s |}.

Definition with_tier (s : settings) (t : option string) : settings :=
  {| s_thinkingLevel := s_thinkingLevel s; s_serviceTier := t; s_models := s_models s; s_chains := s_chains s;
     s_compaction := s_compaction s; s_rules := s_rules s; s_records := s_records s; s_messageCount := s_messageCount s; s_tools := s_tools s;
     s_hasTools := s_hasTools s; s_mode := s_mode s; s_modeData := s_modeData s; s_hasExplicitDefaultModel := s_hasExplicitDefaultModel s |}.

Definition with_models (s : settings) (ms : list (string * string)) (explicit : bool) : settings :=
  {| s_thinkingLevel := s_thinkingLevel s; s_serviceTier := s_serviceTier s; s_models := ms; s_chains := s_chains s;
     s_compaction := s_compaction s; s_rules := s_rules s; s_records := s_records s; s_messageCount := s_messageCount s; s_tools := s_tools s;
     s_hasTools := s_hasTools s; s_mode := s_mode s; s_modeData := s_modeData s; s_hasExplicitDefaultModel := explicit |}.

Definition with_chains (s : settings) (cs : list (string * ConfiguredModelChain)) : settings :=
  {| s_thinkingLevel := s_thinkingLevel s; s_serviceTier := s_serviceTier s; s_models := s_models s; s_chains := cs;
     s_compaction := s_compaction s; s_rules := s_rules s; s_records := s_records s; s_messageCount := s_messageCount s; s_tools := s_tools s;
     s_hasTools := s_hasTools s; s_mode := s_mode s; s_modeData := s_modeData s; s_hasExplicitDefaultModel := s_hasExplicitDefaultModel s |}.

Definition with_compaction (s : settings) (e : SessionEntry) : settings :=
  {| s_thinkingLevel := s_thinkingLevel s; s_serviceTier := s_serviceTier s; s_models := s_models s; s_chains := s_chains s;
     s_compaction := Some e; s_rules := s_rules s; s_records := s_records s; s_messageCount := s_messageCount s; s_tools := s_tools s;
     s_hasTools := s_hasTools s; s_mode := s_mode s; s_modeData := s_modeData s; s_hasExplicitDefaultModel := s_hasExplicitDefaultModel s |}.

Definition with_rules (s : settings) (rs : list string * list (string * TtsrInjectionRecord)) (count : option Z) : settings :=
  {| s_thinkingLevel := s_thinkingLevel s; s_serviceTier := s_serviceTier s; s_models := s_models s; s_chains := s_chains s;
     s_compaction := s_compaction s; s_rules := rs.1; s_records := rs.2; s_messageCount := default (s_messageCount s) count; s_tools := s_tools s;
     s_hasTools := s_hasTools s; s_mode := s_mode s; s_modeData := s_modeData s; s_hasExplicitDefaultModel := s_hasExplicitDefaultModel s |}.

Definition with_tools (s : settings) (ts : list string) : settings :=
  {| s_thinkingLevel := s_thinkingLevel s; s_serviceTier := s_serviceTier s; s_models := s_models s; s_chains := s_chains s;
     s_compaction := s_compaction s; s_rules := s_rules s; s_records := s_records s; s_messageCount := s_messageCount s; s_tools := ts;
     s_hasTools := true; s_mode := s_mode s; s_modeData := s_modeData s; s_hasExplicitDefaultModel := s_hasExplicitDefaultModel s |}.

Definition with_mode (s : settings) (m : string) (data : option value) : settings :=
  {| s_thinkingLevel := s_thinkingLevel s; s_serviceTier := s_serviceTier s; s_models := s_models s; s_chains := s_chains s;
     s_compaction := s_compaction s; s_rules := s_rules s; s_records := s_records s; s_messageCount := s_messageCount s; s_tools := s_tools s;
     s_hasTools := s_hasTools s; s_mode := m; s_modeData := data; s_hasExplicitDefaultModel := s_hasExplicitDefaultModel s |}.

Definition DEFAULT_ROLE : string := "default".

(** One turn of the loop over the path. *)
Definition apply_setting (s : settings) (e : SessionEntry) : settings :=
  match kind e with
  | thinking_level_change l => with_thinking s l
  | model_change m r _ _ _ =>
      if decide (m = ""%string) then s
      else
        let r := default DEFAULT_ROLE r in
        with_models s (map_set (s_models s) r m) (s_hasExplicitDefaultModel s || bool_decide (r = DEFAULT_ROLE))
  | configured_model_chain c =>
      match normalizeConfiguredModelChainEntry c with
      | Some c => with_chains s (if cleared c then map_delete (s_chains s) (role c) else map_set (s_chains s) (role c) c)
      | None => s
      end
  | service_tier_change t => with_tier s t
  | message (M_assistant _ provider model _ _) =>
      if s_hasExplicitDefaultModel s then s
      else with_models s (map_set (s_models s) DEFAULT_ROLE (provider ++ "/" ++ model)%string) false
  | compaction _ => with_compaction s e
  | ttsr_injection rules records count =>
      with_rules s (foldl add_record (foldl add_rule (s_rules s, s_records s) rules) (default [] records)) count
  | mcp_tool_selection ts => with_tools s ts
  | mode_change m data => with_mode s m data
  | _ => s
  end.

(** Names every object inherits, which [in] finds too. *)
Definition inherited : list string :=
  ["__defineGetter__"; "__defineSetter__"; "__lookupGetter__"; "__lookupSetter__"; "__proto__"; "constructor"; "hasOwnProperty";
   "isPrototypeOf"; "propertyIsEnumerable"; "toLocaleString"; "toString"; "valueOf"]%string.

(** A role with a model and no chain gets a chain of that model. *)
Definition add_legacy_chain (cs : list (string * ConfiguredModelChain)) (m : string * string) : list (string * ConfiguredModelChain) :=
  if includes inherited m.1 || bool_decide (is_Some (map_get cs m.1)) then cs
  else map_set cs m.1 {| role := m.1; entries := [m.2]; origin := "legacy_session"; identity := None; explicitHead := true; cleared := false |}.

(** ** Messages *)

(** [appendMessage] *)
Definition entry_messages (e : SessionEntry) : list AgentMessage :=
  match kind e with
  | message m => [m]
  | custom_message t c d details a => [createCustomMessage t c d details (timestamp e) a]
  | branch_summary fromId summary _ _ => match summary with [] => [] | _ => [createBranchSummaryMessage summary fromId (timestamp e)] end
  | _ => []
  end.

(** [value?.[key]] for a plain object. *)
Definition field (v : option value) (key : string) : option value :=
  match v with Some (V_obj fields _) => map_get fields key | _ => None end.

(** A history that [OpenAI] compacted itself. *)
Definition remote_payload (c : CompactionEntry) : option ProviderPayload :=
  let candidate := field (preserveData c) "openaiRemoteCompaction" in
  match field candidate "provider", field candidate "replacementHistory" with
  | Some (V_str p), Some (V_arr items) => if decide (p = ""%string) then None else Some {| payload_provider := p; payload_items := items |}
  | _, _ => None
  end.

(** From the first entry kept up to the compaction. *)
Fixpoint kept_messages (firstKept : string) (found : bool) (es : list SessionEntry) : list AgentMessage :=
  match es with
  | [] => []
  | e :: es =>
      let found := found || bool_decide (entryId e = firstKept) in
      (if found then entry_messages e else []) ++ kept_messages firstKept found es
  end.

Definition is_compaction (e : SessionEntry) : bool := match kind e with compaction _ => true | _ => false end.

(** The position of the first compaction of that id on the path. *)
Fixpoint compaction_index (x : string) (path : list SessionEntry) : nat :=
  match path with
  | [] => O
  | e :: path => if is_compaction e && bool_decide (entryId e = x) then O else S (compaction_index x path)
  end.

Definition path_messages (path : list SessionEntry) (last_compaction : option SessionEntry) : list AgentMessage :=
  match last_compaction with
  | Some ce =>
      match kind ce with
      | compaction c =>
          let payload := remote_payload c in
          let i := compaction_index (entryId ce) path in
          [createCompactionSummaryMessage (c_summary c) (tokensBefore c) (timestamp ce) (c_shortSummary c) payload] ++
          (match payload with Some _ => [] | None => kept_messages (firstKeptEntryId c) false (take i path) end) ++
          concat (entry_messages <$> drop (S i) path)
      | _ => []
      end
  | None => concat (entry_messages <$> path)
  end.

Definition context_of_path (path : list SessionEntry) : SessionContext :=
  let s := foldl apply_setting no_settings path in
  {| messages := path_messages path (s_compaction s);
     thinkingLevel := s_thinkingLevel s; serviceTier := s_serviceTier s; models := s_models s;
     configuredModelChains := foldl add_legacy_chain (s_chains s) (s_models s);
     injectedTtsrRules := s_rules s; injectedTtsrRuleRecords := (s_records s).*2; ttsrMessageCount := s_messageCount s;
     selectedMCPToolNames := s_tools s; hasPersistedMCPToolSelection := s_hasTools s; mode := s_mode s; modeData := s_modeData s |}.

(** [leafId] is [None] when it is [undefined], [Some None] when it is [null]. *)
Definition buildSessionContext (es : list SessionEntry) (leafId : option (option string)) : SessionContext :=
  let m := by_id es in
  match leafId with
  | Some None => empty_context
  | _ =>
      let found := match leafId with Some (Some ""%string) | None | Some None => None | Some (Some x) => map_get m x end in
      match (match found with Some e => Some e | None => last es end) with
      | None => empty_context
      | Some leaf => context_of_path (path_of (S (length es)) (map_get m) (Some leaf))
      end
  end.
