(* ===== verification/SessionTree.v ===== *)
(** * The session manager ([SessionManager] of [session/session-manager.ts])

    Entries are appended below the current leaf, which may be moved to any
    entry; nothing is deleted.  The manager keeps an index, the labels, the
    usage of the session and a cache of the context, and writes the session's
    file.

    Blobs, cold storage and the details of writing are not modelled: what is
    appended is what is read, a write succeeds, and the file is the list of its
    records.  An id that is generated comes with the random draws it is made
    of and the snowflake it falls back to. *)

From S2P Require Import Prelude JsNumber JsonClone CodeUnits SessionEntries SessionContext.

Local Open Scope list_scope.
Local Open Scope Z_scope.

(** ** State *)

Record UsageStatistics := {
  st_input : Z; st_output : Z; st_cacheRead : Z; st_cacheWrite : Z; st_premiumRequests : number; st_cost : number
}.

Definition no_usage : UsageStatistics :=
  {| st_input := 0; st_output := 0; st_cacheRead := 0; st_cacheWrite := 0; st_premiumRequests := num_zero; st_cost := num_zero |}.

(** The tree: [fileEntries], the index, the labels, the leaf and the usage. *)
Record tree := {
  fileEntries : list FileEntry;
  byId : positions;
  labelsById : list (string * string);
  leafId : option string;
  usageStatistics : UsageStatistics
}.

Record revisions := { entryRevision : Z; leafRevision : Z; headerExportRevision : Z; labelRevision : Z; replayMetadataRevision : Z }.

(** [disk] is the session's file. *)
Record storage := {
  persist : bool;
  sessionFile : option string;
  flushed : bool;
  needsFullRewriteOnNextPersist : bool;
  ensuredOnDisk : bool;
  disk : option (list record)
}.

Record context_cache := { cached : SessionContext; cached_entry : Z; cached_leaf : Z; cached_replay : Z }.

Record SessionManager := {
  m_sessionId : string; sessionName : option text; m_titleSource : option string; m_cwd : string;
  trees : tree; revs : revisions; files : storage;
  sessionContextCache : option context_cache
}.

Definition with_tree (m : SessionManager) (t : tree) (r : revisions) : SessionManager :=
  {| m_sessionId := m_sessionId m; sessionName := sessionName m; m_titleSource := m_titleSource m; m_cwd := m_cwd m;
     trees := t; revs := r; files := files m; sessionContextCache := sessionContextCache m |}.

Definition with_files (m : SessionManager) (f : storage) : SessionManager :=
  {| m_sessionId := m_sessionId m; sessionName := sessionName m; m_titleSource := m_titleSource m; m_cwd := m_cwd m;
     trees := trees m; revs := revs m; files := f; sessionContextCache := sessionContextCache m |}.

Definition with_cache (m : SessionManager) (c : context_cache) : SessionManager :=
  {| m_sessionId := m_sessionId m; sessionName := sessionName m; m_titleSource := m_titleSource m; m_cwd := m_cwd m;
     trees := trees m; revs := revs m; files := files m; sessionContextCache := Some c |}.

Definition with_title (m : SessionManager) (name : option text) (source : option string) : SessionManager :=
  {| m_sessionId := m_sessionId m; sessionName := name; m_titleSource := source; m_cwd := m_cwd m;
     trees := trees m; revs := revs m; files := files m; sessionContextCache := sessionContextCache m |}.

Definition with_session (m : SessionManager) (x : string) : SessionManager :=
  {| m_sessionId := x; sessionName := sessionName m; m_titleSource := m_titleSource m; m_cwd := m_cwd m;
     trees := trees m; revs := revs m; files := files m; sessionContextCache := sessionContextCache m |}.

Definition bumpEntryRevision (r : revisions) : revisions :=
  {| entryRevision := entryRevision r + 1; leafRevision := leafRevision r; headerExportRevision := headerExportRevision r;
     labelRevision := labelRevision r; replayMetadataRevision := replayMetadataRevision r |}.

Definition bumpLeafRevision (r : revisions) : revisions :=
  {| entryRevision := entryRevision r; leafRevision := leafRevision r + 1; headerExportRevision := headerExportRevision r;
     labelRevision := labelRevision r; replayMetadataRevision := replayMetadataRevision r |}.

Definition bumpHeaderRevision (r : revisions) : revisions :=
  {| entryRevision := entryRevision r; leafRevision := leafRevision r; headerExportRevision := headerExportRevision r + 1;
     labelRevision := labelRevision r; replayMetadataRevision := replayMetadataRevision r |}.

Definition bumpLabelRevision (r : revisions) : revisions :=
  {| entryRevision := entryRevision r; leafRevision := leafRevision r; headerExportRevision := headerExportRevision r;
     labelRevision := labelRevision r + 1; replayMetadataRevision := replayMetadataRevision r |}.

Definition bumpReplayRevision (r : revisions) : revisions :=
  {| entryRevision := entryRevision r; leafRevision := leafRevision r; headerExportRevision := headerExportRevision r;
     labelRevision := labelRevision r; replayMetadataRevision := replayMetadataRevision r + 1 |}.

Definition bumpAllRevisions (r : revisions) : revisions :=
  {| entryRevision := entryRevision r + 1; leafRevision := leafRevision r + 1; headerExportRevision := headerExportRevision r + 1;
     labelRevision := labelRevision r + 1; replayMetadataRevision := replayMetadataRevision r + 1 |}.

(** ** The index *)

Definition add_usage (u : UsageStatistics) (v : Usage) : UsageStatistics :=
  {| st_input := st_input u + input v; st_output := st_output u + output v; st_cacheRead := st_cacheRead u + cacheRead v;
     st_cacheWrite := st_cacheWrite u + cacheWrite v;
     st_premiumRequests := num_add (st_premiumRequests u) (default num_zero (premiumRequests v));
     st_cost := num_add (st_cost u) (total_cost v) |}.

(** What an answer or a [task] tool reports. *)
Definition entry_usage (u : UsageStatistics) (e : SessionEntry) : UsageStatistics :=
  match kind e with
  | message (M_assistant _ _ _ v _) => add_usage u v
  | message (M_toolResult _ toolName _ (Some v)) => if decide (toolName = "task"%string) then add_usage u v else u
  | _ => u
  end.

(** An empty label clears. *)
Definition set_label (ls : list (string * string)) (target : string) (name : option string) : list (string * string) :=
  match name with
  | Some ""%string | None => map_delete ls target
  | Some l => map_set ls target l
  end.

Definition index_entry (t : tree) (f : FileEntry) : tree :=
  match f with
  | F_session _ => {| fileEntries := fileEntries t ++ [f]; byId := byId t; labelsById := labelsById t; leafId := leafId t;
                      usageStatistics := usageStatistics t |}
  | F_entry e =>
      {| fileEntries := fileEntries t ++ [f];
         byId := map_set (byId t) (entryId e) (length (fileEntries t));
         labelsById := match kind e with label target l => set_label (labelsById t) target l | _ => labelsById t end;
         leafId := Some (entryId e);
         usageStatistics := entry_usage (usageStatistics t) e |}
  end.

Definition empty_tree : tree := {| fileEntries := []; byId := []; labelsById := []; leafId := None; usageStatistics := no_usage |}.

(** The index of a list of entries: the leaf is the last. *)
Definition buildIndex (fs : list FileEntry) : tree := foldl index_entry empty_tree fs.

(** ** The file *)

Definition rewriteFile (m : SessionManager) : SessionManager :=
  let f := files m in
  if negb (persist f) || bool_decide (sessionFile f = None) then m
  else with_files m
    {| persist := persist f; sessionFile := sessionFile f; flushed := true; needsFullRewriteOnNextPersist := false;
       ensuredOnDisk := true; disk := Some (record_of <$> fileEntries (trees m)) |}.

Definition with_disk (f : storage) (d : option (list record)) : storage :=
  {| persist := persist f; sessionFile := sessionFile f; flushed := flushed f;
     needsFullRewriteOnNextPersist := needsFullRewriteOnNextPersist f; ensuredOnDisk := ensuredOnDisk f; disk := d |}.

Definition needs_rewrite (f : storage) : storage :=
  {| persist := persist f; sessionFile := sessionFile f; flushed := flushed f;
     needsFullRewriteOnNextPersist := true; ensuredOnDisk := ensuredOnDisk f; disk := disk f |}.

Definition unflushed (f : storage) : storage :=
  {| persist := persist f; sessionFile := sessionFile f; flushed := false;
     needsFullRewriteOnNextPersist := needsFullRewriteOnNextPersist f; ensuredOnDisk := false; disk := disk f |}.

Definition has_assistant (fs : list FileEntry) : bool :=
  existsb (fun e => match kind e with message m => is_assistant m | _ => false end) (session_entries fs).

(** Nothing is written before the first answer. *)
Definition persist_entry (m : SessionManager) (e : SessionEntry) : SessionManager :=
  let f := files m in
  if negb (persist f) || bool_decide (sessionFile f = None) then m
  else if negb (ensuredOnDisk f) && negb (has_assistant (fileEntries (trees m))) then with_files m (unflushed f)
  else if needsFullRewriteOnNextPersist f || negb (flushed f) then rewriteFile m
  else with_files m (with_disk f (Some (default [] (disk f) ++ [R_entry e]))).

Definition header_version (fs : list FileEntry) : Z := default 1 (h ← first_header fs; version h).

(** A patch is appended to a file that is there and complete. *)
Definition persistPatch (m : SessionManager) (r : record) : SessionManager :=
  let f := files m in
  match persist f, sessionFile f, disk f with
  | true, Some _, Some d =>
      if needsFullRewriteOnNextPersist f || negb (flushed f) || bool_decide (header_version (fileEntries (trees m)) < CURRENT_SESSION_VERSION)
      then rewriteFile m
      else with_files m (with_disk f (Some (d ++ [r])))
  | _, _, _ => m
  end.

Definition ensureOnDisk (m : SessionManager) : SessionManager :=
  let f := files m in
  if negb (persist f) || bool_decide (sessionFile f = None) then m
  else if flushed f && negb (needsFullRewriteOnNextPersist f) then m
  else rewriteFile m.

(** ** Appending *)

Record fresh := { draws : nat -> string; snowflake : string; now : Z }.

Definition has_id (ps : positions) (x : string) : bool := bool_decide (is_Some (map_get ps x)).

Definition fresh_id (m : SessionManager) (f : fresh) : string := generateId (has_id (byId (trees m))) (draws f) (snowflake f).

Definition appendEntry (m : SessionManager) (e : SessionEntry) : SessionManager :=
  let r := bumpLeafRevision (bumpEntryRevision (revs m)) in
  let r := match kind e with label _ _ => bumpLabelRevision r | _ => r end in
  let t := trees m in
  let t' := {| fileEntries := fileEntries t ++ [F_entry e]; byId := map_set (byId t) (entryId e) (length (fileEntries t));
               labelsById := labelsById t; leafId := Some (entryId e); usageStatistics := entry_usage (usageStatistics t) e |} in
  persist_entry (with_tree m t' r) e.

(** An entry below the leaf, and its id. *)
Definition append_below (m : SessionManager) (f : fresh) (k : entry_kind) : string * SessionManager :=
  let e := {| entryId := fresh_id m f; parentId := leafId (trees m); timestamp := now f; kind := k |} in
  (entryId e, appendEntry m e).

Definition appendMessage (m : SessionManager) (f : fresh) (msg : AgentMessage) := append_below m f (message msg).
Definition appendThinkingLevelChange (m : SessionManager) (f : fresh) (l : option string) := append_below m f (thinking_level_change l).
Definition appendServiceTierChange (m : SessionManager) (f : fresh) (t : option string) := append_below m f (service_tier_change t).
Definition appendModeChange (m : SessionManager) (f : fresh) (mode : string) (data : option value) := append_below m f (mode_change mode data).
Definition appendModelChange (m : SessionManager) (f : fresh) (model : string) (role previousModel reason thinkingLevel : option string) :=
  append_below m f (model_change model role previousModel reason thinkingLevel).
Definition appendConfiguredModelChain (m : SessionManager) (f : fresh) (c : ConfiguredModelChain) := append_below m f (configured_model_chain c).
Definition appendSessionInit (m : SessionManager) (f : fresh) (systemPrompt task : text) (tools : list string) (schema fork : option value) :=
  append_below m f (session_init systemPrompt task tools schema fork).
Definition appendCompaction (m : SessionManager) (f : fresh) (c : CompactionEntry) := append_below m f (compaction c).
Definition appendCustomEntry (m : SessionManager) (f : fresh) (t : string) (data : option value) := append_below m f (custom t data).
Definition appendMCPToolSelection (m : SessionManager) (f : fresh) (ts : list string) := append_below m f (mcp_tool_selection ts).
Definition appendTtsrInjection (m : SessionManager) (f : fresh) (rules : list string) (records : option (list TtsrInjectionRecord)) (count : option Z) :=
  append_below m f (ttsr_injection rules records count).

(** [details] as they are stored: an observation id is put into an object, and
    the internal field is removed. *)
Definition INTERNAL_DETAILS_FIELD : string := "__pendingDisplayTag".

Definition stripInternalDetailsFields (details : option value) : option value :=
  match details with
  | Some (V_obj fields h) => Some (V_obj (map_delete fields INTERNAL_DETAILS_FIELD) h)
  | d => d
  end.

Definition starts_with_irc (t : string) : bool := String.prefix "irc:" t.

Definition persisted_details (m : SessionManager) (x customType : string) (details : option value) (observationId : option string) : option value :=
  let stable := match observationId with
                | Some o => Some o
                | None => if starts_with_irc customType then Some ("session:" ++ m_sessionId m ++ ":entry:" ++ x)%string else None
                end in
  match stable, details with
  | Some o, Some (V_obj fields h) => if decide (o = ""%string) then details else Some (V_obj (map_set fields "observationId" (V_str o)) h)
  | _, _ => details
  end.

Definition appendCustomMessageEntry (m : SessionManager) (f : fresh) (customType : string) (c : content) (display : bool)
    (details : option value) (attribution : option string) (observationId : option string) : string * SessionManager :=
  let x := fresh_id m f in
  append_below m f (custom_message customType c display (stripInternalDetailsFields (persisted_details m x customType details observationId))
    (Some (default "agent"%string attribution))).

(** A root below which the context is clear. *)
Definition appendContextClearEntry (m : SessionManager) (f : fresh) (data : option value) : string * SessionManager :=
  let e := {| entryId := fresh_id m f; parentId := None; timestamp := now f; kind := custom "context_clear" data |} in
  (entryId e, appendEntry m e).

(** The leaf moves, and the labels change. *)
Definition set_leaf (t : tree) (l : option string) : tree :=
  {| fileEntries := fileEntries t; byId := byId t; labelsById := labelsById t; leafId := l; usageStatistics := usageStatistics t |}.

Definition with_labels (m : SessionManager) (ls : list (string * string)) : SessionManager :=
  let t := trees m in
  with_tree m {| fileEntries := fileEntries t; byId := byId t; labelsById := ls; leafId := leafId t; usageStatistics := usageStatistics t |} (revs m).

Definition not_found (x : string) : string := ("Entry " ++ x ++ " not found")%string.

Definition appendLabelChange (m : SessionManager) (f : fresh) (target : string) (name : option string)
    : outcome string (string * SessionManager) :=
  if negb (has_id (byId (trees m)) target) then Throw (not_found target)
  else
    let '(x, m) := append_below m f (label target name) in
    Ok (x, with_labels m (set_label (labelsById (trees m)) target name)).

(** ** Moving *)

Definition branch (m : SessionManager) (x : string) : outcome string SessionManager :=
  if negb (has_id (byId (trees m)) x) then Throw (not_found x)
  else Ok (with_tree m (set_leaf (trees m) (Some x)) (bumpLeafRevision (revs m))).

Definition resetLeaf (m : SessionManager) : SessionManager :=
  with_tree m (set_leaf (trees m) None) (bumpLeafRevision (revs m)).

Definition branchWithSummary (m : SessionManager) (f : fresh) (from : option string) (summary : text) (details : option value)
    (fromExtension : option bool) : outcome string (string * SessionManager) :=
  if match from with Some x => negb (has_id (byId (trees m)) x) | None => false end then Throw (not_found (default "" from))
  else
    let m := with_tree m (set_leaf (trees m) from) (revs m) in
    let e := {| entryId := fresh_id m f; parentId := from; timestamp := now f;
                kind := branch_summary (default "root"%string from) summary details fromExtension |} in
    Ok (entryId e, appendEntry m e).

(** ** Reading *)

Definition find_entry (m : SessionManager) (x : string) : option SessionEntry :=
  entry_by_id (fileEntries (trees m)) (byId (trees m)) x.

(** The empty id is no entry. *)
Definition start_of (m : SessionManager) (from : option string) : option SessionEntry :=
  match (match from with Some x => Some x | None => leafId (trees m) end) with
  | Some ""%string | None => None
  | Some x => find_entry m x
  end.

Definition branch_fuel (m : SessionManager) : nat := S (length (fileEntries (trees m))).

Definition getBranch (m : SessionManager) (from : option string) : list SessionEntry :=
  path_of (branch_fuel m) (find_entry m) (start_of m from).

Definition getChildren (m : SessionManager) (x : string) : list SessionEntry :=
  List.filter (fun e => bool_decide (parentId e = Some x))
    (omap (fun p => entry_at (fileEntries (trees m)) p.2) (byId (trees m))).

Definition getLabel (m : SessionManager) (x : string) : option string := map_get (labelsById (trees m)) x.

(** From the leaf upwards, the role of the first change of model. *)
Fixpoint last_role (es : list SessionEntry) : option string :=
  match es with
  | [] => None
  | e :: es => match kind e with model_change _ r _ _ _ => Some (default DEFAULT_ROLE r) | _ => last_role es end
  end.

Definition getLastModelChangeRole (m : SessionManager) : option string :=
  last_role (walk (branch_fuel m) (find_entry m) [] (start_of m None)).

Definition getInjectedTtsrRules (m : SessionManager) : list string :=
  foldl (fun rules e => match kind e with ttsr_injection rs _ _ => foldl set_add rules rs | _ => rules end) [] (getBranch m None).

(** The entries the context is built from, and the context. *)
Definition active_path (m : SessionManager) : list SessionEntry :=
  path_of (branch_fuel m) (find_entry m) (x ← leafId (trees m); find_entry m x).

Definition build_context (m : SessionManager) : SessionContext := buildSessionContext (active_path m) (Some (leafId (trees m))).

Definition cache_valid (m : SessionManager) (c : context_cache) : bool :=
  bool_decide (cached_entry c = entryRevision (revs m)) && bool_decide (cached_leaf c = leafRevision (revs m)) &&
  bool_decide (cached_replay c = replayMetadataRevision (revs m)).

Definition getSessionContextForRead (m : SessionManager) : SessionContext * SessionManager :=
  let fill :=
    let c := build_context m in
    (c, with_cache m {| cached := c; cached_entry := entryRevision (revs m); cached_leaf := leafRevision (revs m);
                        cached_replay := replayMetadataRevision (revs m) |}) in
  match sessionContextCache m with
  | Some c => if cache_valid m c then (cached c, m) else fill
  | None => fill
  end.

(** ** Updates in place *)

Definition with_entries (t : tree) (fs : list FileEntry) : tree :=
  {| fileEntries := fs; byId := byId t; labelsById := labelsById t; leafId := leafId t; usageStatistics := usageStatistics t |}.

(** A message, or the content and details of a custom message, by id. *)
Definition applyEntryMessageUpdates (m : SessionManager) (updates : list (string * AgentMessage)) : SessionManager :=
  let t := trees m in
  let fs := foldl (fun fs '(x, msg) => set_message fs (byId t) x msg) (fileEntries t) updates in
  with_files (with_tree m (with_entries t fs) (bumpReplayRevision (bumpEntryRevision (revs m)))) (needs_rewrite (files m)).

Definition set_custom (fs : list FileEntry) (ps : positions) (x : string) (c : content) (details : option value) : list FileEntry :=
  match map_get ps x with
  | Some i =>
      match entry_at fs i with
      | Some e =>
          match kind e with
          | custom_message t _ d _ a =>
              <[i := F_entry {| entryId := entryId e; parentId := parentId e; timestamp := timestamp e; kind := custom_message t c d details a |}]> fs
          | _ => fs
          end
      | None => fs
      end
  | None => fs
  end.

Definition applyCustomMessageEntryUpdates (m : SessionManager) (updates : list (string * (content * option value))) : SessionManager :=
  let t := trees m in
  let fs := foldl (fun fs '(x, (c, d)) => set_custom fs (byId t) x c d) (fileEntries t) updates in
  with_files (with_tree m (with_entries t fs) (bumpReplayRevision (bumpEntryRevision (revs m)))) (needs_rewrite (files m)).

Definition rewriteEntries (m : SessionManager) : SessionManager := rewriteFile m.

(** *** The title *)

Definition SESSION_NAME_MAX_CHARS : nat := 1000.

Definition is_control (c : Z) : bool := bool_decide (0 <= c <= 31) || bool_decide (127 <= c <= 159).

(** [replace(/ +/g, " ")] *)
Fixpoint collapse_spaces (after_space : bool) (s : text) : text :=
  match s with
  | [] => []
  | c :: s => if c =? 32 then if after_space then collapse_spaces true s else 32 :: collapse_spaces true s else c :: collapse_spaces false s
  end.

Definition sanitizeName (name : text) : text :=
  take SESSION_NAME_MAX_CHARS (trim (collapse_spaces false ((fun c => if is_control c then 32 else c) <$> name))).

Definition appendHeaderPatch (m : SessionManager) (p : HeaderPatch) : SessionManager :=
  match first_header (fileEntries (trees m)) with
  | None => m
  | Some _ => persistPatch (with_tree m (with_entries (trees m) (patch_header (fileEntries (trees m)) p)) (bumpHeaderRevision (revs m))) (R_header_patch p)
  end.

(** A name that the user has set is kept. *)
Definition setSessionName (m : SessionManager) (name : text) (source : string) : bool * SessionManager :=
  if bool_decide (m_titleSource m = Some "user"%string) && bool_decide (source = "auto"%string) then (false, m)
  else
    match sanitizeName name with
    | [] => (false, m)
    | sanitized =>
        (true, appendHeaderPatch (with_title m (Some sanitized) (Some source))
                 {| patch_title := Some sanitized; patch_titleSource := Some source; patch_cwd := None |})
    end.

(** *** Replay metadata

    [sanitize] removes what a provider must not be sent again from an answer;
    it gives back the message itself, here [None], when there is nothing. *)
Section sanitize.
Context (sanitize : AgentMessage -> option AgentMessage).

Definition sanitize_entry (f : FileEntry) : FileEntry * list record :=
  match f with
  | F_entry e =>
      match kind e with
      | message msg =>
          if is_assistant msg then
            match sanitize msg with
            | Some msg => (F_entry (with_message e msg), [R_entry_patch (entryId e) (Some msg)])
            | None => (f, [])
            end
          else (f, [])
      | _ => (f, [])
      end
  | F_session _ => (f, [])
  end.

Definition sanitizeLoaded (m : SessionManager) : list record * SessionManager :=
  let out := sanitize_entry <$> fileEntries (trees m) in
  match concat out.*2 with
  | [] => ([], m)
  | patches => (patches, with_tree m (with_entries (trees m) out.*1) (bumpReplayRevision (bumpEntryRevision (revs m))))
  end.

Definition sanitizeLoadedAndPersist (m : SessionManager) : SessionManager :=
  let '(patches, m) := sanitizeLoaded m in foldl persistPatch m patches.
End sanitize.

(** ** Sessions *)

Definition new_header (x : string) (now : Z) (cwd : string) (parent : option string) : SessionHeader :=
  {| version := Some CURRENT_SESSION_VERSION; sessionId := x; title := None; titleSource := None; created := now; cwd := cwd; parentSession := parent |}.

(** [path] is the name of the new session's file, which is not there yet. *)
Definition newSession (m : SessionManager) (x : string) (now : Z) (path : string) (parent : option string) : SessionManager :=
  let f := files m in
  {| m_sessionId := x; sessionName := None; m_titleSource := None; m_cwd := m_cwd m;
     trees := with_entries empty_tree [F_session (new_header x now (m_cwd m) parent)];
     revs := bumpAllRevisions (revs m);
     files := {| persist := persist f; sessionFile := if persist f then Some path else sessionFile f; flushed := false;
                 needsFullRewriteOnNextPersist := false; ensuredOnDisk := false; disk := if persist f then None else disk f |};
     sessionContextCache := sessionContextCache m |}.

Section load.
Context (sanitize : AgentMessage -> option AgentMessage).
Context (draws : nat -> nat -> string) (keptIndex : nat -> option nat).

(** [setSessionFile]: the entries of a file, migrated, or a new session in it. *)
Definition setSessionFile (m : SessionManager) (path : string) (content : option (list record)) (x : string) (now : Z) : SessionManager :=
  let f := files m in
  match loadEntriesFromFile content with
  | [] =>
      let m := newSession m x now path None in
      let f := files m in
      let m := with_files m {| persist := persist f; sessionFile := Some path; flushed := flushed f;
                               needsFullRewriteOnNextPersist := needsFullRewriteOnNextPersist f; ensuredOnDisk := ensuredOnDisk f; disk := content |} in
      let m := rewriteFile m in
      let f := files m in
      with_tree (with_files m {| persist := persist f; sessionFile := sessionFile f; flushed := true;
                                 needsFullRewriteOnNextPersist := needsFullRewriteOnNextPersist f; ensuredOnDisk := true; disk := disk f |})
        (trees m) (bumpAllRevisions (revs m))
  | fs =>
      let '(fs, migrated) := migrateToCurrentVersion draws keptIndex fs in
      let h := first_header fs in
      sanitizeLoadedAndPersist sanitize
        {| m_sessionId := default x (sessionId <$> h); sessionName := h ← h; title h; m_titleSource := h ← h; titleSource h; m_cwd := m_cwd m;
           trees := buildIndex fs; revs := bumpAllRevisions (revs m);
           files := {| persist := persist f; sessionFile := Some path; flushed := true; needsFullRewriteOnNextPersist := migrated;
                       ensuredOnDisk := true; disk := content |};
           sessionContextCache := sessionContextCache m |}
  end.
End load.

(** [fork]: the same entries under a new header and in a new file; the index
    is built again. *)
Definition fork (m : SessionManager) (x : string) (now : Z) (path : string) : SessionManager :=
  let f := files m in
  if negb (persist f) || bool_decide (sessionFile f = None) then m
  else
    let old := first_header (fileEntries (trees m)) in
    let h := {| version := Some CURRENT_SESSION_VERSION; sessionId := x; title := or_else (h ← old; title h) (sessionName m);
                titleSource := or_else (h ← old; titleSource h) (m_titleSource m); created := now; cwd := m_cwd m;
                parentSession := Some (m_sessionId m) |} in
    let fs := F_session h :: (F_entry <$> session_entries (fileEntries (trees m))) in
    rewriteFile
      {| m_sessionId := x; sessionName := title h; m_titleSource := titleSource h; m_cwd := m_cwd m;
         trees := buildIndex fs; revs := bumpAllRevisions (revs m);
         files := {| persist := persist f; sessionFile := Some path; flushed := false;
                     needsFullRewriteOnNextPersist := needsFullRewriteOnNextPersist f; ensuredOnDisk := ensuredOnDisk f; disk := None |};
         sessionContextCache := sessionContextCache m |}.

(** A snapshot for a rollback; it has no leaf. *)
Record SessionManagerStateSnapshot := {
  snap_sessionId : string; snap_sessionName : option text; snap_titleSource : option string;
  snap_files : storage; snap_fileEntries : list FileEntry
}.

Definition captureState (m : SessionManager) : SessionManagerStateSnapshot :=
  {| snap_sessionId := m_sessionId m; snap_sessionName := sessionName m; snap_titleSource := m_titleSource m;
     snap_files := files m; snap_fileEntries := fileEntries (trees m) |}.

(** [disk] is what the file holds by then. *)
Definition restoreState (m : SessionManager) (s : SessionManagerStateSnapshot) (disk : option (list record)) : SessionManager :=
  {| m_sessionId := snap_sessionId s; sessionName := snap_sessionName s; m_titleSource := snap_titleSource s; m_cwd := m_cwd m;
     trees := buildIndex (snap_fileEntries s); revs := bumpAllRevisions (revs m);
     files := with_disk (snap_files s) disk; sessionContextCache := sessionContextCache m |}.

(** ** A session of one path *)

Definition is_label (e : SessionEntry) : bool := match kind e with label _ _ => true | _ => false end.

(** Fresh entries for the labels of the path, one below the other. *)
Fixpoint label_entries (f : nat -> fresh) (taken : list string) (parent : option string) (ls : list (string * string)) : list SessionEntry :=
  match ls with
  | [] => []
  | (target, name) :: ls =>
      let x := generateId (includes taken) (draws (f (length ls))) (snowflake (f (length ls))) in
      {| entryId := x; parentId := parent; timestamp := now (f (length ls)); kind := label target (Some name) |} ::
      label_entries f (taken ++ [x]) (Some x) ls
  end.

Definition branched_entries (m : SessionManager) (f : nat -> fresh) (path : list SessionEntry) : list SessionEntry :=
  let path := List.filter (fun e => negb (is_label e)) path in
  let ids := entryId <$> path in
  let labels := List.filter (fun p => includes ids p.1) (labelsById (trees m)) in
  path ++ label_entries f ids (entryId <$> last path) labels.

Definition createBranchedSession (m : SessionManager) (leaf : string) (x : string) (now : Z) (file : string) (f : nat -> fresh)
    : outcome string SessionManager :=
  let path := getBranch m (Some leaf) in
  match path with
  | [] => Throw (not_found leaf)
  | _ =>
      let st := files m in
      let h := new_header x now (m_cwd m) (if persist st then sessionFile st else None) in
      let fs := F_session h :: (F_entry <$> branched_entries m f path) in
      Ok {| m_sessionId := x; sessionName := sessionName m; m_titleSource := m_titleSource m; m_cwd := m_cwd m;
            trees := buildIndex fs; revs := bumpAllRevisions (revs m);
            files := if persist st then
                       {| persist := persist st; sessionFile := Some file; flushed := true;
                          needsFullRewriteOnNextPersist := needsFullRewriteOnNextPersist st; ensuredOnDisk := ensuredOnDisk st;
                          disk := Some (record_of <$> fs) |}
                     else st;
            sessionContextCache := sessionContextCache m |}
  end.

(** ** Staged selection of a model *)

Record DefaultModelSelectionStage := {
  stage_entryRevision : Z; stage_headerExportRevision : Z; stage_sessionId : string; stage_sessionFile : option string;
  stage_entries : list FileEntry; persistsToExistingFile : bool
}.

Definition stage_ids (ids : list string) (f : fresh) : string := generateId (includes ids) (draws f) (snowflake f).

Definition stageDefaultModelSelection (m : SessionManager) (f1 f2 f3 : fresh) (model : string) (thinkingLevel : option string)
    (appendThinkingLevel : bool) : DefaultModelSelectionStage :=
  let ids := (byId (trees m)).*1 in
  let x1 := stage_ids ids f1 in
  let e1 := {| entryId := x1; parentId := leafId (trees m); timestamp := now f1; kind := model_change model (Some "temporary"%string) None None None |} in
  let ids := ids ++ [x1] in
  let x2 := stage_ids ids f2 in
  let e2 := {| entryId := x2; parentId := Some x1; timestamp := now f2; kind := thinking_level_change thinkingLevel |} in
  let '(ids, x, mid) := if appendThinkingLevel then (ids ++ [x2], x2, [e2]) else (ids, x1, []) in
  let e3 := {| entryId := stage_ids ids f3; parentId := Some x; timestamp := now f3; kind := model_change model (Some DEFAULT_ROLE) None None None |} in
  let st := files m in
  {| stage_entryRevision := entryRevision (revs m); stage_headerExportRevision := headerExportRevision (revs m);
     stage_sessionId := m_sessionId m; stage_sessionFile := sessionFile st;
     stage_entries := fileEntries (trees m) ++ (F_entry <$> ([e1] ++ mid ++ [e3]));
     persistsToExistingFile := persist st && bool_decide (is_Some (sessionFile st)) && bool_decide (is_Some (disk st)) |}.

(** Nothing else may have been appended in the meantime. *)
Definition promoteDefaultModelSelection (m : SessionManager) (s : DefaultModelSelectionStage) : bool * SessionManager :=
  if negb (bool_decide (stage_entryRevision s = entryRevision (revs m)) && bool_decide (stage_headerExportRevision s = headerExportRevision (revs m)) &&
           bool_decide (stage_sessionId s = m_sessionId m) && bool_decide (stage_sessionFile s = sessionFile (files m)))
  then (false, m)
  else
    let st := files m in
    (true,
     {| m_sessionId := m_sessionId m; sessionName := sessionName m; m_titleSource := m_titleSource m; m_cwd := m_cwd m;
        trees := buildIndex (stage_entries s); revs := bumpAllRevisions (revs m);
        files := {| persist := persist st; sessionFile := sessionFile st; flushed := persistsToExistingFile s; needsFullRewriteOnNextPersist := false;
                    ensuredOnDisk := persistsToExistingFile s;
                    disk := if persistsToExistingFile s then Some (record_of <$> stage_entries s) else disk st |};
        sessionContextCache := sessionContextCache m |}).
