(* ===== verification/SessionPaths.v ===== *)
(** * The tree of a session

    Entries that are appended below known entries form a forest, and the walk
    from an entry to its root is its path, which no later entry changes. *)

From S2P Require Import Prelude JsonClone CodeUnits SessionEntries SessionContext SessionTree.

Local Open Scope list_scope.
Local Open Scope Z_scope.

(** ** The index *)

Definition ids (es : list SessionEntry) : list string := entryId <$> es.

Definition lookup_entry (es : list SessionEntry) (x : string) : option SessionEntry :=
  find_first (fun e => bool_decide (entryId e = x)) es.

Lemma session_entries_app fs gs : session_entries (fs ++ gs) = session_entries fs ++ session_entries gs.
Proof. unfold session_entries. apply omap_app. Qed.

Lemma entries_length fs : (length (session_entries fs) <= length fs)%nat.
Proof. induction fs as [|[h|e] fs IH]; [done| |]; cbn; unfold session_entries in IH; lia. Qed.

Lemma session_entries_only es : session_entries (F_entry <$> es) = es.
Proof. induction es as [|e es IH]; [done|]. cbn. by rewrite <- IH at 2. Qed.

Lemma buildIndex_snoc fs f : buildIndex (fs ++ [f]) = index_entry (buildIndex fs) f.
Proof. unfold buildIndex. by rewrite foldl_app. Qed.

Lemma buildIndex_entries fs : fileEntries (buildIndex fs) = fs.
Proof. induction fs as [|f fs IH] using rev_ind; [done|]. rewrite buildIndex_snoc. destruct f; cbn; by rewrite IH. Qed.

Lemma lookup_entry_Some es x e : lookup_entry es x = Some e -> e ∈ es /\ entryId e = x.
Proof. intros [Hin Hb]%find_first_Some. by apply bool_decide_eq_true in Hb. Qed.

Lemma lookup_entry_None es x : lookup_entry es x = None <-> x ∉ ids es.
Proof.
  unfold lookup_entry. rewrite find_first_None. split.
  - intros H (e & -> & He)%list_elem_of_fmap. by specialize (H e He); apply bool_decide_eq_false in H.
  - intros H e He. apply bool_decide_eq_false. intros <-. apply H. by apply list_elem_of_fmap_2.
Qed.

Lemma lookup_entry_in es e : NoDup (ids es) -> e ∈ es -> lookup_entry es (entryId e) = Some e.
Proof.
  induction es as [|e' es IH]; [by intros _ ?%not_elem_of_nil|]. cbn. intros [Hn Hd]%NoDup_cons [->|He]%elem_of_cons.
  - by rewrite bool_decide_eq_true_2.
  - rewrite bool_decide_eq_false_2; [by apply IH|]. intros E. apply Hn. rewrite E. by apply list_elem_of_fmap_2.
Qed.

Lemma lookup_entry_snoc es e x :
  entryId e ∉ ids es -> lookup_entry (es ++ [e]) x = if decide (x = entryId e) then Some e else lookup_entry es x.
Proof.
  unfold lookup_entry. induction es as [|e' es IH]; cbn [app find_first]; intros Hn.
  - destruct (decide (x = entryId e)) as [->|]; [by rewrite bool_decide_eq_true_2|by rewrite bool_decide_eq_false_2 by congruence].
  - apply not_elem_of_cons in Hn as [Hne Hn]. rewrite IH by done. destruct (decide (x = entryId e)) as [->|]; [|done].
    by rewrite bool_decide_eq_false_2 by congruence.
Qed.

Lemma entry_at_lt fs i e : entry_at fs i = Some e -> (i < length fs)%nat.
Proof. unfold entry_at. destruct (fs !! i) eqn:E; [|done]. intros _. by apply lookup_lt_Some in E. Qed.

Lemma entry_at_app fs gs i : (i < length fs)%nat -> entry_at (fs ++ gs) i = entry_at fs i.
Proof. intros H. unfold entry_at. by rewrite lookup_app_l. Qed.

(** The index finds what a search finds. *)
Lemma index_lookup fs x :
  NoDup (ids (session_entries fs)) ->
  entry_by_id fs (byId (buildIndex fs)) x = lookup_entry (session_entries fs) x /\
  (forall i, map_get (byId (buildIndex fs)) x = Some i -> (i < length fs)%nat).
Proof.
  induction fs as [|f fs IH] using rev_ind; [done|]. rewrite session_entries_app, buildIndex_snoc. destruct f as [h|e].
  - cbn [omap list_omap session_entries]. rewrite app_nil_r. intros Hn. destruct (IH Hn) as [H1 H2]. unfold entry_by_id in *. cbn [index_entry byId].
    split.
    + rewrite <- H1. destruct (map_get (byId (buildIndex fs)) x) as [i|]; [|done]. cbn. apply entry_at_app. by apply H2.
    + intros i Hi. rewrite length_app. specialize (H2 i Hi). lia.
  - change (session_entries [F_entry e]) with [e]. unfold ids. rewrite fmap_app. intros Hn. apply NoDup_app in Hn as (Hn & Hd & _).
    assert (He : entryId e ∉ ids (session_entries fs)) by (intros Hin; apply (Hd _ Hin); by left).
    destruct (IH Hn) as [H1 H2]. rewrite lookup_entry_snoc by done. unfold entry_by_id in *. cbn [index_entry byId]. rewrite buildIndex_entries.
    destruct (decide (x = entryId e)) as [->|Hx].
    + rewrite map_get_set_eq. cbn. split.
      * unfold entry_at. by rewrite lookup_app_r, Nat.sub_diag by lia.
      * intros i [= <-]. rewrite length_app. cbn. lia.
    + rewrite map_get_set_ne by congruence. split.
      * rewrite <- H1. destruct (map_get (byId (buildIndex fs)) x) as [i|]; [|done]. cbn. apply entry_at_app. by apply H2.
      * intros i Hi. rewrite length_app. specialize (H2 i Hi). lia.
Qed.

Lemma index_keys fs : NoDup (ids (session_entries fs)) -> (byId (buildIndex fs)).*1 = ids (session_entries fs).
Proof.
  induction fs as [|f fs IH] using rev_ind; [done|]. rewrite session_entries_app, buildIndex_snoc. destruct f as [h|e].
  - cbn [omap list_omap session_entries]. rewrite app_nil_r. exact IH.
  - change (session_entries [F_entry e]) with [e]. unfold ids in *. rewrite fmap_app. intros Hn. apply NoDup_app in Hn as (Hn & Hd & _).
    cbn [index_entry byId]. rewrite map_set_fresh, fmap_app, IH by (try done; rewrite IH by done; intros Hin; apply (Hd _ Hin); by left). done.
Qed.

(** ** Logs and paths *)

(** Entries have ids of their own, and each is below an earlier one. *)
Inductive log_ok : list SessionEntry -> Prop :=
| log_nil : log_ok []
| log_snoc es e :
    log_ok es -> entryId e ∉ ids es -> entryId e <> ""%string ->
    match parentId e with Some p => p ∈ ids es | None => True end ->
    log_ok (es ++ [e]).

Lemma log_NoDup es : log_ok es -> NoDup (ids es).
Proof.
  induction 1 as [|es e _ IH Hn _ _]; [constructor|]. unfold ids. rewrite fmap_app. apply NoDup_app. split; [done|].
  split; [|apply NoDup_singleton]. intros x Hx ->%list_elem_of_singleton. done.
Qed.

Lemma log_nonempty es x : log_ok es -> x ∈ ids es -> x <> ""%string.
Proof.
  induction 1 as [|es e _ IH _ He _]; [intros Hnil; by apply not_elem_of_nil in Hnil|]. unfold ids. rewrite fmap_app, elem_of_app.
  intros [Hx| ->%list_elem_of_singleton]; [by apply IH|done].
Qed.

Lemma log_parent es e : log_ok es -> e ∈ es -> match parentId e with Some p => p ∈ ids es | None => True end.
Proof.
  induction 1 as [|es e' _ IH _ _ Hp]; [intros Hnil; by apply not_elem_of_nil in Hnil|]. rewrite elem_of_app. unfold ids in *. rewrite fmap_app.
  intros [He| ->%list_elem_of_singleton].
  - specialize (IH He). destruct (parentId e); [|done]. apply elem_of_app. by left.
  - destruct (parentId e'); [|done]. apply elem_of_app. by left.
Qed.

Lemma parent_of_log es e : log_ok es -> e ∈ es -> parent_of e = parentId e.
Proof.
  intros H He. pose proof (log_parent es e H He) as Hp. unfold parent_of. destruct (parentId e) as [p|]; [|done].
  pose proof (log_nonempty es p H Hp). by destruct p.
Qed.

(** The path of an entry: its root first. *)
Inductive path_to (es : list SessionEntry) : SessionEntry -> list SessionEntry -> Prop :=
| path_root e : e ∈ es -> parentId e = None -> path_to es e [e]
| path_child e p q : e ∈ es -> parentId e = Some (entryId p) -> path_to es p q -> path_to es e (q ++ [e]).

Lemma path_in es e q : path_to es e q -> e ∈ es.
Proof. by intros []. Qed.

Lemma path_last es e q : path_to es e q -> last q = Some e.
Proof. intros []; [done|]. by rewrite last_snoc. Qed.

Lemma path_mono es es' e q : es ⊆ es' -> path_to es e q -> path_to es' e q.
Proof. intros Hs. induction 1 as [e He Hp|e p q He Hp _ IH]; [constructor; auto|]. econstructor; eauto. Qed.

Lemma entry_same es e e' : NoDup (ids es) -> e ∈ es -> e' ∈ es -> entryId e = entryId e' -> e = e'.
Proof.
  intros Hn He He' E. pose proof (lookup_entry_in es e Hn He) as H. rewrite E, (lookup_entry_in es e' Hn He') in H. congruence.
Qed.

Lemma path_functional es e q q' : NoDup (ids es) -> path_to es e q -> path_to es e q' -> q = q'.
Proof.
  intros Hn H. revert q'. induction H as [e He Hp|e p q He Hp Hq IH]; intros q' H'.
  - inversion H' as [? ? ?|? p' q'' ? Hp' ?]; simplify_eq; first [done|congruence].
  - inversion H' as [? ? Hp'|? p' q'' ? Hp' Hq']; simplify_eq; try congruence.
    assert (p = p') as <-.
    { apply (entry_same es); [done|by eapply path_in|by eapply path_in|congruence]. }
    by rewrite (IH q'').
Qed.

(** Every entry has a path, which visits no entry twice. *)
Lemma path_exists es e : log_ok es -> e ∈ es -> exists q, path_to es e q /\ NoDup (ids q) /\ q ⊆ es.
Proof.
  intros H. revert e. induction H as [|es e' Hlog IH Hn Hne Hp]; intros e; [intros Hnil; by apply not_elem_of_nil in Hnil|].
  rewrite elem_of_app. intros [He| ->%list_elem_of_singleton].
  - destruct (IH e He) as (q & Hq & Hd & Hs). exists q. split; [eapply path_mono; [|done]; set_solver|]. split; [done|set_solver].
  - destruct (parentId e') as [x|] eqn:E.
    + apply list_elem_of_fmap in Hp as (p & -> & Hp). destruct (IH p Hp) as (q & Hq & Hd & Hs). exists (q ++ [e']).
      split; [econstructor; [set_solver|done|eapply path_mono; [|done]; set_solver]|]. split; [|set_solver].
      unfold ids. rewrite fmap_app. apply NoDup_app. split; [done|]. split; [|apply NoDup_singleton].
      intros x Hx ->%list_elem_of_singleton. apply Hn. apply list_elem_of_fmap in Hx as (y & Ey & Hy). rewrite Ey.
      apply list_elem_of_fmap_2. by apply Hs.
    + exists [e']. split; [constructor; [set_solver|done]|]. split; [apply NoDup_singleton|set_solver].
Qed.

(** The walk finds it. *)
Lemma walk_path es e q fuel visited :
  log_ok es -> path_to es e q -> NoDup (ids q) -> (forall x, x ∈ ids q -> x ∉ visited) -> (length q <= fuel)%nat ->
  walk fuel (lookup_entry es) visited (Some e) = rev q.
Proof.
  intros Hlog H. revert fuel visited. induction H as [e He Hp|e p q He Hp Hq IH]; intros fuel visited Hd Hv Hf.
  - destruct fuel as [|fuel]; [cbn in Hf; lia|]. cbn [walk]. rewrite (proj2 (includes_false visited (entryId e))) by (apply Hv; by left).
    rewrite (parent_of_log es) by done. rewrite Hp. cbn. by destruct fuel.
  - rewrite length_app in Hf. cbn in Hf. destruct fuel as [|fuel]; [lia|]. cbn [walk].
    unfold ids in *. rewrite fmap_app in *. apply NoDup_app in Hd as (Hd & Hx & _).
    rewrite (proj2 (includes_false visited (entryId e))) by (apply Hv; set_solver).
    rewrite (parent_of_log es) by done. rewrite Hp. cbn [mbind option_bind]. rewrite (lookup_entry_in es p) by (by apply log_NoDup || by eapply path_in).
    rewrite IH; [by rewrite rev_app_distr|done| |lia].
    intros x Hin. apply not_elem_of_cons. split; [|apply Hv; set_solver]. intros ->. apply (Hx _ Hin). by left.
Qed.

Lemma path_length es q : NoDup (ids q) -> q ⊆ es -> (length q <= length es)%nat.
Proof.
  intros Hd Hs. apply NoDup_fmap_1 in Hd. by apply submseteq_length, NoDup_submseteq.
Qed.

(** A path is a log of its own. *)
Lemma path_log es e q : log_ok es -> path_to es e q -> log_ok q /\ path_to q e q.
Proof.
  intros Hlog Hq. destruct (path_exists es e Hlog ltac:(by eapply path_in)) as (q' & Hq' & Hd & _).
  pose proof (path_functional es e q q' (log_NoDup es Hlog) Hq Hq') as <-. clear Hq'.
  induction Hq as [e He Hp|e p q He Hp Hq IH].
  - split; [|by constructor; [left|]]. apply (log_snoc [] e); [constructor|apply not_elem_of_nil| |by rewrite Hp].
    eapply log_nonempty; [exact Hlog|]. by apply list_elem_of_fmap_2.
  - unfold ids in Hd. rewrite fmap_app in Hd. apply NoDup_app in Hd as (Hd & Hx & _). destruct (IH Hd) as [H1 H2].
    assert (Hin : entryId p ∈ ids q) by (apply list_elem_of_fmap_2; by eapply path_in). split.
    + apply log_snoc; [done| | |by rewrite Hp].
      * intros Hin'. apply (Hx _ Hin'). by left.
      * eapply log_nonempty; [exact Hlog|]. by apply list_elem_of_fmap_2.
    + econstructor; [set_solver|exact Hp|]. eapply path_mono; [|done]. set_solver.
Qed.

Lemma by_id_lookup es x : NoDup (ids es) -> map_get (by_id es) x = lookup_entry es x.
Proof.
  unfold by_id. induction es as [|e es IH] using rev_ind; [done|]. unfold ids. rewrite fmap_app. intros (Hn & Hd & _)%NoDup_app.
  assert (He : entryId e ∉ ids es) by (intros Hin; apply (Hd _ Hin); by left).
  rewrite foldl_app, lookup_entry_snoc by done. cbn [foldl]. destruct (decide (x = entryId e)) as [->|Hx].
  - by rewrite map_get_set_eq.
  - rewrite map_get_set_ne by congruence. by apply IH.
Qed.

Lemma walk_ext fuel f g visited e : (forall x, f x = g x) -> walk fuel f visited e = walk fuel g visited e.
Proof.
  intros H. revert visited e. induction fuel as [|fuel IH]; intros visited [e|]; cbn [walk]; try done.
  destruct (includes visited (entryId e)); [done|]. f_equal. rewrite IH. f_equal. destruct (parent_of e); cbn; [apply H|done].
Qed.

Lemma path_of_path es e q fuel f :
  log_ok es -> path_to es e q -> (length es <= fuel)%nat -> (forall x, f x = lookup_entry es x) -> path_of fuel f (Some e) = q.
Proof.
  intros Hlog Hq Hf Hfind. destruct (path_exists es e Hlog ltac:(by eapply path_in)) as (q' & Hq' & Hd & Hs).
  pose proof (path_functional es e q q' (log_NoDup es Hlog) Hq Hq') as <-. unfold path_of.
  rewrite (walk_ext _ _ _ _ _ Hfind), (walk_path es e q); [apply rev_involutive|done|done|done|intros x _; apply not_elem_of_nil|].
  pose proof (path_length es q Hd Hs). lia.
Qed.

(** *** The tree of a manager *)

Definition tree_ok (t : tree) : Prop :=
  log_ok (session_entries (fileEntries t)) /\ t = set_leaf (buildIndex (fileEntries t)) (leafId t) /\
  match leafId t with Some l => l ∈ ids (session_entries (fileEntries t)) | None => True end.

Definition entries_of (m : SessionManager) : list SessionEntry := session_entries (fileEntries (trees m)).

Lemma find_entry_ok m x : tree_ok (trees m) -> find_entry m x = lookup_entry (entries_of m) x.
Proof.
  intros (Hlog & Ht & _). unfold find_entry. rewrite Ht. cbn [set_leaf fileEntries byId]. rewrite buildIndex_entries.
  exact (proj1 (index_lookup _ x (log_NoDup _ Hlog))).
Qed.

Lemma known_entry m x : tree_ok (trees m) -> x ∈ ids (entries_of m) -> exists e q, find_entry m x = Some e /\ entryId e = x /\ path_to (entries_of m) e q.
Proof.
  intros H (e & -> & He)%list_elem_of_fmap. pose proof H as (Hlog & _). destruct (path_exists _ e Hlog He) as (q & Hq & _).
  exists e, q. rewrite find_entry_ok by done. split; [|done]. apply lookup_entry_in; [by apply log_NoDup|done].
Qed.

(** The branch of a known entry is its path. *)
Lemma getBranch_path m x e q :
  tree_ok (trees m) -> find_entry m x = Some e -> path_to (entries_of m) e q -> getBranch m (Some x) = q.
Proof.
  intros H He Hq. pose proof H as (Hlog & _). unfold getBranch, start_of.
  assert (Hx : x <> ""%string).
  { rewrite find_entry_ok in He by done. apply lookup_entry_Some in He as [He <-]. eapply log_nonempty; [exact Hlog|]. by apply list_elem_of_fmap_2. }
  destruct x; [done|]. rewrite He. eapply path_of_path; [exact Hlog|exact Hq| |intros y; by apply find_entry_ok].
  unfold branch_fuel. pose proof (entries_length (fileEntries (trees m))). unfold entries_of in *. lia.
Qed.

(** The context depends on the path alone. *)
Lemma build_context_path m x e q :
  tree_ok (trees m) -> leafId (trees m) = Some x -> find_entry m x = Some e -> path_to (entries_of m) e q ->
  build_context m = context_of_path q.
Proof.
  intros H Hl He Hq. pose proof H as (Hlog & _). assert (Ex : x = entryId e) by (rewrite find_entry_ok in He by done; by apply lookup_entry_Some in He as [_ <-]).
  assert (Ha : active_path m = q).
  { unfold active_path. rewrite Hl. cbn [mbind option_bind]. rewrite He. eapply path_of_path; [exact Hlog|exact Hq| |intros y; by apply find_entry_ok].
    unfold branch_fuel. pose proof (entries_length (fileEntries (trees m))). unfold entries_of in *. lia. }
  unfold build_context. rewrite Ha, Hl. destruct (path_log _ e q Hlog Hq) as [Hlq Hqq]. pose proof (log_NoDup q Hlq) as Hn.
  assert (Hm : forall y, map_get (by_id q) y = lookup_entry q y) by (intros y; by apply by_id_lookup).
  unfold buildSessionContext. assert (Hx : x <> ""%string) by (rewrite Ex; eapply log_nonempty; [exact Hlog|]; apply list_elem_of_fmap_2; by eapply path_in).
  destruct x as [|a x]; [done|]. rewrite Hm, Ex, (lookup_entry_in q e) by (done || by eapply path_in).
  f_equal. eapply path_of_path; [exact Hlq|exact Hqq|lia|exact Hm].
Qed.

Lemma build_context_none m : leafId (trees m) = None -> build_context m = empty_context.
Proof. intros H. unfold build_context. by rewrite H. Qed.

(** *** Fresh ids *)

Definition fresh_ok (m : SessionManager) (f : fresh) : Prop :=
  snowflake f ∉ ids (entries_of m) /\ snowflake f <> ""%string /\ forall i, draws f i <> ""%string.

Lemma generateId_free has d s :
  has s = false -> s <> ""%string -> (forall i, d i <> ""%string) -> has (generateId has d s) = false /\ generateId has d s <> ""%string.
Proof.
  intros Hs Hne Hd. unfold generateId. destruct (find_first _ _) as [i|] eqn:E; [|done]. cbn.
  apply find_first_Some in E as [_ E]. by apply negb_true_iff in E.
Qed.

Lemma has_id_ids t x : tree_ok t -> has_id (byId t) x = bool_decide (x ∈ ids (session_entries (fileEntries t))).
Proof.
  intros (Hlog & Ht & _). unfold has_id. rewrite Ht. cbn [set_leaf byId fileEntries]. rewrite buildIndex_entries.
  apply bool_decide_ext. rewrite <- (index_keys _ (log_NoDup _ Hlog)). destruct (map_get _ x) as [i|] eqn:E.
  - split; [intros _|by eexists]. apply map_get_elem in E. by apply (list_elem_of_fmap_2 fst) in E.
  - split; [by intros []|]. intros Hin. by apply map_get_None in E.
Qed.

Lemma fresh_id_ok m f : tree_ok (trees m) -> fresh_ok m f -> fresh_id m f ∉ ids (entries_of m) /\ fresh_id m f <> ""%string.
Proof.
  intros Ht (Hs & Hne & Hd). unfold fresh_id.
  destruct (generateId_free (has_id (byId (trees m))) (draws f) (snowflake f)) as [H1 H2]; [|done|done|].
  - rewrite has_id_ids by done. by apply bool_decide_eq_false.
  - split; [|done]. rewrite has_id_ids in H1 by done. by apply bool_decide_eq_false in H1.
Qed.

(** An index of a log, with any of its entries as the leaf. *)
Lemma tree_ok_index fs e : log_ok (session_entries (fs ++ [F_entry e])) -> tree_ok (buildIndex (fs ++ [F_entry e])).
Proof.
  intros H. unfold tree_ok. rewrite buildIndex_entries. split; [done|]. split; [by rewrite buildIndex_snoc|]. rewrite buildIndex_snoc. cbn.
  rewrite session_entries_app. unfold ids. rewrite fmap_app. apply elem_of_app. right. by left.
Qed.

Lemma tree_ok_leaf t l :
  tree_ok t -> match l with Some x => x ∈ ids (session_entries (fileEntries t)) | None => True end -> tree_ok (set_leaf t l).
Proof. intros (Hlog & Ht & _) Hl. split; [done|]. split; [|done]. by rewrite Ht at 1. Qed.

Lemma index_entry_leaf t l e : index_entry (set_leaf t l) (F_entry e) = index_entry t (F_entry e).
Proof. done. Qed.

(** Appending an entry of a fresh id below a known entry. *)
Lemma append_tree_ok t e :
  tree_ok t -> entryId e ∉ ids (session_entries (fileEntries t)) -> entryId e <> ""%string ->
  match parentId e with Some p => p ∈ ids (session_entries (fileEntries t)) | None => True end ->
  index_entry t (F_entry e) = buildIndex (fileEntries t ++ [F_entry e]) /\ tree_ok (index_entry t (F_entry e)).
Proof.
  intros (Hlog & Ht & _) Hn Hne Hp. assert (E : index_entry t (F_entry e) = buildIndex (fileEntries t ++ [F_entry e])).
  { rewrite buildIndex_snoc. rewrite Ht at 1. apply index_entry_leaf. }
  split; [done|]. rewrite E. apply tree_ok_index. rewrite session_entries_app. by apply log_snoc.
Qed.
