(* ===== verification/SessionRuns.v ===== *)
(** * Runs of a session

    The operations of a session in sequence, and what every reachable state
    keeps: the tree is a log with its index, the file replays to the entries,
    and the cached context is the context. *)

From S2P Require Import Prelude JsonClone CodeUnits SessionEntries SessionContext SessionTree SessionPaths.

Local Open Scope list_scope.
Local Open Scope Z_scope.

(** ** Operations *)

Inductive op :=
| O_append (f : fresh) (k : entry_kind)
| O_context_clear (f : fresh) (data : option value)
| O_label (f : fresh) (target : string) (name : option string)
| O_branch (x : string)
| O_reset
| O_branch_summary (f : fresh) (from : option string) (summary : text) (details : option value) (fromExtension : option bool)
| O_update (us : list (string * AgentMessage))
| O_update_custom (us : list (string * (content * option value)))
| O_rewrite
| O_rename (name : text) (source : string)
| O_sanitize (sanitize : AgentMessage -> option AgentMessage)
| O_ensure
| O_read.

(** An operation that throws changes nothing. *)
Definition apply_op (m : SessionManager) (o : op) : SessionManager :=
  match o with
  | O_append f k => (append_below m f k).2
  | O_context_clear f data => (appendContextClearEntry m f data).2
  | O_label f target name => match appendLabelChange m f target name with Ok (_, m) => m | Throw _ => m end
  | O_branch x => match branch m x with Ok m => m | Throw _ => m end
  | O_reset => resetLeaf m
  | O_branch_summary f from summary details ext =>
      match branchWithSummary m f from summary details ext with Ok (_, m) => m | Throw _ => m end
  | O_update us => applyEntryMessageUpdates m us
  | O_update_custom us => applyCustomMessageEntryUpdates m us
  | O_rewrite => rewriteEntries m
  | O_rename name source => (setSessionName m name source).2
  | O_sanitize sanitize => sanitizeLoadedAndPersist sanitize m
  | O_ensure => ensureOnDisk m
  | O_read => (getSessionContextForRead m).2
  end.

Definition is_label_kind (k : entry_kind) : bool := match k with label _ _ => true | _ => false end.

(** A message that is replaced reports the same usage. *)
Definition same_usage (a b : AgentMessage) : Prop :=
  forall e u, entry_usage u (with_message e a) = entry_usage u (with_message e b).

Fixpoint updates_ok (t : tree) (us : list (string * AgentMessage)) : Prop :=
  match us with
  | [] => True
  | (x, msg) :: us =>
      (forall e msg', e ∈ session_entries (fileEntries t) -> entryId e = x -> kind e = message msg' -> same_usage msg msg') /\
      updates_ok (with_entries t (set_message (fileEntries t) (byId t) x msg)) us
  end.

(** Ids are fresh, labels are appended by their own operation, and updates in
    place keep the usage. *)
Definition valid_op (m : SessionManager) (o : op) : Prop :=
  match o with
  | O_append f k => fresh_ok m f /\ is_label_kind k = false
  | O_context_clear f _ | O_label f _ _ | O_branch_summary f _ _ _ _ => fresh_ok m f
  | O_update us => updates_ok (trees m) us
  | O_sanitize sanitize => forall msg msg', sanitize msg = Some msg' -> same_usage msg' msg
  | _ => True
  end.

(** The operations that leave every entry as it is. *)
Definition appends (o : op) : Prop := match o with O_update _ | O_update_custom _ | O_sanitize _ => False | _ => True end.

(** Valid operations of a class, in sequence. *)
Inductive runs (P : op -> Prop) (m : SessionManager) : SessionManager -> Prop :=
| runs_refl : runs P m m
| runs_step m1 o : runs P m m1 -> P o -> valid_op m1 o -> runs P m (apply_op m1 o).

(** ** Updates in place *)

Definition entry_label (ls : list (string * string)) (e : SessionEntry) : list (string * string) :=
  match kind e with label target l => set_label ls target l | _ => ls end.

(** An entry, or a header, that the index cannot tell from another. *)
Definition same_index (e e' : SessionEntry) : Prop :=
  entryId e' = entryId e /\ parentId e' = parentId e /\ (forall ls, entry_label ls e' = entry_label ls e) /\
  forall u, entry_usage u e' = entry_usage u e.

Definition same_file (f f' : FileEntry) : Prop :=
  match f, f' with
  | F_session h, F_session h' => version h' = version h
  | F_entry e, F_entry e' => same_index e e'
  | _, _ => False
  end.

Lemma same_file_refl f : same_file f f.
Proof. by destruct f. Qed.

Lemma same_files_refl fs : Forall2 same_file fs fs.
Proof. induction fs; constructor; [apply same_file_refl|done]. Qed.

Lemma same_file_trans f1 f2 f3 : same_file f1 f2 -> same_file f2 f3 -> same_file f1 f3.
Proof.
  destruct f1, f2, f3; try done; cbn; [congruence|]. intros (A1 & A2 & A3 & A4) (B1 & B2 & B3 & B4).
  split; [congruence|]. split; [congruence|]. split; [intros ls; by rewrite B3|intros u; by rewrite B4].
Qed.

Lemma same_files_trans fs1 fs2 fs3 : Forall2 same_file fs1 fs2 -> Forall2 same_file fs2 fs3 -> Forall2 same_file fs1 fs3.
Proof.
  intros H. revert fs3. induction H as [|f f' fs fs' Hf _ IH]; intros fs3 H2; [by apply Forall2_nil_inv_l in H2 as ->; constructor|].
  apply Forall2_cons_inv_l in H2 as (g & gs & Hg & Hgs & ->). constructor; [by eapply same_file_trans|by apply IH].
Qed.

Lemma same_files_insert fs i e e' : entry_at fs i = Some e -> same_index e e' -> Forall2 same_file fs (<[i := F_entry e']> fs).
Proof.
  unfold entry_at. revert i. induction fs as [|f fs IH]; intros [|i] He Hs; cbn in *; try done.
  - destruct f; simplify_eq. constructor; [done|apply same_files_refl].
  - constructor; [apply same_file_refl|by apply IH].
Qed.

Lemma index_same fs fs' : Forall2 same_file fs fs' -> buildIndex fs' = with_entries (buildIndex fs) fs'.
Proof.
  revert fs'. induction fs as [|f fs IH] using rev_ind; intros fs' H; [by apply Forall2_nil_inv_l in H as ->|].
  apply Forall2_app_inv_l in H as (fs1 & fs2 & H1 & H2 & ->). apply Forall2_cons_inv_l in H2 as (f' & fs3 & Hf & H3 & ->).
  apply Forall2_nil_inv_l in H3 as ->. rewrite !buildIndex_snoc, (IH fs1 H1). pose proof (Forall2_length _ _ _ H1) as Hl.
  destruct f as [h|e], f' as [h'|e']; try done. destruct Hf as (E1 & _ & Hlb & Hu). unfold with_entries.
  cbn [index_entry fileEntries byId labelsById leafId usageStatistics]. rewrite E1, Hu, buildIndex_entries, Hl. f_equal. apply Hlb.
Qed.

Lemma same_files_entries fs fs' :
  Forall2 same_file fs fs' -> Forall2 (fun e e' => entryId e' = entryId e /\ parentId e' = parentId e) (session_entries fs) (session_entries fs').
Proof.
  induction 1 as [|f f' fs fs' Hf _ IH]; [constructor|]. destruct f as [h|e], f' as [h'|e']; cbn in Hf; try done.
  destruct Hf as (? & ? & _). cbn. constructor; [done|exact IH].
Qed.

Lemma log_same es es' : log_ok es -> Forall2 (fun e e' => entryId e' = entryId e /\ parentId e' = parentId e) es es' -> log_ok es' /\ ids es' = ids es.
Proof.
  intros H. revert es'. induction H as [|es e Hlog IH Hn Hne Hp]; intros es' H2.
  - apply Forall2_nil_inv_l in H2 as ->. by split; [constructor|].
  - apply Forall2_app_inv_l in H2 as (es1 & es2 & H1 & H2 & ->). apply Forall2_cons_inv_l in H2 as (e' & es3 & [E1 E2] & H3 & ->).
    apply Forall2_nil_inv_l in H3 as ->. destruct (IH es1 H1) as [IH1 IH2]. split.
    + apply log_snoc; [done|by rewrite E1, IH2|by rewrite E1|by rewrite E2, IH2].
    + unfold ids in *. rewrite !fmap_app, IH2. cbn. by rewrite E1.
Qed.

Lemma tree_ok_same t fs' : tree_ok t -> Forall2 same_file (fileEntries t) fs' -> tree_ok (with_entries t fs').
Proof.
  intros (Hlog & Ht & Hl) H. destruct (log_same _ _ Hlog (same_files_entries _ _ H)) as [Hlog' Hids]. split; [exact Hlog'|].
  cbn [with_entries fileEntries leafId]. rewrite (index_same _ _ H), Hids. split; [by rewrite Ht at 1|done].
Qed.

Lemma set_message_same t x msg :
  tree_ok t -> (forall e msg', e ∈ session_entries (fileEntries t) -> entryId e = x -> kind e = message msg' -> same_usage msg msg') ->
  Forall2 same_file (fileEntries t) (set_message (fileEntries t) (byId t) x msg).
Proof.
  intros Ht Hu. unfold set_message. destruct (map_get (byId t) x) as [i|] eqn:Hx; [|apply same_files_refl].
  destruct (entry_at (fileEntries t) i) as [e|] eqn:He; [|apply same_files_refl].
  destruct (kind e) as [msg'| | | | | | | | | | | | |] eqn:Ek; try apply same_files_refl. apply (same_files_insert _ i e _ He).
  assert (Hf : e ∈ session_entries (fileEntries t) /\ entryId e = x).
  { destruct Ht as (Hlog & Ht & _). pose proof (proj1 (index_lookup (fileEntries t) x (log_NoDup _ Hlog))) as H. unfold entry_by_id in H.
    rewrite Ht in Hx. cbn [set_leaf byId] in Hx. rewrite Hx in H. cbn in H. rewrite He in H. symmetry in H. by apply lookup_entry_Some in H. }
  split; [done|]. split; [done|]. split; [intros ls; unfold entry_label; cbn; by rewrite Ek|].
  intros u. rewrite (Hu e msg' (proj1 Hf) (proj2 Hf) Ek). unfold entry_usage. cbn. by rewrite Ek.
Qed.

Lemma set_custom_same fs ps x c d : Forall2 same_file fs (set_custom fs ps x c d).
Proof.
  unfold set_custom. destruct (map_get ps x) as [i|]; [|apply same_files_refl]. destruct (entry_at fs i) as [e|] eqn:He; [|apply same_files_refl].
  destruct (kind e) as [| | | | | | |ct c0 dp d0 a| | | | | |] eqn:Ek; try apply same_files_refl.
  apply (same_files_insert _ i e _ He). split; [done|]. split; [done|]. split; [intros ls; unfold entry_label; cbn; by rewrite Ek|].
  intros u. unfold entry_usage. cbn. by rewrite Ek.
Qed.

Lemma patch_header_same fs p : Forall2 same_file fs (patch_header fs p).
Proof. induction fs as [|[h|e] fs IH]; [constructor| |]; cbn; constructor; try done. apply same_files_refl. Qed.

Lemma updates_same t us :
  tree_ok t -> updates_ok t us ->
  Forall2 same_file (fileEntries t) (foldl (fun fs '(x, msg) => set_message fs (byId t) x msg) (fileEntries t) us).
Proof.
  revert t. induction us as [|[x msg] us IH]; intros t Ht; cbn [foldl updates_ok]; [intros _; apply same_files_refl|].
  intros [Hu Hus]. pose proof (set_message_same t x msg Ht Hu) as H. eapply same_files_trans; [exact H|].
  exact (IH _ (tree_ok_same t _ Ht H) Hus).
Qed.

Lemma custom_updates_same fs ps us :
  Forall2 same_file fs (foldl (fun fs '(x, (c, d)) => set_custom fs ps x c d) fs us).
Proof.
  revert fs. induction us as [|[x [c d]] us IH]; intros fs; cbn [foldl]; [apply same_files_refl|].
  eapply same_files_trans; [apply set_custom_same|apply IH].
Qed.

Lemma sanitize_same sanitize fs :
  (forall msg msg', sanitize msg = Some msg' -> same_usage msg' msg) -> Forall2 same_file fs (sanitize_entry sanitize <$> fs).*1.
Proof.
  intros Hs. induction fs as [|f fs IH]; [constructor|]. cbn. constructor; [|exact IH]. unfold sanitize_entry.
  destruct f as [h|e]; [done|]. destruct (kind e) as [msg| | | | | | | | | | | | |] eqn:Ek; try apply same_file_refl.
  destruct (is_assistant msg); [|apply same_file_refl]. destruct (sanitize msg) as [msg'|] eqn:E; [|apply same_file_refl]. cbn.
  split; [done|]. split; [done|]. split; [intros ls; unfold entry_label; cbn; by rewrite Ek|].
  intros u. rewrite (Hs _ _ E e u). unfold entry_usage. cbn. by rewrite Ek.
Qed.

(** ** The file *)

Definition live (f : storage) : Prop :=
  persist f = true /\ sessionFile f <> None /\ flushed f = true /\ needsFullRewriteOnNextPersist f = false.

Definition replay (d : list record) : list FileEntry * positions := foldl parse_record ([], []) d.

(** A file that is up to date replays to the entries. *)
Definition files_ok (m : SessionManager) : Prop :=
  live (files m) -> exists d, disk (files m) = Some d /\ replay d = (fileEntries (trees m), byId (trees m)).

(** The header comes first and is of the current version. *)
Definition header_ok (t : tree) : Prop :=
  match fileEntries t with F_session h :: _ => version h = Some CURRENT_SESSION_VERSION | _ => False end.

Lemma header_ok_same t fs' : header_ok t -> Forall2 same_file (fileEntries t) fs' -> header_ok (with_entries t fs').
Proof.
  unfold header_ok. cbn. destruct (fileEntries t) as [|[h|e] fs]; try done. intros Hv (f & fs2 & Hf & _ & ->)%Forall2_cons_inv_l.
  destruct f as [h'|]; [|done]. cbn in Hf. congruence.
Qed.

Lemma replay_records fs : replay (record_of <$> fs) = (fs, byId (buildIndex fs)).
Proof.
  unfold replay. induction fs as [|f fs IH] using rev_ind; [done|]. rewrite fmap_app, foldl_app, IH, buildIndex_snoc. destruct f; [done|].
  cbn. by rewrite buildIndex_entries.
Qed.

Lemma tree_ok_byId t : tree_ok t -> byId t = byId (buildIndex (fileEntries t)).
Proof. intros (_ & Ht & _). by rewrite Ht at 1. Qed.

Lemma rewriteFile_files m : byId (trees m) = byId (buildIndex (fileEntries (trees m))) -> files_ok m -> files_ok (rewriteFile m).
Proof.
  intros Hb Hm. unfold rewriteFile. destruct (negb (persist (files m)) || bool_decide (sessionFile (files m) = None)); [done|].
  intros _. exists (record_of <$> fileEntries (trees m)). split; [done|]. cbn. by rewrite replay_records, Hb.
Qed.

Lemma rewriteFile_rest m :
  trees (rewriteFile m) = trees m /\ revs (rewriteFile m) = revs m /\ sessionContextCache (rewriteFile m) = sessionContextCache m.
Proof. unfold rewriteFile. by destruct (negb _ || _). Qed.

Lemma persist_entry_rest m e :
  trees (persist_entry m e) = trees m /\ revs (persist_entry m e) = revs m /\ sessionContextCache (persist_entry m e) = sessionContextCache m.
Proof.
  unfold persist_entry. destruct (negb (persist _) || _); [done|]. destruct (negb (ensuredOnDisk _) && _); [done|].
  destruct (needsFullRewriteOnNextPersist _ || _); [apply rewriteFile_rest|done].
Qed.

Lemma persistPatch_rest m r :
  trees (persistPatch m r) = trees m /\ revs (persistPatch m r) = revs m /\ sessionContextCache (persistPatch m r) = sessionContextCache m.
Proof.
  unfold persistPatch. destruct (persist (files m)), (sessionFile (files m)), (disk (files m)); try done. destruct (_ || bool_decide _); [apply rewriteFile_rest|done].
Qed.

Lemma ensureOnDisk_rest m :
  trees (ensureOnDisk m) = trees m /\ revs (ensureOnDisk m) = revs m /\ sessionContextCache (ensureOnDisk m) = sessionContextCache m.
Proof. unfold ensureOnDisk. destruct (negb (persist _) || _); [done|]. destruct (flushed _ && _); [done|apply rewriteFile_rest]. Qed.

(** An entry that has just been put into the tree is persisted. *)
Lemma persist_entry_files m e fs ps :
  fileEntries (trees m) = fs ++ [F_entry e] -> byId (trees m) = map_set ps (entryId e) (length fs) ->
  byId (trees m) = byId (buildIndex (fileEntries (trees m))) ->
  (live (files m) -> exists d, disk (files m) = Some d /\ replay d = (fs, ps)) -> files_ok (persist_entry m e).
Proof.
  intros Hfs Hps Hb Hd. unfold persist_entry. destruct (persist (files m)) eqn:Hp; cbn [negb orb]; [|intros (H & _); congruence].
  destruct (sessionFile (files m)) as [path|] eqn:Hs.
  2:{ rewrite bool_decide_eq_true_2 by done. intros (_ & H & _). congruence. }
  rewrite bool_decide_eq_false_2 by done. destruct (negb (ensuredOnDisk _) && _); [intros (_ & _ & H & _); done|].
  destruct (needsFullRewriteOnNextPersist (files m)) eqn:Hn; cbn [orb].
  { apply rewriteFile_files; [done|]. intros (_ & _ & _ & H). congruence. }
  destruct (flushed (files m)) eqn:Hf; cbn [negb].
  - intros _. destruct Hd as (d & -> & Hr); [by split; [|split; [congruence|]]|]. exists (d ++ [R_entry e]). split; [done|].
    unfold replay in *. rewrite foldl_app, Hr. cbn. by rewrite Hfs, Hps.
  - apply rewriteFile_files; [done|]. intros (_ & _ & H & _). congruence.
Qed.

Lemma header_version_ok t : header_ok t -> header_version (fileEntries t) = CURRENT_SESSION_VERSION /\ patches_apply (fileEntries t) = true.
Proof.
  unfold header_ok, header_version, patches_apply. destruct (fileEntries t) as [|[h|e] fs]; try done. cbn. intros ->. split; [done|].
  by apply bool_decide_eq_true.
Qed.

(** Patches that lead to the entries of the tree, and change nothing more
    when they come again. *)
Lemma patches_files m rs :
  header_ok (trees m) -> byId (trees m) = byId (buildIndex (fileEntries (trees m))) ->
  (live (files m) -> exists d, disk (files m) = Some d /\ foldl parse_record (replay d) rs = (fileEntries (trees m), byId (trees m))) ->
  Forall (fun r => parse_record (fileEntries (trees m), byId (trees m)) r = (fileEntries (trees m), byId (trees m))) rs ->
  files_ok (foldl persistPatch m rs).
Proof.
  revert m. induction rs as [|r rs IH]; intros m Hh Hb Hd Hr; [exact Hd|]. cbn [foldl]. apply Forall_cons in Hr as [Hr Hrs].
  destruct (persistPatch_rest m r) as (Et & _ & _). apply IH; [by rewrite Et|by rewrite Et| |by rewrite Et]. rewrite Et. clear IH Et.
  assert (Hall : foldl parse_record (fileEntries (trees m), byId (trees m)) rs = (fileEntries (trees m), byId (trees m))).
  { clear Hr Hd. induction Hrs as [|r' rs H _ IH]; [done|]. cbn [foldl]. by rewrite H. }
  assert (Hrw : live (files (rewriteFile m)) -> files_ok (rewriteFile m) -> exists d, disk (files (rewriteFile m)) = Some d /\
                  foldl parse_record (replay d) rs = (fileEntries (trees m), byId (trees m))).
  { intros Hl Ho. destruct (Ho Hl) as (d & -> & Hd'). exists d. split; [done|]. rewrite Hd'. destruct (rewriteFile_rest m) as (-> & _). done. }
  unfold persistPatch. destruct (persist (files m)) eqn:Hp; [|intros (H & _); congruence].
  destruct (sessionFile (files m)) as [path|] eqn:Hs; [|intros (_ & H & _); congruence].
  destruct (disk (files m)) as [d|] eqn:Ed.
  2:{ intros Hl. destruct (Hd Hl) as (d & ? & _). congruence. }
  destruct (needsFullRewriteOnNextPersist (files m)) eqn:Hn; cbn [orb].
  { intros Hl. apply Hrw; [done|]. apply rewriteFile_files; [done|]. intros (_ & _ & _ & H). congruence. }
  destruct (flushed (files m)) eqn:Hf; cbn [negb orb].
  - rewrite (proj1 (header_version_ok _ Hh)), bool_decide_eq_false_2 by (unfold CURRENT_SESSION_VERSION; lia).
    intros _. destruct Hd as (d' & [= <-] & Hd'); [by split; [|split; [congruence|]]|]. exists (d ++ [r]). split; [done|].
    unfold replay in *. rewrite foldl_app. exact Hd'.
  - intros Hl. apply Hrw; [done|]. apply rewriteFile_files; [done|]. intros (_ & _ & H & _). congruence.
Qed.

(** *** Patches *)

Lemma applyHeaderPatch_twice h p : applyHeaderPatch (applyHeaderPatch h p) p = applyHeaderPatch h p.
Proof. destruct h, p as [[] [] []]; reflexivity. Qed.

Lemma patch_header_twice fs p : patch_header (patch_header fs p) p = patch_header fs p.
Proof. induction fs as [|[h|e] fs IH]; [done| |]; cbn; [by rewrite applyHeaderPatch_twice|by rewrite IH]. Qed.

Lemma index_positions fs i e :
  NoDup (ids (session_entries fs)) -> fs !! i = Some (F_entry e) -> map_get (byId (buildIndex fs)) (entryId e) = Some i.
Proof.
  induction fs as [|f fs IH] using rev_ind; [done|]. rewrite session_entries_app, buildIndex_snoc. destruct f as [h|e'].
  - cbn [omap list_omap session_entries]. rewrite app_nil_r. intros Hn Hi. apply IH; [done|].
    apply lookup_app_Some in Hi as [Hi|[_ Hi]]; [done|]. by apply list_lookup_singleton_Some in Hi as [_ ?].
  - change (session_entries [F_entry e']) with [e']. unfold ids. rewrite fmap_app. intros (Hn & Hd & _)%NoDup_app Hi.
    cbn [index_entry byId]. rewrite buildIndex_entries. apply lookup_app_Some in Hi as [Hi|[Hle Hi]].
    + rewrite map_get_set_ne; [by apply IH|]. intros E. apply (Hd (entryId e)); [|rewrite <- E; by left]. apply list_elem_of_fmap_2.
      unfold session_entries. apply list_elem_of_omap. exists (F_entry e). split; [by eapply list_elem_of_lookup_2|done].
    + apply list_lookup_singleton_Some in Hi as [Hi [= ->]]. rewrite map_get_set_eq. f_equal. lia.
Qed.

Definition positions_ok (fs : list FileEntry) (ps : positions) : Prop :=
  forall i e, fs !! i = Some (F_entry e) -> map_get ps (entryId e) = Some i.

Lemma set_message_at fs ps i e msg msg0 :
  positions_ok fs ps -> fs !! i = Some (F_entry e) -> kind e = message msg0 ->
  set_message fs ps (entryId e) msg = <[i := F_entry (with_message e msg)]> fs.
Proof. intros Hp Hi Ek. unfold set_message, entry_at. rewrite (Hp i e Hi), Hi. by rewrite Ek. Qed.

Lemma patches_apply_entry fs1 e e' fs2 : patches_apply (fs1 ++ F_entry e' :: fs2) = patches_apply (fs1 ++ F_entry e :: fs2).
Proof. unfold patches_apply. induction fs1 as [|[h|e0] fs1 IH]; [done|done|exact IH]. Qed.

Section sanitized.
Context (sanitize : AgentMessage -> option AgentMessage).

(** A sanitized entry is itself, or has a new message and a patch of it. *)
Lemma sanitize_entry_cases f :
  sanitize_entry sanitize f = (f, []) \/
  exists e msg msg0, f = F_entry e /\ kind e = message msg0 /\
    sanitize_entry sanitize f = (F_entry (with_message e msg), [R_entry_patch (entryId e) (Some msg)]).
Proof.
  destruct f as [h|e]; [by left|]. cbn. destruct (kind e) as [msg0| | | | | | | | | | | | |] eqn:Ek; try (by left).
  destruct (is_assistant msg0); [|by left]. destruct (sanitize msg0) as [msg|]; [|by left]. right. by exists e, msg, msg0.
Qed.

Lemma sanitize_replay ps fs2 fs1 :
  positions_ok (fs1 ++ fs2) ps -> patches_apply (fs1 ++ fs2) = true ->
  foldl parse_record (fs1 ++ fs2, ps) (concat (sanitize_entry sanitize <$> fs2).*2) = (fs1 ++ (sanitize_entry sanitize <$> fs2).*1, ps).
Proof.
  revert fs1. induction fs2 as [|f fs2 IH]; intros fs1 Hp Ha; [done|]. cbn [fmap list_fmap concat]. rewrite foldl_app.
  destruct (sanitize_entry_cases f) as [E|(e & msg & msg0 & -> & Ek & E)]; rewrite E; cbn [fst snd foldl].
  - change (f :: fs2) with ([f] ++ fs2) in *. rewrite app_assoc in Hp, Ha |- *. rewrite (IH (fs1 ++ [f]) Hp Ha). by rewrite <- app_assoc.
  - cbn [parse_record]. rewrite Ha. assert (Hi : (fs1 ++ F_entry e :: fs2) !! length fs1 = Some (F_entry e)) by (by rewrite lookup_app_r, Nat.sub_diag by lia).
    rewrite (set_message_at _ _ _ _ _ _ Hp Hi Ek), insert_app_r_alt, Nat.sub_diag by lia.
    change (<[0%nat := F_entry (with_message e msg)]> (F_entry e :: fs2)) with ([F_entry (with_message e msg)] ++ fs2). rewrite app_assoc.
    rewrite IH; [by rewrite <- app_assoc| |].
    + intros i e' He'. rewrite <- app_assoc in He'. apply lookup_app_Some in He' as [He'|[Hle He']].
      * apply Hp. by apply lookup_app_l_Some.
      * destruct (i - length fs1)%nat as [|j] eqn:Ei; cbn in He'.
        -- injection He' as <-. cbn [with_message entryId]. rewrite (Hp (length fs1) e Hi). f_equal. lia.
        -- apply Hp. rewrite lookup_app_r by done. by rewrite Ei.
    + rewrite <- app_assoc. rewrite <- Ha. apply patches_apply_entry.
Qed.

(** The patches change nothing more in what is sanitized. *)
Lemma sanitize_again ps fs :
  positions_ok (sanitize_entry sanitize <$> fs).*1 ps -> patches_apply (sanitize_entry sanitize <$> fs).*1 = true ->
  Forall (fun r => parse_record ((sanitize_entry sanitize <$> fs).*1, ps) r = ((sanitize_entry sanitize <$> fs).*1, ps))
    (concat (sanitize_entry sanitize <$> fs).*2).
Proof.
  intros Hp Ha. apply Forall_forall. intros r Hr. apply list_elem_of_In, in_concat in Hr as (rs & Hrs & Hr).
  apply list_elem_of_In in Hr, Hrs. apply list_elem_of_lookup in Hrs as [i Hi]. rewrite !list_lookup_fmap in Hi.
  destruct (fs !! i) as [f|] eqn:Ef; [|done]. cbn in Hi. injection Hi as <-.
  destruct (sanitize_entry_cases f) as [E|(e & msg & msg0 & -> & Ek & E)]; rewrite E in Hr; [by apply not_elem_of_nil in Hr|].
  apply list_elem_of_singleton in Hr as ->. cbn [parse_record]. rewrite Ha.
  assert (Hi : (sanitize_entry sanitize <$> fs).*1 !! i = Some (F_entry (with_message e msg))) by (rewrite !list_lookup_fmap, Ef; cbn [fmap option_fmap option_map]; by rewrite E).
  change (entryId e) with (entryId (with_message e msg)). rewrite (set_message_at _ _ _ _ msg msg Hp Hi eq_refl).
  f_equal. change (with_message (with_message e msg) msg) with (with_message e msg). by apply list_insert_id.
Qed.
End sanitized.

(** ** What every state keeps *)

Definition cache_ok (m : SessionManager) : Prop :=
  match sessionContextCache m with
  | None => True
  | Some c =>
      cached_entry c <= entryRevision (revs m) /\ cached_leaf c <= leafRevision (revs m) /\ cached_replay c <= replayMetadataRevision (revs m) /\
      (cache_valid m c = true -> cached c = build_context m)
  end.

Definition session_ok (m : SessionManager) : Prop := tree_ok (trees m) /\ header_ok (trees m) /\ files_ok m /\ cache_ok m.

(** The context depends on the entries and the leaf. *)
Lemma build_context_ext m m' :
  tree_ok (trees m) -> tree_ok (trees m') -> entries_of m' = entries_of m -> leafId (trees m') = leafId (trees m) -> build_context m' = build_context m.
Proof.
  intros Ht Ht' He Hl. destruct (leafId (trees m)) as [x|] eqn:E.
  - pose proof Ht as (_ & _ & Hx). rewrite E in Hx. destruct (known_entry m x Ht Hx) as (e & q & Hf & _ & Hq).
    rewrite (build_context_path m x e q Ht E Hf Hq). apply (build_context_path m' x e q Ht' Hl); [|by rewrite He].
    rewrite find_entry_ok in * by done. by rewrite He.
  - by rewrite !build_context_none by congruence.
Qed.

Lemma cache_kept m m' :
  cache_ok m -> sessionContextCache m' = sessionContextCache m ->
  entryRevision (revs m) <= entryRevision (revs m') -> leafRevision (revs m) <= leafRevision (revs m') ->
  replayMetadataRevision (revs m) <= replayMetadataRevision (revs m') ->
  (entryRevision (revs m') = entryRevision (revs m) -> leafRevision (revs m') = leafRevision (revs m) -> build_context m' = build_context m) ->
  cache_ok m'.
Proof.
  unfold cache_ok. intros Hc -> H1 H2 H3 Hb. destruct (sessionContextCache m) as [c|]; [|done]. destruct Hc as (C1 & C2 & C3 & Hv).
  split; [lia|]. split; [lia|]. split; [lia|]. unfold cache_valid in *. rewrite !andb_true_iff, !bool_decide_eq_true in *. intros ((E1 & E2) & E3).
  rewrite Hb by lia. apply Hv. split; [split|]; lia.
Qed.

Lemma session_ok_rest m m' :
  session_ok m -> trees m' = trees m -> revs m' = revs m -> sessionContextCache m' = sessionContextCache m -> files_ok m' -> session_ok m'.
Proof.
  intros (Ht & Hh & _ & Hc) Et Er Ec Hf. split; [by rewrite Et|]. split; [by rewrite Et|]. split; [done|].
  apply (cache_kept m); rewrite ?Er; [done|done|lia|lia|lia|]. intros _ _. apply build_context_ext; [done|by rewrite Et| |by rewrite Et].
  unfold entries_of. by rewrite Et.
Qed.

(** *** Appending *)

Lemma header_ok_app t t' f : header_ok t -> fileEntries t' = fileEntries t ++ [f] -> header_ok t'.
Proof. unfold header_ok. intros H ->. by destruct (fileEntries t) as [|[] fs]. Qed.

Lemma appendEntry_rest m e :
  entryRevision (revs (appendEntry m e)) = entryRevision (revs m) + 1 /\ leafRevision (revs (appendEntry m e)) = leafRevision (revs m) + 1 /\
  replayMetadataRevision (revs (appendEntry m e)) = replayMetadataRevision (revs m) /\
  sessionContextCache (appendEntry m e) = sessionContextCache m.
Proof.
  unfold appendEntry. match goal with |- context [persist_entry ?x e] => destruct (persist_entry_rest x e) as (_ & -> & ->) end.
  by destruct (kind e).
Qed.

(** An entry of any kind, put below a known entry; its label comes after. *)
Lemma appendEntry_ok m e ls :
  session_ok m -> entryId e ∉ ids (entries_of m) -> entryId e <> ""%string ->
  match parentId e with Some p => p ∈ ids (entries_of m) | None => True end ->
  ls = entry_label (labelsById (trees m)) e ->
  let m' := with_labels (appendEntry m e) ls in
  session_ok m' /\ trees m' = index_entry (trees m) (F_entry e) /\ trees m' = buildIndex (fileEntries (trees m) ++ [F_entry e]).
Proof.
  intros (Ht & Hh & Hf & Hc) Hn Hne Hp Hls m'. destruct (append_tree_ok (trees m) e Ht Hn Hne Hp) as [E Ht'].
  assert (Et : trees m' = index_entry (trees m) (F_entry e)).
  { subst m'. unfold appendEntry, with_labels. cbn. match goal with |- context [persist_entry ?x e] => destruct (persist_entry_rest x e) as (-> & _) end. by rewrite Hls. }
  split; [|by rewrite Et, E]. split; [by rewrite Et|]. split; [rewrite Et; by eapply header_ok_app|]. split.
  - intros Hl. assert (Ho : files_ok (appendEntry m e)).
    { unfold appendEntry. apply (persist_entry_files _ e (fileEntries (trees m)) (byId (trees m))); [done|done| |exact Hf].
      cbn. change (map_set (byId (trees m)) (entryId e) (length (fileEntries (trees m)))) with (byId (index_entry (trees m) (F_entry e))). by rewrite E. }
    destruct (Ho Hl) as (d & Ed & Hd). exists d. split; [exact Ed|]. rewrite Hd. by destruct (appendEntry m e).
  - destruct (appendEntry_rest m e) as (E1 & E2 & E3 & E4). apply (cache_kept m); cbn; [done|done|lia|lia|lia|]. intros ?. lia.
Qed.

Lemma with_labels_same m e : with_labels (appendEntry m e) (labelsById (trees m)) = appendEntry m e.
Proof.
  unfold appendEntry. match goal with |- context [persist_entry ?x e] => destruct (persist_entry_rest x e) as (E & _); revert E; generalize (persist_entry x e) end.
  intros [? ? ? ? t r f c] E. cbn in E. subst t. done.
Qed.

(** An append that is valid: the entry, and what comes of it. *)
Record appended (m : SessionManager) (e : SessionEntry) (m' : SessionManager) : Prop := {
  app_ok : session_ok m';
  app_fresh : entryId e ∉ ids (entries_of m);
  app_parent : match parentId e with Some p => p ∈ ids (entries_of m) | None => True end;
  app_tree : trees m' = buildIndex (fileEntries (trees m) ++ [F_entry e])
}.

Lemma fresh_appended m f p k :
  session_ok m -> fresh_ok m f -> match p with Some p => p ∈ ids (entries_of m) | None => True end ->
  let e := {| entryId := fresh_id m f; parentId := p; timestamp := now f; kind := k |} in
  appended m e (with_labels (appendEntry m e) (entry_label (labelsById (trees m)) e)).
Proof.
  intros Hm Hf Hp e. destruct (fresh_id_ok m f (proj1 Hm) Hf) as [Hn Hne].
  destruct (appendEntry_ok m e _ Hm Hn Hne Hp eq_refl) as (H & _ & E). by split.
Qed.

Definition below (m : SessionManager) (f : fresh) (k : entry_kind) : SessionEntry :=
  {| entryId := (append_below m f k).1; parentId := leafId (trees m); timestamp := now f; kind := k |}.

Lemma append_below_ok m f k : session_ok m -> fresh_ok m f -> is_label_kind k = false -> appended m (below m f k) (append_below m f k).2.
Proof.
  intros Hm Hf Hk. pose proof (fresh_appended m f (leafId (trees m)) k Hm Hf) as H. unfold append_below, below. cbn [snd].
  rewrite <- with_labels_same. destruct k; try discriminate Hk; apply H; apply Hm.
Qed.

(** *** Moving the leaf *)

Lemma move_leaf_ok m l :
  session_ok m -> match l with Some x => x ∈ ids (entries_of m) | None => True end ->
  session_ok (with_tree m (set_leaf (trees m) l) (bumpLeafRevision (revs m))).
Proof.
  intros (Ht & Hh & Hf & Hc) Hl. split; [by apply tree_ok_leaf|]. split; [done|]. split; [exact Hf|].
  apply (cache_kept m); cbn; [done|done|lia|lia|lia|]. intros _. lia.
Qed.

Lemma branch_ok m x : session_ok m -> session_ok (apply_op m (O_branch x)) /\ entries_of (apply_op m (O_branch x)) = entries_of m.
Proof.
  intros Hm. cbn. unfold branch. rewrite has_id_ids by apply Hm. destruct (bool_decide _) eqn:E; cbn [negb]; [|done].
  apply bool_decide_eq_true in E. split; [by apply move_leaf_ok|done].
Qed.

(** *** Updates *)

Lemma update_ok m fs' :
  session_ok m -> Forall2 same_file (fileEntries (trees m)) fs' ->
  session_ok (with_files (with_tree m (with_entries (trees m) fs') (bumpReplayRevision (bumpEntryRevision (revs m)))) (needs_rewrite (files m))).
Proof.
  intros (Ht & Hh & Hf & Hc) H. split; [by apply tree_ok_same|]. split; [by apply header_ok_same|].
  split; [intros (_ & _ & _ & Hl); done|]. apply (cache_kept m); cbn; [done|done|lia|lia|lia|]. intros ?. lia.
Qed.

Lemma positions_ok_tree t : tree_ok t -> positions_ok (fileEntries t) (byId t).
Proof. intros Ht i e Hi. pose proof Ht as (Hlog & _). rewrite (tree_ok_byId t Ht). apply index_positions; [by apply log_NoDup|done]. Qed.

Lemma foldl_persistPatch_rest m rs :
  trees (foldl persistPatch m rs) = trees m /\ revs (foldl persistPatch m rs) = revs m /\
  sessionContextCache (foldl persistPatch m rs) = sessionContextCache m.
Proof.
  revert m. induction rs as [|r rs IH]; intros m; [done|]. cbn [foldl]. destruct (IH (persistPatch m r)) as (-> & -> & ->). apply persistPatch_rest.
Qed.

Lemma sanitize_ok m sanitize :
  session_ok m -> valid_op m (O_sanitize sanitize) -> session_ok (sanitizeLoadedAndPersist sanitize m) /\
  Forall2 same_file (fileEntries (trees m)) (fileEntries (trees (sanitizeLoadedAndPersist sanitize m))).
Proof.
  intros (Ht & Hh & Hf & Hc) Hs. pose proof (sanitize_same sanitize (fileEntries (trees m)) Hs) as Hsame.
  unfold sanitizeLoadedAndPersist, sanitizeLoaded. pose proof (sanitize_replay sanitize (byId (trees m)) (fileEntries (trees m)) []) as Hr.
  pose proof (sanitize_again sanitize (byId (trees m)) (fileEntries (trees m))) as Ha. cbv zeta.
  destruct (concat (sanitize_entry sanitize <$> fileEntries (trees m)).*2) as [|r rs]; [split; [done|apply same_files_refl]|].
  match goal with |- context [with_tree m ?t ?r] => set (m1 := with_tree m t r) end.
  assert (Ht1 : tree_ok (trees m1)) by (by apply tree_ok_same).
  assert (Hh1 : header_ok (trees m1)) by (by apply header_ok_same).
  destruct (foldl_persistPatch_rest m1 (r :: rs)) as (Et & Er & Ec). split; [|by rewrite Et].
  split; [by rewrite Et|]. split; [by rewrite Et|]. split.
  - apply patches_files; [done|by apply tree_ok_byId| |].
    + intros Hl. destruct (Hf Hl) as (d & Ed & Hd). exists d. split; [done|]. rewrite Hd.
      exact (Hr (positions_ok_tree _ Ht) (proj2 (header_version_ok _ Hh))).
    + exact (Ha (positions_ok_tree _ Ht1) (proj2 (header_version_ok _ Hh1))).
  - apply (cache_kept m); rewrite ?Er, ?Ec; cbn; [done|done|lia|lia|lia|]. intros ?. lia.
Qed.

Lemma rename_ok m name source : session_ok m -> session_ok (setSessionName m name source).2 /\ entries_of (setSessionName m name source).2 = entries_of m.
Proof.
  intros Hm. unfold setSessionName. destruct (_ && _); [done|]. destruct (sanitizeName name) as [|c s]; [done|]. cbn [snd]. unfold appendHeaderPatch.
  set (p := {| patch_title := Some (c :: s); patch_titleSource := Some source; patch_cwd := None |}). destruct Hm as (Ht & Hh & Hf & Hc).
  pose proof (patch_header_same (fileEntries (trees m)) p) as Hsame. cbn [with_title trees].
  assert (Hes : session_entries (patch_header (fileEntries (trees m)) p) = session_entries (fileEntries (trees m))).
  { clear. induction (fileEntries (trees m)) as [|[h|e] fs IH]; [done|done|]. cbn. by f_equal. }
  destruct (first_header (fileEntries (trees m))) as [h|] eqn:Eh; [|unfold header_ok in Hh; by destruct (fileEntries (trees m)) as [|[] fs]].
  match goal with |- context [persistPatch ?x ?r] => set (m1 := x); destruct (persistPatch_rest m1 r) as (Et & Er & Ec) end.
  assert (Ht1 : tree_ok (trees m1)) by (by apply tree_ok_same).
  assert (Hh1 : header_ok (trees m1)) by (by apply header_ok_same).
  split; [|unfold entries_of; by rewrite Et]. split; [by rewrite Et|]. split; [by rewrite Et|]. split.
  - apply (patches_files m1 [R_header_patch p]); [done|by apply tree_ok_byId| |].
    + intros Hl. destruct (Hf Hl) as (d & Ed & Hd). exists d. split; [done|]. rewrite Hd. cbn [foldl parse_record].
      by rewrite (proj2 (header_version_ok _ Hh)).
    + constructor; [|constructor]. cbn [parse_record]. rewrite (proj2 (header_version_ok _ Hh1)). cbn. by rewrite patch_header_twice.
  - apply (cache_kept m); rewrite ?Er, ?Ec; cbn; [done|done|lia|lia|lia|]. intros _ _. apply build_context_ext; [done|by rewrite Et| |by rewrite Et].
    unfold entries_of. by rewrite Et.
Qed.

(** *** Every operation *)

Lemma index_entries_snoc m e m' : appended m e m' -> entries_of m' = entries_of m ++ [e].
Proof. intros H. unfold entries_of. rewrite (app_tree _ _ _ H), buildIndex_entries, session_entries_app. done. Qed.

Lemma appends_grow m e m' : appended m e m' -> session_ok m' /\ entries_of m ⊆ entries_of m'.
Proof. intros H. split; [apply H|]. rewrite (index_entries_snoc _ _ _ H). set_solver. Qed.

Lemma rest_grows m m' :
  session_ok m -> trees m' = trees m -> revs m' = revs m -> sessionContextCache m' = sessionContextCache m -> files_ok m' ->
  session_ok m' /\ entries_of m ⊆ entries_of m'.
Proof. intros Hm Et Er Ec Hf. split; [by apply (session_ok_rest m)|]. unfold entries_of. by rewrite Et. Qed.

Lemma read_ok m : session_ok m -> session_ok (getSessionContextForRead m).2 /\ (getSessionContextForRead m).1 = build_context m.
Proof.
  intros (Ht & Hh & Hf & Hc). assert (Hfill : forall c, cached c = build_context m -> cached_entry c = entryRevision (revs m) ->
    cached_leaf c = leafRevision (revs m) -> cached_replay c = replayMetadataRevision (revs m) -> session_ok (with_cache m c)).
  { intros c E1 E2 E3 E4. split; [done|]. split; [done|]. split; [exact Hf|]. cbn. split; [cbn; lia|]. split; [cbn; lia|]. split; [cbn; lia|].
    intros _. exact E1. }
  unfold getSessionContextForRead. pose proof Hc as Hc'. unfold cache_ok in Hc'. destruct (sessionContextCache m) as [c|]; [|split; [by apply Hfill|done]].
  destruct (cache_valid m c) eqn:Hv; cbn [fst snd]; [|split; [by apply Hfill|done]]. split; [by split; [|split; [|split]]|]. by apply Hc'.
Qed.

Lemma apply_ok m o : session_ok m -> valid_op m o -> session_ok (apply_op m o) /\ (appends o -> entries_of m ⊆ entries_of (apply_op m o)).
Proof.
  intros Hm Hv. pose proof Hm as (Ht & Hh & Hf & Hc). destruct o as [f k|f data|f target name|x| |f from summary details ext|us|us| |name source|sanitize| |];
    cbn [apply_op valid_op] in *.
  - destruct Hv as [Hv Hk]. destruct (appends_grow _ _ _ (append_below_ok m f k Hm Hv Hk)). by split.
  - pose proof (fresh_appended m f None (custom "context_clear" data) Hm Hv I) as H. cbn [entry_label kind] in H. rewrite with_labels_same in H.
    destruct (appends_grow _ _ _ H). by split.
  - unfold appendLabelChange. destruct (negb _); [by split|].
    pose proof (fresh_appended m f (leafId (trees m)) (label target name) Hm Hv ltac:(apply Ht)) as H. cbn zeta in H. unfold append_below.
    match goal with |- context [appendEntry m ?e] => assert (E : labelsById (trees (appendEntry m e)) = labelsById (trees m)) end.
    { unfold appendEntry. match goal with |- context [persist_entry ?x ?e] => destruct (persist_entry_rest x e) as (-> & _) end. done. }
    rewrite E. destruct (appends_grow _ _ _ H). by split.
  - destruct (branch_ok m x Hm) as [H1 H2]. split; [exact H1|]. cbn in H2 |- *. by rewrite H2.
  - split; [by apply move_leaf_ok|done].
  - unfold branchWithSummary. destruct (match from with Some x => _ | None => false end) eqn:E; [by split|].
    assert (Hp : match from with Some p => p ∈ ids (entries_of m) | None => True end).
    { destruct from as [x|]; [|done]. apply negb_false_iff in E. rewrite has_id_ids in E by done. by apply bool_decide_eq_true in E. }
    pose proof (fresh_appended m f from (branch_summary (default "root"%string from) summary details ext) Hm Hv Hp) as H. cbn zeta in H.
    change (entry_label _ _) with (labelsById (trees m)) in H. rewrite with_labels_same in H. destruct (appends_grow _ _ _ H). by split.
  - split; [|done]. apply (update_ok m _ Hm). by apply updates_same.
  - split; [|done]. apply (update_ok m _ Hm). apply custom_updates_same.
  - destruct (rewriteFile_rest m) as (E1 & E2 & E3). destruct (rest_grows m (rewriteFile m) Hm E1 E2 E3); [|by split].
    apply rewriteFile_files; [by apply tree_ok_byId|done].
  - destruct (rename_ok m name source Hm) as [H1 H2]. split; [done|]. by rewrite H2.
  - split; [by apply sanitize_ok|done].
  - destruct (ensureOnDisk_rest m) as (E1 & E2 & E3). destruct (rest_grows m (ensureOnDisk m) Hm E1 E2 E3); [|by split].
    unfold ensureOnDisk. destruct (negb _ || _); [done|]. destruct (_ && _); [done|]. apply rewriteFile_files; [by apply tree_ok_byId|done].
  - split; [by apply read_ok|]. unfold getSessionContextForRead. destruct (sessionContextCache m) as [c|]; [by destruct (cache_valid m c)|done].
Qed.

Lemma runs_ok P m m' : session_ok m -> runs P m m' -> session_ok m'.
Proof. intros Hm. induction 1 as [|m1 o _ IH _ Hv]; [done|]. by apply apply_ok. Qed.

Lemma runs_grow m m' : session_ok m -> runs appends m m' -> entries_of m ⊆ entries_of m'.
Proof.
  intros Hm. induction 1 as [|m1 o Hr IH Ho Hv]; [done|]. destruct (apply_ok m1 o (runs_ok _ _ _ Hm Hr) Hv) as [_ H].
  specialize (H Ho). set_solver.
Qed.
