(* ===== verification/SessionHistory.v ===== *)
(** * A session keeps its history

    What no operation changes, what an append adds to the context, and what a
    file brings back.  The examples at the end show where the manager loses
    its place or a part of its history. *)

From S2P Require Import Prelude JsonClone CodeUnits SessionEntries SessionContext SessionTree SessionPaths SessionRuns JsNumber.

Local Open Scope list_scope.
Local Open Scope Z_scope.

(** ** The context of a path *)

Lemma settings_snoc q e : foldl apply_setting no_settings (q ++ [e]) = apply_setting (foldl apply_setting no_settings q) e.
Proof. by rewrite foldl_app. Qed.

Lemma apply_compaction s e : s_compaction (apply_setting s e) = if is_compaction e then Some e else s_compaction s.
Proof.
  unfold apply_setting, is_compaction. destruct (kind e) as [m|l|m r p rs t|t|c|f su d x|t v|t c d v a|t l|rs recs n|ts|sp tk tl os fc|md v|c]; try done.
  - destruct m; try done. by destruct (s_hasExplicitDefaultModel s).
  - by destruct (decide (m = ""%string)).
  - by destruct (normalizeConfiguredModelChainEntry c).
Qed.

(** The last compaction of a path. *)
Lemma last_compaction q ce : s_compaction (foldl apply_setting no_settings q) = Some ce -> ce ∈ q /\ is_compaction ce = true.
Proof.
  induction q as [|e q IH] using rev_ind; [done|]. rewrite settings_snoc, apply_compaction. destruct (is_compaction e) eqn:E.
  - intros [= <-]. split; [set_solver|done].
  - intros H. destruct (IH H). split; [set_solver|done].
Qed.

Lemma compaction_index_app q ce r :
  ce ∈ q -> is_compaction ce = true -> compaction_index (entryId ce) (q ++ r) = compaction_index (entryId ce) q /\ (compaction_index (entryId ce) q < length q)%nat.
Proof.
  intros Hin Hc. induction q as [|e q IH]; [by apply not_elem_of_nil in Hin|]. cbn. destruct (is_compaction e && bool_decide (entryId e = entryId ce)) eqn:E; [split; [done|lia]|].
  apply elem_of_cons in Hin as [->|Hin]; [rewrite Hc, bool_decide_eq_true_2 in E by done; done|]. destruct (IH Hin) as [-> H]. split; [done|lia].
Qed.

Lemma compaction_index_last q e : entryId e ∉ ids q -> is_compaction e = true -> compaction_index (entryId e) (q ++ [e]) = length q.
Proof.
  intros Hn He. induction q as [|e' q IH]; cbn; [by rewrite He, bool_decide_eq_true_2|]. apply not_elem_of_cons in Hn as [Hne Hn].
  rewrite (bool_decide_eq_false_2 (entryId e' = entryId e)) by congruence. rewrite andb_false_r. f_equal. by apply IH.
Qed.

Definition path_context_messages (q : list SessionEntry) : list AgentMessage :=
  path_messages q (s_compaction (foldl apply_setting no_settings q)).

Lemma messages_of_path q : messages (context_of_path q) = path_context_messages q.
Proof. done. Qed.

(** An entry that is no compaction adds its messages. *)
Lemma path_messages_snoc q e :
  is_compaction e = false -> path_context_messages (q ++ [e]) = path_context_messages q ++ entry_messages e.
Proof.
  intros He. unfold path_context_messages. rewrite settings_snoc, apply_compaction, He.
  destruct (s_compaction (foldl apply_setting no_settings q)) as [ce|] eqn:E; cbn [path_messages].
  - destruct (last_compaction q ce E) as [Hin Hc]. destruct (compaction_index_app q ce [e] Hin Hc) as [-> Hlt].
    destruct (kind ce) eqn:Ek; unfold is_compaction in Hc; rewrite Ek in Hc; try discriminate Hc.
    rewrite take_app_le, drop_app_le by lia. rewrite fmap_app, concat_app. cbn [fmap list_fmap concat]. by rewrite app_nil_r, <- !app_assoc.
  - rewrite fmap_app, concat_app. cbn [fmap list_fmap concat]. by rewrite app_nil_r.
Qed.

(** A compaction replaces them by its summary and what it keeps. *)
Definition compacted (q : list SessionEntry) (c : CompactionEntry) (ts : Z) : list AgentMessage :=
  let payload := remote_payload c in
  createCompactionSummaryMessage (c_summary c) (tokensBefore c) ts (c_shortSummary c) payload ::
  match payload with Some _ => [] | None => kept_messages (firstKeptEntryId c) false q end.

Lemma path_messages_compaction q e c :
  kind e = compaction c -> entryId e ∉ ids q -> path_context_messages (q ++ [e]) = compacted q c (timestamp e).
Proof.
  intros Hk Hn. assert (He : is_compaction e = true) by (unfold is_compaction; by rewrite Hk).
  unfold path_context_messages. rewrite settings_snoc, apply_compaction, He. cbn [path_messages]. rewrite Hk, compaction_index_last by done.
  rewrite take_app_length, drop_ge by (rewrite length_app; cbn; lia). unfold compacted. by rewrite app_nil_r.
Qed.

(** ** Theorems *)

Definition leaf_path (m : SessionManager) : list SessionEntry := match leafId (trees m) with Some _ => getBranch m None | None => [] end.

Lemma leaf_path_spec m :
  session_ok m ->
  build_context m = (if decide (leafId (trees m) = None) then empty_context else context_of_path (leaf_path m)) /\
  match leafId (trees m) with
  | Some x => exists e, find_entry m x = Some e /\ entryId e = x /\ path_to (entries_of m) e (leaf_path m)
  | None => leaf_path m = []
  end.
Proof.
  intros (Ht & _). unfold leaf_path. pose proof Ht as (_ & _ & Hl). destruct (leafId (trees m)) as [x|] eqn:E.
  - destruct (known_entry m x Ht Hl) as (e & q & Hf & Ex & Hq). pose proof (getBranch_path m x e q Ht Hf Hq) as Hb.
    assert (Hn : getBranch m None = q) by (rewrite <- Hb; unfold getBranch, start_of; by rewrite E). rewrite Hn.
    rewrite decide_False by done. split; [by apply (build_context_path m x e)|]. by exists e.
  - rewrite decide_True by done. split; [by apply build_context_none|done].
Qed.

Lemma leaf_messages m : session_ok m -> messages (build_context m) = path_context_messages (leaf_path m).
Proof.
  intros Hm. destruct (leaf_path_spec m Hm) as [-> Hl]. destruct (decide _) as [E|]; [|done]. rewrite E in Hl. by rewrite Hl.
Qed.

Lemma leaf_path_NoDup m : session_ok m -> NoDup (ids (leaf_path m)).
Proof.
  intros Hm. destruct (leaf_path_spec m Hm) as [_ Hl]. pose proof (proj1 (proj1 Hm)) as Hlog. destruct (leafId (trees m)) as [x|].
  - destruct Hl as (e & _ & _ & Hq). apply log_NoDup. by apply (path_log (entries_of m) e).
  - rewrite Hl. constructor.
Qed.

(** The path that an entry is put below. *)
Definition path_from (m : SessionManager) (p : option string) : list SessionEntry := match p with Some x => getBranch m (Some x) | None => [] end.

Lemma leaf_path_from m : leaf_path m = path_from m (leafId (trees m)).
Proof. unfold leaf_path, path_from, getBranch, start_of. by destruct (leafId (trees m)). Qed.

Lemma path_from_spec m p :
  tree_ok (trees m) -> match p with Some x => x ∈ ids (entries_of m) | None => True end ->
  path_from m p ⊆ entries_of m /\
  match p with Some x => exists e, entryId e = x /\ find_entry m x = Some e /\ path_to (entries_of m) e (path_from m p) | None => True end.
Proof.
  intros Ht Hp. destruct p as [x|]; cbn [path_from]; [|split; [intros e He; by apply not_elem_of_nil in He|done]].
  destruct (known_entry m x Ht Hp) as (e & q & Hf & Ex & Hq). rewrite (getBranch_path m x e q Ht Hf Hq). split; [|by exists e].
  destruct (path_exists _ e (proj1 Ht) ltac:(by eapply path_in)) as (q2 & Hq2 & _ & Hs).
  by rewrite (path_functional _ _ _ _ (log_NoDup _ (proj1 Ht)) Hq Hq2).
Qed.

(** The path of an entry that has just been appended. *)
Lemma appended_at m e m' :
  session_ok m -> appended m e m' -> build_context m' = context_of_path (path_from m (parentId e) ++ [e]) /\ entryId e ∉ ids (path_from m (parentId e)).
Proof.
  intros Hm Ha. pose proof (app_ok _ _ _ Ha) as Hm'. pose proof (index_entries_snoc _ _ _ Ha) as He. pose proof (app_fresh _ _ _ Ha) as Hn.
  destruct (path_from_spec m (parentId e) (proj1 Hm) (app_parent _ _ _ Ha)) as [Hs Hp].
  assert (Hin : e ∈ entries_of m') by (rewrite He; set_solver).
  assert (Hleaf : leafId (trees m') = Some (entryId e)) by (rewrite (app_tree _ _ _ Ha), buildIndex_snoc; done).
  assert (Hf : find_entry m' (entryId e) = Some e).
  { rewrite find_entry_ok by apply Hm'. apply lookup_entry_in; [|done]. apply log_NoDup. apply Hm'. }
  assert (Hq : path_to (entries_of m') e (path_from m (parentId e) ++ [e])).
  { destruct (parentId e) as [x|] eqn:El; [|by constructor]. destruct Hp as (p & <- & _ & Hq).
    apply (path_child _ e p); [done|congruence|]. eapply path_mono; [|exact Hq]. rewrite He. set_solver. }
  split; [apply (build_context_path m' (entryId e) e); [apply Hm'|done..]|]. intros (y & Ey & Hy)%list_elem_of_fmap.
  apply Hn. rewrite Ey. apply list_elem_of_fmap_2. by apply Hs.
Qed.

Lemma appended_path m e m' :
  session_ok m -> appended m e m' -> parentId e = leafId (trees m) ->
  build_context m' = context_of_path (leaf_path m ++ [e]) /\ entryId e ∉ ids (leaf_path m).
Proof. intros Hm Ha Hp. rewrite leaf_path_from, <- Hp. by apply appended_at. Qed.

(** What is appended changes no branch. *)
Lemma branch_kept m m' x : session_ok m -> session_ok m' -> entries_of m ⊆ entries_of m' -> x ∈ ids (entries_of m) -> getBranch m' (Some x) = getBranch m (Some x).
Proof.
  intros Hm Hm' Hs Hx. destruct (known_entry m x (proj1 Hm) Hx) as (e & q & Hf & Ex & Hq). rewrite (getBranch_path m x e q (proj1 Hm) Hf Hq).
  pose proof (path_mono _ _ _ _ Hs Hq) as Hq'. apply (getBranch_path m' x e q (proj1 Hm')); [|done].
  rewrite find_entry_ok by apply Hm'. rewrite <- Ex. apply lookup_entry_in; [apply log_NoDup, Hm'|by eapply path_in].
Qed.

(** Going to an entry. *)
Lemma branch_moves m x :
  session_ok m -> x ∈ ids (entries_of m) ->
  exists m', branch m x = Ok m' /\ session_ok m' /\ entries_of m' = entries_of m /\ build_context m' = context_of_path (getBranch m (Some x)).
Proof.
  intros Hm Hx. exists (with_tree m (set_leaf (trees m) (Some x)) (bumpLeafRevision (revs m))). unfold branch. rewrite has_id_ids by apply Hm.
  rewrite bool_decide_eq_true_2 by done. split; [done|]. pose proof (move_leaf_ok m (Some x) Hm Hx) as Hm'. split; [done|]. split; [done|].
  destruct (known_entry m x (proj1 Hm) Hx) as (e & q & Hf & _ & Hq). rewrite (getBranch_path m x e q (proj1 Hm) Hf Hq).
  by apply (build_context_path _ x e); [apply Hm'|done..].
Qed.

(** C9.  Nothing that is appended, labelled or summarized, and no move of the
    leaf, changes the branch of an entry: after any such run it is what it
    was, and going back to the entry brings back the context of that branch. *)
Theorem history_is_kept m m' x :
  session_ok m -> runs appends m m' -> x ∈ ids (entries_of m) ->
  getBranch m' (Some x) = getBranch m (Some x) /\
  exists m'', branch m' x = Ok m'' /\ build_context m'' = context_of_path (getBranch m (Some x)).
Proof.
  intros Hm Hr Hx. pose proof (runs_ok _ _ _ Hm Hr) as Hm'. pose proof (runs_grow _ _ Hm Hr) as Hs.
  rewrite <- (branch_kept m m' x) by done. split; [done|].
  destruct (branch_moves m' x Hm') as (m'' & Hb & _ & _ & Hc); [|by exists m''].
  apply list_elem_of_fmap in Hx as (e & -> & He). apply list_elem_of_fmap_2. by apply Hs.
Qed.

(** What an append does to the context: an entry adds the messages it
    stands for, and a compaction leaves its summary and the messages from the
    first entry it keeps. *)
Theorem append_context m f k :
  session_ok m -> fresh_ok m f -> is_label_kind k = false ->
  messages (build_context (append_below m f k).2) =
  match k with
  | compaction c => compacted (leaf_path m) c (now f)
  | _ => messages (build_context m) ++ entry_messages (below m f k)
  end.
Proof.
  intros Hm Hf Hk. pose proof (append_below_ok m f k Hm Hf Hk) as Ha. destruct (appended_path m _ _ Hm Ha eq_refl) as [-> Hn].
  rewrite messages_of_path, (leaf_messages m Hm). destruct k; try (by apply path_messages_snoc). by apply path_messages_compaction.
Qed.

(** C8.  The context the session reads is the context of its branch, whether
    it is built or comes from the cache, after any run. *)
Theorem context_never_stale m m' : session_ok m -> runs (fun _ => True) m m' -> (getSessionContextForRead m').1 = build_context m'.
Proof. intros Hm Hr. by apply read_ok, (runs_ok _ _ _ Hm Hr). Qed.

(** *** Durability *)

(** A session that is written: it has a file and an answer, or was put on disk
    before. *)
Definition written (m : SessionManager) : Prop :=
  persist (files m) = true /\ sessionFile (files m) <> None /\ (ensuredOnDisk (files m) = true \/ has_assistant (fileEntries (trees m)) = true).

Lemma persist_entry_live m e : written m -> live (files (persist_entry m e)).
Proof.
  intros (Hp & Hs & Ha). unfold persist_entry. rewrite Hp. cbn [negb orb]. rewrite bool_decide_eq_false_2 by done.
  replace (negb (ensuredOnDisk (files m)) && negb (has_assistant (fileEntries (trees m)))) with false
    by (destruct Ha as [-> | ->]; by rewrite ?andb_false_r).
  assert (Hr : live (files (rewriteFile m))).
  { unfold rewriteFile. rewrite Hp, bool_decide_eq_false_2 by done. by split; [|split; [|split]]. }
  destruct (needsFullRewriteOnNextPersist (files m)) eqn:Hn; cbn [orb]; [exact Hr|].
  destruct (flushed (files m)) eqn:Hf; cbn [negb]; [|exact Hr]. by split; [|split; [|split]].
Qed.

Lemma concat_sanitized sanitize fs :
  (forall e msg, e ∈ session_entries fs -> kind e = message msg -> sanitize msg = None) -> concat (sanitize_entry sanitize <$> fs).*2 = [].
Proof.
  induction fs as [|f fs IH]; intros H; [done|]. cbn. rewrite IH.
  - rewrite app_nil_r. destruct (sanitize_entry_cases sanitize f) as [->|(e & msg & msg0 & -> & Ek & E)]; [done|].
    exfalso. revert E. unfold sanitize_entry. rewrite Ek. destruct (is_assistant msg0); [|done]. rewrite (H e msg0) by (done || by left). done.
  - intros e msg He. apply H. destruct f; [done|]. by right.
Qed.

(** Loading a file that is up to date. *)
Lemma load_live m sanitize draws kept m2 path x now :
  session_ok m -> live (files m) -> (forall e msg, e ∈ entries_of m -> kind e = message msg -> sanitize msg = None) ->
  trees (setSessionFile sanitize draws kept m2 path (disk (files m)) x now) = buildIndex (fileEntries (trees m)).
Proof.
  intros (Ht & Hh & Hf & _) Hl Hs. destruct (Hf Hl) as (d & -> & Hd). unfold setSessionFile, loadEntriesFromFile, parseSessionEntries.
  unfold replay in Hd. rewrite Hd. cbn [fst]. unfold header_ok in Hh. unfold entries_of in Hs. destruct (fileEntries (trees m)) as [|[h|e] fs]; try done.
  unfold migrateToCurrentVersion. cbn [first_header mbind option_bind]. rewrite Hh. cbn [default from_option]. rewrite decide_True by done.
  unfold sanitizeLoadedAndPersist, sanitizeLoaded. cbn [trees fileEntries]. rewrite buildIndex_entries.
  rewrite (concat_sanitized sanitize (F_session h :: fs)) by exact Hs. done.
Qed.


(** *** A session of one path *)

Definition unlabelled (q : list SessionEntry) : list SessionEntry := List.filter (fun e => negb (is_label e)) q.

Lemma label_setting s e : is_label e = true -> apply_setting s e = s /\ entry_messages e = [] /\ is_compaction e = false.
Proof. unfold is_label, apply_setting, entry_messages, is_compaction. by destruct (kind e). Qed.

(** Labels do not count in the context. *)
Lemma settings_labels q ls : Forall (fun e => is_label e = true) ls -> foldl apply_setting no_settings (q ++ ls) = foldl apply_setting no_settings q.
Proof.
  induction ls as [|e ls IH] using rev_ind; intros H; [by rewrite app_nil_r|]. apply Forall_app in H as [H He]. apply Forall_cons in He as [He _].
  rewrite app_assoc, settings_snoc, IH by done. by destruct (label_setting (foldl apply_setting no_settings q) e He).
Qed.

Lemma context_labels q ls : Forall (fun e => is_label e = true) ls -> context_of_path (q ++ ls) = context_of_path q.
Proof.
  intros H. unfold context_of_path. rewrite settings_labels by done. f_equal. change (path_messages q _) with (path_context_messages q).
  transitivity (path_context_messages (q ++ ls)); [unfold path_context_messages; by rewrite settings_labels|].
  induction ls as [|e ls IH] using rev_ind; [by rewrite app_nil_r|]. apply Forall_app in H as [H He]. apply Forall_cons in He as [He _].
  destruct (label_setting no_settings e He) as (_ & Hmsg & Hc). rewrite app_assoc, path_messages_snoc, IH, Hmsg, app_nil_r by done. done.
Qed.

(** The ids of the labels of a new session are fresh, one after the other. *)
Fixpoint labels_fresh (f : nat -> fresh) (taken : list string) (ls : list (string * string)) : Prop :=
  match ls with
  | [] => True
  | _ :: ls =>
      let g := f (length ls) in
      snowflake g ∉ taken /\ snowflake g <> ""%string /\ (forall i, draws g i <> ""%string) /\
      labels_fresh f (taken ++ [generateId (includes taken) (draws g) (snowflake g)]) ls
  end.

(** They go below one another. *)
Lemma label_entries_log q f p ls :
  log_ok q -> match p with Some x => x ∈ ids q | None => True end -> labels_fresh f (ids q) ls ->
  log_ok (q ++ label_entries f (ids q) p ls) /\ Forall (fun e => is_label e = true) (label_entries f (ids q) p ls) /\
  forall e r, last (q ++ label_entries f (ids q) p ls) = Some e -> (forall e', last q = Some e' -> p = Some (entryId e') /\ path_to q e' r) ->
    q <> [] -> path_to (q ++ label_entries f (ids q) p ls) e (r ++ label_entries f (ids q) p ls).
Proof.
  revert q p. induction ls as [|[target name] ls IH]; intros q p Hq Hp Hf; cbn [label_entries].
  - rewrite !app_nil_r. split; [done|]. split; [constructor|]. intros e r He Hr _. rewrite app_nil_r. by apply Hr.
  - destruct Hf as (Hs & Hne & Hd & Hf). set (g := f (length ls)) in *. set (x := generateId (includes (ids q)) (draws g) (snowflake g)) in *.
    destruct (generateId_free (includes (ids q)) (draws g) (snowflake g)) as [Hx Hxne]; [by apply includes_false|done|done|]. fold x in Hx, Hxne.
    apply includes_false in Hx. set (e0 := {| entryId := x; parentId := p; timestamp := now g; kind := label target (Some name) |}).
    assert (Hq0 : log_ok (q ++ [e0])) by (by apply log_snoc).
    assert (Eids : ids (q ++ [e0]) = ids q ++ [x]) by (unfold ids; by rewrite fmap_app).
    destruct (IH (q ++ [e0]) (Some x) Hq0) as (H1 & H2 & H3); [rewrite Eids; set_solver|by rewrite Eids|]. rewrite Eids, <- app_assoc in *. cbn [app] in *.
    split; [exact H1|]. split; [by constructor|]. intros e r He Hr Hqne. specialize (H3 e (r ++ [e0]) He). rewrite <- app_assoc in H3. apply H3.
    + intros e' He'. rewrite last_snoc in He'. injection He' as <-. split; [done|]. destruct (last q) as [el|] eqn:El; [|by apply last_None in El].
      destruct (Hr el eq_refl) as [-> Hpr]. apply (path_child _ e0 el); [set_solver|done|]. eapply path_mono; [|exact Hpr]. set_solver.
    + intros [_ E]%app_eq_nil. done.
Qed.

Lemma log_prefix q1 q2 : log_ok (q1 ++ q2) -> log_ok q1.
Proof.
  induction q2 as [|e q2 IH] using rev_ind; [by rewrite app_nil_r|]. rewrite app_assoc. intros H. apply IH.
  inversion H as [E|es e' Hlog _ _ _ E]; [by destruct (app_cons_not_nil (q1 ++ q2) [] e)|]. apply app_inj_tail in E as [-> _]. done.
Qed.

Lemma path_snoc_inv es e q e2 : path_to es e (q ++ [e2]) -> q = [] \/ exists p, path_to es p q.
Proof.
  intros H. remember (q ++ [e2]) as l eqn:E. destruct H as [e _ _|e p q' _ _ Hq].
  - left. destruct q as [|a q]; [done|]. injection E as _ E. by destruct (app_cons_not_nil q [] e2).
  - right. apply app_inj_tail in E as [-> _]. by exists p.
Qed.

(** A path in the log of a longer path is in its own log. *)
Lemma path_prefix es e q1 q2 e' : path_to es e (q1 ++ q2) -> log_ok es -> last q1 = Some e' -> path_to q1 e' q1.
Proof.
  intros Hp Hlog Hlast. assert (H : exists e1, path_to es e1 q1).
  { revert e Hp. induction q2 as [|e2 q2 IH] using rev_ind; intros e Hp; [rewrite app_nil_r in Hp; by exists e|].
    rewrite app_assoc in Hp. apply path_snoc_inv in Hp as [E|[p Hp]]; [|by apply (IH p)]. apply app_eq_nil in E as [-> _]. done. }
  destruct H as [e1 H]. pose proof (path_last _ _ _ H) as E. rewrite Hlast in E. injection E as <-. by apply (path_log es).
Qed.

(** *** Labels of an index *)

Definition labels_ok (ls : list (string * string)) : Prop := NoDup ls.*1 /\ Forall (fun p => p.2 <> ""%string) ls.

Lemma set_label_ok ls target l : labels_ok ls -> labels_ok (set_label ls target l).
Proof.
  intros [Hn Hf]. assert (Hdel : labels_ok (map_delete ls target)).
  { split; [by apply map_delete_NoDup|]. unfold map_delete. apply Forall_forall. intros p [_ Hp]%list_elem_of_filter. by apply (proj1 (Forall_forall _ _) Hf). }
  assert (Hset : forall n, n <> ""%string -> labels_ok (map_set ls target n)).
  { intros n Hne. split; [by apply map_set_NoDup|]. apply Forall_forall. intros p Hp.
    destruct (map_set_elem _ _ _ _ Hn Hp) as [->|[Hp' _]]; [done|]. by apply (proj1 (Forall_forall _ _) Hf). }
  unfold set_label. destruct l as [[|a l]|]; [done|by apply Hset|done].
Qed.

Lemma index_labels_ok fs : labels_ok (labelsById (buildIndex fs)).
Proof.
  induction fs as [|f fs IH] using rev_ind; [by split; constructor|]. rewrite buildIndex_snoc. destruct f as [h|e]; [exact IH|].
  cbn. destruct (kind e); try exact IH. by apply set_label_ok.
Qed.

Lemma index_labels fs : labelsById (buildIndex fs) = foldl entry_label [] (session_entries fs).
Proof.
  induction fs as [|f fs IH] using rev_ind; [done|]. rewrite buildIndex_snoc, session_entries_app. destruct f as [h|e].
  - cbn. by rewrite app_nil_r.
  - change (session_entries [F_entry e]) with [e]. by rewrite foldl_app, <- IH.
Qed.

Lemma labels_of_entries f taken p ls acc :
  NoDup (acc.*1 ++ ls.*1) -> Forall (fun p => p.2 <> ""%string) ls -> foldl entry_label acc (label_entries f taken p ls) = acc ++ ls.
Proof.
  revert taken p acc. induction ls as [|[target name] ls IH]; intros taken p acc Hn Hf; cbn [label_entries foldl]; [by rewrite app_nil_r|].
  apply Forall_cons in Hf as [Hne Hf]. cbn in Hne. rewrite IH; [| |done].
  - unfold entry_label, set_label. cbn [kind]. destruct name as [|a name]; [done|]. rewrite map_set_fresh; [by rewrite <- app_assoc|].
    apply NoDup_app in Hn as (_ & Hd & _). intros Hin. apply (Hd _ Hin). by left.
  - unfold entry_label, set_label. cbn [kind]. destruct name as [|a name]; [done|]. rewrite map_set_fresh.
    + rewrite fmap_app, <- app_assoc. exact Hn.
    + apply NoDup_app in Hn as (_ & Hd & _). intros Hin. apply (Hd _ Hin). by left.
Qed.

Lemma labels_of_plain q acc : Forall (fun e => is_label e = false) q -> foldl entry_label acc q = acc.
Proof.
  intros H. revert acc. induction H as [|e q He _ IH]; intros acc; [done|]. cbn [foldl]. rewrite IH. unfold entry_label, is_label in *. by destruct (kind e).
Qed.

Lemma filter_sublist_bool {A} (p : A -> bool) (l : list A) : List.filter p l `sublist_of` l.
Proof. induction l as [|x l IH]; [constructor|]. cbn. destruct (p x); by constructor. Qed.

Lemma filter_plain q ls : Forall (fun e => is_label e = false) q -> Forall (fun e => is_label e = true) ls -> unlabelled (q ++ ls) = q.
Proof.
  intros Hq Hls. unfold unlabelled. rewrite List.filter_app. replace (List.filter _ ls) with (@nil SessionEntry).
  - rewrite app_nil_r. induction Hq as [|e q He _ IH]; [done|]. cbn. by rewrite He, IH.
  - induction Hls as [|e ls He _ IH]; [done|]. cbn. by rewrite He.
Qed.

Lemma index_leaf fs : leafId (buildIndex fs) = entryId <$> last (session_entries fs).
Proof.
  induction fs as [|f fs IH] using rev_ind; [done|]. rewrite buildIndex_snoc, session_entries_app. destruct f as [h|e].
  - change (session_entries [F_session h]) with (@nil SessionEntry). by rewrite app_nil_r.
  - change (session_entries [F_entry e]) with [e]. by rewrite last_snoc.
Qed.

(** The index of any log. *)
Lemma index_tree_ok fs : log_ok (session_entries fs) -> tree_ok (buildIndex fs).
Proof.
  intros H. split; [by rewrite buildIndex_entries|]. rewrite buildIndex_entries. split; [by destruct (buildIndex fs)|].
  rewrite index_leaf. destruct (last (session_entries fs)) as [e|] eqn:E; [|done]. cbn. apply list_elem_of_fmap_2. by eapply last_Some_elem_of.
Qed.

Lemma build_context_index m fs e q :
  trees m = buildIndex fs -> log_ok (session_entries fs) -> last (session_entries fs) = Some e -> path_to (session_entries fs) e q ->
  build_context m = context_of_path q.
Proof.
  intros Et Hlog He Hq. assert (Ees : entries_of m = session_entries fs) by (unfold entries_of; by rewrite Et, buildIndex_entries).
  assert (Ht : tree_ok (trees m)) by (rewrite Et; by apply index_tree_ok). apply (build_context_path m (entryId e) e); [done| | |by rewrite Ees].
  - by rewrite Et, index_leaf, He.
  - rewrite find_entry_ok, Ees by done. apply lookup_entry_in; [by apply log_NoDup|]. by eapply last_Some_elem_of.
Qed.

Lemma label_get_filter (ls : list (string * string)) x (p : string -> bool) : p x = true -> map_get (List.filter (fun y => p y.1) ls) x = map_get ls x.
Proof.
  intros Hp. induction ls as [|[k v] ls IH]; [done|]. cbn. destruct (p k) eqn:Ek; cbn.
  - by rewrite IH.
  - rewrite IH. destruct (decide (k = x)) as [->|]; [congruence|done].
Qed.

(** C25.  A session cut out of one path has that path's context, and the labels
    of its entries, when the labels set on the path are at its end. *)
Theorem branched_session_context m leaf q ls sid now file f m' :
  session_ok m -> leaf ∈ ids (entries_of m) -> getBranch m (Some leaf) = q ++ ls ->
  Forall (fun e => is_label e = false) q -> Forall (fun e => is_label e = true) ls ->
  labels_fresh f (ids q) (List.filter (fun p => includes (ids q) p.1) (labelsById (trees m))) ->
  createBranchedSession m leaf sid now file f = Ok m' ->
  build_context m' = context_of_path (getBranch m (Some leaf)) /\ forall x, x ∈ ids q -> getLabel m' x = getLabel m x.
Proof.
  intros Hm Hleaf Hb Hq Hls Hfresh. unfold createBranchedSession. rewrite Hb. destruct (q ++ ls) as [|e0 q0] eqn:Eq; [done|]. rewrite <- Eq in Hb |- *. clear Eq e0 q0.
  set (h := new_header sid now (m_cwd m) (if persist (files m) then sessionFile (files m) else None)). intros E.
  assert (Et : trees m' = buildIndex (F_session h :: (F_entry <$> branched_entries m f (q ++ ls)))) by (by injection E as <-). clear E.
  set (L := List.filter (fun p => includes (ids q) p.1) (labelsById (trees m))) in *.
  assert (Eb : branched_entries m f (q ++ ls) = q ++ label_entries f (ids q) (entryId <$> last q) L).
  { unfold branched_entries. change (List.filter (fun e => negb (is_label e)) (q ++ ls)) with (unlabelled (q ++ ls)). by rewrite (filter_plain q ls Hq Hls). }
  rewrite context_labels by done. destruct (known_entry m leaf (proj1 Hm) Hleaf) as (e & q' & Hf & _ & Hp).
  rewrite (getBranch_path m leaf e q' (proj1 Hm) Hf Hp) in Hb. subst q'. destruct (path_log _ _ _ (proj1 (proj1 Hm)) Hp) as [Hl%log_prefix _].
  set (L' := label_entries f (ids q) (entryId <$> last q) L). rewrite Eb in Et. fold L' in Et. set (fs := F_session h :: (F_entry <$> (q ++ L'))) in *.
  assert (Efs : session_entries fs = q ++ L') by apply (session_entries_only (q ++ L')).
  destruct (label_entries_log q f (entryId <$> last q) L Hl) as (H1 & H2 & H3); [|done|].
  { destruct (last q) as [e1|] eqn:E1; [|done]. cbn. apply list_elem_of_fmap_2. by eapply last_Some_elem_of. }
  fold L' in H1, H2, H3. split.
  - rewrite <- (context_labels q L' H2). destruct (last (q ++ L')) as [e1|] eqn:E1.
    + apply (build_context_index _ fs e1); rewrite ?Efs; [done|done|done|].
      destruct (decide (q = [])) as [->|Hq0].
      { exfalso. assert (EL : L = []) by (unfold L; clear; by induction (labelsById (trees m))). unfold L' in E1. by rewrite EL in E1. }
      apply (H3 e1 q); [done| |done]. intros e' He'. split; [by rewrite He'|]. exact (path_prefix _ _ _ _ _ Hp (proj1 (proj1 Hm)) He').
    + apply last_None in E1. rewrite E1. apply build_context_none. by rewrite Et, index_leaf, Efs, E1.
  - intros x Hx. unfold getLabel. rewrite Et, index_labels, Efs, foldl_app, (labels_of_plain q []) by done.
    destruct (index_labels_ok (fileEntries (trees m))) as [Hn Hf']. pose proof (proj1 Hm) as (_ & Ht & _).
    assert (El : labelsById (trees m) = labelsById (buildIndex (fileEntries (trees m)))) by (by rewrite Ht at 1). rewrite <- El in Hn, Hf'.
    unfold L'. rewrite labels_of_entries.
    + cbn [app]. unfold L. apply (label_get_filter (labelsById (trees m)) x (fun y => includes (ids q) y)). by apply includes_true.
    + cbn. unfold L. eapply sublist_NoDup; [exact Hn|]. apply fmap_sublist, filter_sublist_bool.
    + unfold L. apply Forall_forall. intros y Hy. apply list_elem_of_In, filter_In in Hy as [Hy _]. apply list_elem_of_In in Hy.
      by apply (proj1 (Forall_forall _ _) Hf').
Qed.

(** ** A session *)

Definition blank : SessionManager :=
  {| m_sessionId := ""; sessionName := None; m_titleSource := None; m_cwd := "/work"; trees := empty_tree;
     revs := {| entryRevision := 0; leafRevision := 0; headerExportRevision := 0; labelRevision := 0; replayMetadataRevision := 0 |};
     files := {| persist := true; sessionFile := None; flushed := false; needsFullRewriteOnNextPersist := false; ensuredOnDisk := false; disk := None |};
     sessionContextCache := None |}.

(** Any new session is well-formed. *)
Lemma newSession_ok m x now path parent : sessionContextCache m = None -> session_ok (newSession m x now path parent).
Proof.
  intros Hc. split; [by split; [constructor|]|]. split; [done|]. split; [intros (_ & _ & Hl & _); done|]. unfold cache_ok. cbn. by rewrite Hc.
Qed.

Definition start : SessionManager := newSession blank "s0" 0 "s0.jsonl" None.

Lemma start_ok : session_ok start.
Proof. by apply newSession_ok. Qed.

(** Every draw gives the id [x]. *)
Definition drawn (x : string) (t : Z) : fresh := {| draws := fun _ => x; snowflake := (x ++ "-snowflake")%string; now := t |}.

Definition some_usage : Usage :=
  {| input := 10; output := 5; cacheRead := 0; cacheWrite := 0; totalTokens := 15; premiumRequests := None; total_cost := num_zero |}.
Definition says (t : string) : AgentMessage := M_user (C_text (units t)).
Definition answers (t : string) : AgentMessage := M_assistant [B_text (units t)] "openai" "gpt" some_usage "stop".

Definition one_question : SessionManager := apply_op start (O_append (drawn "u1" 1) (message (says "one"))).
Definition one_answer : SessionManager := apply_op one_question (O_append (drawn "a1" 2) (message (answers "1"))).
(** The question is labelled, and another follows. *)
Definition labelled : SessionManager := apply_op one_answer (O_label (drawn "l1" 3) "u1" (Some "here"%string)).
Definition two_questions : SessionManager := apply_op labelled (O_append (drawn "u2" 4) (message (says "two"))).
(** Back at the first question. *)
Definition back : SessionManager := apply_op two_questions (O_branch "u1").

Lemma fresh_bool m f : includes (ids (entries_of m)) (snowflake f) = false -> snowflake f <> ""%string -> (forall i, draws f i <> ""%string) -> fresh_ok m f.
Proof. intros H. split; [by apply includes_false|]. by split. Qed.

Lemma run_to_answer P : (forall o, appends o -> P o) -> runs P start one_answer.
Proof.
  intros HP. apply (runs_step P start one_question (O_append (drawn "a1" 2) (message (answers "1")))).
  - apply (runs_step P start start (O_append (drawn "u1" 1) (message (says "one")))); [constructor|by apply HP|].
    split; [apply fresh_bool; [vm_compute; reflexivity|done|done]|done].
  - by apply HP.
  - split; [apply fresh_bool; [vm_compute; reflexivity|done|done]|done].
Qed.

Lemma run_back : runs appends one_answer back.
Proof.
  apply (runs_step appends one_answer two_questions (O_branch "u1")); [|done|done].
  apply (runs_step appends one_answer labelled (O_append (drawn "u2" 4) (message (says "two")))); [|done|].
  - apply (runs_step appends one_answer one_answer (O_label (drawn "l1" 3) "u1" (Some "here"%string))); [constructor|done|].
    apply fresh_bool; [vm_compute; reflexivity|done|done].
  - split; [apply fresh_bool; [vm_compute; reflexivity|done|done]|done].
Qed.

Lemma one_answer_ok : session_ok one_answer.
Proof. apply (runs_ok (fun _ => True) start); [apply start_ok|]. by apply run_to_answer. Qed.

Lemma two_questions_ok : session_ok two_questions.
Proof.
  apply apply_ok; [apply apply_ok; [apply one_answer_ok|]|].
  - apply fresh_bool; [vm_compute; reflexivity|done|done].
  - split; [apply fresh_bool; [vm_compute; reflexivity|done|done]|done].
Qed.

Lemma history_is_kept_witness :
  getBranch back (Some "a1"%string) = getBranch one_answer (Some "a1"%string) /\
  exists m'', branch back "a1" = Ok m'' /\ build_context m'' = context_of_path (getBranch one_answer (Some "a1"%string)).
Proof.
  refine (history_is_kept one_answer back "a1" one_answer_ok run_back _).
  by apply (bool_decide_unpack ("a1"%string ∈ ids (entries_of one_answer))).
Defined.

Lemma append_context_witness :
  messages (build_context (append_below one_answer (drawn "u2" 3) (message (says "two"))).2) =
  messages (build_context one_answer) ++ entry_messages (below one_answer (drawn "u2" 3) (message (says "two"))).
Proof.
  refine (append_context one_answer (drawn "u2" 3) (message (says "two")) one_answer_ok _ eq_refl).
  apply fresh_bool; [vm_compute; reflexivity|done|done].
Defined.

Lemma context_never_stale_witness : (getSessionContextForRead one_answer).1 = build_context one_answer.
Proof. refine (context_never_stale start one_answer start_ok (run_to_answer (fun _ => True) _)). done. Defined.


(** The session of the labelled question alone. *)
Lemma branched_session_context_witness :
  exists m', createBranchedSession labelled "l1" "s1" 5 "s1.jsonl" (fun _ => drawn "l2" 5) = Ok m' /\
    build_context m' = context_of_path (getBranch labelled (Some "l1"%string)) /\ forall x, x ∈ ids (take 2 (getBranch labelled (Some "l1"%string))) -> getLabel m' x = getLabel labelled x.
Proof.
  eexists. split; [reflexivity|].
  refine (branched_session_context labelled "l1" (take 2 (getBranch labelled (Some "l1"%string))) (drop 2 (getBranch labelled (Some "l1"%string)))
            "s1" 5 "s1.jsonl" (fun _ => drawn "l2" 5) _ _ _ _ _ _ _ _).
  - apply apply_ok; [apply one_answer_ok|]. apply fresh_bool; [vm_compute; reflexivity|done|done].
  - by apply (bool_decide_unpack ("l1"%string ∈ ids (entries_of labelled))).
  - by rewrite take_drop.
  - by apply (bool_decide_unpack (Forall (fun e => is_label e = false) (take 2 (getBranch labelled (Some "l1"%string))))).
  - by apply (bool_decide_unpack (Forall (fun e => is_label e = true) (drop 2 (getBranch labelled (Some "l1"%string))))).
  - split; [|split; [done|split; [done|exact I]]]. by apply (bool_decide_unpack ("l2-snowflake"%string ∉ ids (take 2 (getBranch labelled (Some "l1"%string))))).
  - reflexivity.
Defined.

(** ** Where the manager loses its place *)

(** A label within the path is left out of the new session, and the entry
    below it has no parent any more: what came before is lost. *)
Example label_cuts_history :
  match createBranchedSession two_questions "u2" "s1" 5 "s1.jsonl" (fun _ => drawn "l2" 5) with
  | Ok m => messages (build_context m) = [says "two"]
  | Throw _ => False
  end /\ messages (build_context two_questions) = [says "one"; answers "1"; says "two"].
Proof. by split. Qed.

(** Forking a session goes to its last entry, wherever its leaf was. *)
Example fork_moves_leaf :
  leafId (trees back) = Some "u1"%string /\ leafId (trees (fork back "s1" 5 "s1.jsonl")) = Some "u2"%string.
Proof. by split. Qed.

(** So does going back to a snapshot after a failed switch. *)
Example restore_moves_leaf :
  leafId (trees (restoreState back (captureState back) (disk (files back)))) = Some "u2"%string.
Proof. done. Qed.

(** A staged model selection moves the leaf from a branch chosen since. *)
Example stage_ignores_leaf :
  let s := stageDefaultModelSelection two_questions (drawn "m1" 5) (drawn "m2" 5) (drawn "m3" 5) "openai/gpt" None false in
  let '(promoted, m) := promoteDefaultModelSelection back s in
  promoted = true /\ leafId (trees back) = Some "u1"%string /\ ids (getBranch m None) = ["u1"; "a1"; "l1"; "u2"; "m1"; "m3"]%string.
Proof. by vm_compute. Qed.

(** The ids of a migrated session are not checked against one another. *)
Example migrated_ids_collide :
  ids (session_entries (migrateV1ToV2 (fun _ _ => "same"%string) (fun _ => None)
    [F_entry {| entryId := ""; parentId := None; timestamp := 0; kind := message (says "one") |};
     F_entry {| entryId := ""; parentId := None; timestamp := 1; kind := message (says "two") |}])) = ["same"; "same"]%string.
Proof. done. Qed.
