(* ===== verification/Compaction.v ===== *)
(** * Compaction ([agent/src/compaction/compaction.ts], [utils.ts])

    When a conversation outgrows the context, a cut point is chosen near its
    end, what is before it is summarized and what is after it is kept.

    The requests to a model are parameters: the summary of a history and of
    the beginning of a turn, the rendering of the list of files, the remote
    compaction.  Estimates of tokens are cached by everything they depend on,
    so the cache is not modelled. *)

From Stdlib Require Import SpecFloat Ascii.
From S2P Require Import Prelude JsNumber JsonClone CodeUnits SessionEntries SessionContext.

Local Open Scope list_scope.
Local Open Scope Z_scope.

(** ** Numbers *)

Definition num_mul : number -> number -> number := SFmul prec emax.
Definition num_div : number -> number -> number := SFdiv prec emax.

(** [Math.floor] and [Math.round] of a finite number. *)
Definition num_scaled (m e k : Z) : Z := if decide (0 <= e) then k * (m * 2 ^ e) else k * m.
Definition num_scale (e : Z) : Z := if decide (0 <= e) then 1 else 2 ^ (- e).

Definition num_floor (x : number) : Z :=
  match x with
  | S754_finite s m e => let v := if s then Z.neg m else Z.pos m in num_scaled v e 1 / num_scale e
  | _ => 0
  end.

Definition num_round (x : number) : Z :=
  match x with
  | S754_finite s m e => let v := if s then Z.neg m else Z.pos m in (num_scaled v e 2 + num_scale e) / (2 * num_scale e)
  | _ => 0
  end.

(** [Math.floor(n * x)] for an integer [n]. *)
Definition times (n : Z) (x : number) : Z := num_floor (num_mul (num_of_Z n) x).

(** ** Usage and thresholds *)

Definition calculateContextTokens (u : Usage) : Z :=
  if decide (totalTokens u = 0) then input u + output u + cacheRead u + cacheWrite u else totalTokens u.

Definition calculatePromptTokens (u : Usage) : Z :=
  let p := input u + cacheRead u + cacheWrite u in if decide (0 < p) then p else calculateContextTokens u.

Definition getAssistantUsage (m : AgentMessage) : option Usage :=
  match m with
  | M_assistant _ _ _ u stop => if bool_decide (stop = "aborted"%string) || bool_decide (stop = "error"%string) then None else Some u
  | _ => None
  end.

Fixpoint last_usage (es : list SessionEntry) : option Usage :=
  match es with
  | [] => None
  | e :: es => match kind e with message m => match getAssistantUsage m with Some u => Some u | None => last_usage es end | _ => last_usage es end
  end.

Definition getLastAssistantUsage (es : list SessionEntry) : option Usage := last_usage (rev es).

Record CompactionSettings := {
  enabled : bool; strategy : option string; thresholdPercent : option number; thresholdTokens : option Z;
  reserveTokens : Z; keepRecentTokens : Z
}.

Definition DEFAULT_COMPACTION_SETTINGS : CompactionSettings :=
  {| enabled := true; strategy := Some "context-full"%string; thresholdPercent := Some (num_of_Z (-1)); thresholdTokens := Some (-1);
     reserveTokens := 16384; keepRecentTokens := 20000 |}.

Definition effectiveReserveTokens (contextWindow : Z) (s : CompactionSettings) (maxOutputTokens : Z) : Z :=
  Z.max (times contextWindow (num_of_decimal 15 (-2))) (Z.max (reserveTokens s) (Z.max 0 maxOutputTokens)).

Definition by_reserve (contextWindow : Z) (s : CompactionSettings) (maxOutputTokens : Z) : Z :=
  contextWindow - effectiveReserveTokens contextWindow s maxOutputTokens.

Definition by_percent (contextWindow : Z) (s : CompactionSettings) (maxOutputTokens : Z) : Z :=
  match thresholdPercent s with
  | Some p =>
      if negb (is_finite p) || num_leb p num_zero then by_reserve contextWindow s maxOutputTokens
      else
        let p := if num_ltb p (num_of_Z 1) then num_of_Z 1 else p in
        let p := if num_ltb (num_of_Z 99) p then num_of_Z 99 else p in
        times contextWindow (num_div p (num_of_Z 100))
  | None => by_reserve contextWindow s maxOutputTokens
  end.

(** A fixed limit, or a percentage, or what the reserve leaves. *)
Definition resolveThresholdTokens (contextWindow : Z) (s : CompactionSettings) (maxOutputTokens : Z) : Z :=
  match thresholdTokens s with
  | Some t => if decide (0 < t) then Z.min (contextWindow - 1) (Z.max 1 t) else by_percent contextWindow s maxOutputTokens
  | None => by_percent contextWindow s maxOutputTokens
  end.

Definition shouldCompact (contextTokens contextWindow : Z) (s : CompactionSettings) (maxOutputTokens : Z) : bool :=
  if negb (enabled s) || bool_decide (strategy s = Some "off"%string) || bool_decide (contextWindow <= 0) then false
  else bool_decide (resolveThresholdTokens contextWindow s maxOutputTokens < contextTokens).

(** ** Estimates *)

Definition IMAGE_TOKEN_ESTIMATE : Z := 1200.

Definition is_dense (c : Z) : bool :=
  bool_decide (4352 <= c <= 4607) || bool_decide (12288 <= c <= 12351) || bool_decide (12352 <= c <= 12543) || bool_decide (12592 <= c <= 12687) ||
  bool_decide (13312 <= c <= 19903) || bool_decide (19968 <= c <= 40959) || bool_decide (44032 <= c <= 55215) ||
  bool_decide (63744 <= c <= 64255) || bool_decide (65280 <= c <= 65519).

Definition is_surrogate (c : Z) : bool := bool_decide (55296 <= c <= 57343).

(** The weight is counted in halves of a token. *)
Definition char_weight (c : Z) : Z := if is_dense c then 2 else if is_surrogate c then 1 else 0.

Definition tokenDenseCharWeight (t : text) : Z * Z :=
  foldl (fun '(w, u) c => (w + char_weight c, u + (if is_dense c || is_surrogate c then 1 else 0))) (0, 0) t.

Definition estimateFragmentTokensHeuristic (t : text) : Z * Z :=
  let '(w, u) := tokenDenseCharWeight t in (w, Z.of_nat (length t) - u).

(** [Math.ceil(dense + Math.max(0, otherChars) / 4)] *)
Definition estimateTextTokensHeuristic (ts : list text) : Z :=
  let '(dense, other) := foldl (fun '(d, o) t => let '(w, n) := estimateFragmentTokensHeuristic t in (d + w, o + n)) (0, 0) ts in
  - ((- (2 * dense + Z.max 0 other)) / 4).

Definition nonempty (t : text) : list text := match t with [] => [] | _ => [t] end.

Definition text_blocks (bs : list block) : list text :=
  concat ((fun b => match b with B_text t => nonempty t | _ => [] end) <$> bs).

Definition content_fragments (c : content) : list text := match c with C_text t => [t] | C_blocks bs => text_blocks bs end.

Definition images (bs : list block) : Z := IMAGE_TOKEN_ESTIMATE * Z.of_nat (length (List.filter (fun b => match b with B_image => true | _ => false end) bs)).

Definition call_fragments (b : block) : list text :=
  match b with
  | B_text t => [t]
  | B_thinking t => [t]
  | B_toolCall _ name args => [units name; units (default "undefined"%string (json_stringify args))]
  | B_image => []
  end.

Definition collectMessageFragments (m : AgentMessage) : list text * Z :=
  match m with
  | M_bashExecution command output => ([command; output], 0)
  | M_user c | M_custom _ c _ _ _ _ => (content_fragments c, 0)
  | M_assistant bs _ _ _ _ => (concat (call_fragments <$> bs), 0)
  | M_hookMessage _ (C_text t) _ _ _ _ => ([t], 0)
  | M_hookMessage _ (C_blocks bs) _ _ _ _ | M_toolResult _ _ bs _ => (text_blocks bs, images bs)
  | M_branchSummary s _ _ | M_compactionSummary s _ _ _ _ => ([s], 0)
  | M_developer _ | M_pythonExecution _ _ | M_fileMention _ => ([], 0)
  end.

Definition estimateMessageTokensHeuristic (m : AgentMessage) : Z :=
  let '(ts, extra) := collectMessageFragments m in extra + estimateTextTokensHeuristic ts.

Definition getMessageFromEntry (e : SessionEntry) : option AgentMessage :=
  match kind e with
  | message m => Some m
  | custom_message t c d details a => Some (createCustomMessage t c d details (timestamp e) a)
  | branch_summary fromId summary _ _ => Some (createBranchSummaryMessage summary fromId (timestamp e))
  | _ => None
  end.

Definition estimateEntryTokens (e : SessionEntry) : Z :=
  match getMessageFromEntry e with Some m => let '(ts, extra) := collectMessageFragments m in estimateTextTokensHeuristic ts + extra | None => 0 end.

Definition sum_tokens (es : list SessionEntry) : Z := foldr (fun e n => estimateEntryTokens e + n) 0 es.

Definition estimateEntriesTokens (es : list SessionEntry) (start end_ : nat) : Z := sum_tokens (take (end_ - start) (drop start es)).

(** ** The cut point *)

(** A tool result follows its call, and some messages are no cut points. *)
Definition is_cut (e : SessionEntry) : bool :=
  match kind e with
  | message (M_bashExecution _ _ | M_hookMessage _ _ _ _ _ _ | M_branchSummary _ _ _ | M_compactionSummary _ _ _ _ _ | M_user _ | M_assistant _ _ _ _ _)
  | branch_summary _ _ _ _ | custom_message _ _ _ _ _ => true
  | _ => false
  end.

Definition entry_is (p : SessionEntry -> bool) (es : list SessionEntry) (i : nat) : bool :=
  match es !! i with Some e => p e | None => false end.

Definition findValidCutPoints (es : list SessionEntry) (start end_ : nat) : list nat :=
  List.filter (entry_is is_cut es) (seq start (end_ - start)).

Definition starts_turn (e : SessionEntry) : bool :=
  match kind e with
  | branch_summary _ _ _ _ | custom_message _ _ _ _ _ | message (M_user _ | M_bashExecution _ _) => true
  | _ => false
  end.

(** From [i] down to [start]; [None] is -1. *)
Fixpoint findTurnStartIndex (es : list SessionEntry) (i start : nat) : option nat :=
  if decide (i < start)%nat then None
  else if entry_is starts_turn es i then Some i
  else match i with O => None | S i => findTurnStartIndex es i start end.

Record CutPointResult := { firstKeptEntryIndex : nat; turnStartIndex : option nat; isSplitTurn : bool }.

(** From the newest entry down: the first at which the budget is reached. *)
Fixpoint budget_index (es : list SessionEntry) (start : nat) (n : nat) (accumulated keep : Z) : option nat :=
  match n with
  | O => None
  | S n =>
      let i := (start + n)%nat in
      let accumulated := accumulated + match es !! i with Some e => estimateEntryTokens e | None => 0 end in
      if decide (keep <= accumulated) then Some i else budget_index es start n accumulated keep
  end.

Definition cut_index (cutPoints : list nat) (i : option nat) : nat :=
  match i with
  | None => List.hd O cutPoints
  | Some i => default (List.last cutPoints O) (find_first (fun c => bool_decide (i <= c)%nat) cutPoints)
  end.

Definition is_message (e : SessionEntry) : bool := match kind e with message _ => true | _ => false end.

(** Entries that are no messages go with what follows them. *)
Fixpoint scan_back (es : list SessionEntry) (start cut : nat) : nat :=
  match cut with
  | O => O
  | S c =>
      if decide (start < cut)%nat then
        if entry_is (fun e => is_compaction e || is_message e) es c then cut else scan_back es start c
      else cut
  end.

Definition is_user_message (e : SessionEntry) : bool := match kind e with message (M_user _) => true | _ => false end.

Definition findCutPoint (es : list SessionEntry) (start end_ : nat) (keep : Z) : CutPointResult :=
  match findValidCutPoints es start end_ with
  | [] => {| firstKeptEntryIndex := start; turnStartIndex := None; isSplitTurn := false |}
  | cutPoints =>
      let cut := scan_back es start (cut_index cutPoints (budget_index es start (end_ - start) 0 keep)) in
      let isUserMessage := entry_is is_user_message es cut in
      let turn := if isUserMessage then None else findTurnStartIndex es cut start in
      {| firstKeptEntryIndex := cut; turnStartIndex := turn; isSplitTurn := negb isUserMessage && bool_decide (is_Some turn) |}
  end.

(** ** Files *)

Record FileOperations := { read : list string; written : list string; edited : list string }.

Definition createFileOps : FileOperations := {| read := []; written := []; edited := [] |}.

Definition add_call (ops : FileOperations) (b : block) : FileOperations :=
  match b with
  | B_toolCall _ name args =>
      match field (Some args) "path" with
      | Some (V_str p) =>
          if decide (p = ""%string) then ops
          else if decide (name = "read"%string) then {| read := set_add (read ops) p; written := written ops; edited := edited ops |}
          else if decide (name = "write"%string) then {| read := read ops; written := set_add (written ops) p; edited := edited ops |}
          else if decide (name = "edit"%string) then {| read := read ops; written := written ops; edited := set_add (edited ops) p |}
          else ops
      | _ => ops
      end
  | _ => ops
  end.

Definition extractFileOpsFromMessage (ops : FileOperations) (m : AgentMessage) : FileOperations :=
  match m with M_assistant bs _ _ _ _ => foldl add_call ops bs | _ => ops end.

(** The strings of [value[key]]. *)
Definition string_items (v : option value) (key : string) : list string :=
  match field v key with
  | Some (V_arr items) => omap (fun o => match o with Some (V_str s) => Some s | _ => None end) items
  | _ => []
  end.

Definition previous_files (prev : option CompactionEntry) : FileOperations :=
  match prev with
  | Some c =>
      if bool_decide (fromExtension c = Some true) then createFileOps
      else {| read := foldl set_add [] (string_items (c_details c) "readFiles"); written := [];
              edited := foldl set_add [] (string_items (c_details c) "modifiedFiles") |}
  | None => createFileOps
  end.

Definition extractFileOperations (ms : list AgentMessage) (prev : option CompactionEntry) : FileOperations :=
  foldl extractFileOpsFromMessage (previous_files prev) ms.

(** [sort()] *)
Fixpoint insert_sorted (s : string) (l : list string) : list string :=
  match l with [] => [s] | x :: l' => if String.leb s x then s :: l else x :: insert_sorted s l' end.

Definition sort_strings (l : list string) : list string := foldr insert_sorted [] l.

Definition computeFileLists (ops : FileOperations) : list string * list string :=
  let modified := foldl set_add (edited ops) (written ops) in
  (sort_strings (List.filter (fun f => negb (includes modified f)) (read ops)), sort_strings modified).

(** ** Preparation *)

Record CompactionPreparation := {
  p_firstKeptEntryId : string;
  messagesToSummarize : list AgentMessage;
  turnPrefixMessages : list AgentMessage;
  recentMessages : list AgentMessage;
  p_isSplitTurn : bool;
  p_tokensBefore : Z;
  previousSummary : option text;
  previousPreserveData : option value;
  fileOps : FileOperations;
  keepRecentTokensCorrected : Z
}.

(** [tokenCorrectionRatio] and [contextWindow] *)
Record PrepareCompactionOptions := { tokenCorrectionRatio : option number; o_contextWindow : option Z }.

Definition entry_message_list (es : list SessionEntry) : list AgentMessage := omap getMessageFromEntry es.

Definition last_compaction_index (es : list SessionEntry) : option nat :=
  List.last (Some <$> List.filter (entry_is is_compaction es) (seq 0 (length es))) None.

Definition compaction_at (es : list SessionEntry) (i : option nat) : option CompactionEntry :=
  i ← i; e ← es !! i; match kind e with compaction c => Some c | _ => None end.

Definition clamped_ratio (o : PrepareCompactionOptions) : number :=
  match tokenCorrectionRatio o with
  | Some r =>
      if is_finite r && num_ltb num_zero r then
        let r := if num_ltb r (num_of_decimal 5 (-1)) then num_of_decimal 5 (-1) else r in
        if num_ltb (num_of_Z 2) r then num_of_Z 2 else r
      else num_of_Z 1
  | None => num_of_Z 1
  end.

(** The window of recent tokens to keep, from the settings, the context window
    and what there is. *)
Definition keep_window (s : CompactionSettings) (o : PrepareCompactionOptions) (historyTokens : Z) : Z :=
  let configured := keepRecentTokens s in
  let safe := match o_contextWindow o with
              | Some w => if decide (1 < w) then Z.max 1 (resolveThresholdTokens w s 0 - effectiveReserveTokens w s 0) else configured
              | None => configured
              end in
  let keep := Z.min configured safe in
  let scaled := match o_contextWindow o with
                | Some w => if decide (66000 <= w) then Z.min safe (Z.max keep (times w (num_of_decimal 3 (-1)))) else keep
                | None => keep
                end in
  let effective := if decide (historyTokens < configured) then configured
                   else if bool_decide (keep < scaled) && bool_decide (historyTokens < scaled) then keep else scaled in
  Z.max 1 (num_round (num_div (num_of_Z effective) (clamped_ratio o))).

Definition prepareCompaction (es : list SessionEntry) (s : CompactionSettings) (o : PrepareCompactionOptions) : option CompactionPreparation :=
  if match last es with Some e => is_compaction e | None => false end then None
  else
    let prev := last_compaction_index es in
    let boundaryStart := match prev with Some i => S i | None => O end in
    let boundaryEnd := length es in
    let tokensBefore := match getLastAssistantUsage es with Some u => calculateContextTokens u | None => 0 end in
    let keep := keep_window s o (estimateEntriesTokens es boundaryStart boundaryEnd) in
    let cut := findCutPoint es boundaryStart boundaryEnd keep in
    let first := firstKeptEntryIndex cut in
    match es !! first with
    | None => None
    | Some e =>
        if decide (entryId e = ""%string) then None
        else
          let historyEnd := if isSplitTurn cut then default first (turnStartIndex cut) else first in
          let toSummarize := entry_message_list (take (historyEnd - boundaryStart) (drop boundaryStart es)) in
          let turnPrefix := if isSplitTurn cut then entry_message_list (take (first - historyEnd) (drop historyEnd es)) else [] in
          let recent := entry_message_list (drop first es) in
          match toSummarize, turnPrefix with
          | [], [] => None
          | _, _ =>
              let c := compaction_at es prev in
              let ops := extractFileOperations toSummarize c in
              Some {| p_firstKeptEntryId := entryId e; messagesToSummarize := toSummarize; turnPrefixMessages := turnPrefix;
                      recentMessages := recent; p_isSplitTurn := isSplitTurn cut; p_tokensBefore := tokensBefore;
                      previousSummary := c_summary <$> c; previousPreserveData := c ← c; preserveData c;
                      fileOps := if isSplitTurn cut then foldl extractFileOpsFromMessage ops turnPrefix else ops;
                      keepRecentTokensCorrected := keep |}
          end
    end.

(** ** Summaries *)

(** [replace(/<tag>[\s\S]*?<\/tag>\s*/g, "")]; the fuel is the length. *)
Fixpoint strip_tag (fuel : nat) (open close : text) (s : text) : text :=
  match fuel with
  | O => s
  | S fuel =>
      match index_of open s with
      | None => s
      | Some i =>
          let rest := drop (i + length open) s in
          match index_of close rest with
          | None => s
          | Some j => take i s ++ strip_tag fuel open close (trimStart (drop (j + length close) rest))
          end
      end
  end.

Definition stripFileOperationTags (s : text) : text :=
  let s := strip_tag (length s) (units "<read-files>") (units "</read-files>") s in
  trimEnd (strip_tag (length s) (units "<modified-files>") (units "</modified-files>") s).

Definition FILE_OPERATION_SUMMARY_LIMIT : nat := 20.

Definition truncateFileList (fs : list string) : list text :=
  if decide (length fs <= FILE_OPERATION_SUMMARY_LIMIT)%nat then units <$> fs
  else (units <$> take FILE_OPERATION_SUMMARY_LIMIT fs) ++
       [8230 :: units " (" ++ decimal (Z.of_nat (length fs - FILE_OPERATION_SUMMARY_LIMIT)) ++ units " more files omitted)"].

(** A line feed, white space and a line feed end a paragraph. *)
Fixpoint first_paragraph (s : text) : text :=
  match s with
  | [] => []
  | c :: s' => if (c =? LF) && existsb (Z.eqb LF) (span is_white s').1 then [] else c :: first_paragraph s'
  end.

Definition deriveShortSummary (summary : text) : text :=
  let p := first_paragraph (trim summary) in
  if decide (Z.of_nat (length p) <= 2000) then p else take 1999 p ++ [8230].

Definition OPENAI_REMOTE_COMPACTION_PRESERVE_KEY : string := "openaiRemoteCompaction".

Definition withOpenAiRemoteCompactionPreserveData (data remote : option value) : option value :=
  match remote, data with
  | Some r, Some (V_obj fields h) => Some (V_obj (map_set fields OPENAI_REMOTE_COMPACTION_PRESERVE_KEY r) h)
  | Some r, _ => Some (V_obj [(OPENAI_REMOTE_COMPACTION_PRESERVE_KEY, r)] None)
  | None, Some (V_obj fields h) =>
      match map_get fields OPENAI_REMOTE_COMPACTION_PRESERVE_KEY with
      | None => data
      | Some _ => match map_delete fields OPENAI_REMOTE_COMPACTION_PRESERVE_KEY with [] => None | rest => Some (V_obj rest h) end
      end
  | None, _ => data
  end.

Record CompactionResult := {
  r_summary : text; r_shortSummary : text; r_firstKeptEntryId : string; r_tokensBefore : Z;
  r_details : list string * list string; r_preserveData : option value
}.

Section compact.
Context (generateSummary : list AgentMessage -> option text -> text) (generateTurnPrefixSummary : list AgentMessage -> text).
Context (render_files : list text -> list text -> text).

Definition formatFileOperations (readFiles modifiedFiles : list string) : text :=
  match readFiles, modifiedFiles with
  | [], [] => []
  | _, _ => render_files (truncateFileList readFiles) (truncateFileList modifiedFiles)
  end.

Definition upsertFileOperations (summary : text) (readFiles modifiedFiles : list string) : text :=
  let base := stripFileOperationTags summary in
  match formatFileOperations readFiles modifiedFiles, base with
  | [], _ => base
  | files, [] => files
  | files, _ => base ++ [LF; LF] ++ files
  end.

Definition no_history : text := units "No prior history.".
Definition split_header : text := [LF; LF] ++ units "---" ++ [LF; LF] ++ units "**Turn Context (split turn):**" ++ [LF; LF].

(** The summary of what is cut off; [remote] is what a remote compaction gave. *)
Definition summarize (p : CompactionPreparation) : text :=
  match turnPrefixMessages p with
  | _ :: _ =>
      if p_isSplitTurn p then
        match messagesToSummarize p with [] => no_history | ms => generateSummary ms (previousSummary p) end ++ split_header ++
        generateTurnPrefixSummary (turnPrefixMessages p)
      else match messagesToSummarize p with
           | [] => match previousSummary p with Some (_ :: _ as s) => s | _ => no_history end
           | ms => generateSummary ms (previousSummary p)
           end
  | [] =>
      match messagesToSummarize p with
      | [] => match previousSummary p with Some (_ :: _ as s) => s | _ => no_history end
      | ms => generateSummary ms (previousSummary p)
      end
  end.

Definition compact (p : CompactionPreparation) (remote : option value) : CompactionResult :=
  let '(readFiles, modifiedFiles) := computeFileLists (fileOps p) in
  let summary := upsertFileOperations (summarize p) readFiles modifiedFiles in
  {| r_summary := summary; r_shortSummary := deriveShortSummary summary; r_firstKeptEntryId := p_firstKeptEntryId p;
     r_tokensBefore := p_tokensBefore p; r_details := (readFiles, modifiedFiles);
     r_preserveData := withOpenAiRemoteCompactionPreserveData (previousPreserveData p) remote |}.
End compact.

(** The entry that is appended for a result. *)
Definition entry_of_result (r : CompactionResult) (extension : bool) : CompactionEntry :=
  let strings l := V_arr ((fun s => Some (V_str s)) <$> l) in
  {| c_summary := r_summary r; c_shortSummary := Some (r_shortSummary r); firstKeptEntryId := r_firstKeptEntryId r; tokensBefore := r_tokensBefore r;
     c_details := Some (V_obj [("readFiles"%string, strings (r_details r).1); ("modifiedFiles"%string, strings (r_details r).2)] None);
     preserveData := r_preserveData r; fromExtension := Some extension |}.

(** ** The text of a request *)

Definition OVERHEAD_TOKENS : Z := 4096.

Definition elision (elided : Z) : text :=
  [LF; LF] ++ units "[... " ++ decimal elided ++
  units " characters of older conversation elided so this summarization request fits within the model context window ...]" ++ [LF; LF].

Definition assemble (t head tail : text) : text := head ++ elision (Z.of_nat (length t) - Z.of_nat (length head) - Z.of_nat (length tail)) ++ tail.

Definition fitsBudget (budget : Z) (t : text) : bool := bool_decide (estimateTextTokensHeuristic [t] <= budget).

(** Twelve attempts at most, each with four fifths of the characters. *)
Fixpoint attempt (n : nat) (t : text) (budget budgetChars : Z) : option text :=
  match n with
  | O => None
  | S n =>
      if decide (budgetChars <= 0) then None
      else
        let headChars := times budgetChars (num_of_decimal 35 (-2)) in
        let tailChars := Z.max 0 (budgetChars - headChars) in
        let assembled := assemble t (take (Z.to_nat headChars) t) (drop (length t - Z.to_nat tailChars) t) in
        if fitsBudget budget assembled then Some assembled
        else attempt n t budget (times budgetChars (num_of_decimal 8 (-1)))
  end.

Definition boundConversationTextForSummary (t : text) (contextWindow outputMaxTokens : Z) : text :=
  if decide (contextWindow <= 0) then t
  else
    let budget := times (contextWindow - Z.max 0 outputMaxTokens - OVERHEAD_TOKENS) (num_of_decimal 6 (-1)) in
    if decide (budget <= 0) then []
    else
      let total := estimateTextTokensHeuristic [t] in
      if decide (total <= budget) then t
      else
        let charsPerToken := num_div (num_of_Z (Z.of_nat (length t))) (num_of_Z total) in
        match attempt 12 t budget (num_floor (num_mul (num_of_Z budget) charsPerToken)) with
        | Some t => t
        | None => let bare := assemble t [] [] in if fitsBudget budget bare then bare else []
        end.
