(* ===== verification/CompactionCut.v ===== *)
(** * What a compaction keeps

    The cut point never separates a tool result from its call and keeps to its
    budget; what is summarized, what begins the turn and what is kept make up
    the conversation since the last compaction; and a request for a summary
    fits its model.  The examples show what is lost. *)

From S2P Require Import Prelude JsNumber JsonClone CodeUnits SessionEntries SessionContext SessionTree SessionPaths SessionRuns SessionHistory Compaction.

Local Open Scope list_scope.
Local Open Scope Z_scope.

(** ** The cut point *)

Lemma elem_filter {A} (p : A -> bool) (l : list A) x : x ∈ List.filter p l <-> x ∈ l /\ p x = true.
Proof. by rewrite !list_elem_of_In, filter_In. Qed.

Lemma cut_points_spec es start end_ i : i ∈ findValidCutPoints es start end_ <-> (start <= i < end_)%nat /\ entry_is is_cut es i = true.
Proof. unfold findValidCutPoints. rewrite elem_filter, elem_of_seq. split; intros [H ?]; (split; [lia|done]). Qed.

Lemma filter_seq_last (p : nat -> bool) s n j : j ∈ List.filter p (seq s n) -> (j <= List.last (List.filter p (seq s n)) O)%nat.
Proof.
  induction n as [|n IH]; [intros H; by apply not_elem_of_nil in H|]. rewrite seq_S, List.filter_app, elem_of_app. cbn [List.filter].
  intros [H|H].
  - specialize (IH H). pose proof (proj1 (elem_filter _ _ _) H) as [Hj%elem_of_seq _]. destruct (p (s + n)%nat); [rewrite last_last; lia|by rewrite app_nil_r].
  - destruct (p (s + n)%nat); [|by apply not_elem_of_nil in H]. apply list_elem_of_singleton in H as ->. by rewrite last_last.
Qed.

(** The first cut point from [i] on, or the last of all. *)
Lemma cut_index_spec cs i :
  cs <> [] -> cut_index cs i ∈ cs /\
  match i with
  | None => True
  | Some i => (i <= cut_index cs (Some i))%nat \/ cut_index cs (Some i) = List.last cs O
  end.
Proof.
  intros Hne. destruct i as [i|]; cbn [cut_index].
  - destruct (find_first _ cs) as [c|] eqn:E; cbn [default from_option].
    + apply find_first_Some in E as [Hin Hc]. apply bool_decide_eq_true in Hc. split; [done|by left].
    + split.
      * destruct (exists_last Hne) as (l & x & ->). rewrite last_last. apply elem_of_app. right. by left.
      * by right.
  - destruct cs; [done|]. split; [by left|done].
Qed.

Lemma scan_back_spec es start cut :
  (start <= cut)%nat -> (start <= scan_back es start cut <= cut)%nat /\
  forall j, (scan_back es start cut <= j < cut)%nat -> entry_is (fun e => is_compaction e || is_message e) es j = false.
Proof.
  induction cut as [|c IH]; intros Hs; cbn [scan_back]; [split; [lia|lia]|]. destruct (decide (start < S c)%nat) as [Hlt|]; [|split; [lia|lia]].
  destruct (entry_is _ es c) eqn:E; [split; [lia|lia]|]. destruct (IH ltac:(lia)) as [H1 H2]. split; [lia|]. intros j Hj.
  destruct (decide (j = c)) as [->|]; [done|apply H2; lia].
Qed.

(** The cut point that is chosen, and the entries that are kept with it. *)
Lemma cut_point_spec es start end_ keep :
  (start <= end_)%nat -> findValidCutPoints es start end_ <> [] ->
  let first := firstKeptEntryIndex (findCutPoint es start end_ keep) in
  let c := cut_index (findValidCutPoints es start end_) (budget_index es start (end_ - start) 0 keep) in
  (start <= first <= c)%nat /\ (c < end_)%nat /\ entry_is is_cut es c = true /\
  (forall j, (first <= j < c)%nat -> entry_is (fun e => is_compaction e || is_message e) es j = false).
Proof.
  intros Hse Hne. pose proof (cut_index_spec _ (budget_index es start (end_ - start) 0 keep) Hne) as [Hin _]. unfold findCutPoint.
  destruct (findValidCutPoints es start end_) as [|c0 cs] eqn:E; [done|]. rewrite <- E in Hin |- *. cbn [firstKeptEntryIndex].
  apply cut_points_spec in Hin as [Hc Hcut]. destruct (scan_back_spec es start _ (proj1 Hc)) as [H1 H2]. split; [lia|]. split; [lia|]. by split.
Qed.

(** *** Results stay with their calls *)

Definition calls (e : SessionEntry) (x : string) : bool :=
  match kind e with
  | message (M_assistant bs _ _ _ _) => existsb (fun b => match b with B_toolCall y _ _ => bool_decide (y = x) | _ => false end) bs
  | _ => false
  end.

Definition result_of (e : SessionEntry) : option string := match kind e with message (M_toolResult x _ _ _) => Some x | _ => None end.

(** The results of a message follow it; only other results and entries that
    are no messages come between. *)
Definition answered (es : list SessionEntry) : Prop :=
  forall j e x, es !! j = Some e -> result_of e = Some x ->
  exists i a, (i < j)%nat /\ es !! i = Some a /\ calls a x = true /\
    forall k b, (i < k < j)%nat -> es !! k = Some b -> is_cut b = false.

(** C16.  Cutting never separates a tool result from its call: when the results
    of every call follow it, the same holds of what is kept. *)
Theorem cut_keeps_results es start keep :
  (start <= length es)%nat -> findValidCutPoints es start (length es) <> [] -> answered es ->
  answered (drop (firstKeptEntryIndex (findCutPoint es start (length es) keep)) es).
Proof.
  intros Hs Hne Ha j e x Hj Hx. destruct (cut_point_spec es start (length es) keep Hs Hne) as (Hf & Hc & Hcut & Hscan).
  set (first := firstKeptEntryIndex _) in *. set (c := cut_index _ _) in *. rewrite lookup_drop in Hj.
  destruct (Ha (first + j)%nat e x Hj Hx) as (i & a & Hi & Hia & Hcall & Hbetween).
  assert (Hcj : (c < first + j)%nat).
  { destruct (decide (first + j = c)%nat) as [E|].
    - exfalso. unfold entry_is in Hcut. rewrite <- E, Hj in Hcut. unfold is_cut, result_of in *. destruct (kind e) as [msg| | | | | | | | | | | | |]; try done. by destruct msg.
    - destruct (decide (first + j < c)%nat); [|lia]. exfalso. specialize (Hscan (first + j)%nat ltac:(lia)). unfold entry_is in Hscan. rewrite Hj in Hscan.
      unfold is_compaction, is_message, result_of in *. by destruct (kind e). }
  assert (Hci : (c <= i)%nat).
  { destruct (decide (c <= i)%nat); [done|]. exfalso. unfold entry_is in Hcut. destruct (es !! c) as [b|] eqn:Eb; [|done].
    by rewrite (Hbetween c b ltac:(lia) Eb) in Hcut. }
  exists (i - first)%nat, a. split; [lia|]. rewrite lookup_drop. split; [by replace (first + (i - first))%nat with i by lia|]. split; [done|].
  intros k b Hk Hb. rewrite lookup_drop in Hb. apply (Hbetween (first + k)%nat b); [lia|done].
Qed.

(** *** The budget *)

Lemma estimateText_nonneg ts : 0 <= estimateTextTokensHeuristic ts.
Proof.
  assert (H : forall t d u, 0 <= d -> 0 <= (foldl (fun '(w, u) c => (w + char_weight c, u + (if is_dense c || is_surrogate c then 1 else 0))) (d, u) t).1).
  { induction t as [|c t IH]; intros d u Hd; [done|]. cbn [foldl]. apply IH. unfold char_weight. destruct (is_dense c), (is_surrogate c); lia. }
  unfold estimateTextTokensHeuristic. assert (H2 : forall ts d o, 0 <= d ->
    0 <= (foldl (fun '(d, o) t => let '(w, n) := estimateFragmentTokensHeuristic t in (d + w, o + n)) (d, o) ts).1).
  { clear ts. induction ts as [|t ts IH]; intros d o Hd; [done|]. cbn [foldl]. unfold estimateFragmentTokensHeuristic, tokenDenseCharWeight.
    pose proof (H t 0 0 ltac:(lia)) as Ht. destruct (foldl _ (0, 0) t) as [w u]. apply IH. cbn in Ht. lia. }
  specialize (H2 ts 0 0 ltac:(lia)). destruct (foldl _ (0, 0) ts) as [d o]. cbn in H2.
  assert (- (2 * d + Z.max 0 o) / 4 <= 0) by (apply Z.div_le_upper_bound; lia). lia.
Qed.

Lemma estimateEntry_nonneg e : 0 <= estimateEntryTokens e.
Proof.
  unfold estimateEntryTokens. destruct (getMessageFromEntry e) as [m|]; [|done]. destruct (collectMessageFragments m) as [ts extra] eqn:E.
  pose proof (estimateText_nonneg ts). assert (0 <= extra); [|lia]. unfold collectMessageFragments, images, IMAGE_TOKEN_ESTIMATE in E.
  destruct m as [| | | | | | |? [] ? ? ? ?| | |]; injection E as E1 E2; subst extra; lia.
Qed.

Lemma sum_tokens_nonneg es : 0 <= sum_tokens es.
Proof. induction es as [|e es IH]; [done|]. change (sum_tokens (e :: es)) with (estimateEntryTokens e + sum_tokens es). pose proof (estimateEntry_nonneg e). lia. Qed.

Lemma sum_tokens_drop es i e : es !! i = Some e -> sum_tokens (drop i es) = estimateEntryTokens e + sum_tokens (drop (S i) es).
Proof. intros H. by rewrite (drop_S es e i H). Qed.

Lemma sum_tokens_mono es i j : (i <= j)%nat -> sum_tokens (drop j es) <= sum_tokens (drop i es).
Proof.
  intros Hij. replace j with (i + (j - i))%nat by lia. generalize (j - i)%nat as n. clear Hij j. revert i. induction es as [|e es IH]; intros i n; [by rewrite !drop_nil|].
  destruct i as [|i]; [|exact (IH i n)]. cbn [Nat.add]. destruct n as [|n]; [done|]. cbn [Nat.add]. change (drop (S n) (e :: es)) with (drop n es). specialize (IH O n). rewrite drop_0 in IH.
  change (sum_tokens (drop 0 (e :: es))) with (estimateEntryTokens e + sum_tokens es). change (drop (0 + n) es) with (drop n es) in IH. pose proof (estimateEntry_nonneg e). lia.
Qed.

(** The budget is reached at the last entry at which it can be. *)
Lemma budget_index_spec es start n acc keep :
  (start + n <= length es)%nat -> acc = sum_tokens (drop (start + n) es) -> acc < keep ->
  match budget_index es start n acc keep with
  | Some i => (start <= i < start + n)%nat /\ keep <= sum_tokens (drop i es) /\ sum_tokens (drop (S i) es) < keep
  | None => sum_tokens (drop start es) < keep
  end.
Proof.
  revert acc. induction n as [|n IH]; intros acc Hn Ha Hk; cbn [budget_index]; [by rewrite Nat.add_0_r in Ha; subst|].
  destruct (lookup_lt_is_Some_2 es (start + n)%nat ltac:(lia)) as [e He]. rewrite He. pose proof (sum_tokens_drop es _ e He) as Hd.
  replace (start + S n)%nat with (S (start + n)) in Ha by lia. destruct (decide _) as [Hge|Hlt].
  - split; [lia|]. split; lia.
  - specialize (IH (acc + estimateEntryTokens e) ltac:(lia) ltac:(lia) ltac:(lia)). destruct (budget_index _ _ _ _ _); [|done]. destruct IH. split; [lia|done].
Qed.

(** What is kept after the cut point stays below the budget, unless no cut
    point comes after: then the last cut point is the one that is taken. *)
Theorem cut_within_budget es start keep :
  (start <= length es)%nat -> 0 < keep -> findValidCutPoints es start (length es) <> [] ->
  exists c, entry_is is_cut es c = true /\ (start <= firstKeptEntryIndex (findCutPoint es start (length es) keep) <= c)%nat /\
    (forall j, (firstKeptEntryIndex (findCutPoint es start (length es) keep) <= j < c)%nat -> entry_is is_message es j = false) /\
    (sum_tokens (drop (S c) es) < keep \/ forall j, (c < j)%nat -> entry_is is_cut es j = false).
Proof.
  intros Hs Hk Hne. destruct (cut_point_spec es start (length es) keep Hs Hne) as (Hf & Hc & Hcut & Hscan).
  set (i := budget_index es start (length es - start) 0 keep) in *. set (c := cut_index _ i) in *. exists c. split; [done|]. split; [done|]. split.
  { intros j Hj. specialize (Hscan j Hj). unfold entry_is in *. destruct (es !! j); [|done]. by apply orb_false_iff in Hscan as [_ ?]. }
  pose proof (budget_index_spec es start (length es - start) 0 keep ltac:(lia)) as Hb. replace (start + (length es - start))%nat with (length es) in Hb by lia.
  rewrite drop_all in Hb. specialize (Hb eq_refl Hk). fold i in Hb. destruct (cut_index_spec _ i Hne) as [_ Hi]. fold c in Hi. destruct i as [i|].
  - destruct Hb as (Hi1 & _ & Hi2). destruct Hi as [Hi|Hi].
    + left. pose proof (sum_tokens_mono es (S i) (S c)). change (cut_index (findValidCutPoints es start (length es)) (Some i)) with c in Hi. lia.
    + right. intros j Hj. destruct (entry_is is_cut es j) eqn:E; [|done]. exfalso. assert (Hjc : j ∈ findValidCutPoints es start (length es)).
      { apply cut_points_spec. split; [|done]. unfold entry_is in E. destruct (es !! j) eqn:El; [|done]. apply lookup_lt_Some in El. lia. }
      apply filter_seq_last in Hjc. unfold c in Hj. rewrite Hi in Hj. unfold findValidCutPoints in Hj. lia.
  - left. pose proof (sum_tokens_mono es start (S c)). lia.
Qed.

(** ** What is kept, and what is summarized *)

(** Every entry but the summary of an empty branch stands for the messages it
    sends. *)
Definition says_what_it_sends (e : SessionEntry) : bool := match kind e with branch_summary _ [] _ _ => false | _ => true end.

Lemma messages_sent es : Forall (fun e => says_what_it_sends e = true) es -> concat (entry_messages <$> es) = entry_message_list es.
Proof.
  induction 1 as [|e es He _ IH]; [done|]. unfold entry_message_list in *. cbn [fmap list_fmap concat omap list_omap]. rewrite IH.
  unfold entry_messages, getMessageFromEntry, says_what_it_sends in *. destruct (kind e) as [| | | | |? [] ? ?| | | | | | | |]; done.
Qed.

Lemma find_turn_spec es i start : match findTurnStartIndex es i start with Some t => (start <= t <= i)%nat | None => True end.
Proof.
  induction i as [|i IH]; cbn [findTurnStartIndex]; (destruct (decide _); [done|]); (destruct (entry_is starts_turn es _); [lia|]); [done|].
  destruct (findTurnStartIndex es i start); [lia|done].
Qed.

(** The turn that is split begins between the start and the cut. *)
Lemma split_spec es start end_ keep :
  (start <= end_)%nat ->
  (start <= firstKeptEntryIndex (findCutPoint es start end_ keep))%nat /\
  (isSplitTurn (findCutPoint es start end_ keep) = true ->
   exists t, turnStartIndex (findCutPoint es start end_ keep) = Some t /\ (start <= t <= firstKeptEntryIndex (findCutPoint es start end_ keep))%nat).
Proof.
  intros Hse. unfold findCutPoint. pose proof (cut_index_spec (findValidCutPoints es start end_) (budget_index es start (end_ - start) 0 keep)) as H.
  destruct (findValidCutPoints es start end_) as [|c0 cs] eqn:E; [by split|]. destruct (H ltac:(done)) as [Hin _]. clear H. rewrite <- E in Hin |- *.
  apply cut_points_spec in Hin as [Hc _]. set (c := cut_index _ _) in *. destruct (scan_back_spec es start c ltac:(lia)) as [Hs _].
  cbn [firstKeptEntryIndex isSplitTurn turnStartIndex]. split; [lia|]. destruct (entry_is is_user_message es _); [done|].
  pose proof (find_turn_spec es (scan_back es start c) start) as Ht. destruct (findTurnStartIndex _ _ _) as [t|]; [|by intros [? ?]%bool_decide_eq_true].
  intros _. by exists t.
Qed.

(** A path is cut in three. *)
Lemma cut_in_three {A} (l : list A) b h f : (b <= h <= f)%nat -> drop b l = take (h - b) (drop b l) ++ take (f - h) (drop h l) ++ drop f l.
Proof.
  intros H. rewrite <- (take_drop (h - b) (drop b l)) at 1. f_equal. rewrite drop_drop. replace (b + (h - b))%nat with h by lia.
  rewrite <- (take_drop (f - h) (drop h l)) at 1. f_equal. rewrite drop_drop. by replace (h + (f - h))%nat with f by lia.
Qed.

Definition boundary (q : list SessionEntry) : nat := match last_compaction_index q with Some i => S i | None => O end.

Lemma boundary_spec q : (boundary q <= length q)%nat /\ Forall (fun e => is_compaction e = false) (drop (boundary q) q).
Proof.
  assert (H : forall j, j ∈ List.filter (entry_is is_compaction q) (seq 0 (length q)) -> (j < boundary q)%nat /\ (boundary q <= length q)%nat).
  { intros j Hj. pose proof (filter_seq_last _ _ _ _ Hj) as Hle. unfold boundary, last_compaction_index.
    destruct (exists_last (l := List.filter (entry_is is_compaction q) (seq 0 (length q)))) as (l & x & E); [intros E; rewrite E in Hj; by apply not_elem_of_nil in Hj|].
    rewrite E in Hle |- *. rewrite last_last in Hle. rewrite fmap_app. cbn [fmap list_fmap]. rewrite last_last. split; [lia|].
    assert (Hx : x ∈ List.filter (entry_is is_compaction q) (seq 0 (length q))) by (rewrite E; set_solver). apply elem_filter in Hx as [Hx%elem_of_seq _]. lia. }
  split.
  - destruct (List.filter (entry_is is_compaction q) (seq 0 (length q))) as [|j l] eqn:E; [|destruct (H j); [by left|done]].
    unfold boundary, last_compaction_index. rewrite E. cbn. lia.
  - apply Forall_lookup. intros i e He. rewrite lookup_drop in He. destruct (is_compaction e) eqn:Ec; [|done]. exfalso.
    destruct (H (boundary q + i)%nat); [|lia]. apply elem_filter. split; [apply elem_of_seq; apply lookup_lt_Some in He; lia|].
    unfold entry_is. by rewrite He.
Qed.

(** What is prepared, from the entries since the last compaction. *)
Lemma prepared_parts q s o p :
  prepareCompaction q s o = Some p ->
  exists first e, q !! first = Some e /\ p_firstKeptEntryId p = entryId e /\
    entry_message_list (drop (boundary q) q) = messagesToSummarize p ++ turnPrefixMessages p ++ recentMessages p /\
    recentMessages p = entry_message_list (drop first q).
Proof.
  unfold prepareCompaction. destruct (match last q with Some e => is_compaction e | None => false end); [done|].
  change (match last_compaction_index q with Some i => S i | None => O end) with (boundary q). cbv zeta.
  set (keep := keep_window _ _ _). pose proof (split_spec q (boundary q) (length q) keep (proj1 (boundary_spec q))) as [Hf Hsp].
  destruct (findCutPoint _ _ _ _) as [first turn split_]. cbn [firstKeptEntryIndex isSplitTurn turnStartIndex] in *.
  destruct (q !! first) as [e|] eqn:He; [|done]. destruct (decide _); [done|]. intros H. exists first, e. split; [done|].
  set (h := if split_ then default first turn else first) in *. assert (Hh : (boundary q <= h <= first)%nat).
  { unfold h. destruct split_; [|lia]. destruct (Hsp eq_refl) as (t & -> & ?). cbn. lia. }
  set (a := entry_message_list (take (h - boundary q) (drop (boundary q) q))) in *.
  set (b := if split_ then entry_message_list (take (first - h) (drop h q)) else []) in *.
  assert (Hp : entry_message_list (drop (boundary q) q) = a ++ b ++ entry_message_list (drop first q)).
  { rewrite (cut_in_three q (boundary q) h first Hh). unfold entry_message_list, a, b, entry_message_list. rewrite !omap_app. do 2 f_equal.
    unfold h. destruct split_; [done|]. by rewrite Nat.sub_diag, take_0. }
  rewrite Hp. destruct a as [|a0 a]; [destruct b as [|b0 b]; [done|]|]; injection H as <-; done.
Qed.

Lemma path_messages_more q r :
  Forall (fun e => is_compaction e = false) r -> path_context_messages (q ++ r) = path_context_messages q ++ concat (entry_messages <$> r).
Proof.
  induction r as [|e r IH] using rev_ind; intros H; [by rewrite !app_nil_r|]. apply Forall_app in H as [H He]. apply Forall_cons in He as [He _].
  rewrite app_assoc, path_messages_snoc, IH, fmap_app, concat_app by done. cbn [fmap list_fmap concat]. by rewrite app_nil_r, app_assoc.
Qed.

Lemma kept_all x q : kept_messages x true q = concat (entry_messages <$> q).
Proof. induction q as [|e q IH]; [done|]. cbn. by rewrite IH. Qed.

(** From the first entry that is kept, everything is. *)
Lemma kept_from q i e : NoDup (ids q) -> q !! i = Some e -> kept_messages (entryId e) false q = concat (entry_messages <$> drop i q).
Proof.
  revert i. induction q as [|e' q IH]; intros i Hn Hi; [done|]. apply NoDup_cons in Hn as [Hn Hd]. destruct i as [|i]; cbn in Hi |- *.
  - injection Hi as ->. by rewrite bool_decide_eq_true_2, kept_all.
  - rewrite bool_decide_eq_false_2, (IH i) by (done || intros E; apply Hn; rewrite E; apply list_elem_of_fmap_2; by eapply list_elem_of_lookup_2). done.
Qed.

(** A local compaction leaves no history of the provider behind. *)
Lemma no_remote_payload data : field (withOpenAiRemoteCompactionPreserveData data None) OPENAI_REMOTE_COMPACTION_PRESERVE_KEY = None.
Proof.
  unfold withOpenAiRemoteCompactionPreserveData. destruct data as [[| | | | | | |fs h]|]; try done. destruct (map_get fs _) eqn:E; [|done].
  destruct (map_delete fs _) as [|x l] eqn:Ed; [done|]. rewrite <- Ed. cbn. apply map_get_delete_eq.
Qed.

(** C5.  Preparing, compacting and appending the result loses nothing of what
    was said since the last compaction: the context was what came of that
    compaction, then exactly the messages to summarize, those that begin the
    turn and those that are kept; afterwards it is the summary, and those that
    are kept. *)
Theorem compaction_conserves m f s o p generate prefix render extension :
  session_ok m -> fresh_ok m f -> Forall (fun e => says_what_it_sends e = true) (leaf_path m) ->
  prepareCompaction (leaf_path m) s o = Some p ->
  messages (build_context m) =
    path_context_messages (take (boundary (leaf_path m)) (leaf_path m)) ++ messagesToSummarize p ++ turnPrefixMessages p ++ recentMessages p /\
  messages (build_context (append_below m f (compaction (entry_of_result (compact generate prefix render p None) extension))).2) =
    createCompactionSummaryMessage (r_summary (compact generate prefix render p None)) (p_tokensBefore p) (now f)
      (Some (r_shortSummary (compact generate prefix render p None))) None :: recentMessages p.
Proof.
  intros Hm Hf Hq Hp. destruct (prepared_parts _ _ _ _ Hp) as (first & e & He & Hid & Hparts & Hr). split.
  - rewrite (leaf_messages m Hm), <- Hparts. rewrite <- (messages_sent (drop _ _)) by (by apply Forall_drop).
    rewrite <- path_messages_more, take_drop by apply boundary_spec. done.
  - set (k := entry_of_result _ _). pose proof (append_below_ok m f (compaction k) Hm Hf eq_refl) as Ha.
    destruct (appended_path m _ _ Hm Ha eq_refl) as [-> Hn]. rewrite messages_of_path, (path_messages_compaction _ (below m f (compaction k)) k eq_refl Hn).
    assert (Hk : remote_payload k = None).
    { unfold remote_payload, k. change "openaiRemoteCompaction"%string with OPENAI_REMOTE_COMPACTION_PRESERVE_KEY. cbn [entry_of_result preserveData].
      unfold compact. destruct (computeFileLists (fileOps p)) as [rf mf]. cbn [r_preserveData]. by rewrite no_remote_payload. }
    unfold compacted. rewrite Hk, Hr. rewrite <- messages_sent by (by apply Forall_drop). unfold k, compact. destruct (computeFileLists (fileOps p)) as [rf mf].
    cbn [entry_of_result c_summary tokensBefore c_shortSummary firstKeptEntryId r_summary r_tokensBefore r_shortSummary r_firstKeptEntryId]. f_equal.
    rewrite Hid. apply kept_from; [by apply leaf_path_NoDup|done].
Qed.

(** ** The request *)

Lemma attempt_fits n t budget chars r : attempt n t budget chars = Some r -> estimateTextTokensHeuristic [r] <= budget.
Proof.
  revert chars. induction n as [|n IH]; intros chars; cbn [attempt]; [done|]. destruct (decide _); [done|]. cbv zeta. unfold fitsBudget at 1.
  destruct (bool_decide _) eqn:E; [|apply IH]. intros [= <-]. by apply bool_decide_eq_true in E.
Qed.

(** C24.  A conversation to be summarized is cut down until its request fits:
    whatever its length, by the estimates it takes at most three fifths of
    what the window leaves for it. *)
Theorem request_fits t contextWindow outputMaxTokens :
  0 < contextWindow ->
  estimateTextTokensHeuristic [boundConversationTextForSummary t contextWindow outputMaxTokens] <=
  Z.max 0 (times (contextWindow - Z.max 0 outputMaxTokens - OVERHEAD_TOKENS) (num_of_decimal 6 (-1))).
Proof.
  intros Hw. unfold boundConversationTextForSummary. rewrite decide_False by lia. cbv zeta. set (budget := times _ _).
  destruct (decide (budget <= 0)); [change (estimateTextTokensHeuristic [[]]) with 0; lia|]. destruct (decide _); [lia|].
  destruct (attempt _ _ _ _) as [r|] eqn:E; [apply attempt_fits in E; lia|]. unfold fitsBudget. destruct (bool_decide _) eqn:Eb.
  - apply bool_decide_eq_true in Eb. lia.
  - change (estimateTextTokensHeuristic [[]]) with 0. lia.
Qed.

(** ** A compaction *)

(** Nearly nothing is kept. *)
Definition tiny : CompactionSettings :=
  {| enabled := true; strategy := None; thresholdPercent := None; thresholdTokens := None; reserveTokens := 0; keepRecentTokens := 1 |}.
Definition no_options : PrepareCompactionOptions := {| tokenCorrectionRatio := None; o_contextWindow := None |}.

Definition called : list SessionEntry :=
  [{| entryId := "u1"; parentId := None; timestamp := 1; kind := message (says "read it") |};
   {| entryId := "a1"; parentId := Some "u1"%string; timestamp := 2;
      kind := message (M_assistant [B_toolCall "c1" "read" (V_obj [("path"%string, V_str "x")] None)] "openai" "gpt" some_usage "toolUse") |};
   {| entryId := "r1"; parentId := Some "a1"%string; timestamp := 3; kind := message (M_toolResult "c1" "read" [B_text (units "its text")] None) |}].

Lemma called_answered : answered called.
Proof.
  intros j e x Hj Hx. destruct j as [|[|[|j]]]; cbn in Hj; [| | |by destruct j]; injection Hj as <-; try done. injection Hx as <-.
  exists 1%nat. eexists. split; [lia|]. split; [reflexivity|]. split; [done|]. intros k b Hk. lia.
Qed.

Lemma cut_keeps_results_witness : answered (drop (firstKeptEntryIndex (findCutPoint called 0 3 1)) called).
Proof. refine (cut_keeps_results called 0 1 _ _ called_answered); [by apply Nat.leb_le|done]. Defined.

Lemma cut_within_budget_witness :
  exists c, entry_is is_cut called c = true /\ (0 <= firstKeptEntryIndex (findCutPoint called 0 3 5) <= c)%nat /\
    (forall j, (firstKeptEntryIndex (findCutPoint called 0 3 5) <= j < c)%nat -> entry_is is_message called j = false) /\
    (sum_tokens (drop (S c) called) < 5 \/ forall j, (c < j)%nat -> entry_is is_cut called j = false).
Proof. refine (cut_within_budget called 0 5 _ _ _); [by apply Nat.leb_le|done|done]. Defined.

Lemma compaction_conserves_witness :
  exists p, prepareCompaction (leaf_path two_questions) tiny no_options = Some p /\
  messages (build_context two_questions) =
    path_context_messages (take (boundary (leaf_path two_questions)) (leaf_path two_questions)) ++
    messagesToSummarize p ++ turnPrefixMessages p ++ recentMessages p /\
  messages (build_context (append_below two_questions (drawn "c1" 5)
      (compaction (entry_of_result (compact (fun _ _ => units "S") (fun _ => units "T") (fun _ _ => []) p None) false))).2) =
    createCompactionSummaryMessage (r_summary (compact (fun _ _ => units "S") (fun _ => units "T") (fun _ _ => []) p None)) (p_tokensBefore p) 5
      (Some (r_shortSummary (compact (fun _ _ => units "S") (fun _ => units "T") (fun _ _ => []) p None))) None :: recentMessages p.
Proof.
  eexists. split; [vm_compute; reflexivity|].
  refine (compaction_conserves two_questions (drawn "c1" 5) tiny no_options _ _ _ _ false two_questions_ok _ _ _).
  - apply fresh_bool; [vm_compute; reflexivity|done|done].
  - by apply (bool_decide_unpack (Forall (fun e => says_what_it_sends e = true) (leaf_path two_questions))).
  - vm_compute. reflexivity.
Defined.

Lemma request_fits_witness :
  estimateTextTokensHeuristic [boundConversationTextForSummary (units "hello") 8000 100] <=
  Z.max 0 (times (8000 - Z.max 0 100 - OVERHEAD_TOKENS) (num_of_decimal 6 (-1))).
Proof. refine (request_fits (units "hello") 8000 100 _). lia. Defined.

(** ** What is lost *)

(** The cut is at the second question, but the label before it is kept with
    it: the turn before counts as split, and its two messages as the beginning
    of a turn. *)
Example label_makes_split_turn :
  let cut := findCutPoint (leaf_path two_questions) 0 4 1 in
  entry_is is_user_message (leaf_path two_questions) 3 = true /\
  (firstKeptEntryIndex cut, turnStartIndex cut, isSplitTurn cut) = (2%nat, Some O, true).
Proof. by vm_compute. Qed.

(** The first compaction keeps the second question; two more messages follow. *)
Definition compacted_once : SessionManager :=
  (append_below two_questions (drawn "c1" 5)
    (compaction {| c_summary := units "first summary"; c_shortSummary := None; firstKeptEntryId := "u2"; tokensBefore := 15; c_details := None;
                   preserveData := None; fromExtension := None |})).2.
Definition after_compaction : SessionManager :=
  apply_op (apply_op compacted_once (O_append (drawn "a2" 6) (message (answers "2")))) (O_append (drawn "u3" 7) (message (says "three"))).

(** What the first compaction kept is neither summarized nor kept by the
    second: it begins after the first, not with what that one kept. *)
Example second_compaction_forgets :
  match prepareCompaction (leaf_path after_compaction) tiny no_options with
  | Some p =>
      messages (build_context after_compaction) =
        createCompactionSummaryMessage (units "first summary") 15 5 None None :: says "two" :: [answers "2"; says "three"] /\
      messagesToSummarize p ++ turnPrefixMessages p ++ recentMessages p = [answers "2"; says "three"]
  | None => False
  end.
Proof. by vm_compute. Qed.

(** The summary of the first compaction is dropped too, when the second one
    splits the turn it begins in. *)
Definition split_later : SessionManager :=
  apply_op (apply_op compacted_once (O_append (drawn "u3" 6) (message (says "three")))) (O_append (drawn "a3" 7) (message (answers "3"))).

Example split_turn_forgets_summary :
  match prepareCompaction (leaf_path split_later) tiny no_options with
  | Some p =>
      previousSummary p = Some (units "first summary") /\ messagesToSummarize p = [] /\ p_isSplitTurn p = true /\
      summarize (fun _ s => default [] s) (fun _ => units "turn") p = no_history ++ split_header ++ units "turn"
  | None => False
  end.
Proof. by vm_compute. Qed.

(** Some messages are sent but count nothing: those of developers, of Python
    and of mentioned files, and the images of a user. *)
Example uncounted :
  estimateMessageTokensHeuristic (M_developer (C_text (units "a long instruction"))) = 0 /\
  estimateMessageTokensHeuristic (M_user (C_blocks [B_image])) = 0 /\
  estimateMessageTokensHeuristic (M_toolResult "c1" "read" [B_image] None) = 1200.
Proof. by vm_compute. Qed.
