(* ===== verification/BranchSummary.v ===== *)
(** * Leaving a branch ([agent/src/compaction/branch-summarization.ts], the
      serialization of [utils.ts], the navigation of
      [session/agent-session.ts])

    Going to another entry of the tree, the entries that are left are those
    from the old leaf up to where its branch meets the other; a summary of
    them may be put below the entry that is gone to.

    The model's answer, the templates and the answer of extensions are
    arguments; the session does nothing else while it waits for them. *)

From S2P Require Import Prelude JsNumber JsonClone CodeUnits SessionEntries SessionContext SessionTree SessionPaths SessionRuns SessionHistory Compaction CompactionCut.

Local Open Scope list_scope.
Local Open Scope Z_scope.

(** ** The text of a conversation *)

(** [join(sep)] *)
Fixpoint join (sep : text) (ls : list text) : text :=
  match ls with
  | [] => []
  | [l] => l
  | l :: ls => l ++ sep ++ join sep ls
  end.

Definition TOOL_RESULT_MAX_CHARS : nat := 2000.

Definition truncateForSummary (t : text) (maxChars : nat) : text :=
  if decide (length t <= maxChars)%nat then t
  else take maxChars t ++ [LF; LF] ++ units "[... " ++ decimal (Z.of_nat (length t - maxChars)) ++ units " more characters truncated]".

(** What a model is sent. *)
Inductive Message :=
| L_user (c : content)
| L_developer (c : content)
| L_assistant (bs : list block)
| L_toolResult (bs : list block).

Definition texts_of (bs : list block) : list text := omap (fun b => match b with B_text t => Some t | _ => None end) bs.

(** The text of the message goes to the editor, or into a summary. *)
Definition extractUserMessageText (c : content) : text := match c with C_text t => t | C_blocks bs => concat (texts_of bs) end.

Definition argument_text (p : string * value) : text :=
  units p.1 ++ units "=" ++ units (default "undefined"%string (json_stringify p.2)).

(** The arguments of a call are an object. *)
Definition call_text (name : string) (args : value) : text :=
  units name ++ units "(" ++ join (units ", ") (argument_text <$> (match args with V_obj fields _ => fields | _ => [] end)) ++ units ")".

Definition labelled_part (name : string) (sep : text) (ts : list text) : list text :=
  match ts with [] => [] | _ => [units name ++ join sep ts] end.

Definition serialize_message (m : Message) : list text :=
  match m with
  | L_user c => match extractUserMessageText c with [] => [] | t => [units "[User]: " ++ t] end
  | L_assistant bs =>
      labelled_part "[Assistant thinking]: " [LF] (omap (fun b => match b with B_thinking t => Some t | _ => None end) bs) ++
      labelled_part "[Assistant]: " [LF] (texts_of bs) ++
      labelled_part "[Assistant tool calls]: " (units "; ") (omap (fun b => match b with B_toolCall _ name args => Some (call_text name args) | _ => None end) bs)
  | L_toolResult bs =>
      match concat (texts_of bs) with [] => [] | t => [units "[Tool result]: " ++ truncateForSummary t TOOL_RESULT_MAX_CHARS] end
  | L_developer _ => []
  end.

Definition serializeConversation (ms : list Message) : text := join [LF; LF] (concat (serialize_message <$> ms)).

(** [render_*] fill the templates of the two summaries. *)
Definition convert_message (renderBranchSummaryContext renderCompactionSummaryContext : text -> text) (m : AgentMessage) : option Message :=
  match m with
  | M_custom _ c _ _ _ _ | M_hookMessage _ c _ _ _ _ => Some (L_user (match c with C_text t => C_blocks [B_text t] | _ => c end))
  | M_branchSummary s _ _ => Some (L_user (C_blocks [B_text (renderBranchSummaryContext s)]))
  | M_compactionSummary s _ _ _ _ => Some (L_user (C_blocks [B_text (renderCompactionSummaryContext s)]))
  | M_user c => Some (L_user c)
  | M_developer c => Some (L_developer c)
  | M_assistant bs _ _ _ _ => Some (L_assistant bs)
  | M_toolResult _ _ bs _ => Some (L_toolResult bs)
  | M_bashExecution _ _ | M_pythonExecution _ _ | M_fileMention _ => None
  end.

Definition defaultConvertToLlm (renderBranch renderCompaction : text -> text) (ms : list AgentMessage) : list Message :=
  omap (convert_message renderBranch renderCompaction) ms.

(** ** What is left *)

Record CollectEntriesResult := { collected : list SessionEntry; commonAncestorId : option string }.

(** From an entry up to the common ancestor. *)
Fixpoint collect_up (fuel : nat) (find : string -> option SessionEntry) (common : option string) (current : option string) : list SessionEntry :=
  match fuel, current with
  | S fuel, Some x =>
      if bool_decide (x = ""%string) || bool_decide (common = Some x) then []
      else match find x with
           | None => []
           | Some e => e :: collect_up fuel find common (parentId e)
           end
  | _, _ => []
  end.

(** The deepest entry of the target's branch that is on the other, too. *)
Definition common_ancestor (oldPath : list string) (targetPath : list SessionEntry) : option string :=
  find_first (includes oldPath) (rev (entryId <$> targetPath)).

Definition collectEntriesForBranchSummary (m : SessionManager) (oldLeafId : option string) (targetId : string) : CollectEntriesResult :=
  match oldLeafId with
  | None | Some ""%string => {| collected := []; commonAncestorId := None |}
  | Some _ =>
      let oldPath := entryId <$> getBranch m oldLeafId in
      let common := common_ancestor oldPath (getBranch m (Some targetId)) in
      {| collected := rev (collect_up (branch_fuel m) (find_entry m) common oldLeafId); commonAncestorId := common |}
  end.

(** A tool result is left out, its call is enough; a compaction counts. *)
Definition branch_message (e : SessionEntry) : option AgentMessage :=
  match kind e with
  | message m => if is_toolResult m then None else Some m
  | custom_message t c d details a => Some (createCustomMessage t c d details (timestamp e) a)
  | branch_summary fromId summary _ _ => Some (createBranchSummaryMessage summary fromId (timestamp e))
  | compaction c => Some (createCompactionSummaryMessage (c_summary c) (tokensBefore c) (timestamp e) (c_shortSummary c) None)
  | _ => None
  end.

Record BranchPreparation := { b_messages : list AgentMessage; b_fileOps : FileOperations; b_totalTokens : Z }.

Definition summary_files (ops : FileOperations) (e : SessionEntry) : FileOperations :=
  match kind e with
  | branch_summary _ _ details fromExtension =>
      if bool_decide (fromExtension = Some true) then ops
      else {| read := foldl set_add (read ops) (string_items details "readFiles"); written := written ops;
              edited := foldl set_add (edited ops) (string_items details "modifiedFiles") |}
  | _ => ops
  end.

Definition is_summary (e : SessionEntry) : bool := match kind e with compaction _ | branch_summary _ _ _ _ => true | _ => false end.

Definition with_branch_message (p : BranchPreparation) (ops : FileOperations) (m : AgentMessage) : BranchPreparation :=
  {| b_messages := m :: b_messages p; b_fileOps := ops; b_totalTokens := b_totalTokens p + estimateMessageTokensHeuristic m |}.

(** [es] has the newest first. *)
Fixpoint add_messages (tokenBudget : Z) (es : list SessionEntry) (p : BranchPreparation) : BranchPreparation :=
  match es with
  | [] => p
  | e :: es =>
      match branch_message e with
      | None => add_messages tokenBudget es p
      | Some m =>
          let ops := extractFileOpsFromMessage (b_fileOps p) m in
          if bool_decide (0 < tokenBudget) && bool_decide (tokenBudget < b_totalTokens p + estimateMessageTokensHeuristic m) then
            if is_summary e && num_ltb (num_of_Z (b_totalTokens p)) (num_mul (num_of_Z tokenBudget) (num_of_decimal 9 (-1)))
            then with_branch_message p ops m
            else {| b_messages := b_messages p; b_fileOps := ops; b_totalTokens := b_totalTokens p |}
          else add_messages tokenBudget es (with_branch_message p ops m)
      end
  end.

Definition prepareBranchEntries (es : list SessionEntry) (tokenBudget : Z) : BranchPreparation :=
  add_messages tokenBudget (rev es) {| b_messages := []; b_fileOps := foldl summary_files createFileOps es; b_totalTokens := 0 |}.

(** ** The summary *)

Inductive completion := R_aborted | R_error (message : text) | R_texts (ts : list text).

Record BranchSummaryResult := {
  br_summary : option text; br_files : option (list string * list string); br_aborted : bool; br_error : option text
}.

Definition only_summary (s : text) : BranchSummaryResult := {| br_summary := Some s; br_files := None; br_aborted := false; br_error := None |}.

Definition or_text (a b : text) : text := match a with [] => b | _ => a end.

Section generate.
Context (convertToLlm : list AgentMessage -> list Message) (BRANCH_SUMMARY_PROMPT BRANCH_SUMMARY_PREAMBLE : text).
Context (complete : text -> completion) (render_files : list text -> list text -> text).

Definition branch_prompt (ms : list AgentMessage) (customInstructions : option text) : text :=
  units "<conversation>" ++ [LF] ++ serializeConversation (convertToLlm ms) ++ [LF] ++ units "</conversation>" ++ [LF; LF] ++
  or_text (default [] customInstructions) BRANCH_SUMMARY_PROMPT.

Definition generateBranchSummary (es : list SessionEntry) (contextWindow reserveTokens : Z) (customInstructions : option text) : BranchSummaryResult :=
  let window := if decide (contextWindow = 0) then 128000 else contextWindow in
  let p := prepareBranchEntries es (window - reserveTokens) in
  match b_messages p with
  | [] => only_summary (units "No content to summarize")
  | ms =>
      match complete (branch_prompt ms customInstructions) with
      | R_aborted => {| br_summary := None; br_files := None; br_aborted := true; br_error := None |}
      | R_error msg => {| br_summary := None; br_files := None; br_aborted := false; br_error := Some (or_text msg (units "Summarization failed")) |}
      | R_texts ts =>
          let '(readFiles, modifiedFiles) := computeFileLists (b_fileOps p) in
          let summary := upsertFileOperations render_files (BRANCH_SUMMARY_PREAMBLE ++ join [LF] ts) readFiles modifiedFiles in
          {| br_summary := Some (or_text summary (units "No summary generated")); br_files := Some (readFiles, modifiedFiles);
             br_aborted := false; br_error := None |}
      end
  end.

(** ** Going to another entry *)

(** Such messages belong to one request. *)
Definition isEphemeralCustomMessageType (t : string) : bool :=
  bool_decide (t = "volatile-project-context"%string) || bool_decide (t = "untrusted-mcp-server-instructions"%string).

Definition withoutEphemeralCustomMessageEntries (es : list SessionEntry) : list SessionEntry :=
  List.filter (fun e => match kind e with custom_message t _ _ _ _ => negb (isEphemeralCustomMessageType t) | _ => true end) es.

(** The selected model, whether it has a key, and the options of a call. *)
Record navigation := {
  n_model : option Z; n_provider : string; n_apiKey : bool; n_summarize : bool; n_customInstructions : option text; n_reserveTokens : Z
}.

(** What the extensions answer. *)
Record tree_hook := { h_cancel : bool; h_summary : option (text * option value) }.

Record NavigateResult := { editorText : option text; cancelled : bool; n_aborted : bool; summaryEntry : option SessionEntry }.

Definition not_moved (aborted : bool) : NavigateResult :=
  {| editorText := None; cancelled := true; n_aborted := aborted; summaryEntry := None |}.

(** A message of the user goes back to the editor, and its place is free. *)
Definition destination (e : SessionEntry) : option string * option text :=
  match kind e with
  | message (M_user c) | custom_message _ c _ _ _ => (parentId e, Some (extractUserMessageText c))
  | _ => (Some (entryId e), None)
  end.

Definition file_details (files : option (list string * list string)) : value :=
  let strings l := V_arr ((fun s => Some (V_str s)) <$> l) in
  let '(readFiles, modifiedFiles) := default ([], []) files in
  V_obj [("readFiles"%string, strings readFiles); ("modifiedFiles"%string, strings modifiedFiles)] None.

(** The summary and its details, whether it is an extension's, or the end of
    the call. *)
Definition summary_of (n : navigation) (hook : option tree_hook) (es : list SessionEntry)
    : outcome text (option NavigateResult * option text * option value * bool) :=
  match hook with
  | Some {| h_cancel := true |} => Ok (Some (not_moved false), None, None, false)
  | _ =>
      let hookSummary := if n_summarize n then h ← hook; h_summary h else None in
      match hookSummary with
      | Some (s, details) => Ok (None, Some s, details, true)
      | None =>
          if n_summarize n && negb (bool_decide (es = [])) then
            if negb (n_apiKey n) then Throw (units ("No API key for " ++ n_provider n))
            else
              let r := generateBranchSummary es (default 0 (n_model n)) (n_reserveTokens n) (n_customInstructions n) in
              if br_aborted r then Ok (Some (not_moved true), None, None, false)
              else match br_error r with
                   | Some ((_ :: _) as err) => Throw err
                   | _ => Ok (None, br_summary r, Some (file_details (br_files r)), false)
                   end
          else Ok (None, None, None, false)
      end
  end.

Definition move (m : SessionManager) (f : fresh) (leaf : option string) (s : option text) (details : option value) (fromExtension : bool)
    : outcome text (option SessionEntry * SessionManager) :=
  match s with
  | Some ((_ :: _) as s) =>
      match branchWithSummary m f leaf s details (Some fromExtension) with
      | Ok (x, m) => Ok (find_entry m x, m)
      | Throw err => Throw (units err)
      end
  | _ =>
      match leaf with
      | None => Ok (None, resetLeaf m)
      | Some x => match branch m x with Ok m => Ok (None, m) | Throw err => Throw (units err) end
      end
  end.

Definition navigateTree (m : SessionManager) (f : fresh) (targetId : string) (n : navigation) (hook : option tree_hook)
    : outcome text (NavigateResult * SessionManager) :=
  let oldLeafId := leafId (trees m) in
  if decide (oldLeafId = Some targetId) then Ok ({| editorText := None; cancelled := false; n_aborted := false; summaryEntry := None |}, m)
  else if n_summarize n && negb (bool_decide (is_Some (n_model n))) then Throw (units "No model available for summarization")
  else
    match find_entry m targetId with
    | None => Throw (units (not_found targetId))
    | Some target =>
        let es := withoutEphemeralCustomMessageEntries (collected (collectEntriesForBranchSummary m oldLeafId targetId)) in
        match summary_of n hook es with
        | Throw err => Throw err
        | Ok (Some r, _, _, _) => Ok (r, m)
        | Ok (None, s, details, fromExtension) =>
            let '(leaf, editor) := destination target in
            match move m f leaf s details fromExtension with
            | Throw err => Throw err
            | Ok (entry, m) => Ok ({| editorText := editor; cancelled := false; n_aborted := false; summaryEntry := entry |}, m)
            end
        end
    end.
End generate.

(** ** Theorems *)

(** *** Where two branches meet *)

Lemma rev_find_last (p : string -> bool) (xs : list string) :
  match find_first p (rev xs) with
  | Some x => exists l r, xs = l ++ x :: r /\ p x = true /\ Forall (fun y => p y = false) r
  | None => Forall (fun y => p y = false) xs
  end.
Proof.
  induction xs as [|x xs IH] using rev_ind; [constructor|]. rewrite rev_app_distr. cbn [rev app find_first]. destruct (p x) eqn:E; [by exists xs, []|].
  destruct (find_first p (rev xs)) as [y|].
  - destruct IH as (l & r & -> & Hy & Hr). exists l, (r ++ [x]). split; [by rewrite <- app_assoc|]. split; [done|]. apply Forall_app. by split; [|constructor].
  - apply Forall_app. by split; [|constructor].
Qed.

Lemma path_snoc_parent es e q :
  path_to es e (q ++ [e]) -> (q = [] /\ parentId e = None) \/ exists p, parentId e = Some (entryId p) /\ path_to es p q.
Proof.
  intros H. remember (q ++ [e]) as l eqn:E. destruct H as [e' _ Hp|e' p q' _ Hp Hq].
  - left. split; [|done]. by destruct q as [|x [|y q]].
  - right. apply app_inj_tail in E as [<- _]. by exists p.
Qed.

(** From the end of a path up to an entry of it, or to its root. *)
Lemma collect_path es e q r fuel find :
  log_ok es -> path_to es e (q ++ r) -> (forall x, find x = lookup_entry es x) -> (length r < fuel)%nat ->
  collect_up fuel find (entryId <$> last q) (Some (entryId e)) = rev r.
Proof.
  intros Hlog Hp Hfind. revert e fuel Hp. induction r as [|e' r IH] using rev_ind; intros e fuel Hp Hf.
  - rewrite app_nil_r in Hp. rewrite (path_last _ _ _ Hp). destruct fuel; [done|]. cbn [collect_up fmap option_fmap option_map]. rewrite (bool_decide_eq_true_2 (Some _ = Some _)) by done. by rewrite orb_true_r.
  - pose proof (path_last _ _ _ Hp) as Hl. rewrite app_assoc, last_snoc in Hl. injection Hl as ->. pose proof (path_in _ _ _ Hp) as He.
    destruct (path_log _ _ _ Hlog Hp) as [Hq _]. pose proof (log_NoDup _ Hq) as Hn. rewrite rev_app_distr. cbn [rev app].
    destruct fuel as [|fuel]; [lia|]. cbn [collect_up]. rewrite bool_decide_eq_false_2 by (eapply log_nonempty; [exact Hlog|]; by apply list_elem_of_fmap_2).
    rewrite bool_decide_eq_false_2; [cbn [orb]|].
    + rewrite Hfind, lookup_entry_in by (done || by apply log_NoDup). f_equal. rewrite length_app in Hf. cbn in Hf. rewrite app_assoc in Hp.
      destruct (path_snoc_parent _ _ _ Hp) as [[E Hpar]|(p & Hpar & Hp')]; rewrite Hpar; [|apply IH; [done|lia]].
      apply app_eq_nil in E as [_ ->]. by destruct fuel.
    + destruct (last q) as [x|] eqn:Ex; [|done]. intros [= E]. apply last_Some in Ex as [q0 ->]. unfold ids in Hn.
      rewrite app_assoc, fmap_app in Hn. apply NoDup_app in Hn as (_ & Hd & _). apply (Hd (entryId x)).
      * rewrite !fmap_app. set_solver.
      * rewrite E. by left.
Qed.

(** The part of a path up to an entry of it is that entry's path. *)
Lemma path_up_to es e l e' r : log_ok es -> path_to es e (l ++ e' :: r) -> path_to es e' (l ++ [e']).
Proof.
  intros Hlog Hp. destruct (path_exists es e Hlog ltac:(by eapply path_in)) as (q & Hq & _ & Hs).
  pose proof (path_functional _ _ _ _ (log_NoDup _ Hlog) Hp Hq) as <-. eapply path_mono; [|apply (path_prefix es e (l ++ [e']) r e')]; [|by rewrite <- app_assoc|done|by rewrite last_snoc].
  set_solver.
Qed.

Lemma ids_split es l x r : ids es = l ++ x :: r -> exists q e s, es = q ++ e :: s /\ ids q = l /\ entryId e = x /\ ids s = r.
Proof.
  intros (q & s' & -> & E & ->)%fmap_app_inv. symmetry in E. apply fmap_cons_inv in E as (e & s & -> & -> & ->). by exists q, e, s.
Qed.

Lemma path_within m e q : tree_ok (trees m) -> path_to (entries_of m) e q -> NoDup (ids q) /\ (length q < branch_fuel m)%nat.
Proof.
  intros (Hlog & _) Hq. destruct (path_exists _ e Hlog ltac:(by eapply path_in)) as (q' & Hq' & Hn & Hs).
  pose proof (path_functional _ _ _ _ (log_NoDup _ Hlog) Hq Hq') as <-. split; [done|].
  pose proof (path_length _ _ Hn Hs). unfold branch_fuel. pose proof (entries_length (fileEntries (trees m))). unfold entries_of in *. lia.
Qed.

(** C23.  The entries that are left on the way to another are exactly those of
    the old branch below its last entry that the other branch shares. *)
Theorem branch_left m old target :
  session_ok m -> old ∈ ids (entries_of m) -> target ∈ ids (entries_of m) ->
  let gone := collectEntriesForBranchSummary m (Some old) target in
  exists q r, getBranch m (Some old) = q ++ collected gone /\ getBranch m (Some target) = q ++ r /\
    commonAncestorId gone = entryId <$> last q /\ forall x, x ∈ ids (collected gone) -> x ∉ ids (getBranch m (Some target)).
Proof.
  intros (Ht & _) Ho Hta. pose proof Ht as (Hlog & _). destruct (known_entry m old Ht Ho) as (e1 & p1 & Hf1 & E1 & Hp1).
  destruct (known_entry m target Ht Hta) as (e2 & p2 & Hf2 & _ & Hp2). unfold collectEntriesForBranchSummary.
  assert (Hne : old <> ""%string) by (by eapply log_nonempty). destruct old as [|a old]; [done|].
  rewrite (getBranch_path m _ e1 p1 Ht Hf1 Hp1), (getBranch_path m _ e2 p2 Ht Hf2 Hp2). cbn [collected commonAncestorId].
  destruct (path_within m e1 p1 Ht Hp1) as [Hn1 Hl1]. unfold common_ancestor. pose proof (rev_find_last (includes (entryId <$> p1)) (entryId <$> p2)) as Hc.
  destruct (find_first _ _) as [x|].
  - destruct Hc as (l & r & Hs & Hx & Hr). apply includes_true in Hx. apply (ids_split p2) in Hs as (q2 & x2 & r2 & -> & _ & <- & <-).
    apply list_elem_of_fmap in Hx as (x1 & Ex & Hx1). apply list_elem_of_split in Hx1 as (q1 & r1 & ->).
    pose proof (path_up_to _ _ _ _ _ Hlog Hp1) as H1. pose proof (path_up_to _ _ _ _ _ Hlog Hp2) as H2.
    assert (x2 = x1) as -> by (eapply (entry_same (entries_of m)); [by apply log_NoDup|by eapply path_in|by eapply path_in|done]).
    pose proof (path_functional _ _ _ _ (log_NoDup _ Hlog) H1 H2) as Eq. apply app_inj_tail in Eq as [-> _].
    exists (q2 ++ [x1]), r2. rewrite last_snoc, <- E1. cbn [fmap option_fmap option_map].
    rewrite (cons_middle x1 q2 r1), app_assoc in Hp1. pose proof (collect_path _ _ _ r1 (branch_fuel m) (find_entry m) Hlog Hp1 (fun y => find_entry_ok m y Ht)) as Hcol.
    rewrite last_snoc in Hcol. cbn [fmap option_fmap option_map] in Hcol. rewrite Hcol, rev_involutive by (rewrite length_app in Hl1; cbn in Hl1; lia).
    split; [by rewrite <- app_assoc|]. split; [by rewrite <- app_assoc|]. split; [done|]. intros y Hy. unfold ids in Hn1.
    rewrite (cons_middle x1 q2 r1), app_assoc, fmap_app in Hn1. apply NoDup_app in Hn1 as (_ & Hd & _).
    rewrite (cons_middle x1 q2 r2), app_assoc. unfold ids. rewrite fmap_app, elem_of_app. intros [Hy'|Hy']; [by apply (Hd y)|].
    pose proof (proj1 (Forall_forall _ _) Hr y Hy') as Hf. apply includes_false in Hf. apply Hf. unfold ids in Hy. rewrite fmap_app, fmap_cons. set_solver.
  - exists [], p2. rewrite <- E1. pose proof (collect_path _ _ [] p1 (branch_fuel m) (find_entry m) Hlog Hp1 (fun y => find_entry_ok m y Ht) Hl1) as Hcol.
    cbn [last fmap option_fmap option_map] in Hcol. rewrite Hcol, rev_involutive. split; [done|]. split; [done|]. split; [done|].
    intros y Hy Hy'. pose proof (proj1 (Forall_forall _ _) Hc y Hy') as Hf. by apply includes_false in Hf.
Qed.

(** *** Where a navigation leads *)

Lemma move_spec m f leaf s details ext entry m' :
  session_ok m -> fresh_ok m f -> match leaf with Some x => x ∈ ids (entries_of m) | None => True end ->
  move m f leaf s details ext = Ok (entry, m') ->
  session_ok m' /\ entries_of m ⊆ entries_of m' /\
  messages (build_context m') = path_context_messages (path_from m leaf) ++ match entry with Some e => entry_messages e | None => [] end.
Proof.
  intros Hm Hf Hl. assert (Hplain : unit -> match leaf with
      | None => Ok (None, resetLeaf m)
      | Some x => match branch m x with Ok m => Ok (None, m) | Throw err => Throw (units err) end end = Ok (entry, m') -> entry = None /\ session_ok m' /\
      entries_of m ⊆ entries_of m' /\ messages (build_context m') = path_context_messages (path_from m leaf)).
  { intros _. destruct leaf as [x|].
    - destruct (branch_moves m x Hm Hl) as (m1 & -> & H1 & H2 & H3). intros [= <- <-]. rewrite H2, H3. by split.
    - intros [= <- <-]. split; [done|]. split; [by apply (move_leaf_ok m None)|]. split; [done|]. by rewrite build_context_none. }
  unfold move. destruct s as [[|c s]|]; [intros H; destruct (Hplain tt H) as (-> & ? & ? & ->); by rewrite app_nil_r| |
    intros H; destruct (Hplain tt H) as (-> & ? & ? & ->); by rewrite app_nil_r].
  unfold branchWithSummary. replace (match leaf with Some x => negb (has_id (byId (trees m)) x) | None => false end) with false.
  2: { destruct leaf as [x|]; [|done]. rewrite has_id_ids by apply Hm. by rewrite bool_decide_eq_true_2. }
  pose proof (fresh_appended m f leaf (branch_summary (default "root"%string leaf) (c :: s) details (Some ext)) Hm Hf Hl) as Ha. cbv zeta in Ha.
  set (e := {| entryId := fresh_id m f; parentId := leaf; timestamp := now f; kind := _ |}) in Ha.
  change (entry_label _ _) with (labelsById (trees m)) in Ha. rewrite with_labels_same in Ha. change (appendEntry _ _) with (appendEntry m e).
  change (entryId _) with (entryId e). intros [= <- <-]. destruct (appends_grow _ _ _ Ha) as [Hm' Hs]. split; [done|]. split; [done|].
  destruct (appended_at m e _ Hm Ha) as [-> _]. rewrite messages_of_path, path_messages_snoc by done. change (parentId e) with leaf.
  change (fresh_id m f) with (entryId e). rewrite find_entry_ok by apply Hm'. rewrite lookup_entry_in; [done|apply log_NoDup, Hm'|]. rewrite (index_entries_snoc _ _ _ Ha). set_solver.
Qed.

(** The place that a target's message leaves is its parent's. *)
Lemma destination_spec m target e :
  session_ok m -> find_entry m target = Some e ->
  match (destination e).1 with Some x => x ∈ ids (entries_of m) | None => True end /\
  getBranch m (Some target) = path_from m (destination e).1 ++ match (destination e).2 with Some _ => [e] | None => [] end.
Proof.
  intros Hm He. pose proof (proj1 (proj1 Hm)) as Hlog. pose proof He as He'. rewrite find_entry_ok in He' by apply Hm. apply lookup_entry_Some in He' as [Hin <-].
  destruct (path_exists _ e Hlog Hin) as (q & Hq & _). pose proof (getBranch_path m _ e q (proj1 Hm) He Hq) as Hb. rewrite Hb.
  assert (Hpar : match parentId e with Some x => x ∈ ids (entries_of m) | None => True end /\ q = path_from m (parentId e) ++ [e]).
  { split; [by apply log_parent|]. pose proof (path_last _ _ _ Hq) as Hlast. apply last_Some in Hlast as [q' ->]. f_equal.
    destruct (path_snoc_parent _ _ _ Hq) as [[-> Hp]|(p & Hp & Hq')]; rewrite Hp; cbn [path_from]; [done|]. symmetry.
    apply (getBranch_path m _ p); [apply Hm| |done]. rewrite find_entry_ok by apply Hm. apply lookup_entry_in; [by apply log_NoDup|by eapply path_in]. }
  assert (Hself : entryId e ∈ ids (entries_of m) /\ q = path_from m (Some (entryId e)) ++ []) by (split; [by apply list_elem_of_fmap_2|by rewrite app_nil_r]).
  unfold destination. destruct (kind e) as [[]| | | | | | | | | | | | |]; cbn [fst snd]; done.
Qed.

Section navigation.
Context (convertToLlm : list AgentMessage -> list Message) (BRANCH_SUMMARY_PROMPT BRANCH_SUMMARY_PREAMBLE : text).
Context (complete : text -> completion) (render_files : list text -> list text -> text).

Lemma stops_unmoved n hook es r s details ext :
  summary_of convertToLlm BRANCH_SUMMARY_PROMPT BRANCH_SUMMARY_PREAMBLE complete render_files n hook es = Ok (Some r, s, details, ext) -> cancelled r = true.
Proof.
  assert (H : forall hookSummary,
    match hookSummary with
    | Some (s, details) => Ok (None, Some s, details, true)
    | None =>
        if n_summarize n && negb (bool_decide (es = [])) then
          if negb (n_apiKey n) then Throw (units ("No API key for " ++ n_provider n))
          else
            let r := generateBranchSummary convertToLlm BRANCH_SUMMARY_PROMPT BRANCH_SUMMARY_PREAMBLE complete render_files es
                       (default 0 (n_model n)) (n_reserveTokens n) (n_customInstructions n) in
            if br_aborted r then Ok (Some (not_moved true), None, None, false)
            else match br_error r with
                 | Some ((_ :: _) as err) => Throw err
                 | _ => Ok (None, br_summary r, Some (file_details (br_files r)), false)
                 end
        else Ok (None, None, None, false)
    end = Ok (Some r, s, details, ext) -> cancelled r = true).
  { intros [[? ?]|]; [done|]. destruct (n_summarize n && _); [|done]. destruct (negb _); [done|]. cbv zeta. destruct (br_aborted _); [by intros [= <- _ _ _]|].
    destruct (br_error _) as [[]|]; done. }
  unfold summary_of. destruct hook as [[[] hs]|]; [by intros [= <- _ _ _]|apply H|apply H].
Qed.

(** C22.  Going to another entry, with a summary or without: no branch changes;
    the context is that of the branch that is gone to, without the message
    that goes back to the editor, and the summary. *)
Theorem navigation_context m f target n hook r m' e :
  session_ok m -> fresh_ok m f -> find_entry m target = Some e -> leafId (trees m) <> Some target ->
  navigateTree convertToLlm BRANCH_SUMMARY_PROMPT BRANCH_SUMMARY_PREAMBLE complete render_files m f target n hook = Ok (r, m') -> cancelled r = false ->
  (forall x, x ∈ ids (entries_of m) -> getBranch m' (Some x) = getBranch m (Some x)) /\
  exists q, getBranch m (Some target) = q ++ match editorText r with Some _ => [e] | None => [] end /\
    messages (build_context m') = path_context_messages q ++ match summaryEntry r with Some s => entry_messages s | None => [] end.
Proof.
  intros Hm Hf He Hne. unfold navigateTree. rewrite decide_False by done. destruct (n_summarize n && _); [done|]. rewrite He.
  destruct (summary_of _ _ _ _ _ _ _ _) as [[[[[r0|] s] details] ext]|] eqn:Es; [| |done].
  { intros [= <- <-]. by rewrite (stops_unmoved _ _ _ _ _ _ _ Es). }
  destruct (destination_spec m target e Hm He) as [Hd Hb]. destruct (destination e) as [leaf editor]. cbn [fst snd] in *.
  destruct (move m f leaf s details ext) as [[entry m1]|] eqn:Em; [|done]. destruct (move_spec _ _ _ _ _ _ _ _ Hm Hf Hd Em) as (Hm1 & Hs & Hc).
  intros [= <- <-] _. cbn [editorText summaryEntry]. split; [intros x Hx; by apply branch_kept|]. by exists (path_from m leaf).
Qed.
End navigation.

(** *** What is summarized *)

Definition sum_messages (ms : list AgentMessage) : Z := foldr (fun m n => estimateMessageTokensHeuristic m + n) 0 ms.

(** The messages are the last of the branch, and their estimate is their sum. *)
Lemma add_messages_spec budget es p :
  exists n, b_messages (add_messages budget es p) = rev (take n (omap branch_message es)) ++ b_messages p /\
  b_totalTokens (add_messages budget es p) = sum_messages (take n (omap branch_message es)) + b_totalTokens p.
Proof.
  revert p. induction es as [|e es IH]; intros p; [by exists O|]. cbn [add_messages omap list_omap]. destruct (branch_message e) as [m|]; [|apply IH]. cbv zeta.
  destruct (_ && _).
  - destruct (_ && _); [exists 1%nat|by exists O]. cbn. rewrite take_0. cbn. split; [done|lia].
  - destruct (IH (with_branch_message p (extractFileOpsFromMessage (b_fileOps p) m) m)) as (n & -> & ->). exists (S n). cbn [take rev sum_messages foldr with_branch_message b_messages b_totalTokens].
    fold sum_messages. split; [by rewrite <- app_assoc|]. unfold sum_messages. lia.
Qed.

Lemma add_messages_budget budget es p :
  0 < budget -> b_totalTokens p <= budget ->
  b_totalTokens (add_messages budget es p) <= budget \/
  exists e m, e ∈ es /\ is_summary e = true /\ branch_message e = Some m /\ List.hd_error (b_messages (add_messages budget es p)) = Some m /\
    b_totalTokens (add_messages budget es p) <= budget + estimateMessageTokensHeuristic m.
Proof.
  intros Hb. revert p. induction es as [|e es IH]; intros p Hp; [by left|]. cbn [add_messages].
  assert (Hmore : forall e', e' ∈ es -> e' ∈ e :: es) by (intros e' ?; by right).
  destruct (branch_message e) as [m|] eqn:Em; [|destruct (IH p Hp) as [|(e' & m' & ? & ?)]; [by left|right; exists e', m'; naive_solver]]. cbv zeta.
  rewrite (bool_decide_eq_true_2 (0 < budget)) by done. cbn [andb]. destruct (bool_decide _) eqn:E.
  - destruct (is_summary e && _) eqn:Es; [|by left]. right. exists e, m. apply andb_true_iff in Es as [Hs _]. cbn. split; [by left|]. split; [done|]. split; [done|]. split; [done|lia].
  - apply bool_decide_eq_false in E. destruct (IH (with_branch_message p (extractFileOpsFromMessage (b_fileOps p) m) m)) as [|(e' & m' & ? & ?)]; [cbn; lia|by left|].
    right. exists e', m'. naive_solver.
Qed.

(** What is summarized of a branch is its end, in order: with a budget its
    estimate stays below, or goes beyond by no more than the summary that it
    then begins with. *)
Theorem branch_within_budget es budget :
  0 < budget ->
  let p := prepareBranchEntries es budget in
  (exists n, b_messages p = drop n (omap branch_message es)) /\ b_totalTokens p = sum_messages (b_messages p) /\
  (b_totalTokens p <= budget \/
   exists e m, e ∈ es /\ is_summary e = true /\ branch_message e = Some m /\ List.hd_error (b_messages p) = Some m /\
     b_totalTokens p <= budget + estimateMessageTokensHeuristic m).
Proof.
  intros Hb p. set (p0 := {| b_messages := []; b_fileOps := foldl summary_files createFileOps es; b_totalTokens := 0 |}).
  destruct (add_messages_spec budget (rev es) p0) as (n & Hm & Ht). change (add_messages budget (rev es) p0) with p in Hm, Ht. cbn [p0 b_messages b_totalTokens] in Hm, Ht.
  rewrite app_nil_r in Hm. rewrite Z.add_0_r in Ht. assert (Hrev : omap branch_message (rev es) = rev (omap branch_message es)).
  { clear. induction es as [|e es IH]; [done|]. cbn [rev]. rewrite omap_app, IH. cbn. destruct (branch_message e); [done|by rewrite app_nil_r]. }
  rewrite Hrev in Hm, Ht. split; [|split].
  - exists (length (omap branch_message es) - n)%nat. rewrite Hm. by rewrite firstn_rev, rev_involutive.
  - rewrite Ht, Hm. generalize (take n (rev (omap branch_message es))) as l. clear. intros l. unfold sum_messages.
    induction l as [|m l IH]; [done|]. cbn [rev foldr]. rewrite foldr_app. cbn [foldr]. rewrite IH. clear IH.
    generalize (rev l) as r. intros r. induction r as [|m' r IH]; cbn; [lia|]. rewrite <- IH. lia.
  - destruct (add_messages_budget budget (rev es) p0 Hb ltac:(cbn; lia)) as [|(e & m & He & ?)]; [by left|]. right. exists e, m. split; [|done].
    apply list_elem_of_In in He. apply list_elem_of_In. by apply in_rev.
Qed.

(** ** A navigation *)

(** Back to the first question, with a summary of what is left. *)
Definition asks_summary : navigation :=
  {| n_model := Some 100000; n_provider := "openai"; n_apiKey := true; n_summarize := true; n_customInstructions := None; n_reserveTokens := 16384 |}.

Definition convert : list AgentMessage -> list Message := defaultConvertToLlm id id.
Definition model_says (t : text) : completion := R_texts [units "a summary"].

Lemma branch_left_witness :
  exists q r, getBranch two_questions (Some "u2"%string) = q ++ collected (collectEntriesForBranchSummary two_questions (Some "u2"%string) "a1") /\
    getBranch two_questions (Some "a1"%string) = q ++ r /\
    commonAncestorId (collectEntriesForBranchSummary two_questions (Some "u2"%string) "a1") = entryId <$> last q /\
    forall x, x ∈ ids (collected (collectEntriesForBranchSummary two_questions (Some "u2"%string) "a1")) ->
      x ∉ ids (getBranch two_questions (Some "a1"%string)).
Proof.
  refine (branch_left two_questions "u2" "a1" two_questions_ok _ _).
  - by apply (bool_decide_unpack ("u2"%string ∈ ids (entries_of two_questions))).
  - by apply (bool_decide_unpack ("a1"%string ∈ ids (entries_of two_questions))).
Defined.

Lemma navigation_context_witness :
  exists r m' e, find_entry two_questions "u1" = Some e /\
  navigateTree convert [] [] model_says (fun _ _ => []) two_questions (drawn "s1" 5) "u1" asks_summary None = Ok (r, m') /\
  (forall x, x ∈ ids (entries_of two_questions) -> getBranch m' (Some x) = getBranch two_questions (Some x)) /\
  exists q, getBranch two_questions (Some "u1"%string) = q ++ match editorText r with Some _ => [e] | None => [] end /\
    messages (build_context m') = path_context_messages q ++ match summaryEntry r with Some s => entry_messages s | None => [] end.
Proof.
  assert (H : exists r m' e, find_entry two_questions "u1" = Some e /\
    navigateTree convert [] [] model_says (fun _ _ => []) two_questions (drawn "s1" 5) "u1" asks_summary None = Ok (r, m') /\ cancelled r = false).
  { eexists _, _, _. split; [vm_compute; reflexivity|]. split; [vm_compute; reflexivity|reflexivity]. }
  destruct H as (r & m' & e & He & E & Hc). exists r, m', e. split; [exact He|]. split; [exact E|].
  refine (navigation_context convert [] [] model_says (fun _ _ => []) two_questions (drawn "s1" 5) "u1" asks_summary None r m' e two_questions_ok _ He _ E Hc).
  - apply fresh_bool; [vm_compute; reflexivity|done|done].
  - done.
Defined.

Lemma branch_within_budget_witness :
  (exists n, b_messages (prepareBranchEntries (entries_of two_questions) 2) = drop n (omap branch_message (entries_of two_questions))) /\
  b_totalTokens (prepareBranchEntries (entries_of two_questions) 2) = sum_messages (b_messages (prepareBranchEntries (entries_of two_questions) 2)) /\
  (b_totalTokens (prepareBranchEntries (entries_of two_questions) 2) <= 2 \/
   exists e m, e ∈ entries_of two_questions /\ is_summary e = true /\ branch_message e = Some m /\
     List.hd_error (b_messages (prepareBranchEntries (entries_of two_questions) 2)) = Some m /\
     b_totalTokens (prepareBranchEntries (entries_of two_questions) 2) <= 2 + estimateMessageTokensHeuristic m).
Proof. refine (branch_within_budget (entries_of two_questions) 2 _). lia. Defined.

(** ** What a summary does not see *)

(** A window no larger than the reserve is no limit: everything is sent. *)
Example small_window_is_no_limit :
  b_messages (prepareBranchEntries (entries_of two_questions) (8192 - 16384)) = [says "one"; answers "1"; says "two"] /\
  b_messages (prepareBranchEntries (entries_of two_questions) 1) = [says "two"].
Proof. by vm_compute. Qed.

(** The files of what is beyond the budget are forgotten. *)
Example files_beyond_budget :
  computeFileLists (b_fileOps (prepareBranchEntries called 0)) = (["x"%string], []) /\
  computeFileLists (b_fileOps (prepareBranchEntries (called ++ [{| entryId := "u2"; parentId := Some "r1"%string; timestamp := 4; kind := message (says "thanks") |};
    {| entryId := "u3"; parentId := Some "u2"%string; timestamp := 5; kind := message (says "and now") |}]) 2)) = ([], []).
Proof. by vm_compute. Qed.

(** What a developer's message says is in no summary. *)
Example developer_is_silent :
  serializeConversation (convert [M_developer (C_text (units "Never delete files.")); says "one"]) = units "[User]: one".
Proof. by vm_compute. Qed.
