(* ===== verification/AgentTypes.v ===== *)
(** * Messages, tools and events of the agent loop ([agent/src/types.ts],
      the helpers of [agent/src/agent-loop.ts])

    What the loop and the execution of tool calls share.  Values of tools
    ([details], arguments, raw results) are those of [JsonClone.v].  The
    validation of arguments by a tool's schema and [Bun.stripANSI] are
    parameters. *)

From Stdlib Require Import Ascii SpecFloat.
From S2P Require Import Prelude JsNumber JsValue JsText JsonClone.

Local Open Scope string_scope.
Local Open Scope list_scope.
Local Open Scope Z_scope.

Notation fields := (list (string * value)).

(** ** Messages *)

Record tool_call := { call_id : string; call_name : string; arguments : fields; incompleteArguments : bool; intent : option string }.

Inductive block :=
| text_block (t : string)
| thinking_block (t : string)
| image_block (fs : fields)
| call_block (c : tool_call).

(** What identifies a response besides its content. *)
Record provenance := { api : string; provider : string; model : string }.

Record AssistantMessage := {
  content : list block; from : provenance; totalTokens : Z; stopReason : string;
  errorMessage : option string; timestamp : Z
}.

Record ToolResultMessage := {
  toolCallId : string; toolName : string; result_content : list block; details : value; is_error : bool; result_time : Z
}.

(** The content of a message of another role. *)
Inductive body := no_body | string_body (t : string) | blocks_body (bs : list block).

Inductive AgentMessage :=
| M_assistant (m : AssistantMessage)
| M_toolResult (m : ToolResultMessage)
| M_other (role : string) (b : body).

Definition is_assistant (m : AgentMessage) : bool := match m with M_assistant _ => true | _ => false end.

(** [content.filter(c => c.type === "toolCall")] *)
Definition tool_calls (bs : list block) : list tool_call := omap (fun b => match b with call_block c => Some c | _ => None end) bs.

(** ** Tools *)

Record tool_result := { content_of : list block; details_of : value; error_of : option bool }.

(** [validate] is [validateToolArguments] by the schema of the tool;
    [derive_intent] its [intent] when that is a function, without a value where
    it throws or returns none. *)
Record tool := {
  tool_name : string; customWireName : option string; exclusive : bool; lenientArgValidation : bool;
  validate : fields -> outcome string fields; derive_intent : option (fields -> option string)
}.

Definition toolMatchesCallName (t : tool) (callName : string) : bool :=
  bool_decide (tool_name t = callName) || bool_decide (customWireName t = Some callName).

(** The internal name takes precedence over the name on the wire. *)
Definition find_tool (tools : list tool) (callName : string) : option tool :=
  match find_first (fun t => bool_decide (tool_name t = callName)) tools with
  | Some t => Some t
  | None => find_first (fun t => bool_decide (customWireName t = Some callName)) tools
  end.

Definition INTENT_FIELD : string := "_i".

Definition extractIntent (args : fields) : option string * fields :=
  let strippedArgs := map_delete args INTENT_FIELD in
  match map_get args INTENT_FIELD with
  | Some (V_str intent) => let trimmed := trim intent in (if decide (trimmed = "") then None else Some trimmed, strippedArgs)
  | _ => (None, strippedArgs)
  end.

(** ** Results of tools *)

Definition truthy (v : value) : bool :=
  match v with
  | V_undefined | V_null => false
  | V_bool b => b
  | V_num x => match x with S754_zero _ | S754_nan => false | _ => true end
  | V_str s => bool_decide (s <> "")
  | V_fun | V_arr _ | V_obj _ _ => true
  end.

(** [x ?? d] *)
Definition or_else (x d : value) : value := match x with V_undefined | V_null => d | _ => x end.

(** The properties of what [typeof] calls an object. *)
Definition object_fields (v : value) : option fields :=
  match v with V_obj fs _ => Some fs | V_arr _ => Some [] | _ => None end.

(** [CONTROL_RE] *)
Definition is_control (c : ascii) : bool :=
  let n := N_of_ascii c in bool_decide (n <= 8 \/ 11 <= n <= 31 \/ 127 <= n <= 159)%N.

Fixpoint str_existsb (p : ascii -> bool) (s : string) : bool :=
  match s with EmptyString => false | String c s => p c || str_existsb p s end.

Fixpoint str_filter (p : ascii -> bool) (s : string) : string :=
  match s with EmptyString => EmptyString | String c s => if p c then String c (str_filter p s) else str_filter p s end.

Section sanitize.
Context (stripANSI : string -> string).

(** Code units below 256 are well formed. *)
Definition sanitizeText (s : string) : string :=
  if str_existsb is_control s then
    let stripped := if str_existsb (fun c => bool_decide (c = "027"%char)) s then stripANSI s else s in
    str_filter (fun c => negb (is_control c)) stripped
  else s.

Definition coerce_block (b : option value) : option block :=
  fs ← b ≫= object_fields;
  match map_get fs "type" with
  | Some (V_str ty) =>
      if decide (ty = "text") then
        match map_get fs "text" with Some (V_str t) => Some (text_block (sanitizeText t)) | _ => None end
      else if decide (ty = "image") then
        match map_get fs "data", map_get fs "mimeType" with Some (V_str _), Some (V_str _) => Some (image_block fs) | _, _ => None end
      else None
  | _ => None
  end.

Definition invalid_result : string := "Tool returned an invalid result: missing content array.".

Definition coerceToolResult (raw : value) : tool_result * bool :=
  let rawObj := default [] (object_fields raw) in
  let details := default (V_obj [] None) (map_get rawObj "details") in
  let explicitError := match map_get rawObj "isError" with Some e => truthy e | None => false end in
  match map_get rawObj "content" with
  | Some (V_arr rawContent) =>
      ({| content_of := omap coerce_block rawContent; details_of := details; error_of := if explicitError then Some true else None |}, false)
  | _ => ({| content_of := [text_block invalid_result]; details_of := details; error_of := Some true |}, true)
  end.
End sanitize.

(** An error that is caught becomes the result. *)
Definition error_result (message : string) : tool_result := {| content_of := [text_block message]; details_of := V_obj [] None; error_of := None |}.

Definition skipped_text : string := "Skipped due to queued user message.".
Definition createSkippedToolResult : tool_result := error_result skipped_text.

Definition quotation_mark : string := String "034"%char "".

Definition truncated_text (name : string) : string :=
  "Tool call " +:+ quotation_mark +:+ name +:+ quotation_mark
  +:+ " was cut off before its arguments finished streaming (the response hit its output token limit). "
  +:+ "The partial arguments cannot be executed. Re-issue the call with complete arguments, splitting the work into smaller steps if needed.".

Definition not_found_text (tools : list tool) (name : string) : string :=
  let base := "Tool " +:+ name +:+ " not found" in
  if existsb (fun t => toolMatchesCallName t "search_tool_bm25") tools then
    base +:+ ". If you are unsure whether this tool exists or how to use it, call `search_tool_bm25` to discover and activate the matching tool, then retry."
  else base.

(** [ToolCallBlockedError] *)
Definition blocked_text (reason : option string) : string := default "Tool execution was blocked" reason.

(** ** Events *)

Inductive AgentEvent :=
| agent_start
| agent_end (messages : list AgentMessage) (reason : string) (maintenanceOutcome : option string)
| turn_start
| turn_end (message : AssistantMessage) (toolResults : list ToolResultMessage)
| message_start (m : AgentMessage)
| message_update (m : AssistantMessage)
| message_end (m : AgentMessage)
| tool_execution_start (toolCallId toolName : string) (args : fields) (intent : option string)
| tool_execution_update (toolCallId toolName : string) (args : fields) (partialResult : tool_result)
| tool_execution_end (toolCallId toolName : string) (result : tool_result) (isError : bool).

Definition to_message (c : tool_call) (r : tool_result) (isError : bool) (now : Z) : ToolResultMessage :=
  {| toolCallId := call_id c; toolName := call_name c; result_content := content_of r; details := details_of r; is_error := isError; result_time := now |}.

Definition aborted_text (reason : string) (errorMessage : option string) : string :=
  let message := if decide (reason = "aborted") then "Tool execution was aborted" else "Tool execution failed due to an error" in
  match errorMessage with
  | Some e => if decide (e = "") then message +:+ "." else message +:+ ": " +:+ e
  | None => message +:+ "."
  end.

(** The result, and the events it pushes. *)
Definition createAbortedToolResult (c : tool_call) (reason : string) (errorMessage : option string) (now : Z)
    : ToolResultMessage * list AgentEvent :=
  let result := error_result (aborted_text reason errorMessage) in
  let message := to_message c result true now in
  (message,
   [tool_execution_start (call_id c) (call_name c) (arguments c) (intent c);
    tool_execution_end (call_id c) (call_name c) result true;
    message_start (M_toolResult message); message_end (M_toolResult message)]).
