(* ===== verification/ToolBatch.v ===== *)
(** * Executing the tool calls of a message ([executeToolCalls] of
      [agent/src/agent-loop.ts])

    Each call is a task.  A task runs without interruption from one [await] to
    the next; a [stimulus] is the settling of what some task awaits, so that a
    batch is any sequence of stimuli its tasks allow.  Exclusive tools run
    alone; a message queued by the user while tools run interrupts the batch.

    The calls to the telemetry are a log of the status of each call. *)

From S2P Require Import Prelude JsNumber JsValue JsonClone AgentTypes.

Local Open Scope string_scope.
Local Open Scope list_scope.

(** ** The state *)

Record call_record := {
  toolCall : tool_call; tool_of : option tool; args : fields; started : bool; skipped : bool;
  result : option tool_result; isError : bool; toolResultMessage : option ToolResultMessage; resultEmitted : bool;
  onUpdate : option fields
}.

(** What was caught, for the status of the span. *)
Inductive caught := nothing_caught | blocked_caught | error_caught.

(** Where a task is: what it awaits, or how it settled.  [Steering k] awaits
    the [k]-th check of the steering queue. *)
Inductive phase :=
| Waiting
| Asking (a : fields)
| Executing
| Hooking (r : tool_result) (isError : bool) (c : caught)
| Finishing (r : tool_result) (isError : bool) (c : caught)
| Steering (k : nat)
| Fulfilled
| Rejected.

(** A check of the steering queue: the promise of its messages, then that of
    its [finally]; the flag says whether it failed. *)
Inductive check := InFlight | Answered (failed : bool) | Closed (failed : bool).

Record batch := {
  records : list call_record; phases : list phase;
  interrupted : bool; steeringMessages : option (list AgentMessage); steeringCheck : option nat; checks : list check;
  emittedToolResults : list ToolResultMessage; events : list AgentEvent; statuses : list (string * string)
}.

(** [has_before], [has_after] and [has_steering] say which hooks are
    configured; [getToolContext] and [transformToolCallArguments] may throw. *)
Record config := {
  immediate : bool; has_steering : bool; intentTracing : bool; has_before : bool; has_after : bool;
  getToolContext : nat -> outcome string unit;
  transformToolCallArguments : fields -> string -> outcome string fields
}.

Definition with_record (b : batch) (i : nat) (r : call_record) : batch := {|
  records := <[i := r]> (records b); phases := phases b;
  interrupted := interrupted b; steeringMessages := steeringMessages b; steeringCheck := steeringCheck b; checks := checks b;
  emittedToolResults := emittedToolResults b; events := events b; statuses := statuses b |}.

Definition with_phase (b : batch) (i : nat) (p : phase) : batch := {|
  records := records b; phases := <[i := p]> (phases b);
  interrupted := interrupted b; steeringMessages := steeringMessages b; steeringCheck := steeringCheck b; checks := checks b;
  emittedToolResults := emittedToolResults b; events := events b; statuses := statuses b |}.

Definition push (b : batch) (es : list AgentEvent) : batch := {|
  records := records b; phases := phases b;
  interrupted := interrupted b; steeringMessages := steeringMessages b; steeringCheck := steeringCheck b; checks := checks b;
  emittedToolResults := emittedToolResults b; events := events b ++ es; statuses := statuses b |}.

Definition with_status (b : batch) (x status : string) : batch := {|
  records := records b; phases := phases b;
  interrupted := interrupted b; steeringMessages := steeringMessages b; steeringCheck := steeringCheck b; checks := checks b;
  emittedToolResults := emittedToolResults b; events := events b; statuses := statuses b ++ [(x, status)] |}.

Definition with_checks (b : batch) (current : option nat) (cs : list check) : batch := {|
  records := records b; phases := phases b;
  interrupted := interrupted b; steeringMessages := steeringMessages b; steeringCheck := current; checks := cs;
  emittedToolResults := emittedToolResults b; events := events b; statuses := statuses b |}.

Definition interrupt (b : batch) (ms : list AgentMessage) : batch := {|
  records := records b; phases := phases b;
  interrupted := true; steeringMessages := Some ms; steeringCheck := steeringCheck b; checks := checks b;
  emittedToolResults := emittedToolResults b; events := events b; statuses := statuses b |}.

(** [record.skipped = true] *)
Definition skip (r : call_record) : call_record := {|
  toolCall := toolCall r; tool_of := tool_of r; args := args r; started := started r; skipped := true;
  result := result r; isError := isError r; toolResultMessage := toolResultMessage r; resultEmitted := resultEmitted r;
  onUpdate := onUpdate r |}.

Definition with_args (r : call_record) (a : fields) : call_record := {|
  toolCall := toolCall r; tool_of := tool_of r; args := a; started := started r; skipped := skipped r;
  result := result r; isError := isError r; toolResultMessage := toolResultMessage r; resultEmitted := resultEmitted r;
  onUpdate := onUpdate r |}.

(** [execute] is handed the callback for its updates. *)
Definition with_callback (r : call_record) (a : fields) : call_record := {|
  toolCall := toolCall r; tool_of := tool_of r; args := args r; started := started r; skipped := skipped r;
  result := result r; isError := isError r; toolResultMessage := toolResultMessage r; resultEmitted := resultEmitted r;
  onUpdate := Some a |}.

(** ** Results *)

Definition emitToolResult (b : batch) (i : nat) (res : tool_result) (err : bool) (now : Z) : batch :=
  match records b !! i with
  | None => b
  | Some r =>
      if resultEmitted r then b
      else
        let c := toolCall r in
        let m := to_message c res err now in
        let r' := {|
          toolCall := c; tool_of := tool_of r; args := args r; started := started r; skipped := skipped r;
          result := Some res; isError := err; toolResultMessage := Some m; resultEmitted := true; onUpdate := onUpdate r |} in
        {| records := <[i := r']> (records b); phases := phases b;
           interrupted := interrupted b; steeringMessages := steeringMessages b; steeringCheck := steeringCheck b; checks := checks b;
           emittedToolResults := emittedToolResults b ++ [m];
           events := events b ++ (if started r then [] else [tool_execution_start (call_id c) (call_name c) (args r) (intent c)])
             ++ [tool_execution_end (call_id c) (call_name c) res err; message_start (M_toolResult m); message_end (M_toolResult m)];
           statuses := statuses b |}
  end.

(** ** Starting *)

Definition makeRecord (tools : list tool) (c : tool_call) : call_record := {|
  toolCall := c; tool_of := find_tool tools (call_name c); args := arguments c; started := false; skipped := false;
  result := None; isError := false; toolResultMessage := None; resultEmitted := false; onUpdate := None |}.

Definition startBatch (tools : list tool) (calls : list tool_call) : batch := {|
  records := makeRecord tools <$> calls; phases := (fun _ => Waiting) <$> calls;
  interrupted := false; steeringMessages := None; steeringCheck := None; checks := [];
  emittedToolResults := []; events := []; statuses := [] |}.

Definition is_exclusive (r : call_record) : bool := match tool_of r with Some t => exclusive t | None => false end.

(** The tasks each task starts after, by the loop over the records. *)
Fixpoint schedule (index : nat) (lastExclusive : option nat) (sharedTasks : list nat) (rs : list call_record) : list (list nat) :=
  match rs with
  | [] => []
  | r :: rs =>
      let last := match lastExclusive with Some k => [k] | None => [] end in
      if is_exclusive r then (last ++ sharedTasks) :: schedule (S index) (Some index) [] rs
      else last :: schedule (S index) lastExclusive (sharedTasks ++ [index]) rs
  end.

Definition awaited (b : batch) (i : nat) : list nat := default [] (schedule 0 None [] (records b) !! i).

Definition phase_is (p : phase -> bool) (b : batch) (i : nat) : bool := match phases b !! i with Some x => p x | None => false end.
Definition is_fulfilled (p : phase) : bool := match p with Fulfilled => true | _ => false end.
Definition is_rejected (p : phase) : bool := match p with Rejected => true | _ => false end.
Definition is_settled (p : phase) : bool := is_fulfilled p || is_rejected p.

(** [Promise.allSettled(tasks)] *)
Definition allSettled (b : batch) : bool := forallb is_settled (phases b).

(** ** Running a tool *)

Section run.
Context (cfg : config) (tools : list tool) (stripANSI : string -> string).

(** The [catch] of [runTool], and what is known when nothing was caught. *)
Definition conclude (b : batch) (i : nat) (res : tool_result) (err : bool) (c : caught) : batch :=
  with_phase b i (if has_after cfg then Hooking res err c else Finishing res err c).

Definition throw (b : batch) (i : nat) (message : string) (c : caught) : batch := conclude b i (error_result message) true c.

(** From the reply of [beforeToolCall] to the call of [execute]. *)
Definition execute (b : batch) (i : nat) (r : call_record) (effectiveArgs : fields) : batch :=
  let r := with_args r effectiveArgs in
  let b := with_record b i r in
  match getToolContext cfg i with
  | Throw e => throw b i e error_caught
  | Ok _ =>
      match transformToolCallArguments cfg effectiveArgs (call_name (toolCall r)) with
      | Throw e => throw b i e error_caught
      | Ok _ => with_phase (with_record b i (with_callback r effectiveArgs)) i Executing
      end
  end.

(** The intent the model gives, or that the tool derives. *)
Definition trace_intent (r : call_record) : tool_call * fields :=
  let c := toolCall r in
  if intentTracing cfg then
    let '(given, strippedArgs) := extractIntent (arguments c) in
    let derived := match tool_of r ≫= derive_intent with
                   | Some derive => match derive strippedArgs with
                                    | Some t => let t := trim t in if decide (t = "") then None else Some t
                                    | None => None
                                    end
                   | None => None
                   end in
    let found := match given with Some t => Some t | None => derived end in
    ({| call_id := call_id c; call_name := call_name c; arguments := arguments c; incompleteArguments := incompleteArguments c;
        intent := match found with Some t => Some t | None => intent c end |}, strippedArgs)
  else (c, arguments c).

(** [runTool] up to its first [await]. *)
Definition runTool (b : batch) (i : nat) : option batch :=
  r ← records b !! i;
  if interrupted b then Some (with_phase (with_record b i (skip r)) i Fulfilled)
  else
    let '(c, argsForExecution) := trace_intent r in
    let r := {|
      toolCall := c; tool_of := tool_of r; args := argsForExecution; started := true; skipped := skipped r;
      result := result r; isError := isError r; toolResultMessage := toolResultMessage r; resultEmitted := resultEmitted r;
      onUpdate := onUpdate r |} in
    let b := push (with_record b i r) [tool_execution_start (call_id c) (call_name c) argsForExecution (intent c)] in
    Some (if incompleteArguments c then throw b i (truncated_text (call_name c)) error_caught
          else
            match tool_of r with
            | None => throw b i (not_found_text tools (call_name c)) error_caught
            | Some t =>
                let proceed a := if has_before cfg then with_phase b i (Asking a) else execute b i r a in
                match validate t argsForExecution with
                | Ok effectiveArgs => proceed effectiveArgs
                | Throw e => if lenientArgValidation t then proceed argsForExecution else throw b i e error_caught
                end
            end).

(** [checkSteering], called by task [i]. *)
Definition checkSteering (b : batch) (i : nat) : batch :=
  if negb (immediate cfg) || negb (has_steering cfg) || interrupted b then with_phase b i Fulfilled
  else
    match steeringCheck b with
    | Some k => with_phase b i (Steering k)
    | None => let k := length (checks b) in with_phase (with_checks b (Some k) (checks b ++ [InFlight])) i (Steering k)
    end.

Definition span_status (wasInterrupted err : bool) (c : caught) : string :=
  if wasInterrupted then "aborted"
  else match c with blocked_caught => "blocked" | _ => if err then "error" else "ok" end.

(** [runTool] after the span of the tool. *)
Definition finishTool (b : batch) (i : nat) (res : tool_result) (err : bool) (c : caught) (now : Z) : option batch :=
  r ← records b !! i;
  let b' := if interrupted b then emitToolResult (with_record b i (skip r)) i createSkippedToolResult true now
            else emitToolResult b i res err now in
  Some (checkSteering (with_status b' (call_id (toolCall r)) (span_status (interrupted b) err c)) i).

(** What [beforeToolCall] decides, with the arguments it leaves; what
    [afterToolCall] overrides. *)
Inductive before_reply := Allow (a : fields) | Block (reason : option string).

Record override := { over_content : option (list block); over_details : value; over_error : option bool }.

Definition or_opt {A} (x y : option A) : option A := match x with Some a => Some a | None => y end.

Inductive stimulus :=
| Started (i : nat)
| NotStarted (i : nat)
| Asked (i : nat) (reply : outcome string before_reply)
| Executed (i : nat) (raw : outcome string value)
| Updated (i : nat) (partialResult : value)
| Hooked (i : nat) (after : outcome string (option override))
| Finished (i : nat) (now : Z)
| Steered (k : nat) (messages : outcome string (list AgentMessage))
| Cleared (k : nat)
| Resumed (i : nat).

Definition step (b : batch) (s : stimulus) : option batch :=
  match s with
  | Started i =>
      match phases b !! i with
      | Some Waiting => if forallb (phase_is is_fulfilled b) (awaited b i) then runTool b i else None
      | _ => None
      end
  | NotStarted i =>
      match phases b !! i with
      | Some Waiting => if existsb (phase_is is_rejected b) (awaited b i) then Some (with_phase b i Rejected) else None
      | _ => None
      end
  | Asked i reply =>
      match phases b !! i, records b !! i with
      | Some (Asking _), Some r =>
          Some match reply with
               | Ok (Allow a) => execute b i r a
               | Ok (Block reason) => throw b i (blocked_text reason) blocked_caught
               | Throw e => throw b i e error_caught
               end
      | _, _ => None
      end
  | Executed i raw =>
      match phases b !! i with
      | Some Executing =>
          Some match raw with
               | Ok v => let '(res, malformed) := coerceToolResult stripANSI v in
                         conclude b i res (malformed || default false (error_of res)) nothing_caught
               | Throw e => throw b i e error_caught
               end
      | _ => None
      end
  | Updated i partialResult =>
      match records b !! i with
      | Some r =>
          a ← onUpdate r;
          Some (push b [tool_execution_update (call_id (toolCall r)) (call_name (toolCall r)) a (coerceToolResult stripANSI partialResult).1])
      | None => None
      end
  | Hooked i after =>
      match phases b !! i with
      | Some (Hooking res err c) =>
          Some match after with
               | Ok (Some o) =>
                   let res' := {| content_of := default (content_of res) (over_content o);
                                  details_of := or_else (over_details o) (details_of res);
                                  error_of := or_opt (over_error o) (error_of res) |} in
                   with_phase b i (Finishing res' (default err (over_error o)) c)
               | Ok None => with_phase b i (Finishing res err c)
               | Throw e => with_phase b i (Finishing (error_result e) true error_caught)
               end
      | _ => None
      end
  | Finished i now =>
      match phases b !! i with
      | Some (Finishing res err c) => finishTool b i res err c now
      | _ => None
      end
  | Steered k messages =>
      match checks b !! k with
      | Some InFlight =>
          let b' := with_checks b (steeringCheck b) (<[k := Answered (match messages with Ok _ => false | Throw _ => true end)]> (checks b)) in
          Some match messages with
               | Ok (m :: ms) => interrupt b' (m :: ms)
               | _ => b'
               end
      | _ => None
      end
  | Cleared k =>
      match checks b !! k with
      | Some (Answered failed) => Some (with_checks b None (<[k := Closed failed]> (checks b)))
      | _ => None
      end
  | Resumed i =>
      match phases b !! i with
      | Some (Steering k) =>
          match checks b !! k with
          | Some (Closed failed) => Some (with_phase b i (if failed then Rejected else Fulfilled))
          | _ => None
          end
      | _ => None
      end
  end.

Definition run (b : batch) (ss : list stimulus) : option batch := foldl (fun o s => o ≫= fun b => step b s) (Some b) ss.
End run.

(** ** The end of a batch *)

(** The records that have no result yet are skipped. *)
Definition sweepOne (now : Z) (b : batch) (i : nat) : batch :=
  match records b !! i with
  | Some r =>
      match toolResultMessage r with
      | Some _ => b
      | None => emitToolResult (with_status (with_record b i (skip r)) (call_id (toolCall r)) "skipped") i createSkippedToolResult true now
      end
  | None => b
  end.

Definition sweep (now : Z) (b : batch) : batch := foldl (sweepOne now) b (seq 0 (length (records b))).

(** The results and the messages of the user that interrupted the batch. *)
Definition returned (b : batch) : list ToolResultMessage * option (list AgentMessage) := (emittedToolResults b, steeringMessages b).

(** [executeToolCalls] once every task has settled. *)
Definition executeToolCalls (now : Z) (b : batch) : option (list ToolResultMessage * option (list AgentMessage)) :=
  if allSettled b then Some (returned (sweep now b)) else None.
