(* ===== verification/ToolBatchRuns.v ===== *)
(** * What a batch of tool calls guarantees

    Every call gets one result whatever its tasks meet; the events are
    bracketed; exclusive tools run alone; a batch ends; nothing runs after an
    interruption, and the messages that interrupted it are handed over. *)

From S2P Require Import Prelude JsNumber JsValue JsonClone AgentTypes ToolBatch.

Local Open Scope string_scope.
Local Open Scope list_scope.

(** ** The life of a task *)

Definition is_running (p : phase) : bool := match p with Asking _ | Executing | Hooking _ _ _ | Finishing _ _ _ => true | _ => false end.

(** How far a task is from its end. *)
Definition rank (p : phase) : nat :=
  match p with Waiting => 8 | Asking _ => 7 | Executing => 6 | Hooking _ _ _ => 5 | Finishing _ _ _ => 4 | Steering _ => 1 | Fulfilled | Rejected => 0 end.

(** What no step of a running task changes in its record. *)
Definition same_life (r r' : call_record) : Prop :=
  toolCall r' = toolCall r /\ tool_of r' = tool_of r /\ started r' = started r /\ resultEmitted r' = resultEmitted r /\ toolResultMessage r' = toolResultMessage r.

(** The record of [r] with the result [res]. *)
Definition emitted_as (r : call_record) (res : tool_result) (err sk : bool) (now : Z) (r' : call_record) : Prop :=
  toolCall r' = toolCall r /\ tool_of r' = tool_of r /\ started r' = started r /\ resultEmitted r' = true /\
  (sk = true -> skipped r' = true) /\ toolResultMessage r' = Some (to_message (toolCall r) res err now).

Definition end_events (c : tool_call) (res : tool_result) (err : bool) (now : Z) : list AgentEvent :=
  let m := to_message c res err now in
  [tool_execution_end (call_id c) (call_name c) res err; message_start (M_toolResult m); message_end (M_toolResult m)].

Inductive task_step (intr : bool) (r : call_record) : phase -> call_record -> phase -> list AgentEvent -> list ToolResultMessage -> list (string * string) -> Prop :=
| T_skip : intr = true -> task_step intr r Waiting (skip r) Fulfilled [] [] []
| T_start r' p' a :
    intr = false -> is_running p' = true -> started r' = true -> resultEmitted r' = resultEmitted r -> toolResultMessage r' = toolResultMessage r ->
    call_id (toolCall r') = call_id (toolCall r) -> call_name (toolCall r') = call_name (toolCall r) ->
    incompleteArguments (toolCall r') = incompleteArguments (toolCall r) -> tool_of r' = tool_of r ->
    task_step intr r Waiting r' p' [tool_execution_start (call_id (toolCall r')) (call_name (toolCall r')) a (intent (toolCall r'))] [] []
| T_reject : task_step intr r Waiting r Rejected [] [] []
| T_run p r' p' : is_running p = true -> is_running p' = true -> rank p' < rank p -> same_life r r' -> task_step intr r p r' p' [] [] []
| T_emit res0 err0 c0 res err now r' p' s :
    (p' = Fulfilled \/ exists k, p' = Steering k) -> emitted_as r res err intr now r' ->
    (if intr then res = createSkippedToolResult /\ err = true else res = res0 /\ err = err0) ->
    task_step intr r (Finishing res0 err0 c0) r' p' (end_events (toolCall r) res err now) [to_message (toolCall r) res err now] [(call_id (toolCall r), s)]
| T_resume k p' : is_settled p' = true -> task_step intr r (Steering k) r p' [] [] [].

(** What a step of a task to [p'] does to the checks of the steering queue. *)
Definition check_step (b : batch) (p' : phase) (cur : option nat) (cs : list check) : Prop :=
  match p' with
  | Steering k =>
      interrupted b = false /\
      ((steeringCheck b = Some k /\ cur = Some k /\ cs = checks b) \/
       (steeringCheck b = None /\ k = length (checks b) /\ cur = Some k /\ cs = checks b ++ [InFlight]))
  | _ => cur = steeringCheck b /\ cs = checks b
  end.

(** A task that starts has waited for those before it. *)
Definition waited (b : batch) (i : nat) (p p' : phase) : Prop :=
  p = Waiting -> p' <> Rejected -> forallb (phase_is is_fulfilled b) (awaited b i) = true.

(** The flag says whether it is an update of a tool that runs. *)
Inductive move (b : batch) : bool -> batch -> Prop :=
| M_task i r p r' p' es ms sts cur cs :
    records b !! i = Some r -> phases b !! i = Some p -> task_step (interrupted b) r p r' p' es ms sts -> check_step b p' cur cs -> waited b i p p' ->
    move b false {| records := <[i := r']> (records b); phases := <[i := p']> (phases b);
              interrupted := interrupted b; steeringMessages := steeringMessages b; steeringCheck := cur; checks := cs;
              emittedToolResults := emittedToolResults b ++ ms; events := events b ++ es; statuses := statuses b ++ sts |}
| M_update x n a res : move b true (push b [tool_execution_update x n a res])
| M_steer k failed : checks b !! k = Some InFlight -> move b false (with_checks b (steeringCheck b) (<[k := Answered failed]> (checks b)))
| M_interrupt k m ms : checks b !! k = Some InFlight -> move b false (interrupt (with_checks b (steeringCheck b) (<[k := Answered false]> (checks b))) (m :: ms))
| M_clear k failed : checks b !! k = Some (Answered failed) -> move b false (with_checks b None (<[k := Closed failed]> (checks b))).

(** A record at each phase of its task. *)
Definition life (r : call_record) (p : phase) : Prop :=
  match p with
  | Waiting => started r = false /\ resultEmitted r = false
  | Asking _ | Executing | Hooking _ _ _ | Finishing _ _ _ => started r = true /\ resultEmitted r = false
  | Steering _ => started r = true /\ resultEmitted r = true
  | Fulfilled | Rejected => resultEmitted r = started r
  end /\
  match toolResultMessage r with
  | Some m => resultEmitted r = true /\ toolCallId m = call_id (toolCall r) /\ toolName m = call_name (toolCall r)
  | None => resultEmitted r = false
  end.

Lemma same_life_refl r : same_life r r.
Proof. by repeat split. Qed.

Section moves.
Context (cfg : config) (tools : list tool) (stripANSI : string -> string).
Local Notation step := (step cfg tools stripANSI).

(** A move of one task that checks nothing. *)
Lemma move_task b i r p r' p' es ms sts b' :
  records b !! i = Some r -> phases b !! i = Some p -> task_step (interrupted b) r p r' p' es ms sts ->
  (match p' with Steering _ => False | _ => True end) -> waited b i p p' ->
  b' = {| records := <[i := r']> (records b); phases := <[i := p']> (phases b);
          interrupted := interrupted b; steeringMessages := steeringMessages b; steeringCheck := steeringCheck b; checks := checks b;
          emittedToolResults := emittedToolResults b ++ ms; events := events b ++ es; statuses := statuses b ++ sts |} -> move b false b'.
Proof. intros Hr Hp Ht Hn Hw ->. eapply M_task; [done..| |done]. by destruct p'. Qed.

Lemma insert_same {A} (l : list A) i x : l !! i = Some x -> <[i := x]> l = l.
Proof. apply list_insert_id. Qed.

Definition mid (b : batch) (i : nat) (r : call_record) (p : phase) (es : list AgentEvent) : batch := {|
  records := <[i := r]> (records b); phases := <[i := p]> (phases b);
  interrupted := interrupted b; steeringMessages := steeringMessages b; steeringCheck := steeringCheck b; checks := checks b;
  emittedToolResults := emittedToolResults b ++ []; events := events b ++ es; statuses := statuses b ++ [] |}.

(** [execute] and [throw] leave a task running, with the record of its call. *)
Lemma throw_mid b i r msg c : records b !! i = Some r -> exists p, is_running p = true /\ rank p <= 5 /\ throw cfg b i msg c = mid b i r p [].
Proof.
  intros Hr. unfold throw, conclude, mid, with_phase. rewrite (insert_same (records b) i r Hr), !app_nil_r.
  destruct (has_after cfg); (eexists; split; [|split; [|done]]; cbn; auto with arith).
Qed.

Lemma execute_mid b i r0 r a : records b !! i = Some r0 -> exists r' p, is_running p = true /\ rank p <= 6 /\ same_life r r' /\ execute cfg b i r a = mid b i r' p [].
Proof.
  intros Hr. unfold execute, throw, conclude, mid, with_phase, with_record. cbn. rewrite !app_nil_r, ?list_insert_insert_eq.
  repeat case_match; eexists _, _; (split; [|split; [|split; [|done]]]); try done; try (cbn; lia); by repeat split.
Qed.

(** A task that is started, one that answers a hook, one that ends. *)
Lemma start_move b i b' :
  forallb (phase_is is_fulfilled b) (awaited b i) = true -> phases b !! i = Some Waiting -> runTool cfg tools b i = Some b' -> move b false b'.
Proof.
  intros Hw Hp. unfold runTool. destruct (records b !! i) as [r|] eqn:Hr; [|done]. cbn [mbind option_bind]. destruct (interrupted b) eqn:Hi.
  - intros [= <-]. eapply (move_task b i r Waiting (skip r) Fulfilled [] [] []); [done..|rewrite Hi; by apply T_skip|done|by intros _ _|].
    unfold with_phase, with_record. cbn. by rewrite !app_nil_r, Hi.
  - destruct (trace_intent cfg r) as [c a] eqn:Ht.
    assert (Hc : call_id c = call_id (toolCall r) /\ call_name c = call_name (toolCall r) /\ incompleteArguments c = incompleteArguments (toolCall r)).
    { unfold trace_intent in Ht. destruct (intentTracing cfg); [destruct (extractIntent _)|]; by simplify_eq/=. }
    destruct Hc as (Hc1 & Hc2 & Hc3). intros [= <-].
    set (r1 := {| toolCall := c; tool_of := tool_of r; args := a; started := true; skipped := skipped r; result := result r; isError := isError r;
      toolResultMessage := toolResultMessage r; resultEmitted := resultEmitted r; onUpdate := onUpdate r |}).
    set (b1 := push (with_record b i r1) _).
    assert (Hr1 : records b1 !! i = Some r1) by (cbn; apply list_lookup_insert_eq; by eapply lookup_lt_Some).
    match goal with |- move b _ ?e => set (e' := e) end.
    enough (exists r' p, is_running p = true /\ same_life r1 r' /\ e' = mid b1 i r' p []) as (r' & p & Hp' & (HtC & HtO & HtS & HtE & HtM) & ->).
    { eapply (move_task b i r Waiting r' p [_] [] []); [done..|rewrite Hi; apply (T_start false r r' p a); rewrite ?HtC; done|by destruct p|by intros _ _|].
      unfold mid, b1, push, with_record. cbn. by rewrite HtC, Hi, !app_nil_r, list_insert_insert_eq. }
    assert (Hthrow : forall msg k, exists r' p, is_running p = true /\ same_life r1 r' /\ throw cfg b1 i msg k = mid b1 i r' p []).
    { intros msg k. destruct (throw_mid b1 i r1 msg k Hr1) as (p & ? & _ & ?). by exists r1, p. }
    assert (Hgo : forall args, exists r' p, is_running p = true /\ same_life r1 r' /\
      (if has_before cfg then with_phase b1 i (Asking args) else execute cfg b1 i r1 args) = mid b1 i r' p []).
    { intros args. destruct (has_before cfg); [|destruct (execute_mid b1 i r1 r1 args Hr1) as (r' & p & ? & _ & ? & ?); by exists r', p]. exists r1, (Asking args). split; [done|split; [done|]].
      unfold mid, with_phase. by rewrite (insert_same (records b1) i r1 Hr1), !app_nil_r. }
    subst e'. change (tool_of r1) with (tool_of r). destruct (incompleteArguments c); [done|]. destruct (tool_of r) as [t|]; [|done].
    destruct (validate t a); [done|]. by destruct (lenientArgValidation t).
Qed.

Lemma running_move b i r p b' :
  records b !! i = Some r -> phases b !! i = Some p -> is_running p = true ->
  (exists r' p', is_running p' = true /\ rank p' < rank p /\ same_life r r' /\ b' = mid b i r' p' []) -> move b false b'.
Proof.
  intros Hr Hp Hrun (r' & p' & Hp' & Hk & Hl & ->). eapply (move_task b i r p r' p' [] [] []); [done..|by apply T_run|by destruct p'|by intros ->|done].
Qed.

Lemma emit_fields b i r res err now :
  records b !! i = Some r -> resultEmitted r = false -> started r = true ->
  exists r', emitted_as r res err (skipped r) now r' /\
  emitToolResult b i res err now = {| records := <[i := r']> (records b); phases := phases b;
    interrupted := interrupted b; steeringMessages := steeringMessages b; steeringCheck := steeringCheck b; checks := checks b;
    emittedToolResults := emittedToolResults b ++ [to_message (toolCall r) res err now];
    events := events b ++ end_events (toolCall r) res err now; statuses := statuses b |}.
Proof.
  intros Hr He Hs. unfold emitToolResult. rewrite Hr, He, Hs. eexists. split; [|reflexivity]. by repeat split.
Qed.

Lemma finish_move b i res err c now b' :
  (forall r, records b !! i = Some r -> started r = true /\ resultEmitted r = false) ->
  phases b !! i = Some (Finishing res err c) -> finishTool cfg b i res err c now = Some b' -> move b false b'.
Proof.
  intros Hlife Hp. unfold finishTool. destruct (records b !! i) as [r|] eqn:Hr; [|done]. cbn [mbind option_bind]. intros [= <-].
  destruct (Hlife r eq_refl) as [Hs He].
  set (st := span_status _ _ _). set (res' := if interrupted b then createSkippedToolResult else res). set (err' := if interrupted b then true else err).
  assert (exists r', emitted_as r res' err' (interrupted b) now r' /\
    (if interrupted b then emitToolResult (with_record b i (skip r)) i createSkippedToolResult true now else emitToolResult b i res err now)
    = {| records := <[i := r']> (records b); phases := phases b;
         interrupted := interrupted b; steeringMessages := steeringMessages b; steeringCheck := steeringCheck b; checks := checks b;
         emittedToolResults := emittedToolResults b ++ [to_message (toolCall r) res' err' now];
         events := events b ++ end_events (toolCall r) res' err' now; statuses := statuses b |}) as (r' & Hem & ->).
  { subst res' err'. destruct (interrupted b) eqn:Hi.
    - destruct (emit_fields (with_record b i (skip r)) i (skip r) createSkippedToolResult true now) as (r' & Hem & ->); [|done..|].
      { cbn. apply list_lookup_insert_eq. by eapply lookup_lt_Some. }
      exists r'. split; [done|]. cbn. by rewrite list_insert_insert_eq, Hi.
    - destruct (emit_fields b i r res err now Hr He Hs) as (r' & (? & ? & ? & ? & _ & ?) & ->). exists r'. split; [by repeat split|]. by rewrite Hi. }
  assert (Hstep : forall p', p' = Fulfilled \/ (exists k, p' = Steering k) ->
    task_step (interrupted b) r (Finishing res err c) r' p' (end_events (toolCall r) res' err' now) [to_message (toolCall r) res' err' now] [(call_id (toolCall r), st)]).
  { intros p' Hp'. apply T_emit; [done..|]. subst res' err'. by destruct (interrupted b). }
  unfold checkSteering. cbn. destruct (negb (immediate cfg) || negb (has_steering cfg) || interrupted b) eqn:Hquiet.
  { by apply (M_task b i r _ r' Fulfilled _ _ _ (steeringCheck b) (checks b) Hr Hp (Hstep _ (or_introl eq_refl)) (conj eq_refl eq_refl)). }
  apply orb_false_iff in Hquiet as [_ Hi]. destruct (steeringCheck b) as [k|] eqn:Hk.
  - apply (M_task b i r _ r' (Steering k) _ _ _ (Some k) (checks b) Hr Hp); [apply Hstep; right; by eexists| |by intros E]. split; [done|]. by left.
  - apply (M_task b i r _ r' (Steering (length (checks b))) _ _ _ (Some _) (checks b ++ [InFlight]) Hr Hp); [apply Hstep; right; by eexists| |by intros E].
    split; [done|]. by right.
Qed.

Definition is_update (s : stimulus) : bool := match s with Updated _ _ => true | _ => false end.

Lemma step_move b s b' : Forall2 life (records b) (phases b) -> step b s = Some b' -> move b (is_update s) b'.
Proof.
  intros Hlife. assert (Hrec : forall i p, phases b !! i = Some p -> exists r, records b !! i = Some r /\ life r p).
  { intros i p Hp. destruct (Forall2_lookup_r _ _ _ _ _ Hlife Hp) as (r & ? & ?). by exists r. }
  assert (Hmid : forall i p p' b', phases b !! i = Some p -> is_running p = true -> is_running p' = true -> rank p' < rank p -> b' = with_phase b i p' -> move b false b').
  { intros i p p' b2 Hp Hrun Hp' Hk ->. destruct (Hrec i p Hp) as (r & Hr & _). eapply running_move; [done..|]. exists r, p'.
    split; [done|split; [done|split; [by apply same_life_refl|]]]. unfold mid, with_phase. by rewrite (insert_same (records b) i r Hr), !app_nil_r. }
  assert (Hconclude : forall i p res err c, phases b !! i = Some p -> is_running p = true -> 5 < rank p -> move b false (conclude cfg b i res err c)).
  { intros i p res err c Hp Hrun Hk. eapply Hmid; [done..| | |done]; destruct (has_after cfg); cbn; done || lia. }
  destruct s as [i|i|i reply|i raw|i part|i after|i now|k msgs|k|i]; cbn [ToolBatch.step is_update]; intros H.
  - destruct (phases b !! i) as [[]|] eqn:Hp; try done. destruct (forallb _ _) eqn:Hw; [|done]. by eapply start_move.
  - destruct (phases b !! i) as [[]|] eqn:Hp; try done. destruct (existsb _ _); [|done]. injection H as <-. destruct (Hrec i _ Hp) as (r & Hr & _).
    eapply (move_task b i r Waiting r Rejected [] [] []); [done..|apply T_reject|done|by intros _ []|]. unfold with_phase. by rewrite (insert_same (records b) i r Hr), !app_nil_r.
  - destruct (phases b !! i) as [[]|] eqn:Hp; try done. destruct (records b !! i) as [r|] eqn:Hr; [|done]. injection H as <-.
    destruct reply as [[a'|reason]|e]; [|by eapply Hconclude; [done..|cbn; lia]..]. eapply running_move; [done..|].
    destruct (execute_mid b i r r a' Hr) as (r' & p & ? & Hk & ? & ?). exists r', p. split_and!; [done|cbn; lia|done..].
  - destruct (phases b !! i) as [[]|] eqn:Hp; try done. injection H as <-. destruct raw as [v|e]; [|by eapply Hconclude; [done..|cbn; lia]].
    destruct (coerceToolResult stripANSI v) as [res malformed]. eapply Hconclude; [done..|cbn; lia].
  - destruct (records b !! i) as [r|] eqn:Hr; [|done]. destruct (onUpdate r); [|done]. injection H as <-. constructor.
  - destruct (phases b !! i) as [[]|] eqn:Hp; try done. injection H as <-. destruct after as [[o|]|e]; (eapply Hmid; [done..| | |done]; cbn; done || lia).
  - destruct (phases b !! i) as [[]|] eqn:Hp; try done. eapply finish_move; [|done..]. intros r0 Hr. destruct (Hrec i _ Hp) as (r1 & Hr1 & [Hl _]). congruence.
  - destruct (checks b !! k) as [[]|] eqn:Hk; try done. injection H as <-. destruct msgs as [[|m ms]|e]; [by apply M_steer|by apply (M_interrupt b k)|by apply M_steer].
  - destruct (checks b !! k) as [[]|] eqn:Hk; try done. injection H as <-. by apply M_clear.
  - destruct (phases b !! i) as [[]|] eqn:Hp; try done. destruct (checks b !! _) as [[]|] eqn:Hk; try done. injection H as <-. destruct (Hrec i _ Hp) as (r & Hr & _).
    eapply (move_task b i r (Steering k) r (if failed then Rejected else Fulfilled) [] [] []); [done..|apply T_resume; by destruct failed|by destruct failed|by intros E|].
    unfold with_phase. by rewrite (insert_same (records b) i r Hr), !app_nil_r.
Qed.
End moves.

(** ** Results and events *)

(** Every [tool_execution_end] closes a [tool_execution_start] of its call
    that is still open. *)
Fixpoint remove_one (x : string) (l : list string) : option (list string) :=
  match l with
  | [] => None
  | y :: l => if decide (y = x) then Some l else cons y <$> remove_one x l
  end.

Definition bracket (o : option (list string)) (e : AgentEvent) : option (list string) :=
  l ← o;
  match e with
  | tool_execution_start x _ _ _ => Some (x :: l)
  | tool_execution_end x _ _ _ => remove_one x l
  | _ => Some l
  end.

Definition open_calls (es : list AgentEvent) : option (list string) := foldl bracket (Some []) es.

Lemma open_calls_app es es' : open_calls (es ++ es') = foldl bracket (open_calls es) es'.
Proof. apply foldl_app. Qed.

Lemma remove_one_spec x l : x ∈ l -> exists l', remove_one x l = Some l' /\ l ≡ₚ x :: l'.
Proof.
  induction l as [|y l IH]; intros H; [by apply not_elem_of_nil in H|]. cbn. case_decide as E.
  - exists l. by subst.
  - apply elem_of_cons in H as [H|H]; [congruence|]. destruct (IH H) as (l' & -> & Hl). exists (y :: l'). split; [done|]. rewrite Hl. constructor.
Qed.

Lemma omap_insert {A B} (f : A -> option B) l i x :
  l !! i = Some x -> exists rest, omap f l ≡ₚ option_list (f x) ++ rest /\ forall y, omap f (<[i := y]> l) ≡ₚ option_list (f y) ++ rest.
Proof.
  intros Hx. exists (omap f (take i l) ++ omap f (drop (S i) l)).
  assert (H : forall y, omap f (<[i := y]> l) ≡ₚ option_list (f y) ++ omap f (take i l) ++ omap f (drop (S i) l)).
  { intros y. rewrite insert_take_drop by (by eapply lookup_lt_Some). rewrite omap_app. cbn. destruct (f y); cbn; [|done].
    by rewrite Permutation_middle. }
  split; [|exact H]. rewrite <- (insert_same l i x Hx) at 1. apply H.
Qed.

(** A record keeps the name of its call. *)
Definition matched (tools : list tool) (c : tool_call) (r : call_record) : Prop :=
  call_id (toolCall r) = call_id c /\ call_name (toolCall r) = call_name c /\
  incompleteArguments (toolCall r) = incompleteArguments c /\ tool_of r = find_tool tools (call_name c).

Definition in_flight (r : call_record) : option string := if started r && negb (resultEmitted r) then Some (call_id (toolCall r)) else None.

Record accounted (tools : list tool) (calls : list tool_call) (b : batch) : Prop := {
  ok_calls : Forall2 (matched tools) calls (records b);
  ok_results : emittedToolResults b ≡ₚ omap toolResultMessage (records b);
  ok_events : exists o, open_calls (events b) = Some o /\ o ≡ₚ omap in_flight (records b);
  ok_statuses : (statuses b).*1 = toolCallId <$> emittedToolResults b
}.

(** What one record changes, and what that adds to the results and events. *)
Lemma accounted_step tools calls b b' i r r' es ms sts :
  accounted tools calls b -> records b !! i = Some r -> records b' = <[i := r']> (records b) ->
  emittedToolResults b' = emittedToolResults b ++ ms -> events b' = events b ++ es -> statuses b' = statuses b ++ sts ->
  toolCall r' = toolCall r \/ (call_id (toolCall r') = call_id (toolCall r) /\ call_name (toolCall r') = call_name (toolCall r) /\
    incompleteArguments (toolCall r') = incompleteArguments (toolCall r)) ->
  tool_of r' = tool_of r ->
  option_list (toolResultMessage r') ≡ₚ option_list (toolResultMessage r) ++ ms ->
  (forall o rest, o ≡ₚ option_list (in_flight r) ++ rest -> exists o', foldl bracket (Some o) es = Some o' /\ o' ≡ₚ option_list (in_flight r') ++ rest) ->
  sts.*1 = toolCallId <$> ms ->
  accounted tools calls b'.
Proof.
  intros [Hc Hres (o & Ho & Hperm) Hst] Hr Hrs Hms Hes Hsts Hcall Htool Hmsg Hbr Hs. split; rewrite ?Hrs.
  - destruct (Forall2_lookup_r _ _ _ _ _ Hc Hr) as (c & Hi & H1 & H2 & H3 & H4). rewrite <- (insert_same calls i c Hi). apply Forall2_insert; [done|].
    unfold matched. rewrite Htool. destruct Hcall as [->|(-> & -> & ->)]; done.
  - rewrite Hms, Hres. destruct (omap_insert toolResultMessage _ _ _ Hr) as (rest & -> & ->). rewrite Hmsg. rewrite <- !app_assoc. f_equiv. apply Permutation_app_comm.
  - rewrite Hes, open_calls_app, Ho. destruct (omap_insert in_flight _ _ _ Hr) as (rest & Hrest & Hins).
    destruct (Hbr o rest) as (o' & -> & Ho'); [by rewrite Hperm|]. exists o'. by rewrite Hins.
  - by rewrite Hms, Hsts, !fmap_app, Hst, Hs.
Qed.

Lemma bracket_end c res err now o x rest :
  o ≡ₚ x :: rest -> x = call_id c -> exists o', foldl bracket (Some o) (end_events c res err now) = Some o' /\ o' ≡ₚ rest.
Proof.
  intros Ho ->. destruct (remove_one_spec (call_id c) o) as (o' & E & Ho'); [rewrite Ho; by left|].
  exists o'. split; [cbn; by rewrite E|]. apply (Permutation_cons_inv (a := call_id c)). by rewrite <- Ho', Ho.
Qed.

Lemma accounted_move tools calls b u b' :
  accounted tools calls b -> Forall2 life (records b) (phases b) -> move b u b' -> accounted tools calls b' /\ Forall2 life (records b') (phases b').
Proof.
  intros Ha Hlife Hm. destruct Hm as [i r p r' p' es ms sts cur cs Hr Hp Ht Hck _|x n a res|k failed Hk|k m ms Hk|k failed Hk].
  2-5: (split; [|exact Hlife]; destruct Ha as [H1 H2 (o & H3 & H4) H5]; split; [done|done| |done]; exists o; cbn; rewrite ?open_calls_app, ?H3; done).
  assert (Hl : life r p) by (eapply Forall2_lookup_lr; eassumption).
  assert (Hlife' : life r' p' -> Forall2 life (<[i := r']> (records b)) (<[i := p']> (phases b))) by (intros ?; by apply Forall2_insert).
  destruct Hl as [Hl Hmsg]. revert Hlife'. cbn [records phases].
  destruct Ht as [Hi|r' p' a Hi Hrun Hs He Hm Hci Hcn Hinc Hto| |p r' p' Hrun Hrun' _ (Hcl & Hto & Hs & He & Hm)|res0 err0 c0 res err now r' p' s Hp' (Hcl & Hto & Hs & He & _ & Hm) Hres|k p' Hset]; intros Hlife'; (split; [|apply Hlife']).
  - eapply (accounted_step _ _ _ _ i r (skip r) [] [] []); [done..|by left|done|by rewrite app_nil_r| |done]. intros o rest Ho. by exists o.
  - split; [cbn; by destruct Hl as [-> ->]|done].
  - eapply (accounted_step _ _ _ _ i r r' _ [] []); [done..|by right|done|by rewrite Hm, app_nil_r| |done]. intros o rest Ho. eexists. split; [done|].
    destruct Hl as [Hl1 Hl2]. unfold in_flight in *. rewrite Hs, He, Hl1, Hl2, Hci in *. cbn in *. by rewrite Ho.
  - destruct Hl as [Hl1 Hl2]. split; [|by rewrite Hm, He, Hci, Hcn]. by destruct p'; rewrite ?Hs, ?He.
  - eapply (accounted_step _ _ _ _ i r r [] [] []); [done..|by left|done|by rewrite app_nil_r| |done]. intros o rest Ho. by exists o.
  - split; [|done]. destruct Hl as [-> ->]. done.
  - eapply (accounted_step _ _ _ _ i r r' [] [] []); [done..|by left|done|by rewrite Hm, app_nil_r| |done]. intros o rest Ho. exists o. unfold in_flight in *. by rewrite Hs, He, Hcl.
  - split; [|by rewrite Hm, He, Hcl]. by destruct p, p'; rewrite ?Hs, ?He.
  - destruct Hl as [Hl1 Hl2]. eapply (accounted_step _ _ _ _ i r r' _ _ _); [done..|by left|done| | |done].
    + rewrite Hm. rewrite Hl2 in Hmsg. destruct (toolResultMessage r); [by destruct Hmsg|done].
    + intros o rest Ho. unfold in_flight in *. rewrite Hs, He, Hl1, Hl2 in *. eapply bracket_end; [exact Ho|done].
  - unfold life. rewrite Hm, He, Hcl. split; [|done]. destruct Hl as [Hl1 Hl2]. destruct Hp' as [->|[k ->]]; rewrite Hs, Hl1; done.
  - eapply (accounted_step _ _ _ _ i r r [] [] []); [done..|by left|done|by rewrite app_nil_r| |done]. intros o rest Ho. by exists o.
  - split; [|done]. destruct Hl as [Hl1 Hl2]. by destruct p'; rewrite ?Hl1, ?Hl2.
Qed.

Lemma omap_made {B} (f : call_record -> option B) tools calls :
  (forall c, f (makeRecord tools c) = None) -> omap f (makeRecord tools <$> calls) = [].
Proof. intros Hf. induction calls as [|c cs IH]; [done|]. cbn. by rewrite Hf. Qed.

Lemma accounted_start tools calls : accounted tools calls (startBatch tools calls) /\ Forall2 life (records (startBatch tools calls)) (phases (startBatch tools calls)).
Proof.
  split; [split|]; cbn.
  - induction calls as [|c cs IH]; [constructor|]. cbn. constructor; [done|]. apply IH.
  - by rewrite omap_made.
  - exists []. by rewrite omap_made.
  - done.
  - induction calls as [|c cs IH]; [constructor|]. cbn. constructor; [done|]. apply IH.
Qed.

Section runs.
Context (cfg : config) (tools : list tool) (stripANSI : string -> string).
Local Notation step := (step cfg tools stripANSI).
Local Notation run := (run cfg tools stripANSI).

Lemma run_app b ss ss' : run b (ss ++ ss') = run b ss ≫= fun b' => run b' ss'.
Proof.
  unfold ToolBatch.run. rewrite foldl_app. destruct (foldl _ (Some b) ss) as [b'|]; [done|]. cbn. by induction ss'.
Qed.

(** What every step keeps holds all along. *)
Lemma run_invariant (P : batch -> Prop) b ss b' :
  (forall b s b', P b -> step b s = Some b' -> P b') -> run b ss = Some b' -> P b -> P b'.
Proof.
  intros Hstep. revert b'. induction ss as [|s ss IH] using rev_ind; intros b' Hrun Hb; [by injection Hrun as <-|].
  rewrite run_app in Hrun. destruct (run b ss) as [b1|] eqn:E; [|done]. cbn in Hrun. eapply Hstep; [|exact Hrun]. by eapply IH.
Qed.

Lemma run_accounted calls ss b : run (startBatch tools calls) ss = Some b -> accounted tools calls b /\ Forall2 life (records b) (phases b).
Proof.
  intros Hrun. eapply (run_invariant (fun b => accounted tools calls b /\ Forall2 life (records b) (phases b))); [|exact Hrun|by apply accounted_start].
  intros b1 s b2 [Ha Hl] Hs. eapply accounted_move; [done..|]. by eapply step_move.
Qed.
End runs.

(** ** The end of a batch *)

(** A record of a task that has settled. *)
Definition tidy (r : call_record) : Prop :=
  (started r = true -> resultEmitted r = true) /\
  match toolResultMessage r with
  | Some m => resultEmitted r = true /\ toolCallId m = call_id (toolCall r) /\ toolName m = call_name (toolCall r)
  | None => resultEmitted r = false
  end.

Lemma settled_tidy b : Forall2 life (records b) (phases b) -> allSettled b = true -> Forall tidy (records b).
Proof.
  intros Hl Hs. apply forallb_Forall in Hs. apply Forall_lookup. intros i r Hr. destruct (Forall2_lookup_l _ _ _ _ _ Hl Hr) as (p & Hp & H1 & H2).
  rewrite Forall_lookup in Hs. specialize (Hs i p Hp). split; [|done]. intros Hst. destruct p; try done; congruence.
Qed.

Definition is_answered (r : call_record) : Prop := is_Some (toolResultMessage r).

Record swept (tools : list tool) (calls : list tool_call) (n : nat) (b : batch) : Prop := {
  sw_accounted : accounted tools calls b;
  sw_tidy : Forall tidy (records b);
  sw_done : Forall is_answered (take n (records b))
}.

Lemma swept_one tools calls now b i : swept tools calls i b -> i < length (records b) -> swept tools calls (S i) (sweepOne now b i) /\ length (records (sweepOne now b i)) = length (records b).
Proof.
  intros [Ha Ht Hd] Hi. destruct (lookup_lt_is_Some_2 (records b) i Hi) as [r Hr]. unfold sweepOne. rewrite Hr.
  assert (Htr : tidy r) by (by eapply Forall_lookup_1). destruct Htr as [Hst Hmsg]. destruct (toolResultMessage r) as [m|] eqn:Em.
  { split; [|done]. split; [done..|]. erewrite take_S_r by done. apply Forall_app. split; [done|]. constructor; [by eexists|done]. }
  assert (Hs : started r = false) by (destruct (started r); [specialize (Hst eq_refl); congruence|done]).
  set (b1 := with_status _ _ _). set (res := createSkippedToolResult). set (m := to_message (toolCall r) res true now).
  set (r' := {| toolCall := toolCall r; tool_of := tool_of r; args := args r; started := started r; skipped := true; result := Some res;
    isError := true; toolResultMessage := Some m; resultEmitted := true; onUpdate := onUpdate r |}).
  assert (E : emitToolResult b1 i res true now = {| records := <[i := r']> (records b); phases := phases b;
    interrupted := interrupted b; steeringMessages := steeringMessages b; steeringCheck := steeringCheck b; checks := checks b;
    emittedToolResults := emittedToolResults b ++ [m];
    events := events b ++ tool_execution_start (call_id (toolCall r)) (call_name (toolCall r)) (args r) (intent (toolCall r)) :: end_events (toolCall r) res true now;
    statuses := statuses b ++ [(call_id (toolCall r), "skipped")] |}).
  { unfold emitToolResult, b1. cbn. rewrite list_lookup_insert_eq by done. cbn. rewrite Hmsg, Hs. unfold r'. by rewrite list_insert_insert_eq, Hs. }
  rewrite E. split; [|cbn; by rewrite length_insert]. split; cbn.
  - eapply (accounted_step _ _ b _ i r r' _ _ _); [done..|by left|done|by rewrite Em| |done].
    intros o rest Ho. unfold in_flight in *. cbn in *. rewrite Hs in *. cbn in *. case_decide; [|done]. by exists o.
  - apply Forall_insert; [done|]. split; [done|]. done.
  - rewrite (take_S_r _ i r') by (by apply list_lookup_insert_eq). rewrite take_insert_ge by lia. apply Forall_app. split; [done|]. constructor; [by eexists|done].
Qed.

Lemma sweep_swept tools calls now b :
  accounted tools calls b -> Forall tidy (records b) -> swept tools calls (length (records b)) (sweep now b) /\ length (records (sweep now b)) = length (records b).
Proof.
  intros Ha Ht. unfold sweep. assert (H : forall n, n <= length (records b) ->
    swept tools calls n (foldl (sweepOne now) b (seq 0 n)) /\ length (records (foldl (sweepOne now) b (seq 0 n))) = length (records b)); [|by apply H].
  induction n as [|n IH]; intros Hn; [split; [by split|done]|]. rewrite seq_S, foldl_app. cbn. destruct (IH ltac:(lia)) as [Hs Hl].
  destruct (swept_one tools calls now _ n Hs) as [H1 H2]; [lia|]. split; [done|]. by rewrite H2.
Qed.

Lemma answered_results tools calls b :
  accounted tools calls b -> Forall tidy (records b) -> Forall is_answered (records b) ->
  ((fun m => (toolCallId m, toolName m)) <$> emittedToolResults b) ≡ₚ ((fun c => (call_id c, call_name c)) <$> calls) /\
  open_calls (events b) = Some [].
Proof.
  intros [Hc Hres (o & Ho & Hperm) _] Ht Ha. split.
  - rewrite Hres. apply reflexive_eq. clear Hres Hperm. revert Hc Ht Ha. generalize (records b). intros rs Hc. induction Hc as [|c r cs rs (H1 & H2 & _) Hc IH]; [done|].
    intros [[_ Hm] Ht]%Forall_cons [[m Em] Ha]%Forall_cons. rewrite Em in Hm. cbn. rewrite Em. cbn. rewrite IH by done. destruct Hm as (_ & -> & ->). by rewrite H1, H2.
  - rewrite Ho. f_equal. apply Permutation_nil_r. rewrite Hperm. apply reflexive_eq. revert Ht Ha. generalize (records b). intros rs. clear. induction rs as [|r rs IH]; [done|].
    intros [[_ Hm] Ht]%Forall_cons [[m Em] Ha]%Forall_cons. rewrite Em in Hm. cbn. unfold in_flight at 1. destruct Hm as [-> _]. rewrite andb_false_r. by apply IH.
Qed.

Lemma batch_results cfg tools stripANSI calls ss b now results steering :
  run cfg tools stripANSI (startBatch tools calls) ss = Some b -> executeToolCalls now b = Some (results, steering) ->
  ((fun m => (toolCallId m, toolName m)) <$> results) ≡ₚ ((fun c => (call_id c, call_name c)) <$> calls) /\
  open_calls (events (sweep now b)) = Some [] /\ (statuses (sweep now b)).*1 = toolCallId <$> results.
Proof.
  intros Hrun Hex. destruct (run_accounted _ _ _ _ _ _ Hrun) as [Ha Hl]. unfold executeToolCalls in Hex. destruct (allSettled b) eqn:Hs; [|done].
  injection Hex as <- _. destruct (sweep_swept tools calls now b Ha (settled_tidy _ Hl Hs)) as [[Ha' Ht' Hd'] Hlen]. rewrite <- Hlen, firstn_all in Hd'.
  destruct (answered_results _ _ _ Ha' Ht' Hd') as [H1 H2]. split; [exact H1|]. split; [exact H2|apply Ha'].
Qed.

(** C2.  Every call of a batch gets one result whatever its tools, its hooks
    and the user do - cut off, unknown, refused, blocked, failing, interrupted
    or never started; each start of a call is closed by one end, and the
    telemetry has one status for each result. *)
Theorem every_call_is_answered cfg tools stripANSI calls ss b now results steering :
  run cfg tools stripANSI (startBatch tools calls) ss = Some b -> executeToolCalls now b = Some (results, steering) ->
  ((fun m => (toolCallId m, toolName m)) <$> results) ≡ₚ ((fun c => (call_id c, call_name c)) <$> calls) /\
  open_calls (events (sweep now b)) = Some [] /\ (statuses (sweep now b)).*1 = toolCallId <$> results.
Proof. apply batch_results. Qed.

(** ** A batch that is interrupted

    A shared tool finishes while the user has queued a message; an unknown
    tool is answered at once; an exclusive one is not started any more. *)
Definition plain_tool (name : string) (alone : bool) : tool :=
  {| tool_name := name; customWireName := None; exclusive := alone; lenientArgValidation := false; validate := Ok; derive_intent := None |}.
Definition plain_call (x name : string) : tool_call := {| call_id := x; call_name := name; arguments := []; incompleteArguments := false; intent := None |}.
Definition plain_config : config := {|
  immediate := true; has_steering := true; intentTracing := false; has_before := false; has_after := false;
  getToolContext := fun _ => Ok tt; transformToolCallArguments := fun a _ => Ok a |}.
Definition plain_tools : list tool := [plain_tool "read" false; plain_tool "write" true].
Definition plain_calls : list tool_call := [plain_call "a" "read"; plain_call "b" "none"; plain_call "c" "read"; plain_call "d" "write"].
Definition hello : AgentMessage := M_other "user" (string_body "stop").
Definition done_value : value := V_obj [("content", V_list [V_obj [("type", V_str "text"); ("text", V_str "done")] None])] None.

Definition interruption : list stimulus :=
  [Started 0; Started 1; Started 2; Finished 1 1; Executed 0 (Ok done_value); Steered 0 (Ok [hello]); Finished 0 2; Updated 2 done_value;
   Executed 2 (Throw "aborted"); Finished 2 3; Cleared 0; Resumed 1; Started 3].

Definition plain_run : option batch := run plain_config plain_tools id (startBatch plain_tools plain_calls) interruption.

Lemma every_call_is_answered_witness : exists b results steering,
  plain_run = Some b /\ executeToolCalls 4 b = Some (results, steering) /\
  ((fun m => (toolCallId m, toolName m)) <$> results) ≡ₚ [("a", "read"); ("b", "none"); ("c", "read"); ("d", "write")] /\ steering = Some [hello].
Proof.
  eexists _, _, _. split; [vm_compute; reflexivity|]. split; [vm_compute; reflexivity|]. split; [|reflexivity].
  refine (proj1 (every_call_is_answered plain_config plain_tools id plain_calls interruption _ 4 _ _ _ _)); vm_compute; reflexivity.
Defined.
