(* ===== verification/ToolBatchSchedule.v ===== *)
(** * When the tools of a batch run

    An exclusive tool runs alone; a batch ends after a bounded number of
    stimuli and always has one left; nothing starts after an interruption and
    the messages of the user are handed over. *)

From S2P Require Import Prelude JsNumber JsValue JsonClone AgentTypes ToolBatch ToolBatchRuns.

Local Open Scope string_scope.
Local Open Scope list_scope.

(** ** The barriers of exclusive tools *)

Definition exclusive_at (rs : list call_record) (i : nat) : Prop := exists r, rs !! i = Some r /\ is_exclusive r = true.
Definition conflict (rs : list call_record) (i j : nat) : Prop := exclusive_at rs i \/ exclusive_at rs j.

Definition last_list (last : option nat) : list nat := match last with Some k => [k] | None => [] end.

(** The loop's variables before the task [index]: no exclusive task follows
    the last one, and the shared ones that do are listed. *)
Definition scheduled (rs : list call_record) (index : nat) (last : option nat) (shared : list nat) : Prop :=
  (forall e, last = Some e -> e < index /\ exclusive_at rs e) /\
  (forall i, i < index -> exclusive_at rs i -> exists e, last = Some e /\ i <= e) /\
  (forall i, i < index -> i ∈ shared \/ exists e, last = Some e /\ i <= e).

Lemma schedule_cons r rs index last shared :
  exists last' shared', schedule index last shared (r :: rs)
    = (if is_exclusive r then last_list last ++ shared else last_list last) :: schedule (S index) last' shared' rs /\
  (last', shared') = (if is_exclusive r then (Some index, []) else (last, shared ++ [index])).
Proof. cbn [schedule]. destruct (is_exclusive r); eexists _, _; split; reflexivity. Qed.

Lemma scheduled_next all r index last shared last' shared' :
  all !! index = Some r -> scheduled all index last shared ->
  (last', shared') = (if is_exclusive r then (Some index, []) else (last, shared ++ [index])) -> scheduled all (S index) last' shared'.
Proof.
  intros Hr (H1 & H2 & H3) E. destruct (is_exclusive r) eqn:Hx; injection E as -> ->.
  - split; [intros e [= <-]; split; [lia|by exists r]|]. split.
    + intros i Hi _. exists index. split; [done|lia].
    + intros i Hi. right. exists index. split; [done|lia].
  - split; [intros e He; destruct (H1 e He); split; [lia|done]|]. split.
    + intros i Hi Hxi. destruct (decide (i = index)) as [->|]; [|apply H2; [lia|done]]. destruct Hxi as (r' & Hr' & ?). congruence.
    + intros i Hi. destruct (decide (i = index)) as [->|]; [left; apply elem_of_app; right; by left|].
      destruct (H3 i ltac:(lia)) as [?|?]; [left; apply elem_of_app; by left|by right].
Qed.

(** A task waits for every earlier one it conflicts with, or for an exclusive
    one between them. *)
Lemma schedule_waits all rs index last shared i j :
  drop index all = rs -> scheduled all index last shared -> i < index + j -> conflict all i (index + j) -> j < length rs ->
  exists k, k ∈ default [] (schedule index last shared rs !! j) /\ (k = i \/ (i < k < index + j /\ exclusive_at all k)).
Proof.
  revert index last shared j. induction rs as [|r rs IH]; intros index last shared j Hdrop Hs Hij Hc Hj; [cbn in Hj; lia|].
  assert (Hr : all !! index = Some r) by (rewrite <- (Nat.add_0_r index), <- lookup_drop, Hdrop; done).
  destruct (schedule_cons r rs index last shared) as (last' & shared' & -> & E). destruct j as [|j]; cbn [lookup list_lookup].
  - rewrite Nat.add_0_r in *. destruct Hs as (H1 & H2 & H3).
    assert (Hlast : forall e, last = Some e -> i <= e -> exists k, k ∈ last_list last /\ (k = i \/ i < k < index /\ exclusive_at all k)).
    { intros e He Hie. exists e. rewrite He. split; [by left|]. destruct (H1 e He). destruct (decide (e = i)); [by left|right]. split; [lia|done]. }
    change (default [] (Some (if is_exclusive r then last_list last ++ shared else last_list last))) with (if is_exclusive r then last_list last ++ shared else last_list last).
    destruct (is_exclusive r) eqn:Hx.
    + destruct (H3 i Hij) as [Hin|(e & He & Hie)]; [exists i; split; [apply elem_of_app; by right|by left]|].
      destruct (Hlast e He Hie) as (k & ? & ?). exists k. split; [apply elem_of_app; by left|done].
    + destruct Hc as [Hc|(r' & Hr' & Hx')]; [|congruence]. destruct (H2 i Hij Hc) as (e & He & Hie). by eapply Hlast.
  - rewrite Nat.add_succ_r in *. change (S (index + j)) with (S index + j) in *. apply (IH (S index) last' shared' j); [|by eapply scheduled_next|done..|cbn in Hj; lia].
    by rewrite <- Nat.add_1_r, <- drop_drop, Hdrop.
Qed.

Lemma awaited_waits b i j :
  i < j -> j < length (records b) -> conflict (records b) i j -> exists k, k ∈ awaited b j /\ (k = i \/ (i < k < j /\ exclusive_at (records b) k)).
Proof.
  intros Hij Hj Hc. apply (schedule_waits (records b) (records b) 0 None [] i j); [by rewrite drop_0| |done..].
  split; [done|]. split; [intros; lia|intros; lia].
Qed.

(** ** Exclusive tools run alone *)

(** The task has passed what it waits for. *)
Definition passed (r : call_record) (p : phase) : Prop := match p with Waiting => False | Rejected => started r = true | _ => True end.

Definition barred (b : batch) : Prop :=
  forall i j r p q, i < j -> conflict (records b) i j -> records b !! j = Some r -> phases b !! j = Some q -> passed r q ->
  phases b !! i = Some p -> is_settled p = true.

Lemma exclusive_insert rs i r r' k : rs !! i = Some r -> tool_of r' = tool_of r -> exclusive_at (<[i := r']> rs) k <-> exclusive_at rs k.
Proof.
  intros Hr Ht. unfold exclusive_at. destruct (decide (i = k)) as [->|].
  - rewrite list_lookup_insert_eq by (by eapply lookup_lt_Some). rewrite Hr. unfold is_exclusive. split; intros (x & [= <-] & Hx); eexists; (split; [done|]); by rewrite Ht in * || rewrite <- Ht in *.
  - by rewrite list_lookup_insert_ne.
Qed.

Lemma conflict_insert rs i r r' k l : rs !! i = Some r -> tool_of r' = tool_of r -> conflict (<[i := r']> rs) k l <-> conflict rs k l.
Proof. intros Hr Ht. unfold conflict. by rewrite !(exclusive_insert rs i r r') by done. Qed.

Lemma step_tool intr r p r' p' es ms sts : task_step intr r p r' p' es ms sts -> tool_of r' = tool_of r.
Proof. by intros [| | |? ? ? ? ? ? (? & ? & ?)|? ? ? ? ? ? ? ? ? ? (? & ? & ?)|]. Qed.

Lemma step_unsettled intr r p r' p' es ms sts : task_step intr r p r' p' es ms sts -> is_settled p = false.
Proof. intros [| | |p1 ? ? Hrun ? ?| |]; try done. by destruct p1. Qed.

(** A task that passes its barrier has waited for it. *)
Lemma step_passes intr r p r' p' es ms sts b i :
  task_step intr r p r' p' es ms sts -> life r p -> waited b i p p' -> passed r' p' ->
  passed r p \/ forallb (phase_is is_fulfilled b) (awaited b i) = true.
Proof.
  intros Ht [Hl _] Hw Hpass. destruct Ht as [?|r' p' a ? Hrun ?| |p r' p' Hrun ?|? ? ? ? ? ? ? ? ?|k p' Hset]; try (by left).
  - right. by apply Hw.
  - right. apply Hw; [done|by intros ->].
  - left. cbn in Hpass. by destruct Hl; congruence.
  - left. by destruct p.
Qed.

Lemma waiting_fulfilled b i k : forallb (phase_is is_fulfilled b) (awaited b i) = true -> k ∈ awaited b i -> phases b !! k = Some Fulfilled.
Proof.
  intros H%forallb_Forall Hk. rewrite Forall_forall in H. specialize (H k Hk). unfold phase_is in H.
  destruct (phases b !! k) as [[]|]; done.
Qed.

Lemma barred_move b u b' : Forall2 life (records b) (phases b) -> barred b -> move b u b' -> barred b'.
Proof.
  intros Hlife Hb Hm. destruct Hm as [n r p r' p' es ms sts cur cs Hr Hp Ht _ Hw| | | |]; [|exact Hb..].
  intros i j rj pi q Hij Hc Hj Hq Hpass Hi. cbn in *. rewrite (conflict_insert _ n r r') in Hc by (done || by eapply step_tool).
  destruct (decide (j = n)) as [->|Hjn].
  - rewrite list_lookup_insert_eq in Hj by (by eapply lookup_lt_Some). rewrite list_lookup_insert_eq in Hq by (by eapply lookup_lt_Some). simplify_eq. rewrite list_lookup_insert_ne in Hi by lia.
    destruct (step_passes _ _ _ _ _ _ _ _ b n Ht) as [Hold|Hf]; [by eapply Forall2_lookup_lr|done..|by eapply Hb|].
    destruct (awaited_waits b i n Hij) as (k & Hk & [->|[Hik Hx]]); [by eapply lookup_lt_Some|done| |].
    + pose proof (waiting_fulfilled b n i Hf Hk). by simplify_eq.
    + pose proof (waiting_fulfilled b n k Hf Hk) as Hfk. destruct Hx as (rk & Hrk & Hx). apply (Hb i k rk pi Fulfilled); [lia|right; by exists rk|done..].
  - rewrite list_lookup_insert_ne in Hj by done. rewrite list_lookup_insert_ne in Hq by done. destruct (decide (i = n)) as [->|Hin].
    + exfalso. pose proof (step_unsettled _ _ _ _ _ _ _ _ Ht) as Hu. by rewrite (Hb n j rj p q) in Hu.
    + rewrite list_lookup_insert_ne in Hi by done. by eapply Hb.
Qed.

Section theorems.
Context (cfg : config) (tools : list tool) (stripANSI : string -> string) (calls : list tool_call).
Local Notation run := (run cfg tools stripANSI).
Local Notation step := (step cfg tools stripANSI).

(** What holds of every batch that is reached. *)
Lemma run_keeps (P : batch -> Prop) ss b :
  P (startBatch tools calls) -> (forall b u b', accounted tools calls b -> Forall2 life (records b) (phases b) -> P b -> move b u b' -> P b') ->
  run (startBatch tools calls) ss = Some b -> P b.
Proof.
  intros H0 Hstep Hrun.
  apply (run_invariant cfg tools stripANSI (fun b => (accounted tools calls b /\ Forall2 life (records b) (phases b)) /\ P b) (startBatch tools calls) ss b);
    [|exact Hrun|split; [apply accounted_start|done]].
  intros b1 s b2 [[Ha Hl] HP] Hs. pose proof (step_move _ _ _ _ _ _ Hl Hs) as Hm. split; [by eapply accounted_move|by eapply Hstep].
Qed.

Lemma run_barred ss b : run (startBatch tools calls) ss = Some b -> barred b.
Proof.
  apply run_keeps; [|intros b1 u b2 _; apply barred_move]. intros i j r p q Hij _ Hr Hq Hpass. cbn in *.
  rewrite list_lookup_fmap in Hq. destruct (calls !! j); by simplify_eq/=.
Qed.
End theorems.

(** The task has started and not settled. *)
Definition is_active (p : phase) : bool := is_running p || match p with Steering _ => true | _ => false end.

Lemma active_unsettled p : is_active p = true -> is_settled p = false.
Proof. by destruct p. Qed.

(** C4.  An exclusive tool runs alone: while a call of one is under way, from
    its start to the check of the user's queue that follows it, no other call
    of the batch is, and every earlier one has settled. *)
Theorem exclusive_runs_alone cfg tools stripANSI calls ss b i c t p :
  run cfg tools stripANSI (startBatch tools calls) ss = Some b ->
  calls !! i = Some c -> find_tool tools (call_name c) = Some t -> exclusive t = true ->
  phases b !! i = Some p -> is_active p = true ->
  forall j q, j <> i -> phases b !! j = Some q -> is_active q = false /\ (j < i -> is_settled q = true).
Proof.
  intros Hrun Hc Ht Hx Hp Hact j q Hj Hq. pose proof (run_barred _ _ _ _ _ _ Hrun) as Hb. destruct (run_accounted _ _ _ _ _ _ Hrun) as [[Hcalls _ _ _] Hlife].
  destruct (Forall2_lookup_l _ _ _ _ _ Hcalls Hc) as (r & Hr & _ & _ & _ & Htool).
  assert (Hex : exclusive_at (records b) i) by (exists r; split; [done|]; unfold is_exclusive; by rewrite Htool, Ht).
  destruct (Forall2_lookup_r _ _ _ _ _ Hlife Hq) as (rj & Hrj & Hlj).
  assert (Hpass : forall r p, is_active p = true -> passed r p) by (intros ? []; done).
  destruct (decide (j < i)) as [Hlt|Hge].
  - assert (is_settled q = true) as Hs by (eapply (Hb j i r q p); [done|by right|done..|by apply Hpass|done]). split; [by destruct q|done].
  - split; [|lia]. destruct (is_active q) eqn:Hq'; [|done]. exfalso. apply active_unsettled in Hact.
    rewrite (Hb i j rj p q) in Hact; [done|lia|by left|done..|by apply Hpass|done].
Qed.

(** ** The checks of the user's queue *)

Definition is_open (c : check) : bool := match c with Closed _ => false | _ => true end.

(** One check is open at a time, the current one; none is in flight once the
    batch is interrupted. *)
Record checks_ok (b : batch) : Prop := {
  ck_open : forall j c, checks b !! j = Some c -> is_open c = true -> steeringCheck b = Some j;
  ck_current : forall j, steeringCheck b = Some j -> exists c, checks b !! j = Some c /\ is_open c = true;
  ck_known : forall i k, phases b !! i = Some (Steering k) -> k < length (checks b);
  ck_flight : forall j, checks b !! j = Some InFlight -> interrupted b = false;
  ck_messages : interrupted b = false -> steeringMessages b = None
}.

Lemma checks_ok_start tools calls : checks_ok (startBatch tools calls).
Proof.
  split; cbn; try done. intros i k Hi. rewrite list_lookup_fmap in Hi. destruct (calls !! i); by simplify_eq/=.
Qed.

(** A check that is open changes its status. *)
Lemma checks_ok_update b k c0 c cur b' :
  checks_ok b -> checks b !! k = Some c0 -> is_open c0 = true -> checks b' = <[k := c]> (checks b) -> steeringCheck b' = cur ->
  cur = (if is_open c then Some k else None) -> phases b' = phases b -> c <> InFlight ->
  (interrupted b' = false -> steeringMessages b' = None) -> checks_ok b'.
Proof.
  intros [H1 H2 H3 H4 H5] Hk Ho Hc Hcur -> Hp Hfl Hms. pose proof (H1 k c0 Hk Ho) as Hcurrent. pose proof (lookup_lt_Some _ _ _ Hk) as Hlt. split.
  - intros j c1 Hj Hoj. rewrite Hc in Hj. rewrite Hcur. destruct (decide (j = k)) as [->|Hne].
    + rewrite list_lookup_insert_eq in Hj by done. injection Hj as ->. by rewrite Hoj.
    + rewrite list_lookup_insert_ne in Hj by done. specialize (H1 j c1 Hj Hoj). congruence.
  - intros j Hj. rewrite Hcur in Hj. destruct (is_open c) eqn:E; [|done]. injection Hj as <-. exists c. by rewrite Hc, list_lookup_insert_eq.
  - intros i k' Hi. rewrite Hp in Hi. rewrite Hc, length_insert. by eapply H3.
  - intros j Hj. rewrite Hc in Hj. exfalso. destruct (decide (j = k)) as [->|Hne].
    + rewrite list_lookup_insert_eq in Hj by done. congruence.
    + rewrite list_lookup_insert_ne in Hj by done. specialize (H1 j InFlight Hj eq_refl). congruence.
  - exact Hms.
Qed.

Lemma step_steering intr r p r' p' es ms sts k : task_step intr r p r' p' es ms sts -> p' = Steering k -> exists a b c, p = Finishing a b c.
Proof. intros Ht E. destruct Ht; subst; try done. by eexists _, _, _. Qed.

Lemma checks_ok_move b u b' : checks_ok b -> move b u b' -> checks_ok b'.
Proof.
  intros Hok Hm. destruct Hm as [n r p r' p' es ms sts cur cs Hr Hp Ht Hck _|x nm a res|k failed Hk|k m ms Hk|k failed Hk].
  - destruct Hok as [H1 H2 H3 H4 H5]. assert (Hcase : (cur = steeringCheck b /\ cs = checks b) \/
      (steeringCheck b = None /\ interrupted b = false /\ p' = Steering (length (checks b)) /\ cur = Some (length (checks b)) /\ cs = checks b ++ [InFlight])).
    { destruct p'; try (by left). destruct Hck as (Hi & [(E & -> & ->)|(E & -> & -> & ->)]); [by left|by right]. }
    assert (Hph : forall i k, <[n := p']> (phases b) !! i = Some (Steering k) -> phases b !! i = Some (Steering k) \/ p' = Steering k).
    { intros i k Hi. apply list_lookup_insert_Some in Hi as [(_ & -> & _)|[_ Hi]]; [by right|by left]. }
    destruct Hcase as [(-> & ->)|(E & Hi & -> & -> & ->)].
    + split; cbn; try done. intros i k Hi. destruct (Hph i k Hi) as [Hx| ->]; [by eapply H3|].
      destruct Hck as (_ & [(E & _ & _)|(E & _ & Hx & _)]); [destruct (H2 k E) as (c & Hc & _); by eapply lookup_lt_Some|congruence].
    + split; cbn.
      * intros j c Hj Ho. apply lookup_app_Some in Hj as [Hj|[Hj Hj']]; [specialize (H1 j c Hj Ho); congruence|]. apply list_lookup_singleton_Some in Hj' as [? _]. f_equal. lia.
      * intros j [= <-]. exists InFlight. split; [|done]. by apply lookup_snoc_Some; right.
      * intros i k Hi'. rewrite length_app. cbn. destruct (Hph i k Hi') as [Hx|[= <-]]; [specialize (H3 i k Hx)|]; lia.
      * done.
      * done.
  - destruct Hok as [H1 H2 H3 H4 H5]. by split.
  - eapply (checks_ok_update b k InFlight (Answered failed)); [done..| |done|done|by apply Hok]. cbn. by apply (ck_open b Hok k InFlight).
  - eapply (checks_ok_update b k InFlight (Answered false)); [done..| |done|done|done]. cbn. by apply (ck_open b Hok k InFlight).
  - eapply (checks_ok_update b k (Answered failed) (Closed failed)); [done..|by apply Hok].
Qed.

Lemma run_checks cfg tools stripANSI calls ss b : run cfg tools stripANSI (startBatch tools calls) ss = Some b -> checks_ok b.
Proof. apply run_keeps; [apply checks_ok_start|]. intros b1 u b2 _ _. apply checks_ok_move. Qed.

(** ** A batch ends *)

Definition weight (c : check) : nat := match c with InFlight => 2 | Answered _ => 1 | Closed _ => 0 end.
Definition measure (b : batch) : nat := sum_list (rank <$> phases b) + sum_list (weight <$> checks b).

Lemma sum_insert {A} (f : A -> nat) l i x y : l !! i = Some x -> sum_list (f <$> <[i := y]> l) + f x = sum_list (f <$> l) + f y.
Proof.
  revert i. induction l as [|z l IH]; intros [|i] Hi; try done; [injection Hi as ->; cbn; lia|]. specialize (IH i Hi). change (f z + sum_list (f <$> <[i := y]> l) + f x = f z + sum_list (f <$> l) + f y). lia.
Qed.

Lemma sum_app l l' : sum_list (l ++ l') = sum_list l + sum_list l'.
Proof. induction l as [|x l IH]; [done|]. cbn. rewrite IH. lia. Qed.

Lemma move_measure b u b' : move b u b' -> measure b' + (if u then 0 else 1) <= measure b.
Proof.
  intros [n r p r' p' es ms sts cur cs Hr Hp Ht Hck _|x nm a res|k failed Hk|k m ms Hk|k failed Hk]; unfold measure; cbn; [|lia|..].
  2: pose proof (sum_insert weight _ _ _ (Answered failed) Hk) as Hw.
  3: pose proof (sum_insert weight _ _ _ (Answered false) Hk) as Hw.
  4: pose proof (sum_insert weight _ _ _ (Closed failed) Hk) as Hw.
  2-4: cbn [weight] in Hw; lia.
  pose proof (sum_insert rank _ _ _ p' Hp) as Hw. assert (Hcs : sum_list (weight <$> cs) <= sum_list (weight <$> checks b) + (match p' with Steering _ => 2 | _ => 0 end)).
  { destruct p'; try (destruct Hck as [_ ->]; lia). destruct Hck as (_ & [(_ & _ & ->)|(_ & _ & _ & ->)]); [lia|]. rewrite fmap_app, sum_app. cbn. lia. }
  destruct Ht as [| | |p r' p' Hrun Hrun' Hk _|? ? ? ? ? ? ? ? ? Hp' _ _|k p' Hset].
  - cbn in *. lia.
  - destruct p'; cbn in *; try done; lia.
  - cbn in *. lia.
  - destruct p'; cbn in *; try done; lia.
  - destruct Hp' as [->|[k ->]]; cbn in *; lia.
  - destruct p'; cbn in *; try done; lia.
Qed.

Lemma schedule_before rs index last shared j k :
  (forall e, last = Some e -> e < index) -> (forall i, i ∈ shared -> i < index) -> k ∈ default [] (schedule index last shared rs !! j) -> k < index + j.
Proof.
  revert index last shared j. induction rs as [|r rs IH]; intros index last shared j Hl Hs Hk; [by apply not_elem_of_nil in Hk|].
  assert (Hlast : k ∈ last_list last -> k < index) by (destruct last; [intros ->%list_elem_of_singleton; by apply Hl|by intros ?%not_elem_of_nil]).
  destruct (schedule_cons r rs index last shared) as (last' & shared' & E & E'). rewrite E in Hk. destruct j as [|j]; cbn in Hk.
  - destruct (is_exclusive r); [apply elem_of_app in Hk as [Hk|Hk]; [specialize (Hlast Hk)|specialize (Hs k Hk)]|specialize (Hlast Hk)]; lia.
  - specialize (IH (S index) last' shared' j). cut (k < S index + j); [lia|]. apply IH; [| |exact Hk].
    + intros e He. destruct (is_exclusive r); injection E' as -> ->; [injection He as <-; lia|]. specialize (Hl e He). lia.
    + intros i Hi. destruct (is_exclusive r); injection E' as -> ->; [by apply not_elem_of_nil in Hi|]. apply elem_of_app in Hi as [Hi|Hi%list_elem_of_singleton]; [specialize (Hs i Hi)|]; lia.
Qed.

Lemma awaited_before b i k : k ∈ awaited b i -> k < i.
Proof. intros H. apply (schedule_before (records b) 0 None [] i k); [done|by intros ? ?%not_elem_of_nil|done]. Qed.

Definition effective (ss : list stimulus) : list stimulus := List.filter (fun s => negb (is_update s)) ss.

Lemma measure_start tools calls : measure (startBatch tools calls) = 8 * length calls.
Proof.
  unfold measure. cbn [startBatch phases checks]. rewrite <- list_fmap_compose, Nat.add_0_r. induction calls as [|c cs IH]; [done|].
  change (8 + sum_list (rank ∘ (fun _ => Waiting) <$> cs) = 8 * S (length cs)). lia.
Qed.

Lemma stuck_settled b : allSettled b = false -> exists i p, phases b !! i = Some p /\ is_settled p = false /\ forall k q, k < i -> phases b !! k = Some q -> is_settled q = true.
Proof.
  unfold allSettled. generalize (phases b). intros ps. induction ps as [|p ps IH]; [done|]. cbn. destruct (is_settled p) eqn:E.
  - intros H. destruct (IH H) as (i & q & Hi & Hq & Hb). exists (S i), q. split; [done|split; [done|]]. intros [|k] q' Hk Hk'; [by injection Hk' as <-|]. apply (Hb k); [lia|done].
  - intros _. exists 0, p. split; [done|split; [done|]]. lia.
Qed.

(** The first task that has not settled can go on. *)
Lemma batch_progress cfg tools stripANSI calls b :
  accounted tools calls b -> Forall2 life (records b) (phases b) -> checks_ok b -> allSettled b = false ->
  exists s b', is_update s = false /\ step cfg tools stripANSI b s = Some b'.
Proof.
  intros _ Hlife Hck Hs. destruct (stuck_settled b Hs) as (i & p & Hi & Hp & Hbefore). destruct (Forall2_lookup_r _ _ _ _ _ Hlife Hi) as (r & Hr & _).
  destruct p as [|a| |res err c|res err c|k| |]; try done.
  - destruct (existsb (phase_is is_rejected b) (awaited b i)) eqn:Er.
    + exists (NotStarted i). cbn. rewrite Hi, Er. by eexists.
    + exists (Started i). cbn. rewrite Hi. assert (Hf : forallb (phase_is is_fulfilled b) (awaited b i) = true).
      { apply forallb_Forall, Forall_forall. intros k Hk. pose proof (awaited_before b i k Hk) as Hlt. destruct (lookup_lt_is_Some_2 (phases b) k) as [q Hq]; [apply lookup_lt_Some in Hi; lia|].
        specialize (Hbefore k q Hlt Hq). apply orb_true_iff in Hbefore as [Hf|Hrej]; unfold phase_is; rewrite Hq; [done|].
        exfalso. apply not_true_iff_false in Er. apply Er, existsb_exists. exists k. split; [by apply list_elem_of_In|]. unfold phase_is. by rewrite Hq. }
      rewrite Hf. unfold runTool. rewrite Hr. cbn. destruct (interrupted b); [by eexists|]. destruct (trace_intent cfg r). by eexists.
  - exists (Asked i (Throw "")). cbn. rewrite Hi, Hr. by eexists.
  - exists (Executed i (Throw "")). cbn. rewrite Hi. by eexists.
  - exists (Hooked i (Ok None)). cbn. rewrite Hi. by eexists.
  - exists (Finished i 0%Z). cbn. rewrite Hi. unfold finishTool. rewrite Hr. by eexists.
  - destruct (lookup_lt_is_Some_2 (checks b) k (ck_known b Hck i k Hi)) as [[|f|f] Hk].
    + exists (Steered k (Ok [])). cbn. rewrite Hk. by eexists.
    + exists (Cleared k). cbn. rewrite Hk. by eexists.
    + exists (Resumed i). cbn. rewrite Hi, Hk. by eexists.
Qed.

(** C20.  A batch ends: apart from the updates of running tools it takes at
    most eight stimuli for each call, and until every task has settled there is
    a stimulus that it waits for - no order of the calls, of exclusive and
    shared tools and of failing checks leaves it stuck. *)
Theorem batch_ends cfg tools stripANSI calls ss b :
  run cfg tools stripANSI (startBatch tools calls) ss = Some b ->
  length (effective ss) <= 8 * length calls /\
  (allSettled b = true \/ exists s b', is_update s = false /\ step cfg tools stripANSI b s = Some b').
Proof.
  intros Hrun. split.
  - enough (measure b + length (effective ss) <= 8 * length calls) by lia.
    rewrite <- (measure_start tools). revert b Hrun. induction ss as [|s ss IH] using rev_ind; intros b Hrun; [injection Hrun as <-; cbn; lia|].
    rewrite run_app in Hrun. destruct (run cfg tools stripANSI (startBatch tools calls) ss) as [b1|] eqn:E; [|done]. cbn in Hrun. specialize (IH b1 eq_refl).
    destruct (run_accounted _ _ _ _ _ _ E) as [_ Hl]. pose proof (move_measure _ _ _ (step_move _ _ _ _ _ _ Hl Hrun)) as Hm.
    unfold effective in *. rewrite List.filter_app, length_app. cbn. destruct (is_update s); cbn in *; lia.
  - destruct (allSettled b) eqn:Hs; [by left|right]. destruct (run_accounted _ _ _ _ _ _ Hrun) as [Ha Hl]. eapply batch_progress; [done..|by eapply run_checks|done].
Qed.

(** ** After an interruption *)

Definition is_skipped (m : ToolResultMessage) : Prop := result_content m = [text_block skipped_text] /\ is_error m = true.

(** What the batch [b] has become since it was interrupted. *)
Record winding_down (b b1 : batch) : Prop := {
  wd_interrupted : interrupted b1 = true;
  wd_messages : steeringMessages b1 = steeringMessages b;
  wd_results : exists rest, emittedToolResults b1 = emittedToolResults b ++ rest /\ Forall is_skipped rest;
  wd_started : forall i r, records b !! i = Some r -> started r = false -> exists r1, records b1 !! i = Some r1 /\ started r1 = false
}.

Lemma winding_record b b1 i r r' :
  winding_down b b1 -> records b1 !! i = Some r -> (started r = false -> started r' = false) ->
  forall k rk, records b !! k = Some rk -> started rk = false -> exists r1, <[i := r']> (records b1) !! k = Some r1 /\ started r1 = false.
Proof.
  intros Hw Hr Hs k rk Hk Hk'. destruct (wd_started _ _ Hw k rk Hk Hk') as (r1 & Hr1 & Hr1'). destruct (decide (i = k)) as [->|Hne].
  - exists r'. rewrite list_lookup_insert_eq by (by eapply lookup_lt_Some). split; [done|]. apply Hs. congruence.
  - exists r1. by rewrite list_lookup_insert_ne.
Qed.

Lemma winding_move b b1 u b2 : checks_ok b1 -> winding_down b b1 -> move b1 u b2 -> winding_down b b2.
Proof.
  intros Hck Hw Hm. pose proof (wd_interrupted _ _ Hw) as Hi.
  destruct Hm as [i r p r' p' es ms sts cur cs Hr Hp Ht _ _|x nm a res|k failed Hk|k m ms Hk|k failed Hk].
  2-5: try (destruct Hw as [H1 H2 H3 H4]; by split).
  2: pose proof (ck_flight _ Hck k Hk); congruence.
  assert (Hrec : started r = false -> started r' = false).
  { rewrite Hi in Ht. destruct Ht as [|? ? ? ? ?| |? ? ? ? ? ? (_ & _ & -> & _)|? ? ? ? ? ? ? ? ? _ (_ & _ & -> & _)|]; done. }
  assert (Hms : Forall is_skipped ms).
  { rewrite Hi in Ht. destruct Ht as [| | | |? ? ? ? ? ? ? ? ? _ _ [-> ->]|]; repeat constructor. }
  destruct (wd_results _ _ Hw) as (rest & Hrest & Hsk). split; cbn; [done|apply Hw| |by eapply winding_record].
  exists (rest ++ ms). rewrite Hrest, app_assoc. split; [done|]. by apply Forall_app.
Qed.

Lemma winding_sweep now b b1 : winding_down b b1 -> winding_down b (sweep now b1).
Proof.
  intros Hw. unfold sweep. apply (foldl_invariant (sweepOne now) (winding_down b)); [|done]. clear Hw. intros b2 i _ Hw. unfold sweepOne.
  destruct (records b2 !! i) as [r|] eqn:Hr; [|done]. destruct (toolResultMessage r); [done|]. unfold emitToolResult. cbn.
  rewrite list_lookup_insert_eq by (by eapply lookup_lt_Some). cbn. destruct (resultEmitted r).
  - split; cbn; [apply Hw..|]. by eapply winding_record.
  - destruct (wd_results _ _ Hw) as (rest & Hrest & Hsk). split; cbn; [apply Hw..| |].
    + eexists (rest ++ [_]). rewrite Hrest, app_assoc. split; [done|]. apply Forall_app. split; [done|]. by repeat constructor.
    + rewrite list_insert_insert_eq. by eapply winding_record.
Qed.


(** ** The messages that interrupt *)

Definition replies (ss : list stimulus) : list AgentMessage :=
  concat (omap (fun s => match s with Steered _ (Ok ms) => Some ms | _ => None end) ss).

Lemma replies_app ss ss' : replies (ss ++ ss') = replies ss ++ replies ss'.
Proof. unfold replies. by rewrite omap_app, concat_app. Qed.

Lemma finish_messages cfg b i res err c now b' : finishTool cfg b i res err c now = Some b' -> steeringMessages b' = steeringMessages b.
Proof.
  unfold finishTool, checkSteering, emitToolResult. destruct (records b !! i); [|done]. cbn. intros [= <-]. by repeat case_match.
Qed.

Lemma start_messages cfg tools b i b' : runTool cfg tools b i = Some b' -> steeringMessages b' = steeringMessages b.
Proof.
  unfold runTool, execute, throw, conclude. destruct (records b !! i); [|done]. cbn. destruct (interrupted b); [by intros [= <-]|].
  destruct (trace_intent cfg c). intros [= <-]. by repeat case_match.
Qed.

Lemma step_messages cfg tools stripANSI b s b' :
  checks_ok b -> step cfg tools stripANSI b s = Some b' ->
  default [] (steeringMessages b') = default [] (steeringMessages b) ++ replies [s].
Proof.
  intros Hck Hs. destruct s as [i|i|i reply|i raw|i part|i after|i now|k msgs|k|i]; cbn [step] in Hs.
  8: { destruct (checks b !! k) as [[]|] eqn:Hk; try done. pose proof (ck_messages b Hck (ck_flight b Hck k Hk)) as Hm.
       injection Hs as <-. rewrite Hm. destruct msgs as [[|m ms]|e]; cbn; rewrite ?Hm, ?app_nil_r; done. }
  all: rewrite app_nil_r; f_equal.
  - destruct (phases b !! i) as [[]|]; try done. destruct (forallb _ _); [|done]. by eapply start_messages.
  - by repeat case_match; simplify_eq/=.
  - destruct (phases b !! i) as [[]|], (records b !! i); try done. injection Hs as <-. unfold execute, throw, conclude. by repeat case_match.
  - destruct (phases b !! i) as [[]|]; try done. injection Hs as <-. unfold throw, conclude. by repeat case_match.
  - destruct (records b !! i); [|done]. destruct (onUpdate _); [|done]. by injection Hs as <-.
  - destruct (phases b !! i) as [[]|]; try done. injection Hs as <-. by repeat case_match.
  - destruct (phases b !! i) as [[]|]; try done. by eapply finish_messages.
  - by repeat case_match; simplify_eq/=.
  - by repeat case_match; simplify_eq/=.
Qed.

Lemma sweep_messages now b : steeringMessages (sweep now b) = steeringMessages b.
Proof.
  unfold sweep. apply (foldl_unchanged (sweepOne now) steeringMessages). intros b1 i. unfold sweepOne, emitToolResult. by repeat case_match.
Qed.

Lemma batch_messages cfg tools stripANSI calls ss b now results steering :
  run cfg tools stripANSI (startBatch tools calls) ss = Some b -> executeToolCalls now b = Some (results, steering) ->
  default [] steering = replies ss.
Proof.
  intros Hrun Hex. unfold executeToolCalls in Hex. destruct (allSettled b); [|done]. injection Hex as _ <-. rewrite sweep_messages. clear now results. revert b Hrun.
  induction ss as [|s ss IH] using rev_ind; intros b Hrun; [by injection Hrun as <-|].
  rewrite run_app in Hrun. destruct (run cfg tools stripANSI (startBatch tools calls) ss) as [b1|] eqn:E; [|done]. cbn in Hrun.
  rewrite replies_app, <- (IH b1 eq_refl). eapply step_messages; [by eapply run_checks|done].
Qed.

(** C21.  No message of the user is lost to the tools: what the checks of the
    queue took from it while the tools ran is what the batch hands over, in
    order. *)
Theorem interrupting_messages_kept cfg tools stripANSI calls ss b now results steering :
  run cfg tools stripANSI (startBatch tools calls) ss = Some b -> executeToolCalls now b = Some (results, steering) ->
  default [] steering = replies ss.
Proof. apply batch_messages. Qed.

(** ** Which calls run *)

Section accepted.
Context (cfg : config) (tools : list tool) (stripANSI : string -> string).

(** The arguments without the intent. *)
Definition given (c : tool_call) : fields := if intentTracing cfg then (extractIntent (arguments c)).2 else arguments c.

Definition accepts (t : tool) (args a : fields) : Prop :=
  validate t args = Ok a \/ (exists e, validate t args = Throw e) /\ lenientArgValidation t = true /\ a = args.

(** A complete call of a known tool. *)
Definition runnable (c : tool_call) (o : option tool) (P : tool -> Prop) : Prop := incompleteArguments c = false /\ exists t, o = Some t /\ P t.

Definition legitimate (b : batch) : Prop := forall i r p,
  records b !! i = Some r -> phases b !! i = Some p ->
  (forall a, p = Asking a -> runnable (toolCall r) (tool_of r) (fun t => has_before cfg = true /\ accepts t (given (toolCall r)) a)) /\
  (forall a, onUpdate r = Some a -> runnable (toolCall r) (tool_of r) (fun t => has_before cfg = false -> accepts t (given (toolCall r)) a)).

Definition no_question (p : phase) : Prop := forall a, p <> Asking a.

Lemma legitimate_phase b i p : no_question p -> legitimate b -> legitimate (with_phase b i p).
Proof.
  intros Hp Hb j r q Hr Hq. cbn in Hr, Hq. apply list_lookup_insert_Some in Hq as [(<- & <- & Hlt)|[_ Hq]]; [|by eapply Hb].
  apply lookup_lt_is_Some_2 in Hlt as [q' Hq']. destruct (Hb i r q' Hr Hq') as [_ H]. split; [|done]. intros a ->. by destruct (Hp a).
Qed.

Lemma legitimate_record b i r r' :
  records b !! i = Some r -> given (toolCall r') = given (toolCall r) -> incompleteArguments (toolCall r') = incompleteArguments (toolCall r) ->
  tool_of r' = tool_of r -> onUpdate r' = onUpdate r -> legitimate b -> legitimate (with_record b i r').
Proof.
  intros Hr Hg Hi Ht Hu Hb j rj q Hj Hq. cbn in Hj, Hq. apply list_lookup_insert_Some in Hj as [(<- & <- & _)|[_ Hj]]; [|by eapply Hb].
  destruct (Hb i r q Hr Hq) as [H1 H2]. unfold runnable in *. rewrite Hg, Hi, Ht, Hu. by split.
Qed.

Lemma legitimate_throw b i msg c : legitimate b -> legitimate (throw cfg b i msg c).
Proof. intros Hb. apply legitimate_phase; [|done]. intros a. by destruct (has_after cfg). Qed.

Lemma legitimate_execute b i r a :
  records b !! i = Some r -> runnable (toolCall r) (tool_of r) (fun t => has_before cfg = false -> accepts t (given (toolCall r)) a) ->
  legitimate b -> legitimate (execute cfg b i r a).
Proof.
  intros Hr Hok Hb. unfold execute. assert (Hb1 : legitimate (with_record b i (with_args r a))) by (by apply (legitimate_record b i r)).
  destruct (getToolContext cfg i); [|by apply legitimate_throw]. destruct (transformToolCallArguments cfg a _); [|by apply legitimate_throw].
  intros j rj q Hj Hq. cbn in Hj, Hq. rewrite list_insert_insert_eq in Hj. destruct (decide (i = j)) as [<-|Hne].
  - rewrite list_lookup_insert_eq in Hj by (by eapply lookup_lt_Some). injection Hj as <-.
    apply list_lookup_insert_Some in Hq as [(_ & <- & _)|[? _]]; [|done]. split; [done|]. by intros ? [= <-].
  - rewrite list_lookup_insert_ne in Hj by done. rewrite list_lookup_insert_ne in Hq by done. by eapply Hb.
Qed.

Lemma legitimate_same b b' : records b' = records b -> phases b' = phases b -> legitimate b -> legitimate b'.
Proof. intros Hr Hp Hb i r p. rewrite Hr, Hp. apply Hb. Qed.

Lemma legitimate_emit b i res err now : legitimate b -> legitimate (emitToolResult b i res err now).
Proof.
  intros Hb. unfold emitToolResult. destruct (records b !! i) as [r|] eqn:Hr; [|done]. destruct (resultEmitted r); [done|].
  match goal with |- legitimate {| records := <[i := ?r']> _ |} => apply (legitimate_same (with_record b i r')); [done..|] end. by apply (legitimate_record b i r).
Qed.

Lemma traced r c a : trace_intent cfg r = (c, a) -> a = given (toolCall r) /\ given c = given (toolCall r) /\ incompleteArguments c = incompleteArguments (toolCall r).
Proof. unfold trace_intent, given. destruct (intentTracing cfg); [destruct (extractIntent _) eqn:E|]; intros [= <- <-]; cbn; by rewrite ?E. Qed.

Lemma legitimate_start b i b' : phases b !! i = Some Waiting -> legitimate b -> runTool cfg tools b i = Some b' -> legitimate b'.
Proof.
  intros Hp Hb. unfold runTool. destruct (records b !! i) as [r|] eqn:Hr; [|done]. cbn [mbind option_bind]. destruct (interrupted b).
  - intros [= <-]. apply legitimate_phase; [done|]. by apply (legitimate_record b i r).
  - destruct (trace_intent cfg r) as [c args'] eqn:Ht. destruct (traced r c args' Ht) as (-> & Hg & Hinc). intros [= <-].
    set (r1 := {| toolCall := c; tool_of := tool_of r; args := given (toolCall r); started := true; skipped := skipped r; result := result r; isError := isError r;
      toolResultMessage := toolResultMessage r; resultEmitted := resultEmitted r; onUpdate := onUpdate r |}).
    set (b1 := push (with_record b i r1) _). assert (Hb1 : legitimate b1) by (by apply (legitimate_record b i r)).
    assert (Hr1 : records b1 !! i = Some r1) by (cbn; apply list_lookup_insert_eq; by eapply lookup_lt_Some).
    change (tool_of r1) with (tool_of r). destruct (incompleteArguments c) eqn:Hc; [by apply legitimate_throw|]. destruct (tool_of r) as [t|] eqn:Et; [|by apply legitimate_throw].
    assert (Hgo : forall a, accepts t (given (toolCall r)) a -> legitimate (if has_before cfg then with_phase b1 i (Asking a) else execute cfg b1 i r1 a)).
    { intros a Hacc. destruct (has_before cfg) eqn:Hbef.
      - intros j rj q Hj Hq. cbn [with_phase records phases] in Hj, Hq. apply list_lookup_insert_Some in Hq as [(<- & <- & _)|[_ Hq]]; [|by eapply Hb1].
        destruct (Hb1 i rj Waiting Hj Hp) as [_ Hup]. split; [|exact Hup]. intros a' [= <-]. rewrite Hr1 in Hj. injection Hj as <-. unfold runnable. cbn. rewrite Hg. split; [done|]. by exists t.
      - apply legitimate_execute; [done| |done]. unfold runnable. cbn. rewrite Hg. split; [done|]. by exists t. }
    destruct (validate t (given (toolCall r))) as [a|e] eqn:Ev; [apply Hgo; by left|]. destruct (lenientArgValidation t) eqn:El; [|by apply legitimate_throw].
    apply Hgo. right. split; [by eexists|done].
Qed.

Lemma legitimate_step b s b' : legitimate b -> step cfg tools stripANSI b s = Some b' -> legitimate b'.
Proof.
  intros Hb Hs. destruct s as [i|i|i reply|i raw|i part|i after|i now|k msgs|k|i]; cbn [step] in Hs.
  - destruct (phases b !! i) as [[]|] eqn:Hp; try done. destruct (forallb _ _); [|done]. by eapply legitimate_start.
  - destruct (phases b !! i) as [[]|]; try done. destruct (existsb _ _); [|done]. injection Hs as <-. by apply legitimate_phase.
  - destruct (phases b !! i) as [[]|] eqn:Hp; try done. destruct (records b !! i) as [r|] eqn:Hr; [|done]. injection Hs as <-. destruct reply as [[a'|]|]; [|by apply legitimate_throw..].
    destruct (Hb i r _ Hr Hp) as [H _]. destruct (H _ eq_refl) as (Hi & t & Ht & Hbef & _). apply legitimate_execute; [done| |done]. split; [done|]. exists t. split; [done|]. congruence.
  - destruct (phases b !! i) as [[]|]; try done. injection Hs as <-. destruct raw as [v|e]; [|by apply legitimate_throw].
    destruct (coerceToolResult stripANSI v). apply legitimate_phase; [|done]. intros a. by destruct (has_after cfg).
  - destruct (records b !! i) as [r|]; [|done]. destruct (onUpdate r); [|done]. by injection Hs as <-.
  - destruct (phases b !! i) as [[]|]; try done. injection Hs as <-. destruct after as [[o|]|]; by apply legitimate_phase.
  - destruct (phases b !! i) as [[| | | |res0 err0 c0| | |]|]; try done. unfold finishTool in Hs. destruct (records b !! i) as [r|] eqn:Hr; [|done]. injection Hs as <-.
    match goal with |- legitimate (checkSteering cfg ?x i) => set (b1 := x) end.
    assert (Hb1 : legitimate b1).
    { apply (legitimate_same (if interrupted b then emitToolResult (with_record b i (skip r)) i createSkippedToolResult true now else emitToolResult b i res0 err0 now)); [done..|].
      destruct (interrupted b); apply legitimate_emit; [by apply (legitimate_record b i r)|done]. }
    unfold checkSteering. repeat case_match; (apply legitimate_phase; [done|]); done.
  - destruct (checks b !! k) as [[]|]; try done. injection Hs as <-. by repeat case_match.
  - destruct (checks b !! k) as [[]|]; try done. by injection Hs as <-.
  - destruct (phases b !! i) as [[]|]; try done. destruct (checks b !! _) as [[]|]; try done. injection Hs as <-. apply legitimate_phase; [|done]. by destruct failed.
Qed.

Lemma legitimate_run calls ss b : run cfg tools stripANSI (startBatch tools calls) ss = Some b -> legitimate b.
Proof.
  intros Hrun. eapply (run_invariant cfg tools stripANSI legitimate); [by intros ? ? ?; apply legitimate_step|exact Hrun|].
  intros i r p Hr Hp. cbn in *. rewrite list_lookup_fmap in Hr. rewrite list_lookup_fmap in Hp. destruct (calls !! i); [|done]. by simplify_eq/=.
Qed.
End accepted.

(** A tool is executed for complete calls of its own name only: never on
    arguments that were cut off, and without a hook before it only on what its
    validation makes of the call's arguments less the intent, or on these
    themselves if it is lenient. *)
Theorem only_accepted_calls_run cfg tools stripANSI calls ss b i c r a :
  run cfg tools stripANSI (startBatch tools calls) ss = Some b -> calls !! i = Some c -> records b !! i = Some r -> onUpdate r = Some a ->
  incompleteArguments c = false /\
  exists t, find_tool tools (call_name c) = Some t /\ (has_before cfg = false -> accepts t (given cfg (toolCall r)) a).
Proof.
  intros Hrun Hc Hr Ha. pose proof (legitimate_run _ _ _ _ _ _ Hrun) as Hleg. destruct (run_accounted _ _ _ _ _ _ Hrun) as [[Hcalls _ _ _] Hlife].
  destruct (Forall2_lookup_lr _ _ _ _ _ _ Hcalls Hc Hr) as (_ & _ & Hinc & Htool). destruct (Forall2_lookup_l _ _ _ _ _ Hlife Hr) as (p & Hp & _).
  destruct (Hleg i r p Hr Hp) as [_ H]. destruct (H a Ha) as (Hi & t & Ht & Hacc). split; [congruence|]. exists t. split; [congruence|done].
Qed.

(** ** Witnesses *)

Definition quiet_config : config := {|
  immediate := true; has_steering := false; intentTracing := true; has_before := false; has_after := false;
  getToolContext := fun _ => Ok tt; transformToolCallArguments := fun a _ => Ok a |}.

Definition mixed_calls : list tool_call := [plain_call "a" "read"; plain_call "d" "write"; plain_call "e" "read"].
Definition mixed_run : list stimulus := [Started 0; Executed 0 (Ok done_value); Finished 0 1; Started 1].
Definition mixed : option batch := run quiet_config plain_tools id (startBatch plain_tools mixed_calls) mixed_run.

Lemma exclusive_runs_alone_witness : exists b, mixed = Some b /\ phases b !! 1 = Some Executing /\
  forall j q, j <> 1 -> phases b !! j = Some q -> is_active q = false /\ (j < 1 -> is_settled q = true).
Proof.
  eexists. split; [vm_compute; reflexivity|]. split; [reflexivity|].
  refine (exclusive_runs_alone quiet_config plain_tools id mixed_calls mixed_run _ 1 (plain_call "d" "write") (plain_tool "write" true) Executing _ _ _ _ _ _); vm_compute; reflexivity.
Defined.

Lemma batch_ends_witness : exists b, plain_run = Some b /\ length (effective interruption) <= 32.
Proof.
  eexists. split; [vm_compute; reflexivity|].
  refine (proj1 (batch_ends plain_config plain_tools id plain_calls interruption _ _)). vm_compute. reflexivity.
Defined.


Lemma interrupting_messages_kept_witness : exists b results, plain_run = Some b /\ executeToolCalls 4 b = Some (results, Some [hello]) /\
  [hello] = replies interruption.
Proof.
  do 2 eexists. split; [vm_compute; reflexivity|]. split; [vm_compute; reflexivity|].
  refine (interrupting_messages_kept plain_config plain_tools id plain_calls interruption _ 4 _ (Some [hello]) _ _); vm_compute; reflexivity.
Defined.

Lemma only_accepted_calls_run_witness : exists b r, mixed = Some b /\ records b !! 1 = Some r /\ onUpdate r = Some [] /\
  incompleteArguments (plain_call "d" "write") = false /\
  exists t, find_tool plain_tools "write" = Some t /\ (has_before quiet_config = false -> accepts t (given quiet_config (toolCall r)) []).
Proof.
  do 2 eexists. split; [vm_compute; reflexivity|]. split; [vm_compute; reflexivity|]. split; [vm_compute; reflexivity|].
  refine (only_accepted_calls_run quiet_config plain_tools id mixed_calls mixed_run _ 1 (plain_call "d" "write") _ [] _ _ _ _); vm_compute; reflexivity.
Defined.

(** ** What the batch does not promise *)

(** A tool that has run to its end when the user's message is noticed is
    reported as skipped, although only the remaining calls are to be. *)
Lemma finished_tool_is_skipped : exists b, plain_run = Some b /\
  records b !! 0 ≫= result = Some createSkippedToolResult /\ In (Executed 0 (Ok done_value)) interruption.
Proof. eexists. split; [vm_compute; reflexivity|]. split; [reflexivity|]. right. right. right. right. by left. Qed.

(** When the queue cannot be read, the calls behind an exclusive one never
    start, and are reported as skipped for a message that does not exist. *)
Lemma failed_check_skips_rest : exists b results,
  run plain_config plain_tools id (startBatch plain_tools [plain_call "d" "write"; plain_call "a" "read"])
    [Started 0; Executed 0 (Ok done_value); Finished 0 1; Steered 0 (Throw "unavailable"); Cleared 0; Resumed 0; NotStarted 1] = Some b /\
  executeToolCalls 2 b = Some (results, None) /\ (exists m, results !! 1 = Some m /\ is_skipped m).
Proof. do 2 eexists. split; [vm_compute; reflexivity|]. split; [vm_compute; reflexivity|]. eexists. split; [reflexivity|done]. Qed.

(** A tool that reports progress after it has returned is shown as running
    after its end. *)
Lemma late_update_follows_end : exists b before after, run quiet_config plain_tools id (startBatch plain_tools [plain_call "a" "read"])
    [Started 0; Executed 0 (Ok done_value); Finished 0 1; Updated 0 done_value] = Some b /\
  events b = before ++ [tool_execution_end "a" "read" (coerceToolResult id done_value).1 false] ++ after /\
  exists res, In (tool_execution_update "a" "read" [] res) after.
Proof.
  eexists _, [_], [_; _; _]. split; [vm_compute; reflexivity|]. split; [vm_compute; reflexivity|]. eexists. right. right. by left.
Qed.
