(* ===== verification/AgentLoop.v ===== *)
(** * The agent loop ([runLoopBody] and [streamAssistantResponse] of
      [agent/src/agent-loop.ts])

    One run of the loop without a managed fallback: turns of the model with the
    tools it calls, the messages the user queues while it runs, the repairs of
    a bad response, and its ends.  What the loop asks of its host is an
    argument, over a state [W] of the host.  Telemetry, credentials and the
    conversion of messages for a provider are not modelled, nor is the intent
    that a tool call is given after its message was stored. *)

From S2P Require Import Prelude JsNumber JsValue JsonClone AgentTypes ToolBatch.

Local Open Scope string_scope.
Local Open Scope list_scope.

(** ** A response as it is streamed *)

(** What the iteration over a response meets: its start, its content (the
    callback may have aborted the run), a response that is complete, the end of
    the iteration without one, an abort, an error. *)
Inductive stream_item :=
| I_start (partial : AssistantMessage)
| I_content (partial : AssistantMessage) (quiet : bool)
| I_incapable
| I_final (m : AssistantMessage)
| I_end (m : AssistantMessage)
| I_aborted (now : Z)
| I_throws (e : string).

(** [messages[messages.length - 1] = m], which leaves an empty array as it
    is. *)
Definition set_last (ms : list AgentMessage) (m : AgentMessage) : list AgentMessage :=
  match ms with [] => [] | _ => removelast ms ++ [m] end.

Definition aborted_message (by_model : provenance) (partial : option AssistantMessage) (now : Z) : AssistantMessage := {|
  content := match partial with Some p => content p | None => [] end; from := by_model; totalTokens := 0; stopReason := "aborted";
  errorMessage := Some "Request was aborted"; timestamp := now |}.

(** [emitAbortedAssistantMessage]: the message, the context and the events. *)
Definition emitAborted (by_model : provenance) (partial : option AssistantMessage) (context : list AgentMessage) (now : Z)
    : AssistantMessage * list AgentMessage * list AgentEvent :=
  let m := aborted_message by_model partial now in
  match partial with
  | Some _ => (m, removelast context, [message_end (M_assistant m)])
  | None => (m, context, [message_start (M_assistant m); message_end (M_assistant m)])
  end.

(** What a response leaves: the message, whether the last message of the
    context is that object, the context and the events.  There is none as long
    as the response goes on. *)
Record streamed := { response : outcome string AssistantMessage; in_context : bool; context_after : list AgentMessage; pushed : list AgentEvent }.

Fixpoint streamAssistantResponse (by_model : provenance) (partial : option AssistantMessage) (context : list AgentMessage) (evs : list AgentEvent)
    (items : list stream_item) : option streamed :=
  match items with
  | [] => None
  | I_start p :: items => streamAssistantResponse by_model (Some p) (context ++ [M_assistant p]) (evs ++ [message_start (M_assistant p)]) items
  | I_content p quiet :: items =>
      match partial with
      | Some _ => streamAssistantResponse by_model (Some p) (set_last context (M_assistant p)) (evs ++ (if quiet then [] else [message_update p])) items
      | None => streamAssistantResponse by_model None context evs items
      end
  | I_incapable :: items => streamAssistantResponse by_model partial context evs items
  | I_final m :: _ =>
      Some match partial with
           | Some _ => {| response := Ok m; in_context := true; context_after := set_last context (M_assistant m); pushed := evs ++ [message_end (M_assistant m)] |}
           | None => {| response := Ok m; in_context := true; context_after := context ++ [M_assistant m];
                        pushed := evs ++ [message_start (M_assistant m); message_end (M_assistant m)] |}
           end
  | I_end m :: _ => Some {| response := Ok m; in_context := false; context_after := context; pushed := evs |}
  | I_aborted now :: _ =>
      let '(m, context, es) := emitAborted by_model partial context now in
      Some {| response := Ok m; in_context := false; context_after := context; pushed := evs ++ es |}
  | I_throws e :: _ => Some {| response := Throw e; in_context := false; context_after := context; pushed := evs |}
  end.

(** ** Repairing a poisoned history *)

Section repair.
Context (neutralizeReservedControlTokens : string -> string).

Definition repair_string (t : string) : string * bool := let next := neutralizeReservedControlTokens t in (next, negb (bool_decide (next = t))).

Definition repair_block (b : block) : block * bool :=
  match b with
  | text_block t => let '(t, changed) := repair_string t in (text_block t, changed)
  | thinking_block t => let '(t, changed) := repair_string t in (thinking_block t, changed)
  | _ => (b, false)
  end.

Definition repair_blocks (bs : list block) : list block * bool :=
  ((fun b => (repair_block b).1) <$> bs, existsb (fun b => (repair_block b).2) bs).

Definition repair_message (m : AgentMessage) : AgentMessage * bool :=
  match m with
  | M_assistant a =>
      let '(bs, changed) := repair_blocks (content a) in
      (M_assistant {| content := bs; from := from a; totalTokens := totalTokens a; stopReason := stopReason a; errorMessage := errorMessage a; timestamp := timestamp a |}, changed)
  | M_toolResult r =>
      let '(bs, changed) := repair_blocks (result_content r) in
      (M_toolResult {| toolCallId := toolCallId r; toolName := toolName r; result_content := bs; details := details r; is_error := is_error r; result_time := result_time r |}, changed)
  | M_other role (string_body t) => let '(t, changed) := repair_string t in (M_other role (string_body t), changed)
  | M_other role (blocks_body bs) => let '(bs, changed) := repair_blocks bs in (M_other role (blocks_body bs), changed)
  | M_other _ no_body => (m, false)
  end.

Definition repairInvalidPromptHistory (ms : list AgentMessage) : list AgentMessage * bool :=
  ((fun m => (repair_message m).1) <$> ms, existsb (fun m => (repair_message m).2) ms).
End repair.

(** ** The host *)

(** A leak of the model's protocol into its response, with the message cut off
    before it where that can be recovered. *)
Record leak := { recovered : option AssistantMessage; label : string }.

Section loop.
Context {W : Type}.

(** A hook that is not configured answers with what the loop takes for its
    absence.  The calls of tools come with the settlings of their batch, and
    the time at its end. *)
Record host := {
  batch_config : config;
  by_model : provenance;
  stripANSI : string -> string;
  neutralize : string -> string;
  detect_leak : AssistantMessage -> option leak;
  isInvalidPromptError : AssistantMessage -> bool;
  contextOverflow : AssistantMessage -> bool;
  aborted : W -> bool;
  tools_of : W -> list tool;
  clock : W -> Z;
  getSteeringMessages : W -> outcome string (list AgentMessage) * W;
  getFollowUpMessages : W -> outcome string (list AgentMessage) * W;
  maintainContext : list AgentMessage -> W -> outcome string (string * list AgentMessage) * W;
  syncContextBeforeModelCall : list AgentMessage -> W -> outcome string (list AgentMessage) * W;
  respond : list AgentMessage -> nat -> W -> list stream_item * W;
  run_tools : list tool_call -> W -> list stimulus * Z * W;
  onHarmonyLeak : string -> W -> outcome string unit * W;
  onBeforeYield : W -> outcome string unit * W;
  shouldPause : W -> outcome string bool * W
}.

Context (h : host).

(** ** The state of a run *)

Record loop := {
  world : W; messages : list AgentMessage; newMessages : list AgentMessage; log : list AgentEvent;
  pendingMessages : list AgentMessage; hasMoreToolCalls : bool; firstTurn : bool; modelHasResponded : bool;
  harmonyRetryAttempt : nat; harmonyTruncateResumeCount : nat; invalidPromptRepairAttempted : bool
}.

Inductive verdict := V_go (s : loop) | V_stop (s : loop) | V_fail (e : string) (s : loop) | V_hang (s : loop).

Definition with_world (s : loop) (w : W) : loop := {|
  world := w; messages := messages s; newMessages := newMessages s; log := log s;
  pendingMessages := pendingMessages s; hasMoreToolCalls := hasMoreToolCalls s; firstTurn := firstTurn s; modelHasResponded := modelHasResponded s;
  harmonyRetryAttempt := harmonyRetryAttempt s; harmonyTruncateResumeCount := harmonyTruncateResumeCount s;
  invalidPromptRepairAttempted := invalidPromptRepairAttempted s |}.

Definition with_messages (s : loop) (ms news : list AgentMessage) : loop := {|
  world := world s; messages := ms; newMessages := news; log := log s;
  pendingMessages := pendingMessages s; hasMoreToolCalls := hasMoreToolCalls s; firstTurn := firstTurn s; modelHasResponded := modelHasResponded s;
  harmonyRetryAttempt := harmonyRetryAttempt s; harmonyTruncateResumeCount := harmonyTruncateResumeCount s;
  invalidPromptRepairAttempted := invalidPromptRepairAttempted s |}.

Definition emit (s : loop) (es : list AgentEvent) : loop := {|
  world := world s; messages := messages s; newMessages := newMessages s; log := log s ++ es;
  pendingMessages := pendingMessages s; hasMoreToolCalls := hasMoreToolCalls s; firstTurn := firstTurn s; modelHasResponded := modelHasResponded s;
  harmonyRetryAttempt := harmonyRetryAttempt s; harmonyTruncateResumeCount := harmonyTruncateResumeCount s;
  invalidPromptRepairAttempted := invalidPromptRepairAttempted s |}.

(** The messages that a queue hands over become the pending ones. *)
Definition take_messages (s : loop) (ms : list AgentMessage) : loop := {|
  world := world s; messages := messages s; newMessages := newMessages s; log := log s;
  pendingMessages := ms; hasMoreToolCalls := hasMoreToolCalls s; firstTurn := firstTurn s; modelHasResponded := modelHasResponded s;
  harmonyRetryAttempt := harmonyRetryAttempt s; harmonyTruncateResumeCount := harmonyTruncateResumeCount s;
  invalidPromptRepairAttempted := invalidPromptRepairAttempted s |}.

Definition with_counts (s : loop) (retries resumes : nat) (repaired : bool) : loop := {|
  world := world s; messages := messages s; newMessages := newMessages s; log := log s;
  pendingMessages := pendingMessages s; hasMoreToolCalls := hasMoreToolCalls s; firstTurn := firstTurn s; modelHasResponded := modelHasResponded s;
  harmonyRetryAttempt := retries; harmonyTruncateResumeCount := resumes;
  invalidPromptRepairAttempted := repaired |}.

Definition with_more (s : loop) (more : bool) : loop := {|
  world := world s; messages := messages s; newMessages := newMessages s; log := log s;
  pendingMessages := pendingMessages s; hasMoreToolCalls := more; firstTurn := firstTurn s; modelHasResponded := modelHasResponded s;
  harmonyRetryAttempt := harmonyRetryAttempt s; harmonyTruncateResumeCount := harmonyTruncateResumeCount s;
  invalidPromptRepairAttempted := invalidPromptRepairAttempted s |}.

Definition with_response (s : loop) : loop := {|
  world := world s; messages := messages s; newMessages := newMessages s; log := log s;
  pendingMessages := pendingMessages s; hasMoreToolCalls := hasMoreToolCalls s; firstTurn := firstTurn s; modelHasResponded := true;
  harmonyRetryAttempt := harmonyRetryAttempt s; harmonyTruncateResumeCount := harmonyTruncateResumeCount s;
  invalidPromptRepairAttempted := invalidPromptRepairAttempted s |}.

(** The host is asked; an error ends the run. *)
Definition ask {A} (r : outcome string A * W) (s : loop) (k : A -> loop -> verdict) : verdict :=
  match r with
  | (Ok a, w) => k a (with_world s w)
  | (Throw e, w) => V_fail e (with_world s w)
  end.

(** ** A turn *)

(** The messages that are pending enter the context. *)
Definition commitPending (s : loop) : loop := {|
  world := world s; messages := messages s ++ pendingMessages s; newMessages := newMessages s ++ pendingMessages s;
  log := log s ++ concat ((fun m => [message_start m; message_end m]) <$> pendingMessages s);
  pendingMessages := []; hasMoreToolCalls := hasMoreToolCalls s; firstTurn := firstTurn s; modelHasResponded := modelHasResponded s;
  harmonyRetryAttempt := harmonyRetryAttempt s; harmonyTruncateResumeCount := harmonyTruncateResumeCount s;
  invalidPromptRepairAttempted := invalidPromptRepairAttempted s |}.

Definition beginTurn (s : loop) : loop :=
  let s := if firstTurn s then {|
             world := world s; messages := messages s; newMessages := newMessages s; log := log s;
             pendingMessages := pendingMessages s; hasMoreToolCalls := hasMoreToolCalls s; firstTurn := false; modelHasResponded := modelHasResponded s;
             harmonyRetryAttempt := harmonyRetryAttempt s; harmonyTruncateResumeCount := harmonyTruncateResumeCount s;
             invalidPromptRepairAttempted := invalidPromptRepairAttempted s |}
           else emit s [turn_start] in
  commitPending s.

(** [stream.push(agent_end); stream.end(newMessages)] *)
Definition endRun (s : loop) (reason : string) (outcome : option string) : verdict :=
  V_stop (emit s [agent_end (newMessages s) reason outcome]).

Definition maintain (s : loop) (k : loop -> verdict) : verdict :=
  if modelHasResponded s && negb (aborted h (world s)) then
    ask (maintainContext h (messages s) (world s)) s (fun '(maintenanceOutcome, ms) s =>
      let s := with_messages s ms (newMessages s) in
      let outcome := if aborted h (world s) then "aborted" else maintenanceOutcome in
      if decide (outcome = "not-needed") then k s else endRun s "maintenance" (Some outcome))
  else k s.

(** A message of the assistant at the end of the context is replaced, or
    dropped. *)
Definition last_is_assistant (ms : list AgentMessage) : bool := match last ms with Some m => is_assistant m | None => false end.

Definition replaceContaminated (s : loop) (m : AssistantMessage) : loop :=
  if last_is_assistant (messages s) then with_messages s (set_last (messages s) (M_assistant m)) (newMessages s) else s.

Definition dropContaminated (s : loop) : loop :=
  if last_is_assistant (messages s) then with_messages s (removelast (messages s)) (newMessages s) else s.

Definition proxy_overflow : string := "Provider returned an empty response with anomalously low token usage (possible context overflow via proxy)".

(** An empty response that overflowed the context is an error. *)
Definition convertOverflow (m : AssistantMessage) (overflow : bool) : AssistantMessage :=
  if bool_decide (stopReason m = "stop") && bool_decide (length (content m) = 0) && overflow then {|
    content := content m; from := from m; totalTokens := totalTokens m; stopReason := "error";
    errorMessage := Some match errorMessage m with
                         | Some e => if decide (e = "") then proxy_overflow else e +:+ " | " +:+ proxy_overflow
                         | None => proxy_overflow
                         end;
    timestamp := timestamp m |}
  else m.

Definition is_failed (m : AssistantMessage) : bool := bool_decide (stopReason m = "error") || bool_decide (stopReason m = "aborted").

(** The calls of a failed response are answered by placeholders. *)
Definition abortCalls (s : loop) (m : AssistantMessage) : list ToolResultMessage * list AgentEvent :=
  let made := (fun c => createAbortedToolResult c (stopReason m) (errorMessage m) (clock h (world s))) <$> tool_calls (content m) in
  (made.*1, concat made.*2).

Definition addResults (s : loop) (rs : list ToolResultMessage) : loop :=
  with_messages s (messages s ++ (M_toolResult <$> rs)) (newMessages s ++ (M_toolResult <$> rs)).

(** The queue is asked at the end of a turn. *)
Definition poll (s : loop) : verdict :=
  ask (getSteeringMessages h (world s)) s (fun ms s =>
    let s := take_messages s ms in
    match ms with
    | [] => ask (shouldPause h (world s)) s (fun pause s => if pause then endRun s "paused" None else V_go s)
    | _ => V_go s
    end).

Definition runCalls (s : loop) (m : AssistantMessage) : verdict :=
  let calls := tool_calls (content m) in
  let tools := tools_of h (world s) in
  let '(ss, now, w) := run_tools h calls (world s) in
  let s := with_world s w in
  match run (batch_config h) tools (stripANSI h) (startBatch tools calls) ss with
  | None => V_hang s
  | Some b =>
      match executeToolCalls now b with
      | None => V_hang s
      | Some (results, steering) =>
          let s := emit (addResults (emit s (events (sweep now b))) results) [turn_end m results] in
          match steering with
          | Some (x :: ms) => V_go (take_messages s (x :: ms))
          | _ => poll s
          end
      end
  end.

(** A response is stored, and what it asks for is done. *)
Definition commitResponse (s : loop) (m0 : AssistantMessage) (committed : bool) : verdict :=
  let m := convertOverflow m0 (contextOverflow h m0) in
  let s := with_response (with_messages s (if committed then set_last (messages s) (M_assistant m) else messages s) (newMessages s ++ [M_assistant m])) in
  if is_failed m then
    let '(results, es) := abortCalls s m in
    endRun (emit (addResults (emit s es) results) [turn_end m results]) "completed" None
  else
    match tool_calls (content m) with
    | [] => poll (emit (with_more s false) [turn_end m []])
    | _ => runCalls (with_more s true) m
    end.

(** A history that the provider rejects is repaired once.  The messages of the
    run are the objects of the context. *)
Definition repairPrompt (s : loop) (m : AssistantMessage) (committed : bool) : verdict :=
  if bool_decide (stopReason m = "error") && negb (invalidPromptRepairAttempted s) && isInvalidPromptError h m then
    let '(ms, changed) := repairInvalidPromptHistory (neutralize h) (messages s) in
    let mend := fun ms => (repairInvalidPromptHistory (neutralize h) ms).1 in
    let s := with_counts (with_messages s ms (mend (newMessages s))) (harmonyRetryAttempt s) (harmonyTruncateResumeCount s) true in
    if changed then V_go s else commitResponse s m committed
  else commitResponse s m committed.

Definition settleLeak (s : loop) (m : AssistantMessage) (committed : bool) : verdict :=
  match detect_leak h m with
  | None => repairPrompt (with_counts s 0 0 (invalidPromptRepairAttempted s)) m committed
  | Some l =>
      match recovered l with
      | Some m' =>
          if decide (2 <= harmonyTruncateResumeCount s) then
            ask (onHarmonyLeak h "escalated" (world s)) s
              (fun _ s => V_fail ("GPT-5 Harmony leak recurred after truncate-and-resume recovery (" +:+ label l +:+ ").") s)
          else
            let s := with_counts s (harmonyRetryAttempt s) (S (harmonyTruncateResumeCount s)) (invalidPromptRepairAttempted s) in
            let committed := last_is_assistant (messages s) in
            let s := replaceContaminated s m' in
            ask (onHarmonyLeak h "truncate_resume" (world s)) s (fun _ s => repairPrompt s m' committed)
      | None =>
          if decide (2 <= harmonyRetryAttempt s) then
            ask (onHarmonyLeak h "escalated" (world s)) s
              (fun _ s => V_fail ("GPT-5 Harmony leak persisted after " +:+ show_Z (Z.of_nat (harmonyRetryAttempt s)) +:+ " retries (" +:+ label l +:+ ").") s)
          else
            ask (onHarmonyLeak h "abort_retry" (world s)) s
              (fun _ s => V_go (dropContaminated (with_counts s (S (harmonyRetryAttempt s)) (harmonyTruncateResumeCount s) (invalidPromptRepairAttempted s))))
      end
  end.

Definition request (s : loop) : verdict :=
  ask (syncContextBeforeModelCall h (messages s) (world s)) s (fun ms s =>
    let s := with_messages s ms (newMessages s) in
    let '(items, w) := respond h (messages s) (harmonyRetryAttempt s) (world s) in
    let s := with_world s w in
    match streamAssistantResponse (by_model h) None (messages s) [] items with
    | None => V_hang s
    | Some r =>
        let s := emit (with_messages s (context_after r) (newMessages s)) (pushed r) in
        match response r with
        | Ok m => settleLeak s m (in_context r)
        | Throw e => V_fail e s
        end
    end).

(** ** The loop *)

Definition innerTurn (s : loop) : verdict := maintain (beginTurn s) request.

(** The agent would stop. *)
Definition yieldRun (s : loop) : verdict :=
  ask (onBeforeYield h (world s)) s (fun _ s =>
    ask (shouldPause h (world s)) s (fun pause s =>
      if pause then endRun s "paused" None
      else
        ask (getFollowUpMessages h (world s)) s (fun ms s =>
          match ms with
          | [] => endRun s "completed" None
          | _ => V_go (with_more (take_messages s ms) true)
          end))).

Definition goes_on (s : loop) : bool := hasMoreToolCalls s || negb (bool_decide (pendingMessages s = [])).

(** One turn of the inner loop, or of the outer one where it has ended. *)
Definition turn (s : loop) : verdict := if goes_on s then innerTurn s else yieldRun s.

Fixpoint turns (n : nat) (v : verdict) : verdict :=
  match n, v with
  | S n, V_go s => turns n (turn s)
  | _, _ => v
  end.

Definition startRun (context prompts : list AgentMessage) (es : list AgentEvent) (w : W) : verdict :=
  let s := {| world := w; messages := context ++ prompts; newMessages := prompts; log := es;
              pendingMessages := []; hasMoreToolCalls := true; firstTurn := true; modelHasResponded := false;
              harmonyRetryAttempt := 0; harmonyTruncateResumeCount := 0; invalidPromptRepairAttempted := false |} in
  ask (getSteeringMessages h w) s (fun ms s => V_go (take_messages s ms)).

Definition agentLoop (prompts context : list AgentMessage) (w : W) : verdict :=
  startRun context prompts (agent_start :: turn_start :: concat ((fun m => [message_start m; message_end m]) <$> prompts)) w.

(** The loop goes on from a context that the model can answer. *)
Definition agentLoopContinue (context : list AgentMessage) (w : W) : outcome string verdict :=
  match last context with
  | None => Throw "Cannot continue: no messages in context"
  | Some m => if is_assistant m then Throw "Cannot continue from message role: assistant"
              else Ok (startRun context [] [agent_start; turn_start] w)
  end.
End loop.

Arguments loop W : clear implicits.
Arguments host W : clear implicits.
Arguments verdict W : clear implicits.
