(* ===== verification/AgentLoopRuns.v ===== *)
(** * What a run of the agent loop guarantees

    The transcript a run returns answers every call where it stands and keeps
    everything that the user said; the model is sent that transcript; a run
    ends once. *)

From S2P Require Import Prelude JsNumber JsValue JsonClone AgentTypes ToolBatch ToolBatchRuns ToolBatchSchedule AgentLoop.

Local Open Scope string_scope.
Local Open Scope list_scope.

(** ** Transcripts *)

Definition is_spoken (m : AgentMessage) : bool := match m with M_other _ _ => true | _ => false end.
Definition spoken (ms : list AgentMessage) : list AgentMessage := List.filter is_spoken ms.

(** The calls of a message are answered right behind it, each once. *)
Inductive paired : list AgentMessage -> Prop :=
| P_nil : paired []
| P_spoken m ms : is_spoken m = true -> paired ms -> paired (m :: ms)
| P_turn a rs ms :
    (toolCallId <$> rs) ≡ₚ (call_id <$> tool_calls (content a)) -> paired ms -> paired (M_assistant a :: (M_toolResult <$> rs) ++ ms).

Lemma spoken_cons m ms : spoken (m :: ms) = if is_spoken m then m :: spoken ms else spoken ms.
Proof. done. Qed.

Lemma paired_app l l' : paired l -> paired l' -> paired (l ++ l').
Proof.
  induction 1 as [|m ms Hm _ IH|a rs ms Hp _ IH]; intros Hl'; [done|by apply P_spoken, IH|]. cbn. rewrite <- app_assoc. by apply P_turn, IH.
Qed.

Lemma paired_spoken ms : Forall (fun m => is_spoken m = true) ms -> paired ms.
Proof. induction 1; by constructor. Qed.

Lemma spoken_app l l' : spoken (l ++ l') = spoken l ++ spoken l'.
Proof. apply List.filter_app. Qed.

Lemma spoken_all ms : Forall (fun m => is_spoken m = true) ms -> spoken ms = ms.
Proof. induction 1 as [|m ms Hm _ IH]; [done|]. by rewrite spoken_cons, Hm, IH. Qed.

Lemma spoken_results rs : spoken (M_toolResult <$> rs) = [].
Proof. by induction rs. Qed.

(** A transcript that is repaired keeps its shape. *)
Section repaired.
Context (f : string -> string).
Local Notation mend := (fun m => (repair_message f m).1).

Lemma repair_spoken m : is_spoken (mend m) = is_spoken m.
Proof. destruct m as [a|r|role [|t|bs]]; try done. Qed.

Lemma repaired_calls bs : tool_calls (repair_blocks f bs).1 = tool_calls bs.
Proof. unfold tool_calls. induction bs as [|b bs IH]; [done|]. cbn. cbn in IH. rewrite IH. by destruct b. Qed.

Lemma repaired_list ms : (repairInvalidPromptHistory f ms).1 = mend <$> ms.
Proof. done. Qed.

Lemma repaired_filter ms : spoken (mend <$> ms) = mend <$> spoken ms.
Proof. induction ms as [|m ms IH]; [done|]. rewrite fmap_cons, !spoken_cons, repair_spoken, IH. by destruct (is_spoken m). Qed.

Lemma repaired_results (rs : list ToolResultMessage) : exists rs' : list ToolResultMessage, mend <$> (M_toolResult <$> rs) = M_toolResult <$> rs' /\ toolCallId <$> rs' = toolCallId <$> rs.
Proof.
  induction rs as [|r rs (rs' & E & E')]; [by exists []|]. cbn in *. eexists (_ :: rs'). cbn. rewrite E, <- E'. split; reflexivity.
Qed.

Lemma repaired_paired ms : paired ms -> paired (mend <$> ms).
Proof.
  induction 1 as [|m ms Hm _ IH|a rs ms Hp _ IH]; [constructor|cbn; apply P_spoken; [by rewrite repair_spoken|done]|].
  rewrite fmap_cons, fmap_app. destruct (repaired_results rs) as (rs' & -> & E). cbn. apply P_turn; [|done]. cbn.
  change ((fun b => (repair_block f b).1) <$> content a) with (repair_blocks f (content a)).1. by rewrite repaired_calls, E.
Qed.
End repaired.

(** ** The user's queues

    [said w] is what the queues have handed over when the host is in the state
    [w]: messages of the user, by the two queues or to a batch of tools. *)
Record queues {W} (h : host W) (said : W -> list AgentMessage) : Prop := {
  q_steering w r w' : getSteeringMessages h w = (r, w') ->
    match r with Ok ms => said w' = said w ++ ms /\ Forall (fun m => is_spoken m = true) ms | Throw _ => said w' = said w end;
  q_followup w r w' : getFollowUpMessages h w = (r, w') ->
    match r with Ok ms => said w' = said w ++ ms /\ Forall (fun m => is_spoken m = true) ms | Throw _ => said w' = said w end;
  q_tools calls w ss now w' : run_tools h calls w = (ss, now, w') -> said w' = said w ++ replies ss /\ Forall (fun m => is_spoken m = true) (replies ss);
  q_maintain ms w : said (maintainContext h ms w).2 = said w;
  q_sync ms w : said (syncContextBeforeModelCall h ms w).2 = said w;
  q_respond ms n w : said (respond h ms n w).2 = said w;
  q_leak a w : said (onHarmonyLeak h a w).2 = said w;
  q_yield w : said (onBeforeYield h w).2 = said w;
  q_pause w : said (shouldPause h w).2 = said w
}.

Section runs.
Context {W : Type} (h : host W) (said : W -> list AgentMessage) (prompts : list AgentMessage).
Context (Hq : queues h said).
Local Notation mend := (fun m => (repair_message (neutralize h) m).1).

(** A message as it stands in the transcript: word for word, unless the
    history had to be repaired. *)
Definition kept_as (repaired : bool) (x y : AgentMessage) : Prop := y = x \/ (repaired = true /\ y = mend x).

Definition kept (s : loop W) : Prop :=
  paired (newMessages s) /\ Forall (fun m => is_spoken m = true) (pendingMessages s) /\
  Forall2 (kept_as (invalidPromptRepairAttempted s)) (prompts ++ said (world s)) (spoken (newMessages s) ++ pendingMessages s).

(** What every turn of the loop leaves. *)
Definition safe (v : verdict W) : Prop :=
  match v with
  | V_go s => kept s
  | V_stop s => kept s /\ pendingMessages s = []
  | V_fail _ s => kept s
  | V_hang _ => True
  end.

Lemma kept_same s s' :
  kept s -> newMessages s' = newMessages s -> pendingMessages s' = pendingMessages s -> said (world s') = said (world s) ->
  (invalidPromptRepairAttempted s = true -> invalidPromptRepairAttempted s' = true) -> kept s'.
Proof.
  intros (H1 & H2 & H3) Hn Hp Hw Hf. unfold kept. rewrite Hn, Hp, Hw. split; [done|split; [done|]]. eapply Forall2_impl; [exact H3|].
  intros x y [->|[Hr ->]]; [by left|right; auto].
Qed.

Lemma ask_safe {A} (r : outcome string A * W) s k :
  kept s -> said r.2 = said (world s) -> (forall a w, r = (Ok a, w) -> kept (with_world s w) -> safe (k a (with_world s w))) -> safe (ask r s k).
Proof.
  intros Hk Hw Hgo. assert (kept (with_world s r.2)) by (by eapply kept_same). destruct r as [[a|e] w]; cbn in *; [by apply Hgo|done].
Qed.

Lemma kept_take s w ms :
  kept s -> pendingMessages s = [] -> said w = said (world s) ++ ms -> Forall (fun m => is_spoken m = true) ms -> kept (take_messages (with_world s w) ms).
Proof.
  intros (H1 & H2 & H3) Hp Hw Hms. split; [done|split; [done|]]. cbn. rewrite Hw, app_assoc. rewrite Hp, app_nil_r in H3. apply Forall2_app; [done|].
  apply Forall_Forall2_diag, Forall_true. by left.
Qed.

Lemma endRun_safe s reason o : kept s -> pendingMessages s = [] -> safe (endRun s reason o).
Proof. intros Hk Hp. split; [by eapply kept_same|done]. Qed.

Lemma poll_safe s : kept s -> pendingMessages s = [] -> safe (poll h s).
Proof.
  intros Hk Hp. unfold poll, ask. destruct (getSteeringMessages h (world s)) as [[ms|e] w] eqn:E; pose proof (q_steering h said Hq _ _ _ E) as Hs; cbn in Hs.
  - destruct Hs as [Hs Hms]. pose proof (kept_take s w ms Hk Hp Hs Hms) as Hk'. destruct ms as [|m ms]; [|done].
    change (safe (ask (shouldPause h w) (take_messages (with_world s w) []) (fun pause s => if pause then endRun s "paused" None else V_go s))).
    apply ask_safe; [done|apply (q_pause h said Hq)|]. intros [] w' _ Hk2; [by apply endRun_safe|done].
  - by eapply kept_same.
Qed.

(** A response and the results of its calls are stored. *)
Lemma kept_turn s s' m rs :
  kept s -> pendingMessages s = [] -> (toolCallId <$> rs) ≡ₚ (call_id <$> tool_calls (content m)) ->
  newMessages s' = newMessages s ++ M_assistant m :: (M_toolResult <$> rs) -> pendingMessages s' = [] -> said (world s') = said (world s) ->
  invalidPromptRepairAttempted s' = invalidPromptRepairAttempted s -> kept s'.
Proof.
  intros (H1 & H2 & H3) Hp Hids Hn Hp' Hw Hf. unfold kept. rewrite Hn, Hp', Hw, Hf. split; [|split; [done|]].
  - apply paired_app; [done|]. rewrite <- (app_nil_r (M_toolResult <$> rs)). by apply P_turn; [|constructor].
  - rewrite Hp, app_nil_r in H3. by rewrite spoken_app, spoken_cons, spoken_results, !app_nil_r.
Qed.

Lemma runCalls_safe s0 s m :
  kept s0 -> pendingMessages s0 = [] -> newMessages s = newMessages s0 ++ [M_assistant m] -> pendingMessages s = [] -> world s = world s0 ->
  invalidPromptRepairAttempted s = invalidPromptRepairAttempted s0 -> safe (runCalls h s m).
Proof.
  intros Hk Hp0 Hn Hp Hw Hf. unfold runCalls. destruct (run_tools h (tool_calls (content m)) (world s)) as [[ss now] w] eqn:Et.
  destruct (q_tools h said Hq _ _ _ _ _ Et) as [Hsaid Hspoken]. rewrite Hw in Hsaid. destruct (run _ _ _ _ ss) as [b|] eqn:Erun; [|done].
  destruct (executeToolCalls now b) as [[results steering]|] eqn:Eex; [|done].
  pose proof (batch_messages _ _ _ _ _ _ _ _ _ Erun Eex) as Hms. destruct (batch_results _ _ _ _ _ _ _ _ _ Erun Eex) as [Hids _].
  set (s2 := emit _ _). assert (Hk2 : kept (with_world s2 (world s0))).
  { eapply (kept_turn s0 _ m results); [done|done| | |done..].
    - apply (fmap_Permutation fst) in Hids. by rewrite <- !list_fmap_compose in Hids.
    - cbn. by rewrite Hn, <- app_assoc. }
  destruct steering as [[|x ms]|]; cbn in Hms.
  - apply poll_safe; [|done]. eapply kept_same; [exact Hk2|done..| |done]. cbn. by rewrite Hsaid, <- Hms, app_nil_r.
  - change (kept (take_messages (with_world (with_world s2 (world s0)) w) (x :: ms))). apply kept_take; [done|done|by rewrite Hsaid, <- Hms|by rewrite Hms].
  - apply poll_safe; [|done]. eapply kept_same; [exact Hk2|done..| |done]. cbn. by rewrite Hsaid, <- Hms, app_nil_r.
Qed.

Lemma abortCalls_ids s m : toolCallId <$> (abortCalls h s m).1 = call_id <$> tool_calls (content m).
Proof. unfold abortCalls. cbn. rewrite <- !list_fmap_compose. by apply list_fmap_ext. Qed.

Lemma commitResponse_safe s m committed : kept s -> pendingMessages s = [] -> safe (commitResponse h s m committed).
Proof.
  intros Hk Hp. unfold commitResponse. set (m1 := convertOverflow _ _). set (s1 := with_response _). destruct (is_failed m1).
  - destruct (abortCalls h s1 m1) as [results es] eqn:E. apply endRun_safe; [|done].
    eapply (kept_turn s _ m1 results); [done|done| | |done..].
    + pose proof (abortCalls_ids s1 m1) as Hids. rewrite E in Hids. cbn in Hids. by rewrite Hids.
    + cbn. by rewrite <- app_assoc.
  - destruct (tool_calls (content m1)) as [|c cs] eqn:Ec.
    + apply poll_safe; [|done]. eapply (kept_turn s _ m1 []); [done|done|by rewrite Ec|done..].
    + by eapply (runCalls_safe s).
Qed.

Lemma repairPrompt_safe s m committed : kept s -> pendingMessages s = [] -> safe (repairPrompt h s m committed).
Proof.
  intros Hk Hp. unfold repairPrompt. destruct (_ && _) eqn:E; [|by apply commitResponse_safe]. destruct (repairInvalidPromptHistory _ (messages s)) as [ms changed].
  apply andb_true_iff in E as [[_ Hf%negb_true_iff]%andb_true_iff _]. set (s1 := with_counts _ _ _ _).
  assert (Hk1 : kept s1).
  { destruct Hk as (H1 & H2 & H3). split; [by apply repaired_paired|split; [done|]]. cbn. rewrite Hf, Hp, app_nil_r in H3. rewrite Hp, app_nil_r.
    change ((repairInvalidPromptHistory (neutralize h) (newMessages s)).1) with (mend <$> newMessages s). rewrite repaired_filter. apply Forall2_fmap_r.
    eapply Forall2_impl; [exact H3|]. intros x y [->|[? _]]; [by right|done]. }
  destruct changed; [done|by apply commitResponse_safe].
Qed.

Lemma kept_pending s s' : pendingMessages s = [] -> kept s -> newMessages s' = newMessages s -> pendingMessages s' = pendingMessages s ->
  world s' = world s -> invalidPromptRepairAttempted s' = invalidPromptRepairAttempted s -> kept s' /\ pendingMessages s' = [].
Proof. intros Hp Hk Hn Hp' Hw Hf. split; [|by rewrite Hp']. eapply kept_same; [done|done|done|by rewrite Hw|by rewrite Hf]. Qed.

Lemma settleLeak_safe s m committed : kept s -> pendingMessages s = [] -> safe (settleLeak h s m committed).
Proof.
  intros Hk Hp. unfold settleLeak. destruct (detect_leak h m) as [l|]; [|by apply repairPrompt_safe; [eapply kept_same|]].
  destruct (recovered l) as [m'|]; case_decide.
  - apply ask_safe; [done|apply (q_leak h said Hq)|done].
  - set (s1 := replaceContaminated _ _). assert (kept s1 /\ pendingMessages s1 = []) as [Hk1 Hp1].
    { apply (kept_pending s); [done|done|..]; unfold s1, replaceContaminated; by case_match. }
    apply ask_safe; [done|apply (q_leak h said Hq)|]. intros _ w _ Hk2. by apply repairPrompt_safe.
  - apply ask_safe; [done|apply (q_leak h said Hq)|done].
  - apply ask_safe; [done|apply (q_leak h said Hq)|]. intros _ w _ Hk2. eapply kept_same; [exact Hk2|..]; unfold dropContaminated; by case_match.
Qed.

Lemma request_safe s : kept s -> pendingMessages s = [] -> safe (request h s).
Proof.
  intros Hk Hp. unfold request. apply ask_safe; [done|apply (q_sync h said Hq)|]. intros ms w _ Hk1. cbn [with_messages with_world messages harmonyRetryAttempt world].
  destruct (respond h ms (harmonyRetryAttempt s) w) as [items w'] eqn:Er. pose proof (q_respond h said Hq ms (harmonyRetryAttempt s) w) as Hr. rewrite Er in Hr. cbn in Hr.
  destruct (streamAssistantResponse _ _ _ _ items) as [r|]; [|done].
  set (s2 := emit _ (pushed r)).
  assert (Hk2 : kept s2) by (by eapply kept_same). destruct (response r); [by apply settleLeak_safe|done].
Qed.

Lemma innerTurn_safe s : kept s -> safe (innerTurn h s).
Proof.
  intros Hk. unfold innerTurn. set (s1 := beginTurn s).
  assert (Hp : pendingMessages s1 = []) by done.
  assert (Hk1 : kept s1).
  { destruct Hk as (H1 & H2 & H3). assert (Hfields : newMessages s1 = newMessages s ++ pendingMessages s /\ world s1 = world s /\
      invalidPromptRepairAttempted s1 = invalidPromptRepairAttempted s) by (unfold s1, beginTurn; by destruct (firstTurn s)).
    destruct Hfields as (Hn & Hw & Hf). unfold kept. rewrite Hn, Hp, Hw, Hf, spoken_app, (spoken_all (pendingMessages s)), app_nil_r by done.
    split; [apply paired_app; [done|by apply paired_spoken]|by split]. }
  clearbody s1. unfold maintain. destruct (_ && _); [|by apply request_safe].
  apply ask_safe; [done|apply (q_maintain h said Hq)|]. intros [o ms] w _ Hk2. cbn. destruct (decide _); [|by apply endRun_safe; [by eapply kept_same|]].
  apply request_safe; [by eapply kept_same|done].
Qed.

Lemma yieldRun_safe s : kept s -> pendingMessages s = [] -> safe (yieldRun h s).
Proof.
  intros Hk Hp. unfold yieldRun. apply ask_safe; [done|apply (q_yield h said Hq)|]. intros _ w _ Hk1.
  apply ask_safe; [done|apply (q_pause h said Hq)|]. intros [] w1 _ Hk2; [by apply endRun_safe|].
  unfold ask. cbn. destruct (getFollowUpMessages h w1) as [[ms|e] w2] eqn:E; pose proof (q_followup h said Hq _ _ _ E) as Hs; cbn in Hs; [|by eapply kept_same].
  destruct Hs as [Hs Hms]. set (s2 := with_world (with_world (with_world s w) w1) w2).
  assert (Hk3 : kept (take_messages s2 ms)) by (by apply (kept_take (with_world (with_world s w) w1) w2)).
  destruct ms as [|x ms]; [apply endRun_safe; [by eapply kept_same|done]|by eapply kept_same].
Qed.

Lemma turn_safe s : kept s -> safe (turn h s).
Proof.
  intros Hk. unfold turn. destruct (goes_on s) eqn:E; [by apply innerTurn_safe|]. apply yieldRun_safe; [done|].
  unfold goes_on in E. apply orb_false_iff in E as [_ E]. apply negb_false_iff in E. by apply bool_decide_eq_true in E.
Qed.

Lemma turns_safe n v : safe v -> safe (turns h n v).
Proof. revert v. induction n as [|n IH]; intros v Hv; [by destruct v|]. destruct v; try done. apply IH, turn_safe, Hv. Qed.

Lemma startRun_safe context es w : Forall (fun m => is_spoken m = true) prompts -> said w = [] -> safe (startRun h context prompts es w).
Proof.
  intros Hpr Hw. unfold startRun.
  assert (Hk : forall s, newMessages s = prompts -> pendingMessages s = [] -> world s = w -> kept s).
  { intros s Hn Hp Hws. unfold kept. rewrite Hn, Hp, Hws, Hw, !app_nil_r, spoken_all by done. split; [by apply paired_spoken|split; [done|]].
    apply Forall_Forall2_diag, Forall_true. by left. }
  unfold ask. destruct (getSteeringMessages h w) as [[ms|e] w'] eqn:E; pose proof (q_steering h said Hq _ _ _ E) as Hs; cbn in Hs.
  - destruct Hs as [Hs Hms]. eapply (kept_take _ w' ms); [by apply Hk|done|done|done].
  - match goal with |- safe (V_fail _ (with_world ?s0 _)) => apply (kept_same s0); [by apply Hk|try done..] end.
Qed.
Lemma agentLoop_safe context w : Forall (fun m => is_spoken m = true) prompts -> said w = [] -> safe (agentLoop h prompts context w).
Proof. apply startRun_safe. Qed.
End runs.

(** C1.  Whatever the model, the tools, the user and the host do, the messages
    a run returns answer every tool call right behind the message that makes
    it, each call once - also when the response failed or was aborted, when the
    user interrupted the tools, when the run was paused, maintained or broken
    off by an error. *)
Theorem transcript_is_paired {W} (h : host W) said prompts context w n v :
  queues h said -> said w = [] -> Forall (fun m => is_spoken m = true) prompts -> turns h n (agentLoop h prompts context w) = v ->
  match v with V_go s | V_stop s | V_fail _ s => paired (newMessages s) | V_hang _ => True end.
Proof.
  intros Hq Hw Hp <-. pose proof (turns_safe h said prompts Hq n _ (agentLoop_safe h said prompts Hq context w Hp Hw)) as Hs.
  destruct (turns h n _) as [s|s|e s|s]; [apply Hs|apply Hs|apply Hs|done].
Qed.

(** C3.  Nothing the user says is lost: when a run stops, its transcript holds
    the prompts and every message that the queues handed over, during the tools
    and between the turns, in order and once, and none is left pending - word
    for word, unless the history had to be repaired. *)
Theorem nothing_said_is_lost {W} (h : host W) said prompts context w n s :
  queues h said -> said w = [] -> Forall (fun m => is_spoken m = true) prompts -> turns h n (agentLoop h prompts context w) = V_stop s ->
  pendingMessages s = [] /\ Forall2 (kept_as h (invalidPromptRepairAttempted s)) (prompts ++ said (world s)) (spoken (newMessages s)).
Proof.
  intros Hq Hw Hp Hrun. pose proof (turns_safe h said prompts Hq n _ (agentLoop_safe h said prompts Hq context w Hp Hw)) as Hs.
  rewrite Hrun in Hs. destruct Hs as [(_ & _ & Hk) Hpend]. split; [done|]. by rewrite Hpend, app_nil_r in Hk.
Qed.

(** ** What the model is sent *)

(** A response starts once, and the iteration over it brings it to its end. *)
Fixpoint orderly (started : bool) (items : list stream_item) : bool :=
  match items with
  | [] => true
  | I_start _ :: items => negb started && orderly true items
  | (I_content _ _ | I_incapable) :: items => orderly started items
  | I_end _ :: _ => false
  | (I_final _ | I_aborted _ | I_throws _) :: _ => true
  end.

(** The host leaves the messages of the context alone, a response that is
    broken off is no leak, and the responses are in order. *)
Record plain {W} (h : host W) : Prop := {
  pl_sync ms w ms' w' : syncContextBeforeModelCall h ms w = (Ok ms', w') -> ms' = ms;
  pl_maintain ms w o ms' w' : maintainContext h ms w = (Ok (o, ms'), w') -> ms' = ms;
  pl_leak m : stopReason m = "aborted" -> detect_leak h m = None;
  pl_respond ms n w : orderly false (respond h ms n w).1 = true
}.

Lemma set_last_snoc l x m : set_last (l ++ [x]) m = l ++ [m].
Proof. unfold set_last. rewrite removelast_last. by destruct l. Qed.

(** A response that comes to its end stands behind the context; one that was
    aborted leaves no trace there. *)
Lemma streamed_context by_model partial c evs items r m :
  streamAssistantResponse by_model partial (match partial with Some p => c ++ [M_assistant p] | None => c end) evs items = Some r ->
  orderly (match partial with Some _ => true | None => false end) items = true -> response r = Ok m ->
  (in_context r = true /\ context_after r = c ++ [M_assistant m]) \/ (in_context r = false /\ context_after r = c /\ stopReason m = "aborted").
Proof.
  revert partial evs. induction items as [|i items IH]; intros partial evs Hr Ho Hm; [done|].
  destruct i as [p|p quiet| |m'|m'|now|e]; cbn in Hr, Ho.
  - destruct partial as [p0|]; [done|by apply (IH (Some p) _ Hr)].
  - destruct partial as [p0|]; [|by apply (IH None _ Hr)]. rewrite set_last_snoc in Hr. by apply (IH (Some p) _ Hr).
  - by apply (IH partial _ Hr).
  - left. destruct partial as [p0|]; injection Hr as <-; cbn in *; injection Hm as ->; rewrite ?set_last_snoc; done.
  - done.
  - right. unfold emitAborted in Hr. destruct partial as [p0|]; injection Hr as <-; cbn in *; injection Hm as <-; rewrite ?removelast_last; done.
  - injection Hr as <-. done.
Qed.

Section mirror.
Context {W : Type} (h : host W) (Hpl : plain h) (base : list AgentMessage).

Definition mirrors (s : loop W) : Prop := invalidPromptRepairAttempted s = false -> messages s = base ++ newMessages s.

Definition mirrored (v : verdict W) : Prop := match v with V_go s => mirrors s | _ => True end.

Lemma ask_mirrored {A} (r : outcome string A * W) s k :
  (forall a w, r = (Ok a, w) -> mirrored (k a (with_world s w))) -> mirrored (ask r s k).
Proof. intros Hk. destruct r as [[a|e] w]; [by apply Hk|done]. Qed.

Lemma poll_mirrored s : mirrors s -> mirrored (poll h s).
Proof.
  intros Hs. unfold poll. apply ask_mirrored. intros ms w _. destruct ms; [|exact Hs]. apply ask_mirrored. intros [] w' _; [done|exact Hs].
Qed.

(** The response stands behind the mirrored context, or the run ends. *)
Lemma commitResponse_mirrored s m committed :
  (invalidPromptRepairAttempted s = false -> is_failed m = true \/ (committed = true /\ messages s = base ++ newMessages s ++ [M_assistant m])) ->
  mirrored (commitResponse h s m committed).
Proof.
  intros Hs. unfold commitResponse. set (m1 := convertOverflow _ _). set (s1 := with_response _).
  destruct (is_failed m1) eqn:Ef; [by destruct (abortCalls h s1 m1)|].
  assert (Hs1 : mirrors s1).
  { intros Hr. cbn. destruct (Hs Hr) as [Hf|[-> ->]].
    - exfalso. revert Ef Hf. unfold m1, convertOverflow, is_failed. destruct (_ && _) eqn:E; [done|congruence].
    - by rewrite app_assoc, set_last_snoc, <- app_assoc. }
  destruct (tool_calls (content m1)); [by apply poll_mirrored|]. unfold runCalls.
  destruct (run_tools h _ _) as [[ss now] w]. destruct (run _ _ _ _ ss) as [b|]; [|done]. destruct (executeToolCalls now b) as [[results steering]|]; [|done].
  assert (Hs2 : mirrors (emit (addResults (emit (with_world (with_more s1 true) w) (events (sweep now b))) results) [turn_end m1 results])).
  { intros Hr. change (messages s1 ++ (M_toolResult <$> results) = base ++ (newMessages s1 ++ (M_toolResult <$> results))). by rewrite (Hs1 Hr), <- app_assoc. }
  destruct steering as [[|x ms]|]; [by apply poll_mirrored|exact Hs2|by apply poll_mirrored].
Qed.

(** What is known of a response that is about to be stored. *)
Definition at_hand (s : loop W) (m : AssistantMessage) (committed : bool) : Prop :=
  invalidPromptRepairAttempted s = false ->
  (committed = true /\ messages s = base ++ newMessages s ++ [M_assistant m]) \/ (committed = false /\ messages s = base ++ newMessages s /\ stopReason m = "aborted").

Lemma at_hand_failed s m committed : at_hand s m committed ->
  invalidPromptRepairAttempted s = false -> is_failed m = true \/ (committed = true /\ messages s = base ++ newMessages s ++ [M_assistant m]).
Proof. intros H Hr. destruct (H Hr) as [?|(_ & _ & Ha)]; [by right|left]. unfold is_failed. by rewrite Ha. Qed.

Lemma repairPrompt_mirrored s m committed : at_hand s m committed -> mirrored (repairPrompt h s m committed).
Proof.
  intros Hs. unfold repairPrompt. destruct (_ && _); [|by apply commitResponse_mirrored, at_hand_failed].
  destruct (repairInvalidPromptHistory _ (messages s)) as [ms [|]]; [done|]. by apply commitResponse_mirrored.
Qed.

Lemma settleLeak_mirrored s m committed : at_hand s m committed -> mirrored (settleLeak h s m committed).
Proof.
  intros Hs. unfold settleLeak. destruct (detect_leak h m) as [l|] eqn:El; [|by apply repairPrompt_mirrored].
  assert (Hc : invalidPromptRepairAttempted s = false -> committed = true /\ messages s = base ++ newMessages s ++ [M_assistant m]).
  { intros Hr. destruct (Hs Hr) as [?|(_ & _ & Ha)]; [done|]. by rewrite (pl_leak h Hpl m Ha) in El. }
  assert (Hlast : invalidPromptRepairAttempted s = false -> last_is_assistant (messages s) = true).
  { intros Hr. destruct (Hc Hr) as [_ ->]. unfold last_is_assistant. by rewrite app_assoc, last_snoc. }
  destruct (recovered l) as [m'|]; case_decide; (apply ask_mirrored; intros [] w _); [done| |done|].
  - apply repairPrompt_mirrored. intros Hr. left. unfold replaceContaminated in *. cbn [with_counts messages] in *.
    assert (Hr' : invalidPromptRepairAttempted s = false) by (by destruct (last_is_assistant (messages s))).
    rewrite (Hlast Hr'). split; [done|]. cbn. destruct (Hc Hr') as [_ ->]. by rewrite !app_assoc, set_last_snoc.
  - intros Hr. unfold dropContaminated in *. cbn [with_counts with_world messages] in *.
    assert (Hr' : invalidPromptRepairAttempted s = false) by (by destruct (last_is_assistant (messages s))).
    rewrite (Hlast Hr'). cbn. destruct (Hc Hr') as [_ ->]. by rewrite app_assoc, removelast_last.
Qed.

Lemma request_mirrored s : mirrors s -> mirrored (request h s).
Proof.
  intros Hs. unfold request. apply ask_mirrored. intros ms w Hsync. rewrite (pl_sync h Hpl _ _ _ _ Hsync). cbn [with_messages with_world messages harmonyRetryAttempt world].
  pose proof (pl_respond h Hpl (messages s) (harmonyRetryAttempt s) w) as Ho. destruct (respond h _ _ _) as [items w']. cbn in Ho.
  destruct (streamAssistantResponse _ _ _ _ items) as [r|] eqn:Er; [|done]. set (s2 := emit _ (pushed r)).
  destruct (response r) as [m|e] eqn:Em; [|done]. apply settleLeak_mirrored. intros Hr. specialize (Hs Hr).
  destruct (streamed_context (by_model h) None (messages s) [] items r m Er Ho Em) as [[Hi Ha]|(Hi & Ha & Hab)]; [left|right]; (split; [done|]); cbn; rewrite Ha, Hs; [by rewrite <- app_assoc|done].
Qed.

Lemma turn_mirrored s : mirrors s -> mirrored (turn h s).
Proof.
  intros Hs. unfold turn. destruct (goes_on s).
  - assert (Hb : mirrors (beginTurn s)).
    { unfold beginTurn, mirrors. destruct (firstTurn s); cbn; intros Hr; rewrite (Hs Hr); by rewrite <- app_assoc. }
    unfold innerTurn, maintain. destruct (_ && _); [|by apply request_mirrored].
    apply ask_mirrored. intros [o ms] w Hm. rewrite (pl_maintain h Hpl _ _ _ _ _ Hm). cbn. destruct (decide _); [|done]. by apply request_mirrored.
  - unfold yieldRun. apply ask_mirrored. intros [] w _. apply ask_mirrored. intros [] w1 _; [done|]. apply ask_mirrored. intros [|x ms] w2 _; [done|exact Hs].
Qed.
End mirror.


(** ** A host with a script

    The responses of the model, the settlings of the batches, and what the
    queues hand over, in order. *)
Record script := {
  responses : list (list stream_item); batches : list (list stimulus);
  steering_queue : list (list AgentMessage); followup_queue : list (list AgentMessage); handed_over : list AgentMessage
}.

Definition hand_over (w : script) (ms : list AgentMessage) : script := {|
  responses := responses w; batches := batches w; steering_queue := steering_queue w; followup_queue := followup_queue w;
  handed_over := handed_over w ++ ms |}.

Definition only_spoken (ss : list stimulus) : list stimulus := if forallb is_spoken (replies ss) then ss else [].

Definition scripted (leaks : AssistantMessage -> option leak) (rejected : AssistantMessage -> bool) (neutral : string -> string) : host script := {|
  batch_config := plain_config; by_model := {| api := "api"; provider := "provider"; model := "model" |};
  stripANSI := id; neutralize := neutral; detect_leak := leaks; isInvalidPromptError := rejected; contextOverflow := fun _ => false;
  aborted := fun _ => false; tools_of := fun _ => plain_tools; clock := fun _ => 0%Z;
  getSteeringMessages := fun w =>
    let ms := spoken (default [] (head (steering_queue w))) in
    (Ok ms, hand_over {| responses := responses w; batches := batches w; steering_queue := tail (steering_queue w); followup_queue := followup_queue w; handed_over := handed_over w |} ms);
  getFollowUpMessages := fun w =>
    let ms := spoken (default [] (head (followup_queue w))) in
    (Ok ms, hand_over {| responses := responses w; batches := batches w; steering_queue := steering_queue w; followup_queue := tail (followup_queue w); handed_over := handed_over w |} ms);
  maintainContext := fun ms w => (Ok ("not-needed", ms), w);
  syncContextBeforeModelCall := fun ms w => (Ok ms, w);
  respond := fun _ _ w =>
    (let items := default [] (head (responses w)) in if orderly false items then items else [],
     {| responses := tail (responses w); batches := batches w; steering_queue := steering_queue w; followup_queue := followup_queue w; handed_over := handed_over w |});
  run_tools := fun _ w =>
    let ss := only_spoken (default [] (head (batches w))) in
    (ss, 9%Z, hand_over {| responses := responses w; batches := tail (batches w); steering_queue := steering_queue w; followup_queue := followup_queue w; handed_over := handed_over w |} (replies ss));
  onHarmonyLeak := fun _ w => (Ok tt, w); onBeforeYield := fun w => (Ok tt, w); shouldPause := fun w => (Ok false, w)
|}.

Lemma spoken_Forall ms : Forall (fun m => is_spoken m = true) (spoken ms).
Proof. unfold spoken. apply Forall_forall. intros m Hm. apply list_elem_of_In, filter_In in Hm. apply Hm. Qed.

Lemma scripted_queues leaks rejected neutral : queues (scripted leaks rejected neutral) handed_over.
Proof.
  split; try done.
  - intros w r w' [= <- <-]. split; [done|apply spoken_Forall].
  - intros w r w' [= <- <-]. split; [done|apply spoken_Forall].
  - intros calls w ss now w' [= <- <- <-]. split; [done|]. unfold only_spoken. destruct (forallb _ _) eqn:E; [by apply forallb_Forall|constructor].
Qed.

Lemma scripted_plain leaks rejected neutral : (forall m, stopReason m = "aborted" -> leaks m = None) -> plain (scripted leaks rejected neutral).
Proof. intros Hl. split; [by intros ? ? ? ? [= <- _]|by intros ? ? ? ? ? [= _ <- _]|done|]. intros ms n w. cbn. destruct (orderly false (default [] (head (responses w)))) eqn:E; [exact E|done]. Qed.

Definition said_by_model (bs : list block) (reason : string) : AssistantMessage :=
  {| content := bs; from := {| api := "api"; provider := "provider"; model := "model" |}; totalTokens := 7%Z; stopReason := reason; errorMessage := None; timestamp := 1%Z |}.
Definition wish (t : string) : AgentMessage := M_other "user" (string_body t).
Definition calls_tools : AssistantMessage := said_by_model [text_block "Let me see"; call_block (plain_call "a" "read"); call_block (plain_call "d" "write")] "toolUse".
Definition answers (t : string) : AssistantMessage := said_by_model [text_block t] "stop".

(** The user interrupts the tools, and has a wish when the model is done. *)
Definition day : script := {|
  responses := [[I_start (said_by_model [] "stop"); I_content calls_tools false; I_final calls_tools]; [I_final (answers "stopped")]; [I_final (answers "bye")]];
  batches := [[Started 0; Executed 0 (Ok done_value); Finished 0 1%Z; Steered 0 (Ok [hello]); Cleared 0; Resumed 0; Started 1]];
  steering_queue := []; followup_queue := [[wish "thanks"]]; handed_over := [] |}.

Definition quiet_host : host script := scripted (fun _ => None) (fun _ => false) id.
Definition day_run (n : nat) : verdict script := turns quiet_host n (agentLoop quiet_host [wish "fix it"] [wish "before"] day).

Lemma transcript_is_paired_witness : exists s, day_run 6 = V_stop s /\ length (newMessages s) = 8 /\ paired (newMessages s).
Proof.
  eexists. split; [vm_compute; reflexivity|]. split; [reflexivity|].
  refine (transcript_is_paired quiet_host handed_over [wish "fix it"] [wish "before"] day 6 (V_stop _) (scripted_queues _ _ _) _ _ _);
    [reflexivity|by repeat constructor|vm_compute; reflexivity].
Defined.

Lemma nothing_said_is_lost_witness : exists s, day_run 6 = V_stop s /\ spoken (newMessages s) = [wish "fix it"; hello; wish "thanks"] /\
  Forall2 (kept_as quiet_host (invalidPromptRepairAttempted s)) ([wish "fix it"] ++ handed_over (world s)) (spoken (newMessages s)).
Proof.
  eexists. split; [vm_compute; reflexivity|]. split; [reflexivity|].
  refine (proj2 (nothing_said_is_lost quiet_host handed_over [wish "fix it"] [wish "before"] day 6 _ (scripted_queues _ _ _) _ _ _));
    [reflexivity|by repeat constructor|vm_compute; reflexivity].
Defined.


(** ** Where a retry goes wrong *)

Definition leaky (m : AssistantMessage) : bool := match content m with [text_block t] => bool_decide (t = "to=functions.read") | _ => false end.
Definition leaky_host : host script := scripted (fun m => if leaky m then Some {| recovered := None; label := "M" |} else None) (fun _ => false) id.

(** A response without tool calls, a message of the user right behind it, and
    then a leak: the loop leaves its turn instead of retrying, and the run
    completes with the user's message unanswered. *)
Lemma leak_retry_is_dropped : exists s, turns leaky_host 4 (agentLoop leaky_host [wish "hi"] [] {|
    responses := [[I_final (answers "hello")]; [I_final (said_by_model [text_block "to=functions.read"] "stop")]; [I_final (answers "here it is")]];
    batches := []; steering_queue := [[]; [wish "read it"]]; followup_queue := []; handed_over := [] |}) = V_stop s /\
  newMessages s = [wish "hi"; M_assistant (answers "hello"); wish "read it"] /\ length (responses (world s)) = 1 /\
  last (log s) = Some (agent_end (newMessages s) "completed" None).
Proof. eexists. split; [vm_compute; reflexivity|]. split; [reflexivity|]. split; reflexivity. Qed.

Definition rejection : AssistantMessage :=
  {| content := [text_block "cut off"]; from := {| api := "api"; provider := "provider"; model := "model" |}; totalTokens := 0%Z; stopReason := "error";
     errorMessage := Some "Request blocked (code=invalid_prompt)"; timestamp := 1%Z |}.
Definition neutral (t : string) : string := if decide (t = "<|end|>") then "< |end|>" else t.
Definition rejecting_host : host script := scripted (fun _ => None) (fun m => bool_decide (errorMessage m = errorMessage rejection)) neutral.

(** The repaired history is sent again with the rejected response still in
    it, which the transcript does not have. *)
Lemma repaired_resend_keeps_error : exists s, turns rejecting_host 1 (agentLoop rejecting_host [wish "<|end|>"] [] {|
    responses := [[I_final rejection]; [I_final (answers "fine")]]; batches := []; steering_queue := []; followup_queue := []; handed_over := [] |}) = V_go s /\
  goes_on s = true /\ messages s = [wish "< |end|>"; M_assistant rejection] /\ newMessages s = [wish "< |end|>"].
Proof. eexists. split; [vm_compute; reflexivity|]. by repeat split. Qed.
