(* ===== verification/AgentSessions.v ===== *)
(** * A run's transcript in the session ([agent/src/agent-loop.ts] with
      [session/session-manager.ts] and [agent/src/compaction/compaction.ts])

    The messages of a run, appended to a session, have their results behind
    their calls: what compaction needs to keep them together. *)

From S2P Require Import Prelude JsNumber JsonClone CodeUnits SessionEntries Compaction CompactionCut AgentTypes AgentLoop AgentLoopRuns.

Local Open Scope list_scope.

(** ** The messages as the session stores them *)

Section stored.
Context (units : string -> text) (usage : AgentTypes.AssistantMessage -> Usage).

Definition stored_block (b : AgentTypes.block) : SessionEntries.block :=
  match b with
  | text_block t => B_text (units t)
  | thinking_block t => B_thinking (units t)
  | image_block _ => B_image
  | call_block c => B_toolCall (call_id c) (call_name c) (V_obj (AgentTypes.arguments c) None)
  end.

Definition stored_body (b : body) : SessionEntries.content :=
  match b with
  | no_body => C_blocks []
  | string_body t => C_text (units t)
  | blocks_body bs => C_blocks (stored_block <$> bs)
  end.

Definition stored (m : AgentTypes.AgentMessage) : SessionEntries.AgentMessage :=
  match m with
  | AgentTypes.M_assistant a =>
      SessionEntries.M_assistant (stored_block <$> AgentTypes.content a) (AgentTypes.provider (from a)) (AgentTypes.model (from a)) (usage a) (AgentTypes.stopReason a)
  | AgentTypes.M_toolResult r => SessionEntries.M_toolResult (AgentTypes.toolCallId r) (AgentTypes.toolName r) (stored_block <$> result_content r) None
  | M_other role b => if decide (role = "developer"%string) then M_developer (stored_body b) else M_user (stored_body b)
  end.

(** The entries that hold the messages of a run. *)
Definition holds (es : list SessionEntry) (ms : list AgentTypes.AgentMessage) : Prop := kind <$> es = (fun m => message (stored m)) <$> ms.

Lemma answered_app es es' : answered es -> answered es' -> answered (es ++ es').
Proof.
  intros H H' j e x Hj Hx. apply lookup_app_Some in Hj as [Hj|[Hlen Hj]].
  - destruct (H j e x Hj Hx) as (i & a & Hi & Ha & Hc & Hb). exists i, a. split; [done|]. split; [by apply lookup_app_l_Some|]. split; [done|].
    intros k b Hk Hkb. apply (Hb k b Hk). rewrite lookup_app_l in Hkb; [done|]. apply lookup_lt_Some in Hj. lia.
  - destruct (H' (j - length es) e x Hj Hx) as (i & a & Hi & Ha & Hc & Hb). exists (length es + i), a. split; [lia|].
    split; [rewrite lookup_app_r by lia; by replace (length es + i - length es) with i by lia|]. split; [done|].
    intros k b Hk Hkb. apply (Hb (k - length es) b); [lia|]. by rewrite lookup_app_r in Hkb by lia.
Qed.

Lemma holds_app es ms ms' : holds es (ms ++ ms') -> exists es1 es2, es = es1 ++ es2 /\ holds es1 ms /\ holds es2 ms'.
Proof. unfold holds. rewrite fmap_app. intros H. apply fmap_app_inv in H as (es1 & es2 & H1 & H2 & ->). by exists es1, es2. Qed.

Lemma called_block x bs : x ∈ (call_id <$> tool_calls bs) ->
  existsb (fun b => match b with B_toolCall y _ _ => bool_decide (y = x) | _ => false end) (stored_block <$> bs) = true.
Proof.
  unfold tool_calls. induction bs as [|b bs IH]; cbn; [by intros ?%not_elem_of_nil|]. destruct b as [t|t|fs|c]; cbn; try exact IH.
  intros [->|H]%elem_of_cons; [by rewrite bool_decide_eq_true_2|]. rewrite IH by done. apply orb_true_r.
Qed.

Lemma held_results es rs : holds es (AgentTypes.M_toolResult <$> rs) ->
  forall k e, es !! k = Some e -> is_cut e = false /\ exists r, r ∈ rs /\ result_of e = Some (AgentTypes.toolCallId r).
Proof.
  unfold holds. intros H k e Hk. assert (Hkind : (kind <$> es) !! k = Some (kind e)) by (by rewrite list_lookup_fmap, Hk).
  rewrite H, !list_lookup_fmap in Hkind. destruct (rs !! k) as [r|] eqn:Er; [|done]. cbn in Hkind. injection Hkind as Hkind.
  unfold is_cut, result_of. rewrite <- Hkind. split; [done|]. exists r. split; [by eapply list_elem_of_lookup_2|done].
Qed.

Lemma paired_answered ms es : paired ms -> holds es ms -> answered es.
Proof.
  intros Hp. revert es. induction Hp as [|m ms Hm _ IH|a rs ms Hids _ IH]; intros es Hh.
  - apply fmap_nil_inv in Hh as ->. intros j e x Hj. by rewrite lookup_nil in Hj.
  - change (m :: ms) with ([m] ++ ms) in Hh. apply holds_app in Hh as (es1 & es2 & -> & H1 & H2). apply answered_app; [|by apply IH].
    intros j e x Hj Hx. exfalso. assert (Hkind : (kind <$> es1) !! j = Some (kind e)) by (by rewrite list_lookup_fmap, Hj).
    rewrite H1 in Hkind. destruct j as [|j]; [|done]. injection Hkind as Hkind. unfold result_of in Hx. rewrite <- Hkind in Hx.
    destruct m as [| |role b]; [done..|]. cbn in Hx. by case_decide.
  - change (AgentTypes.M_assistant a :: ?l ++ ms) with ((AgentTypes.M_assistant a :: l) ++ ms) in Hh.
    apply holds_app in Hh as (es1 & es2 & -> & H1 & H2). apply answered_app; [|by apply IH].
    destruct es1 as [|e0 es1]; [done|]. injection H1 as H0 H1. pose proof (held_results es1 rs H1) as Hr.
    intros [|j] e x Hj Hx; [injection Hj as <-; unfold result_of in Hx; by rewrite H0 in Hx|].
    exists 0, e0. split; [lia|]. split; [done|]. cbn in Hj. destruct (Hr j e Hj) as (_ & r & Hin & Hres). split.
    + unfold calls. rewrite H0. cbn. apply called_block. rewrite <- Hids. rewrite Hres in Hx. injection Hx as <-. by apply list_elem_of_fmap_2.
    + intros [|k] b Hk Hb; [lia|]. by apply (Hr k b).
Qed.
End stored.


Definition no_usage : Usage := {|
  input := 0; output := 0; cacheRead := 0; cacheWrite := 0; SessionEntries.totalTokens := 0; premiumRequests := None; total_cost := SpecFloat.S754_zero false |}.

Definition to_entry (m : AgentTypes.AgentMessage) : SessionEntry :=
  {| entryId := "e"; parentId := None; SessionEntries.timestamp := 0%Z; kind := message (stored (fun _ => []) (fun _ => no_usage) m) |}.

